(* ===== verification/_CoqProject ===== *)
-Q . S2P
Prelude.v
GoLib.v
GoText.v
Crypto.v
Merkle.v
JsonText.v
Json.v
Canonical.v
Rows.v
Entry.v
Signers.v
StrictJson.v
Keyless.v
Verify.v
VerifyFacts.v
Rules.v
Order.v
Summary.v
Derive.v
Append.v
AppendFacts.v
Samples.v
AppendSamples.v
TestMap.v
Select.v
SelectFacts.v
SpanFacts.v
Evidence.v
SelectSamples.v
Shell.v
Argv.v
Commands.v
Redact.v
Float64.v
Shards.v
Invocations.v
Mutant.v
Hunks.v
Jail.v
Score.v
ScoreFacts.v
Adequacy.v
Schedules.v
AdequacySamples.v
Queue.v
Verdict.v
QueueFacts.v
QueuePlan.v
QueueSound.v
QueueSamples.v
Mission.v
MissionFacts.v
MissionPlan.v
MissionSamples.v
Paths.v
Pairing.v
PairingFacts.v
Languages.v
PairingSamples.v
Seats.v
Driver.v
Gate.v
DriverFacts.v
DriverCosts.v
GateFacts.v
Exam.v
DriverSamples.v
GateSamples.v
