(* ===== verification/Prelude.v ===== *)
(** * corral: the grading of tests and the ledger of its results, verified

    corral audits a repository's tests by planting faults, and publishes what it found
    as a signed, append-only ledger. This development models the code that decides:
    how a fault is graded and by which tests, how a run goes from its plan to its verdict, who works on what
    meanwhile, what a ledger proves to a reader, and what is recorded of a command. Paths are under src/.

    ** The program's parts and the files that model them

    The Go parts under everything else.
    - Prelude (this file): the error monad, the tactics and hints the files share,
      stable sorting, sums. GoLib, GoText: the functions of Go's strings, hex, base64,
      bits, time and filepath packages the code calls. Float64: doubles of quotients.
      Paths: those of path/filepath.
    - Crypto: SHA-256 and Ed25519 as classes; no theorem assumes more of them than the
      class's laws, and the results about hashes name the inputs, among those the code itself hashed, that would have to clash.

    The ledger, internal/ledger.
    - JsonText, Json: encoding/json, written out (strings, numbers, documents, the
      generic tree). Canonical (canonical.go): the three forms a hash is over.
    - Rows (bundle.go, row.go, identity.go), Entry (entry.go): each struct with its JSON
      members, EntryHash, ScanUID, ParseEntry.
    - Signers (signer.go, signers.go): shapes, the signer set, the keyless pin.
    - StrictJson (strictjson.go), Merkle and Keyless (keyless.go): the bundle check, step
      by step, and the inclusion proof against RFC 6962's tree.
    - Verify (verify.go, level.go): the walk over a chain, one step per entry.
      VerifyFacts: the walk's invariant and what a clean chain and a level mean.
    - Rules (rules.go), Order and Derive (derive.go), Summary (summary.go): which
      entries count, in what order, and what a reader is served.
    - Append (ledgerdir.go, signers.go of internal/auditpush): a directory of files and the operations
      that write it; AppendFacts: each keeps the chain intact and means what it says.

    The selection engine, internal/testmap.
    - TestMap (testmap.go), Evidence (from_evidence.go, internal/reposcan/selection.go):
      the map and how a run's evidence becomes one. Select (select.go): what is
      selected and the commands that run it. SelectFacts, SpanFacts: that it is right.

    The commands, internal/lang, cmd/corral.
    - Shell (shlex.go), Argv (jail.go of internal/adequacy), Commands (corralcov.go, shellcmd.go): reading a shell script, a command as one string, and
      the programs a command will run. Invocations (invocation.go, runner.go,
      failfast.go): which runner a command is, and what is appended to it. Redact (record_settings.go): what is recorded of
      a command.

    The grading of faults, internal/adequacy, internal/killrate.
    - Mutant (dedupe.go, mutantset.go, parts of score.go): a fault as an edit, how it is applied, recorded and
      read back. Jail: a scorer as a program that asks for runs, and its pool of workers, goroutines over a WaitGroup and a channel. Score (score.go):
      the grading itself, from the baseline to the report. ScoreFacts, Adequacy, Schedules: what a report says, and that
      the order of the workers does not matter. Verdict (killrate.go, aggregate.go): the interval and the gate.

    What a model's text is read as, internal/testgen.
    - Hunks (parse.go, parse_diag.go, review.go): the blocks of a generator, the fenced test of a writer,
      a reviewer's lines; a hunk's proof, and the accounting of what is refused.

    What a test is, internal/pairing, internal/lang.
    - Pairing (pairing.go, dedupe.go, search.go, confine.go, landing.go, testmodule.go): the candidates of a source, what counts
      as a test, the test a source resolves to, and which source keeps a contested test. PairingFacts: that it is
      right. Languages (the files of internal/lang): each language's conventions and landings.

    The queue and the missions, internal/queue, internal/mission.
    - Queue (store.go, supersede.go, findings.go, executions.go): the tables and every call that changes
      them. QueueFacts: well-formed rows; QueuePlan: what cancelling, retargeting and replacing do; QueueSound: a mission with work left moves.
    - Mission (store.go, engine.go of internal/mission): plans, steering, the engine's tick. MissionFacts: a
      tick's outcome and its end; MissionPlan: the plan's order, and no work while halted.

    The pool, internal/advpool.
    - Shards (shard.go, budget.go, exam.go): the budget of faults, its split over seats,
      the exam's coverage. Seats (roles.go, mutant_sources.go): the tasks a run starts with. Driver (driver.go, driver_writer_fanout.go): a run
      from its start to its verdict, over the queue. DriverFacts: what a verdict says. DriverCosts: how often a run sends
      work back. Exam: with the parser of Hunks, the mutants of an exam have names of their own.
    - Gate (gate.go): where an authored test is written, the commands that grade it, what is believed of it and what is disclosed.
      GateFacts: what that promises.

    The files named Samples (Samples, AppendSamples, SelectSamples, AdequacySamples, PairingSamples, QueueSamples, MissionSamples, DriverSamples, GateSamples) hold
    concrete ledgers, directories, maps, reports, sources with their tests, missions and runs, and apply the theorems to them; toy cryptography computes there.

    ** How state and operations correspond

    A struct is a Record with the fields' names behind a prefix, a method a function of
    the same name; Go's [(value, error)] is [result], with an inductive type of the
    errors a function can return. A mutable set or map is a gmap or gset threaded
    through; where a Go map is ranged over, the order is an argument and the theorem
    says the result does not depend on it. [int]s are Z, with [w64] where the code adds
    without a bound. A loop is a Fixpoint over what it consumes, or has fuel.
    A SQL table is the list of its rows in the order of their ids, a statement a function of the tables;
    what a transaction reads, it reads from the rows it changes, and where the code reads before and outside its
    writes the two row sets are separate arguments. What is asked of a jail, a model or a signer
    is a question, and a theorem holds for every answer: the answers of a run of the scorer are a trace (Jail), those of
    the pool's driver functions of the number of the question (Driver). A tick of the driver is one step of a history; what
    others do to the queue happens between the steps.

    ** What the theorems show

    - Authority and integrity: a level the verifier grants was earned by a key or an
      identity the signer set then held; two clean chains with one head hash are one
      chain, or two of the inputs hashed over their entries clash; the bundle check accepts only what its six checks
      say; an inclusion proof is accepted exactly when it is the tree's audit path, and a leaf it is accepted for is the tree's
      leaf of that number, or two of the inputs hashed on the way and in the tree clash.
    - Forms: canonical bytes read back and determine the value; the strict gate accepts
      exactly its shapes, so no key is read two ways.
    - Reading and writing: served rows come from one verified chain, whatever order the
      files are read in; every write operation keeps a verified ledger verified and
      does what its name says, and two that can break it are shown doing so.
    - Selection: the set selected is the one the evidence says, unit commands are closed
      under what they also run, their loop ends, the per-fault narrowing drops no test
      whose lines reach the fault, and the result is independent of map order.
    - Grading: no kill is one run's word, a survivor's tests passed, a report accounts for every
      fault, equal faults get equal answers, the runs are bounded and the schedule does not
      matter; a verdict is certified exactly under its conditions, never on a small exam.
    - Model output: a mutant read from a response is the sole edit of the source it claims to be,
      blocks written in the format are read back, and no two mutants of an exam share a name.
    - Pairing: a contested test grades one source, a declared path stays inside the repository, a source resolves to the
      first candidate that is there, and the merge of candidates is that of their evidence.
    - The gate: an authored test is never written over the source or an existing file, a test that compiles passed every check, a kill
      is believed only of a test the command was seen to read, and the disclosure says what was run.
    - The queue: rows stay well formed, a claim is dealt once until an operation that names its task takes it away, a cancellation takes what waits
      and nothing else, a retargeting closes no cycle and keeps what others wrote, and a mission whose plan is sound never waits for ever with nothing to claim.
    - Missions: a plan created is sound, a tick settles what it says, a quiet mission ends where the backstop is on, and a
      paused or cancelled one hands out nothing while its halt is not pruned.
    - The pool: a verdict's figures are one grading's and add up, what it calls proven an authored
      test killed, it is final, it comes by the deadline, and a run opens
      a generator's task again and asks for tests a bounded number of times, counted in the queue.
    - Planning: every symbol in one shard, the loads balanced, the seats' shares exact
      in doubles, the budget within its bounds.
    - Commands: quoting reads back, the search for a command's programs ends and sees
      through quoting, a package script is split as the shell reads it, what corral
      adds to a command is only appended, and nothing off the allowlist is recorded of a command.

    ** Fuel

    - The JSON readers and UTF-8 and field scanners: the length of the text, each step
      consuming a byte. [lex] (Shell): the same ([lex_enough]).
    - [interpreters] (Commands): the bytes of the command line; a wrapper's script and
      the words of each command in it are shorter ([InterpretersIn_terminates]).
    - [uniqueKeyTx] (Queue): the code's own 9,998 rounds. [walk]: a round per row and one, each finding a new row
      ([CancelTaskGuarded_exact]). [closure_fuel]: two more than the dependencies there are, each followed once ([RetargetDependents_exact]).
    - [fence_fuel], [split_fuel] (Hunks): one more than the bytes, each round passing at least one
      ([extractCode_exact], [split_fuel_enough]).
    - [pattern_fuel] (Pairing): the bytes of the name ([pattern_enough]). [mark_from] (Gate): the bytes of the name and one
      ([markStem_exact]). [first_free] (Gate): the code's own ten turns.
    - [close_units] (Select): the number of nodes of the map and one, a unit joining per turn
      ([unitsCmd_terminates]). The walk back of Order: the number of entries.

    ** Not modelled

    X.509, ECDSA, ASN.1 and PEM (a class of functions in Keyless); gzip and the byte
    layout of an entry file (a class in Entry); file locks and failing I/O; SQL views;
    whether a path exists (an argument in Redact); the language plugins' parsers and
    command builders (functions of a runner row in Select, of the questions in Driver). Of the pool: the challenger's seats, the per-test
    matrix, the prompts' texts, timings and telemetry. The signing of a verdict and the certificates (internal/certify, internal/certverify). Of pairing: Rust's LandTest,
    the enumeration of a repository's sources, the plugins' scaffolds and commands. Of the missions: the herd's columns and the lessons added to a plan. The sandbox, the model
    calls, the printers, the warehouse and the user interfaces are orchestration of
    processes, SQL views and network calls. In Append, an entry's file is taken to read back as
    the entry written; AppendFacts says so as a hypothesis, met by the samples. *)
From Stdlib Require Export Ascii String Lia ZifyBool ZifyNat ZifyN.
From stdpp Require Export prelude strings gmap list sorting pretty.

(** ** Scopes, abbreviations *)

Declare Scope corral_scope.
Delimit Scope corral_scope with corral.

(** Go's [float64] is carried as its IEEE-754 bit pattern: the modelled code
    stores floats and compares them with zero and NaN, nothing else. *)
Abbreviation float64 := Z (only parsing).
(** An instant ([time.Time] up to [Equal]): nanoseconds since the Unix epoch. *)
Abbreviation instant := Z (only parsing).
(** A Go [string] or [[]byte]: its bytes. *)
Abbreviation bytes := string (only parsing).

(** ** The error monad: Go's [(value, error)] returns *)

Inductive result (E A : Type) : Type :=
| Ok (a : A)
| Err (e : E).
Arguments Ok {E A} a.
Arguments Err {E A} e.

Definition rbind {E A B} (r : result E A) (k : A → result E B) : result E B :=
  match r with Ok a => k a | Err e => Err e end.

Notation "'let!' x ':=' r 'in' k" := (rbind r (λ x, k))
  (at level 10, x pattern, r at level 100, k at level 200) : corral_scope.

(** [guard b e k]: an early [return e] when [b] holds, else [k]. *)
Definition guard_err {E A} (b : bool) (e : E) (k : result E A) : result E A :=
  if b then Err e else k.

Definition is_ok {E A} (r : result E A) : bool :=
  match r with Ok _ => true | Err _ => false end.

Lemma rbind_Ok {E A B} (r : result E A) (k : A → result E B) b :
  rbind r k = Ok b ↔ ∃ a, r = Ok a ∧ k a = Ok b.
Proof.
  destruct r as [a|e]; cbn; split; [by eauto | by intros (? & [= <-] & ?) | done | by intros (? & ? & ?)].
Qed.

Lemma guard_err_Ok {E A} b (e : E) (k : result E A) a :
  guard_err b e k = Ok a ↔ b = false ∧ k = Ok a.
Proof. destruct b; cbn; split; (done || by intros [??]). Qed.

(** [first_problem ps]: the first [Some] of a list of checks — Go's [switch]
    over conditions, each arm naming one refusal. *)
Fixpoint first_problem {P} (ps : list (option P)) : option P :=
  match ps with
  | [] => None
  | Some p :: _ => Some p
  | None :: ps' => first_problem ps'
  end.

(** [check b p]: the refusal [p] when [b] holds. *)
Definition check {P} (b : bool) (p : P) : option P := if b then Some p else None.

Lemma first_problem_None {P} (ps : list (option P)) :
  first_problem ps = None ↔ Forall (λ p, p = None) ps.
Proof.
  induction ps as [|[p|] ps IH]; cbn; [naive_solver | |].
  - split; [done|]. intros H. by inversion H.
  - rewrite IH. split; [by constructor | by inversion 1].
Qed.

Lemma first_problem_Some_elem {P} (ps : list (option P)) p :
  first_problem ps = Some p → Some p ∈ ps.
Proof.
  induction ps as [|[q|] ps IH]; cbn; [done| |]; set_solver.
Qed.

Lemma check_None {P} b (p : P) : check b p = None ↔ b = false.
Proof. by destruct b. Qed.

(** ** Tactics *)

(** Case analysis on the scrutinee of the outermost [match]/[if]. *)
Ltac case_outer :=
  match goal with
  | |- context [match ?x with _ => _ end] => destruct x eqn:?
  end.

(** Break boolean connectives in the hypotheses. *)
Ltac bools :=
  repeat match goal with
  | H : (_ && _)%bool = true |- _ => apply andb_prop in H; destruct H
  | H : (_ || _)%bool = false |- _ => apply orb_false_elim in H; destruct H
  | H : negb _ = true |- _ => apply negb_true_iff in H
  | H : negb _ = false |- _ => apply negb_false_iff in H
  | H : bool_decide _ = true |- _ => apply bool_decide_eq_true in H
  | H : bool_decide _ = false |- _ => apply bool_decide_eq_false in H
  | H : String.eqb _ _ = true |- _ => apply String.eqb_eq in H
  | H : String.eqb _ _ = false |- _ => apply String.eqb_neq in H
  end.

Create HintDb corral discriminated.

(** ** Filters *)

Lemma elem_of_filter_where {A} (p : A → bool) l x : x ∈ List.filter p l ↔ x ∈ l ∧ p x = true.
Proof. by rewrite list_elem_of_In, filter_In, <- list_elem_of_In. Qed.

(** ** Sums *)

Section Sums.
Context {A : Type}.
Definition zsum (f : A → Z) (l : list A) : Z := foldr (λ x acc, (f x + acc)%Z) 0%Z l.

Lemma zsum_app f l1 l2 : zsum f (l1 ++ l2) = (zsum f l1 + zsum f l2)%Z.
Proof. unfold zsum. induction l1 as [|x l1 IH]; cbn; lia. Qed.

#[export] Instance zsum_perm f : Proper ((≡ₚ) ==> eq) (zsum f).
Proof. intros l1 l2. unfold zsum. induction 1; cbn; lia. Qed.
End Sums.

Local Open Scope Z_scope.
Lemma zsum_nonneg {A} (f : A → Z) l : Forall (λ y, 0 <= f y) l → 0 <= zsum f l.
Proof. induction 1; unfold zsum in *; cbn; lia. Qed.

Lemma zsum_ge_elem {A} (f : A → Z) l x : Forall (λ y, 0 <= f y) l → x ∈ l → f x <= zsum f l.
Proof.
  induction 1 as [|y l Hy Hall IH]; [by intros ?%elem_of_nil|]. intros [->|Hx]%elem_of_cons; cbn.
  - assert (0 <= zsum f l)%Z; [|unfold zsum in *; lia]. by apply zsum_nonneg.
  - specialize (IH Hx). unfold zsum in *. lia.
Qed.

Lemma zsum_ext {A} (f g : A → Z) l : (∀ x, x ∈ l → f x = g x) → zsum f l = zsum g l.
Proof.
  intros H. unfold zsum. induction l as [|x l IH]; cbn; [done|]. rewrite (H x) by left.
  rewrite IH; [done|]. intros y Hy. apply H. by right.
Qed.

Lemma zsum_zero {A} (l : list A) : zsum (λ _, 0) l = 0.
Proof. unfold zsum. induction l; cbn; lia. Qed.

Local Close Scope Z_scope.

(** ** Stable sorting: [sort.SliceStable] with a [less] function *)

Section Sorting.
Context {A : Type} (less : A → A → bool).

(** [x] goes before the first element that is not less than it: [x] came
    first in the input, so equal elements keep their order. *)
Fixpoint sort_insert (x : A) (l : list A) : list A :=
  match l with
  | [] => [x]
  | y :: l' => if less y x then y :: sort_insert x l' else x :: l
  end.

Definition sort_stable (l : list A) : list A := foldr sort_insert [] l.

Lemma sort_insert_perm x l : sort_insert x l ≡ₚ x :: l.
Proof.
  induction l as [|y l IH]; cbn; [done|].
  destruct (less y x); [|done]. rewrite IH. apply Permutation_swap.
Qed.

Lemma sort_stable_perm l : sort_stable l ≡ₚ l.
Proof. induction l as [|x l IH]; cbn; [done|]. by rewrite sort_insert_perm, IH. Qed.

Lemma sort_stable_elem_of x l : x ∈ sort_stable l ↔ x ∈ l.
Proof. by rewrite (sort_stable_perm l). Qed.

Lemma length_sort_stable l : length (sort_stable l) = length l.
Proof. by rewrite (sort_stable_perm l). Qed.

(** The order a [less] function must be for the sort to mean anything. *)
Class StrictWeak : Prop := {
  less_asym x y : less x y = true → less y x = false;
  less_cotrans x y z : less y x = false → less z y = false → less z x = false
}.

(** No later element is less than an earlier one. *)
Definition sorted (l : list A) : Prop := StronglySorted (λ x y, less y x = false) l.

Lemma sort_insert_sorted `{!StrictWeak} x l : sorted l → sorted (sort_insert x l).
Proof.
  unfold sorted. induction 1 as [|y l Hs IH Hy]; cbn; [repeat constructor|].
  destruct (less y x) eqn:E.
  - constructor; [done|]. rewrite (sort_insert_perm x l).
    constructor; [by apply less_asym | done].
  - constructor; [by constructor|]. constructor; [done|].
    eapply Forall_impl; [exact Hy|]. intros z Hz. by eapply (less_cotrans x y z).
Qed.

Lemma sort_stable_sorted `{!StrictWeak} l : sorted (sort_stable l).
Proof. induction l; cbn; [constructor | by apply sort_insert_sorted]. Qed.

(** With a total [less] the sorted arrangement is unique: any sorting
    algorithm ([sort.Slice], [sort.Strings]) returns this list. *)
Lemma sorted_unique `{!StrictWeak} l1 l2 :
  (∀ x y, x ∈ l1 → y ∈ l1 → less x y = false → less y x = false → x = y) →
  sorted l1 → sorted l2 → l1 ≡ₚ l2 → l1 = l2.
Proof.
  unfold sorted. intros Htot Hs1. revert l2 Htot.
  induction Hs1 as [|x l1 Hs1 IH Hx]; intros l2 Htot Hs2 Hp.
  - by apply Permutation_nil in Hp.
  - destruct Hs2 as [|y l2 Hs2 Hy]; [by symmetry in Hp; apply Permutation_nil_cons in Hp|].
    assert (x = y) as <-.
    { assert (y ∈ x :: l1) as Hin by (rewrite Hp; left).
      assert (x ∈ y :: l2) as Hin' by (rewrite <- Hp; left).
      rewrite Forall_forall in Hx, Hy.
      apply elem_of_cons in Hin as [->|Hin]; [done|].
      apply elem_of_cons in Hin' as [->|Hin']; [done|].
      apply Htot; [left | by right | by apply Hy | by apply Hx]. }
    f_equal. apply IH; [|done|].
    + intros a b Ha Hb. apply Htot; by right.
    + by apply Permutation_cons_inv in Hp.
Qed.

Lemma sort_stable_id `{!StrictWeak} l :
  (∀ x y, x ∈ l → y ∈ l → less x y = false → less y x = false → x = y) →
  sorted l → sort_stable l = l.
Proof.
  intros Htot Hs. apply sorted_unique; [| apply sort_stable_sorted | done |].
  - intros x y. rewrite !sort_stable_elem_of. apply Htot.
  - apply sort_stable_perm.
Qed.
End Sorting.
Arguments StrictWeak {A} less.
Arguments sorted {A} less l.

(** Bytewise string order: Go's [<] on strings. *)
Fixpoint str_ltb (s t : string) : bool :=
  match s, t with
  | "", "" => false
  | "", String _ _ => true
  | String _ _, "" => false
  | String a s', String b t' =>
      if (nat_of_ascii a <? nat_of_ascii b)%nat then true
      else if (nat_of_ascii b <? nat_of_ascii a)%nat then false
      else str_ltb s' t'
  end.

Lemma str_ltb_total s t : str_ltb s t = false → str_ltb t s = false → s = t.
Proof.
  revert t; induction s as [|a s IH]; intros [|b t]; cbn [str_ltb]; try done.
  destruct (Nat.ltb_spec (nat_of_ascii a) (nat_of_ascii b)); [done|].
  destruct (Nat.ltb_spec (nat_of_ascii b) (nat_of_ascii a)); [done|].
  intros H1 H2. f_equal; [|by apply IH].
  assert (nat_of_ascii a = nat_of_ascii b) as E by lia.
  by rewrite <- (ascii_nat_embedding a), E, ascii_nat_embedding.
Qed.

#[export] Instance str_ltb_strict : StrictWeak str_ltb.
Proof.
  split.
  - intros x; induction x as [|a x IH]; intros [|b y]; cbn [str_ltb]; try done.
    destruct (Nat.ltb_spec (nat_of_ascii a) (nat_of_ascii b));
      destruct (Nat.ltb_spec (nat_of_ascii b) (nat_of_ascii a)); try done; try lia.
    apply IH.
  - intros x; induction x as [|a x IH]; intros [|b y] [|c z]; cbn [str_ltb]; try done.
    destruct (Nat.ltb_spec (nat_of_ascii b) (nat_of_ascii a)); [done|].
    destruct (Nat.ltb_spec (nat_of_ascii c) (nat_of_ascii b)); [done|].
    destruct (Nat.ltb_spec (nat_of_ascii c) (nat_of_ascii a)); [lia|].
    destruct (Nat.ltb_spec (nat_of_ascii a) (nat_of_ascii b));
      destruct (Nat.ltb_spec (nat_of_ascii b) (nat_of_ascii c));
      destruct (Nat.ltb_spec (nat_of_ascii a) (nat_of_ascii c)); try done; try lia.
    apply IH.
Qed.

(** Sorted by a key with no two equal: in strict order of the key. *)
Lemma sorted_strict {A} (key : A → string) l :
  sorted (λ a b, str_ltb (key a) (key b)) l → NoDup (map key l) →
  StronglySorted (λ a b, str_ltb (key a) (key b) = true) l.
Proof.
  unfold sorted. induction 1 as [|x l Hs IH Hx]; [constructor|]. cbn [map].
  intros [Hn Hd]%NoDup_cons. constructor; [by apply IH|].
  rewrite Forall_forall in Hx |- *. intros y Hy. specialize (Hx y Hy).
  destruct (str_ltb (key x) (key y)) eqn:E; [done|]. destruct Hn.
  rewrite (str_ltb_total _ _ E Hx). by apply list_elem_of_In, in_map, list_elem_of_In.
Qed.

(** [sort.Strings]. *)
Definition sort_strings (l : list string) : list string := sort_stable str_ltb l.

Lemma sort_strings_perm_eq l1 l2 : l1 ≡ₚ l2 → sort_strings l1 = sort_strings l2.
Proof.
  intros Hp. apply (sorted_unique str_ltb).
  - intros x y _ _. apply str_ltb_total.
  - apply sort_stable_sorted, _.
  - apply sort_stable_sorted, _.
  - unfold sort_strings. by rewrite !sort_stable_perm.
Qed.

(** ** Lists *)

#[export] Instance filter_perm {A} (p : A → bool) : Proper ((≡ₚ) ==> (≡ₚ)) (List.filter p).
Proof.
  intros l1 l2. induction 1 as [|x l1 l2 _ IH|x y l|l1 l2 l3 _ IH1 _ IH2]; cbn; [done| | |by rewrite IH1].
  - destruct (p x); by rewrite IH.
  - destruct (p x), (p y); try done. apply Permutation_swap.
Qed.


Lemma Forall_snoc {A} (P : A → Prop) l x : Forall P (l ++ [x]) ↔ Forall P l ∧ P x.
Proof. rewrite Forall_app. by rewrite Forall_singleton. Qed.

(** A stronger predicate keeps no more, and strictly fewer when it loses one. *)
Lemma filter_sublist {A} (f : A → bool) l : List.filter f l `sublist_of` l.
Proof.
  induction l as [|x l IH]; cbn [List.filter]; [constructor|].
  destruct (f x); by constructor.
Qed.

Lemma length_filter_le {A} (p q : A → bool) l : (∀ y, p y = true → q y = true) →
  (length (List.filter p l) <= length (List.filter q l))%nat.
Proof.
  intros Hpq. induction l as [|y l IH]; cbn; [done|].
  destruct (p y) eqn:Ep; [rewrite (Hpq y Ep)|destruct (q y)]; cbn; lia.
Qed.

Lemma length_filter_lt {A} (p q : A → bool) l x : (∀ y, p y = true → q y = true) →
  x ∈ l → p x = false → q x = true → (length (List.filter p l) < length (List.filter q l))%nat.
Proof.
  intros Hpq Hin Hp Hq. induction Hin as [y l|y z l _ IH]; cbn.
  - rewrite Hp, Hq. cbn. apply le_n_S, length_filter_le, Hpq.
  - destruct (p z) eqn:Ez; [rewrite (Hpq z Ez)|destruct (q z)]; cbn; specialize (IH Hp Hq); lia.
Qed.
