(* ===== verification/GoLib.v ===== *)
(** * The parts of Go's standard library the modelled code uses

    [strings], [encoding/hex], [strconv], [math/bits] over byte strings. These
    are definitions, not parameters: the language and its library are modelled.
    Only cryptography, certificates and reflection-driven JSON stay abstract
    (see [Crypto.v], [Entry.v] and [Keyless.v]). *)
From S2P Require Import Prelude.
Local Open Scope string_scope.

(** ** Slicing *)

Fixpoint drop_str (n : nat) (s : string) : string :=
  match n, s with
  | O, _ => s
  | S n', String _ s' => drop_str n' s'
  | S _, "" => ""
  end.

Fixpoint take_str (n : nat) (s : string) : string :=
  match n, s with
  | S n', String a s' => String a (take_str n' s')
  | _, _ => ""
  end.

(** stdpp keeps [String.append] folded: these two unfold it one step. *)
Lemma app_str_nil_l s : "" +:+ s = s.
Proof. done. Qed.
Lemma app_str_cons a s t : String a s +:+ t = String a (s +:+ t).
Proof. done. Qed.

Create Rewrite HintDb str.
#[export] Hint Rewrite app_str_nil_l app_str_cons : str.

(** Simplify string expressions: computation plus the rewrite database. *)
Ltac str_simpl := cbn; autorewrite with str; cbn.
Tactic Notation "str_simpl" "in" hyp(H) := cbn in H; autorewrite with str in H; cbn in H.

Lemma take_drop_str n s : take_str n s +:+ drop_str n s = s.
Proof.
  revert s; induction n as [|n IH]; intros [|a s]; str_simpl; [done..|]. by rewrite IH.
Qed.

Lemma app_str_assoc s1 s2 s3 : (s1 +:+ s2) +:+ s3 = s1 +:+ (s2 +:+ s3).
Proof. induction s1; str_simpl; congruence. Qed.

Lemma app_str_nil_r s : s +:+ "" = s.
Proof. induction s; str_simpl; congruence. Qed.

Lemma length_app_str s1 s2 : String.length (s1 +:+ s2) = String.length s1 + String.length s2.
Proof. induction s1; str_simpl; congruence. Qed.

Lemma app_str_inj_len s1 s2 t1 t2 :
  String.length s1 = String.length s2 → s1 +:+ t1 = s2 +:+ t2 → s1 = s2 ∧ t1 = t2.
Proof.
  revert s2; induction s1 as [|a s1 IH]; intros [|b s2]; str_simpl; intros Hl Ht; [done..|].
  injection Hl as Hl. injection Ht as -> Ht. by destruct (IH s2 Hl Ht) as [-> ->].
Qed.

Lemma length_take_str n s : String.length (take_str n s) = Nat.min n (String.length s).
Proof. revert s; induction n as [|n IH]; intros [|a s]; cbn; auto. Qed.

Lemma length_drop_str n s : String.length (drop_str n s) = String.length s - n.
Proof. revert s; induction n as [|n IH]; intros [|a s]; cbn; auto. Qed.

Lemma drop_str_length_app s t : drop_str (String.length s) (s +:+ t) = t.
Proof. induction s; str_simpl; auto. Qed.

Lemma take_str_length_app s t : take_str (String.length s) (s +:+ t) = s.
Proof. induction s; str_simpl; [by destruct t|]. congruence. Qed.

(** ** strings.HasPrefix, HasSuffix, TrimPrefix, TrimSuffix, Cut *)

Fixpoint has_prefix (p s : string) : bool :=
  match p, s with
  | "", _ => true
  | String a p', String b s' => Ascii.eqb a b && has_prefix p' s'
  | String _ _, "" => false
  end.

Lemma has_prefix_app p s : has_prefix p (p +:+ s) = true.
Proof. induction p as [|a p IH]; [done|]. rewrite app_str_cons. cbn. by rewrite Ascii.eqb_refl. Qed.

Lemma has_prefix_iff p s : has_prefix p s = true ↔ ∃ t, s = p +:+ t.
Proof.
  split; [|intros [t ->]; apply has_prefix_app].
  revert s; induction p as [|a p IH]; intros s; [by exists s|]. destruct s as [|b s]; [done|].
  cbn. intros [->%Ascii.eqb_eq [t ->]%IH]%andb_prop. by exists t.
Qed.

Definition has_suffix (p s : string) : bool :=
  (String.length p <=? String.length s)%nat &&
  String.eqb (drop_str (String.length s - String.length p) s) p.

Definition trim_prefix (p s : string) : string :=
  if has_prefix p s then drop_str (String.length p) s else s.

Definition trim_suffix (p s : string) : string :=
  if has_suffix p s then take_str (String.length s - String.length p) s else s.

(** [cut c s]: the text before the first [c], the text after it, and whether
    [c] was found ([strings.Cut] with a one-byte separator). *)
Fixpoint cut (c : ascii) (s : string) : string * string * bool :=
  match s with
  | "" => ("", "", false)
  | String a s' =>
      if Ascii.eqb a c then ("", s', true)
      else match cut c s' with (h, t, ok) => (String a h, t, ok) end
  end.

Lemma cut_found c s h t : cut c s = (h, t, true) → s = h +:+ String c t.
Proof.
  revert h t; induction s as [|a s IH]; cbn; intros h t; [done|].
  destruct (Ascii.eqb_spec a c) as [->|].
  - by intros [= <- <-].
  - destruct (cut c s) as [[h' t'] ok]. intros [= <- <- ->]. str_simpl. f_equal. by apply IH.
Qed.

Lemma cut_not_found c s h t : cut c s = (h, t, false) → h = s ∧ t = "".
Proof.
  revert h t; induction s as [|a s IH]; cbn; intros h t; [by intros [= <- <-]|].
  destruct (Ascii.eqb_spec a c); [done|].
  destruct (cut c s) as [[h' t'] ok]. intros [= <- <- ->].
  destruct (IH h' t' eq_refl) as [-> ->]. done.
Qed.

Fixpoint mem_ascii (c : ascii) (s : string) : bool :=
  match s with "" => false | String a s' => Ascii.eqb a c || mem_ascii c s' end.

(** Text free of the separator is recovered whole. *)
Lemma mem_ascii_app c s t : mem_ascii c (s +:+ t) = mem_ascii c s || mem_ascii c t.
Proof. induction s as [|a s IH]; str_simpl; [done|]. by rewrite IH, orb_assoc. Qed.
Lemma cut_app c s t : mem_ascii c s = false → cut c (s +:+ String c t) = (s, t, true).
Proof.
  induction s as [|a s IH]; cbn [mem_ascii]; autorewrite with str.
  - intros _. cbn [cut]. by rewrite Ascii.eqb_refl.
  - intros [Ha Hs]%orb_false_elim. cbn [cut]. by rewrite Ha, IH.
Qed.

(** [strings.ContainsAny]. *)
Fixpoint contains_any (s chars : string) : bool :=
  match s with "" => false | String a s' => mem_ascii a chars || contains_any s' chars end.

(** [strings.Trim(s, cutset) == ""] for an ASCII cutset: only cutset bytes. *)
Fixpoint only_bytes_of (cutset s : string) : bool :=
  match s with "" => true | String a s' => mem_ascii a cutset && only_bytes_of cutset s' end.

Definition decimal_digits : string := "0123456789".

(** ** unicode.IsSpace and strings.TrimSpace *)

Definition byte (n : nat) : ascii := ascii_of_nat n.
Definition code (a : ascii) : nat := nat_of_ascii a.

(** [space_rune s]: the byte length of a white-space rune's encoding when [s]
    starts with one, else 0. U+0009-000D, 0020, 0085, 00A0, 1680, 2000-200A,
    2028, 2029, 202F, 205F, 3000. *)
Definition space_rune (s : string) : nat :=
  match s with
  | "" => 0
  | String a s1 =>
      let x := code a in
      if ((9 <=? x) && (x <=? 13) || (x =? 32))%nat then 1 else
      match s1 with
      | "" => 0
      | String b s2 =>
          let y := code b in
          if ((x =? 194) && ((y =? 133) || (y =? 160)))%nat then 2 else
          match s2 with
          | "" => 0
          | String c _ =>
              let z := code c in
              if ((x =? 225) && (y =? 154) && (z =? 128)
                  || (x =? 226) && (y =? 128) &&
                     ((128 <=? z) && (z <=? 138) || (z =? 168) || (z =? 169) || (z =? 175))
                  || (x =? 226) && (y =? 129) && (z =? 159)
                  || (x =? 227) && (y =? 128) && (z =? 128))%nat then 3 else 0
          end
      end
  end.

Fixpoint trim_left_fuel (fuel : nat) (s : string) : string :=
  match fuel with
  | O => s
  | S f => match space_rune s with O => s | n => trim_left_fuel f (drop_str n s) end
  end.
Definition trim_left (s : string) : string := trim_left_fuel (String.length s) s.

(** The byte length of a white-space rune [s] ends with, else 0. *)
Definition space_suffix (s : string) : nat :=
  let l := String.length s in
  if ((1 <=? l) && (space_rune (drop_str (l - 1) s) =? 1))%nat then 1
  else if ((2 <=? l) && (space_rune (drop_str (l - 2) s) =? 2))%nat then 2
  else if ((3 <=? l) && (space_rune (drop_str (l - 3) s) =? 3))%nat then 3
  else 0.

Fixpoint trim_right_fuel (fuel : nat) (s : string) : string :=
  match fuel with
  | O => s
  | S f => match space_suffix s with
           | O => s
           | n => trim_right_fuel f (take_str (String.length s - n) s)
           end
  end.
Definition trim_right (s : string) : string := trim_right_fuel (String.length s) s.

Definition trim_space (s : string) : string := trim_right (trim_left s).

(** [strings.TrimSpace(s) == ""]. *)
Definition is_blank (s : string) : bool := String.eqb (trim_space s) "".

(** [strings.IndexFunc(s, unicode.IsSpace) >= 0]. No white-space encoding
    starts with a continuation byte, so a match at any offset is a rune. *)
Fixpoint has_space (s : string) : bool :=
  (1 <=? space_rune s)%nat || match s with "" => false | String _ s' => has_space s' end.

Lemma is_blank_empty : is_blank "" = true.
Proof. reflexivity. Qed.

(** ** encoding/hex *)

Definition hex_digit (n : nat) : ascii :=
  match String.get n "0123456789abcdef" with Some a => a | None => "0"%char end.

Fixpoint hex_encode (s : bytes) : string :=
  match s with
  | "" => ""
  | String a s' =>
      String (hex_digit (code a / 16)) (String (hex_digit (code a mod 16)) (hex_encode s'))
  end.

Definition unhex (a : ascii) : option nat :=
  let x := code a in
  if ((48 <=? x) && (x <=? 57))%nat then Some (x - 48)
  else if ((97 <=? x) && (x <=? 102))%nat then Some (x - 87)
  else if ((65 <=? x) && (x <=? 70))%nat then Some (x - 55)
  else None.

(** [hex.DecodeString]: on malformed input, the bytes decoded BEFORE the
    error, and [false]. Callers that drop the error keep those bytes. *)
Fixpoint hex_decode (s : string) : bytes * bool :=
  match s with
  | "" => ("", true)
  | String _ "" => ("", false)
  | String a (String b s') =>
      match unhex a, unhex b with
      | Some x, Some y =>
          match hex_decode s' with (t, ok) => (String (byte (16 * x + y)) t, ok) end
      | _, _ => ("", false)
      end
  end.

Lemma unhex_hex_digit a :
  match unhex (hex_digit (code a / 16)), unhex (hex_digit (code a mod 16)) with
  | Some x, Some y => byte (16 * x + y) = a
  | _, _ => False
  end.
Proof. destruct a as [[] [] [] [] [] [] [] []]; vm_compute; reflexivity. Qed.

Lemma hex_decode_encode s : hex_decode (hex_encode s) = (s, true).
Proof.
  induction s as [|a s IH]; cbn [hex_encode hex_decode]; [done|].
  pose proof (unhex_hex_digit a) as Ha.
  destruct (unhex (hex_digit (code a / 16))) as [x|]; [|done].
  destruct (unhex (hex_digit (code a mod 16))) as [y|]; [|done]. by rewrite IH, Ha.
Qed.

Lemma hex_encode_inj s t : hex_encode s = hex_encode t → s = t.
Proof.
  intros H. assert (hex_decode (hex_encode s) = hex_decode (hex_encode t)) as E by congruence.
  rewrite !hex_decode_encode in E. congruence.
Qed.

Lemma length_hex_encode s : String.length (hex_encode s) = 2 * String.length s.
Proof. induction s; cbn in *; lia. Qed.

Lemma hex_decode_app s t : hex_decode (hex_encode s +:+ t) = (s +:+ (hex_decode t).1, (hex_decode t).2).
Proof.
  induction s as [|a s IH]; cbn [hex_encode]; autorewrite with str.
  - by destruct (hex_decode t).
  - cbn [hex_decode].
    pose proof (unhex_hex_digit a) as Ha.
    destruct (unhex (hex_digit (code a / 16))) as [x|]; [|done].
  destruct (unhex (hex_digit (code a mod 16))) as [y|]; [|done]. by rewrite IH, Ha.
Qed.

(** ** strconv.FormatInt(_, 10) *)

Definition format_int (z : Z) : string := pretty z.

Lemma format_int_inj x y : format_int x = format_int y → x = y.
Proof. apply (inj pretty). Qed.

(** ** math/bits on uint64 *)

Local Open Scope Z_scope.

(** [bits.Len64]. *)
Definition len64 (x : Z) : Z := if Z.eqb x 0 then 0 else Z.log2 x + 1.

Fixpoint ones_fuel (fuel : nat) (x : Z) : Z :=
  match fuel with
  | O => 0
  | S f => Z.b2z (Z.testbit x 0) + ones_fuel f (Z.shiftr x 1)
  end.
(** [bits.OnesCount64]: 64 bits are 64 steps. *)
Definition ones64 (x : Z) : Z := ones_fuel 64 x.

Lemma ones_fuel_0 f : ones_fuel f 0 = 0.
Proof. induction f as [|f IH]; cbn [ones_fuel]; [done|]. by rewrite Z.shiftr_0_l, IH, Z.bits_0. Qed.

Lemma ones_fuel_nonneg f x : 0 <= ones_fuel f x.
Proof.
  revert x; induction f as [|f IH]; intros x; cbn [ones_fuel]; [lia|].
  pose proof (IH (Z.shiftr x 1)). destruct (Z.testbit x 0); cbn [Z.b2z]; lia.
Qed.

Lemma ones_fuel_ones f t : 0 <= t <= Z.of_nat f → ones_fuel f (Z.ones t) = t.
Proof.
  revert t; induction f as [|f IH]; intros t Ht; cbn [ones_fuel]; [lia|].
  destruct (decide (t = 0)) as [->|].
  - change (Z.ones 0) with 0. by rewrite Z.shiftr_0_l, ones_fuel_0, Z.bits_0.
  - rewrite Z.shiftr_div_pow2, Z.ones_div_pow2, IH by lia.
    rewrite Z.ones_spec_low by lia. cbn; lia.
Qed.

Lemma bits_high_false x t i : 0 <= x < 2 ^ t → 0 <= t <= i → Z.testbit x i = false.
Proof.
  intros Hx Hi. destruct (decide (x = 0)) as [->|]; [apply Z.bits_0|].
  apply Z.bits_above_log2; [lia|]. apply Z.lt_le_trans with t; [|lia].
  apply Z.log2_lt_pow2; lia.
Qed.

(** [2^t + x] for [x] below the new bit, bit by bit. *)
Lemma testbit_add_pow2 t x i :
  0 <= t → 0 <= x < 2 ^ t → 0 <= i →
  Z.testbit (2 ^ t + x) i = (i =? t) || Z.testbit x i.
Proof.
  intros Ht Hx Hi.
  assert (Hhigh : ∀ j, t <= j → Z.testbit x j = false).
  { intros j Hj. apply (bits_high_false x t); lia. }
  rewrite Z.add_nocarry_lxor.
  - rewrite Z.lxor_spec, Z.pow2_bits_eqb by lia. rewrite Z.eqb_sym.
    destruct (Z.eqb_spec i t) as [->|]; [by rewrite Hhigh|by destruct (Z.testbit x i)].
  - apply Z.bits_inj'. intros j Hj. rewrite Z.land_spec, Z.bits_0, Z.pow2_bits_eqb by lia.
    destruct (Z.eqb_spec t j) as [<-|]; [by rewrite Hhigh by lia|done].
Qed.

Lemma ones_fuel_add_pow2 f t x :
  0 <= t < Z.of_nat f → 0 <= x < 2 ^ t → ones_fuel f (2 ^ t + x) = ones_fuel f x + 1.
Proof.
  revert t x; induction f as [|f IH]; intros t x Ht Hx; cbn [ones_fuel]; [lia|].
  rewrite testbit_add_pow2 by lia.
  destruct (decide (t = 0)) as [->|].
  - assert (x = 0) as -> by (cbn in Hx; lia).
    change (2 ^ 0 + 0) with 1. change (Z.shiftr 1 1) with 0.
    rewrite Z.bits_0, Z.shiftr_0_l, ones_fuel_0. cbn. lia.
  - replace (0 =? t) with false by lia. cbn [orb].
    assert (2 ^ t = 2 * 2 ^ (t - 1)) as E.
    { rewrite <- Z.pow_succ_r by lia. f_equal; lia. }
    replace (Z.shiftr (2 ^ t + x) 1) with (2 ^ (t - 1) + Z.shiftr x 1).
    + rewrite IH; [lia..|]. rewrite Z.shiftr_div_pow2 by lia. change (2 ^ 1) with 2.
      split; [apply Z.div_pos; lia | apply Z.div_lt_upper_bound; lia].
    + rewrite !Z.shiftr_div_pow2 by lia. change (2 ^ 1) with 2. rewrite E.
      rewrite (Z.mul_comm 2), Z.div_add_l; lia.
Qed.

(** [len64] is the least bound on the set bits. *)
Lemma len64_nonneg x : 0 <= len64 x.
Proof. unfold len64. destruct (Z.eqb_spec x 0); [lia|]. pose proof (Z.log2_nonneg x). lia. Qed.

Lemma len64_above x i : 0 <= x → len64 x <= i → Z.testbit x i = false.
Proof.
  unfold len64. intros Hx. destruct (Z.eqb_spec x 0) as [->|]; [intros; apply Z.bits_0|].
  intros. apply Z.bits_above_log2; lia.
Qed.

Lemma len64_le x t :
  0 <= t → 0 <= x → (∀ i, t <= i → Z.testbit x i = false) → len64 x <= t.
Proof.
  intros Ht Hx Hb. unfold len64. destruct (Z.eqb_spec x 0); [lia|].
  destruct (Z.lt_ge_cases (Z.log2 x) t) as [?|Hge]; [lia|].
  specialize (Hb _ Hge). rewrite Z.bit_log2 in Hb by lia. done.
Qed.

Lemma len64_unique x t :
  0 <= t → 0 <= x → Z.testbit x t = true → (∀ i, t < i → Z.testbit x i = false) →
  len64 x = t + 1.
Proof.
  intros Ht Hx Hb Hhi. unfold len64. destruct (Z.eqb_spec x 0) as [->|].
  - by rewrite Z.bits_0 in Hb.
  - f_equal. apply Z.log2_bits_unique; auto.
Qed.

Lemma testbit_pred_pow2 t i : 0 <= t → Z.testbit (2 ^ t - 1) i = (0 <=? i) && (i <? t).
Proof.
  intros Ht. replace (2 ^ t - 1) with (Z.ones t) by (rewrite Z.ones_equiv; lia).
  by apply Z.testbit_ones.
Qed.

(** ** time: RFC 3339 in UTC *)

(** [n] in decimal, padded with zeros to [width]. *)
Fixpoint pad_int (width : nat) (n : Z) : string :=
  match width with
  | O => ""
  | S w => pad_int w (n / 10) +:+ String (ascii_of_N (48 + Z.to_N (n mod 10))) ""
  end.

Definition trim_zeros_step (a : ascii) (s : string) : string :=
  match s with "" => if Ascii.eqb a "0" then "" else String a "" | _ => String a s end.
(** Trailing zeros dropped. *)
Fixpoint trim_zeros (s : string) : string :=
  match s with "" => "" | String a s' => trim_zeros_step a (trim_zeros s') end.

(** The value an [int] or [int64] holds after an addition: two's complement, 64 bits. *)
Definition w64 (z : Z) : Z := (z + 2 ^ 63) mod 2 ^ 64 - 2 ^ 63.

Lemma w64_id z : - 2 ^ 63 <= z < 2 ^ 63 -> w64 z = z.
Proof. intros H. unfold w64. rewrite Z.mod_small; lia. Qed.

Lemma w64_l a b : w64 (w64 a + b) = w64 (a + b).
Proof.
  unfold w64. f_equal.
  replace ((a + 2 ^ 63) mod 2 ^ 64 - 2 ^ 63 + b + 2 ^ 63) with ((a + 2 ^ 63) mod 2 ^ 64 + b) by lia.
  rewrite Z.add_mod_idemp_l by lia. f_equal. lia.
Qed.

Lemma w64_r a b : w64 (a + w64 b) = w64 (a + b).
Proof. by rewrite Z.add_comm, w64_l, Z.add_comm. Qed.

(** Year, month and day of a day number counted from 1970-01-01 (the proleptic
    Gregorian calendar, eras of 146097 days from 0000-03-01). *)
Definition civil_date (days : Z) : Z * Z * Z :=
  let z := days + 719468 in
  let era := z / 146097 in
  let doe := z mod 146097 in
  let yoe := (doe - doe / 1460 + doe / 36524 - doe / 146096) / 365 in
  let doy := doe - (365 * yoe + yoe / 4 - yoe / 100) in
  let mp := (5 * doy + 2) / 153 in
  let d := doy - (153 * mp + 2) / 5 + 1 in
  let m := if mp <? 10 then mp + 3 else mp - 9 in
  (yoe + era * 400 + (if m <=? 2 then 1 else 0), m, d).

(** [t.UTC().Format("2006-01-02")]. *)
Definition date_text (t : instant) : string :=
  let '(y, m, d) := civil_date (t / 86400000000000) in
  pad_int 4 y +:+ "-" +:+ pad_int 2 m +:+ "-" +:+ pad_int 2 d.

(** [t.UTC().Format(time.RFC3339Nano)], also how encoding/json writes a UTC time. *)
Definition time_text (t : instant) : string :=
  let sec := (t / 1000000000) mod 86400 in
  let frac := trim_zeros (pad_int 9 (t mod 1000000000)) in
  date_text t +:+ "T" +:+ pad_int 2 (sec / 3600) +:+ ":" +:+ pad_int 2 (sec / 60 mod 60)
    +:+ ":" +:+ pad_int 2 (sec mod 60)
    +:+ (if String.eqb frac "" then "" else "." +:+ frac) +:+ "Z".

Example time_text_1 : time_text 1760875445120000000 = "2025-10-19T12:04:05.12Z".
Proof. reflexivity. Qed.
