(* ===== verification/GoText.v ===== *)
(** * More of Go's text library

    [encoding/base64], Split, Fields, LastIndex, ParseInt, and the two functions of
    [path/filepath] the code leans on, for Unix paths. *)
From S2P Require Import Prelude GoLib.
Local Open Scope string_scope.
Local Open Scope list_scope.

(** ** encoding/base64, StdEncoding *)

Definition base64_alphabet : string :=
  "ABCDEFGHIJKLMNOPQRSTUVWXYZabcdefghijklmnopqrstuvwxyz0123456789+/".

Definition base64_char (n : nat) : ascii :=
  match String.get n base64_alphabet with Some a => a | None => "A"%char end.

Fixpoint base64_encode (s : bytes) : string :=
  match s with
  | "" => ""
  | String a "" =>
      let x := code a in
      String (base64_char (x / 4)) (String (base64_char (x mod 4 * 16)) "==")
  | String a (String b "") =>
      let x := code a in let y := code b in
      String (base64_char (x / 4)) (String (base64_char (x mod 4 * 16 + y / 16))
        (String (base64_char (y mod 16 * 4)) "="))
  | String a (String b (String c s')) =>
      let x := code a in let y := code b in let z := code c in
      String (base64_char (x / 4)) (String (base64_char (x mod 4 * 16 + y / 16))
        (String (base64_char (y mod 16 * 4 + z / 64)) (String (base64_char (z mod 64))
          (base64_encode s'))))
  end.

Fixpoint index_of (a : ascii) (s : string) : option nat :=
  match s with
  | "" => None
  | String b s' => if Ascii.eqb a b then Some 0 else S <$> index_of a s'
  end.
Definition base64_value (a : ascii) : option nat := index_of a base64_alphabet.

(** The decoder skips carriage returns and newlines. *)
Fixpoint drop_newlines (s : string) : string :=
  match s with
  | "" => ""
  | String a s' => if Ascii.eqb a (byte 13) || Ascii.eqb a (byte 10) then drop_newlines s'
                   else String a (drop_newlines s')
  end.

(** Quanta of four; padding only in the last, trailing bits ignored. *)
Fixpoint base64_quanta (s : string) : option bytes :=
  match s with
  | "" => Some ""
  | String a (String b (String c (String d s'))) =>
      x ← base64_value a; y ← base64_value b;
      let b0 := byte (x * 4 + y / 16) in
      if Ascii.eqb c "=" then
        if Ascii.eqb d "=" && String.eqb s' "" then Some (String b0 "") else None
      else
        z ← base64_value c;
        let b1 := byte (y mod 16 * 16 + z / 4) in
        if Ascii.eqb d "=" then
          if String.eqb s' "" then Some (String b0 (String b1 "")) else None
        else
          w ← base64_value d;
          t ← base64_quanta s';
          Some (String b0 (String b1 (String (byte (z mod 4 * 64 + w)) t)))
  | _ => None
  end.

Definition base64_decode (s : string) : option bytes := base64_quanta (drop_newlines s).

Example base64_hello : base64_decode (base64_encode "hello!!") = Some "hello!!".
Proof. reflexivity. Qed.

(** ** strings.Split, Fields, LastIndex *)

(** [strings.Split(s, sep)] for a one-byte separator. *)
Fixpoint split_on (sep : ascii) (s : string) : list string :=
  match s with
  | "" => [""]
  | String a s' =>
      if Ascii.eqb a sep then "" :: split_on sep s'
      else match split_on sep s' with w :: l => String a w :: l | [] => [String a ""] end
  end.

Definition newline : ascii := "010"%char.
Definition blank_line : string := String newline (String newline "").

(** ** filepath.Clean and Base, on Unix *)

Definition clean_step (rooted : bool) (out : list string) (c : string) : list string :=
  if String.eqb c "" || String.eqb c "." then out
  else if String.eqb c ".." then
    match out with
    | [] => if rooted then [] else [".."]
    | x :: out' => if String.eqb x ".." then ".." :: out else out'
    end
  else c :: out.

Definition path_clean (p : string) : string :=
  if String.eqb p "" then "." else
  let rooted := has_prefix "/" p in
  let body := String.concat "/" (rev (foldl (clean_step rooted) [] (split_on "/"%char p))) in
  if rooted then "/" +:+ body else if String.eqb body "" then "." else body.

Fixpoint trim_slashes (s : string) : string :=
  match s with
  | "" => ""
  | String a s' =>
      let t := trim_slashes s' in if Ascii.eqb a "/"%char && String.eqb t "" then "" else String a t
  end.
Definition path_base (p : string) : string :=
  if String.eqb p "" then "."
  else let q := trim_slashes p in
       if String.eqb q "" then "/" else List.last (split_on "/"%char q) "".

(** [strings.LastIndex(s, "\n\n")]: the text before the last blank line's first
    newline, and what follows its second. *)
Fixpoint cut_last_blank (s : string) : option (string * string) :=
  match s with
  | "" => None
  | String a s' =>
      match cut_last_blank s' with
      | Some (h, t) => Some (String a h, t)
      | None => if has_prefix blank_line s then Some ("", drop_str 2 s) else None
      end
  end.

(** [strings.Fields], fuel bounding the number of bytes looked at. *)
Fixpoint fields_fuel (fuel : nat) (word s : string) : list string :=
  let flush l := if String.eqb word "" then l else word :: l in
  match fuel, s with
  | O, _ | _, "" => flush []
  | S f, String a s' =>
      match space_rune s with
      | O => fields_fuel f (word +:+ String a "") s'
      | n => flush (fields_fuel f "" (drop_str n s))
      end
  end.
Definition str_fields (s : string) : list string := fields_fuel (String.length s) "" s.

(** ** strconv.ParseInt of a canonical decimal *)

Fixpoint digits_value (acc : Z) (s : string) : option Z :=
  match s with
  | "" => Some acc
  | String a s' =>
      if (48 <=? code a)%nat && (code a <=? 57)%nat
      then digits_value (acc * 10 + Z.of_nat (code a - 48))%Z s' else None
  end.

(** The 64-bit integer [s] spells canonically ("7", not "07" or "+7"). *)
Definition canonical_int64 (s : string) : option Z :=
  n ← match s with
      | String a s' => if Ascii.eqb a "-" then Z.opp <$> digits_value 0 s' else digits_value 0 s
      | "" => None
      end;
  if (- 2 ^ 63 <=? n)%Z && (n <? 2 ^ 63)%Z && String.eqb (format_int n) s then Some n else None.

Lemma canonical_int64_spec s n :
  canonical_int64 s = Some n → s = format_int n ∧ (- 2 ^ 63 <= n < 2 ^ 63)%Z.
Proof.
  unfold canonical_int64. intros (m & _ & H)%bind_Some.
  destruct (_ && _) eqn:E; [|done]. injection H as <-. bools. split; [done|lia].
Qed.
