(* ===== verification/Crypto.v ===== *)
(** * The cryptographic primitives, as interfaces

    crypto/sha256 and crypto/ed25519 are opaque here: a digest is a function
    with 32-byte results, a signature check a boolean function. Nothing assumes
    a digest collision-free: some two inputs of any digest collide. A theorem that would need it concludes
    instead that two of the inputs the code itself hashed clash, and names them ([clash_among]).
    [Toy] gives concrete instances the witnesses run on. *)
From S2P Require Import Prelude GoLib.

Class Digest := {
  sha256 : bytes → bytes;
  sha256_length s : String.length (sha256 s) = 32
}.

(** [ed25519_verify pub msg sig]. Go's [ed25519.Verify] panics on a public key
    that is not 32 bytes; [Signers.v] proves no modelled call passes one. *)
Class Ed25519 := { ed25519_verify : bytes → bytes → bytes → bool }.

Section Clashes.
Context {dg : Digest}.

(** These two inputs are different and have one digest. *)
Definition clash (x y : bytes) : Prop := x ≠ y ∧ sha256 x = sha256 y.
(** An input of the one list clashes with one of the other. *)
Definition clash_among (xs ys : list bytes) : Prop := ∃ x y, x ∈ xs ∧ y ∈ ys ∧ clash x y.

Lemma clash_among_mono xs xs' ys ys' : xs ⊆ xs' → ys ⊆ ys' → clash_among xs ys → clash_among xs' ys'.
Proof. intros Hx Hy (x & y & ? & ? & ?). exists x, y. auto. Qed.

Lemma sha256_inj_or x y : sha256 x = sha256 y → x = y ∨ clash x y.
Proof. intros H. destruct (decide (x = y)) as [|n]; [by left|by right]. Qed.

Lemma hex_sha256_inj_or x y :
  hex_encode (sha256 x) = hex_encode (sha256 y) → x = y ∨ clash x y.
Proof. intros H%hex_encode_inj. by apply sha256_inj_or. Qed.

Lemma length_hex_sha256 s : String.length (hex_encode (sha256 s)) = 64.
Proof. by rewrite length_hex_encode, sha256_length. Qed.

Lemma hex_sha256_nonempty s : hex_encode (sha256 s) ≠ "".
Proof. intros H. pose proof (length_hex_sha256 s) as L. by rewrite H in L. Qed.
End Clashes.

(** ** Toy instances: a polynomial digest and a keyed-equality signature *)
Module Toy.
Fixpoint be_bytes (n : nat) (z : N) : bytes :=
  match n with
  | O => ""
  | S n' => be_bytes n' (z / 256)%N +:+ String (ascii_of_N (z mod 256)%N) ""
  end.

Lemma length_be_bytes n z : String.length (be_bytes n z) = n.
Proof.
  revert z; induction n as [|n IH]; intros z; cbn [be_bytes]; [done|].
  rewrite length_app_str, IH. cbn. lia.
Qed.

Fixpoint poly (acc : N) (s : bytes) : N :=
  match s with
  | "" => acc
  | String a s' => poly (N.land (acc * 257 + N_of_ascii a + 1) (2 ^ 61 - 1))%N s'
  end.

#[export, refine] Instance digest : Digest := {
  sha256 s := let z := poly 7 s in be_bytes 8 z +:+ be_bytes 24 z
}.
Proof. intros s. cbn zeta. by rewrite length_app_str, !length_be_bytes. Defined.

(** The toy signature of [msg] under [pub] is [pub ++ msg]. *)
Definition sign (pub msg : bytes) : bytes := pub +:+ msg.

#[export] Instance ed25519 : Ed25519 := {
  ed25519_verify pub msg sig := String.eqb sig (sign pub msg)
}.
End Toy.
