(* ===== verification/Merkle.v ===== *)
(** * RFC 6962 inclusion proofs: [verifyInclusion] of internal/ledger/keyless.go

    The bit-twiddling verifier is compared with the RFC's recursive Merkle tree
    hash and audit path: it accepts exactly the audit paths, or an input it hashed clashes
    with one hashed for the tree. *)
From S2P Require Import Prelude GoLib Crypto.
Local Open Scope Z_scope.

Inductive inclusion_error :=
| IndexOutsideTree (index size : Z)
| RootNot32
| WrongProofLength (got want : Z)
| HashNot32
| RootMismatch.

(** ** The verifier's bit arithmetic against the tree's shape

    For position [m] in a tree of [n] leaves: how many proof hashes, and on which
    side of the running hash the [i]-th one goes. *)

Definition inner_of (m n : Z) : Z := len64 (Z.lxor m (n - 1)).
Definition count_of (m n : Z) : Z := inner_of m n + ones64 (Z.shiftr m (inner_of m n)).
(** [true]: the proof hash is the left sibling. *)
Definition left_sib (m n i : Z) : bool := (inner_of m n <=? i) || Z.testbit m i.

(** In a complete tree of [2^j] leaves every level has a sibling, on the side
    the position's bit says. *)
Lemma geometry_complete j m :
  0 <= j < 63 → 0 <= m < 2 ^ j →
  count_of m (2 ^ j) = j ∧ ∀ i, 0 <= i < j → left_sib m (2 ^ j) i = Z.testbit m i.
Proof.
  intros Hj Hm. set (x := Z.lxor m (2 ^ j - 1)).
  assert (Hx0 : 0 <= x) by (apply Z.lxor_nonneg; lia).
  assert (Hx : ∀ i, 0 <= i → Z.testbit x i = xorb (Z.testbit m i) (i <? j)).
  { intros i Hi. unfold x. rewrite Z.lxor_spec, testbit_pred_pow2 by lia.
    by replace (0 <=? i) with true by lia. }
  pose proof (len64_nonneg x).
  assert (Hle : len64 x <= j).
  { apply len64_le; [lia..|]. intros i Hi. rewrite Hx by lia.
    rewrite (bits_high_false m j) by lia. by replace (i <? j) with false by lia. }
  assert (Hbit : ∀ i, len64 x <= i < j → Z.testbit m i = true).
  { intros i Hi. pose proof (len64_above x i Hx0 ltac:(lia)) as E.
    rewrite Hx in E by lia. replace (i <? j) with true in E by lia.
    by destruct (Z.testbit m i). }
  unfold count_of, left_sib, inner_of. fold x. split.
  - replace (Z.shiftr m (len64 x)) with (Z.ones (j - len64 x)).
    + unfold ones64. rewrite ones_fuel_ones; lia.
    + apply Z.bits_inj'. intros i Hi. rewrite Z.shiftr_spec, Z.testbit_ones by lia.
      replace (0 <=? i) with true by lia. cbn [andb].
      destruct (Z.ltb_spec i (j - len64 x)).
      * symmetry. apply Hbit; lia.
      * symmetry. apply (bits_high_false m j); lia.
  - intros i Hi. destruct (Z.leb_spec (len64 x) i); [|done].
    cbn. symmetry. apply Hbit; lia.
Qed.

(** The leaf is in the left, complete subtree of [2^j] leaves. *)
Lemma geometry_left j m n :
  0 <= j < 63 → 0 <= m < 2 ^ j → 2 ^ j < n <= 2 * 2 ^ j →
  count_of m n = j + 1 ∧ left_sib m n j = false ∧
  ∀ i, 0 <= i < j → left_sib m n i = Z.testbit m i.
Proof.
  intros Hj Hm Hn.
  assert (Hlast : ∀ i, j <= i → Z.testbit (n - 1) i = (i =? j)).
  { intros i Hi. replace (n - 1) with (2 ^ j + (n - 1 - 2 ^ j)) by lia.
    rewrite testbit_add_pow2 by lia.
    rewrite (bits_high_false (n - 1 - 2 ^ j) j) by lia. apply orb_false_r. }
  assert (Hin : inner_of m n = j + 1).
  { apply len64_unique; [lia | apply Z.lxor_nonneg; lia | |].
    - rewrite Z.lxor_spec, Hlast, (bits_high_false m j) by lia. by rewrite Z.eqb_refl.
    - intros i Hi. rewrite Z.lxor_spec, Hlast, (bits_high_false m j) by lia.
      by replace (i =? j) with false by lia. }
  unfold count_of, left_sib. rewrite Hin. split_and!.
  - replace (Z.shiftr m (j + 1)) with 0; [unfold ones64; rewrite ones_fuel_0; lia|].
    symmetry. apply Z.shiftr_eq_0; [lia|].
    destruct (decide (m = 0)) as [->|]; [cbn; lia|].
    assert (Z.log2 m < j) by (apply Z.log2_lt_pow2; lia). lia.
  - rewrite (bits_high_false m j) by lia. by replace (j + 1 <=? j) with false by lia.
  - intros i Hi. by replace (j + 1 <=? i) with false by lia.
Qed.

(** The leaf is in the right subtree: one more left sibling, at the top. *)
Lemma geometry_right j m n :
  0 <= j < 63 → 2 ^ j <= m < n → n <= 2 * 2 ^ j →
  count_of m n = count_of (m - 2 ^ j) (n - 2 ^ j) + 1 ∧
  left_sib m n (count_of (m - 2 ^ j) (n - 2 ^ j)) = true ∧
  ∀ i, 0 <= i < count_of (m - 2 ^ j) (n - 2 ^ j) →
    left_sib m n i = left_sib (m - 2 ^ j) (n - 2 ^ j) i.
Proof.
  intros Hj Hm Hn. set (k := 2 ^ j) in *. set (m' := m - k). set (n' := n - k).
  assert (Hmb : ∀ i, 0 <= i → Z.testbit m i = (i =? j) || Z.testbit m' i).
  { intros i Hi. replace m with (k + m') by lia. apply testbit_add_pow2; unfold m', k; lia. }
  assert (Hnb : ∀ i, 0 <= i → Z.testbit (n - 1) i = (i =? j) || Z.testbit (n' - 1) i).
  { intros i Hi. replace (n - 1) with (k + (n' - 1)) by lia.
    apply testbit_add_pow2; unfold n', k; lia. }
  assert (Hin : inner_of m n = inner_of m' n').
  { unfold inner_of. f_equal. apply Z.bits_inj'. intros i Hi.
    rewrite !Z.lxor_spec, Hmb, Hnb by lia.
    destruct (Z.eqb_spec i j) as [->|]; [|done].
    by rewrite (bits_high_false m' j), (bits_high_false (n' - 1) j) by (unfold m', n', k; lia). }
  assert (Hinj : 0 <= inner_of m' n' <= j).
  { unfold inner_of. split; [apply len64_nonneg|]. apply len64_le; [lia | apply Z.lxor_nonneg; lia |].
    intros i Hi. rewrite Z.lxor_spec, (bits_high_false m' j), (bits_high_false (n' - 1) j);
      [done | unfold m', n', k; lia..]. }
  assert (Hbd : 0 <= ones64 (Z.shiftr m' (inner_of m' n'))) by apply ones_fuel_nonneg.
  unfold count_of, left_sib. rewrite Hin. set (inn := inner_of m' n') in *. split_and!.
  - replace (Z.shiftr m inn) with (2 ^ (j - inn) + Z.shiftr m' inn).
    + unfold ones64. rewrite ones_fuel_add_pow2; [lia | lia |].
      rewrite Z.shiftr_div_pow2 by lia. split; [apply Z.div_pos; lia|].
      apply Z.div_lt_upper_bound; [lia|].
      rewrite <- Z.pow_add_r by lia. replace (inn + (j - inn)) with j by lia. fold k. lia.
    + replace m with (k + m') by lia. rewrite !Z.shiftr_div_pow2 by lia.
      unfold k. replace (2 ^ j) with (2 ^ (j - inn) * 2 ^ inn).
      * rewrite Z.div_add_l; lia.
      * rewrite <- Z.pow_add_r by lia. f_equal; lia.
  - by replace (inn <=? inn + ones64 (Z.shiftr m' inn)) with true by lia.
  - intros i Hi. destruct (Z.leb_spec inn i); [done|]. cbn.
    rewrite Hmb by lia. by replace (i =? j) with false by lia.
Qed.

Section Merkle.
Context {dg : Digest}.

Definition node_bytes (l r : bytes) : bytes := String "001"%char (l +:+ r).
Definition node (l r : bytes) : bytes := sha256 (node_bytes l r).
Definition leaf_hash (d : bytes) : bytes := sha256 (String "000"%char d).

Definition is32 (p : bytes) : bool := (String.length p =? 32)%nat.

(** The loop [for i, p := range proof], from iteration [i]; [None] when a
    hash is not 32 bytes. *)
Fixpoint inclusion_loop (idx inner i : Z) (h : bytes) (proof : list bytes) : option bytes :=
  match proof with
  | [] => Some h
  | p :: proof' =>
      if is32 p then
        let h' :=
          if inner <=? i then node p h
          else if Z.land (Z.shiftr idx i) 1 =? 0 then node h p
          else node p h in
        inclusion_loop idx inner (i + 1) h' proof'
      else None
  end.

Definition verifyInclusion (index size : Z) (leaf : bytes) (proof : list bytes)
    (root : bytes) : result inclusion_error () :=
  if (index <? 0) || (size <=? index) then Err (IndexOutsideTree index size) else
  if negb (is32 root) then Err RootNot32 else
  let idx := index in
  let last := size - 1 in
  let inner := len64 (Z.lxor idx last) in
  let border := ones64 (Z.shiftr idx inner) in
  if negb (Z.of_nat (length proof) =? inner + border)
  then Err (WrongProofLength (Z.of_nat (length proof)) (inner + border)) else
  match inclusion_loop idx inner 0 leaf proof with
  | None => Err HashNot32
  | Some h => if String.eqb h root then Ok () else Err RootMismatch
  end.

(** ** The reference: RFC 6962 section 2.1 *)

(** The largest power of two smaller than [n] (for [n] >= 2). *)
Definition split_point (n : nat) : nat := (2 ^ Nat.log2 (n - 1))%nat.

Fixpoint mth_fuel (fuel : nat) (D : list bytes) : bytes :=
  match fuel, D with
  | _, [] => sha256 ""
  | _, [d] => leaf_hash d
  | O, _ => sha256 ""
  | S f, _ => let k := split_point (length D) in
              node (mth_fuel f (take k D)) (mth_fuel f (drop k D))
  end.
(** What the inner nodes are the digests of. *)
Fixpoint tree_inputs_fuel (fuel : nat) (D : list bytes) : list bytes :=
  match fuel, D with
  | _, [] => []
  | _, [_] => []
  | O, _ => []
  | S f, _ => let k := split_point (length D) in
              node_bytes (mth_fuel f (take k D)) (mth_fuel f (drop k D)) :: tree_inputs_fuel f (take k D) ++ tree_inputs_fuel f (drop k D)
  end.
Definition tree_inputs (D : list bytes) : list bytes := tree_inputs_fuel (length D) D.
(** MTH(D). *)
Definition mth (D : list bytes) : bytes := mth_fuel (length D) D.

Fixpoint path_fuel (fuel : nat) (m : nat) (D : list bytes) : list bytes :=
  match fuel, D with
  | _, [] => []
  | _, [_] => []
  | O, _ => []
  | S f, _ =>
      let k := split_point (length D) in
      if (m <? k)%nat
      then path_fuel f m (take k D) ++ [mth (drop k D)]
      else path_fuel f (m - k) (drop k D) ++ [mth (take k D)]
  end.
(** PATH(m, D), the audit path for the leaf at position [m]. *)
Definition path (m : nat) (D : list bytes) : list bytes := path_fuel (length D) m D.

(** ** Unfolding the reference *)

Lemma split_point_bounds n :
  (2 <= n)%nat → (0 < split_point n < n)%nat ∧ (n <= 2 * split_point n)%nat.
Proof.
  intros Hn. unfold split_point.
  pose proof (Nat.log2_spec (n - 1) ltac:(lia)) as [H1 H2].
  rewrite Nat.pow_succ_r' in H2. lia.
Qed.

Lemma fuel_split (D : list bytes) n :
  (2 <= length D)%nat → (length D <= S n)%nat →
  (length (take (split_point (length D)) D) <= n)%nat ∧
  (length (drop (split_point (length D)) D) <= n)%nat.
Proof.
  intros H2 Hn. destruct (split_point_bounds (length D) H2) as [? ?].
  rewrite length_take, length_drop. lia.
Qed.

Lemma mth_fuel_enough f g D :
  (length D <= f)%nat → (length D <= g)%nat → mth_fuel f D = mth_fuel g D.
Proof.
  revert g D; induction f as [|f IH]; intros g D Hf Hg.
  - destruct D; cbn in Hf; [by destruct g | lia].
  - destruct D as [|d [|d' D]]; [by destruct g..|].
    destruct g as [|g]; [cbn in Hg; lia|].
    destruct (fuel_split (d :: d' :: D) f) as [? ?]; [cbn [length] in *; lia..|].
    destruct (fuel_split (d :: d' :: D) g) as [? ?]; [cbn [length] in *; lia..|].
    cbn [mth_fuel]. cbv zeta. f_equal; by apply IH.
Qed.

Lemma mth_split D : (2 <= length D)%nat →
  let k := split_point (length D) in mth D = node (mth (take k D)) (mth (drop k D)).
Proof.
  intros H2 k. unfold mth at 1.
  destruct (length D) as [|f] eqn:E; [lia|].
  destruct (fuel_split D f) as [? ?]; [lia..|].
  destruct D as [|d [|d' D]]; [cbn in E; lia..|].
  cbn [mth_fuel]. cbv zeta. rewrite E in *. fold k. fold k in H, H0.
  unfold mth. f_equal; by apply mth_fuel_enough.
Qed.

Lemma tree_inputs_enough f g D :
  (length D <= f)%nat → (length D <= g)%nat → tree_inputs_fuel f D = tree_inputs_fuel g D.
Proof.
  revert g D; induction f as [|f IH]; intros g D Hf Hg.
  - destruct D; cbn in Hf; [by destruct g | lia].
  - destruct D as [|d [|d' D]]; [by destruct g..|].
    destruct g as [|g]; [cbn in Hg; lia|].
    destruct (fuel_split (d :: d' :: D) f) as [? ?]; [cbn [length] in *; lia..|].
    destruct (fuel_split (d :: d' :: D) g) as [? ?]; [cbn [length] in *; lia..|].
    cbn [tree_inputs_fuel]. cbv zeta. f_equal; [f_equal; by apply mth_fuel_enough|f_equal; by apply IH].
Qed.

Lemma tree_inputs_split D : (2 <= length D)%nat →
  let k := split_point (length D) in
  tree_inputs D = node_bytes (mth (take k D)) (mth (drop k D)) :: tree_inputs (take k D) ++ tree_inputs (drop k D).
Proof.
  intros H2 k. unfold tree_inputs at 1.
  destruct (length D) as [|f] eqn:E; [lia|].
  destruct (fuel_split D f) as [? ?]; [lia..|].
  destruct D as [|d [|d' D]]; [cbn in E; lia..|].
  cbn [tree_inputs_fuel]. cbv zeta. rewrite E in *. fold k. fold k in H, H0.
  unfold mth, tree_inputs. f_equal; [f_equal; by apply mth_fuel_enough|f_equal; by apply tree_inputs_enough].
Qed.

Lemma path_fuel_enough f g m D :
  (length D <= f)%nat → (length D <= g)%nat → path_fuel f m D = path_fuel g m D.
Proof.
  revert g m D; induction f as [|f IH]; intros g m D Hf Hg.
  - destruct D; cbn in Hf; [by destruct g | lia].
  - destruct D as [|d [|d' D]]; [by destruct g..|].
    destruct g as [|g]; [cbn in Hg; lia|].
    destruct (fuel_split (d :: d' :: D) f) as [? ?]; [cbn [length] in *; lia..|].
    destruct (fuel_split (d :: d' :: D) g) as [? ?]; [cbn [length] in *; lia..|].
    cbn [path_fuel]. cbv zeta. destruct (m <? _)%nat; f_equal; by apply IH.
Qed.

Lemma path_split m D : (2 <= length D)%nat →
  let k := split_point (length D) in
  path m D = if (m <? k)%nat then path m (take k D) ++ [mth (drop k D)]
             else path (m - k) (drop k D) ++ [mth (take k D)].
Proof.
  intros H2 k. unfold path at 1.
  destruct (length D) as [|f] eqn:E; [lia|].
  destruct (fuel_split D f) as [? ?]; [lia..|].
  destruct D as [|d [|d' D]]; [cbn in E; lia..|].
  cbn [path_fuel]. cbv zeta. rewrite E in *. fold k. fold k in H, H0.
  unfold path. destruct (m <? k)%nat; f_equal; by apply path_fuel_enough.
Qed.

Lemma mth_32 D : is32 (mth D) = true.
Proof.
  assert (∀ s, is32 (sha256 s) = true) as Hs.
  { intros s. unfold is32. by rewrite sha256_length. }
  unfold mth. destruct (length D) as [|f], D as [|d [|d' D]]; cbn [mth_fuel];
    unfold node, leaf_hash; apply Hs.
Qed.

(** ** The loop as a climb from the leaf *)

Definition combine (onleft : bool) (h p : bytes) : bytes := if onleft then node p h else node h p.

Fixpoint climb (side : Z → bool) (i : Z) (h : bytes) (proof : list bytes) : bytes :=
  match proof with
  | [] => h
  | p :: proof' => climb side (i + 1) (combine (side i) h p) proof'
  end.

(** What the climb hashes. *)
Fixpoint climb_inputs (side : Z → bool) (i : Z) (h : bytes) (proof : list bytes) : list bytes :=
  match proof with
  | [] => []
  | p :: proof' => (if side i then node_bytes p h else node_bytes h p) :: climb_inputs side (i + 1) (combine (side i) h p) proof'
  end.

Lemma land_bit idx i : 0 <= i → (Z.land (Z.shiftr idx i) 1 =? 0) = negb (Z.testbit idx i).
Proof.
  intros Hi. change 1 with (Z.ones 1). rewrite Z.land_ones by lia. change (2 ^ 1) with 2.
  rewrite Zmod_odd, <- Z.bit0_odd, Z.shiftr_spec by lia.
  replace (0 + i) with i by lia. by destruct (Z.testbit idx i).
Qed.

Lemma inclusion_loop_climb idx inner i h proof :
  0 <= i →
  inclusion_loop idx inner i h proof =
    if forallb is32 proof
    then Some (climb (λ i, (inner <=? i) || Z.testbit idx i) i h proof) else None.
Proof.
  revert i h; induction proof as [|p proof IH]; intros i h Hi; [done|].
  cbn [inclusion_loop forallb climb]. destruct (is32 p); [|done]. cbn [andb].
  rewrite IH, land_bit by lia. unfold combine.
  destruct (inner <=? i); [done|]. by destruct (Z.testbit idx i).
Qed.

Lemma climb_snoc side i h proof q :
  climb side i h (proof ++ [q]) =
    combine (side (i + Z.of_nat (length proof))) (climb side i h proof) q.
Proof.
  revert i h; induction proof as [|p proof IH]; intros i h; cbn [climb app length].
  - by rewrite Z.add_0_r.
  - rewrite IH. by replace (i + 1 + Z.of_nat (length proof))
      with (i + Z.of_nat (S (length proof))) by lia.
Qed.

Lemma climb_inputs_snoc side i h proof q : let c := climb side i h proof in
  climb_inputs side i h (proof ++ [q]) =
    climb_inputs side i h proof ++ [if side (i + Z.of_nat (length proof)) then node_bytes q c else node_bytes c q].
Proof.
  revert i h; induction proof as [|p proof IH]; intros i h; cbn [climb climb_inputs app length].
  - by rewrite Z.add_0_r.
  - rewrite IH. by replace (i + 1 + Z.of_nat (length proof)) with (i + Z.of_nat (S (length proof))) by lia.
Qed.

Lemma climb_inputs_ext side1 side2 i h proof :
  (∀ j, i <= j < i + Z.of_nat (length proof) → side1 j = side2 j) →
  climb_inputs side1 i h proof = climb_inputs side2 i h proof.
Proof.
  revert i h; induction proof as [|p proof IH]; intros i h Hs; cbn [climb_inputs]; [done|].
  cbn [length] in Hs. rewrite Hs by lia. f_equal. apply IH. intros j Hj. apply Hs. lia.
Qed.

Lemma climb_ext side1 side2 i h proof :
  (∀ j, i <= j < i + Z.of_nat (length proof) → side1 j = side2 j) →
  climb side1 i h proof = climb side2 i h proof.
Proof.
  revert i h; induction proof as [|p proof IH]; intros i h Hs; cbn [climb]; [done|].
  cbn [length] in Hs. rewrite Hs by lia. apply IH. intros j Hj. apply Hs. lia.
Qed.

Lemma climb_32 side i h proof : is32 h = true → is32 (climb side i h proof) = true.
Proof.
  revert i h; induction proof as [|p proof IH]; intros i h Hh; cbn [climb]; [done|].
  apply IH. unfold combine, node. destruct (side i); unfold is32; by rewrite sha256_length.
Qed.

Lemma node_inj_or l1 r1 l2 r2 :
  is32 l1 = true → is32 l2 = true → node l1 r1 = node l2 r2 →
  (l1 = l2 ∧ r1 = r2) ∨ clash (node_bytes l1 r1) (node_bytes l2 r2).
Proof.
  unfold is32, node, node_bytes. intros H1%Nat.eqb_eq H2%Nat.eqb_eq H.
  apply sha256_inj_or in H as [[= H]|]; [left|by right].
  apply app_str_inj_len; congruence.
Qed.

(** A tree too big for its indices to fit in [int64] is not modelled by Go. *)
Definition fits (D : list bytes) : Prop := Z.of_nat (length D) < 2 ^ 63.

(** One level of the tree: the proof's last hash is the sibling subtree's root,
    on the side the verifier puts it, and the rest is a proof in the subtree
    that holds the leaf. *)
Lemma tree_level (D : list bytes) m :
  (2 <= length D)%nat → (m < length D)%nat → fits D →
  let k := split_point (length D) in
  let n := Z.of_nat (length D) in
  let '(m', D', sib, onleft) :=
    if (m <? k)%nat then (m, take k D, drop k D, false)
    else ((m - k)%nat, drop k D, take k D, true) in
  (m' < length D')%nat ∧ (length D' < length D)%nat ∧ (1 <= length D')%nat ∧
  mth D = (if onleft then node (mth sib) (mth D') else node (mth D') (mth sib)) ∧
  path m D = path m' D' ++ [mth sib] ∧ D !! m = D' !! m' ∧
  tree_inputs D' ⊆ tree_inputs D ∧
  (if onleft then node_bytes (mth sib) (mth D') else node_bytes (mth D') (mth sib)) ∈ tree_inputs D ∧
  let c := count_of (Z.of_nat m') (Z.of_nat (length D')) in
  count_of (Z.of_nat m) n = c + 1 ∧ left_sib (Z.of_nat m) n c = onleft ∧
  ∀ h proof, Z.of_nat (length proof) = c →
    climb (left_sib (Z.of_nat m) n) 0 h proof =
    climb (left_sib (Z.of_nat m') (Z.of_nat (length D'))) 0 h proof ∧
    climb_inputs (left_sib (Z.of_nat m) n) 0 h proof =
    climb_inputs (left_sib (Z.of_nat m') (Z.of_nat (length D'))) 0 h proof.
Proof.
  intros H2 Hm Hfit k n. pose proof (split_point_bounds _ H2) as [Hk1 Hk2]. fold k in Hk1, Hk2.
  set (j := Z.of_nat (Nat.log2 (length D - 1))).
  assert (Hkj : Z.of_nat k = 2 ^ j) by (unfold k, split_point, j; by rewrite Nat2Z.inj_pow).
  assert (Hj : 0 <= j < 63).
  { split; [lia|]. apply (Z.pow_lt_mono_r_iff 2); [lia..|]. unfold fits in Hfit. lia. }
  pose proof (mth_split D H2) as Em. pose proof (path_split m D H2) as Ep. pose proof (tree_inputs_split D H2) as Ei.
  cbv zeta in Em, Ep, Ei. fold k in Em, Ep, Ei.
  destruct (Nat.ltb_spec m k).
  - assert (Hlen : length (take k D) = k) by (rewrite length_take; lia).
    destruct (geometry_complete j (Z.of_nat m)) as [C1 C2]; [lia..|].
    destruct (geometry_left j (Z.of_nat m) n) as (L1 & L2 & L3); [lia..|].
    rewrite Hlen, Hkj. cbv zeta. rewrite C1. split_and!; auto; [lia..| | | |].
    + by rewrite lookup_take_lt.
    + rewrite Ei. set_solver.
    + rewrite Ei. left.
    + intros h proof Hp. split; [apply climb_ext|apply climb_inputs_ext]; (intros i Hi; rewrite L3, C2; [done|lia..]).
  - assert (Hlen : length (drop k D) = (length D - k)%nat) by apply length_drop.
    destruct (geometry_right j (Z.of_nat m) n) as (R1 & R2 & R3); [lia..|].
    rewrite Hlen. replace (Z.of_nat (m - k)) with (Z.of_nat m - 2 ^ j) by lia.
    replace (Z.of_nat (length D - k)) with (n - 2 ^ j) by lia.
    cbv zeta. split_and!; auto; [lia..| | | |].
    + rewrite lookup_drop. f_equal; lia.
    + rewrite Ei. set_solver.
    + rewrite Ei. left.
    + intros h proof Hp. split; [apply climb_ext|apply climb_inputs_ext]; (intros i Hi; apply R3; lia).
Qed.

(** Use [tree_level] at [D], [m], naming the subtree that holds the leaf. *)
Ltac level D m :=
  let L := fresh "L" in
  pose proof (tree_level D m ltac:(lia) ltac:(lia) ltac:(done)) as L; cbv zeta in L;
  destruct (m <? split_point (length D))%nat;
  destruct L as (Hm' & Hlt & Hge & Emth & Epath & Eget & Esub & Ein & Ecnt & Etop & Elow).

Lemma fits_shorter (D D' : list bytes) : fits D → (length D' < length D)%nat → fits D'.
Proof. unfold fits. lia. Qed.

Lemma count_of_nonneg m n : 0 <= count_of m n.
Proof.
  unfold count_of, inner_of, ones64.
  pose proof (len64_nonneg (Z.lxor m (n - 1))).
  pose proof (ones_fuel_nonneg 64 (Z.shiftr m (len64 (Z.lxor m (n - 1))))). lia.
Qed.

(** The audit path climbs to the root. *)
Lemma climb_path D : ∀ m d, fits D → D !! m = Some d →
  Z.of_nat (length (path m D)) = count_of (Z.of_nat m) (Z.of_nat (length D)) ∧
  forallb is32 (path m D) = true ∧
  climb (left_sib (Z.of_nat m) (Z.of_nat (length D))) 0 (leaf_hash d) (path m D) = mth D.
Proof.
  induction D as [D IH] using (induction_ltof1 _ (@length bytes)). unfold ltof in IH.
  intros m d Hfit Hd. pose proof (lookup_lt_Some _ _ _ Hd) as Hm.
  destruct (decide (2 <= length D)%nat) as [H2|H1].
  - level D m; rewrite Eget in Hd;
      destruct (IH _ Hlt _ d (fits_shorter _ _ Hfit Hlt) Hd) as (IHc & IH32 & IHr);
      rewrite Epath, length_app, forallb_app, climb_snoc, IH32, Emth; cbn [length forallb andb];
      rewrite mth_32, Z.add_0_l, IHc, Etop, (λ h, proj1 (Elow h _ IHc)), IHr by done; (split_and!; [lia|done..]).
  - destruct D as [|d0 [|]]; cbn in Hm, H1; [lia| |lia].
    assert (m = 0)%nat as -> by lia. injection Hd as ->. done.
Qed.

(** Whatever climbs to the root is the audit path of the leaf there. *)
Lemma climb_unique D : ∀ m h proof, fits D → (m < length D)%nat → is32 h = true →
  forallb is32 proof = true →
  Z.of_nat (length proof) = count_of (Z.of_nat m) (Z.of_nat (length D)) →
  climb (left_sib (Z.of_nat m) (Z.of_nat (length D))) 0 h proof = mth D →
  ((∃ d, D !! m = Some d ∧ h = leaf_hash d) ∧ proof = path m D) ∨
  clash_among (climb_inputs (left_sib (Z.of_nat m) (Z.of_nat (length D))) 0 h proof) (tree_inputs D).
Proof.
  induction D as [D IH] using (induction_ltof1 _ (@length bytes)). unfold ltof in IH.
  intros m h proof Hfit Hm Hh H32 Hlen Hc.
  destruct (decide (2 <= length D)%nat) as [H2|H1].
  - destruct proof as [|q proof _] using rev_ind.
    { exfalso. cbn [length] in Hlen. level D m;
        pose proof (count_of_nonneg (Z.of_nat m) (Z.of_nat (length (take (split_point (length D)) D))));
        pose proof (count_of_nonneg (Z.of_nat (m - split_point (length D)))
          (Z.of_nat (length (drop (split_point (length D)) D)))); lia. }
    rewrite length_app in Hlen. rewrite forallb_app in H32. cbn [length forallb] in Hlen, H32.
    bools. rewrite climb_snoc, Z.add_0_l in Hc. rewrite climb_inputs_snoc, Z.add_0_l. cbv zeta. unfold combine in Hc.
    level D m; (replace (Z.of_nat (length proof)) with
        (count_of (Z.of_nat m) (Z.of_nat (length D)) - 1) in * by lia);
      rewrite Ecnt, Z.add_simpl_r in *; (destruct (Elow h proof) as [El Eli]; [lia|]); rewrite Etop, El, Eli; rewrite Etop, El, Emth in Hc.
    + destruct (node_inj_or _ _ _ _ (climb_32 _ _ _ _ Hh) (mth_32 _) Hc) as [[Hc1 ->]|];
        [|right; by do 2 eexists; split_and!; [apply elem_of_app; right; left|exact Ein|]].
      destruct (IH _ Hlt m h proof (fits_shorter _ _ Hfit Hlt) Hm' Hh) as [[? ->]|];
        [done | lia | done | | right; eapply clash_among_mono; [|exact Esub|done]; set_solver].
      left. by rewrite Epath, Eget.
    + destruct (node_inj_or _ _ _ _ H0 (mth_32 _) Hc) as [[-> Hc1]|];
        [|right; by do 2 eexists; split_and!; [apply elem_of_app; right; left|exact Ein|]].
      destruct (IH _ Hlt (m - split_point (length D))%nat h proof
        (fits_shorter _ _ Hfit Hlt) Hm' Hh) as [[? ->]|]; [done | lia | done | | right; eapply clash_among_mono; [|exact Esub|done]; set_solver].
      left. by rewrite Epath, Eget.
  - destruct D as [|d0 [|]]; cbn in Hm, H1; [lia| |lia].
    assert (m = 0)%nat as -> by lia. change (count_of _ _) with 0 in Hlen.
    destruct proof; [|cbn in Hlen; lia]. cbn in Hc. left. split; [|done]. by exists d0.
Qed.

(** The verifier, restated with the tree's shape. *)
Lemma verifyInclusion_Ok index size leaf proof root :
  verifyInclusion index size leaf proof root = Ok () ↔
  0 <= index < size ∧ is32 root = true ∧ forallb is32 proof = true ∧
  Z.of_nat (length proof) = count_of index size ∧
  climb (left_sib index size) 0 leaf proof = root.
Proof.
  unfold verifyInclusion. cbv zeta. fold (inner_of index size). fold (count_of index size).
  rewrite inclusion_loop_climb by lia. fold (left_sib index size).
  destruct ((index <? 0) || (size <=? index)) eqn:E1.
  { split; [done|]. lia. }
  destruct (is32 root) eqn:E2; cbn [negb]; [|naive_solver].
  destruct (Z.eqb_spec (Z.of_nat (length proof)) (count_of index size)) as [E3|E3];
    cbn [negb]; [|naive_solver].
  destruct (forallb is32 proof); [|naive_solver].
  destruct (String.eqb_spec (climb (left_sib index size) 0 leaf proof) root) as [E5|E5];
    [|naive_solver].
  split; [|done]. intros _. split_and!; auto; lia.
Qed.

(** Completeness of the inclusion check: for every tree whose size fits the
    log's 63-bit indices, the RFC 6962 audit path of every leaf is accepted
    against the RFC 6962 root. *)
Theorem verifyInclusion_complete D m d :
  fits D → D !! m = Some d →
  verifyInclusion (Z.of_nat m) (Z.of_nat (length D)) (leaf_hash d) (path m D) (mth D) = Ok ().
Proof.
  intros Hfit Hd. destruct (climb_path D m d Hfit Hd) as (Hl & H32 & Hc).
  apply verifyInclusion_Ok. pose proof (lookup_lt_Some _ _ _ Hd).
  split_and!; auto using mth_32; lia.
Qed.

(** C37. Soundness of the inclusion check: whatever leaf hash (of 32 bytes) and proof the
    verifier accepts against the root of a tree of [|D|] < 2^63 leaves, the leaf hash
    is the one of the entry at that index and the proof is its audit path; the
    only other way is that one of the inputs the verifier hashed on its way to the root clashes, under SHA-256, with an
    input of an inner node of that tree. *)
Theorem verifyInclusion_sound D index h proof :
  fits D → is32 h = true →
  verifyInclusion index (Z.of_nat (length D)) h proof (mth D) = Ok () →
  (∃ d, D !! Z.to_nat index = Some d ∧ h = leaf_hash d ∧ proof = path (Z.to_nat index) D)
  ∨ clash_among (climb_inputs (left_sib index (Z.of_nat (length D))) 0 h proof) (tree_inputs D).
Proof.
  intros Hfit Hh (Hi & _ & H32 & Hlen & Hc)%verifyInclusion_Ok.
  rewrite <- (Z2Nat.id index) in Hlen, Hc by lia.
  destruct (climb_unique D (Z.to_nat index) h proof) as [[(d & Hd & ->) ->]|Hcl];
    auto; [lia|left; eauto|right]. by rewrite Z2Nat.id in Hcl by lia.
Qed.
End Merkle.

(** ** Witnesses: a tree of five leaves *)
Import Toy.

Definition five_leaves : list bytes := ["a"; "b"; "c"; "d"; "e"]%string.

Lemma verifyInclusion_complete_witness :
  verifyInclusion 2 5 (leaf_hash "c") (path 2 five_leaves) (mth five_leaves) = Ok ().
Proof. apply (verifyInclusion_complete five_leaves 2 "c"); vm_compute; reflexivity. Defined.

Lemma verifyInclusion_sound_witness :
  (∃ d, five_leaves !! 4%nat = Some d ∧ leaf_hash "e" = leaf_hash d ∧
        path 4 five_leaves = path 4 five_leaves) ∨
  clash_among (climb_inputs (left_sib 4 5) 0 (leaf_hash "e") (path 4 five_leaves)) (tree_inputs five_leaves).
Proof.
  apply (verifyInclusion_sound five_leaves 4 (leaf_hash "e") (path 4 five_leaves));
    vm_compute; reflexivity.
Defined.
