(* ===== verification/JsonText.v ===== *)
(** * JSON's lexical layer: UTF-8, string literals, numbers

    How encoding/json writes a Go string (HTML escaping, invalid UTF-8 as an
    escaped U+FFFD) and reads one back. The main result, [read_encode_string]:
    reading what was written gives the string made valid UTF-8. *)
From S2P Require Import Prelude GoLib.
Local Open Scope string_scope.
Local Open Scope nat_scope.

(** ** UTF-8 *)

Definition cont (lo hi : nat) (s : string) : bool :=
  match s with String b _ => (lo <=? code b)%nat && (code b <=? hi)%nat | "" => false end.

(** The length of the valid encoding [s] starts with, 0 when there is none
    (utf8.DecodeRune's table of accepted ranges). *)
Definition rune_len (s : string) : nat :=
  match s with
  | "" => 0
  | String a s1 =>
      let x := code a in
      if (x <? 128)%nat then 1
      else if (x <? 194)%nat then 0
      else if (x <? 224)%nat then (if cont 128 191 s1 then 2 else 0)
      else if (x <? 240)%nat then
        if cont (if x =? 224 then 160 else 128) (if x =? 237 then 159 else 191)%nat s1
           && cont 128 191 (drop_str 1 s1) then 3 else 0
      else if (x <? 245)%nat then
        if cont (if x =? 240 then 144 else 128) (if x =? 244 then 143 else 191)%nat s1
           && cont 128 191 (drop_str 1 s1) && cont 128 191 (drop_str 2 s1) then 4 else 0
      else 0
  end.

(** The replacement character U+FFFD. *)
Definition fffd : string := String (byte 239) (String (byte 191) (String (byte 189) "")).

(** A string as the runes a Go range loop sees: a valid encoding's bytes, or
    [None] for a byte that starts none. *)
Fixpoint chunks_fuel (fuel : nat) (s : string) : list (option string) :=
  match fuel, s with
  | O, _ | _, "" => []
  | S f, String _ s' =>
      match rune_len s with
      | O => None :: chunks_fuel f s'
      | n => Some (take_str n s) :: chunks_fuel f (drop_str n s)
      end
  end.
Definition chunks (s : string) : list (option string) := chunks_fuel (String.length s) s.

Definition concat_str : list string → string := foldr String.append "".

(** [strings.ToValidUTF8(s, U+FFFD)], byte by byte: what a reader makes of [s]. *)
Definition to_valid (s : string) : string := concat_str (map (default fffd) (chunks s)).

Definition utf8_valid (s : string) : bool := forallb (λ c, bool_decide (is_Some c)) (chunks s).

(** ** Writing a string *)

Definition u_escape (n : nat) : string :=
  String "\" (String "u" (String (hex_digit (n / 4096 mod 16)) (String (hex_digit (n / 256 mod 16))
    (String (hex_digit (n / 16 mod 16)) (String (hex_digit (n mod 16)) ""))))).

(** One ASCII byte, HTML-escaped (appendString with escapeHTML). *)
Definition encode_ascii (a : ascii) : string :=
  let x := code a in
  if (x =? 34)%nat then String "\" (String a "")
  else if (x =? 92)%nat then String "\" (String a "")
  else if (x =? 8)%nat then "\b" else if (x =? 12)%nat then "\f"
  else if (x =? 10)%nat then "\n" else if (x =? 13)%nat then "\r" else if (x =? 9)%nat then "\t"
  else if (x <? 32)%nat || (x =? 60)%nat || (x =? 62)%nat || (x =? 38)%nat then u_escape x
  else String a "".

Definition line_sep : string := String (byte 226) (String (byte 128) (String (byte 168) "")).
Definition par_sep : string := String (byte 226) (String (byte 128) (String (byte 169) "")).

Definition encode_chunk (c : option string) : string :=
  match c with
  | None => "\ufffd"
  | Some (String a "") => encode_ascii a
  | Some c => if String.eqb c line_sep then "\u2028"
              else if String.eqb c par_sep then "\u2029" else c
  end.

Definition encode_chars (s : string) : string := concat_str (map encode_chunk (chunks s)).
Definition quote : ascii := "034"%char.
Definition encode_string (s : string) : string := String quote (encode_chars s +:+ String quote "").

(** ** Reading a string or a number *)

(** utf8.EncodeRune of a code point below U+110000 that is not a surrogate. *)
Definition utf8_encode (n : N) : string :=
  let tail d := ascii_of_N (128 + n / d mod 64)%N in
  if (n <? 128)%N then String (ascii_of_N n) ""
  else if (n <? 2048)%N then String (ascii_of_N (192 + n / 64)) (String (tail 1%N) "")
  else if (n <? 65536)%N then
    String (ascii_of_N (224 + n / 4096)) (String (tail 64%N) (String (tail 1%N) ""))
  else String (ascii_of_N (240 + n / 262144))
         (String (tail 4096%N) (String (tail 64%N) (String (tail 1%N) ""))).

(** Four hex digits. *)
Definition hex4 (s : string) : option (N * string) :=
  match s with
  | String a (String b (String c (String d s'))) =>
      match unhex a, unhex b, unhex c, unhex d with
      | Some x, Some y, Some z, Some w =>
          Some (N.of_nat (16 * x + y) * 256 + N.of_nat (16 * z + w), s')%N
      | _, _, _, _ => None
      end
  | _ => None
  end.

(** getu4: a further [\uXXXX] escape. *)
Definition get_u4 (s : string) : option (N * string) :=
  match s with
  | String a (String b s') => if Ascii.eqb a "\" && Ascii.eqb b "u" then hex4 s' else None
  | _ => None
  end.

(** What follows a backslash: the text it stands for, and the rest. *)
Definition unescape (s : string) : option (string * string) :=
  match s with
  | "" => None
  | String a r =>
      if Ascii.eqb a quote || Ascii.eqb a "\" || Ascii.eqb a "/" then Some (String a "", r)
      else if Ascii.eqb a "b" then Some (String (byte 8) "", r)
      else if Ascii.eqb a "f" then Some (String (byte 12) "", r)
      else if Ascii.eqb a "n" then Some (String (byte 10) "", r)
      else if Ascii.eqb a "r" then Some (String (byte 13) "", r)
      else if Ascii.eqb a "t" then Some (String (byte 9) "", r)
      else if Ascii.eqb a "u" then
        match hex4 r with
        | None => None
        | Some (n, r') =>
            if (55296 <=? n)%N && (n <? 57344)%N then
              match get_u4 r' with
              | Some (m, r'') =>
                  if (n <? 56320)%N && (56320 <=? m)%N && (m <? 57344)%N
                  then Some (utf8_encode (65536 + (n - 55296) * 1024 + (m - 56320))%N, r'')
                  else Some (fffd, r')
              | None => Some (fffd, r')
              end
            else Some (utf8_encode n, r')
        end
      else None
  end.

(** One step inside a string literal: the closing quote, or one rune. *)
Inductive str_step := StrEnd (rest : string) | StrRune (out rest : string) | StrBad.

Definition unquote_step (s : string) : str_step :=
  match s with
  | "" => StrBad
  | String a r =>
      if Ascii.eqb a quote then StrEnd r
      else if Ascii.eqb a "\" then
        match unescape r with Some (out, r') => StrRune out r' | None => StrBad end
      else if code a <? 32 then StrBad
      else match rune_len s with
           | O => StrRune fffd r
           | n => StrRune (take_str n s) (drop_str n s)
           end
  end.

Fixpoint unquote (fuel : nat) (s : string) : option (string * string) :=
  match fuel with
  | O => None
  | S f =>
      match unquote_step s with
      | StrBad => None
      | StrEnd r => Some ("", r)
      | StrRune out r =>
          match unquote f r with Some (t, r') => Some (out +:+ t, r') | None => None end
      end
  end.

(** A string literal, its opening quote read. *)
Definition read_string (s : string) : option (string * string) := unquote (String.length s) s.

(** The number automaton (scanner.go's state0, state1, stateDot, ...). *)
Inductive num_state := NStart | NNeg | NZero | NInt | NDot | NFrac | NExp | NExpSign | NExpInt.

Definition is_digit (a : ascii) : bool := (48 <=? code a) && (code a <=? 57).
Definition is_exp (a : ascii) : bool := Ascii.eqb a "e" || Ascii.eqb a "E".

Definition num_step (st : num_state) (a : ascii) : option num_state :=
  match st with
  | NStart => if Ascii.eqb a "-" then Some NNeg
              else if Ascii.eqb a "0" then Some NZero
              else if is_digit a then Some NInt else None
  | NNeg => if Ascii.eqb a "0" then Some NZero else if is_digit a then Some NInt else None
  | NZero => if Ascii.eqb a "." then Some NDot else if is_exp a then Some NExp else None
  | NInt => if is_digit a then Some NInt
            else if Ascii.eqb a "." then Some NDot else if is_exp a then Some NExp else None
  | NDot => if is_digit a then Some NFrac else None
  | NFrac => if is_digit a then Some NFrac else if is_exp a then Some NExp else None
  | NExp => if Ascii.eqb a "+" || Ascii.eqb a "-" then Some NExpSign
            else if is_digit a then Some NExpInt else None
  | NExpSign | NExpInt => if is_digit a then Some NExpInt else None
  end.

Definition num_accept (st : num_state) : bool :=
  match st with NZero | NInt | NFrac | NExpInt => true | _ => false end.

Fixpoint num_run (st : num_state) (s : string) : string * string * num_state :=
  match s with
  | "" => ("", "", st)
  | String a s' =>
      match num_step st a with
      | None => ("", s, st)
      | Some st' => match num_run st' s' with (l, r, e) => (String a l, r, e) end
      end
  end.

Definition read_number (s : string) : option (string * string) :=
  match num_run NStart s with (l, r, e) => if num_accept e then Some (l, r) else None end.

(** ** Runes *)

Lemma rune_len_le s : rune_len s <= String.length s.
Proof.
  destruct s as [|a s1]; cbn [rune_len]; [done|].
  repeat match goal with |- context [if ?b then _ else _] => destruct b eqn:? end;
    try (cbn [String.length]; lia); bools;
    destruct s1 as [|b [|c [|d ?]]]; cbn [cont drop_str] in *; try done; cbn [String.length]; lia.
Qed.

Lemma rune_len_pos a s : rune_len (String a s) = 0 ∨ 1 <= rune_len (String a s) <= 4.
Proof.
  cbn [rune_len].
  repeat match goal with |- context [if ?b then _ else _] => destruct b end; lia.
Qed.

(** [rune_len] reads no further than the rune. *)
Lemma rune_len_app s t :
  rune_len s ≠ 0 → rune_len (take_str (rune_len s) s +:+ t) = rune_len s.
Proof.
  destruct s as [|a s1]; [done|]. cbn [rune_len].
  repeat match goal with
  | |- context [if ?b then _ else _] => destruct b eqn:?
  end; try done; intros _; bools;
    destruct s1 as [|b [|c [|d ?]]]; cbn [cont drop_str] in *; try done;
    cbn [take_str]; autorewrite with str; cbn [rune_len];
    repeat match goal with H : (code a <? _) = _ |- _ => rewrite H end;
    cbn [cont drop_str]; 
    repeat match goal with H : (_ && _)%bool = true |- _ => rewrite H; clear H
    | H : (_ <=? _) = true |- _ => rewrite H; clear H end; cbn [andb];
    repeat match goal with H : (_ <=? _) = true |- _ => rewrite H; clear H end; done.
Qed.

(** A chunk is an invalid byte or exactly one valid rune. *)
Definition good_chunk (c : option string) : Prop :=
  match c with None => True | Some c => rune_len c = String.length c ∧ c ≠ "" end.

Lemma good_chunk_app c t :
  good_chunk (Some c) → rune_len (c +:+ t) = String.length c ∧ rune_len (c +:+ t) ≠ 0.
Proof.
  intros [Hc Hn]. assert (rune_len c ≠ 0) as H0 by (rewrite Hc; by destruct c).
  pose proof (rune_len_app c t H0) as E. rewrite Hc in E.
  replace (take_str (String.length c) c) with c in E.
  - rewrite E. by destruct c.
  - symmetry. pose proof (take_str_length_app c "") as T. by rewrite app_str_nil_r in T.
Qed.

Lemma rune_chunk s : rune_len s ≠ 0 → good_chunk (Some (take_str (rune_len s) s)).
Proof.
  intros H0. pose proof (rune_len_le s). pose proof (rune_len_app s "" H0) as E.
  rewrite app_str_nil_r in E. split.
  - rewrite E, length_take_str. lia.
  - intros Hc. by rewrite Hc in E.
Qed.

Lemma chunks_fuel_enough f g s :
  String.length s <= f → String.length s <= g → chunks_fuel f s = chunks_fuel g s.
Proof.
  revert g s; induction f as [|f IH]; intros g [|a s] Hf Hg; try (by destruct g); [cbn in Hf; lia|].
  destruct g as [|g]; [cbn in Hg; lia|].
  cbn [String.length] in Hf, Hg. cbn [chunks_fuel].
  destruct (rune_len (String a s)) as [|n] eqn:E; f_equal; apply IH; try lia;
    rewrite length_drop_str; cbn [String.length]; lia.
Qed.

Lemma chunks_cons a s :
  chunks (String a s) =
    match rune_len (String a s) with
    | O => None :: chunks s
    | n => Some (take_str n (String a s)) :: chunks (drop_str n (String a s))
    end.
Proof.
  unfold chunks at 1. cbn [String.length chunks_fuel].
  destruct (rune_len (String a s)) as [|n] eqn:E; [done|].
  f_equal. apply chunks_fuel_enough; rewrite length_drop_str; cbn [String.length]; lia.
Qed.

Lemma chunks_app c t : good_chunk (Some c) → chunks (c +:+ t) = Some c :: chunks t.
Proof.
  intros Hc. pose proof (good_chunk_app c t Hc) as [E E0].
  destruct c as [|a c]; [by destruct Hc|].
  pose proof (chunks_cons a (c +:+ t)) as U.
  rewrite <- (app_str_cons a c t), E in U. cbn [String.length] in U.
  change (S (String.length c)) with (String.length (String a c)) in U.
  by rewrite take_str_length_app, drop_str_length_app in U.
Qed.

Lemma string_len_ind (P : string → Prop) :
  (∀ s, (∀ r, String.length r < String.length s → P r) → P s) → ∀ s, P s.
Proof. intros H. apply (induction_ltof1 _ String.length). exact H. Qed.

Lemma chunks_good s : Forall good_chunk (chunks s).
Proof.
  induction s as [s IH] using string_len_ind. destruct s as [|a s]; [constructor|].
  rewrite chunks_cons. destruct (rune_len (String a s)) as [|n] eqn:E.
  - constructor; [done|]. apply IH. cbn; lia.
  - rewrite <- E. constructor; [apply rune_chunk; by rewrite E|].
    apply IH. rewrite E, length_drop_str. cbn [String.length]. lia.
Qed.

Lemma chunks_concat l :
  Forall (λ c, good_chunk (Some c)) l → chunks (concat_str l) = map Some l.
Proof.
  induction 1 as [|c l Hc Hl IH]; [done|]. cbn [concat_str foldr map].
  fold (concat_str l). by rewrite chunks_app, IH.
Qed.

Lemma fffd_good : good_chunk (Some fffd).
Proof. done. Qed.

Lemma chunks_to_valid s : chunks (to_valid s) = map (Some ∘ default fffd) (chunks s).
Proof.
  unfold to_valid. rewrite chunks_concat, map_map; [done|].
  apply Forall_map. eapply Forall_impl; [apply chunks_good|].
  intros [c|] Hc; [done | apply fffd_good].
Qed.

Lemma concat_chunks s : concat_str (map (default fffd) (chunks s)) = to_valid s.
Proof. done. Qed.

(** A valid string is the concatenation of its runes. *)
Lemma to_valid_id s : utf8_valid s = true → to_valid s = s.
Proof.
  unfold utf8_valid, to_valid. induction s as [s IH] using string_len_ind.
  destruct s as [|a s]; [done|]. rewrite chunks_cons.
  destruct (rune_len (String a s)) as [|n] eqn:E; [done|]. cbn [forallb map concat_str foldr].
  intros H; bools. fold (concat_str (map (default fffd) (chunks (drop_str (S n) (String a s))))).
  rewrite IH; [|rewrite length_drop_str; cbn [String.length]; lia|done].
  cbn [default]. apply take_drop_str.
Qed.

Lemma to_valid_valid s : utf8_valid (to_valid s) = true.
Proof.
  unfold utf8_valid. rewrite chunks_to_valid. by induction (chunks s).
Qed.

#[export] Hint Resolve to_valid_valid to_valid_id : corral.

Lemma code_ascii_of_N n : (n < 256)%N → code (ascii_of_N n) = N.to_nat n.
Proof.
  intros H. unfold code, nat_of_ascii. by rewrite N_ascii_embedding.
Qed.

(** [lia] with division and remainder by constants, for this lemma. *)
Ltac Zify.zify_post_hook ::= Z.to_euclidean_division_equations.

(** Encoding a scalar value gives one valid rune. *)
Lemma utf8_encode_good n :
  (n < 1114112)%N → ¬ (55296 <= n < 57344)%N → good_chunk (Some (utf8_encode n)).
Proof.
  intros Hn Hs. split; [|by unfold utf8_encode; repeat case_match].
  unfold utf8_encode.
  destruct (N.ltb_spec n 128); [|destruct (N.ltb_spec n 2048); [|destruct (N.ltb_spec n 65536)]];
    cbn [rune_len cont drop_str String.length]; rewrite !code_ascii_of_N by lia;
    repeat match goal with
    | |- context [if ?b then _ else _] => destruct b eqn:?
    | H : context [if ?b then _ else _] |- _ => destruct b eqn:?
    end; try done; try (exfalso; lia).
Qed.
Ltac Zify.zify_post_hook ::= idtac.

(** ** Strings: reading what was written *)

Lemma unquote_step_ascii a t :
  code a < 128 → unquote_step (encode_ascii a +:+ t) = StrRune (String a "") t.
Proof.
  intros Ha. destruct a as [[] [] [] [] [] [] [] []];
    try (exfalso; vm_compute in Ha; lia); reflexivity.
Qed.

Lemma rune_len_1 a : rune_len (String a "") = 1 → code a < 128.
Proof.
  cbn [rune_len]. destruct (Nat.ltb_spec (code a) 128); [done|].
  repeat case_match; try done.
Qed.

Lemma rune_first a s : good_chunk (Some (String a s)) → s ≠ "" → 128 <= code a.
Proof.
  intros [H _] Hs. cbn [rune_len] in H.
  destruct (Nat.ltb_spec (code a) 128); [|done].
  destruct s; [done|]. cbn in H. lia.
Qed.

Lemma unquote_step_rune c t :
  good_chunk (Some c) → 2 <= String.length c → unquote_step (c +:+ t) = StrRune c t.
Proof.
  intros Hc Hl. pose proof (good_chunk_app c t Hc) as [E E0].
  destruct c as [|a [|b c]]; [cbn in Hl; lia..|].
  pose proof (rune_first a (String b c) Hc ltac:(done)) as Ha.
  set (c' := String b c) in *. pose proof (take_str_length_app (String a c') t) as T.
  pose proof (drop_str_length_app (String a c') t) as D. rewrite <- E in T, D.
  rewrite app_str_cons in *. unfold unquote_step.
  destruct (Ascii.eqb_spec a quote) as [->|]; [vm_compute in Ha; lia|].
  destruct (Ascii.eqb_spec a "\") as [->|]; [vm_compute in Ha; lia|].
  destruct (Nat.ltb_spec (code a) 32); [lia|].
  destruct (rune_len (String a (c' +:+ t))); [done|]. by rewrite T, D.
Qed.

Lemma unquote_step_chunk c t :
  good_chunk c → unquote_step (encode_chunk c +:+ t) = StrRune (default fffd c) t.
Proof.
  destruct c as [[|a [|b c]]|]; intros Hc; cbn [encode_chunk].
  - by destruct Hc.
  - apply unquote_step_ascii, rune_len_1. apply Hc.
  - destruct (String.eqb_spec (String a (String b c)) line_sep) as [->|]; [reflexivity|].
    destruct (String.eqb_spec (String a (String b c)) par_sep) as [->|]; [reflexivity|].
    apply unquote_step_rune; [done|]. cbn. lia.
  - reflexivity.
Qed.

Lemma get_u4_shorter s n r : get_u4 s = Some (n, r) → String.length r < String.length s.
Proof.
  destruct s as [|a [|b s]]; [done..|]. cbn [get_u4].
  destruct (Ascii.eqb a "\" && Ascii.eqb b "u"); [|done].
  destruct s as [|? [|? [|? [|? s]]]]; cbn [hex4]; [done..|].
  repeat case_match; try done. intros [= <- <-]. cbn. lia.
Qed.

Lemma unescape_shorter s out r : unescape s = Some (out, r) → String.length r < String.length s.
Proof.
  destruct s as [|a s]; [done|]. unfold unescape. cbn [String.length].
  do 6 (case_match; [intros [= <- <-]; lia|]).
  destruct (Ascii.eqb a "u"); [|done].
  destruct (hex4 s) as [[n r']|] eqn:E; [|done].
  assert (String.length r' < String.length s) as Hr.
  { destruct s as [|? [|? [|? [|? s]]]]; cbn [hex4] in E; try done.
    repeat case_match; try done. simplify_eq. cbn. lia. }
  destruct ((55296 <=? n)%N && (n <? 57344)%N); [|intros [= <- <-]; lia].
  destruct (get_u4 r') as [[m r'']|] eqn:E2; [|intros [= <- <-]; lia].
  apply get_u4_shorter in E2. case_match; intros [= <- <-]; lia.
Qed.

Lemma unquote_step_shorter s out r :
  unquote_step s = StrRune out r → String.length r < String.length s.
Proof.
  destruct s as [|a s]; [done|]. unfold unquote_step. cbn [String.length].
  destruct (Ascii.eqb a quote); [done|].
  destruct (Ascii.eqb a "\").
  { destruct (unescape s) as [[o r']|] eqn:E; [|done]. apply unescape_shorter in E.
    intros [= <- <-]; lia. }
  destruct (code a <? 32); [done|].
  destruct (rune_len (String a s)) as [|n]; intros [= <- <-]; [lia|].
  rewrite length_drop_str. cbn [String.length]; lia.
Qed.

Lemma unquote_enough f g s :
  String.length s <= f → String.length s <= g → unquote f s = unquote g s.
Proof.
  revert g s; induction f as [|f IH]; intros g s Hf Hg.
  - destruct s; [|cbn in Hf; lia]. by destruct g.
  - destruct g as [|g]; [destruct s; [done|cbn in Hg; lia]|]. cbn [unquote].
    destruct (unquote_step s) as [| out r |] eqn:E; [done| |done].
    apply unquote_step_shorter in E. rewrite (IH g r); [done|lia..].
Qed.

Lemma read_string_step s out r :
  unquote_step s = StrRune out r →
  read_string s = match read_string r with
                  | Some (t, r') => Some (out +:+ t, r') | None => None end.
Proof.
  intros E. unfold read_string at 1. pose proof (unquote_step_shorter _ _ _ E) as L.
  destruct (String.length s) as [|n] eqn:En; [lia|]. cbn [unquote]. rewrite E.
  unfold read_string. by rewrite (unquote_enough n (String.length r)) by lia.
Qed.

Lemma read_string_chunks l t :
  Forall good_chunk l →
  read_string (concat_str (map encode_chunk l) +:+ String quote t) =
    Some (concat_str (map (default fffd) l), t).
Proof.
  induction 1 as [|c l Hc Hl IH]; [reflexivity|].
  cbn [map concat_str foldr]. fold (concat_str (map encode_chunk l)).
  fold (concat_str (map (default fffd) l)).
  erewrite app_str_assoc, read_string_step by apply unquote_step_chunk, Hc.
  by rewrite IH.
Qed.

Lemma read_encode_string s t : read_string (encode_chars s +:+ String quote t) = Some (to_valid s, t).
Proof. apply read_string_chunks, chunks_good. Qed.

(** ** Whatever is read is valid UTF-8 *)

Lemma utf8_valid_app c t : good_chunk (Some c) → utf8_valid (c +:+ t) = utf8_valid t.
Proof. intros Hc. unfold utf8_valid. by rewrite chunks_app. Qed.

Lemma ascii_good a : code a < 128 → good_chunk (Some (String a "")).
Proof.
  intros Ha. split; [|done]. cbn [rune_len String.length].
  by destruct (Nat.ltb_spec (code a) 128); [|lia].
Qed.

Lemma unhex_bound a x : unhex a = Some x → x < 16.
Proof. unfold unhex. repeat case_match; intros; simplify_eq; lia. Qed.

Lemma hex4_bound s n r : hex4 s = Some (n, r) → (n < 65536)%N.
Proof.
  destruct s as [|a [|b [|c [|d s]]]]; cbn [hex4]; try done.
  destruct (unhex a) eqn:E1, (unhex b) eqn:E2, (unhex c) eqn:E3, (unhex d) eqn:E4; try done.
  intros [= <- <-]. apply unhex_bound in E1, E2, E3, E4. lia.
Qed.

Lemma get_u4_bound s n r : get_u4 s = Some (n, r) → (n < 65536)%N.
Proof.
  destruct s as [|a [|b s]]; try done. cbn [get_u4].
  destruct (Ascii.eqb a "\" && Ascii.eqb b "u"); [apply hex4_bound | done].
Qed.

Lemma unescape_good s out r : unescape s = Some (out, r) → good_chunk (Some out).
Proof.
  destruct s as [|a s]; [done|]. unfold unescape.
  destruct (_ || _ || _) eqn:E.
  { intros [= <- <-]. apply ascii_good.
    destruct (Ascii.eqb_spec a quote) as [->|]; [vm_compute; lia|].
    destruct (Ascii.eqb_spec a "\") as [->|]; [vm_compute; lia|].
    destruct (Ascii.eqb_spec a "/") as [->|]; [vm_compute; lia|done]. }
  do 5 (case_match; [intros [= <- <-]; apply ascii_good; vm_compute; lia|]).
  destruct (Ascii.eqb a "u"); [|done].
  destruct (hex4 s) as [[n r']|] eqn:Eh; [|done]. apply hex4_bound in Eh.
  destruct ((55296 <=? n)%N && (n <? 57344)%N) eqn:Es.
  - destruct (get_u4 r') as [[m r'']|] eqn:E2; [|by intros [= <- <-]].
    destruct ((n <? 56320)%N && (56320 <=? m)%N && (m <? 57344)%N) eqn:E3;
      [|by intros [= <- <-]].
    intros [= <- <-]. apply utf8_encode_good; lia.
  - intros [= <- <-]. apply utf8_encode_good; lia.
Qed.

Lemma unquote_step_good s out r : unquote_step s = StrRune out r → good_chunk (Some out).
Proof.
  destruct s as [|a s]; [done|]. unfold unquote_step.
  destruct (Ascii.eqb a quote); [done|].
  destruct (Ascii.eqb a "\").
  { destruct (unescape s) as [[o r']|] eqn:E; [|done]. intros [= <- <-].
    by eapply unescape_good. }
  destruct (code a <? 32); [done|].
  destruct (rune_len (String a s)) as [|n] eqn:E; intros [= <- <-]; [apply fffd_good|].
  change (String a (take_str n s)) with (take_str (S n) (String a s)).
  rewrite <- E. apply rune_chunk. by rewrite E.
Qed.

Lemma unquote_valid f s x r : unquote f s = Some (x, r) → utf8_valid x = true.
Proof.
  revert s x r; induction f as [|f IH]; intros s x r; [done|]. cbn [unquote].
  destruct (unquote_step s) as [r'|out r'|] eqn:E; [by intros [= <- <-]| |done].
  apply unquote_step_good in E.
  destruct (unquote f r') as [[t r'']|] eqn:E2; [|done]. intros [= <- <-].
  rewrite utf8_valid_app by done. by eapply IH.
Qed.

Lemma unquote_shorter f s x r : unquote f s = Some (x, r) → String.length r < String.length s.
Proof.
  revert s x r; induction f as [|f IH]; intros s x r; [done|]. cbn [unquote].
  destruct (unquote_step s) as [r'|out r'|] eqn:E; [| |done].
  - intros [= <- <-]. destruct s as [|a s]; [done|]. unfold unquote_step in E.
    destruct (Ascii.eqb a quote); [simplify_eq; cbn; lia|]. repeat case_match; done.
  - apply unquote_step_shorter in E.
    destruct (unquote f r') as [[t r'']|] eqn:E2; [|done]. apply IH in E2.
    intros [= <- <-]. lia.
Qed.

(** ** Numbers *)

Definition is_number (lit : string) : bool :=
  match num_run NStart lit with (_, r, e) => String.eqb r "" && num_accept e end.

(** What may follow a number in a document ends it. *)
Definition ends_number (t : string) : Prop :=
  match t with "" => True | String a _ => ∀ st, num_step st a = None end.

Lemma num_run_app st lit t : ∀ l e, num_run st lit = (l, "", e) → ends_number t →
  num_run st (lit +:+ t) = (lit, t, e).
Proof.
  revert st; induction lit as [|a lit IH]; intros st l e; cbn [num_run].
  - intros [= <- <-] Ht. rewrite app_str_nil_l. destruct t as [|b t]; [done|].
    cbn [num_run]. by rewrite (Ht st).
  - destruct (num_step st a) as [st'|] eqn:E; [|done].
    destruct (num_run st' lit) as [[l' r'] e'] eqn:E'. intros [= <- -> ->] Ht.
    rewrite app_str_cons. cbn [num_run]. rewrite E. by erewrite IH.
Qed.

Lemma read_number_app lit t :
  is_number lit = true → ends_number t → read_number (lit +:+ t) = Some (lit, t).
Proof.
  unfold is_number, read_number. destruct (num_run NStart lit) as [[l r] e] eqn:E.
  intros H Ht; bools; subst. erewrite num_run_app by done. by rewrite H0.
Qed.

Lemma num_run_self st s l r e : num_run st s = (l, r, e) → num_run st l = (l, "", e) ∧ s = l +:+ r.
Proof.
  revert st l r e; induction s as [|a s IH]; intros st l r e; cbn [num_run].
  { by intros [= <- <- <-]. }
  destruct (num_step st a) as [st'|] eqn:E; [|by intros [= <- <- <-]].
  destruct (num_run st' s) as [[l' r'] e'] eqn:E'. intros [= <- <- <-].
  apply IH in E' as [E' ->]. cbn [num_run]. by rewrite E, E'.
Qed.

Lemma read_number_is_number s l r :
  read_number s = Some (l, r) → is_number l = true ∧ s = l +:+ r ∧ l ≠ "".
Proof.
  unfold read_number, is_number. destruct (num_run NStart s) as [[l' r'] e] eqn:E.
  destruct (num_accept e) eqn:Ea; [|done]. intros [= <- <-].
  apply num_run_self in E as [E ->]. rewrite E, Ea. split_and!; [done..|].
  intros ->. cbn in E. by injection E as <-.
Qed.

(** A number opens with neither a quote, a bracket, a letter nor white space. *)
Lemma number_first lit : is_number lit = true →
  ∃ a l, lit = String a l ∧ (is_digit a || Ascii.eqb a "-") = true.
Proof.
  unfold is_number. destruct lit as [|a l]; [done|]. cbn [num_run].
  destruct (num_step NStart a) as [st|] eqn:E; [|done]. intros _. exists a, l. split; [done|].
  cbn [num_step] in E. destruct (Ascii.eqb a "-"); [by rewrite orb_true_r|].
  destruct (Ascii.eqb_spec a "0") as [->|]; [done|]. by destruct (is_digit a).
Qed.

(** ** Integers print as numbers *)

Lemma pretty_char_digit x :
  (x < 10)%N → num_step NInt (pretty_N_char x) = Some NInt ∧
               ((0 < x)%N → num_step NStart (pretty_N_char x) = Some NInt ∧
                            num_step NNeg (pretty_N_char x) = Some NInt).
Proof.
  intros Hx. assert (x ∈ [0; 1; 2; 3; 4; 5; 6; 7; 8; 9])%N as H.
  { assert (∃ k, k < 10 ∧ x = N.of_nat k) as (k & Hk & ->) by (exists (N.to_nat x); lia).
    do 10 (destruct k as [|k]; [set_solver|]). lia. }
  repeat (apply elem_of_cons in H as [->|H]; [split; [done|intros; done || lia]|]). set_solver.
Qed.

Lemma num_run_pretty st x : (st = NStart ∨ st = NNeg) → (0 < x)%N → ∀ s,
  num_run NInt s = (s, "", NInt) →
  num_run st (pretty_N_go x s) = (pretty_N_go x s, "", NInt).
Proof.
  intros Hst. induction (N.lt_wf_0 x) as [x _ IH]. intros Hx s Hs.
  rewrite pretty_N_go_step by done.
  pose proof (pretty_char_digit (x `mod` 10)%N ltac:(apply N.mod_lt; lia)) as [D1 D2].
  destruct (decide (x < 10)%N) as [Hlt|Hge].
  - rewrite N.div_small, N.mod_small in * by done. rewrite pretty_N_go_0. cbn [num_run].
    destruct (D2 Hx) as [E1 E2]. destruct Hst as [-> | ->]; [rewrite E1|rewrite E2]; by rewrite Hs.
  - apply IH; [apply N.div_lt; lia | apply N.div_str_pos; lia |].
    cbn [num_run]. by rewrite D1, Hs.
Qed.

Lemma format_int_number z : is_number (format_int z) = true.
Proof.
  unfold format_int. destruct z as [|p|p]; [reflexivity| |]; unfold is_number.
  - change (pretty (Z.pos p)) with (pretty_N_go (N.pos p) "").
    by rewrite num_run_pretty by (by left || lia || done).
  - change (pretty (Z.neg p)) with (String "-" (pretty_N_go (N.pos p) "")).
    cbn [num_run num_step Ascii.eqb Bool.eqb].
    by rewrite num_run_pretty by (by right || lia || done).
Qed.

Lemma num_run_no_char c st l e :
  (∀ s, num_step s c = None) → num_run st l = (l, "", e) → mem_ascii c l = false.
Proof.
  intros Hc. revert st; induction l as [|a l IH]; intros st; cbn [num_run mem_ascii]; [done|].
  destruct (num_step st a) as [st'|] eqn:E; [|done].
  destruct (num_run st' l) as [[l' r'] e'] eqn:E'. intros [= -> -> ->].
  destruct (Ascii.eqb_spec a c) as [->|]; [by rewrite Hc in E|]. by apply (IH st').
Qed.

Lemma format_int_no_char c z : (∀ s, num_step s c = None) → mem_ascii c (format_int z) = false.
Proof.
  intros Hc. pose proof (format_int_number z) as Hn. unfold is_number in Hn.
  destruct (num_run NStart (format_int z)) as [[l r] e] eqn:E. bools. subst r.
  pose proof E as E2. apply num_run_self in E2 as [_ E2]. rewrite app_str_nil_r in E2. subst l.
  by eapply num_run_no_char.
Qed.
