(* ===== verification/Json.v ===== *)
(** * encoding/json as the ledger uses it

    The generic side of Go's encoding/json: reading a document with
    [Decoder.UseNumber], the [any] tree it becomes (maps with the last of two
    equal keys), and [json.Marshal] of a tree (sorted keys, HTML-escaped
    strings). Documents and trees share one type: [JObj] holds the members in
    document order, and [norm] makes the map Go decodes them to. The main
    results: reading back what was written gives the tree with its strings made
    valid UTF-8 ([parse_doc_encode]), so writing is injective on readable trees
    ([encode_inj]). *)
From S2P Require Import Prelude GoLib JsonText.
Local Open Scope string_scope.
Local Open Scope nat_scope.
Local Open Scope list_scope.

#[warnings="-register-all"]
Inductive json : Type :=
| JNull
| JBool (b : bool)
| JNum (lit : string)     (** json.Number: the literal as written *)
| JFloat (f : float64)    (** a float64, read without UseNumber or in a struct *)
| JStr (s : string)
| JArr (l : list json)
| JObj (m : list (string * json)).

Section JsonInd.
Variable P : json → Prop.
Hypothesis Hnull : P JNull.
Hypothesis Hbool : ∀ b, P (JBool b).
Hypothesis Hnum : ∀ lit, P (JNum lit).
Hypothesis Hfloat : ∀ f, P (JFloat f).
Hypothesis Hstr : ∀ s, P (JStr s).
Hypothesis Harr : ∀ l, Forall P l → P (JArr l).
Hypothesis Hobj : ∀ m, Forall (λ kv, P kv.2) m → P (JObj m).

Fixpoint json_ind' (t : json) : P t :=
  match t with
  | JNull => Hnull
  | JBool b => Hbool b
  | JNum lit => Hnum lit
  | JFloat f => Hfloat f
  | JStr s => Hstr s
  | JArr l =>
      Harr l ((fix go l := match l return Forall P l with
               | [] => Forall_nil_2 _
               | x :: l' => Forall_cons_2 _ _ _ (json_ind' x) (go l') end) l)
  | JObj m =>
      Hobj m ((fix go m := match m return Forall (λ kv, P kv.2) m with
               | [] => Forall_nil_2 _
               | kv :: m' => Forall_cons_2 (λ kv, P kv.2) kv m' (json_ind' kv.2) (go m')
               end) m)
  end.
End JsonInd.

(** ** Writing: json.Marshal *)

(** [strings.Join(l, ",")]. *)
Fixpoint comma_sep (l : list string) : string :=
  match l with [] => "" | [x] => x | x :: l' => x +:+ String "," (comma_sep l') end.

(** How a float64 is printed and read: strconv's shortest formatting and
    ParseFloat, which the modelled code only calls through encoding/json. The
    printed form of a finite number is a JSON number. *)

(** NaN and the infinities, which json.Marshal refuses, have all exponent bits set. *)
Definition float_finite (f : float64) : bool :=
  negb (Z.land (Z.shiftr f 52) 2047 =? 2047)%Z.

Class FloatText := {
  float_text : float64 → string;
  parse_float : string → option float64;
  float_text_number f : float_finite f = true → is_number (float_text f) = true
}.

Section Encode.
Context {ft : FloatText}.

Fixpoint encode (t : json) : string :=
  match t with
  | JNull => "null"
  | JBool true => "true"
  | JBool false => "false"
  | JNum lit => lit
  | JFloat f => float_text f
  | JStr s => encode_string s
  | JArr l => String "[" (comma_sep (map encode l) +:+ "]")
  | JObj m => String "{"
      (comma_sep (map (λ kv, encode_string kv.1 +:+ String ":" (encode kv.2)) m) +:+ "}")
  end.

(** Floats JSON can carry, and json.Number literals that are numbers. *)
Fixpoint marshalable (t : json) : bool :=
  match t with
  | JFloat f => float_finite f
  | JNum lit => is_number lit
  | JArr l => forallb marshalable l
  | JObj m => forallb (λ kv, marshalable kv.2) m
  | _ => true
  end.

(** [json.Marshal] of a tree whose maps are in key order ([norm]). *)
Definition marshal (t : json) : option string :=
  if marshalable t then Some (encode t) else None.
End Encode.

(** ** Reading: json.Decoder with UseNumber *)

Definition is_ws (a : ascii) : bool :=
  Ascii.eqb a " " || Ascii.eqb a (byte 9) || Ascii.eqb a (byte 10) || Ascii.eqb a (byte 13).

Fixpoint skip_ws (s : string) : string :=
  match s with String a s' => if is_ws a then skip_ws s' else s | "" => "" end.

(** A literal word ([true], [false], [null]). *)
Definition read_word (w : string) (t : json) (s : string) : option (json * string) :=
  if has_prefix w s then Some (t, drop_str (String.length w) s) else None.

(** The value [s] opens with and what follows it. [depth]: how many more
    arrays and objects may nest. *)
Fixpoint read_value (fuel depth : nat) (s : string) : option (json * string) :=
  match fuel with
  | O => None
  | S f =>
      match skip_ws s with
      | "" => None
      | String a r =>
          if Ascii.eqb a quote then
            match read_string r with Some (x, r') => Some (JStr x, r') | None => None end
          else if Ascii.eqb a "{" then
            match depth with
            | O => None
            | S d =>
                match skip_ws r with
                | String b r' =>
                    if Ascii.eqb b "}" then Some (JObj [], r')
                    else match read_members f d r with
                         | Some (m, r') => Some (JObj m, r') | None => None end
                | "" => None
                end
            end
          else if Ascii.eqb a "[" then
            match depth with
            | O => None
            | S d =>
                match skip_ws r with
                | String b r' =>
                    if Ascii.eqb b "]" then Some (JArr [], r')
                    else match read_elems f d r with
                         | Some (l, r') => Some (JArr l, r') | None => None end
                | "" => None
                end
            end
          else if Ascii.eqb a "t" then read_word "true" (JBool true) (String a r)
          else if Ascii.eqb a "f" then read_word "false" (JBool false) (String a r)
          else if Ascii.eqb a "n" then read_word "null" JNull (String a r)
          else match read_number (String a r) with
               | Some (l, r') => Some (JNum l, r') | None => None end
      end
  end
with read_elems (fuel depth : nat) (s : string) : option (list json * string) :=
  match fuel with
  | O => None
  | S f =>
      match read_value f depth s with
      | None => None
      | Some (x, r) =>
          match skip_ws r with
          | String a r' =>
              if Ascii.eqb a "]" then Some ([x], r')
              else if Ascii.eqb a "," then
                match read_elems f depth r' with
                | Some (l, r'') => Some (x :: l, r'') | None => None end
              else None
          | "" => None
          end
      end
  end
with read_members (fuel depth : nat) (s : string) : option (list (string * json) * string) :=
  match fuel with
  | O => None
  | S f =>
      match skip_ws s with
      | String a r =>
          if negb (Ascii.eqb a quote) then None else
          match read_string r with
          | None => None
          | Some (k, r1) =>
              match skip_ws r1 with
              | String b r2 =>
                  if negb (Ascii.eqb b ":") then None else
                  match read_value f depth r2 with
                  | None => None
                  | Some (x, r3) =>
                      match skip_ws r3 with
                      | String c r4 =>
                          if Ascii.eqb c "}" then Some ([(k, x)], r4)
                          else if Ascii.eqb c "," then
                            match read_members f depth r4 with
                            | Some (m, r5) => Some ((k, x) :: m, r5) | None => None end
                          else None
                      | "" => None
                      end
                  end
              | "" => None
              end
          end
      | "" => None
      end
  end.

(** scanner.go's maxNestingDepth. *)
Definition max_nesting : Z := 10000.

(** Every call but the one from a value into its first element or member
    consumes a byte: two units of fuel a byte are enough
    ([read_value_enough]). *)
Definition read_fuel (s : string) : nat := 2 * String.length s + 2.

(** [dec.Decode]: the first value of the stream, as a document. *)
Definition read_first (s : string) : option (json * string) :=
  read_value (read_fuel s) (Z.to_nat max_nesting) s.

(** A whole document: one value and nothing after it ([json.Unmarshal]). *)
Definition parse_doc (s : string) : option json :=
  match read_first s with
  | Some (t, r) => if String.eqb (skip_ws r) "" then Some t else None
  | None => None
  end.


(** ** Maps: what a document decodes to *)

(** [m[k] = v] on a map kept in key order. *)
Fixpoint obj_set {A} (k : string) (v : A) (m : list (string * A)) : list (string * A) :=
  match m with
  | [] => [(k, v)]
  | (k', v') :: m' =>
      if String.eqb k k' then (k, v) :: m'
      else if str_ltb k k' then (k, v) :: m
      else (k', v') :: obj_set k v m'
  end.

Fixpoint obj_get {A} (k : string) (m : list (string * A)) : option A :=
  match m with
  | [] => None
  | (k', v) :: m' => if String.eqb k k' then Some v else obj_get k m'
  end.

(** [delete(m, k)]. *)
Definition obj_delete {A} (k : string) (m : list (string * A)) : list (string * A) :=
  List.filter (λ kv, negb (String.eqb kv.1 k)) m.

(** Members in document order into a map: a later equal key replaces an earlier one. *)
Definition obj_of_list {A} (m : list (string * A)) : list (string * A) :=
  foldl (λ acc kv, obj_set kv.1 kv.2 acc) [] m.

(** The [any] tree of a document: every object a map. *)
Fixpoint norm (t : json) : json :=
  match t with
  | JArr l => JArr (map norm l)
  | JObj m => JObj (obj_of_list (map (λ kv, (kv.1, norm kv.2)) m))
  | t => t
  end.

(** [dec.Decode(&tree)] into an [any], with UseNumber. *)
Definition decode_any (s : string) : option json :=
  match read_first s with Some (t, _) => Some (norm t) | None => None end.

(** Without UseNumber ([json.Unmarshal] into an [any]): numbers become floats,
    an error when one is out of range. *)
Section Floats.
Context {ft : FloatText}.

Fixpoint to_floats (t : json) : option json :=
  match t with
  | JNum lit => JFloat <$> parse_float lit
  | JArr l => JArr <$> mapM to_floats l
  | JObj m => JObj <$> mapM (λ kv, pair kv.1 <$> to_floats kv.2) m
  | t => Some t
  end.

Definition unmarshal_any (s : string) : option json :=
  t ← parse_doc s; norm <$> to_floats t.
End Floats.

(** ** Reading back what was written *)

(** How deep arrays and objects nest, against a bound. *)
Fixpoint nests_within (d : nat) (t : json) {struct t} : bool :=
  match t with
  | JArr l => match d with O => false | S d' => forallb (nests_within d') l end
  | JObj m => match d with O => false | S d' => forallb (λ kv, nests_within d' kv.2) m end
  | _ => true
  end.

(** Step the reader over a concrete byte: no white space there, and which
    byte it is. *)
Ltac read_byte :=
  repeat match goal with
  | |- context [skip_ws (String ?a ?x)] => change (skip_ws (String a x)) with (String a x)
  end; cbv iota beta;
  repeat match goal with
  | |- context [Ascii.eqb ?a ?b] =>
      first [change (Ascii.eqb a b) with true | change (Ascii.eqb a b) with false]
  end; cbn [negb]; cbv iota beta.

Section RoundTrip.
Context {ft : FloatText}.

(** What the reader makes of a written tree: floats are number literals,
    strings are made valid. *)
Fixpoint as_read (t : json) : json :=
  match t with
  | JFloat f => JNum (float_text f)
  | JStr s => JStr (to_valid s)
  | JArr l => JArr (map as_read l)
  | JObj m => JObj (map (λ kv, (to_valid kv.1, as_read kv.2)) m)
  | t => t
  end.

(** How a written value may start. *)
Definition opens_value (a : ascii) : bool :=
  negb (is_ws a || Ascii.eqb a "]" || Ascii.eqb a "}" || Ascii.eqb a ",").

Lemma number_opens a :
  (is_digit a || Ascii.eqb a "-") = true →
  opens_value a = true ∧ Ascii.eqb a quote = false ∧ Ascii.eqb a "{" = false ∧
  Ascii.eqb a "[" = false ∧ Ascii.eqb a "t" = false ∧ Ascii.eqb a "f" = false ∧
  Ascii.eqb a "n" = false.
Proof.
  destruct a as [[] [] [] [] [] [] [] []]; vm_compute; (discriminate || done).
Qed.

Lemma encode_opens t : marshalable t = true → ∃ a r, encode t = String a r ∧ opens_value a = true.
Proof.
  destruct t as [|[]|lit|f|s|l|m]; cbn [encode marshalable]; intros Hm;
    try (eexists _, _; split; [reflexivity|reflexivity]).
  - apply number_first in Hm as (a & l & -> & Ha). exists a, l. by apply number_opens in Ha as [? _].
  - apply float_text_number, number_first in Hm as (a & l & -> & Ha).
    exists a, l. by apply number_opens in Ha as [? _].
Qed.

Lemma opens_skip a r : opens_value a = true → skip_ws (String a r) = String a r.
Proof.
  unfold opens_value. intros H; bools. cbn [skip_ws].
  by replace (is_ws a) with false by done.
Qed.

Definition closes (t : string) : Prop :=
  match t with String a _ => a ∈ [","; "]"; "}"]%char | "" => True end.

Lemma closes_number t : closes t → ends_number t.
Proof.
  destruct t as [|a t]; [done|]. intros Ha st.
  cbn [closes] in Ha. rewrite !elem_of_cons in Ha.
  destruct Ha as [->|[->|[->|Ha]]]; [by destruct st..|set_solver].
Qed.

Lemma read_value_number f d lit rest :
  is_number lit = true → ends_number rest →
  read_value (S f) d (lit +:+ rest) = Some (JNum lit, rest).
Proof.
  intros Hn Hr. pose proof (read_number_app _ _ Hn Hr) as E.
  apply number_first in Hn as (a & l & -> & Ha).
  apply number_opens in Ha as (Ho & Hq & H1 & H2 & H3 & H4 & H5).
  rewrite app_str_cons in *. cbn [read_value]. rewrite opens_skip by done.
  by rewrite Hq, H1, H2, H3, H4, H5, E.
Qed.

(** What one [encode] owes the reader, at every large enough fuel. *)
Definition reads_back (t : json) : Prop := ∀ f d rest,
  marshalable t = true → nests_within d t = true → closes rest →
  2 * String.length (encode t) <= f →
  read_value f d (encode t +:+ rest) = Some (as_read t, rest).

Lemma read_elems_back l : Forall reads_back l → l ≠ [] → ∀ f d rest,
  forallb marshalable l = true → forallb (nests_within d) l = true →
  2 * String.length (comma_sep (map encode l)) + 1 <= f →
  read_elems f d (comma_sep (map encode l) +:+ String "]" rest) = Some (map as_read l, rest).
Proof.
  induction 1 as [|t l Ht Hl IH]; [done|]. intros _ [|f] d rest Hm Hd Hf; [lia|].
  cbn [forallb] in Hm, Hd; bools. cbn [read_elems].
  destruct l as [|t' l].
  - cbn [map comma_sep] in *. rewrite Ht; [reflexivity|done|done| |lia].
    cbn [closes]. set_solver.
  - set (tl := t' :: l) in *. assert (tl ≠ []) as Hne by done.
    replace (comma_sep (map encode (t :: tl))) with
      (encode t +:+ String "," (comma_sep (map encode tl))) in * by reflexivity.
    rewrite length_app_str in Hf. cbn [String.length] in Hf.
    rewrite app_str_assoc, Ht; [|done|done| |lia].
    2: { cbn [closes]; set_solver. }
    rewrite app_str_cons. read_byte. rewrite IH; [done|done|done|done|lia].
Qed.

Lemma read_members_back m : Forall (λ kv, reads_back kv.2) m → m ≠ [] → ∀ f d rest,
  forallb (λ kv, marshalable kv.2) m = true → forallb (λ kv, nests_within d kv.2) m = true →
  let txt := comma_sep (map (λ kv, encode_string kv.1 +:+ String ":" (encode kv.2)) m) in
  2 * String.length txt + 1 <= f →
  read_members f d (txt +:+ String "}" rest) =
    Some (map (λ kv, (to_valid kv.1, as_read kv.2)) m, rest).
Proof.
  induction 1 as [|[k t] m Ht Hl IH]; [done|]. intros _ [|f] d rest Hm Hd; [lia|].
  cbn [forallb snd fst] in Hm, Hd, Ht |- *; bools. cbv zeta. intros Hf.
  cbn [read_members].
  destruct m as [|kv' m].
  - cbn [map comma_sep fst snd] in *. rewrite length_app_str in Hf. cbn [String.length] in Hf.
    unfold encode_string. autorewrite with str. rewrite !app_str_assoc. autorewrite with str.
    read_byte. rewrite read_encode_string. read_byte.
    rewrite Ht; [reflexivity|done|done| |lia]. cbn [closes]. set_solver.
  - set (tl := kv' :: m) in *. assert (tl ≠ []) as Hne by done.
    specialize (IH Hne f d rest ltac:(done) ltac:(done)). cbv zeta in IH.
    set (enc := λ kv : string * json, encode_string kv.1 +:+ String ":" (encode kv.2)) in *.
    replace (comma_sep (map enc ((k, t) :: tl))) with
      (enc (k, t) +:+ String "," (comma_sep (map enc tl))) in * by reflexivity.
    unfold enc at 1 in Hf. unfold enc at 1. cbn [fst snd] in *.
    rewrite !length_app_str in Hf. cbn [String.length] in Hf.
    unfold encode_string at 1. autorewrite with str. rewrite !app_str_assoc.
    autorewrite with str. read_byte. rewrite read_encode_string. read_byte.
    rewrite Ht; [|done|done| |lia]. 2: { cbn [closes]; set_solver. }
    read_byte. rewrite IH by lia. reflexivity.
Qed.

Lemma comma_sep_opens (l : list string) :
  l ≠ [] → Forall (λ s, ∃ a r, s = String a r ∧ opens_value a = true) l →
  ∃ a r, comma_sep l = String a r ∧ opens_value a = true.
Proof.
  intros Hne Hl. destruct Hl as [|x l (a & r & -> & Ha) _]; [done|].
  destruct l; cbn [comma_sep]; eexists _, _; (split; [|exact Ha]); [done|].
  by rewrite app_str_cons.
Qed.

Lemma encode_nonempty t : marshalable t = true → 1 <= String.length (encode t).
Proof. intros (a & r & -> & _)%encode_opens. cbn. lia. Qed.

Lemma read_back t : reads_back t.
Proof.
  induction t as [|[]|lit|x|s|l IH|m IH] using json_ind'; intros f d rest Hm Hd Hc Hf;
    pose proof (encode_nonempty _ Hm); (destruct f as [|f]; [lia|]).
  - cbn [encode]. autorewrite with str. reflexivity.
  - cbn [encode]. autorewrite with str. reflexivity.
  - cbn [encode]. autorewrite with str. reflexivity.
  - by apply read_value_number, closes_number.
  - apply read_value_number, closes_number; [by apply float_text_number|done].
  - cbn [encode as_read read_value]. unfold encode_string. autorewrite with str. read_byte.
    rewrite app_str_assoc. autorewrite with str. by rewrite read_encode_string.
  - cbn [encode as_read] in *. autorewrite with str. cbn [read_value]. read_byte.
    cbn [String.length] in Hf. rewrite length_app_str in Hf. cbn [String.length] in Hf.
    cbn [marshalable] in Hm. destruct d as [|d]; [done|]. cbn [nests_within] in Hd.
    rewrite app_str_assoc. autorewrite with str.
    destruct (decide (l = [])) as [->|Hl]; [reflexivity|].
    destruct (comma_sep_opens (map encode l)) as (a & r & E & Ha).
    { by destruct l. }
    { apply Forall_map, Forall_forall. intros x Hx. apply encode_opens.
      rewrite forallb_forall in Hm. by apply Hm, list_elem_of_In. }
    pose proof (read_elems_back l IH Hl f d rest Hm Hd ltac:(lia)) as R.
    rewrite E in *. rewrite app_str_cons in *. rewrite opens_skip by done.
    unfold opens_value in Ha; bools.
    destruct (Ascii.eqb a "]"); [done|]. by rewrite R.
  - cbn [encode as_read] in *. autorewrite with str. cbn [read_value]. read_byte.
    cbn [String.length] in Hf. rewrite length_app_str in Hf. cbn [String.length] in Hf.
    cbn [marshalable] in Hm. destruct d as [|d]; [done|]. cbn [nests_within] in Hd.
    rewrite app_str_assoc. autorewrite with str.
    destruct (decide (m = [])) as [->|Hl]; [reflexivity|].
    pose proof (read_members_back m IH Hl f d rest Hm Hd ltac:(cbv zeta; lia)) as R.
    destruct (comma_sep_opens
      (map (λ kv, encode_string kv.1 +:+ String ":" (encode kv.2)) m)) as (a & r & E & Ha).
    { by destruct m. }
    { apply Forall_map, Forall_forall. intros x Hx. eexists _, _.
      unfold encode_string. rewrite app_str_cons. by split. }
    cbv zeta in R. rewrite E in *. rewrite app_str_cons in *. rewrite opens_skip by done.
    unfold opens_value in Ha; bools.
    destruct (Ascii.eqb a "}"); [done|]. by rewrite R.
Qed.

Lemma read_first_encode t rest :
  marshalable t = true → nests_within (Z.to_nat max_nesting) t = true → closes rest →
  read_first (encode t +:+ rest) = Some (as_read t, rest).
Proof.
  intros. apply read_back; try done. unfold read_fuel. rewrite length_app_str. lia.
Qed.

Lemma parse_doc_encode t :
  marshalable t = true → nests_within (Z.to_nat max_nesting) t = true →
  parse_doc (encode t) = Some (as_read t).
Proof.
  intros Hm Hd. unfold parse_doc. rewrite <- (app_str_nil_r (encode t)).
  by rewrite read_first_encode.
Qed.

(** Some bound always holds. *)
Lemma nests_within_le d d' t : d <= d' → nests_within d t = true → nests_within d' t = true.
Proof.
  revert d d'; induction t as [| | | | |l IH|m IH] using json_ind'; intros d d' Hle H; try done;
    (destruct d as [|d]; [done|]; destruct d' as [|d']; [lia|]); cbn [nests_within] in *;
    rewrite forallb_forall in *; rewrite Forall_forall in IH; intros x Hx;
    (apply (IH x) with d; [by apply list_elem_of_In | lia | by apply H]).
Qed.

Lemma nests_within_some t : ∃ d, nests_within d t = true.
Proof.
  induction t as [| | | | |l IH|m IH] using json_ind'; try (by exists 0).
  - assert (∃ d, forallb (nests_within d) l = true) as [d Hd].
    { induction IH as [|x l [d Hd] _ [d' Hd']]; [by exists 0|]. exists (max d d'). cbn [forallb].
      apply andb_true_intro; split; [by apply nests_within_le with d; [lia|]|].
      rewrite forallb_forall in *. intros y Hy. apply nests_within_le with d'; [lia | by apply Hd']. }
    by exists (S d).
  - assert (∃ d, forallb (λ kv, nests_within d kv.2) m = true) as [d Hd].
    { induction IH as [|x m [d Hd] _ [d' Hd']]; [by exists 0|]. exists (max d d'). cbn [forallb].
      apply andb_true_intro; split; [by apply nests_within_le with d; [lia|]|].
      rewrite forallb_forall in *. intros y Hy. apply nests_within_le with d'; [lia | by apply Hd']. }
    by exists (S d).
Qed.

(** Two trees written to the same bytes read back the same: only the form of a
    float and invalid UTF-8 can differ. *)
Lemma encode_as_read t1 t2 :
  marshalable t1 = true → marshalable t2 = true → encode t1 = encode t2 → as_read t1 = as_read t2.
Proof.
  intros H1 H2 E. destruct (nests_within_some t1) as [d1 D1], (nests_within_some t2) as [d2 D2].
  apply (nests_within_le d1 (max d1 d2)) in D1; [|lia].
  apply (nests_within_le d2 (max d1 d2)) in D2; [|lia].
  pose proof (read_back t1 _ _ "" H1 D1 I (le_n _)) as R1.
  pose proof (read_back t2 _ _ "" H2 D2 I (le_n _)) as R2.
  rewrite E in R1. rewrite R1 in R2. by injection R2.
Qed.

(** A tree as a reader leaves it. *)
Definition readable (t : json) : Prop := as_read t = t ∧ marshalable t = true.

Lemma encode_inj t1 t2 : readable t1 → readable t2 → encode t1 = encode t2 → t1 = t2.
Proof. intros [E1 M1] [E2 M2] E. rewrite <- E1, <- E2. by apply encode_as_read. Qed.
End RoundTrip.

(** ** What the reader returns *)

Lemma skip_ws_le s : String.length (skip_ws s) <= String.length s.
Proof. induction s as [|a s IH]; cbn [skip_ws String.length]; [lia|]. case_match; cbn; lia. Qed.

Lemma skip_ws_cons s a r : skip_ws s = String a r → String.length r < String.length s.
Proof. intros E. pose proof (skip_ws_le s) as L. rewrite E in L. cbn in L. lia. Qed.

Lemma read_word_spec w t s t' r :
  read_word w t s = Some (t', r) → t' = t ∧ (String.length r = String.length s - String.length w).
Proof.
  unfold read_word. case_match; [|done]. intros [= <- <-]. by rewrite length_drop_str.
Qed.

(** Walk down the reader: every [match] and test decided, the impossible
    branches gone. *)
Ltac read_cases :=
  repeat match goal with
  | H : context [match ?x with _ => _ end] |- _ =>
      lazymatch type of H with _ = Some _ => destruct x eqn:?; try discriminate H end
  end.

Section Reader.
Context {ft : FloatText}.

(** A value read at depth [d]. *)
Definition read_ok (d : nat) (t : json) : Prop := readable t ∧ nests_within d t = true.
Definition key_ok (d : nat) (kv : string * json) : Prop := utf8_valid kv.1 = true ∧ read_ok d kv.2.

Lemma read_ok_arr d l : Forall (read_ok d) l → read_ok (S d) (JArr l).
Proof.
  intros H. unfold read_ok, readable. cbn [as_read marshalable nests_within].
  rewrite !forallb_forall. rewrite Forall_forall in H. setoid_rewrite <- list_elem_of_In.
  split; [split|]; [f_equal|naive_solver..].
  rewrite <- (map_id l) at 2. apply map_ext_in. intros x Hx%list_elem_of_In. by apply H.
Qed.

Lemma read_ok_obj d m : Forall (key_ok d) m → read_ok (S d) (JObj m).
Proof.
  intros H. unfold read_ok, readable. cbn [as_read marshalable nests_within].
  rewrite !forallb_forall. rewrite Forall_forall in H. setoid_rewrite <- list_elem_of_In.
  split; [split|]; [f_equal|intros x Hx; by destruct (H x Hx) as [_ [[_ ?] ?]]..].
  rewrite <- (map_id m) at 2. apply map_ext_in. intros [k x] Hx%list_elem_of_In.
  destruct (H _ Hx) as [Hk [[Hr _] _]]. cbn [fst snd] in *. by rewrite to_valid_id, Hr.
Qed.

Lemma read_ok_obj_inv d m : read_ok (S d) (JObj m) → Forall (key_ok d) m.
Proof.
  intros [[Ha Hm] Hn]. cbn [as_read marshalable nests_within] in *. injection Ha as Ha.
  rewrite forallb_forall in Hm, Hn. apply Forall_forall. intros [k x] Hx.
  pose proof Hx as Hi%list_elem_of_In.
  assert ((to_valid k, as_read x) = (k, x)) as [= Ek Ex].
  { clear -Ha Hi. revert Hi Ha. induction m as [|y m IH]; cbn; [done|].
    intros [->|Hi] E; injection E; cbn [fst snd]; intros; [congruence | by apply IH]. }
  split; [cbn; rewrite <- Ek; apply to_valid_valid|].
  split; [split; [done|by apply (Hm (k, x))] | by apply (Hn (k, x))].
Qed.

Lemma read_ok_arr_inv d l : read_ok (S d) (JArr l) → Forall (read_ok d) l.
Proof.
  intros [[Ha Hm] Hn]. cbn [as_read marshalable nests_within] in *. injection Ha as Ha.
  rewrite forallb_forall in Hm, Hn. apply Forall_forall. intros x Hx.
  pose proof Hx as Hi%list_elem_of_In.
  split; [split; [|by apply Hm] | by apply Hn].
  clear -Ha Hi. revert Hi Ha. induction l as [|y l IH]; cbn; [done|].
  intros [->|Hi] E; [congruence | apply IH; [done|congruence]].
Qed.

Lemma read_spec f :
  (∀ d s t r, read_value f d s = Some (t, r) →
     String.length r < String.length s ∧ read_ok d t) ∧
  (∀ d s l r, read_elems f d s = Some (l, r) →
     String.length r < String.length s ∧ Forall (read_ok d) l) ∧
  (∀ d s m r, read_members f d s = Some (m, r) →
     String.length r < String.length s ∧ Forall (key_ok d) m).
Proof.
  induction f as [|f (IHv & IHe & IHm)]; [done|]. split_and!.
  - intros d s t r H. cbn [read_value] in H.
    destruct (skip_ws s) as [|a s1] eqn:Es; [done|]. apply skip_ws_cons in Es.
    destruct (Ascii.eqb a quote).
    { destruct (read_string s1) as [[x r']|] eqn:E; [|done]. injection H as <- <-.
      unfold read_string in E. pose proof (unquote_shorter _ _ _ _ E).
      apply unquote_valid in E. split; [lia|]. split; [split|]; [|done..].
      cbn [as_read]. by rewrite to_valid_id. }
    destruct (Ascii.eqb a "{").
    { destruct d as [|d]; [done|]. destruct (skip_ws s1) as [|b r1] eqn:E1; [done|].
      apply skip_ws_cons in E1. destruct (Ascii.eqb b "}").
      - injection H as <- <-. split; [lia|]. by apply read_ok_obj.
      - destruct (read_members f d s1) as [[m r']|] eqn:E2; [|done]. injection H as <- <-.
        apply IHm in E2 as [? ?]. split; [lia|]. by apply read_ok_obj. }
    destruct (Ascii.eqb a "[").
    { destruct d as [|d]; [done|]. destruct (skip_ws s1) as [|b r1] eqn:E1; [done|].
      apply skip_ws_cons in E1. destruct (Ascii.eqb b "]").
      - injection H as <- <-. split; [lia|]. by apply read_ok_arr.
      - destruct (read_elems f d s1) as [[l r']|] eqn:E2; [|done]. injection H as <- <-.
        apply IHe in E2 as [? ?]. split; [lia|]. by apply read_ok_arr. }
    do 3 (case_match; [apply read_word_spec in H as [-> ->]; cbn [String.length]; split; [lia|done]|]).
    destruct (read_number (String a s1)) as [[l r']|] eqn:E; [|done]. injection H as <- <-.
    apply read_number_is_number in E as (Hn & E & Hl).
    assert (String.length l ≠ 0) by (by destruct l).
    apply (f_equal String.length) in E. rewrite length_app_str in E. cbn [String.length] in E.
    split; [lia|done].
  - intros d s l r H. cbn [read_elems] in H.
    destruct (read_value f d s) as [[x r1]|] eqn:E; [|done]. apply IHv in E as [? ?].
    destruct (skip_ws r1) as [|a r2] eqn:E1; [done|]. apply skip_ws_cons in E1.
    destruct (Ascii.eqb a "]"); [injection H as <- <-; split; [lia|constructor; [done|constructor]]|].
    destruct (Ascii.eqb a ","); [|done].
    destruct (read_elems f d r2) as [[l' r']|] eqn:E2; [|done]. injection H as <- <-.
    apply IHe in E2 as [? ?]. split; [lia|by constructor].
  - intros d s m r H. cbn [read_members] in H.
    destruct (skip_ws s) as [|a s1] eqn:Es; [done|]. apply skip_ws_cons in Es.
    destruct (negb (Ascii.eqb a quote)); [done|].
    destruct (read_string s1) as [[k r1]|] eqn:Ek; [|done]. unfold read_string in Ek.
    pose proof (unquote_shorter _ _ _ _ Ek). apply unquote_valid in Ek.
    destruct (skip_ws r1) as [|b r2] eqn:E1; [done|]. apply skip_ws_cons in E1.
    destruct (negb (Ascii.eqb b ":")); [done|].
    destruct (read_value f d r2) as [[x r3]|] eqn:E2; [|done]. apply IHv in E2 as [? ?].
    destruct (skip_ws r3) as [|c r4] eqn:E3; [done|]. apply skip_ws_cons in E3.
    destruct (Ascii.eqb c "}"); [injection H as <- <-; split; [lia|constructor; [by split|constructor]]|].
    destruct (Ascii.eqb c ","); [|done].
    destruct (read_members f d r4) as [[m' r']|] eqn:E4; [|done]. injection H as <- <-.
    apply IHm in E4 as [? ?]. split; [lia|constructor; [by split|done]].
Qed.
End Reader.

(** ** The reader's fuel is enough *)

Section Fuel.
Lemma read_fuel_enough f : ∀ g,
  (∀ d s, 2 * String.length s < f → f <= g → read_value f d s = read_value g d s) ∧
  (∀ d s, 2 * String.length s + 1 < f → f <= g → read_elems f d s = read_elems g d s) ∧
  (∀ d s, 2 * String.length s + 1 < f → f <= g → read_members f d s = read_members g d s).
Proof.
  (* any printing of floats serves: the reader never prints *)
  assert (ft : FloatText) by exact {| float_text := λ _, "0"; parse_float := λ _, None;
    float_text_number := λ _ _, eq_refl |}.
  induction f as [|f IH]; intros g; [split_and!; intros; lia|].
  destruct g as [|g]; [split_and!; intros; lia|]. specialize (IH g) as (IHv & IHe & IHm).
  destruct (read_spec f) as (Sv & _ & _).
  split_and!; intros d s Hf Hg; cbn [read_value read_elems read_members].
  - destruct (skip_ws s) as [|a s1] eqn:Es; [done|]. apply skip_ws_cons in Es.
    destruct (Ascii.eqb a quote); [done|].
    destruct (Ascii.eqb a "{"); [destruct d; [done|]; by rewrite IHm by lia|].
    destruct (Ascii.eqb a "["); [destruct d; [done|]; by rewrite IHe by lia|]. done.
  - rewrite <- IHv by lia. destruct (read_value f d s) as [[x r]|] eqn:E; [|done].
    apply Sv in E as [? _]. destruct (skip_ws r) as [|a r1] eqn:Er; [done|].
    apply skip_ws_cons in Er. by rewrite IHe by lia.
  - destruct (skip_ws s) as [|a s1] eqn:Es; [done|]. apply skip_ws_cons in Es.
    destruct (negb _); [done|].
    destruct (read_string s1) as [[k r1]|] eqn:Ek; [|done]. apply unquote_shorter in Ek.
    destruct (skip_ws r1) as [|b r2] eqn:E1; [done|]. apply skip_ws_cons in E1.
    destruct (negb _); [done|]. rewrite <- IHv by lia.
    destruct (read_value f d r2) as [[x r3]|] eqn:E2; [|done]. apply Sv in E2 as [? _].
    destruct (skip_ws r3) as [|c r4] eqn:E3; [done|]. apply skip_ws_cons in E3.
    by rewrite IHm by lia.
Qed.

(** More fuel changes nothing: a document [read_first] refuses is refused for
    what it says. *)
Lemma read_value_enough f d s :
  read_fuel s <= f → read_value f d s = read_value (read_fuel s) d s.
Proof.
  intros Hf. symmetry. apply (read_fuel_enough (read_fuel s) f); unfold read_fuel in *; lia.
Qed.
End Fuel.

(** ** Maps *)

Section Objects.
Context {A : Type}.
Implicit Types m : list (string * A).

(** Keys strictly increasing: the order json.Marshal writes a map in. *)
Fixpoint obj_sorted m : Prop :=
  match m with
  | [] => True
  | (k, _) :: m' => Forall (λ kv, str_ltb k kv.1 = true) m' ∧ obj_sorted m'
  end.

Lemma obj_set_keys k v m : Forall (λ kv, kv.1 = k ∨ kv ∈ m) (obj_set k v m).
Proof.
  induction m as [|[k' v'] m IH]; cbn [obj_set]; [by repeat constructor|].
  destruct (String.eqb_spec k k') as [->|].
  - constructor; [by left|]. apply Forall_forall. intros x Hx. right. by right.
  - destruct (str_ltb k k').
    + constructor; [by left|]. apply Forall_forall. by right.
    + constructor; [right; left|]. eapply Forall_impl; [exact IH|]. intros x [?|?]; [by left|].
      right. by right.
Qed.

Lemma str_ltb_trans a b c : str_ltb a b = true → str_ltb b c = true → str_ltb a c = true.
Proof.
  intros H1 H2. destruct (str_ltb a c) eqn:E; [done|].
  
  pose proof (less_cotrans str_ltb b c a (less_asym str_ltb _ _ H2) E). congruence.
Qed.

Lemma obj_set_sorted k v m : obj_sorted m → obj_sorted (obj_set k v m).
Proof.
  induction m as [|[k' v'] m IH]; cbn [obj_set obj_sorted]; [by repeat constructor|].
  intros [Hk Hm]. destruct (String.eqb_spec k k') as [->|Hne]; [done|].
  destruct (str_ltb k k') eqn:E; cbn [obj_sorted].
  - split; [|done]. constructor; [done|]. eapply Forall_impl; [exact Hk|].
    intros x Hx. by eapply str_ltb_trans.
  - split; [|by apply IH]. rewrite Forall_forall in Hk. eapply Forall_impl; [apply obj_set_keys|].
    intros x [->|Hx]; [|by apply Hk].
    destruct (str_ltb k' k) eqn:E2; [done|]. by destruct Hne; apply str_ltb_total.
Qed.

Lemma obj_of_list_app m1 m2 :
  obj_of_list (m1 ++ m2) = foldl (λ acc kv, obj_set kv.1 kv.2 acc) (obj_of_list m1) m2.
Proof. apply foldl_app. Qed.

Lemma obj_of_list_sorted m : obj_sorted (obj_of_list m).
Proof.
  induction m as [|kv m IH] using rev_ind; [done|].
  rewrite obj_of_list_app. cbn [foldl]. by apply obj_set_sorted.
Qed.

(** Setting a key above all others appends. *)
Lemma obj_set_last k v m :
  Forall (λ kv, str_ltb kv.1 k = true) m → obj_set k v m = m ++ [(k, v)].
Proof.
  induction 1 as [|[k' v'] m Hk Hm IH]; [done|]. cbn [obj_set fst] in *.
  pose proof (less_asym str_ltb _ _ Hk) as Hk'.
  destruct (String.eqb_spec k k') as [->|]; [congruence|]. rewrite Hk'. cbn. by rewrite IH.
Qed.

Lemma obj_sorted_snoc m k v :
  obj_sorted (m ++ [(k, v)]) ↔ obj_sorted m ∧ Forall (λ kv, str_ltb kv.1 k = true) m.
Proof.
  induction m as [|[k' v'] m IH]; cbn [app obj_sorted].
  - split; [intros; split; constructor | by repeat constructor].
  - rewrite IH, Forall_app, Forall_singleton, Forall_cons. cbn [fst]. naive_solver.
Qed.

(** A map written in key order and read back is itself. *)
Lemma obj_of_list_id m : obj_sorted m → obj_of_list m = m.
Proof.
  induction m as [|[k v] m IH] using rev_ind; [done|]. rewrite obj_sorted_snoc.
  intros [Hm Hk]. rewrite obj_of_list_app, IH by done. by apply obj_set_last.
Qed.

Lemma obj_get_set k k' v m :
  obj_get k (obj_set k' v m) = if String.eqb k k' then Some v else obj_get k m.
Proof.
  induction m as [|[k1 v1] m IH]; cbn [obj_set obj_get]; [done|].
  destruct (String.eqb_spec k' k1) as [->|]; cbn [obj_get].
  - by destruct (String.eqb k k1).
  - destruct (str_ltb k' k1); cbn [obj_get]; [done|]. rewrite IH.
    destruct (String.eqb_spec k k1), (String.eqb_spec k k'); congruence.
Qed.

Lemma obj_delete_sorted k m : obj_sorted m → obj_sorted (obj_delete k m).
Proof.
  induction m as [|[k' v] m IH]; [done|]. cbn [obj_sorted]. intros [Hk Hm].
  unfold obj_delete. cbn [List.filter fst]. fold (obj_delete k m).
  destruct (negb (String.eqb k' k)); [|by apply IH]. cbn [obj_sorted]. split; [|by apply IH].
  rewrite Forall_forall in *. intros x Hx. apply Hk.
  apply list_elem_of_In, filter_In in Hx as [Hx _]. by apply list_elem_of_In.
Qed.

Lemma obj_get_delete k k' m :
  obj_get k (obj_delete k' m) = if String.eqb k k' then None else obj_get k m.
Proof.
  unfold obj_delete. induction m as [|[k1 v1] m IH]; cbn [List.filter obj_get fst].
  - by destruct (String.eqb k k').
  - destruct (String.eqb k1 k') eqn:E; cbn [negb obj_get]; rewrite IH;
      destruct (String.eqb k k') eqn:E1, (String.eqb k k1) eqn:E2; bools; congruence.
Qed.

Lemma obj_delete_set_same k v m : obj_delete k (obj_set k v m) = obj_delete k m.
Proof.
  unfold obj_delete. induction m as [|[k1 v1] m IH]; cbn [obj_set List.filter fst].
  - by rewrite String.eqb_refl.
  - destruct (String.eqb_spec k k1) as [->|].
    + cbn [List.filter fst]. by rewrite String.eqb_refl.
    + destruct (str_ltb k k1); cbn [List.filter fst]; [by rewrite String.eqb_refl|]. by rewrite IH.
Qed.

Lemma obj_delete_set_other k k' v m : k ≠ k' → obj_sorted m →
  obj_delete k (obj_set k' v m) = obj_set k' v (obj_delete k m).
Proof.
  intros Hne. unfold obj_delete.
  induction m as [|[k1 v1] m IH]; cbn [obj_set List.filter fst obj_sorted]; intros Hs.
  - destruct (String.eqb_spec k' k); [congruence|done].
  - destruct Hs as [Hk Hm].
    destruct (String.eqb_spec k' k1) as [->|]; cbn [List.filter fst].
    { destruct (String.eqb_spec k1 k); [congruence|]. cbn [negb obj_set].
      by rewrite String.eqb_refl. }
    destruct (str_ltb k' k1) eqn:E; cbn [List.filter fst].
    + destruct (String.eqb_spec k' k) as [?|_]; [congruence|]. cbn [negb].
      destruct (String.eqb_spec k1 k) as [_|_]; cbn [negb obj_set].
      * (* k1 deleted: k' goes before everything left *)
        destruct (List.filter _ m) as [|[k2 v2] m2] eqn:Ef; [done|]. cbn [obj_set].
        assert (str_ltb k1 k2 = true) as H12.
        { rewrite Forall_forall in Hk. apply (Hk (k2, v2)).
          assert (In (k2, v2) (List.filter (λ kv, negb (String.eqb kv.1 k)) m)) as Hin
            by (rewrite Ef; by left).
          apply filter_In in Hin as [Hin _]. by apply list_elem_of_In. }
        pose proof (str_ltb_trans _ _ _ E H12) as H2. rewrite H2.
        destruct (String.eqb_spec k' k2) as [->|]; [|done].
        pose proof (less_asym str_ltb _ _ H2). congruence.
      * destruct (String.eqb_spec k' k1); [done|]. by rewrite E.
    + rewrite IH by done. destruct (String.eqb_spec k1 k); cbn [negb obj_set]; [done|].
      destruct (String.eqb_spec k' k1); [done|]. by rewrite E.
Qed.

Lemma obj_delete_app k m1 m2 : obj_delete k (m1 ++ m2) = obj_delete k m1 ++ obj_delete k m2.
Proof. unfold obj_delete. by rewrite List.filter_app. Qed.

(** Deleting before or after the members become a map is the same. *)
Lemma obj_delete_of_list k m : obj_delete k (obj_of_list m) = obj_of_list (obj_delete k m).
Proof.
  induction m as [|[k' v] m IH] using rev_ind; [done|].
  rewrite obj_of_list_app, obj_delete_app. cbn [foldl fst snd].
  destruct (decide (k = k')) as [<-|Hne].
  - rewrite obj_delete_set_same, IH. unfold obj_delete at 3. cbn [List.filter fst].
    rewrite String.eqb_refl. cbn [negb]. by rewrite app_nil_r.
  - rewrite obj_delete_set_other, IH by (done || apply obj_of_list_sorted).
    unfold obj_delete at 3. cbn [List.filter fst].
    destruct (String.eqb_spec k' k); [congruence|]. cbn [negb].
    by rewrite obj_of_list_app.
Qed.
End Objects.

(** ** Normal trees: every object a map *)

Fixpoint normal (t : json) : Prop :=
  match t with
  | JArr l => (fix go l := match l with [] => True | x :: l' => normal x ∧ go l' end) l
  | JObj m => obj_sorted m ∧
      (fix go m := match m with [] => True | (_, x) :: m' => normal x ∧ go m' end) m
  | _ => True
  end.

Lemma normal_arr l : normal (JArr l) ↔ Forall normal l.
Proof.
  cbn [normal]. induction l as [|x l IH]; [by split|]. by rewrite Forall_cons, <- IH.
Qed.

Lemma normal_obj m : normal (JObj m) ↔ obj_sorted m ∧ Forall (λ kv, normal kv.2) m.
Proof.
  cbn [normal]. apply and_iff_compat_l.
  induction m as [|[k x] m IH]; [by split|]. by rewrite Forall_cons, <- IH.
Qed.

Lemma obj_of_list_Forall {A} (P : string * A → Prop) m :
  Forall P m → Forall P (obj_of_list m).
Proof.
  induction m as [|[k v] m IH] using rev_ind; [constructor|].
  rewrite Forall_snoc, obj_of_list_app. intros [Hm Hv]. cbn [foldl fst snd]. specialize (IH Hm).
  induction IH as [|[k' v'] m' Hk' Hm' IH']; cbn [obj_set]; [by repeat constructor|].
  destruct (String.eqb k k'); [by constructor|]. destruct (str_ltb k k'); by repeat constructor.
Qed.

Lemma norm_normal t : normal (norm t).
Proof.
  induction t as [| | | | |l IH|m IH] using json_ind'; try done; cbn [norm].
  - apply normal_arr, Forall_map. done.
  - apply normal_obj. split; [apply obj_of_list_sorted|]. by apply obj_of_list_Forall, Forall_map.
Qed.

Lemma norm_id t : normal t → norm t = t.
Proof.
  induction t as [| | | | |l IH|m IH] using json_ind'; intros Hn; try done; cbn [norm]; f_equal.
  - apply normal_arr in Hn. induction IH; [done|]. apply Forall_cons in Hn as [? ?].
    cbn [map]. f_equal; auto.
  - apply normal_obj in Hn as [Hs Hn]. rewrite <- (obj_of_list_id m) at 2 by done. f_equal.
    clear Hs. induction IH as [|[k x] m Hx IH IHm]; [done|]. apply Forall_cons in Hn as [? ?].
    cbn [map fst snd]. f_equal; [f_equal; auto|auto].
Qed.

Section NormReadable.
Context {ft : FloatText}.

Lemma norm_read_ok t : ∀ d, read_ok d t → read_ok d (norm t).
Proof.
  induction t as [| | | | |l IH|m IH] using json_ind'; intros d H; try done; cbn [norm];
    (destruct d as [|d]; [by destruct H|]).
  - apply read_ok_arr_inv in H. apply read_ok_arr, Forall_map.
    rewrite Forall_forall in *. intros x Hx. apply IH; auto.
  - apply read_ok_obj_inv in H. apply read_ok_obj, obj_of_list_Forall, Forall_map.
    rewrite Forall_forall in *. intros [k x] Hx. destruct (H _ Hx) as [? ?].
    split; [done|]. apply (IH (k, x)); auto.
Qed.

Lemma read_first_ok s t r : read_first s = Some (t, r) → read_ok (Z.to_nat max_nesting) t.
Proof. intros H. by apply read_spec in H as [_ ?]. Qed.

(** What [decode_any] returns: a readable map tree, nested within the bound. *)
Lemma decode_any_ok s t :
  decode_any s = Some t → read_ok (Z.to_nat max_nesting) t ∧ normal t.
Proof.
  unfold decode_any. destruct (read_first s) as [[t' r]|] eqn:E; [|done]. intros [= <-].
  split; [by eapply norm_read_ok, read_first_ok | apply norm_normal].
Qed.

Lemma decode_any_marshal t :
  marshalable t = true → nests_within (Z.to_nat max_nesting) t = true →
  decode_any (encode t) = Some (norm (as_read t)).
Proof.
  intros Hm Hd. unfold decode_any. rewrite <- (app_str_nil_r (encode t)).
  by rewrite read_first_encode.
Qed.

Lemma decode_any_encode t :
  read_ok (Z.to_nat max_nesting) t → decode_any (encode t) = Some (norm t).
Proof.
  intros [[Ha Hm] Hd]. unfold decode_any. rewrite <- (app_str_nil_r (encode t)).
  by rewrite read_first_encode, Ha.
Qed.
End NormReadable.

(** A float printer for the witnesses: two floats, 0 and 1. *)
Module ToyFloat.
#[export, refine] Instance toy_float : FloatText := {
  float_text f := if (f =? 0)%Z then "0" else "1";
  parse_float lit := Some (if String.eqb lit "0" then 0 else 4607182418800017408)%Z
}.
Proof. intros f _. by destruct (f =? 0)%Z. Defined.
End ToyFloat.
