(* ===== verification/Canonical.v ===== *)
(** * Canonical byte forms: internal/ledger/canonical.go, and canonicalEntryBytes

    The three forms a hash is computed over: sparse (empty values pruned, numbers
    through float64), sparse V2 (array elements and number literals kept) and full
    (nothing pruned). A Go value enters as the tree json.Marshal prints for it. *)
From S2P Require Import Prelude GoLib JsonText Json.
Local Open Scope string_scope.
Local Open Scope list_scope.

(** [t == 0] on a float64: both zeros. *)
Definition float_is_zero (f : float64) : bool := (f =? 0)%Z || (f =? 2 ^ 63)%Z.

(** [len(out) == 0]. *)
Definition no_elems {A} (l : list A) : bool := match l with [] => true | _ => false end.

(** ** pruneEmpty: every empty value removed, and whether the value itself is
    empty after that *)

Fixpoint pruneEmpty (t : json) : json * bool :=
  match t with
  | JNull => (JNull, true)
  | JStr s => (t, String.eqb s "")
  | JBool b => (t, negb b)
  | JFloat f => (t, float_is_zero f)
  | JArr l =>
      let out := omap (λ e, match pruneEmpty e with (p, empty) =>
                            if (empty : bool) then None else Some p end) l in
      (JArr out, no_elems out)
  | JObj m =>
      let out := omap (λ kv, match pruneEmpty kv.2 with (p, empty) =>
                             if (empty : bool) then None else Some (kv.1, p) end) m in
      (JObj out, no_elems out)
  | JNum _ => (t, false)
  end.

(** Array elements kept, number literals understood. *)
Fixpoint pruneEmptyV2 (t : json) : json * bool :=
  match t with
  | JNull => (JNull, true)
  | JStr s => (t, String.eqb s "")
  | JBool b => (t, negb b)
  | JNum lit => (t, String.eqb lit "0")
  | JFloat f => (t, float_is_zero f)
  | JArr l =>
      let out := map (λ e, (pruneEmptyV2 e).1) l in
      (JArr out, no_elems out)
  | JObj m =>
      let out := omap (λ kv, match pruneEmptyV2 kv.2 with (p, empty) =>
                             if (empty : bool) then None else Some (kv.1, p) end) m in
      (JObj out, no_elems out)
  end.

Section Canonical.
Context {ft : FloatText}.

(** [None]: the error json.Marshal, Unmarshal or Decode returned. *)
Definition CanonicalSparseJSON (v : json) : option bytes :=
  full ← marshal v;
  tree ← unmarshal_any full;
  let (pruned, _) := pruneEmpty tree in
  marshal pruned.

Definition CanonicalSparseJSONV2 (v : json) : option bytes :=
  full ← marshal v;
  tree ← decode_any full;
  let (pruned, _) := pruneEmptyV2 tree in
  marshal pruned.

Definition CanonicalFullJSON (raw : bytes) : option bytes :=
  tree ← decode_any raw;
  marshal tree.

(** The keys an entry's hash cannot contain, deleted from the top map. *)
Definition strip_entry (keepKeyID : bool) (tree : list (string * json)) : list (string * json) :=
  let tree := obj_delete "hash" tree in
  let tree := obj_delete "signature" tree in
  let tree := obj_delete "sigstore" tree in
  if keepKeyID then tree else obj_delete "keyid" tree.

(** [var tree map[string]any; dec.Decode(&tree)] and the deletions: only an
    object, or null (a nil map), decodes. *)
Definition entry_tree (raw : bytes) (keepKeyID : bool) : option json :=
  match decode_any raw with
  | Some (JObj tree) => Some (JObj (strip_entry keepKeyID tree))
  | Some JNull => Some JNull
  | _ => None
  end.

Lemma entry_tree_decode raw1 raw2 keep :
  decode_any raw1 = decode_any raw2 → entry_tree raw1 keep = entry_tree raw2 keep.
Proof. unfold entry_tree. by intros ->. Qed.

Definition canonicalEntryBytes (raw : bytes) (keepKeyID : bool) : option bytes :=
  tree ← entry_tree raw keepKeyID;
  full ← marshal tree;
  CanonicalFullJSON full.

(** ** The full form *)

Lemma marshal_ok d t : read_ok d t → marshal t = Some (encode t).
Proof. intros [[_ H] _]. unfold marshal. by rewrite H. Qed.

Lemma CanonicalFullJSON_eq raw :
  CanonicalFullJSON raw = encode <$> decode_any raw.
Proof.
  unfold CanonicalFullJSON. destruct (decode_any raw) as [t|] eqn:E; [|done]. cbn.
  apply decode_any_ok in E as [H _]. by eapply marshal_ok.
Qed.

(** On a tree already decoded, the full form only prints it. *)
Lemma CanonicalFullJSON_encode t :
  read_ok (Z.to_nat max_nesting) t → normal t → CanonicalFullJSON (encode t) = Some (encode t).
Proof.
  intros H Hn. rewrite CanonicalFullJSON_eq, decode_any_encode by done. by rewrite norm_id.
Qed.

(** The full canonical form is a fixed point of itself and determines the
    document's tree: two raw documents have the same canonical bytes exactly
    when they decode to the same tree. *)
Theorem CanonicalFullJSON_canonical raw1 raw2 c1 c2 :
  CanonicalFullJSON raw1 = Some c1 → CanonicalFullJSON raw2 = Some c2 →
  CanonicalFullJSON c1 = Some c1 ∧ (c1 = c2 ↔ decode_any raw1 = decode_any raw2).
Proof.
  rewrite !CanonicalFullJSON_eq.
  destruct (decode_any raw1) as [t1|] eqn:E1, (decode_any raw2) as [t2|] eqn:E2; try done.
  cbn. intros [= <-] [= <-].
  apply decode_any_ok in E1 as [H1 N1], E2 as [H2 N2]. split.
  - rewrite decode_any_encode by done. cbn. by rewrite norm_id.
  - split; [|congruence]. intros E. f_equal. destruct H1, H2. by apply encode_inj.
Qed.

(** ** The entry form *)

Lemma strip_entry_incl keep tree : strip_entry keep tree ⊆ tree.
Proof.
  assert (∀ k (m : list (string * json)), obj_delete k m ⊆ m) as Hd.
  { intros k m x Hx. apply list_elem_of_In, filter_In in Hx as [Hx _]. by apply list_elem_of_In. }
  unfold strip_entry. destruct keep; set_solver.
Qed.

Lemma strip_entry_sorted keep tree : obj_sorted tree → obj_sorted (strip_entry keep tree).
Proof. intros H. unfold strip_entry. destruct keep; by repeat apply obj_delete_sorted. Qed.

Lemma strip_entry_app keep m1 m2 :
  strip_entry keep (m1 ++ m2) = strip_entry keep m1 ++ strip_entry keep m2.
Proof. unfold strip_entry. destruct keep; by rewrite !obj_delete_app. Qed.

Lemma strip_entry_of_list keep m : strip_entry keep (obj_of_list m) = obj_of_list (strip_entry keep m).
Proof. unfold strip_entry. destruct keep; by rewrite !obj_delete_of_list. Qed.

(** The entry tree of a document just written: its members, made readable and
    normal, less the deleted keys. *)
Definition read_member (kv : string * json) : string * json :=
  (to_valid kv.1, norm (as_read kv.2)).

Lemma entry_tree_encode m keep :
  marshalable (JObj m) = true → nests_within (Z.to_nat max_nesting) (JObj m) = true →
  entry_tree (encode (JObj m)) keep =
    Some (JObj (obj_of_list (strip_entry keep (map read_member m)))).
Proof.
  intros Hm Hd. unfold entry_tree. rewrite decode_any_marshal by done.
  cbn [as_read norm]. rewrite map_map, strip_entry_of_list. done.
Qed.

Lemma entry_tree_ok raw keep t :
  entry_tree raw keep = Some t → read_ok (Z.to_nat max_nesting) t ∧ normal t.
Proof.
  unfold entry_tree. destruct (decode_any raw) as [t'|] eqn:E; [|done].
  apply decode_any_ok in E as [H Hn]. destruct t'; try done; intros [= <-]; [done|].
  pose proof (strip_entry_incl keep m) as Hi.
  apply normal_obj in Hn as [Hs Hn]. split.
  - change (Z.to_nat max_nesting) with (S (Z.to_nat (max_nesting - 1))) in *.
    apply read_ok_obj. apply read_ok_obj_inv in H. rewrite Forall_forall in *. auto.
  - apply normal_obj. split; [by apply strip_entry_sorted | rewrite Forall_forall in *; auto].
Qed.

(** The second decode changes nothing: the bytes are the stripped tree's. *)
Lemma canonicalEntryBytes_eq raw keep :
  canonicalEntryBytes raw keep = encode <$> entry_tree raw keep.
Proof.
  unfold canonicalEntryBytes. destruct (entry_tree raw keep) as [t|] eqn:E; [|done].
  apply entry_tree_ok in E as [H Hn]. cbn.
  erewrite marshal_ok by done. cbn. by apply CanonicalFullJSON_encode.
Qed.

Lemma canonicalEntryBytes_inj raw1 raw2 k1 k2 c :
  canonicalEntryBytes raw1 k1 = Some c → canonicalEntryBytes raw2 k2 = Some c →
  entry_tree raw1 k1 = entry_tree raw2 k2.
Proof.
  rewrite !canonicalEntryBytes_eq.
  destruct (entry_tree raw1 k1) as [t1|] eqn:E1, (entry_tree raw2 k2) as [t2|] eqn:E2; try done.
  cbn. intros [= <-] [= E]. apply entry_tree_ok in E1 as [[H1 _] _], E2 as [[H2 _] _].
  f_equal. by apply encode_inj.
Qed.

(** What the entry form leaves out, and that it leaves out nothing else. *)
Lemma obj_get_strip keep k tree :
  obj_get k (strip_entry keep tree) =
    if String.eqb k "hash" || String.eqb k "signature" || String.eqb k "sigstore"
       || (negb keep && String.eqb k "keyid")
    then None else obj_get k tree.
Proof.
  unfold strip_entry. destruct keep; cbn [negb andb]; rewrite !obj_get_delete;
    repeat match goal with |- context [String.eqb k ?x] => destruct (String.eqb k x) end; done.
Qed.
End Canonical.

(** ** The sparse forms *)

Definition is_empty (t : json) : bool :=
  match t with
  | JNull => true
  | JStr s => String.eqb s ""
  | JBool b => negb b
  | JFloat f => float_is_zero f
  | JArr l => no_elems l
  | JObj m => no_elems m
  | JNum _ => false
  end.

(** V2 also counts the literal 0. *)
Definition is_emptyV2 (t : json) : bool :=
  match t with JNum lit => String.eqb lit "0" | _ => is_empty t end.

(** Nothing empty anywhere below. *)
Fixpoint dense (t : json) : bool :=
  match t with
  | JArr l => forallb (λ e, negb (is_empty e) && dense e) l
  | JObj m => forallb (λ kv, negb (is_empty kv.2) && dense kv.2) m
  | _ => true
  end.

(** No key holds anything empty; array elements may be. *)
Fixpoint denseV2 (t : json) : bool :=
  match t with
  | JArr l => forallb denseV2 l
  | JObj m => forallb (λ kv, negb (is_emptyV2 kv.2) && denseV2 kv.2) m
  | _ => true
  end.

Lemma pruneEmpty_flag t : (pruneEmpty t).2 = is_empty (pruneEmpty t).1.
Proof. by destruct t. Qed.
Lemma pruneEmptyV2_flag t : (pruneEmptyV2 t).2 = is_emptyV2 (pruneEmptyV2 t).1.
Proof. by destruct t. Qed.

Lemma forallb_omap {A B} (f : A → option B) (p : B → bool) l :
  Forall (λ x, ∀ y, f x = Some y → p y = true) l → forallb p (omap f l) = true.
Proof.
  induction 1 as [|x l Hx Hl IH]; [done|]. cbn [omap list_omap].
  destruct (f x) as [y|] eqn:E; [|done]. cbn [forallb]. by rewrite Hx, IH.
Qed.

Lemma omap_id {A} (f : A → option A) l : Forall (λ x, f x = Some x) l → omap f l = l.
Proof. induction 1 as [|x l Hx Hl IH]; [done|]. cbn [omap list_omap]. rewrite Hx. by f_equal. Qed.

Lemma pruneEmpty_dense t : dense (pruneEmpty t).1 = true.
Proof.
  induction t as [| | | | |l IH|m IH] using json_ind'; try done; cbn [pruneEmpty fst dense];
    apply forallb_omap; (eapply Forall_impl; [exact IH|]); cbn beta.
  - intros x Hx y. pose proof (pruneEmpty_flag x) as F.
    destruct (pruneEmpty x) as [p [|]]; [done|]. intros [= <-]. cbn in *. by rewrite <- F, Hx.
  - intros [k x] Hx [k' y]. cbn [snd fst] in *. pose proof (pruneEmpty_flag x) as F.
    destruct (pruneEmpty x) as [p [|]]; [done|]. intros [= <- <-]. cbn in *. by rewrite <- F, Hx.
Qed.

Lemma pruneEmpty_fixed t : dense t = true → pruneEmpty t = (t, is_empty t).
Proof.
  induction t as [| | | | |l IH|m IH] using json_ind'; intros H; try done; cbn [pruneEmpty];
    rewrite omap_id; try done; cbn [dense] in H; rewrite forallb_forall in H;
    rewrite Forall_forall in *.
  - intros x Hx. specialize (H x). rewrite <- list_elem_of_In in H. specialize (H Hx). bools.
    rewrite IH by done. by rewrite H.
  - intros [k x] Hx. specialize (H (k, x)). rewrite <- list_elem_of_In in H. specialize (H Hx).
    specialize (IH _ Hx). cbn [fst snd] in *. bools. rewrite IH by done. by rewrite H.
Qed.

Lemma pruneEmptyV2_dense t : denseV2 (pruneEmptyV2 t).1 = true.
Proof.
  induction t as [| | | | |l IH|m IH] using json_ind'; try done; cbn [pruneEmptyV2 fst denseV2].
  - induction IH as [|x l Hx _ IH]; [done|]. cbn [map forallb]. by rewrite Hx.
  - apply forallb_omap. eapply Forall_impl; [exact IH|]. cbn beta.
    intros [k x] Hx [k' y]. cbn [snd fst] in *. pose proof (pruneEmptyV2_flag x) as F.
    destruct (pruneEmptyV2 x) as [p [|]]; [done|]. intros [= <- <-]. cbn in *. by rewrite <- F, Hx.
Qed.

Lemma pruneEmptyV2_fixed t : denseV2 t = true → pruneEmptyV2 t = (t, is_emptyV2 t).
Proof.
  induction t as [| | | | |l IH|m IH] using json_ind'; intros H; try done; cbn [pruneEmptyV2];
    cbn [denseV2] in H; rewrite forallb_forall in H; rewrite Forall_forall in IH.
  - assert (map (λ e, (pruneEmptyV2 e).1) l = l) as ->; [|done].
    rewrite <- (map_id l) at 2. apply map_ext_in. intros x Hx.
    rewrite IH; [done|by apply list_elem_of_In|by apply H].
  - rewrite omap_id; [done|]. apply Forall_forall.
    intros [k x] Hx. specialize (H (k, x)). rewrite <- list_elem_of_In in H. specialize (H Hx).
    specialize (IH _ Hx). cbn [fst snd] in *. bools. rewrite IH by done. by rewrite H.
Qed.

(** Pruning is a normal form, in both versions: what it returns has nothing
    empty left (V2: under no key), the flag says whether that itself is empty,
    and pruning it again changes nothing. *)
Theorem prune_normal_form t :
  let (p, e) := pruneEmpty t in let (p2, e2) := pruneEmptyV2 t in
  dense p = true ∧ e = is_empty p ∧ pruneEmpty p = (p, e) ∧
  denseV2 p2 = true ∧ e2 = is_emptyV2 p2 ∧ pruneEmptyV2 p2 = (p2, e2).
Proof.
  pose proof (pruneEmpty_flag t) as F1. pose proof (pruneEmptyV2_flag t) as F2.
  pose proof (pruneEmpty_dense t) as D1. pose proof (pruneEmptyV2_dense t) as D2.
  destruct (pruneEmpty t) as [p e], (pruneEmptyV2 t) as [p2 e2]. cbn in *.
  rewrite pruneEmpty_fixed, pruneEmptyV2_fixed by done. by subst.
Qed.

Lemma omap_obj_set (f : string * json → option (string * json)) k v m :
  f (k, v) = None → obj_get k m = None → omap f (obj_set k v m) = omap f m.
Proof.
  intros Hf. induction m as [|[k' v'] m IH]; cbn [obj_set obj_get].
  - intros _. cbn [omap list_omap]. by rewrite Hf.
  - destruct (String.eqb k k'); [done|]. intros Hg. destruct (str_ltb k k').
    + cbn [omap list_omap]. by rewrite Hf.
    + cbn [omap list_omap]. by rewrite IH.
Qed.

(** A schema may grow: a column an older row never had, holding an empty
    value, changes neither sparse form of the row (the reason the sparse form
    exists, canonical.go's header). *)
Theorem sparse_schema_growth k v m :
  obj_get k m = None →
  ((pruneEmpty v).2 = true → pruneEmpty (JObj (obj_set k v m)) = pruneEmpty (JObj m)) ∧
  ((pruneEmptyV2 v).2 = true → pruneEmptyV2 (JObj (obj_set k v m)) = pruneEmptyV2 (JObj m)).
Proof.
  intros Hk. split; intros Hv; cbn [pruneEmpty pruneEmptyV2].
  - rewrite (omap_obj_set _ k v); [done| |done]. cbn [fst snd].
    destruct (pruneEmpty v) as [p e]. cbn in Hv. by rewrite Hv.
  - rewrite (omap_obj_set _ k v); [done| |done]. cbn [fst snd].
    destruct (pruneEmptyV2 v) as [p e]. cbn in Hv. by rewrite Hv.
Qed.

Lemma sparse_schema_growth_witness :
  pruneEmptyV2 (JObj (obj_set "writers" (JNum "0") [("name", JStr "x")])) =
  pruneEmptyV2 (JObj [("name", JStr "x")]).
Proof.
  apply (sparse_schema_growth "writers" (JNum "0") [("name", JStr "x")] eq_refl). reflexivity.
Defined.

(** V2 keeps what V1 loses: the rows of a slice, and integers past 2^53. *)
Section V2.
Context {ft : FloatText}.

Lemma readable_arr l : readable (JArr l) ↔ Forall readable l.
Proof.
  unfold readable. cbn [as_read marshalable]. rewrite forallb_forall, Forall_forall.
  setoid_rewrite list_elem_of_In. split.
  - intros [E Hm] x Hx. injection E as E. split; [|by apply Hm].
    revert Hx E. clear. induction l as [|y l IH]; cbn [map In]; [done|].
    intros [->|Hx] E; injection E; auto.
  - intros H. split; [|intros x Hx; by apply H]. f_equal. rewrite <- (map_id l) at 2.
    apply map_ext_in. intros x Hx. by apply H.
Qed.

Lemma readable_obj m :
  readable (JObj m) ↔ Forall (λ kv, to_valid kv.1 = kv.1 ∧ readable kv.2) m.
Proof.
  unfold readable. cbn [as_read marshalable]. rewrite forallb_forall, Forall_forall.
  setoid_rewrite list_elem_of_In. split.
  - intros [E Hm] [k x] Hx. injection E as E.
    assert ((to_valid k, as_read x) = (k, x)) as E'.
    { revert Hx E. clear. induction m as [|y l IH]; cbn [map In]; [done|].
      intros [->|Hx] E; injection E; cbn [fst snd]; intros; [congruence|auto]. }
    injection E' as Ek Ex. cbn [fst snd]. split; [done|]. split; [done|]. by apply (Hm (k, x)).
  - intros H. split; [|intros x Hx; by apply H]. f_equal. rewrite <- (map_id m) at 2.
    apply map_ext_in. intros [k x] Hx. destruct (H _ Hx) as [E1 [E2 _]]. cbn in *. congruence.
Qed.

Lemma pruneV2_readable t : readable t → readable (pruneEmptyV2 t).1.
Proof.
  induction t as [| | | | |l IH|m IH] using json_ind'; try done; cbn [pruneEmptyV2 fst].
  - rewrite !readable_arr, Forall_map, !Forall_forall. rewrite Forall_forall in IH. auto.
  - rewrite !readable_obj, !Forall_forall. rewrite Forall_forall in IH.
    intros H [k p] ([k' x] & Hx & E)%list_elem_of_omap. cbn [fst snd] in *.
    specialize (IH _ Hx). specialize (H _ Hx) as [? ?]. cbn [fst snd] in *.
    destruct (pruneEmptyV2 x) as [p' []]; [done|]. injection E as -> ->. auto.
Qed.

(** The V2 form distinguishes everything but empty keys: two values with
    the same V2 bytes have trees with the same pruning, so arrays of the same
    length and the same number literals. *)
Theorem CanonicalSparseJSONV2_inj v1 v2 c :
  CanonicalSparseJSONV2 v1 = Some c → CanonicalSparseJSONV2 v2 = Some c →
  ∃ f1 f2 t1 t2, marshal v1 = Some f1 ∧ marshal v2 = Some f2 ∧
    decode_any f1 = Some t1 ∧ decode_any f2 = Some t2 ∧
    (pruneEmptyV2 t1).1 = (pruneEmptyV2 t2).1.
Proof.
  unfold CanonicalSparseJSONV2.
  destruct (marshal v1) as [f1|]; [|done]. destruct (marshal v2) as [f2|]; [|done]. cbn.
  destruct (decode_any f1) as [t1|] eqn:E1; [|done].
  destruct (decode_any f2) as [t2|] eqn:E2; [|done]. cbn.
  intros H1 H2. exists f1, f2, t1, t2. split_and!; try done.
  apply decode_any_ok in E1 as [[R1 _] _], E2 as [[R2 _] _].
  pose proof (pruneV2_readable t1 R1) as P1. pose proof (pruneV2_readable t2 R2) as P2.
  destruct (pruneEmptyV2 t1) as [p1 e1], (pruneEmptyV2 t2) as [p2 e2]. cbn in *.
  unfold marshal in H1, H2. rewrite (proj2 P1) in H1. rewrite (proj2 P2) in H2.
  apply encode_inj; [done..|congruence].
Qed.
End V2.

Section Losses.
Import ToyFloat.

(** Two different sets of file rows: V1 gives one form for both, V2 two. *)
Definition one_row : json := JObj [("files", JArr [JObj [("path", JStr "a.go")]])].
Definition two_rows : json :=
  JObj [("files", JArr [JObj [("path", JStr "a.go")]; JObj [("path", JStr "")]])].

Lemma CanonicalSparseJSONV2_inj_witness :
  ∃ f1 f2 t1 t2, marshal one_row = Some f1 ∧ marshal one_row = Some f2 ∧
    decode_any f1 = Some t1 ∧ decode_any f2 = Some t2 ∧
    (pruneEmptyV2 t1).1 = (pruneEmptyV2 t2).1.
Proof.
  apply (CanonicalSparseJSONV2_inj one_row one_row (encode one_row)); vm_compute; reflexivity.
Defined.

Lemma sparse_v1_forgets_rows :
  CanonicalSparseJSON one_row = CanonicalSparseJSON two_rows ∧
  CanonicalSparseJSONV2 one_row ≠ CanonicalSparseJSONV2 two_rows.
Proof. split; [vm_compute; reflexivity | vm_compute; discriminate]. Qed.

Lemma CanonicalFullJSON_canonical_witness :
  CanonicalFullJSON (encode one_row) = Some (encode one_row) ∧
  (encode one_row = encode one_row ↔ decode_any (encode one_row) = decode_any (encode one_row)).
Proof.
  apply (CanonicalFullJSON_canonical (encode one_row) (encode one_row));
    vm_compute; reflexivity.
Defined.
End Losses.
