(* ===== verification/Rows.v ===== *)
(** * The rows a scan records: internal/ledger/bundle.go, row.go, identity.go

    One Record per Go struct, a field prefix per record. Pointers are options
    (nil is "not recorded"), an empty slice and a nil one are both [[]], a
    [JSONText] is its text. [X_json] is the document json.Marshal prints for an
    [X]: its members in declaration order, under their tags, the empty ones with
    [omitempty] left out. [zero_X] is the zero value. *)
From S2P Require Import Prelude GoLib GoText JsonText Json.
Local Open Scope string_scope.
Local Open Scope list_scope.
Local Open Scope Z_scope.

(** ** How encoding/json prints the field types *)

(** 0001-01-01T00:00:00Z. *)
Definition zero_time : instant := -62135596800000000000.

Definition json_int (z : Z) : json := JNum (format_int z).
(** The times are within the years 0 to 9999, outside which Marshal refuses. *)
Definition json_time (t : instant) : json := JStr (time_text t).
Definition json_ptr {A} (f : A → json) (o : option A) : json :=
  match o with Some x => f x | None => JNull end.
Definition json_slice {A} (f : A → json) (l : list A) : json :=
  match l with [] => JNull | _ => JArr (map f l) end.
(** A json.RawMessage: the document it holds. Bytes that are none make Marshal
    fail, as a number literal that is no number does. *)
Definition raw_json (s : bytes) : json := match parse_doc s with Some t => t | None => JNum "" end.

Definition fields (l : list (list (string * json))) : list (string * json) := List.concat l.
Definition fld (k : string) (v : json) : list (string * json) := [(k, v)].
(** [omitempty] on a string, number or bool. *)
Definition fld_ne (k : string) (v : json) : list (string * json) :=
  match v with
  | JStr "" | JBool false => []
  | JNum lit => if String.eqb lit "0" then [] else [(k, v)]
  | _ => [(k, v)]
  end.
(** [omitempty] on a pointer or a slice. *)
Definition fld_ptr (k : string) (v : json) : list (string * json) :=
  match v with JNull => [] | _ => [(k, v)] end.

(** ** The rows *)

Record Identity := mkIdentity {
  id_Author : string;
  id_Committer : string;
  id_CoAuthors : string;
  id_GeneratedWith : string }.

#[export] Instance Identity_eq_dec : EqDecision Identity.
Proof. solve_decision. Defined.

Definition zero_Identity : Identity := {|
  id_Author := "";
  id_Committer := "";
  id_CoAuthors := "";
  id_GeneratedWith := "" |}.

Definition Identity_json (x : Identity) : json := JObj (fields [
  fld_ne "author" (JStr x.(id_Author));
  fld_ne "committer" (JStr x.(id_Committer));
  fld_ne "co_authors" (JStr x.(id_CoAuthors));
  fld_ne "generated_with" (JStr x.(id_GeneratedWith))]).

Record TestsPerMutantSpread := mkTestsPerMutantSpread {
  tms_Min : Z;
  tms_Median : Z;
  tms_Max : Z }.

#[export] Instance TestsPerMutantSpread_eq_dec : EqDecision TestsPerMutantSpread.
Proof. solve_decision. Defined.

Definition zero_TestsPerMutantSpread : TestsPerMutantSpread := {|
  tms_Min := 0;
  tms_Median := 0;
  tms_Max := 0 |}.

Definition TestsPerMutantSpread_json (x : TestsPerMutantSpread) : json := JObj (fields [
  fld "Min" (json_int x.(tms_Min));
  fld "Median" (json_int x.(tms_Median));
  fld "Max" (json_int x.(tms_Max))]).

Record Row := mkRow {
  row_Repo : string;
  row_Commit : string;
  row_Path : string;
  row_KillRate : option float64;
  row_Survivors : Z;
  row_ProvenMissed : Z;
  row_TimedOut : bool;
  row_TestWriterFailed : bool;
  row_PoolTestUnsound : bool;
  row_Audited : Z;
  row_Candidates : Z;
  row_Lang : string;
  row_MutantsPlanted : Z;
  row_ModelsByRole : string;
  row_SeatTools : string;
  row_MinKillRate : option float64;
  row_MaxProvenMissed : option Z;
  row_Passed : option bool;
  row_StartedAt : option instant;
  row_StatementSHA256 : string;
  row_RunURL : string;
  row_TestSelection : string;
  row_SelectedTests : Z;
  row_SuiteTests : Z;
  row_SelectionFallback : string;
  row_SelectionUnreported : Z;
  row_SelectionExcluded : Z;
  row_AuthoredFallback : string;
  row_SelectionExcludedRed : string;
  row_WriterMode : string;
  row_Uncovered : bool;
  row_PerMutant : bool;
  row_TestsPerMutant : option TestsPerMutantSpread;
  row_Trees : Z;
  row_ConcurrencyNote : string;
  row_SharedDirs : string;
  row_ScanID : Z;
  row_Disposition : string;
  row_Reason : string;
  row_PreflightState : string;
  row_Evidence : string;
  row_Detail : string;
  row_Status : string;
  row_CacheHit : bool;
  row_ReusedFromScanID : option Z;
  row_CacheKey : string;
  row_ParentSHA256 : string;
  row_MutantsGraded : Z;
  row_MutantsInvalid : Z;
  row_MutantsTimedOut : option Z;
  row_MutantsDistinct : option Z;
  row_MutantsDistinctSurvived : option Z;
  row_RegionsTotal : Z;
  row_RegionsProbed : Z;
  row_DroppedRegions : string;
  row_VacuousFindings : Z;
  row_CriticIncomplete : bool;
  row_AuthoredTestNotCollected : bool;
  row_BaselineFailed : bool;
  row_SuiteBaselineMillis : option Z;
  row_ProvenMutantIDs : string;
  row_ChallengerJaccard : option float64;
  row_ChallengerKappa : option float64;
  row_ChallengerSufficient : option bool;
  row_ChallengerMutants : option Z;
  row_ChallengerSurvivedWriter : option Z;
  row_ChallengerSurvivedShadow : option Z;
  row_ChallengerUnion : option Z;
  row_ChallengerShared : option Z;
  row_PriorsApplied : option Z;
  row_PriorDigest : string;
  row_ComputedAt : option instant;
  row_MutantsFrom : string;
  row_GoalsDerived : Z;
  row_GoalReused : option bool;
  row_SelectionMillis : option Z;
  row_GenerationMillis : option Z;
  row_PoolMillis : option Z;
  row_DevPassMillis : option Z;
  row_AuthoredPassMillis : option Z;
  row_CriticMillis : option Z;
  row_TotalMillis : option Z;
  row_MutantMillisMedian : option Z;
  row_MutantMillisMax : option Z;
  row_AuthoredTest : string;
  row_VerdictJSON : string;
  row_AuthoredLanding : string;
  row_BaselineFlaky : string;
  row_PromptShape : string;
  row_MutantBudget : option Z;
  row_MutantBudgetRule : string;
  row_Complexity : option Z;
  row_Symbols : option Z;
  row_SymbolsProbed : option Z;
  row_Decisions : option Z;
  row_DecisionsProbed : option Z;
  row_MutantsUnplaced : option Z;
  row_MutantsUnmeasured : option Z;
  row_MutantsDuplicate : option Z;
  row_WriterAttempts : string;
  row_CoveringTests : option Z;
  row_CoveringUnits : option Z;
  row_ImportOnly : option bool }.

Definition zero_Row : Row := {|
  row_Repo := "";
  row_Commit := "";
  row_Path := "";
  row_KillRate := None;
  row_Survivors := 0;
  row_ProvenMissed := 0;
  row_TimedOut := false;
  row_TestWriterFailed := false;
  row_PoolTestUnsound := false;
  row_Audited := 0;
  row_Candidates := 0;
  row_Lang := "";
  row_MutantsPlanted := 0;
  row_ModelsByRole := "";
  row_SeatTools := "";
  row_MinKillRate := None;
  row_MaxProvenMissed := None;
  row_Passed := None;
  row_StartedAt := None;
  row_StatementSHA256 := "";
  row_RunURL := "";
  row_TestSelection := "";
  row_SelectedTests := 0;
  row_SuiteTests := 0;
  row_SelectionFallback := "";
  row_SelectionUnreported := 0;
  row_SelectionExcluded := 0;
  row_AuthoredFallback := "";
  row_SelectionExcludedRed := "";
  row_WriterMode := "";
  row_Uncovered := false;
  row_PerMutant := false;
  row_TestsPerMutant := None;
  row_Trees := 0;
  row_ConcurrencyNote := "";
  row_SharedDirs := "";
  row_ScanID := 0;
  row_Disposition := "";
  row_Reason := "";
  row_PreflightState := "";
  row_Evidence := "";
  row_Detail := "";
  row_Status := "";
  row_CacheHit := false;
  row_ReusedFromScanID := None;
  row_CacheKey := "";
  row_ParentSHA256 := "";
  row_MutantsGraded := 0;
  row_MutantsInvalid := 0;
  row_MutantsTimedOut := None;
  row_MutantsDistinct := None;
  row_MutantsDistinctSurvived := None;
  row_RegionsTotal := 0;
  row_RegionsProbed := 0;
  row_DroppedRegions := "";
  row_VacuousFindings := 0;
  row_CriticIncomplete := false;
  row_AuthoredTestNotCollected := false;
  row_BaselineFailed := false;
  row_SuiteBaselineMillis := None;
  row_ProvenMutantIDs := "";
  row_ChallengerJaccard := None;
  row_ChallengerKappa := None;
  row_ChallengerSufficient := None;
  row_ChallengerMutants := None;
  row_ChallengerSurvivedWriter := None;
  row_ChallengerSurvivedShadow := None;
  row_ChallengerUnion := None;
  row_ChallengerShared := None;
  row_PriorsApplied := None;
  row_PriorDigest := "";
  row_ComputedAt := None;
  row_MutantsFrom := "";
  row_GoalsDerived := 0;
  row_GoalReused := None;
  row_SelectionMillis := None;
  row_GenerationMillis := None;
  row_PoolMillis := None;
  row_DevPassMillis := None;
  row_AuthoredPassMillis := None;
  row_CriticMillis := None;
  row_TotalMillis := None;
  row_MutantMillisMedian := None;
  row_MutantMillisMax := None;
  row_AuthoredTest := "";
  row_VerdictJSON := "";
  row_AuthoredLanding := "";
  row_BaselineFlaky := "";
  row_PromptShape := "";
  row_MutantBudget := None;
  row_MutantBudgetRule := "";
  row_Complexity := None;
  row_Symbols := None;
  row_SymbolsProbed := None;
  row_Decisions := None;
  row_DecisionsProbed := None;
  row_MutantsUnplaced := None;
  row_MutantsUnmeasured := None;
  row_MutantsDuplicate := None;
  row_WriterAttempts := "";
  row_CoveringTests := None;
  row_CoveringUnits := None;
  row_ImportOnly := None |}.

Definition Row_json (x : Row) : json := JObj (fields [
  fld "Repo" (JStr x.(row_Repo));
  fld "Commit" (JStr x.(row_Commit));
  fld "Path" (JStr x.(row_Path));
  fld "KillRate" (json_ptr JFloat x.(row_KillRate));
  fld "Survivors" (json_int x.(row_Survivors));
  fld "ProvenMissed" (json_int x.(row_ProvenMissed));
  fld "TimedOut" (JBool x.(row_TimedOut));
  fld "TestWriterFailed" (JBool x.(row_TestWriterFailed));
  fld "PoolTestUnsound" (JBool x.(row_PoolTestUnsound));
  fld "Audited" (json_int x.(row_Audited));
  fld "Candidates" (json_int x.(row_Candidates));
  fld "Lang" (JStr x.(row_Lang));
  fld "MutantsPlanted" (json_int x.(row_MutantsPlanted));
  fld "ModelsByRole" (JStr x.(row_ModelsByRole));
  fld_ne "SeatTools" (JStr x.(row_SeatTools));
  fld "MinKillRate" (json_ptr JFloat x.(row_MinKillRate));
  fld "MaxProvenMissed" (json_ptr json_int x.(row_MaxProvenMissed));
  fld "Passed" (json_ptr JBool x.(row_Passed));
  fld "StartedAt" (json_ptr json_time x.(row_StartedAt));
  fld "StatementSHA256" (JStr x.(row_StatementSHA256));
  fld "RunURL" (JStr x.(row_RunURL));
  fld "TestSelection" (JStr x.(row_TestSelection));
  fld "SelectedTests" (json_int x.(row_SelectedTests));
  fld "SuiteTests" (json_int x.(row_SuiteTests));
  fld "SelectionFallback" (JStr x.(row_SelectionFallback));
  fld_ne "selection_unreported" (json_int x.(row_SelectionUnreported));
  fld_ne "selection_excluded" (json_int x.(row_SelectionExcluded));
  fld_ne "authored_fallback" (JStr x.(row_AuthoredFallback));
  fld_ne "selection_excluded_red" (JStr x.(row_SelectionExcludedRed));
  fld "WriterMode" (JStr x.(row_WriterMode));
  fld "Uncovered" (JBool x.(row_Uncovered));
  fld "PerMutant" (JBool x.(row_PerMutant));
  fld "TestsPerMutant" (json_ptr TestsPerMutantSpread_json x.(row_TestsPerMutant));
  fld "Trees" (json_int x.(row_Trees));
  fld "ConcurrencyNote" (JStr x.(row_ConcurrencyNote));
  fld "SharedDirs" (JStr x.(row_SharedDirs));
  fld "ScanID" (json_int x.(row_ScanID));
  fld "Disposition" (JStr x.(row_Disposition));
  fld "Reason" (JStr x.(row_Reason));
  fld "PreflightState" (JStr x.(row_PreflightState));
  fld "Evidence" (JStr x.(row_Evidence));
  fld "Detail" (JStr x.(row_Detail));
  fld "Status" (JStr x.(row_Status));
  fld "CacheHit" (JBool x.(row_CacheHit));
  fld "ReusedFromScanID" (json_ptr json_int x.(row_ReusedFromScanID));
  fld "CacheKey" (JStr x.(row_CacheKey));
  fld "ParentSHA256" (JStr x.(row_ParentSHA256));
  fld "MutantsGraded" (json_int x.(row_MutantsGraded));
  fld "MutantsInvalid" (json_int x.(row_MutantsInvalid));
  fld "MutantsTimedOut" (json_ptr json_int x.(row_MutantsTimedOut));
  fld_ptr "MutantsDistinct" (json_ptr json_int x.(row_MutantsDistinct));
  fld_ptr "MutantsDistinctSurvived" (json_ptr json_int x.(row_MutantsDistinctSurvived));
  fld "RegionsTotal" (json_int x.(row_RegionsTotal));
  fld "RegionsProbed" (json_int x.(row_RegionsProbed));
  fld "DroppedRegions" (JStr x.(row_DroppedRegions));
  fld "VacuousFindings" (json_int x.(row_VacuousFindings));
  fld_ne "CriticIncomplete" (JBool x.(row_CriticIncomplete));
  fld "AuthoredTestNotCollected" (JBool x.(row_AuthoredTestNotCollected));
  fld "BaselineFailed" (JBool x.(row_BaselineFailed));
  fld "SuiteBaselineMillis" (json_ptr json_int x.(row_SuiteBaselineMillis));
  fld "ProvenMutantIDs" (JStr x.(row_ProvenMutantIDs));
  fld "ChallengerJaccard" (json_ptr JFloat x.(row_ChallengerJaccard));
  fld "ChallengerKappa" (json_ptr JFloat x.(row_ChallengerKappa));
  fld "ChallengerSufficient" (json_ptr JBool x.(row_ChallengerSufficient));
  fld "ChallengerMutants" (json_ptr json_int x.(row_ChallengerMutants));
  fld "ChallengerSurvivedWriter" (json_ptr json_int x.(row_ChallengerSurvivedWriter));
  fld "ChallengerSurvivedShadow" (json_ptr json_int x.(row_ChallengerSurvivedShadow));
  fld "ChallengerUnion" (json_ptr json_int x.(row_ChallengerUnion));
  fld "ChallengerShared" (json_ptr json_int x.(row_ChallengerShared));
  fld "PriorsApplied" (json_ptr json_int x.(row_PriorsApplied));
  fld "PriorDigest" (JStr x.(row_PriorDigest));
  fld "ComputedAt" (json_ptr json_time x.(row_ComputedAt));
  fld "MutantsFrom" (JStr x.(row_MutantsFrom));
  fld "GoalsDerived" (json_int x.(row_GoalsDerived));
  fld "GoalReused" (json_ptr JBool x.(row_GoalReused));
  fld "SelectionMillis" (json_ptr json_int x.(row_SelectionMillis));
  fld "GenerationMillis" (json_ptr json_int x.(row_GenerationMillis));
  fld "PoolMillis" (json_ptr json_int x.(row_PoolMillis));
  fld "DevPassMillis" (json_ptr json_int x.(row_DevPassMillis));
  fld "AuthoredPassMillis" (json_ptr json_int x.(row_AuthoredPassMillis));
  fld "CriticMillis" (json_ptr json_int x.(row_CriticMillis));
  fld "TotalMillis" (json_ptr json_int x.(row_TotalMillis));
  fld "MutantMillisMedian" (json_ptr json_int x.(row_MutantMillisMedian));
  fld "MutantMillisMax" (json_ptr json_int x.(row_MutantMillisMax));
  fld "AuthoredTest" (JStr x.(row_AuthoredTest));
  fld "VerdictJSON" (JStr x.(row_VerdictJSON));
  fld_ne "AuthoredLanding" (JStr x.(row_AuthoredLanding));
  fld_ne "BaselineFlaky" (JStr x.(row_BaselineFlaky));
  fld "PromptShape" (JStr x.(row_PromptShape));
  fld "MutantBudget" (json_ptr json_int x.(row_MutantBudget));
  fld "MutantBudgetRule" (JStr x.(row_MutantBudgetRule));
  fld "Complexity" (json_ptr json_int x.(row_Complexity));
  fld "Symbols" (json_ptr json_int x.(row_Symbols));
  fld "SymbolsProbed" (json_ptr json_int x.(row_SymbolsProbed));
  fld "Decisions" (json_ptr json_int x.(row_Decisions));
  fld "DecisionsProbed" (json_ptr json_int x.(row_DecisionsProbed));
  fld_ptr "MutantsUnplaced" (json_ptr json_int x.(row_MutantsUnplaced));
  fld_ptr "MutantsUnmeasured" (json_ptr json_int x.(row_MutantsUnmeasured));
  fld_ptr "MutantsDuplicate" (json_ptr json_int x.(row_MutantsDuplicate));
  fld_ne "WriterAttempts" (JStr x.(row_WriterAttempts));
  fld "CoveringTests" (json_ptr json_int x.(row_CoveringTests));
  fld_ptr "CoveringUnits" (json_ptr json_int x.(row_CoveringUnits));
  fld "ImportOnly" (json_ptr JBool x.(row_ImportOnly))]).

Record Link := mkLink {
  lk_ScanID : Z;
  lk_StatementSHA256 : string;
  lk_Require : bool }.

Definition zero_Link : Link := {|
  lk_ScanID := 0;
  lk_StatementSHA256 := "";
  lk_Require := false |}.

Definition Link_json (x : Link) : json := JObj (fields [
  fld "ScanID" (json_int x.(lk_ScanID));
  fld "StatementSHA256" (JStr x.(lk_StatementSHA256));
  fld "Require" (JBool x.(lk_Require))]).

Record ScanRow := mkScanRow {
  sr_ScanUID : string;
  sr_Repo : string;
  sr_RunURL : string;
  sr_ScanID : Z;
  sr_Commit : string;
  sr_CorralVersion : string;
  sr_Substrate : string;
  sr_Host : string;
  sr_Cores : Z;
  sr_TreesRequested : Z;
  sr_DiffBase : string;
  sr_Scope : string;
  sr_Candidates : Z;
  sr_Audited : Z;
  sr_Passed : option bool;
  sr_StartedAt : option instant;
  sr_TotalMillis : option Z;
  sr_SelectionMillis : option Z;
  sr_SelectionReused : bool;
  sr_InputTokens : Z;
  sr_OutputTokens : Z;
  sr_ModelCalls : Z;
  sr_SourcePushed : bool;
  sr_StatementSHA256 : string;
  sr_RekorLogIndex : option Z;
  sr_RekorUUID : string;
  sr_PushedBy : string;
  sr_EntryHash : string;
  sr_EngineVersion : string;
  sr_ModelSet : string;
  sr_Top : Z;
  sr_AllCandidates : bool;
  sr_TotalFiles : Z;
  sr_PreflightRan : bool;
  sr_PreflightNote : string;
  sr_FinishedAt : option instant;
  sr_Identity : Identity;
  sr_TreeDirty : option bool;
  sr_RepoIdentity : string;
  sr_SandboxBackend : string;
  sr_SandboxImage : string;
  sr_SeedSkipped : string;
  sr_UnitPass : string;
  sr_TestCommand : string;
  sr_Runner : string;
  sr_Settings : string;
  sr_Toolchains : string;
  sr_LoadStart : option float64;
  sr_LoadEnd : option float64;
  sr_LoadPeak : option float64;
  sr_MemAvailableStartBytes : option Z;
  sr_PeakRSSBytes : option Z;
  sr_CPUMillis : option Z;
  sr_HostNotMeasured : string;
  sr_Inventory : string;
  sr_ShadowDraw : string;
  sr_MaxTokensReached : option bool;
  sr_ToolMutants : string }.

#[export] Instance ScanRow_eq_dec : EqDecision ScanRow.
Proof. solve_decision. Defined.

Definition zero_ScanRow : ScanRow := {|
  sr_ScanUID := "";
  sr_Repo := "";
  sr_RunURL := "";
  sr_ScanID := 0;
  sr_Commit := "";
  sr_CorralVersion := "";
  sr_Substrate := "";
  sr_Host := "";
  sr_Cores := 0;
  sr_TreesRequested := 0;
  sr_DiffBase := "";
  sr_Scope := "";
  sr_Candidates := 0;
  sr_Audited := 0;
  sr_Passed := None;
  sr_StartedAt := None;
  sr_TotalMillis := None;
  sr_SelectionMillis := None;
  sr_SelectionReused := false;
  sr_InputTokens := 0;
  sr_OutputTokens := 0;
  sr_ModelCalls := 0;
  sr_SourcePushed := false;
  sr_StatementSHA256 := "";
  sr_RekorLogIndex := None;
  sr_RekorUUID := "";
  sr_PushedBy := "";
  sr_EntryHash := "";
  sr_EngineVersion := "";
  sr_ModelSet := "";
  sr_Top := 0;
  sr_AllCandidates := false;
  sr_TotalFiles := 0;
  sr_PreflightRan := false;
  sr_PreflightNote := "";
  sr_FinishedAt := None;
  sr_Identity := zero_Identity;
  sr_TreeDirty := None;
  sr_RepoIdentity := "";
  sr_SandboxBackend := "";
  sr_SandboxImage := "";
  sr_SeedSkipped := "";
  sr_UnitPass := "";
  sr_TestCommand := "";
  sr_Runner := "";
  sr_Settings := "";
  sr_Toolchains := "";
  sr_LoadStart := None;
  sr_LoadEnd := None;
  sr_LoadPeak := None;
  sr_MemAvailableStartBytes := None;
  sr_PeakRSSBytes := None;
  sr_CPUMillis := None;
  sr_HostNotMeasured := "";
  sr_Inventory := "";
  sr_ShadowDraw := "";
  sr_MaxTokensReached := None;
  sr_ToolMutants := "" |}.

Definition ScanRow_json (x : ScanRow) : json := JObj (fields [
  fld "ScanUID" (JStr x.(sr_ScanUID));
  fld "Repo" (JStr x.(sr_Repo));
  fld "RunURL" (JStr x.(sr_RunURL));
  fld "ScanID" (json_int x.(sr_ScanID));
  fld "Commit" (JStr x.(sr_Commit));
  fld "CorralVersion" (JStr x.(sr_CorralVersion));
  fld "Substrate" (JStr x.(sr_Substrate));
  fld "Host" (JStr x.(sr_Host));
  fld "Cores" (json_int x.(sr_Cores));
  fld "TreesRequested" (json_int x.(sr_TreesRequested));
  fld "DiffBase" (JStr x.(sr_DiffBase));
  fld "Scope" (JStr x.(sr_Scope));
  fld "Candidates" (json_int x.(sr_Candidates));
  fld "Audited" (json_int x.(sr_Audited));
  fld "Passed" (json_ptr JBool x.(sr_Passed));
  fld "StartedAt" (json_ptr json_time x.(sr_StartedAt));
  fld "TotalMillis" (json_ptr json_int x.(sr_TotalMillis));
  fld "SelectionMillis" (json_ptr json_int x.(sr_SelectionMillis));
  fld "SelectionReused" (JBool x.(sr_SelectionReused));
  fld_ne "InputTokens" (json_int x.(sr_InputTokens));
  fld_ne "OutputTokens" (json_int x.(sr_OutputTokens));
  fld "ModelCalls" (json_int x.(sr_ModelCalls));
  fld "SourcePushed" (JBool x.(sr_SourcePushed));
  fld "StatementSHA256" (JStr x.(sr_StatementSHA256));
  fld "RekorLogIndex" (json_ptr json_int x.(sr_RekorLogIndex));
  fld "RekorUUID" (JStr x.(sr_RekorUUID));
  fld "PushedBy" (JStr x.(sr_PushedBy));
  fld "EntryHash" (JStr x.(sr_EntryHash));
  fld "EngineVersion" (JStr x.(sr_EngineVersion));
  fld "ModelSet" (JStr x.(sr_ModelSet));
  fld "Top" (json_int x.(sr_Top));
  fld "AllCandidates" (JBool x.(sr_AllCandidates));
  fld "TotalFiles" (json_int x.(sr_TotalFiles));
  fld "PreflightRan" (JBool x.(sr_PreflightRan));
  fld "PreflightNote" (JStr x.(sr_PreflightNote));
  fld "FinishedAt" (json_ptr json_time x.(sr_FinishedAt));
  fld "Identity" (Identity_json x.(sr_Identity));
  fld_ptr "TreeDirty" (json_ptr JBool x.(sr_TreeDirty));
  fld_ne "RepoIdentity" (JStr x.(sr_RepoIdentity));
  fld_ne "SandboxBackend" (JStr x.(sr_SandboxBackend));
  fld_ne "SandboxImage" (JStr x.(sr_SandboxImage));
  fld_ne "SeedSkipped" (JStr x.(sr_SeedSkipped));
  fld_ne "UnitPass" (JStr x.(sr_UnitPass));
  fld_ne "TestCommand" (JStr x.(sr_TestCommand));
  fld_ne "Runner" (JStr x.(sr_Runner));
  fld_ne "Settings" (JStr x.(sr_Settings));
  fld_ne "Toolchains" (JStr x.(sr_Toolchains));
  fld_ptr "LoadStart" (json_ptr JFloat x.(sr_LoadStart));
  fld_ptr "LoadEnd" (json_ptr JFloat x.(sr_LoadEnd));
  fld_ptr "LoadPeak" (json_ptr JFloat x.(sr_LoadPeak));
  fld_ptr "MemAvailableStartBytes" (json_ptr json_int x.(sr_MemAvailableStartBytes));
  fld_ptr "PeakRSSBytes" (json_ptr json_int x.(sr_PeakRSSBytes));
  fld_ptr "CPUMillis" (json_ptr json_int x.(sr_CPUMillis));
  fld_ne "HostNotMeasured" (JStr x.(sr_HostNotMeasured));
  fld_ne "Inventory" (JStr x.(sr_Inventory));
  fld_ne "ShadowDraw" (JStr x.(sr_ShadowDraw));
  fld_ptr "MaxTokensReached" (json_ptr JBool x.(sr_MaxTokensReached));
  fld_ne "ToolMutants" (JStr x.(sr_ToolMutants))]).

(** [r.ScanUID = v], [r.PushedBy = v]. *)
Definition with_ScanUID (r : ScanRow) (v : string) : ScanRow := {|
  sr_ScanUID := v; sr_Repo := sr_Repo r; sr_RunURL := sr_RunURL r; sr_ScanID := sr_ScanID r;
  sr_Commit := sr_Commit r; sr_CorralVersion := sr_CorralVersion r;
  sr_Substrate := sr_Substrate r; sr_Host := sr_Host r; sr_Cores := sr_Cores r;
  sr_TreesRequested := sr_TreesRequested r; sr_DiffBase := sr_DiffBase r; sr_Scope := sr_Scope r;
  sr_Candidates := sr_Candidates r; sr_Audited := sr_Audited r; sr_Passed := sr_Passed r;
  sr_StartedAt := sr_StartedAt r; sr_TotalMillis := sr_TotalMillis r;
  sr_SelectionMillis := sr_SelectionMillis r; sr_SelectionReused := sr_SelectionReused r;
  sr_InputTokens := sr_InputTokens r; sr_OutputTokens := sr_OutputTokens r;
  sr_ModelCalls := sr_ModelCalls r; sr_SourcePushed := sr_SourcePushed r;
  sr_StatementSHA256 := sr_StatementSHA256 r; sr_RekorLogIndex := sr_RekorLogIndex r;
  sr_RekorUUID := sr_RekorUUID r; sr_PushedBy := sr_PushedBy r; sr_EntryHash := sr_EntryHash r;
  sr_EngineVersion := sr_EngineVersion r; sr_ModelSet := sr_ModelSet r; sr_Top := sr_Top r;
  sr_AllCandidates := sr_AllCandidates r; sr_TotalFiles := sr_TotalFiles r;
  sr_PreflightRan := sr_PreflightRan r; sr_PreflightNote := sr_PreflightNote r;
  sr_FinishedAt := sr_FinishedAt r; sr_Identity := sr_Identity r; sr_TreeDirty := sr_TreeDirty r;
  sr_RepoIdentity := sr_RepoIdentity r; sr_SandboxBackend := sr_SandboxBackend r;
  sr_SandboxImage := sr_SandboxImage r; sr_SeedSkipped := sr_SeedSkipped r;
  sr_UnitPass := sr_UnitPass r; sr_TestCommand := sr_TestCommand r; sr_Runner := sr_Runner r;
  sr_Settings := sr_Settings r; sr_Toolchains := sr_Toolchains r; sr_LoadStart := sr_LoadStart r;
  sr_LoadEnd := sr_LoadEnd r; sr_LoadPeak := sr_LoadPeak r;
  sr_MemAvailableStartBytes := sr_MemAvailableStartBytes r; sr_PeakRSSBytes := sr_PeakRSSBytes r;
  sr_CPUMillis := sr_CPUMillis r; sr_HostNotMeasured := sr_HostNotMeasured r;
  sr_Inventory := sr_Inventory r; sr_ShadowDraw := sr_ShadowDraw r;
  sr_MaxTokensReached := sr_MaxTokensReached r; sr_ToolMutants := sr_ToolMutants r |}.

Definition with_PushedBy (r : ScanRow) (v : string) : ScanRow := {|
  sr_ScanUID := sr_ScanUID r; sr_Repo := sr_Repo r; sr_RunURL := sr_RunURL r;
  sr_ScanID := sr_ScanID r; sr_Commit := sr_Commit r; sr_CorralVersion := sr_CorralVersion r;
  sr_Substrate := sr_Substrate r; sr_Host := sr_Host r; sr_Cores := sr_Cores r;
  sr_TreesRequested := sr_TreesRequested r; sr_DiffBase := sr_DiffBase r; sr_Scope := sr_Scope r;
  sr_Candidates := sr_Candidates r; sr_Audited := sr_Audited r; sr_Passed := sr_Passed r;
  sr_StartedAt := sr_StartedAt r; sr_TotalMillis := sr_TotalMillis r;
  sr_SelectionMillis := sr_SelectionMillis r; sr_SelectionReused := sr_SelectionReused r;
  sr_InputTokens := sr_InputTokens r; sr_OutputTokens := sr_OutputTokens r;
  sr_ModelCalls := sr_ModelCalls r; sr_SourcePushed := sr_SourcePushed r;
  sr_StatementSHA256 := sr_StatementSHA256 r; sr_RekorLogIndex := sr_RekorLogIndex r;
  sr_RekorUUID := sr_RekorUUID r; sr_PushedBy := v; sr_EntryHash := sr_EntryHash r;
  sr_EngineVersion := sr_EngineVersion r; sr_ModelSet := sr_ModelSet r; sr_Top := sr_Top r;
  sr_AllCandidates := sr_AllCandidates r; sr_TotalFiles := sr_TotalFiles r;
  sr_PreflightRan := sr_PreflightRan r; sr_PreflightNote := sr_PreflightNote r;
  sr_FinishedAt := sr_FinishedAt r; sr_Identity := sr_Identity r; sr_TreeDirty := sr_TreeDirty r;
  sr_RepoIdentity := sr_RepoIdentity r; sr_SandboxBackend := sr_SandboxBackend r;
  sr_SandboxImage := sr_SandboxImage r; sr_SeedSkipped := sr_SeedSkipped r;
  sr_UnitPass := sr_UnitPass r; sr_TestCommand := sr_TestCommand r; sr_Runner := sr_Runner r;
  sr_Settings := sr_Settings r; sr_Toolchains := sr_Toolchains r; sr_LoadStart := sr_LoadStart r;
  sr_LoadEnd := sr_LoadEnd r; sr_LoadPeak := sr_LoadPeak r;
  sr_MemAvailableStartBytes := sr_MemAvailableStartBytes r; sr_PeakRSSBytes := sr_PeakRSSBytes r;
  sr_CPUMillis := sr_CPUMillis r; sr_HostNotMeasured := sr_HostNotMeasured r;
  sr_Inventory := sr_Inventory r; sr_ShadowDraw := sr_ShadowDraw r;
  sr_MaxTokensReached := sr_MaxTokensReached r; sr_ToolMutants := sr_ToolMutants r |}.

Record MutantRow := mkMutantRow {
  mu_Repo : string;
  mu_RunURL : string;
  mu_ScanID : Z;
  mu_Path : string;
  mu_MutantID : string;
  mu_ParentSHA256 : string;
  mu_Outcome : string;
  mu_InvalidReason : string;
  mu_Proven : bool;
  mu_ProvenByAuthoredAlone : bool;
  mu_TestsRun : Z;
  mu_SelectionRule : string;
  mu_DurationMillis : option Z;
  mu_KilledBy : string;
  mu_SpanStart : Z;
  mu_SpanEnd : Z;
  mu_Shape : string;
  mu_GeneratorModel : string;
  mu_Source : string;
  mu_SourceTool : string;
  mu_SourceOperator : string;
  mu_SourceStatus : string;
  mu_KillConfirmation : string;
  mu_UnrepeatedKilledBy : string;
  mu_Code : string;
  mu_StatementSHA256 : string }.

Definition zero_MutantRow : MutantRow := {|
  mu_Repo := "";
  mu_RunURL := "";
  mu_ScanID := 0;
  mu_Path := "";
  mu_MutantID := "";
  mu_ParentSHA256 := "";
  mu_Outcome := "";
  mu_InvalidReason := "";
  mu_Proven := false;
  mu_ProvenByAuthoredAlone := false;
  mu_TestsRun := 0;
  mu_SelectionRule := "";
  mu_DurationMillis := None;
  mu_KilledBy := "";
  mu_SpanStart := 0;
  mu_SpanEnd := 0;
  mu_Shape := "";
  mu_GeneratorModel := "";
  mu_Source := "";
  mu_SourceTool := "";
  mu_SourceOperator := "";
  mu_SourceStatus := "";
  mu_KillConfirmation := "";
  mu_UnrepeatedKilledBy := "";
  mu_Code := "";
  mu_StatementSHA256 := "" |}.

Definition MutantRow_json (x : MutantRow) : json := JObj (fields [
  fld "Repo" (JStr x.(mu_Repo));
  fld "RunURL" (JStr x.(mu_RunURL));
  fld "ScanID" (json_int x.(mu_ScanID));
  fld "Path" (JStr x.(mu_Path));
  fld "MutantID" (JStr x.(mu_MutantID));
  fld "ParentSHA256" (JStr x.(mu_ParentSHA256));
  fld "Outcome" (JStr x.(mu_Outcome));
  fld "InvalidReason" (JStr x.(mu_InvalidReason));
  fld "Proven" (JBool x.(mu_Proven));
  fld "ProvenByAuthoredAlone" (JBool x.(mu_ProvenByAuthoredAlone));
  fld "TestsRun" (json_int x.(mu_TestsRun));
  fld "SelectionRule" (JStr x.(mu_SelectionRule));
  fld "DurationMillis" (json_ptr json_int x.(mu_DurationMillis));
  fld "KilledBy" (JStr x.(mu_KilledBy));
  fld "SpanStart" (json_int x.(mu_SpanStart));
  fld "SpanEnd" (json_int x.(mu_SpanEnd));
  fld "Shape" (JStr x.(mu_Shape));
  fld "GeneratorModel" (JStr x.(mu_GeneratorModel));
  fld_ne "Source" (JStr x.(mu_Source));
  fld_ne "SourceTool" (JStr x.(mu_SourceTool));
  fld_ne "SourceOperator" (JStr x.(mu_SourceOperator));
  fld_ne "SourceStatus" (JStr x.(mu_SourceStatus));
  fld_ne "KillConfirmation" (JStr x.(mu_KillConfirmation));
  fld_ne "UnrepeatedKilledBy" (JStr x.(mu_UnrepeatedKilledBy));
  fld "Code" (JStr x.(mu_Code));
  fld "StatementSHA256" (JStr x.(mu_StatementSHA256))]).

Record ModelCallRow := mkModelCallRow {
  mc_Repo : string;
  mc_RunURL : string;
  mc_ScanID : Z;
  mc_Path : string;
  mc_Role : string;
  mc_Model : string;
  mc_Calls : Z;
  mc_Retries : option Z;
  mc_InputTokens : Z;
  mc_CachedInputTokens : option Z;
  mc_CacheWriteInputTokens : option Z;
  mc_OutputTokens : Z;
  mc_UnmeteredCalls : Z;
  mc_WallMillis : Z;
  mc_CostMicroUSD : option Z;
  mc_CostBasis : string;
  mc_StatementSHA256 : string }.

Definition zero_ModelCallRow : ModelCallRow := {|
  mc_Repo := "";
  mc_RunURL := "";
  mc_ScanID := 0;
  mc_Path := "";
  mc_Role := "";
  mc_Model := "";
  mc_Calls := 0;
  mc_Retries := None;
  mc_InputTokens := 0;
  mc_CachedInputTokens := None;
  mc_CacheWriteInputTokens := None;
  mc_OutputTokens := 0;
  mc_UnmeteredCalls := 0;
  mc_WallMillis := 0;
  mc_CostMicroUSD := None;
  mc_CostBasis := "";
  mc_StatementSHA256 := "" |}.

Definition ModelCallRow_json (x : ModelCallRow) : json := JObj (fields [
  fld "Repo" (JStr x.(mc_Repo));
  fld "RunURL" (JStr x.(mc_RunURL));
  fld "ScanID" (json_int x.(mc_ScanID));
  fld "Path" (JStr x.(mc_Path));
  fld "Role" (JStr x.(mc_Role));
  fld "Model" (JStr x.(mc_Model));
  fld "Calls" (json_int x.(mc_Calls));
  fld "Retries" (json_ptr json_int x.(mc_Retries));
  fld "InputTokens" (json_int x.(mc_InputTokens));
  fld "CachedInputTokens" (json_ptr json_int x.(mc_CachedInputTokens));
  fld "CacheWriteInputTokens" (json_ptr json_int x.(mc_CacheWriteInputTokens));
  fld "OutputTokens" (json_int x.(mc_OutputTokens));
  fld_ne "UnmeteredCalls" (json_int x.(mc_UnmeteredCalls));
  fld "WallMillis" (json_int x.(mc_WallMillis));
  fld_ptr "CostMicroUSD" (json_ptr json_int x.(mc_CostMicroUSD));
  fld_ne "CostBasis" (JStr x.(mc_CostBasis));
  fld "StatementSHA256" (JStr x.(mc_StatementSHA256))]).

Record EventRow := mkEventRow {
  ev_Repo : string;
  ev_RunURL : string;
  ev_ScanID : Z;
  ev_Path : string;
  ev_TS : instant;
  ev_Seq : Z;
  ev_Kind : string;
  ev_Actor : string;
  ev_Subject : string;
  ev_Model : string;
  ev_DurationMillis : option Z;
  ev_Detail : string;
  ev_StatementSHA256 : string }.

Definition zero_EventRow : EventRow := {|
  ev_Repo := "";
  ev_RunURL := "";
  ev_ScanID := 0;
  ev_Path := "";
  ev_TS := zero_time;
  ev_Seq := 0;
  ev_Kind := "";
  ev_Actor := "";
  ev_Subject := "";
  ev_Model := "";
  ev_DurationMillis := None;
  ev_Detail := "";
  ev_StatementSHA256 := "" |}.

Definition EventRow_json (x : EventRow) : json := JObj (fields [
  fld "Repo" (JStr x.(ev_Repo));
  fld "RunURL" (JStr x.(ev_RunURL));
  fld "ScanID" (json_int x.(ev_ScanID));
  fld "Path" (JStr x.(ev_Path));
  fld "TS" (json_time x.(ev_TS));
  fld "Seq" (json_int x.(ev_Seq));
  fld "Kind" (JStr x.(ev_Kind));
  fld "Actor" (JStr x.(ev_Actor));
  fld "Subject" (JStr x.(ev_Subject));
  fld "Model" (JStr x.(ev_Model));
  fld "DurationMillis" (json_ptr json_int x.(ev_DurationMillis));
  fld "Detail" (JStr x.(ev_Detail));
  fld "StatementSHA256" (JStr x.(ev_StatementSHA256))]).

Record SeatRow := mkSeatRow {
  se_Repo : string;
  se_Commit : string;
  se_Path : string;
  se_Model : string;
  se_Role : string;
  se_Catches : Z;
  se_Opportunities : Z;
  se_SoundTests : Z;
  se_AuthoredTests : Z;
  se_CriticFlags : Z;
  se_MutantsPlanted : Z;
  se_MutantsSurvived : Z;
  se_Shard : Z;
  se_Region : string;
  se_RegionComplexity : Z;
  se_RegionLines : Z;
  se_TestComplexity : Z;
  se_ParseRetries : Z;
  se_Dropped : bool;
  se_Shadow : bool;
  se_Lang : string;
  se_ShadowDrawn : bool;
  se_SeatTool : string;
  se_ModelUnresolved : bool }.

Definition zero_SeatRow : SeatRow := {|
  se_Repo := "";
  se_Commit := "";
  se_Path := "";
  se_Model := "";
  se_Role := "";
  se_Catches := 0;
  se_Opportunities := 0;
  se_SoundTests := 0;
  se_AuthoredTests := 0;
  se_CriticFlags := 0;
  se_MutantsPlanted := 0;
  se_MutantsSurvived := 0;
  se_Shard := 0;
  se_Region := "";
  se_RegionComplexity := 0;
  se_RegionLines := 0;
  se_TestComplexity := 0;
  se_ParseRetries := 0;
  se_Dropped := false;
  se_Shadow := false;
  se_Lang := "";
  se_ShadowDrawn := false;
  se_SeatTool := "";
  se_ModelUnresolved := false |}.

Definition SeatRow_json (x : SeatRow) : json := JObj (fields [
  fld "Repo" (JStr x.(se_Repo));
  fld "Commit" (JStr x.(se_Commit));
  fld "Path" (JStr x.(se_Path));
  fld "Model" (JStr x.(se_Model));
  fld "Role" (JStr x.(se_Role));
  fld "Catches" (json_int x.(se_Catches));
  fld "Opportunities" (json_int x.(se_Opportunities));
  fld "SoundTests" (json_int x.(se_SoundTests));
  fld "AuthoredTests" (json_int x.(se_AuthoredTests));
  fld "CriticFlags" (json_int x.(se_CriticFlags));
  fld "MutantsPlanted" (json_int x.(se_MutantsPlanted));
  fld "MutantsSurvived" (json_int x.(se_MutantsSurvived));
  fld "Shard" (json_int x.(se_Shard));
  fld "Region" (JStr x.(se_Region));
  fld "RegionComplexity" (json_int x.(se_RegionComplexity));
  fld "RegionLines" (json_int x.(se_RegionLines));
  fld "TestComplexity" (json_int x.(se_TestComplexity));
  fld "ParseRetries" (json_int x.(se_ParseRetries));
  fld "Dropped" (JBool x.(se_Dropped));
  fld "Shadow" (JBool x.(se_Shadow));
  fld "Lang" (JStr x.(se_Lang));
  fld "ShadowDrawn" (JBool x.(se_ShadowDrawn));
  fld "SeatTool" (JStr x.(se_SeatTool));
  fld "ModelUnresolved" (JBool x.(se_ModelUnresolved))]).

Record MutantAttemptRow := mkMutantAttemptRow {
  ma_Repo : string;
  ma_Commit : string;
  ma_Path : string;
  ma_MutantID : string;
  ma_Model : string;
  ma_Role : string;
  ma_Shadow : bool;
  ma_Outcome : string }.

Definition zero_MutantAttemptRow : MutantAttemptRow := {|
  ma_Repo := "";
  ma_Commit := "";
  ma_Path := "";
  ma_MutantID := "";
  ma_Model := "";
  ma_Role := "";
  ma_Shadow := false;
  ma_Outcome := "" |}.

Definition MutantAttemptRow_json (x : MutantAttemptRow) : json := JObj (fields [
  fld "Repo" (JStr x.(ma_Repo));
  fld "Commit" (JStr x.(ma_Commit));
  fld "Path" (JStr x.(ma_Path));
  fld "MutantID" (JStr x.(ma_MutantID));
  fld "Model" (JStr x.(ma_Model));
  fld "Role" (JStr x.(ma_Role));
  fld "Shadow" (JBool x.(ma_Shadow));
  fld "Outcome" (JStr x.(ma_Outcome))]).

Record CriticFindingRow := mkCriticFindingRow {
  cf_Repo : string;
  cf_Commit : string;
  cf_Path : string;
  cf_QueueFindingID : Z;
  cf_Model : string;
  cf_TargetTest : string;
  cf_TestFile : string;
  cf_TestSelector : string;
  cf_Scope : string;
  cf_Evidence : string;
  cf_Severity : string;
  cf_Adjudication : string;
  cf_Source : string;
  cf_SeatTool : string;
  cf_ModelUnresolved : bool }.

Definition zero_CriticFindingRow : CriticFindingRow := {|
  cf_Repo := "";
  cf_Commit := "";
  cf_Path := "";
  cf_QueueFindingID := 0;
  cf_Model := "";
  cf_TargetTest := "";
  cf_TestFile := "";
  cf_TestSelector := "";
  cf_Scope := "";
  cf_Evidence := "";
  cf_Severity := "";
  cf_Adjudication := "";
  cf_Source := "";
  cf_SeatTool := "";
  cf_ModelUnresolved := false |}.

Definition CriticFindingRow_json (x : CriticFindingRow) : json := JObj (fields [
  fld "Repo" (JStr x.(cf_Repo));
  fld "Commit" (JStr x.(cf_Commit));
  fld "Path" (JStr x.(cf_Path));
  fld "QueueFindingID" (json_int x.(cf_QueueFindingID));
  fld "Model" (JStr x.(cf_Model));
  fld "TargetTest" (JStr x.(cf_TargetTest));
  fld "TestFile" (JStr x.(cf_TestFile));
  fld "TestSelector" (JStr x.(cf_TestSelector));
  fld "Scope" (JStr x.(cf_Scope));
  fld "Evidence" (JStr x.(cf_Evidence));
  fld "Severity" (JStr x.(cf_Severity));
  fld "Adjudication" (JStr x.(cf_Adjudication));
  fld "Source" (JStr x.(cf_Source));
  fld "SeatTool" (JStr x.(cf_SeatTool));
  fld "ModelUnresolved" (JBool x.(cf_ModelUnresolved))]).

Record Bundle := mkBundle {
  b_Scan : ScanRow;
  b_Files : list Row;
  b_Mutants : list MutantRow;
  b_Calls : list ModelCallRow;
  b_Events : list EventRow;
  b_Seats : list SeatRow;
  b_MutantAttempts : list MutantAttemptRow;
  b_CriticFindings : list CriticFindingRow;
  b_Link : Link;
  b_SourcePushed : bool }.

Definition zero_Bundle : Bundle := {|
  b_Scan := zero_ScanRow;
  b_Files := [];
  b_Mutants := [];
  b_Calls := [];
  b_Events := [];
  b_Seats := [];
  b_MutantAttempts := [];
  b_CriticFindings := [];
  b_Link := zero_Link;
  b_SourcePushed := false |}.

Definition Bundle_json (x : Bundle) : json := JObj (fields [
  fld "Scan" (ScanRow_json x.(b_Scan));
  fld "Files" (json_slice Row_json x.(b_Files));
  fld "Mutants" (json_slice MutantRow_json x.(b_Mutants));
  fld "Calls" (json_slice ModelCallRow_json x.(b_Calls));
  fld "Events" (json_slice EventRow_json x.(b_Events));
  fld_ptr "Seats" (json_slice SeatRow_json x.(b_Seats));
  fld_ptr "MutantAttempts" (json_slice MutantAttemptRow_json x.(b_MutantAttempts));
  fld_ptr "CriticFindings" (json_slice CriticFindingRow_json x.(b_CriticFindings));
  fld "Link" (Link_json x.(b_Link));
  fld "SourcePushed" (JBool x.(b_SourcePushed))]).

Record Counts := mkCounts {
  ct_Scans : Z;
  ct_Files : Z;
  ct_Mutants : Z;
  ct_Calls : Z;
  ct_Events : Z;
  ct_Entry : string;
  ct_KeyID : string }.

Definition zero_Counts : Counts := {|
  ct_Scans := 0;
  ct_Files := 0;
  ct_Mutants := 0;
  ct_Calls := 0;
  ct_Events := 0;
  ct_Entry := "";
  ct_KeyID := "" |}.

(** [id == Identity{}]. *)
Definition Identity_IsZero (id : Identity) : bool := bool_decide (id = zero_Identity).

Definition CoAuthorList (id : Identity) : list string :=
  omap (λ n, let n := trim_space n in if String.eqb n "" then None else Some n)
    (split_on newline (id_CoAuthors id)).

(** [Counts.Total]. *)
Definition Counts_Total (c : Counts) : Z :=
  ct_Scans c + ct_Files c + ct_Mutants c + ct_Calls c + ct_Events c.
