(* ===== verification/Entry.v ===== *)
(** * Ledger entries: internal/ledger/entry.go, signer.go's payloads, reviewrecord

    The entry and the payload of each kind, how an entry's bytes are hashed
    ([EntryHash]), and the scan's derived identity ([ScanUID]). *)
From S2P Require Import Prelude GoLib Crypto JsonText Json Canonical Rows.
Local Open Scope string_scope.
Local Open Scope list_scope.
Local Open Scope Z_scope.
Local Open Scope corral_scope.

(** ** The data *)

Record Refutation := mkRefutation {
  rf_Model : string;
  rf_Verdict : string;
  rf_Argument : string;
  rf_Declared : string;
  rf_Tier : string;
  rf_Script : string;
  rf_Stdout : string;
  rf_ExitCode : option Z;
  rf_Demoted : string;
  rf_Unrun : string }.

Definition zero_Refutation : Refutation := {|
  rf_Model := "";
  rf_Verdict := "";
  rf_Argument := "";
  rf_Declared := "";
  rf_Tier := "";
  rf_Script := "";
  rf_Stdout := "";
  rf_ExitCode := None;
  rf_Demoted := "";
  rf_Unrun := "" |}.

Definition Refutation_json (x : Refutation) : json := JObj (fields [
  fld "model" (JStr x.(rf_Model));
  fld "verdict" (JStr x.(rf_Verdict));
  fld "argument" (JStr x.(rf_Argument));
  fld_ne "declared" (JStr x.(rf_Declared));
  fld_ne "tier" (JStr x.(rf_Tier));
  fld_ne "script" (JStr x.(rf_Script));
  fld_ne "stdout" (JStr x.(rf_Stdout));
  fld_ptr "exit_code" (json_ptr json_int x.(rf_ExitCode));
  fld_ne "demoted" (JStr x.(rf_Demoted));
  fld_ne "unrun" (JStr x.(rf_Unrun))]).

Record Finding := mkFinding {
  fi_ID : string;
  fi_Claim : string;
  fi_Declared : string;
  fi_Tier : string;
  fi_File : string;
  fi_Line : Z;
  fi_Severity : string;
  fi_Script : string;
  fi_Stdout : string;
  fi_ExitCode : option Z;
  fi_Demoted : string;
  fi_Unrun : string;
  fi_Refutation : option Refutation }.

Definition zero_Finding : Finding := {|
  fi_ID := "";
  fi_Claim := "";
  fi_Declared := "";
  fi_Tier := "";
  fi_File := "";
  fi_Line := 0;
  fi_Severity := "";
  fi_Script := "";
  fi_Stdout := "";
  fi_ExitCode := None;
  fi_Demoted := "";
  fi_Unrun := "";
  fi_Refutation := None |}.

Definition Finding_json (x : Finding) : json := JObj (fields [
  fld "id" (JStr x.(fi_ID));
  fld "claim" (JStr x.(fi_Claim));
  fld "declared" (JStr x.(fi_Declared));
  fld "tier" (JStr x.(fi_Tier));
  fld_ne "file" (JStr x.(fi_File));
  fld_ne "line" (json_int x.(fi_Line));
  fld_ne "severity" (JStr x.(fi_Severity));
  fld_ne "script" (JStr x.(fi_Script));
  fld_ne "stdout" (JStr x.(fi_Stdout));
  fld_ptr "exit_code" (json_ptr json_int x.(fi_ExitCode));
  fld_ne "demoted" (JStr x.(fi_Demoted));
  fld_ne "unrun" (JStr x.(fi_Unrun));
  fld_ptr "refutation" (json_ptr Refutation_json x.(fi_Refutation))]).

Record Review := mkReview {
  rv_Repo : string;
  rv_Commit : string;
  rv_Author : string;
  rv_Committer : string;
  rv_CoAuthors : string;
  rv_GeneratedWith : string;
  rv_Scope : string;
  rv_ReviewerModel : string;
  rv_ReviewerTool : string;
  rv_VerifierTool : string;
  rv_ReviewerModelResolved : bool;
  rv_VerifierModelResolved : bool;
  rv_Lang : string;
  rv_VerifierModel : string;
  rv_VerifierOpinion : string;
  rv_VerifierNote : string;
  rv_Substrate : string;
  rv_StartedAt : instant;
  rv_Findings : list Finding;
  rv_Sound : list string;
  rv_Opinion : string;
  rv_FilesShown : list string;
  rv_BytesShown : Z;
  rv_Truncated : bool;
  rv_InputTokens : Z;
  rv_OutputTokens : Z;
  rv_Calls : Z;
  rv_UnmeteredCalls : Z;
  rv_Coverage : string;
  rv_StatementSHA256 : string }.

Definition zero_Review : Review := {|
  rv_Repo := "";
  rv_Commit := "";
  rv_Author := "";
  rv_Committer := "";
  rv_CoAuthors := "";
  rv_GeneratedWith := "";
  rv_Scope := "";
  rv_ReviewerModel := "";
  rv_ReviewerTool := "";
  rv_VerifierTool := "";
  rv_ReviewerModelResolved := false;
  rv_VerifierModelResolved := false;
  rv_Lang := "";
  rv_VerifierModel := "";
  rv_VerifierOpinion := "";
  rv_VerifierNote := "";
  rv_Substrate := "";
  rv_StartedAt := zero_time;
  rv_Findings := [];
  rv_Sound := [];
  rv_Opinion := "";
  rv_FilesShown := [];
  rv_BytesShown := 0;
  rv_Truncated := false;
  rv_InputTokens := 0;
  rv_OutputTokens := 0;
  rv_Calls := 0;
  rv_UnmeteredCalls := 0;
  rv_Coverage := "";
  rv_StatementSHA256 := "" |}.

Definition Review_json (x : Review) : json := JObj (fields [
  fld "repo" (JStr x.(rv_Repo));
  fld "commit" (JStr x.(rv_Commit));
  fld_ne "author" (JStr x.(rv_Author));
  fld_ne "committer" (JStr x.(rv_Committer));
  fld_ne "co_authors" (JStr x.(rv_CoAuthors));
  fld_ne "generated_with" (JStr x.(rv_GeneratedWith));
  fld "scope" (JStr x.(rv_Scope));
  fld "reviewer_model" (JStr x.(rv_ReviewerModel));
  fld_ne "reviewer_tool" (JStr x.(rv_ReviewerTool));
  fld_ne "verifier_tool" (JStr x.(rv_VerifierTool));
  fld_ne "reviewer_model_resolved" (JBool x.(rv_ReviewerModelResolved));
  fld_ne "verifier_model_resolved" (JBool x.(rv_VerifierModelResolved));
  fld_ne "lang" (JStr x.(rv_Lang));
  fld_ne "verifier_model" (JStr x.(rv_VerifierModel));
  fld_ne "verifier_opinion" (JStr x.(rv_VerifierOpinion));
  fld_ne "verifier_note" (JStr x.(rv_VerifierNote));
  fld "substrate" (JStr x.(rv_Substrate));
  fld "started_at" (json_time x.(rv_StartedAt));
  fld "findings" (json_slice Finding_json x.(rv_Findings));
  fld "sound" (json_slice JStr x.(rv_Sound));
  fld "opinion" (JStr x.(rv_Opinion));
  fld "files_shown" (json_slice JStr x.(rv_FilesShown));
  fld "bytes_shown" (json_int x.(rv_BytesShown));
  fld_ne "truncated" (JBool x.(rv_Truncated));
  fld_ne "input_tokens" (json_int x.(rv_InputTokens));
  fld_ne "output_tokens" (json_int x.(rv_OutputTokens));
  fld_ne "calls" (json_int x.(rv_Calls));
  fld_ne "unmetered_calls" (json_int x.(rv_UnmeteredCalls));
  fld_ne "coverage" (JStr x.(rv_Coverage));
  fld_ne "statement_sha256" (JStr x.(rv_StatementSHA256))]).

Record PinnedWorkflow := mkPinnedWorkflow {
  pw_Workflow : string;
  pw_Ref : string }.

Definition zero_PinnedWorkflow : PinnedWorkflow := {|
  pw_Workflow := "";
  pw_Ref := "" |}.

Definition PinnedWorkflow_json (x : PinnedWorkflow) : json := JObj (fields [
  fld "workflow" (JStr x.(pw_Workflow));
  fld "ref" (JStr x.(pw_Ref))]).

Record KeylessPin := mkKeylessPin {
  kp_RepoID : string;
  kp_Allow : list PinnedWorkflow }.

Definition zero_KeylessPin : KeylessPin := {|
  kp_RepoID := "";
  kp_Allow := [] |}.

Definition KeylessPin_json (x : KeylessPin) : json := JObj (fields [
  fld "repo_id" (JStr x.(kp_RepoID));
  fld "allow" (json_slice PinnedWorkflow_json x.(kp_Allow))]).

Record SignerKey := mkSignerKey {
  sk_KeyID : string;
  sk_PubKey : string;
  sk_Name : string }.

#[export] Instance SignerKey_eq_dec : EqDecision SignerKey.
Proof. solve_decision. Defined.

Definition zero_SignerKey : SignerKey := {|
  sk_KeyID := "";
  sk_PubKey := "";
  sk_Name := "" |}.

Definition SignerKey_json (x : SignerKey) : json := JObj (fields [
  fld "keyid" (JStr x.(sk_KeyID));
  fld "pubkey" (JStr x.(sk_PubKey));
  fld "name" (JStr x.(sk_Name))]).

Record SignerChange := mkSignerChange {
  sc_Action : string;
  sc_KeyID : string;
  sc_PubKey : string;
  sc_Name : string;
  sc_Reason : string;
  sc_KeylessPin : option KeylessPin }.

Definition zero_SignerChange : SignerChange := {|
  sc_Action := "";
  sc_KeyID := "";
  sc_PubKey := "";
  sc_Name := "";
  sc_Reason := "";
  sc_KeylessPin := None |}.

Definition SignerChange_json (x : SignerChange) : json := JObj (fields [
  fld "action" (JStr x.(sc_Action));
  fld "keyid" (JStr x.(sc_KeyID));
  fld "pubkey" (JStr x.(sc_PubKey));
  fld "name" (JStr x.(sc_Name));
  fld_ne "reason" (JStr x.(sc_Reason));
  fld_ptr "keyless_pin" (json_ptr KeylessPin_json x.(sc_KeylessPin))]).

Record Adjudication := mkAdjudication {
  adj_Adjudicates : string;
  adj_Verdict : string;
  adj_By : string;
  adj_Reason : string }.

Definition zero_Adjudication : Adjudication := {|
  adj_Adjudicates := "";
  adj_Verdict := "";
  adj_By := "";
  adj_Reason := "" |}.

Definition Adjudication_json (x : Adjudication) : json := JObj (fields [
  fld "adjudicates" (JStr x.(adj_Adjudicates));
  fld "verdict" (JStr x.(adj_Verdict));
  fld "by" (JStr x.(adj_By));
  fld "reason" (JStr x.(adj_Reason))]).

Record Checkpoint := mkCheckpoint {
  cp_Head : string;
  cp_Entries : Z;
  cp_Through : instant;
  cp_Signers : list SignerKey }.

Definition zero_Checkpoint : Checkpoint := {|
  cp_Head := "";
  cp_Entries := 0;
  cp_Through := zero_time;
  cp_Signers := [] |}.

Definition Checkpoint_json (x : Checkpoint) : json := JObj (fields [
  fld "head" (JStr x.(cp_Head));
  fld "entries" (json_int x.(cp_Entries));
  fld "through" (json_time x.(cp_Through));
  fld_ptr "signers" (json_slice SignerKey_json x.(cp_Signers))]).

Record Entry := mkEntry {
  e_Format : string;
  e_Kind : string;
  e_Pushed : instant;
  e_ScanUID : string;
  e_Prev : string;
  e_Bundle : Bundle;
  e_Retracts : string;
  e_Reason : string;
  e_Checkpoint : option Checkpoint;
  e_Review : option Review;
  e_Adjudication : option Adjudication;
  e_Signer : option SignerChange;
  e_Hash : string;
  e_KeyID : string;
  e_Signature : string;
  e_Sigstore : bytes;
  e_Raw : option bytes;
  e_File : string }.

Definition zero_Entry : Entry := {|
  e_Format := "";
  e_Kind := "";
  e_Pushed := zero_time;
  e_ScanUID := "";
  e_Prev := "";
  e_Bundle := zero_Bundle;
  e_Retracts := "";
  e_Reason := "";
  e_Checkpoint := None;
  e_Review := None;
  e_Adjudication := None;
  e_Signer := None;
  e_Hash := "";
  e_KeyID := "";
  e_Signature := "";
  e_Sigstore := "";
  e_Raw := None;
  e_File := "" |}.

Definition Entry_json (x : Entry) : json := JObj (fields [
  fld "format" (JStr x.(e_Format));
  fld_ne "kind" (JStr x.(e_Kind));
  fld "pushed" (json_time x.(e_Pushed));
  fld "scan_uid" (JStr x.(e_ScanUID));
  fld_ne "prev" (JStr x.(e_Prev));
  fld "bundle" (Bundle_json x.(e_Bundle));
  fld_ne "retracts" (JStr x.(e_Retracts));
  fld_ne "reason" (JStr x.(e_Reason));
  fld_ptr "checkpoint" (json_ptr Checkpoint_json x.(e_Checkpoint));
  fld_ptr "review" (json_ptr Review_json x.(e_Review));
  fld_ptr "adjudication" (json_ptr Adjudication_json x.(e_Adjudication));
  fld_ptr "signer" (json_ptr SignerChange_json x.(e_Signer));
  fld_ne "hash" (JStr x.(e_Hash));
  fld_ne "keyid" (JStr x.(e_KeyID));
  fld_ne "signature" (JStr x.(e_Signature));
  (if String.eqb x.(e_Sigstore) "" then [] else fld "sigstore" (raw_json x.(e_Sigstore)))]).

(** ** Kinds and formats *)

Definition KindScan : string := "".
Definition KindRetract : string := "retract".
Definition KindCheckpoint : string := "checkpoint".
Definition KindReview : string := "review".
Definition KindAdjudication : string := "adjudication".
Definition KindSigner : string := "signer".
Definition VerdictConfirmed : string := "confirmed".
Definition VerdictRefuted : string := "refuted".

Definition FileFormat : string := "corral-ledger-5".
Definition Format6 : string := "corral-ledger-6".
Definition Format4 : string := "corral-ledger-4".
Definition Format3 : string := "corral-ledger-3".
Definition Format2 : string := "corral-ledger-2".

Definition KindIs (e : Entry) (k : string) : bool := String.eqb (e_Kind e) k.
Definition IsScan (e : Entry) : bool := KindIs e KindScan.

Definition KnownFormat (f : string) : bool :=
  String.eqb f Format6 || String.eqb f FileFormat || String.eqb f Format4
  || String.eqb f Format3 || String.eqb f Format2.

(** Does the format cover keyid in the hashed bytes? *)
Definition KeyIDIsHashed (format : string) : bool :=
  negb (String.eqb format Format3) && negb (String.eqb format Format2).

(** Split "<review entry hash>#<finding id>" at the first '#'. *)
Definition CutRef (ref : string) : string * string * bool := cut "#" ref.

(** ** Field updates *)

(** The entry with its hash, keyid, signature and Sigstore bundle set. *)
Definition with_seal (e : Entry) (hash keyid signature : string) (sigstore : bytes) : Entry := {|
  e_Format := e_Format e; e_Kind := e_Kind e; e_Pushed := e_Pushed e; e_ScanUID := e_ScanUID e;
  e_Prev := e_Prev e; e_Bundle := e_Bundle e; e_Retracts := e_Retracts e;
  e_Reason := e_Reason e; e_Checkpoint := e_Checkpoint e; e_Review := e_Review e;
  e_Adjudication := e_Adjudication e; e_Signer := e_Signer e; e_Hash := hash;
  e_KeyID := keyid; e_Signature := signature; e_Sigstore := sigstore;
  e_Raw := e_Raw e; e_File := e_File e |}.

(** The entry with where it was read from set ([e.Raw, e.File = raw, name]). *)
Definition with_source (e : Entry) (raw : option bytes) (name : string) : Entry := {|
  e_Format := e_Format e; e_Kind := e_Kind e; e_Pushed := e_Pushed e; e_ScanUID := e_ScanUID e;
  e_Prev := e_Prev e; e_Bundle := e_Bundle e; e_Retracts := e_Retracts e;
  e_Reason := e_Reason e; e_Checkpoint := e_Checkpoint e; e_Review := e_Review e;
  e_Adjudication := e_Adjudication e; e_Signer := e_Signer e; e_Hash := e_Hash e;
  e_KeyID := e_KeyID e; e_Signature := e_Signature e; e_Sigstore := e_Sigstore e;
  e_Raw := raw; e_File := name |}.

(** ** EntryHash *)

Section Hash.
Context {ft : FloatText} {dg : Digest}.

Definition EntryHash (e : Entry) : option string :=
  if String.eqb (e_Format e) Format2 then
    js ← CanonicalSparseJSON (Entry_json (with_source (with_seal e "" "" "" "") None (e_File e)));
    Some (hex_encode (sha256 js))
  else
    raw ← match e_Raw e with
          | Some raw => Some raw
          | None =>
              let keyid := if KeyIDIsHashed (e_Format e) then e_KeyID e else "" in
              marshal (Entry_json (with_seal e "" keyid "" ""))
          end;
    js ← canonicalEntryBytes raw (KeyIDIsHashed (e_Format e));
    Some (hex_encode (sha256 js)).

(** ** ScanUID *)

Definition scan_uid_fields (r : ScanRow) (ts : instant) : list string :=
  [sr_Repo r; sr_RunURL r; sr_Host r; sr_CorralVersion r; sr_Commit r; sr_Substrate r;
   format_int (sr_ScanID r); time_text ts].

(** ["%d:%s|"], per field. *)
Definition length_prefixed (f : string) : string :=
  format_int (Z.of_nat (String.length f)) +:+ ":" +:+ f +:+ "|".

Definition ScanUID (r : ScanRow) (ts : instant) : string :=
  take_str 32 (hex_encode (sha256 (concat_str (map length_prefixed (scan_uid_fields r ts))))).

(** ** What the hash covers *)

(** An entry as a reader holds it: its bytes kept. *)
Definition hashed_tree (e : Entry) : option json :=
  raw ← e_Raw e; entry_tree raw (KeyIDIsHashed (e_Format e)).

Lemma EntryHash_read e :
  e_Format e ≠ Format2 → is_Some (e_Raw e) →
  EntryHash e = (λ t, hex_encode (sha256 (encode t))) <$> hashed_tree e.
Proof.
  intros Hf [raw Hr]. unfold EntryHash, hashed_tree. rewrite Hr.
  apply String.eqb_neq in Hf. rewrite Hf. cbn. rewrite canonicalEntryBytes_eq.
  by destruct (entry_tree raw (KeyIDIsHashed (e_Format e))).
Qed.

Lemma EntryHash_64 e h : EntryHash e = Some h → String.length h = 64%nat.
Proof.
  unfold EntryHash. destruct (String.eqb (e_Format e) Format2).
  - destruct (CanonicalSparseJSON _) as [js|]; [|done]. cbn. intros [= <-].
    apply length_hex_sha256.
  - destruct (match e_Raw e with Some raw => _ | None => _ end) as [raw|]; [|done]. cbn.
    destruct (canonicalEntryBytes _ _) as [js|]; [|done]. cbn. intros [= <-].
    apply length_hex_sha256.
Qed.

(** The members of an entry's document: what every seal covers, then the seal. *)
Definition covered_members (e : Entry) : list (string * json) :=
  match Entry_json (with_seal e "" "" "" "") with JObj m => m | _ => [] end.

Definition seal_members (e : Entry) : list (string * json) :=
  fields [fld_ne "hash" (JStr (e_Hash e)); fld_ne "keyid" (JStr (e_KeyID e));
          fld_ne "signature" (JStr (e_Signature e));
          if String.eqb (e_Sigstore e) "" then [] else fld "sigstore" (raw_json (e_Sigstore e))].

Lemma Entry_json_members e : Entry_json e = JObj (covered_members e ++ seal_members e).
Proof.
  unfold covered_members, seal_members, Entry_json, fields. cbn [List.concat].
  cbn [with_seal e_Format e_Kind e_Pushed e_ScanUID e_Prev e_Bundle e_Retracts e_Reason
       e_Checkpoint e_Review e_Adjudication e_Signer e_Hash e_KeyID e_Signature e_Sigstore].
  cbn [fld_ne String.eqb]. by rewrite !app_nil_r, <- !app_assoc.
Qed.

Lemma fld_ne_str k s : fld_ne k (JStr s) = if String.eqb s "" then [] else [(k, JStr s)].
Proof. by destruct s. Qed.

(** What stripping leaves of the seal: the keyid, when the format hashes it. *)
Lemma strip_seal keep e :
  strip_entry keep (map read_member (seal_members e)) =
    if keep then map read_member (fld_ne "keyid" (JStr (e_KeyID e))) else [].
Proof.
  unfold seal_members, fields, fld. cbn [List.concat]. rewrite !fld_ne_str.
  destruct (String.eqb (e_Hash e) ""), (String.eqb (e_KeyID e) ""),
    (String.eqb (e_Signature e) ""), (String.eqb (e_Sigstore e) ""), keep; reflexivity.
Qed.

(** The hash of a sealed entry read back from bytes that decode as its own. *)
Lemma EntryHash_sealed e h hash keyid signature sigstore raw raw' name :
  e_Format e ≠ Format2 →
  (KeyIDIsHashed (e_Format e) = true → keyid = e_KeyID e) →
  EntryHash (with_source e None "") = Some h →
  let sealed := with_seal e hash keyid signature sigstore in
  marshal (Entry_json sealed) = Some raw →
  nests_within (Z.to_nat max_nesting) (Entry_json sealed) = true →
  decode_any raw' = decode_any raw →
  EntryHash (with_source sealed (Some raw') name) = Some h.
Proof.
  intros Hf Hk Hh sealed Hm Hd Hraw.
  rewrite EntryHash_read by (done || by eexists). unfold hashed_tree.
  cbn [with_source e_Raw e_Format with_seal]. unfold sealed at 1. cbn [mbind option_bind e_Format with_seal].
  rewrite (entry_tree_decode raw' raw) by done. clear Hraw.
  unfold EntryHash in Hh. cbn [with_source e_Raw e_Format e_KeyID] in Hh.
  pose proof (proj2 (String.eqb_neq _ _) Hf) as Ef. rewrite Ef in Hh.
  set (keep := KeyIDIsHashed (e_Format e)) in *.
  set (clear := with_seal (with_source e None "") "" (if keep then e_KeyID e else "") "" "") in *.
  unfold marshal in Hm, Hh. rewrite Entry_json_members in Hm, Hd.
  rewrite (Entry_json_members clear) in Hh.
  destruct (marshalable (JObj (covered_members sealed ++ seal_members sealed))) eqn:M1; [|done].
  apply (inj Some) in Hm. subst raw.
  destruct (marshalable (JObj (covered_members clear ++ seal_members clear))) eqn:M2; [|done].
  cbn [mbind option_bind] in Hh. rewrite canonicalEntryBytes_eq in Hh.
  assert (D2 : nests_within (Z.to_nat max_nesting)
                 (JObj (covered_members clear ++ seal_members clear)) = true).
  { change (Z.to_nat max_nesting) with (S (Z.to_nat (max_nesting - 1))) in *.
    cbn [nests_within] in *. rewrite forallb_app in *. bools.
    change (covered_members clear) with (covered_members sealed). rewrite H.
    unfold seal_members, clear. cbn [with_seal e_Hash e_KeyID e_Signature e_Sigstore].
    rewrite !fld_ne_str. by destruct keep, (String.eqb (e_KeyID e) ""). }
  rewrite entry_tree_encode in Hh by done. rewrite entry_tree_encode by done.
  rewrite map_app, strip_entry_app, strip_seal in *.
  change (covered_members clear) with (covered_members sealed) in Hh.
  cbn [fmap option_fmap option_map mbind option_bind] in Hh. rewrite <- Hh.
  cbn [fmap option_fmap option_map]. do 6 f_equal.
  destruct keep; [|done]. cbn. by rewrite (Hk eq_refl).
Qed.

(** What the writer hashed is what every reader re-hashes: filling in the
    hash, the signature and the Sigstore bundle (and, before format 4, the
    keyid), writing the entry out and reading its bytes back gives the hash
    computed before they were known. *)
Theorem EntryHash_seal e h hash keyid signature sigstore raw name :
  e_Format e ≠ Format2 →
  (KeyIDIsHashed (e_Format e) = true → keyid = e_KeyID e) →
  EntryHash (with_source e None "") = Some h →
  let sealed := with_seal e hash keyid signature sigstore in
  marshal (Entry_json sealed) = Some raw →
  nests_within (Z.to_nat max_nesting) (Entry_json sealed) = true →
  EntryHash (with_source sealed (Some raw) name) = Some h.
Proof. intros. by eapply EntryHash_sealed. Qed.

(** The bytes an entry's hash is the digest of. *)
Definition hashed_bytes (e : Entry) : option bytes := encode <$> hashed_tree e.

(** What an entry's hash covers: two entries read from disk (format 3 on)
    with the same hash say the same thing, key by key, outside the hash,
    signature and sigstore keys (and keyid before format 4); or the bytes hashed clash. *)
Lemma EntryHash_binds e1 e2 h :
  e_Format e1 ≠ Format2 → e_Format e2 ≠ Format2 →
  is_Some (e_Raw e1) → is_Some (e_Raw e2) →
  EntryHash e1 = Some h → EntryHash e2 = Some h →
  (∃ t, hashed_tree e1 = Some t ∧ hashed_tree e2 = Some t) ∨
  ∃ x y, hashed_bytes e1 = Some x ∧ hashed_bytes e2 = Some y ∧ clash x y.
Proof.
  intros F1 F2 R1 R2. rewrite !EntryHash_read by done.
  unfold hashed_bytes, hashed_tree. destruct R1 as [raw1 ->], R2 as [raw2 ->]. cbn.
  destruct (entry_tree raw1 _) as [t1|] eqn:E1; [|done].
  destruct (entry_tree raw2 _) as [t2|] eqn:E2; [|done]. cbn.
  intros [= <-] [= E]. symmetry in E. apply hex_sha256_inj_or in E as [E|]; [left|right; by do 2 eexists].
  apply entry_tree_ok in E1 as [[H1 _] _], E2 as [[H2 _] _].
  exists t1. split; [done|]. f_equal. symmetry. by apply encode_inj.
Qed.
End Hash.

(** ** The scan identity *)

Lemma length_prefixed_inj f1 f2 r1 r2 :
  length_prefixed f1 +:+ r1 = length_prefixed f2 +:+ r2 → f1 = f2 ∧ r1 = r2.
Proof.
  unfold length_prefixed. rewrite !app_str_assoc. cbn [String.append].
  change (":" +:+ ?x) with (String ":" x).
  intros H. apply (f_equal (cut ":")) in H.
  assert (∀ s, num_step s ":" = None) as Hc by by intros [].
  rewrite !cut_app in H by by apply format_int_no_char.
  injection H as Hl H. apply format_int_inj in Hl.
  change (String.append ?a ?b) with (a +:+ b) in H.
  apply app_str_inj_len in H as [-> H]; [|lia]. split; [done|]. by injection H.
Qed.

Lemma length_prefixed_list_inj l1 l2 :
  length l1 = length l2 →
  concat_str (map length_prefixed l1) = concat_str (map length_prefixed l2) → l1 = l2.
Proof.
  revert l2; induction l1 as [|f l1 IH]; intros [|f2 l2] Hl; try done.
  cbn [map concat_str foldr]. intros H. apply length_prefixed_inj in H as [-> H].
  f_equal. apply IH; [by injection Hl | done].
Qed.

Section ScanUIDs.
Context {dg : Digest}.

(** What a scan_uid is the digest of. *)
Definition scan_uid_text (r : ScanRow) (ts : instant) : string := concat_str (map length_prefixed (scan_uid_fields r ts)).
(** These two inputs are different and their digests agree on the 16 bytes a scan_uid keeps. *)
Definition short_clash (x y : bytes) : Prop :=
  x ≠ y ∧ take_str 32 (hex_encode (sha256 x)) = take_str 32 (hex_encode (sha256 y)).

(** A scan_uid names one run: two scans with the same uid agree on the
    repository, the CI run, the host, the corral version, the commit, the
    substrate, the local scan id and the printed start time, field by field
    (the length prefixes leave no way to move bytes between fields); or their
    digests share 128 bits. *)
Theorem ScanUID_identifies r1 t1 r2 t2 :
  ScanUID r1 t1 = ScanUID r2 t2 →
  (sr_Repo r1 = sr_Repo r2 ∧ sr_RunURL r1 = sr_RunURL r2 ∧ sr_Host r1 = sr_Host r2 ∧
   sr_CorralVersion r1 = sr_CorralVersion r2 ∧ sr_Commit r1 = sr_Commit r2 ∧
   sr_Substrate r1 = sr_Substrate r2 ∧ sr_ScanID r1 = sr_ScanID r2 ∧
   time_text t1 = time_text t2) ∨ short_clash (scan_uid_text r1 t1) (scan_uid_text r2 t2).
Proof.
  unfold ScanUID. intros H.
  destruct (decide (scan_uid_fields r1 t1 = scan_uid_fields r2 t2)) as [E|Hne].
  - left. assert (∀ k, nth k (scan_uid_fields r1 t1) "" = nth k (scan_uid_fields r2 t2) "")
      as N by (intros; by rewrite E).
    split_and!; [exact (N 0%nat) | exact (N 1%nat) | exact (N 2%nat) | exact (N 3%nat)
      | exact (N 4%nat) | exact (N 5%nat) | exact (format_int_inj _ _ (N 6%nat)) | exact (N 7%nat)].
  - right. split; [|exact H]. intros E. by apply length_prefixed_list_inj in E.
Qed.
End ScanUIDs.

(** ** Reading an entry from its bytes: internal/ledger/parse.go *)

(** json.Unmarshal into an Entry, driven by reflection, and compress/gzip. *)
Class EntryCodec := {
  unmarshal_entry : bytes → option Entry;
  gunzip : bytes → option bytes
}.

Definition gzip_magic : bytes := String (byte 31) (String (byte 139) "").

Inductive parse_error := BadGzip (name : string) | BadEntry (name : string)
| UnknownFormat (name format : string).

Section Parse.
Context {ec : EntryCodec}.

Definition ParseEntry (name : string) (raw : bytes) : result parse_error Entry :=
  let! raw := if has_prefix gzip_magic raw
              then match gunzip raw with Some r => Ok r | None => Err (BadGzip name) end
              else Ok raw in
  match unmarshal_entry raw with
  | None => Err (BadEntry name)
  | Some e =>
      if negb (KnownFormat (e_Format e)) then Err (UnknownFormat name (e_Format e))
      else Ok (with_source e (Some raw) name)
  end.

Lemma ParseEntry_Ok name raw e :
  ParseEntry name raw = Ok e →
  KnownFormat (e_Format e) = true ∧ e_File e = name ∧ is_Some (e_Raw e).
Proof.
  unfold ParseEntry. rewrite rbind_Ok. intros (raw' & _ & H).
  destruct (unmarshal_entry raw') as [e'|]; [|done].
  destruct (KnownFormat (e_Format e')) eqn:E; [|done]. injection H as <-. cbn. by eauto.
Qed.
End Parse.
