(* ===== verification/Signers.v ===== *)
(** * Who may sign: internal/ledger/signer.go and signers.go

    The shape rule of each kind of entry, the keyless pin, and the signer set
    the chain walk carries. The set's invariant ([signers_ok]): the registration
    order lists each active key once, every active key is a 32-byte Ed25519 key
    filed under its own fingerprint, the root is not among them, and the pin in
    force is well formed. *)
From S2P Require Import Prelude GoLib Crypto JsonText Json Canonical Rows Entry.
Local Open Scope string_scope.
Local Open Scope list_scope.

(** ** Names *)

Definition SignerRegister : string := "register".
Definition SignerRevoke : string := "revoke".
Definition SignerPinKeyless : string := "pin-keyless".
Definition SignerUnpinKeyless : string := "unpin-keyless".
Definition LegacyRootKeyID : string := "corral-certify".
Definition pinGlobChars : string := "*?[]{}".

Definition githubURL (repo : string) : string := "https://github.com/" +:+ repo.

(** What a verified certificate says about the run that signed. *)
Record CertIdentity := mkCertIdentity {
  ci_Repo : string;
  ci_RepoID : string;
  ci_Workflow : string;
  ci_BuildSigner : string;
  ci_Ref : string;
  ci_Commit : string;
  ci_Trigger : string;
  ci_Runner : string }.

Definition zero_CertIdentity : CertIdentity := mkCertIdentity "" "" "" "" "" "" "" "".

(** ** The refusals, one constructor per message *)

Inductive signer_problem :=
| NoSignerChange
| BadAction (action : string)
| ChangeCarriesPin (action : string)
| BadPubKey
| KeyIDNotFingerprint (want got : string)
| RegistrationUnnamed
| RevocationNoReason
| PinNamesKey (action : string)
| UnpinCarriesPin
| UnpinNoReason
| PinAllowsNone
| PinBadRepoID (id : string)
| PinGlob (a : PinnedWorkflow)
| PinSpace (a : PinnedWorkflow)
| PinNotWorkflow (workflow : string)
| PinNotRef (ref : string).

Inductive shape_problem :=
| RetractionIncomplete
| CheckpointNoHead
| CarriedSigner (p : signer_problem)
| CarriedTwice (keyid : string)
| NoReview
| ReviewIncomplete
| NoAdjudication
| AdjudicationNoFinding
| AdjudicationBadVerdict (verdict : string)
| AdjudicationIncomplete
| SignerShape (p : signer_problem)
| UnknownKind (kind : string).

(** ** The keyless pin *)

(** A refusal names the run, the pin's file, and — when only the repository id
    differs — the certificate's id and the pin's. *)
Record pin_refusal := mkPinRefusal {
  pr_signedBy : string;
  pr_pinFile : string;
  pr_ids : option (string * string) }.

Definition absent : string := "(absent)".

Definition signedByRun (id : CertIdentity) (repo : string) : string :=
  let '(wf, ref) :=
    if String.eqb (ci_Ref id) "" then (ci_Workflow id, absent)
    else (trim_suffix ("@" +:+ ci_Ref id) (ci_Workflow id), ci_Ref id) in
  let wf := trim_prefix (githubURL repo +:+ "/") wf in
  let wf := if String.eqb wf "" then absent else wf in
  wf +:+ "@" +:+ ref.

Definition pair_matches (id : CertIdentity) (repo : string) (a : PinnedWorkflow) : bool :=
  negb (String.eqb (ci_Ref id) "") && String.eqb (ci_Ref id) (pw_Ref a) &&
  String.eqb (ci_Workflow id) (githubURL repo +:+ "/" +:+ pw_Workflow a +:+ "@" +:+ pw_Ref a).

Definition PinProblem (pin : KeylessPin) (pinFile : string) (id : CertIdentity) (repo : string)
    : option pin_refusal :=
  let pairAllowed := existsb (pair_matches id repo) (kp_Allow pin) in
  let idMatches := negb (String.eqb (ci_RepoID id) "") && String.eqb (ci_RepoID id) (kp_RepoID pin) in
  if pairAllowed && idMatches then None
  else Some {|
    pr_signedBy := signedByRun id repo;
    pr_pinFile := pinFile;
    pr_ids :=
      if pairAllowed
      then Some (if String.eqb (ci_RepoID id) "" then absent else ci_RepoID id, kp_RepoID pin)
      else None |}.

(** A pin is never passed by omission and never by pattern: it lets a
    certificate through exactly when the certificate carries the pinned
    repository id and, for one allowed pair, that ref and exactly that workflow
    at that ref in the ledger's repository. *)
Theorem PinProblem_spec pin file id repo :
  PinProblem pin file id repo = None ↔
  ci_RepoID id ≠ "" ∧ ci_RepoID id = kp_RepoID pin ∧
  ∃ a, a ∈ kp_Allow pin ∧ ci_Ref id ≠ "" ∧ ci_Ref id = pw_Ref a ∧
       ci_Workflow id = githubURL repo +:+ "/" +:+ pw_Workflow a +:+ "@" +:+ pw_Ref a.
Proof.
  unfold PinProblem, pair_matches.
  destruct (existsb _ (kp_Allow pin)) eqn:E; cbn [andb].
  - apply existsb_exists in E as (a & Ha & E). apply list_elem_of_In in Ha. bools.
    destruct (String.eqb_spec (ci_RepoID id) ""), (String.eqb_spec (ci_RepoID id) (kp_RepoID pin));
      cbn [negb andb]; split; try done; try naive_solver.
  - split; [done|]. intros (_ & _ & a & Ha & H1 & H2 & H3). exfalso.
    apply not_true_iff_false in E. apply E, existsb_exists. exists a.
    split; [by apply list_elem_of_In|]. rewrite H3, H2, !String.eqb_refl.
    rewrite H2 in H1. by apply String.eqb_neq in H1 as ->.
Qed.

(** ** Shape rules *)

Section Shape.
Context {dg : Digest}.

(** "ed25519:" and the first 16 hex digits of sha256(pub). *)
Definition KeyFingerprint (pub : bytes) : string :=
  "ed25519:" +:+ take_str 16 (hex_encode (sha256 pub)).

Definition allow_problem (a : PinnedWorkflow) : option signer_problem :=
  if contains_any (pw_Workflow a) pinGlobChars || contains_any (pw_Ref a) pinGlobChars
  then Some (PinGlob a)
  else if has_space (pw_Workflow a) || has_space (pw_Ref a) then Some (PinSpace a)
  else if negb (has_prefix ".github/workflows/" (pw_Workflow a))
          || negb (has_suffix ".yml" (pw_Workflow a) || has_suffix ".yaml" (pw_Workflow a))
  then Some (PinNotWorkflow (pw_Workflow a))
  else if negb (has_prefix "refs/" (pw_Ref a)) then Some (PinNotRef (pw_Ref a))
  else None.

Definition pinShapeProblem (c : SignerChange) : option signer_problem :=
  if negb (String.eqb (sc_KeyID c) "") || negb (String.eqb (sc_PubKey c) "")
  then Some (PinNamesKey (sc_Action c)) else
  if String.eqb (sc_Action c) SignerUnpinKeyless then
    match sc_KeylessPin c with
    | Some _ => Some UnpinCarriesPin
    | None => check (is_blank (sc_Reason c)) UnpinNoReason
    end
  else
    match sc_KeylessPin c with
    | None => Some PinAllowsNone
    | Some p =>
        if no_elems (kp_Allow p) then Some PinAllowsNone
        else if String.eqb (kp_RepoID p) "" || negb (only_bytes_of decimal_digits (kp_RepoID p))
        then Some (PinBadRepoID (kp_RepoID p))
        else first_problem (map allow_problem (kp_Allow p))
    end.

Definition SignerShapeProblem (c : option SignerChange) : option signer_problem :=
  match c with
  | None => Some NoSignerChange
  | Some c =>
      let a := sc_Action c in
      if String.eqb a SignerPinKeyless || String.eqb a SignerUnpinKeyless then pinShapeProblem c
      else if negb (String.eqb a SignerRegister || String.eqb a SignerRevoke)
      then Some (BadAction a)
      else match sc_KeylessPin c with
      | Some _ => Some (ChangeCarriesPin a)
      | None =>
          let '(raw, ok) := hex_decode (sc_PubKey c) in
          if negb ok || negb (String.length raw =? 32)%nat then Some BadPubKey else
          let want := KeyFingerprint raw in
          if negb (String.eqb (sc_KeyID c) want) then Some (KeyIDNotFingerprint want (sc_KeyID c)) else
          if String.eqb a SignerRegister && is_blank (sc_Name c) then Some RegistrationUnnamed else
          if String.eqb a SignerRevoke && is_blank (sc_Reason c) then Some RevocationNoReason
          else None
      end
  end.

(** The registration a carried key is judged as. *)
Definition registration (k : SignerKey) : SignerChange := {|
  sc_Action := SignerRegister; sc_KeyID := sk_KeyID k; sc_PubKey := sk_PubKey k;
  sc_Name := sk_Name k; sc_Reason := ""; sc_KeylessPin := None |}.

Fixpoint carried_problem (seen : list string) (keys : list SignerKey) : option shape_problem :=
  match keys with
  | [] => None
  | k :: keys' =>
      match SignerShapeProblem (Some (registration k)) with
      | Some p => Some (CarriedSigner p)
      | None =>
          if bool_decide (sk_KeyID k ∈ seen) then Some (CarriedTwice (sk_KeyID k))
          else carried_problem (sk_KeyID k :: seen) keys'
      end
  end.

Definition CheckpointSignersProblem (keys : list SignerKey) : option shape_problem :=
  carried_problem [] keys.

Definition EntryShapeProblem (e : Entry) : option shape_problem :=
  if KindIs e KindScan then None
  else if KindIs e KindRetract then
    check (is_blank (e_Retracts e) || is_blank (e_Reason e)) RetractionIncomplete
  else if KindIs e KindCheckpoint then
    match e_Checkpoint e with
    | None => Some CheckpointNoHead
    | Some cp => if String.eqb (cp_Head cp) "" then Some CheckpointNoHead
                 else CheckpointSignersProblem (cp_Signers cp)
    end
  else if KindIs e KindReview then
    match e_Review e with
    | None => Some NoReview
    | Some r => check (is_blank (rv_Commit r) || is_blank (rv_Scope r)) ReviewIncomplete
    end
  else if KindIs e KindAdjudication then
    match e_Adjudication e with
    | None => Some NoAdjudication
    | Some a =>
        let '(_, id, ok) := CutRef (adj_Adjudicates a) in
        if negb ok || is_blank id then Some AdjudicationNoFinding
        else if negb (String.eqb (adj_Verdict a) VerdictConfirmed)
             && negb (String.eqb (adj_Verdict a) VerdictRefuted)
        then Some (AdjudicationBadVerdict (adj_Verdict a))
        else check (is_blank (adj_By a) || is_blank (adj_Reason a)) AdjudicationIncomplete
    end
  else if KindIs e KindSigner then SignerShape <$> SignerShapeProblem (e_Signer e)
  else Some (UnknownKind (e_Kind e)).
End Shape.

(** ** The signer set *)

Record SignerSet := mkSignerSet {
  ss_rootID : string;
  ss_rootPub : option bytes;          (** nil when no key was given *)
  ss_active : gmap string SignerKey;
  ss_order : list string;             (** registration order *)
  ss_pin : option KeylessPin;
  ss_pinFile : string;
  ss_pinChecked : bool }.

Inductive key_problem := LegacyKeyIDProblem | NotRegistered (who : string).

Inductive change_problem :=
| NotRootSigned
| RegistersRoot
| AlreadyRegistered (keyid : string)
| RevokesRoot
| RevokesUnregistered (keyid : string)
| UnpinsNothing.

Inductive seed_problem := errCheckpointNotRoot | CheckpointRegistersRoot.

#[export] Instance seed_problem_eq_dec : EqDecision seed_problem.
Proof. solve_decision. Defined.

Inductive change_note :=
| Revokes (keyid reason : string)
| Pins (repoID : string) (pairs : list string)
| Unpins (reason : string)
| Registers (keyid name : string).

(** [append(s.order[:i:i], s.order[i+1:]...)] at the first [id]. *)
Fixpoint remove_first (id : string) (l : list string) : list string :=
  match l with
  | [] => []
  | x :: l' => if String.eqb x id then l' else x :: remove_first id l'
  end.

Definition orNoKeyID (id : string) : string :=
  if is_blank id then "a key it does not name" else id.

Section Set_.
Context {dg : Digest}.

Definition newSignerSet (entries : list Entry) (pub : option bytes) : SignerSet :=
  let set_for id := mkSignerSet id pub ∅ [] None "" false in
  match pub with
  | Some p => set_for (KeyFingerprint p)
  | None =>
      let first_signer :=
        match List.find (λ e, KindIs e KindSigner) entries with Some e => e_KeyID e | None => "" end in
      match entries with
      | e :: _ =>
          match e_Checkpoint e with
          | Some cp =>
              if KindIs e KindCheckpoint && negb (no_elems (cp_Signers cp))
              then set_for (e_KeyID e) else set_for first_signer
          | None => set_for first_signer
          end
      | [] => set_for ""
      end
  end.

Definition isRoot (s : SignerSet) (e : Entry) : bool :=
  if String.eqb (e_KeyID e) LegacyRootKeyID then
    String.eqb (e_Format e) Format4 || String.eqb (e_Format e) Format3
    || String.eqb (e_Format e) Format2
  else negb (String.eqb (ss_rootID s) "") && String.eqb (e_KeyID e) (ss_rootID s).

(** Whose signature it is, the key it must verify under (if there is one to
    check against), and the problem with the name. *)
Definition resolve (s : SignerSet) (e : Entry) : string * option bytes * option key_problem :=
  if String.eqb (e_Signature e) "" then ("", None, None) else
  if String.eqb (e_Format e) FileFormat && String.eqb (e_KeyID e) LegacyRootKeyID
  then ("", None, Some LegacyKeyIDProblem) else
  if isRoot s e then ("root", ss_rootPub s, None) else
  match ss_active s !! e_KeyID e with
  | Some k =>
      match ss_rootPub s with
      | None => (sk_Name k, None, None)
      | Some _ => let '(raw, _) := hex_decode (sk_PubKey k) in (sk_Name k, Some raw, None)
      end
  | None =>
      match ss_rootPub s with
      | None => ("", None, None)
      | Some _ => ("", None, Some (NotRegistered (orNoKeyID (e_KeyID e))))
      end
  end.

(** The authority half of a signer entry. Its shape was checked: the change is
    there ([SignerShapeProblem None] is a refusal). *)
Definition changeProblem (s : SignerSet) (e : Entry) : option change_problem :=
  if String.eqb (e_Signature e) "" || negb (isRoot s e) then Some NotRootSigned else
  match e_Signer e with
  | None => None
  | Some c =>
      let active := bool_decide (is_Some (ss_active s !! sc_KeyID c)) in
      let act a := String.eqb (sc_Action c) a in
      if act SignerRegister && String.eqb (sc_KeyID c) (ss_rootID s) then Some RegistersRoot
      else if act SignerRegister && active then Some (AlreadyRegistered (sc_KeyID c))
      else if act SignerRevoke && String.eqb (sc_KeyID c) (ss_rootID s) then Some RevokesRoot
      else if act SignerRevoke && negb active then Some (RevokesUnregistered (sc_KeyID c))
      else if act SignerUnpinKeyless && bool_decide (ss_pin s = None) then Some UnpinsNothing
      else None
  end.

Definition apply (s : SignerSet) (c : SignerChange) (file : string) : SignerSet :=
  let with_keys active order :=
    mkSignerSet (ss_rootID s) (ss_rootPub s) active order (ss_pin s) (ss_pinFile s) (ss_pinChecked s) in
  let with_pin pin file checked :=
    mkSignerSet (ss_rootID s) (ss_rootPub s) (ss_active s) (ss_order s) pin file checked in
  let act a := String.eqb (sc_Action c) a in
  if act SignerRegister then
    with_keys (<[sc_KeyID c := mkSignerKey (sc_KeyID c) (sc_PubKey c) (sc_Name c)]> (ss_active s))
              (ss_order s ++ [sc_KeyID c])
  else if act SignerRevoke then
    with_keys (delete (sc_KeyID c) (ss_active s)) (remove_first (sc_KeyID c) (ss_order s))
  else if act SignerPinKeyless then
    with_pin (sc_KeylessPin c) file (bool_decide (is_Some (ss_rootPub s)))
  else if act SignerUnpinKeyless then with_pin None "" false
  else s.

(** A clean pin carries its pin (the shape rule). *)
Definition changeNote (c : SignerChange) : change_note :=
  let act a := String.eqb (sc_Action c) a in
  if act SignerRevoke then Revokes (sc_KeyID c) (sc_Reason c)
  else if act SignerPinKeyless then
    match sc_KeylessPin c with
    | Some p => Pins (kp_RepoID p) (map (λ a, pw_Workflow a +:+ "@" +:+ pw_Ref a) (kp_Allow p))
    | None => Pins "" []
    end
  else if act SignerUnpinKeyless then Unpins (sc_Reason c)
  else Registers (sc_KeyID c) (sc_Name c).

Definition List_ (s : SignerSet) : list SignerKey :=
  map (λ id, default zero_SignerKey (ss_active s !! id)) (ss_order s).

(** Of a leading checkpoint whose shape was checked. *)
Definition seedProblem (s : SignerSet) (e : Entry) : option seed_problem :=
  match e_Checkpoint e with
  | None => None
  | Some cp =>
      if no_elems (cp_Signers cp) then None else
      if String.eqb (e_Signature e) "" || negb (isRoot s e) then Some errCheckpointNotRoot else
      check (existsb (λ k, String.eqb (sk_KeyID k) (ss_rootID s)) (cp_Signers cp))
            CheckpointRegistersRoot
  end.

Definition seed (s : SignerSet) (keys : list SignerKey) : SignerSet :=
  mkSignerSet (ss_rootID s) (ss_rootPub s)
    (foldl (λ m k, <[sk_KeyID k := k]> m) (ss_active s) keys)
    (ss_order s ++ map sk_KeyID keys) (ss_pin s) (ss_pinFile s) (ss_pinChecked s).

(** ** The invariant *)

(** A key on file: 32 bytes of hex whose fingerprint is the id, and a name. *)
Definition key_well_shaped (k : SignerKey) : Prop :=
  ∃ raw, hex_decode (sk_PubKey k) = (raw, true) ∧ String.length raw = 32 ∧
         sk_KeyID k = KeyFingerprint raw ∧ is_blank (sk_Name k) = false.

Definition pin_well_shaped (p : KeylessPin) : Prop :=
  kp_Allow p ≠ [] ∧ kp_RepoID p ≠ "" ∧ only_bytes_of decimal_digits (kp_RepoID p) = true ∧
  Forall (λ a, allow_problem a = None) (kp_Allow p).

Record signers_ok (s : SignerSet) : Prop := {
  so_nodup : NoDup (ss_order s);
  so_dom id : id ∈ ss_order s ↔ is_Some (ss_active s !! id);
  so_keys id k : ss_active s !! id = Some k →
                 sk_KeyID k = id ∧ id ≠ ss_rootID s ∧ key_well_shaped k;
  so_pin p : ss_pin s = Some p → pin_well_shaped p;
  so_root p : ss_rootPub s = Some p → ss_rootID s = KeyFingerprint p;
  so_pinned : ss_pinChecked s = true → is_Some (ss_rootPub s)
}.

(** What a clean shape gives. *)
Lemma SignerShape_key c :
  SignerShapeProblem (Some c) = None →
  sc_Action c ≠ SignerPinKeyless → sc_Action c ≠ SignerUnpinKeyless →
  (sc_Action c = SignerRegister ∨ sc_Action c = SignerRevoke) ∧
  ∃ raw, hex_decode (sc_PubKey c) = (raw, true) ∧ String.length raw = 32 ∧
         sc_KeyID c = KeyFingerprint raw ∧
         (sc_Action c = SignerRegister → is_blank (sc_Name c) = false).
Proof.
  unfold SignerShapeProblem. intros H H1%String.eqb_neq H2%String.eqb_neq. rewrite H1, H2 in H.
  cbn [orb] in H.
  destruct (String.eqb_spec (sc_Action c) SignerRegister) as [Er|Er],
    (String.eqb_spec (sc_Action c) SignerRevoke) as [Ev|Ev]; cbn [orb negb] in H; try done;
    destruct (sc_KeylessPin c); try done;
    destruct (hex_decode (sc_PubKey c)) as [raw [|]]; try done; cbn [negb orb] in H;
    (destruct (Nat.eqb_spec (String.length raw) 32) as [Hl|]; [|done]); cbn [negb] in H;
    (destruct (String.eqb_spec (sc_KeyID c) (KeyFingerprint raw)) as [Hk|]; [|done]);
    cbn [negb andb] in H.
  all: split; [by auto|]; exists raw; split_and!; try done.
  all: intros ?; try congruence; by destruct (is_blank (sc_Name c)).
Qed.

Lemma SignerShape_pin c :
  SignerShapeProblem (Some c) = None → sc_Action c = SignerPinKeyless →
  ∃ p, sc_KeylessPin c = Some p ∧ pin_well_shaped p.
Proof.
  unfold SignerShapeProblem, pinShapeProblem. intros H Ha. rewrite Ha in H. cbn in H.
  destruct (_ || _) in H; [done|]. destruct (sc_KeylessPin c) as [p|]; [|done].
  exists p. split; [done|]. unfold pin_well_shaped.
  destruct (kp_Allow p) as [|a l]; [done|]. cbn [no_elems] in H.
  destruct (String.eqb_spec (kp_RepoID p) ""); [done|]. cbn [orb] in H.
  destruct (only_bytes_of decimal_digits (kp_RepoID p)); [|done].
  split_and!; try done. by apply first_problem_None, Forall_map in H.
Qed.

Lemma registration_shape k :
  SignerShapeProblem (Some (registration k)) = None ↔ key_well_shaped k.
Proof.
  split.
  - intros H. apply SignerShape_key in H as (_ & raw & H1 & H2 & H3 & H4); [|done..].
    exists raw. split_and!; try done. by apply H4.
  - intros (raw & H1 & H2 & H3 & H4). unfold SignerShapeProblem, registration.
    cbn [sc_Action sc_KeylessPin sc_PubKey sc_KeyID sc_Name sc_Reason]. rewrite H1, H2. cbn.
    by rewrite H3, String.eqb_refl, H4.
Qed.

(** The carried set of a clean checkpoint: distinct, well-shaped keys. *)
Lemma carried_problem_None seen keys :
  carried_problem seen keys = None ↔
  Forall key_well_shaped keys ∧ NoDup (map sk_KeyID keys) ∧
  Forall (λ k, sk_KeyID k ∉ seen) keys.
Proof.
  revert seen; induction keys as [|k keys IH]; intros seen; cbn [carried_problem map].
  { split; [|done]. intros _. split_and!; constructor. }
  rewrite !Forall_cons, NoDup_cons.
  destruct (SignerShapeProblem (Some (registration k))) as [p|] eqn:E.
  { split; [done|]. intros [[Hk%registration_shape _] _]. congruence. }
  apply registration_shape in E.
  destruct (bool_decide_reflect (sk_KeyID k ∈ seen)); [naive_solver|].
  rewrite IH. setoid_rewrite not_elem_of_cons. rewrite !Forall_forall.
  assert ((∀ x, x ∈ keys → sk_KeyID x ≠ sk_KeyID k ∧ sk_KeyID x ∉ seen) ↔
          (sk_KeyID k ∉ map sk_KeyID keys) ∧ (∀ x, x ∈ keys → sk_KeyID x ∉ seen)) as ->.
  { rewrite list_elem_of_fmap. naive_solver. }
  naive_solver.
Qed.

Lemma newSignerSet_ok entries pub : signers_ok (newSignerSet entries pub).
Proof.
  assert (∀ id, (∀ p, pub = Some p → id = KeyFingerprint p) →
                signers_ok (mkSignerSet id pub ∅ [] None "" false)) as H.
  { intros id Hid. split; cbn; try done; [constructor|].
    intros id'. rewrite lookup_empty, elem_of_nil. split; [done|]. by intros []. }
  unfold newSignerSet. destruct pub as [p|]; [apply H; by intros ? [= ->]|].
  repeat case_match; by apply H.
Qed.

Lemma remove_first_elem id x l :
  NoDup l → (x ∈ remove_first id l ↔ x ∈ l ∧ x ≠ id).
Proof.
  induction 1 as [|y l Hy Hl IH]; cbn [remove_first]; [set_solver|].
  destruct (String.eqb_spec y id) as [->|]; set_solver.
Qed.

Lemma remove_first_nodup id l : NoDup l → NoDup (remove_first id l).
Proof.
  induction 1 as [|y l Hy Hl IH]; cbn [remove_first]; [constructor|].
  destruct (String.eqb_spec y id) as [->|]; [done|].
  constructor; [|done]. by rewrite remove_first_elem; [intros [? ?]|].
Qed.

Lemma changeProblem_None s e c :
  e_Signer e = Some c → changeProblem s e = None →
  e_Signature e ≠ "" ∧ isRoot s e = true ∧
  (sc_Action c = SignerRegister → sc_KeyID c ≠ ss_rootID s ∧ ss_active s !! sc_KeyID c = None) ∧
  (sc_Action c = SignerRevoke → sc_KeyID c ≠ ss_rootID s ∧ is_Some (ss_active s !! sc_KeyID c)) ∧
  (sc_Action c = SignerUnpinKeyless → is_Some (ss_pin s)).
Proof.
  intros Hc. unfold changeProblem. rewrite Hc.
  destruct (String.eqb_spec (e_Signature e) ""); [done|].
  destruct (isRoot s e); [|done]. cbn [orb negb]. intros H. split_and!; try done.
  - intros Ha. rewrite Ha in H. cbn in H.
    destruct (String.eqb_spec (sc_KeyID c) (ss_rootID s)); [done|].
    case_bool_decide as Hd; [done|]. split; [done|].
    by rewrite eq_None_not_Some.
  - intros Ha. rewrite Ha in H. cbn in H.
    destruct (String.eqb_spec (sc_KeyID c) (ss_rootID s)); [done|].
    by case_bool_decide.
  - intros Ha. rewrite Ha in H. cbn in H. case_bool_decide; [done|]. by apply not_eq_None_Some.
Qed.

Lemma apply_register_ok s c file :
  signers_ok s → sc_Action c = SignerRegister → SignerShapeProblem (Some c) = None →
  sc_KeyID c ≠ ss_rootID s → ss_active s !! sc_KeyID c = None → signers_ok (apply s c file).
Proof.
  intros Hs Ha Hsh Hr Hn. unfold apply. rewrite Ha. cbn [String.eqb].
  pose proof (SignerShape_key c Hsh) as (_ & raw & H1 & H2 & H3 & H4); [by rewrite Ha..|].
  destruct Hs as [S1 S2 S3 S4 S5 S6].
  assert (sc_KeyID c ∉ ss_order s) as Hno by (rewrite S2, Hn; by intros []).
  split; cbn; try done.
  - apply NoDup_app. split_and!; [done| |apply NoDup_singleton]. set_solver.
  - intros id. rewrite elem_of_app, list_elem_of_singleton, S2, lookup_insert_is_Some.
    destruct (decide (sc_KeyID c = id)); naive_solver.
  - intros id k [[<- <-]|[? Hk]]%lookup_insert_Some; [|by eapply S3].
    split_and!; [done..|]. exists raw. split_and!; try done. by apply H4.
Qed.

Lemma apply_revoke_ok s c file :
  signers_ok s → sc_Action c = SignerRevoke → signers_ok (apply s c file).
Proof.
  intros Hs Ha. unfold apply. rewrite Ha. cbn [String.eqb].
  destruct Hs as [S1 S2 S3 S4 S5 S6]. split; cbn; try done.
  - by apply remove_first_nodup.
  - intros id. rewrite remove_first_elem, S2, lookup_delete_is_Some by done. naive_solver.
  - intros id k [? Hk]%lookup_delete_Some. by eapply S3.
Qed.

Lemma signers_apply_ok s e c file :
  signers_ok s → e_Signer e = Some c → SignerShapeProblem (Some c) = None →
  changeProblem s e = None → signers_ok (apply s c file).
Proof.
  intros Hs He Hsh Hc. apply (changeProblem_None s e c He) in Hc as (_ & _ & Hreg & _ & _).
  destruct (decide (sc_Action c = SignerRegister)) as [Ha|Ha].
  { destruct (Hreg Ha). by apply apply_register_ok. }
  destruct (decide (sc_Action c = SignerRevoke)) as [Hv|Hv]; [by apply apply_revoke_ok|].
  unfold apply. apply String.eqb_neq in Ha as ->, Hv as ->.
  destruct (String.eqb_spec (sc_Action c) SignerPinKeyless) as [Hp|Hp].
  { destruct (SignerShape_pin c Hsh Hp) as (p & Ep & Hwp).
    destruct Hs as [S1 S2 S3 S4 S5 S6]. split; cbn; try done.
    - rewrite Ep. by intros ? [= <-].
    - by case_bool_decide. }
  destruct (String.eqb (sc_Action c) SignerUnpinKeyless); [|done].
  destruct Hs as [S1 S2 S3 S4 S5 S6]. by split.
Qed.

Lemma seed_active_lookup (m : gmap string SignerKey) keys id :
  NoDup (map sk_KeyID keys) →
  foldl (λ m k, <[sk_KeyID k := k]> m) m keys !! id =
    match List.find (λ k, String.eqb (sk_KeyID k) id) keys with
    | Some k => Some k | None => m !! id end.
Proof.
  revert m; induction keys as [|k keys IH]; intros m; cbn [foldl map List.find]; [done|].
  rewrite NoDup_cons. intros [Hk Hn]. rewrite IH by done.
  destruct (String.eqb_spec (sk_KeyID k) id) as [<-|Hne].
  - destruct (List.find _ keys) as [k'|] eqn:E; [|by rewrite lookup_insert_eq].
    apply find_some in E as [Hin E%String.eqb_eq]. destruct Hk.
    rewrite <- E. apply list_elem_of_fmap. exists k'. by rewrite list_elem_of_In.
  - by rewrite lookup_insert_ne.
Qed.

Lemma signers_seed s e cp :
  signers_ok s → ss_active s = ∅ → e_Checkpoint e = Some cp →
  CheckpointSignersProblem (cp_Signers cp) = None → seedProblem s e = None →
  signers_ok (seed s (cp_Signers cp)) ∧ List_ (seed s (cp_Signers cp)) = cp_Signers cp.
Proof.
  intros Hs H0 He (Hw & Hn & _)%carried_problem_None Hp.
  set (keys := cp_Signers cp) in *.
  assert (Hroot : Forall (λ k, sk_KeyID k ≠ ss_rootID s) keys).
  { unfold seedProblem in Hp. rewrite He in Hp. fold keys in Hp.
    destruct keys as [|k0 ks] eqn:Ek; [constructor|]. rewrite <- Ek in *. cbn in Hp.
    replace (no_elems keys) with false in Hp by by rewrite Ek.
    destruct (_ || _) in Hp; [done|]. apply check_None in Hp.
    apply Forall_forall. intros k Hk E. apply not_true_iff_false in Hp. apply Hp, existsb_exists.
    exists k. split; [by apply list_elem_of_In | by apply String.eqb_eq]. }
  assert (Ho : ss_order s = []).
  { destruct (ss_order s) as [|id l] eqn:E; [done|].
    assert (id ∈ ss_order s) as Hi by (rewrite E; left).
    apply (so_dom s Hs) in Hi. rewrite H0, lookup_empty in Hi. by destruct Hi. }
  destruct Hs as [S1 S2 S3 S4 S5 S6]. split.
  - split; cbn; rewrite ?Ho, ?H0; cbn; try done.
    + intros id. rewrite seed_active_lookup, lookup_empty, list_elem_of_fmap by done. split.
      * intros (k & -> & Hk). destruct (List.find _ keys) eqn:E; [done|].
        apply find_none with (x := k) in E; [|by apply list_elem_of_In].
        by rewrite String.eqb_refl in E.
      * destruct (List.find _ keys) as [k|] eqn:E; [|by intros []]. intros _.
        apply find_some in E as [Hin E%String.eqb_eq]. exists k. by rewrite list_elem_of_In.
    + intros id k. rewrite seed_active_lookup, lookup_empty by done.
      destruct (List.find _ keys) as [k'|] eqn:E; [|done]. intros [= ->].
      apply find_some in E as [Hin E%String.eqb_eq]. apply list_elem_of_In in Hin.
      rewrite Forall_forall in Hw, Hroot. subst id. auto.
  - unfold List_, seed. cbn. rewrite Ho, H0. cbn. rewrite map_map.
    transitivity (map id keys); [|by apply map_id]. apply map_ext_in. intros k Hk.
    rewrite seed_active_lookup by done.
    destruct (List.find _ keys) as [k'|] eqn:E.
    + apply find_some in E as [Hin E%String.eqb_eq]. cbn.
      apply list_elem_of_In in Hk, Hin. clear -Hn E Hk Hin.
      induction keys as [|x l IH]; [by apply not_elem_of_nil in Hk|].
      cbn [map] in Hn. apply NoDup_cons in Hn as [Hx Hl].
      apply elem_of_cons in Hk as [->|Hk], Hin as [->|Hin]; auto; destruct Hx;
        apply list_elem_of_fmap; eauto.
    + apply find_none with (x := k) in E; [|done]. by rewrite String.eqb_refl in E.
Qed.

Lemma signers_seed_ok s e cp :
  signers_ok s → ss_active s = ∅ → e_Checkpoint e = Some cp →
  CheckpointSignersProblem (cp_Signers cp) = None → seedProblem s e = None →
  signers_ok (seed s (cp_Signers cp)).
Proof. intros. by eapply signers_seed. Qed.
End Set_.
