(* ===== verification/StrictJson.v ===== *)
(** * The strict shape gate: internal/ledger/strictjson.go

    Every key an exact-case member of the set allowed at its position, no key
    twice, every value of the kind the shape expects, nothing after the value.
    [walkJSON] is compared with the declarative [conforms]; a conforming document
    says one thing to every reader, whichever of two equal keys it would keep
    ([strict_unambiguous]). The Go code walks tokens and then re-validates the
    whole text in json.Unmarshal, so here the walk runs over the parsed document;
    of an ill-formed text only that it is refused is modelled. *)
From S2P Require Import Prelude GoLib JsonText Json.
Local Open Scope string_scope.
Local Open Scope list_scope.

#[warnings="-register-all"]
Inductive jsonShape :=
| jsonLeaf                                        (** a string, number, bool or null *)
| jsonObj (fields : list (string * jsonShape))
| jsonArr (elem : jsonShape).

Inductive walk_problem :=
| WantScalar (path : string)
| WantObject (path : string)
| WantArray (path : string)
| DuplicateField (path key : string)
| UnknownField (path key : string).

(** The loops over an array's elements and an object's members, [walk] being the
    recursive call. *)
Section Loops.
Variable walk : json → jsonShape → string → option walk_problem.

Fixpoint walk_elems (elem : jsonShape) (path : string) (i : Z) (l : list json)
    : option walk_problem :=
  match l with
  | [] => None
  | x :: l' =>
      match walk x elem (path +:+ "[" +:+ format_int i +:+ "]") with
      | Some p => Some p
      | None => walk_elems elem path (i + 1)%Z l'
      end
  end.

Fixpoint walk_members (fields : list (string * jsonShape)) (path : string)
    (seen : list string) (m : list (string * json)) : option walk_problem :=
  match m with
  | [] => None
  | (k, x) :: m' =>
      if bool_decide (k ∈ seen) then Some (DuplicateField path k) else
      match obj_get k fields with
      | None => Some (UnknownField path k)
      | Some sub =>
          match walk x sub (path +:+ "." +:+ k) with
          | Some p => Some p
          | None => walk_members fields path (k :: seen) m'
          end
      end
  end.
End Loops.

Fixpoint walkJSON (t : json) (s : jsonShape) (path : string) {struct t} : option walk_problem :=
  match s, t with
  | jsonLeaf, JObj _ | jsonLeaf, JArr _ => Some (WantScalar path)
  | jsonLeaf, _ => None
  | jsonArr elem, JArr l => walk_elems walkJSON elem path 0 l
  | jsonArr _, _ => Some (WantArray path)
  | jsonObj fields, JObj m => walk_members walkJSON fields path [] m
  | jsonObj _, _ => Some (WantObject path)
  end.

Inductive strict_error := NotJSON | BadShape (p : walk_problem) | BadValue.

(** [decode] stands for the typed json.Unmarshal, given the document. *)
Definition strictDecode {A} (b : bytes) (shape : jsonShape) (decode : json → option A)
    : result strict_error A :=
  match parse_doc b with
  | None => Err NotJSON
  | Some doc =>
      match walkJSON doc shape "$" with
      | Some p => Err (BadShape p)
      | None => match decode doc with Some v => Ok v | None => Err BadValue end
      end
  end.

(** ** The two shapes *)

Definition leaves (ks : list string) : list (string * jsonShape) := map (λ k, (k, jsonLeaf)) ks.

Definition bundleShape : jsonShape := jsonObj [
  ("mediaType", jsonLeaf);
  ("verificationMaterial", jsonObj [
    ("certificate", jsonObj (leaves ["rawBytes"]));
    ("tlogEntries", jsonArr (jsonObj [
      ("logIndex", jsonLeaf);
      ("logId", jsonObj (leaves ["keyId"]));
      ("kindVersion", jsonObj (leaves ["kind"; "version"]));
      ("integratedTime", jsonLeaf);
      ("inclusionPromise", jsonObj (leaves ["signedEntryTimestamp"]));
      ("inclusionProof", jsonObj [
        ("logIndex", jsonLeaf);
        ("rootHash", jsonLeaf);
        ("treeSize", jsonLeaf);
        ("hashes", jsonArr jsonLeaf);
        ("checkpoint", jsonObj (leaves ["envelope"]))]);
      ("canonicalizedBody", jsonLeaf)]))]);
  ("messageSignature", jsonObj [
    ("messageDigest", jsonObj (leaves ["algorithm"; "digest"]));
    ("signature", jsonLeaf)])].

Definition hashedRekordShape : jsonShape := jsonObj [
  ("apiVersion", jsonLeaf);
  ("kind", jsonLeaf);
  ("spec", jsonObj [
    ("data", jsonObj [("hash", jsonObj (leaves ["algorithm"; "value"]))]);
    ("signature", jsonObj [
      ("content", jsonLeaf);
      ("publicKey", jsonObj (leaves ["content"]))])])].

(** ** The walk against its specification *)

#[warnings="-register-all"]
Inductive conforms : jsonShape → json → Prop :=
| conforms_leaf t : (∀ m, t ≠ JObj m) → (∀ l, t ≠ JArr l) → conforms jsonLeaf t
| conforms_arr elem l : Forall (conforms elem) l → conforms (jsonArr elem) (JArr l)
| conforms_obj fields m :
    NoDup m.*1 →
    Forall (λ kv, ∃ sub, obj_get kv.1 fields = Some sub ∧ conforms sub kv.2) m →
    conforms (jsonObj fields) (JObj m).

(** The walk accepts exactly the documents that conform to the shape. *)
Lemma walkJSON_conforms t s path : walkJSON t s path = None ↔ conforms s t.
Proof.
  revert s path; induction t as [|b|lit|f|str|l IH|m IH] using json_ind'; intros s path.
  1-5: destruct s; cbn [walkJSON]; (split; [intros H; try done; by constructor | by inversion 1]).
  - destruct s as [|fields|elem]; cbn [walkJSON].
    + split; [done|]. inversion 1; subst. naive_solver.
    + split; [done|]. by inversion 1.
    + assert (∀ i, walk_elems walkJSON elem path i l = None ↔ Forall (conforms elem) l) as H.
      { induction IH as [|x l Hx _ IHl]; intros i; cbn [walk_elems]; [by split|].
        rewrite Forall_cons. destruct (walkJSON x elem _) eqn:E.
        - split; [done|]. intros [Hc _]. apply Hx with (path := path +:+ "[" +:+ format_int i +:+ "]") in Hc.
          congruence.
        - apply Hx in E. rewrite IHl. naive_solver. }
      rewrite H. split; [by constructor | by inversion 1].
  - destruct s as [|fields|elem]; cbn [walkJSON].
    + split; [done|]. inversion 1; subst. naive_solver.
    + assert (∀ seen, walk_members walkJSON fields path seen m = None ↔
        NoDup m.*1 ∧ Forall (λ kv, kv.1 ∉ seen) m ∧
        Forall (λ kv, ∃ sub, obj_get kv.1 fields = Some sub ∧ conforms sub kv.2) m) as H.
      { induction IH as [|[k x] m Hx _ IHm]; intros seen; cbn [walk_members fmap list_fmap fst].
        { split; [|done]. intros _. split_and!; constructor. }
        rewrite NoDup_cons, !Forall_cons. cbn [fst snd] in *.
        case_bool_decide as Hs; [naive_solver|].
        destruct (obj_get k fields) as [sub|]; [|naive_solver].
        destruct (walkJSON x sub _) eqn:E.
        - split; [done|]. intros (_ & _ & (sub' & [= <-] & Hc) & _).
          apply Hx with (path := path +:+ "." +:+ k) in Hc. congruence.
        - apply Hx in E. rewrite IHm. setoid_rewrite not_elem_of_cons.
          rewrite list_elem_of_fmap, !Forall_forall. split.
          + intros (H1 & H2 & H3). split_and!; auto; [|by apply H2|by eauto].
            intros (y & -> & Hy). by destruct (H2 _ Hy).
          + intros ((H1 & H2) & (_ & H3) & _ & H4). split_and!; auto.
            intros y Hy. split; [|by apply H3]. intros <-. destruct H1. by exists y. }
      rewrite H. split.
      * intros (H1 & _ & H2). by constructor.
      * inversion 1; subst. split_and!; try done. apply Forall_forall. intros. apply not_elem_of_nil.
    + split; [done|]. by inversion 1.
Qed.

(** The gate lets through exactly the texts that are one JSON document whose
    keys are allowed in that exact case and never repeated, whose values have the
    expected kinds at every depth, and that the typed decoder then takes. *)
Theorem strictDecode_spec {A} b shape (decode : json → option A) v :
  strictDecode b shape decode = Ok v ↔
  ∃ doc, parse_doc b = Some doc ∧ conforms shape doc ∧ decode doc = Some v.
Proof.
  unfold strictDecode. destruct (parse_doc b) as [doc|]; [|naive_solver].
  pose proof (walkJSON_conforms doc shape "$") as W.
  destruct (walkJSON doc shape "$") as [p|].
  - split; [done|]. intros (? & [= <-] & Hc%W & _). done.
  - destruct (decode doc) as [v'|] eqn:E; [|naive_solver].
    split; [intros [= ->]|naive_solver]. exists doc. split_and!; try done. by apply W.
Qed.

(** ** One document, one reading *)

Lemma obj_get_of_list {A} (m : list (string * A)) k :
  NoDup m.*1 → obj_get k (obj_of_list m) = obj_get k m.
Proof.
  induction m as [|[k' v] m IH] using rev_ind; [done|].
  rewrite fmap_app, obj_of_list_app. cbn [foldl fst snd fmap list_fmap].
  rewrite NoDup_app. intros (H1 & H2 & _). rewrite obj_get_set, IH by done.
  assert (∀ m2 : list (string * A), obj_get k (m ++ m2) =
    match obj_get k m with Some x => Some x | None => obj_get k m2 end) as ->.
  { intros m2. clear. induction m as [|[k1 v1] m IH]; cbn [app obj_get]; [done|].
    by destruct (String.eqb k k1). }
  cbn [obj_get]. destruct (String.eqb_spec k k') as [->|]; [|by destruct (obj_get k m)].
  destruct (obj_get k' m) as [x|] eqn:E; [|done]. exfalso.
  apply (H2 k'); [|by left]. clear -E. induction m as [|[k1 v1] m IH]; cbn in *; [done|].
  destruct (String.eqb_spec k' k1) as [->|]; [by left|right; auto].
Qed.

Lemma obj_get_elem {A} (m : list (string * A)) k v :
  NoDup m.*1 → (k, v) ∈ m → obj_get k m = Some v.
Proof.
  induction m as [|[k' v'] m IH]; cbn [fmap list_fmap fst]; [by intros _ ?%not_elem_of_nil|].
  rewrite NoDup_cons. intros [H1 H2] [[= -> ->]|Hin]%elem_of_cons; cbn [obj_get].
  - by rewrite String.eqb_refl.
  - destruct (String.eqb_spec k k') as [->|]; [|by apply IH].
    destruct H1. apply list_elem_of_fmap. by exists (k', v).
Qed.

(** A document that passed the gate says one thing: whichever of two equal
    keys a reader keeps (the first in document order, or the last, as Go's map
    does), it reads the one value written, and every key read is one the shape
    allows, in that exact case. *)
Theorem strict_unambiguous fields m path k v :
  walkJSON (JObj m) (jsonObj fields) path = None → (k, v) ∈ m →
  obj_get k m = Some v ∧ obj_get k (obj_of_list m) = Some v ∧ is_Some (obj_get k fields).
Proof.
  intros H Hin.
  assert (conforms (jsonObj fields) (JObj m)) as Hc.
  { by apply walkJSON_conforms in H. }
  inversion Hc as [| |f' m' Hn Hf]; subst. rewrite obj_get_of_list by done.
  rewrite Forall_forall in Hf. destruct (Hf _ Hin) as (sub & Hs & _).
  split_and!; [by apply obj_get_elem..|by eauto].
Qed.

Lemma strict_unambiguous_witness :
  obj_get "kind" [("kind", JStr "x")] = Some (JStr "x") ∧
  obj_get "kind" (obj_of_list [("kind", JStr "x")]) = Some (JStr "x") ∧
  is_Some (obj_get "kind" (leaves ["kind"; "version"])).
Proof.
  apply (strict_unambiguous (leaves ["kind"; "version"]) [("kind", JStr "x")] "$"); [reflexivity|].
  apply list_elem_of_here.
Defined.
