(* ===== verification/Keyless.v ===== *)
(** * Keyless signatures: internal/ledger/keyless.go, sigstoreroot.go's data

    The Sigstore bundle check, every step in the code's order. Certificates,
    ECDSA, ASN.1 and PEM are an interface ([Pki]); what corral decides on top of
    them — the one bundle shape, the identity, what the log must have recorded,
    the inclusion proof, the checkpoint — is modelled. *)
From S2P Require Import Prelude GoLib GoText Crypto Merkle JsonText Json Canonical Rows Entry.
From S2P Require Import Signers StrictJson.
Local Open Scope string_scope.
Local Open Scope list_scope.
Local Open Scope Z_scope.
Local Open Scope corral_scope.

(** ** crypto/x509, crypto/ecdsa, encoding/asn1, encoding/pem *)

Inductive curve := P224 | P256 | P384 | P521.
#[export] Instance curve_eq_dec : EqDecision curve.
Proof. solve_decision. Defined.

Record EcdsaKey := mkEcdsaKey { ek_Curve : curve; ek_Point : bytes }.

(** The fields of an x509.Certificate the verifier reads. *)
Record Certificate := mkCertificate {
  x_Raw : bytes;
  x_NotBefore : instant;
  x_NotAfter : instant;
  x_ExtKeyUsage : list Z;
  x_Extensions : list (list Z * bytes);
  x_PublicKey : option EcdsaKey        (** None: not an ECDSA key *) }.

Definition ExtKeyUsageCodeSigning : Z := 3.

Class Pki := {
  ParseCertificate : bytes → option Certificate;
  (** [leaf.Verify] against one root and its intermediates, for code signing, at
      an instant *)
  cert_verifies : Certificate → Certificate → list Certificate → instant → bool;
  (** [ecdsa.VerifyASN1 key digest sig] *)
  ecdsa_verify : EcdsaKey → bytes → bytes → bool;
  MarshalPKIXPublicKey : EcdsaKey → option bytes;
  (** [asn1.Unmarshal] into a string: the value and the rest *)
  asn1_string : bytes → option (string * bytes);
  (** [pem.Decode]: the block's type and bytes, and the rest *)
  pem_decode : bytes → option (string * bytes * bytes)
}.

(** ** The Sigstore trust root *)

Record fulcioCA := mkFulcioCA {
  fc_root : Certificate;
  fc_intermediates : list Certificate;
  fc_start : instant;
  fc_end : instant }.

Record rekorLog := mkRekorLog {
  rl_key : option EcdsaKey;            (** nil when the log's key is not ECDSA *)
  rl_keyDetails : string;
  rl_start : instant;
  rl_end : instant }.

Record SigstoreRoot := mkSigstoreRoot {
  sg_cas : list fulcioCA;
  sg_logs : gmap string rekorLog }.

(** Does [start, end] hold [t]? A zero end is open. *)
Definition covers (start end_ t : instant) : bool :=
  negb (t <? start) && ((end_ =? zero_time) || negb (end_ <? t)).

(** ** The bundle and the Rekor body, as decoded *)

Record inclusionProof := mkInclusionProof {
  ip_LogIndex : Z; ip_RootHash : bytes; ip_TreeSize : Z; ip_Hashes : list bytes;
  ip_Envelope : string }.

Record tlogEntry := mkTlogEntry {
  tl_LogIndex : Z; tl_KeyID : bytes; tl_Kind : string; tl_Version : string;
  tl_IntegratedTime : Z; tl_InclusionPromise : option bytes;
  tl_InclusionProof : option inclusionProof; tl_CanonicalizedBody : bytes }.

Record messageSignature := mkMessageSignature {
  ms_Algorithm : string; ms_Digest : bytes; ms_Signature : bytes }.

Record sigstoreBundle := mkSigstoreBundle {
  sb_MediaType : string; sb_Certificate : option bytes; sb_TlogEntries : list tlogEntry;
  sb_MessageSignature : option messageSignature }.

Record hashedRekord := mkHashedRekord {
  hr_APIVersion : string; hr_Kind : string; hr_HashAlgorithm : string; hr_HashValue : string;
  hr_Content : bytes; hr_PublicKey : bytes }.

(** *** json.Unmarshal, once the walk passed: no key repeats, objects and arrays
    are where the shape says; a missing key or a null leaf is the zero value. *)

Definition members (t : json) : list (string * json) := match t with JObj m => m | _ => [] end.
Definition sub (k : string) (m : list (string * json)) : list (string * json) :=
  match obj_get k m with Some t => members t | None => [] end.

Definition dec_string (k : string) (m : list (string * json)) : option string :=
  match obj_get k m with
  | None | Some JNull => Some ""
  | Some (JStr s) => Some s
  | Some _ => None
  end.

Definition dec_bytes (k : string) (m : list (string * json)) : option bytes :=
  s ← dec_string k m; base64_decode s.

(** pbInt64: a quoted canonical decimal; null is refused, absence is 0. *)
Definition dec_int64 (k : string) (m : list (string * json)) : option Z :=
  match obj_get k m with
  | None => Some 0
  | Some (JStr s) => canonical_int64 s
  | Some _ => None
  end.

(** A pointer to a struct: nil when the key is absent. *)
Definition dec_ptr {A} (k : string) (m : list (string * json))
    (f : list (string * json) → option A) : option (option A) :=
  match obj_get k m with None => Some None | Some t => Some <$> f (members t) end.

Definition dec_list {A} (k : string) (m : list (string * json)) (f : json → option A)
    : option (list A) :=
  match obj_get k m with Some (JArr l) => mapM f l | _ => Some [] end.

Definition dec_leaf_bytes (t : json) : option bytes :=
  match t with JNull => Some "" | JStr s => base64_decode s | _ => None end.

Definition dec_proof (m : list (string * json)) : option inclusionProof :=
  i ← dec_int64 "logIndex" m;
  r ← dec_bytes "rootHash" m;
  n ← dec_int64 "treeSize" m;
  h ← dec_list "hashes" m dec_leaf_bytes;
  e ← dec_string "envelope" (sub "checkpoint" m);
  Some (mkInclusionProof i r n h e).

Definition dec_tlog (t : json) : option tlogEntry :=
  let m := members t in
  i ← dec_int64 "logIndex" m;
  k ← dec_bytes "keyId" (sub "logId" m);
  kd ← dec_string "kind" (sub "kindVersion" m);
  v ← dec_string "version" (sub "kindVersion" m);
  at_ ← dec_int64 "integratedTime" m;
  p ← dec_ptr "inclusionPromise" m (dec_bytes "signedEntryTimestamp");
  pr ← dec_ptr "inclusionProof" m dec_proof;
  b ← dec_bytes "canonicalizedBody" m;
  Some (mkTlogEntry i k kd v at_ p pr b).

Definition dec_message (m : list (string * json)) : option messageSignature :=
  a ← dec_string "algorithm" (sub "messageDigest" m);
  d ← dec_bytes "digest" (sub "messageDigest" m);
  s ← dec_bytes "signature" m;
  Some (mkMessageSignature a d s).

Definition dec_bundle (t : json) : option sigstoreBundle :=
  let m := members t in
  let vm := sub "verificationMaterial" m in
  mt ← dec_string "mediaType" m;
  c ← dec_ptr "certificate" vm (dec_bytes "rawBytes");
  tl ← dec_list "tlogEntries" vm dec_tlog;
  ms ← dec_ptr "messageSignature" m dec_message;
  Some (mkSigstoreBundle mt c tl ms).

Definition dec_rekord (t : json) : option hashedRekord :=
  let m := members t in
  let spec := sub "spec" m in
  let h := sub "hash" (sub "data" spec) in
  let sg := sub "signature" spec in
  v ← dec_string "apiVersion" m;
  k ← dec_string "kind" m;
  a ← dec_string "algorithm" h;
  hv ← dec_string "value" h;
  c ← dec_bytes "content" sg;
  p ← dec_bytes "content" (sub "publicKey" sg);
  Some (mkHashedRekord v k a hv c p).

(** ** What a check can refuse, one constructor per message *)

Inductive identity_error :=
| IssuerExtension
| FieldExtension (doc : string)
| TwoIssuers (v1 v2 : string)
| NoIssuer
| NoSourceRepo.

Inductive checkpoint_error :=
| NotSignedNote | NotRekorV1 | WrongTreeSize (line : string) (size : Z) | WrongRootHash
| LogKeyUnmarshalable | NoSignature | MalformedLine | MalformedSignature | BadSignature.

Inductive bundle_error :=
| NoLedgerRepo
| NoTrustRoot
| BundleShape (e : strict_error)
| MediaType (got : string)
| NoCertificate
| NoMessageSignature
| TlogCount (n : Z)
| TlogKind (kind version : string)
| NoSET
| NoInclusionProof
| OutOfRange (time index : Z)
| BadCertificate
| NotValidAt (at_ : instant)
| NotCodeSigning
| NoFulcioChain (at_ : instant)
| Identity_ (e : identity_error)
| WrongIssuer (issuer : string)
| WrongRepo (got want : string)
| WrongDigest
| KeyNotECDSA
| SignatureInvalid
| BodyShape (e : strict_error)
| BodyKind (kind version : string)
| BodyDigest
| BodySignature
| BodyCertificate
| UnknownLog (id : string)
| LogKeyType (id details : string)
| LogNotValid (id : string) (at_ : instant)
| SETInvalid
| Inclusion_ (e : inclusion_error)
| Checkpoint_ (e : checkpoint_error).

Definition KeyIDSigstore : string := "sigstore".
Definition GitHubActionsIssuer : string := "https://token.actions.githubusercontent.com".
Definition bundleMediaType : string := "application/vnd.dev.sigstore.bundle.v0.3+json".
Definition maxJSONInt : Z := 2 ^ 53 - 1.

(** 1.3.6.1.4.1.57264.1.[n]. *)
Definition fulcio_oid (n : Z) : list Z := [1; 3; 6; 1; 4; 1; 57264; 1; n].

(** The identity's fields: oid, words and setter. *)
Definition id_fields : list (list Z * string * (CertIdentity → string → CertIdentity)) := [
  (fulcio_oid 12, "source repository", λ i v, mkCertIdentity v (ci_RepoID i) (ci_Workflow i)
    (ci_BuildSigner i) (ci_Ref i) (ci_Commit i) (ci_Trigger i) (ci_Runner i));
  (fulcio_oid 15, "source repository identifier", λ i v, mkCertIdentity (ci_Repo i) v
    (ci_Workflow i) (ci_BuildSigner i) (ci_Ref i) (ci_Commit i) (ci_Trigger i) (ci_Runner i));
  (fulcio_oid 18, "build config", λ i v, mkCertIdentity (ci_Repo i) (ci_RepoID i) v
    (ci_BuildSigner i) (ci_Ref i) (ci_Commit i) (ci_Trigger i) (ci_Runner i));
  (fulcio_oid 9, "build signer", λ i v, mkCertIdentity (ci_Repo i) (ci_RepoID i) (ci_Workflow i)
    v (ci_Ref i) (ci_Commit i) (ci_Trigger i) (ci_Runner i));
  (fulcio_oid 14, "source ref", λ i v, mkCertIdentity (ci_Repo i) (ci_RepoID i) (ci_Workflow i)
    (ci_BuildSigner i) v (ci_Commit i) (ci_Trigger i) (ci_Runner i));
  (fulcio_oid 13, "source commit", λ i v, mkCertIdentity (ci_Repo i) (ci_RepoID i) (ci_Workflow i)
    (ci_BuildSigner i) (ci_Ref i) v (ci_Trigger i) (ci_Runner i));
  (fulcio_oid 20, "build trigger", λ i v, mkCertIdentity (ci_Repo i) (ci_RepoID i) (ci_Workflow i)
    (ci_BuildSigner i) (ci_Ref i) (ci_Commit i) v (ci_Runner i));
  (fulcio_oid 11, "runner environment", λ i v, mkCertIdentity (ci_Repo i) (ci_RepoID i)
    (ci_Workflow i) (ci_BuildSigner i) (ci_Ref i) (ci_Commit i) (ci_Trigger i) v)].

(** [^.+ - [0-9]+$] on one line: trailing digits, " - " before them, and
    something before that. *)
Fixpoint trim_digits_r (s : string) : string :=
  match s with
  | "" => ""
  | String a s' =>
      match trim_digits_r s' with
      | "" => if is_digit a then "" else String a ""
      | t => String a t
      end
  end.
Definition rekorV1Origin (line : string) : bool :=
  let head := trim_digits_r line in
  (String.length head <? String.length line)%nat && has_suffix " - " head
  && (3 <? String.length head)%nat && negb (mem_ascii newline line).

Section Verify.
Context {dg : Digest} {pki : Pki}.

Definition hasEKU (c : Certificate) (want : Z) : bool :=
  existsb (λ u, u =? want) (x_ExtKeyUsage c).

Definition chainsToFulcio (leaf : Certificate) (at_ : instant) (r : SigstoreRoot) : bool :=
  existsb (λ ca, covers (fc_start ca) (fc_end ca) at_ &&
                 cert_verifies leaf (fc_root ca) (fc_intermediates ca) at_) (sg_cas r).

(** A DER string with nothing after it. *)
Definition derString (b : bytes) : option string :=
  match asn1_string b with
  | Some (s, rest) => if String.eqb rest "" then Some s else None
  | None => None
  end.

(** The loop over the extensions: issuer V1, issuer V2 and the identity so far. *)
Fixpoint id_extensions (v1 v2 : option string) (id : CertIdentity) (es : list (list Z * bytes))
    : result identity_error (option string * option string * CertIdentity) :=
  match es with
  | [] => Ok (v1, v2, id)
  | (oid, value) :: es' =>
      if bool_decide (oid = fulcio_oid 1) then id_extensions (Some value) v2 id es'
      else if bool_decide (oid = fulcio_oid 8) then
        match derString value with
        | Some s => id_extensions v1 (Some s) id es'
        | None => Err IssuerExtension
        end
      else match List.find (λ f, bool_decide (oid = f.1.1)) id_fields with
      | None => id_extensions v1 v2 id es'
      | Some (_, doc, set) =>
          match derString value with
          | Some s => id_extensions v1 v2 (set id s) es'
          | None => Err (FieldExtension doc)
          end
      end
  end.

Definition fulcioIdentity (c : Certificate) : result identity_error (string * CertIdentity) :=
  let! (v1, v2, id) := id_extensions None None zero_CertIdentity (x_Extensions c) in
  let! issuer :=
    match v1, v2 with
    | Some a, Some b => if String.eqb a b then Ok b else Err (TwoIssuers a b)
    | _, Some b => Ok b
    | Some a, None => Ok a
    | None, None => Err NoIssuer
    end in
  if String.eqb (ci_Repo id) "" then Err NoSourceRepo else Ok (issuer, id).

(** One signature line: the key hint and the signature must be the log's. *)
Definition check_line (key : EcdsaKey) (hint textSum : bytes) (line : string)
    : option checkpoint_error :=
  let f := str_fields (trim_prefix "— " line) in
  match f with
  | [_; b64] =>
      if negb (has_prefix "— " line) then Some MalformedLine else
      match base64_decode b64 with
      | None => Some MalformedSignature
      | Some raw =>
          if (String.length raw <? 5)%nat then Some MalformedSignature else
          if negb (String.eqb (take_str 4 raw) hint)
             || negb (ecdsa_verify key textSum (drop_str 4 raw))
          then Some BadSignature else None
      end
  | _ => Some MalformedLine
  end.

Definition verifyCheckpoint (envelope : string) (size : Z) (root : bytes) (key : EcdsaKey)
    : result checkpoint_error () :=
  match cut_last_blank envelope with
  | None => Err NotSignedNote
  | Some (text0, sigs) =>
      if negb (has_suffix (String newline "") envelope) then Err NotSignedNote else
      let text := text0 +:+ String newline "" in
      match split_on newline text0 with
      | origin :: line1 :: line2 :: _ =>
          if negb (rekorV1Origin origin) then Err NotRekorV1 else
          if negb (String.eqb line1 (format_int size)) then Err (WrongTreeSize line1 size) else
          if negb (String.eqb line2 (base64_encode root)) then Err WrongRootHash else
          match MarshalPKIXPublicKey key with
          | None => Err LogKeyUnmarshalable
          | Some der =>
              let hint := take_str 4 (sha256 der) in
              if String.eqb sigs "" then Err NoSignature else
              match first_problem (map (check_line key hint (sha256 text))
                      (split_on newline (trim_suffix (String newline "") sigs))) with
              | Some p => Err p
              | None => Ok ()
              end
          end
      | _ => Err NotRekorV1
      end
  end.

(** The bytes the log's signed entry timestamp covers: canonical JSON of body,
    integratedTime, logID and logIndex. *)
Definition set_payload (tl : tlogEntry) (logID : string) : string :=
  let q x := String quote (x +:+ String quote "") in
  "{" +:+ q "body" +:+ ":" +:+ q (base64_encode (tl_CanonicalizedBody tl)) +:+ ","
  +:+ q "integratedTime" +:+ ":" +:+ format_int (tl_IntegratedTime tl) +:+ ","
  +:+ q "logID" +:+ ":" +:+ q logID +:+ ","
  +:+ q "logIndex" +:+ ":" +:+ format_int (tl_LogIndex tl) +:+ "}".

Definition guard_ok (b : bool) (e : bundle_error) : result bundle_error () :=
  if b then Ok () else Err e.

Definition lift_err {E A} (f : E → bundle_error) (r : result E A) : result bundle_error A :=
  match r with Ok a => Ok a | Err e => Err (f e) end.

Definition need {A} (o : option A) (e : bundle_error) : result bundle_error A :=
  match o with Some a => Ok a | None => Err e end.

(** The shape and the switch over what it carries, up to the integrated time. *)
Definition open_bundle (bundleJSON : bytes)
    : result bundle_error (bytes * messageSignature * tlogEntry * bytes * inclusionProof) :=
  let! b := lift_err BundleShape (strictDecode bundleJSON bundleShape dec_bundle) in
  let! _ := guard_ok (String.eqb (sb_MediaType b) bundleMediaType) (MediaType (sb_MediaType b)) in
  let! cert := need (sb_Certificate b) NoCertificate in
  let! _ := guard_ok (negb (String.eqb cert "")) NoCertificate in
  let! ms := need (sb_MessageSignature b) NoMessageSignature in
  let! tl := match sb_TlogEntries b with [tl] => Ok tl
             | l => Err (TlogCount (Z.of_nat (length l))) end in
  let! _ := guard_ok (String.eqb (tl_Kind tl) "hashedrekord" && String.eqb (tl_Version tl) "0.0.1")
              (TlogKind (tl_Kind tl) (tl_Version tl)) in
  let! set := need (tl_InclusionPromise tl) NoSET in
  let! _ := guard_ok (negb (String.eqb set "")) NoSET in
  let! proof := need (tl_InclusionProof tl) NoInclusionProof in
  let! _ := guard_ok (negb ((tl_IntegratedTime tl <=? 0) || (maxJSONInt <? tl_IntegratedTime tl)
                            || (tl_LogIndex tl <? 0) || (maxJSONInt <? tl_LogIndex tl)))
              (OutOfRange (tl_IntegratedTime tl) (tl_LogIndex tl)) in
  Ok (cert, ms, tl, set, proof).

(** 1. The certificate, from an authority the root trusts, valid when the log
    recorded the signature, for code signing. *)
Definition check_certificate (raw : bytes) (at_ : instant) (r : SigstoreRoot)
    : result bundle_error Certificate :=
  let! leaf := need (ParseCertificate raw) BadCertificate in
  let! _ := guard_ok (negb ((at_ <? x_NotBefore leaf) || (x_NotAfter leaf <? at_)))
              (NotValidAt at_) in
  let! _ := guard_ok (hasEKU leaf ExtKeyUsageCodeSigning) NotCodeSigning in
  let! _ := guard_ok (chainsToFulcio leaf at_ r) (NoFulcioChain at_) in
  Ok leaf.

(** 2. The identity: GitHub Actions, for exactly this repository. *)
Definition check_identity (leaf : Certificate) (repo : string)
    : result bundle_error CertIdentity :=
  let! (issuer, id) := lift_err Identity_ (fulcioIdentity leaf) in
  let! _ := guard_ok (String.eqb issuer GitHubActionsIssuer) (WrongIssuer issuer) in
  let! _ := guard_ok (String.eqb (ci_Repo id) (githubURL repo))
              (WrongRepo (ci_Repo id) (githubURL repo)) in
  Ok id.

(** 3. The signature is over this artifact, by the certificate's key. *)
Definition check_message (ms : messageSignature) (digest : bytes) (leaf : Certificate)
    : result bundle_error () :=
  let! _ := guard_ok (String.eqb (ms_Algorithm ms) "SHA2_256" && String.eqb (ms_Digest ms) digest)
              WrongDigest in
  let! pub := need (x_PublicKey leaf) KeyNotECDSA in
  let! _ := guard_ok (bool_decide (ek_Curve pub = P256) || bool_decide (ek_Curve pub = P384))
              KeyNotECDSA in
  guard_ok (ecdsa_verify pub digest (ms_Signature ms)) SignatureInvalid.

(** 4. The log recorded this digest, this signature, this certificate. *)
Definition check_body (raw : bytes) (ms : messageSignature) (digest : bytes) (leaf : Certificate)
    : result bundle_error () :=
  let! body := lift_err BodyShape (strictDecode raw hashedRekordShape dec_rekord) in
  let! _ := guard_ok (String.eqb (hr_Kind body) "hashedrekord"
                      && String.eqb (hr_APIVersion body) "0.0.1")
              (BodyKind (hr_Kind body) (hr_APIVersion body)) in
  let! _ := guard_ok (String.eqb (hr_HashAlgorithm body) "sha256"
                      && String.eqb (hr_HashValue body) (hex_encode digest)) BodyDigest in
  let! _ := guard_ok (String.eqb (hr_Content body) (ms_Signature ms)) BodySignature in
  match pem_decode (hr_PublicKey body) with
  | Some (ty, der, rest) =>
      guard_ok (String.eqb ty "CERTIFICATE" && is_blank rest && String.eqb der (x_Raw leaf))
        BodyCertificate
  | None => Err BodyCertificate
  end.

(** 5. The log promised inclusion at that time, under a key the root trusts. *)
Definition check_promise (tl : tlogEntry) (set : bytes) (at_ : instant) (r : SigstoreRoot)
    : result bundle_error EcdsaKey :=
  let logID := hex_encode (tl_KeyID tl) in
  let! lg := need (sg_logs r !! logID) (UnknownLog logID) in
  let! key := need (rl_key lg) (LogKeyType logID (rl_keyDetails lg)) in
  let! _ := guard_ok (covers (rl_start lg) (rl_end lg) at_) (LogNotValid logID at_) in
  let! _ := guard_ok (ecdsa_verify key (sha256 (set_payload tl logID)) set) SETInvalid in
  Ok key.

(** 6. The entry is in the log's Merkle tree, and the log signed that tree. *)
Definition check_inclusion (tl : tlogEntry) (p : inclusionProof) (key : EcdsaKey)
    : result bundle_error () :=
  let! _ := lift_err Inclusion_ (verifyInclusion (ip_LogIndex p) (ip_TreeSize p)
              (leaf_hash (tl_CanonicalizedBody tl)) (ip_Hashes p) (ip_RootHash p)) in
  lift_err Checkpoint_ (verifyCheckpoint (ip_Envelope p) (ip_TreeSize p) (ip_RootHash p) key).

(** [*out] is written as soon as check 2 passed; the caller drops it when a
    later check fails. *)
Definition verifyBundleInto (bundleJSON artifact : bytes) (repo : string) (r : SigstoreRoot)
    (out : CertIdentity) : CertIdentity * option bundle_error :=
  match
    (let! (cert, ms, tl, set, proof) := open_bundle bundleJSON in
     let at_ := tl_IntegratedTime tl * 1000000000 in
     let! leaf := check_certificate cert at_ r in
     let! id := check_identity leaf repo in
     Ok (ms, tl, set, proof, at_, leaf, id))
  with
  | Err e => (out, Some e)
  | Ok (ms, tl, set, proof, at_, leaf, id) =>
      let digest := sha256 artifact in
      (id, match
         (let! _ := check_message ms digest leaf in
          let! _ := check_body (tl_CanonicalizedBody tl) ms digest leaf in
          let! key := check_promise tl set at_ r in
          check_inclusion tl proof key)
       with Ok _ => None | Err e => Some e end)
  end.

Definition verifyBundle (bundleJSON artifact : bytes) (repo : string) (r : SigstoreRoot)
    : result bundle_error CertIdentity :=
  match verifyBundleInto bundleJSON artifact repo r zero_CertIdentity with
  | (_, Some e) => Err e
  | (id, None) => Ok id
  end.

Definition VerifyKeylessIdentity (bundleJSON artifact : bytes) (repo : string)
    (r : option SigstoreRoot) : result bundle_error CertIdentity :=
  if String.eqb repo "" then Err NoLedgerRepo else
  match r with
  | None => Err NoTrustRoot
  | Some r => verifyBundle bundleJSON artifact repo r
  end.

Definition VerifyKeylessSignature (bundleJSON artifact : bytes) (repo : string)
    (r : option SigstoreRoot) : result bundle_error () :=
  let! _ := VerifyKeylessIdentity bundleJSON artifact repo r in Ok ().

(** ** One entry *)

(** What a verifier holds from outside the ledger. *)
Record Trust := mkTrust {
  t_RootPub : option bytes;
  t_Repo : string;
  t_SigstoreRoot : option SigstoreRoot }.

Definition zero_Trust : Trust := mkTrust None "" None.

Inductive keyless_problem :=
| Format6NeedsSigstore (keyid : string)
| BundleOnKeyedEntry (keyid : string)
| ProblemNoLedgerRepo
| SigstoreNeedsFormat6 (format : string)
| KeylessAuthority
| KeylessAndSigned
| KeylessNoBundle
| KeylessBadHash (hash : string)
| KeylessBundle (e : bundle_error).

Definition KeylessArtifact (e : Entry) : option bytes :=
  let '(b, ok) := hex_decode (e_Hash e) in
  if negb ok || negb (String.length b =? 32)%nat then None else Some b.

Definition keylessShapeProblem (e : Entry) : option keyless_problem :=
  if negb (String.eqb (e_Format e) Format6) then Some (SigstoreNeedsFormat6 (e_Format e))
  else if KindIs e KindSigner || KindIs e KindCheckpoint then Some KeylessAuthority
  else if negb (String.eqb (e_Signature e) "") then Some KeylessAndSigned
  else if String.eqb (e_Sigstore e) "" then Some KeylessNoBundle
  else None.

(** The problem, the repository that signed, whether the bundle was put to a
    check, and the certificate's facts. *)
Definition keylessProblem (e : Entry) (t : Trust) (integrityOnly : bool)
    : option keyless_problem * string * bool * option CertIdentity :=
  let keyless := String.eqb (e_KeyID e) KeyIDSigstore in
  if negb keyless && String.eqb (e_Format e) Format6
  then (Some (Format6NeedsSigstore (e_KeyID e)), "", false, None) else
  if negb keyless && negb (String.eqb (e_Sigstore e) "")
  then (Some (BundleOnKeyedEntry (e_KeyID e)), "", false, None) else
  if negb keyless then (None, "", false, None) else
  if integrityOnly then (keylessShapeProblem e, "", false, None) else
  if String.eqb (t_Repo t) "" then (Some ProblemNoLedgerRepo, "", false, None) else
  match keylessShapeProblem e with
  | Some p => (Some p, "", false, None)
  | None =>
      match KeylessArtifact e with
      | None => (Some (KeylessBadHash (e_Hash e)), "", false, None)
      | Some art =>
          match VerifyKeylessIdentity (e_Sigstore e) art (t_Repo t) (t_SigstoreRoot t) with
          | Err err => (Some (KeylessBundle err), "", bool_decide (is_Some (t_SigstoreRoot t)), None)
          | Ok id => (None, githubURL (t_Repo t), true, Some id)
          end
      end
  end.
End Verify.

(** ** What an accepted bundle shows *)

Section Sound.
Context {dg : Digest} {pki : Pki}.

Lemma guard_ok_Ok b e u : guard_ok b e = Ok u ↔ b = true.
Proof. destruct b, u; cbn; split; done. Qed.
Lemma need_Ok {A} (o : option A) e a : need o e = Ok a ↔ o = Some a.
Proof. destruct o; cbn; split; congruence. Qed.
Lemma lift_err_Ok {E A} (f : E → bundle_error) (r : result E A) a :
  lift_err f r = Ok a ↔ r = Ok a.
Proof. destruct r; cbn; split; congruence. Qed.

(** Open a chain of checks that passed. *)
Ltac passed :=
  repeat match goal with
  | H : rbind _ _ = Ok _ |- _ => apply rbind_Ok in H as (? & ? & H)
  | H : guard_ok _ _ = Ok _ |- _ => apply guard_ok_Ok in H
  | H : need _ _ = Ok _ |- _ => apply need_Ok in H
  | H : lift_err _ _ = Ok _ |- _ => apply lift_err_Ok in H
  | H : context [let '(_, _) := ?x in _] |- _ => destruct x
  | H : Ok _ = Ok _ |- _ => injection H as <- || injection H as <- <-
  | x : () |- _ => destruct x
  end; bools.

Lemma verifyBundle_Ok b art repo r id :
  verifyBundle b art repo r = Ok id →
  ∃ cert ms tl set proof leaf key,
    open_bundle b = Ok (cert, ms, tl, set, proof) ∧
    let at_ := tl_IntegratedTime tl * 1000000000 in
    check_certificate cert at_ r = Ok leaf ∧ check_identity leaf repo = Ok id ∧
    check_message ms (sha256 art) leaf = Ok () ∧
    check_body (tl_CanonicalizedBody tl) ms (sha256 art) leaf = Ok () ∧
    check_promise tl set at_ r = Ok key ∧ check_inclusion tl proof key = Ok ().
Proof.
  unfold verifyBundle, verifyBundleInto.
  destruct (open_bundle b) as [[[[[cert ms] tl] set] proof]|e]; [|done]. cbn [rbind].
  destruct (check_certificate cert _ r) as [leaf|e] eqn:E1; [|done]. cbn [rbind].
  destruct (check_identity leaf repo) as [id'|e] eqn:E2; [|done]. cbn [rbind].
  destruct (check_message ms (sha256 art) leaf) as [[]|e] eqn:E3; [|done]. cbn [rbind].
  destruct (check_body _ ms (sha256 art) leaf) as [[]|e] eqn:E4; [|done]. cbn [rbind].
  destruct (check_promise tl set _ r) as [key|e] eqn:E5; [|done]. cbn [rbind].
  destruct (check_inclusion tl proof key) as [[]|e] eqn:E6; [|done]. intros [= <-].
  by exists cert, ms, tl, set, proof, leaf, key.
Qed.

Lemma check_certificate_Ok cert at_ r leaf :
  check_certificate cert at_ r = Ok leaf →
  ParseCertificate cert = Some leaf ∧ x_NotBefore leaf <= at_ <= x_NotAfter leaf ∧
  hasEKU leaf ExtKeyUsageCodeSigning = true ∧ chainsToFulcio leaf at_ r = true.
Proof. unfold check_certificate. intros H. passed. subst. split_and!; try done; lia. Qed.

Lemma check_identity_Ok leaf repo id :
  check_identity leaf repo = Ok id →
  fulcioIdentity leaf = Ok (GitHubActionsIssuer, id) ∧ ci_Repo id = githubURL repo.
Proof. unfold check_identity. intros H. passed. by subst. Qed.

Lemma check_message_Ok ms digest leaf :
  check_message ms digest leaf = Ok () →
  ms_Digest ms = digest ∧
  ∃ pub, x_PublicKey leaf = Some pub ∧ ek_Curve pub ∈ [P256; P384] ∧
         ecdsa_verify pub digest (ms_Signature ms) = true.
Proof.
  unfold check_message. intros H. passed. split; [done|]. eexists. split_and!; [done| |done].
  apply orb_true_iff in H2 as [->%bool_decide_eq_true| ->%bool_decide_eq_true]; set_solver.
Qed.

Lemma check_body_Ok raw ms digest leaf :
  check_body raw ms digest leaf = Ok () →
  ∃ body rest, strictDecode raw hashedRekordShape dec_rekord = Ok body ∧
    hr_HashValue body = hex_encode digest ∧ hr_Content body = ms_Signature ms ∧
    pem_decode (hr_PublicKey body) = Some ("CERTIFICATE", x_Raw leaf, rest).
Proof.
  unfold check_body. intros H. passed.
  destruct (pem_decode _) as [[[ty der] rest]|] eqn:E; [|done]. passed. subst.
  by eexists _, _.
Qed.

Lemma check_promise_Ok tl set at_ r key :
  check_promise tl set at_ r = Ok key →
  ∃ lg, sg_logs r !! hex_encode (tl_KeyID tl) = Some lg ∧ rl_key lg = Some key ∧
    covers (rl_start lg) (rl_end lg) at_ = true ∧
    ecdsa_verify key (sha256 (set_payload tl (hex_encode (tl_KeyID tl)))) set = true.
Proof. unfold check_promise. intros H. passed. subst. by eexists. Qed.

Lemma check_inclusion_Ok tl p key :
  check_inclusion tl p key = Ok () →
  verifyInclusion (ip_LogIndex p) (ip_TreeSize p) (leaf_hash (tl_CanonicalizedBody tl))
    (ip_Hashes p) (ip_RootHash p) = Ok () ∧
  verifyCheckpoint (ip_Envelope p) (ip_TreeSize p) (ip_RootHash p) key = Ok ().
Proof. unfold check_inclusion. intros H. by passed. Qed.

(** C30. An accepted bundle carries the whole chain of evidence: a code-signing
    certificate valid at the logged time that chains to an authority of the
    trust root and names a GitHub Actions run of exactly this repository; a
    signature by its key over this artifact; a log entry recording this digest,
    this signature and this certificate; the log's signed promise under a key
    the root trusts at that time; the entry's inclusion in the log's tree, and
    the log's signature on that tree. *)
Theorem verifyBundle_sound b art repo r id :
  verifyBundle b art repo r = Ok id →
  ∃ leaf pub sig tl body rest lg key set p,
    let at_ := tl_IntegratedTime tl * 1000000000 in
    (x_NotBefore leaf <= at_ <= x_NotAfter leaf ∧
     hasEKU leaf ExtKeyUsageCodeSigning = true ∧
     ∃ ca, ca ∈ sg_cas r ∧ covers (fc_start ca) (fc_end ca) at_ = true ∧
           cert_verifies leaf (fc_root ca) (fc_intermediates ca) at_ = true) ∧
    (fulcioIdentity leaf = Ok (GitHubActionsIssuer, id) ∧ ci_Repo id = githubURL repo) ∧
    (x_PublicKey leaf = Some pub ∧ ecdsa_verify pub (sha256 art) sig = true) ∧
    (strictDecode (tl_CanonicalizedBody tl) hashedRekordShape dec_rekord = Ok body ∧
     hr_HashValue body = hex_encode (sha256 art) ∧ hr_Content body = sig ∧
     pem_decode (hr_PublicKey body) = Some ("CERTIFICATE", x_Raw leaf, rest)) ∧
    (sg_logs r !! hex_encode (tl_KeyID tl) = Some lg ∧ rl_key lg = Some key ∧
     covers (rl_start lg) (rl_end lg) at_ = true ∧
     ecdsa_verify key (sha256 (set_payload tl (hex_encode (tl_KeyID tl)))) set = true) ∧
    verifyInclusion (ip_LogIndex p) (ip_TreeSize p) (leaf_hash (tl_CanonicalizedBody tl))
      (ip_Hashes p) (ip_RootHash p) = Ok () ∧
    verifyCheckpoint (ip_Envelope p) (ip_TreeSize p) (ip_RootHash p) key = Ok ().
Proof.
  intros (cert & ms & tl & set & p & leaf & key & _ & H1 & H2 & H3 & H4 & H5 & H6)%verifyBundle_Ok.
  apply check_certificate_Ok in H1 as (_ & Hv & He & Hc).
  apply check_identity_Ok in H2. apply check_message_Ok in H3 as (_ & pub & Hp & _ & Hs).
  apply check_body_Ok in H4 as (body & rest & Hb). apply check_promise_Ok in H5 as (lg & Hl).
  apply check_inclusion_Ok in H6 as [Hi Hck].
  exists leaf, pub, (ms_Signature ms), tl, body, rest, lg, key, set, p.
  cbv zeta. refine (conj (conj Hv (conj He _)) (conj H2 (conj (conj Hp Hs)
    (conj Hb (conj Hl (conj Hi Hck)))))).
  unfold chainsToFulcio in Hc. apply existsb_exists in Hc as (ca & Hin & Hca).
  bools. exists ca. by rewrite list_elem_of_In.
Qed.

(** A bundle is good for one artifact: whatever repository, trust root or
    certificate it is accepted under, the artifact is the same; or the two clash under
    SHA-256. A genuine bundle lifted onto another entry is refused. *)
Theorem verifyBundle_one_artifact b art1 repo1 r1 id1 art2 repo2 r2 id2 :
  verifyBundle b art1 repo1 r1 = Ok id1 → verifyBundle b art2 repo2 r2 = Ok id2 →
  art1 = art2 ∨ clash art1 art2.
Proof.
  intros (c1 & ms1 & tl1 & s1 & p1 & l1 & k1 & O1 & _ & _ & M1 & _)%verifyBundle_Ok.
  intros (c2 & ms2 & tl2 & s2 & p2 & l2 & k2 & O2 & _ & _ & M2 & _)%verifyBundle_Ok.
  rewrite O1 in O2. injection O2 as <- <- <- <- <-.
  apply check_message_Ok in M1 as [D1 _], M2 as [D2 _].
  apply sha256_inj_or. congruence.
Qed.

Lemma keylessShape_None e :
  keylessShapeProblem e = None →
  e_Format e = Format6 ∧ e_Sigstore e ≠ "" ∧ e_Signature e = "" ∧
  e_Kind e ≠ KindSigner ∧ e_Kind e ≠ KindCheckpoint.
Proof.
  unfold keylessShapeProblem, KindIs. intros H.
  repeat (match type of H with (if ?b then _ else _) = _ => destruct b eqn:?; [done|] end).
  by bools.
Qed.

Lemma keylessProblem_shape e t io signedBy checked cert :
  keylessProblem e t io = (None, signedBy, checked, cert) → e_KeyID e = KeyIDSigstore →
  keylessShapeProblem e = None.
Proof.
  unfold keylessProblem. intros H Hk. rewrite Hk, String.eqb_refl in H. cbn [negb andb] in H.
  destruct io; [by injection H|]. destruct (String.eqb (t_Repo t) ""); [done|].
  by destruct (keylessShapeProblem e).
Qed.

(** Format 6 and keyid "sigstore" go together, and only a keyless entry
    carries a bundle, in every entry the keyless check has no problem with —
    integrity-only reads included; a keyless one is neither a signer change nor
    a checkpoint and carries no ed25519 signature. *)
Theorem keylessProblem_pairing e t io signedBy checked cert :
  keylessProblem e t io = (None, signedBy, checked, cert) →
  (e_KeyID e = KeyIDSigstore ↔ e_Format e = Format6) ∧
  (e_KeyID e = KeyIDSigstore ↔ e_Sigstore e ≠ "") ∧
  (e_KeyID e = KeyIDSigstore →
     e_Signature e = "" ∧ e_Kind e ≠ KindSigner ∧ e_Kind e ≠ KindCheckpoint).
Proof.
  intros H. destruct (decide (e_KeyID e = KeyIDSigstore)) as [Hk|Hk].
  - apply keylessProblem_shape, keylessShape_None in H; [|done]. naive_solver.
  - unfold keylessProblem in H. apply String.eqb_neq in Hk as Hk'. rewrite Hk' in H.
    cbn [negb andb] in H. destruct (String.eqb_spec (e_Format e) Format6); [done|].
    destruct (String.eqb_spec (e_Sigstore e) ""); [|done]. naive_solver.
Qed.

(** A keyless entry's facts come only from a bundle that verified for the
    named repository. *)
Lemma keylessProblem_cert e t io p signedBy checked id :
  keylessProblem e t io = (p, signedBy, checked, Some id) →
  p = None ∧ io = false ∧ e_KeyID e = KeyIDSigstore ∧ signedBy = githubURL (t_Repo t) ∧
  checked = true ∧
  ∃ art, KeylessArtifact e = Some art ∧
    VerifyKeylessIdentity (e_Sigstore e) art (t_Repo t) (t_SigstoreRoot t) = Ok id.
Proof.
  unfold keylessProblem. intros H.
  destruct (String.eqb_spec (e_KeyID e) KeyIDSigstore) as [Hk|Hk]; cbn [negb andb] in H.
  - destruct io; [done|]. destruct (String.eqb (t_Repo t) ""); [done|].
    destruct (keylessShapeProblem e); [done|].
    destruct (KeylessArtifact e) as [art|]; [|done].
    destruct (VerifyKeylessIdentity _ _ _ _) as [id'|] eqn:E; [|done].
    injection H as <- <- <- <-. split_and!; try done. by exists art.
  - destruct (String.eqb (e_Format e) Format6); [done|].
    by destruct (String.eqb (e_Sigstore e) "").
Qed.
End Sound.
