(* ===== verification/Verify.v ===== *)
(** * The chain walk: internal/ledger/verify.go, level.go

    One loop over the entries, [walk], behind Verify, VerifyWithSigners and
    VerifyIntegrity. A message is a constructor of [problem] or [note] carrying
    what the message prints; [None] and [[]] are the empty string. *)
From S2P Require Import Prelude GoLib Crypto JsonText Json Canonical Rows Entry Signers Keyless.
Local Open Scope string_scope.
Local Open Scope list_scope.
Local Open Scope Z_scope.

(** ** Verdicts *)

Inductive SigLevel :=
| NoLevel                           (** the empty string *)
| LevelUnsigned
| LevelKeylessUnpinned
| LevelKeylessPinned
| LevelKeylessPinnedUnchecked
| LevelKey.
#[export] Instance SigLevel_eq_dec : EqDecision SigLevel.
Proof. solve_decision. Defined.

Definition LevelSentence (l : SigLevel) : string :=
  match l with
  | NoLevel => ""
  | LevelUnsigned => "unsigned: nothing shows who wrote it"
  | LevelKeylessUnpinned => "signed keylessly by a GitHub Actions workflow of this repository, on the ref it names; any branch could have signed, because no workflow is pinned"
  | LevelKeylessPinned => "signed keylessly by the workflow and ref this ledger's root pinned"
  | LevelKeylessPinnedUnchecked => "signed keylessly by the workflow and ref this ledger's pin names; the pin was not checked against a root key you named"
  | LevelKey => "signed by a key this ledger's root holds or registered"
  end.

Inductive problem :=
| HashMismatch
| ScanUIDMismatch
| BrokenLink (prev prevHash : string)
| KeylessP (p : keyless_problem)
| PinP (p : pin_refusal)
| SeedP (p : seed_problem)
| KeyP (p : key_problem)
| RootSignatureInvalid
| KeySignatureInvalid (name keyid : string)
| CheckpointAt (position : Z)
| ShapeP (p : shape_problem)
| ChangeP (p : change_problem)
| RetractsUnknown (target : string)
| AdjudicatesUnknown.

Inductive note :=
| ChangeN (n : change_note)
| CheckpointN (entries : Z) (through : instant) (head : string)
| RetractsN (target reason : string)
| ReviewN (scope model : string) (reproduced codeRead hypothesis : Z)
| AdjudicationN (verdict ref by_ reason : string)
| Format2N
| UnsignedAmongSigned
| SelfReportedN (format : string).

Record ChainCheck := mkChainCheck {
  cc_File : string;
  cc_ScanUID : string;
  cc_Hash : string;
  cc_Commit : string;
  cc_HashOK : bool;
  cc_LinkOK : bool;
  cc_Signed : bool;
  cc_SigOK : bool;
  cc_SigChecked : bool;
  cc_Keyless : bool;
  cc_KeyID : string;
  cc_Signer : string;
  cc_Cert : option CertIdentity;
  cc_Level : SigLevel;
  cc_Problem : option problem;
  cc_Genesis : bool;
  cc_Kind : string;
  cc_Note : list note }.

(** [levelOf] reads these five facts of a check. *)
Definition levelOf (problem_ : option problem) (signed sigChecked sigOK keyless : bool)
    (pinned pinChecked : bool) : SigLevel :=
  match problem_ with
  | Some _ => NoLevel
  | None =>
      if negb signed then LevelUnsigned
      else if negb sigChecked || negb sigOK then NoLevel
      else if keyless && pinned && pinChecked then LevelKeylessPinned
      else if keyless && pinned then LevelKeylessPinnedUnchecked
      else if keyless then LevelKeylessUnpinned
      else LevelKey
  end.

(** The tiers a review's findings carry. *)
Definition TierReproduced : string := "REPRODUCED".
Definition TierCodeRead : string := "CODE-READ".

Definition Review_Counts (r : Review) : Z * Z * Z :=
  fold_left (λ acc f,
    let '(rep, cr, hy) := acc in
    if String.eqb (fi_Tier f) TierReproduced then (rep + 1, cr, hy)
    else if String.eqb (fi_Tier f) TierCodeRead then (rep, cr + 1, hy)
    else (rep, cr, hy + 1)) (rv_Findings r) (0, 0, 0).

(** "<hash>#Rn" as "<hash12>#Rn". *)
Definition shortRef (ref : string) : string :=
  let '(h, id, _) := cut "#" ref in
  let h := if (12 <? String.length h)%nat then take_str 12 h else h in
  if String.eqb id "" then h else h +:+ "#" +:+ id.

Definition signed (e : Entry) : bool :=
  negb (String.eqb (e_Signature e) "") || negb (String.eqb (e_Sigstore e) "").

Section Walk.
Context {ft : FloatText} {dg : Digest} {pki : Pki} {ed : Ed25519}.

(** The loop's variables: the index, the previous hash, the hashes seen (of
    entries, of reviews) and the signer set. *)
Record walk_state := mkWalkState {
  ws_pos : Z;
  ws_prevHash : string;
  ws_seen : gset string;
  ws_seenReview : gset string;
  ws_set : SignerSet }.

(** The signature half of one check. *)
Record sig_verdict := mkSigVerdict {
  sv_SigOK : bool;
  sv_SigChecked : bool;
  sv_Signer : string;
  sv_Cert : option CertIdentity;
  sv_keyless : option keyless_problem;
  sv_keyProblem : option key_problem;
  sv_name : string;
  sv_key : option bytes }.

(** A keyless entry by the repository that signed it; any other by the key the
    set holds for its keyid at this point. Hex errors are dropped, as in the
    code: the bytes decoded before the error are used. *)
Definition check_signature (set : SignerSet) (e : Entry) (t : Trust) (integrityOnly : bool)
    : sig_verdict :=
  let '(keyless, signedBy, checked, cert) := keylessProblem e t integrityOnly in
  if String.eqb (e_KeyID e) KeyIDSigstore then {|
    sv_SigOK := bool_decide (keyless = None) && negb (String.eqb signedBy "");
    sv_SigChecked := checked; sv_Signer := signedBy; sv_Cert := cert;
    sv_keyless := keyless; sv_keyProblem := None; sv_name := ""; sv_key := None |}
  else
    let '(name, key, keyProblem) := resolve set e in
    let verdict :=
      match key with
      | Some k => if String.eqb (e_Signature e) "" then None
                  else Some (ed25519_verify k (hex_decode (e_Hash e)).1
                                              (hex_decode (e_Signature e)).1)
      | None => None
      end in
    {| sv_SigOK := default false verdict; sv_SigChecked := bool_decide (is_Some verdict);
       sv_Signer := name; sv_Cert := None; sv_keyless := keyless;
       sv_keyProblem := keyProblem; sv_name := name; sv_key := key |}.

(** The pin judges only a keyless entry whose bundle verified. *)
Definition pin_verdict (set : SignerSet) (e : Entry) (t : Trust) (v : sig_verdict)
    : option pin_refusal * bool * bool :=
  match String.eqb (e_KeyID e) KeyIDSigstore, sv_keyless v, sv_Cert v, ss_pin set with
  | true, None, Some cert, Some pin =>
      let p := PinProblem pin (ss_pinFile set) cert (t_Repo t) in
      (p, bool_decide (p = None), ss_pinChecked set)
  | _, _, _, _ => (None, false, false)
  end.

Definition uid_ok (e : Entry) : bool :=
  if negb (String.eqb (e_Format e) Format2) && IsScan e
     && negb (bool_decide (b_Scan (e_Bundle e) = zero_ScanRow))
  then String.eqb (e_ScanUID e) (ScanUID (b_Scan (e_Bundle e)) (e_Pushed e))
       && String.eqb (sr_ScanUID (b_Scan (e_Bundle e))) (e_ScanUID e)
  else true.

Definition hash_ok (e : Entry) : bool :=
  match EntryHash e with Some h => String.eqb h (e_Hash e) | None => false end.

(** The hash of the review an adjudication names. *)
Definition adjudicated (e : Entry) : string :=
  match e_Adjudication e with Some a => (cut "#" (adj_Adjudicates a)).1.1 | None => "" end.

(** The [switch]: the first refusal. *)
Definition entry_problem (w : walk_state) (e : Entry) (v : sig_verdict)
    (pinProblem : option pin_refusal) : option problem :=
  let shape := EntryShapeProblem e in
  let clean := bool_decide (shape = None) in
  let change := if KindIs e KindSigner && clean then changeProblem (ws_set w) e else None in
  let seed := if KindIs e KindCheckpoint && (ws_pos w =? 0) && clean
              then seedProblem (ws_set w) e else None in
  let bad_sig := negb (String.eqb (e_Signature e) "") && bool_decide (is_Some (sv_key v))
                 && negb (sv_SigOK v) in
  first_problem [
    check (negb (hash_ok e)) HashMismatch;
    check (negb (uid_ok e)) ScanUIDMismatch;
    check (negb (String.eqb (e_Prev e) (ws_prevHash w))) (BrokenLink (e_Prev e) (ws_prevHash w));
    KeylessP <$> sv_keyless v;
    PinP <$> pinProblem;
    check (bool_decide (seed = Some errCheckpointNotRoot)) (SeedP errCheckpointNotRoot);
    KeyP <$> sv_keyProblem v;
    check (bad_sig && String.eqb (sv_name v) "root") RootSignatureInvalid;
    check bad_sig (KeySignatureInvalid (sv_name v) (e_KeyID e));
    check (KindIs e KindCheckpoint && negb (ws_pos w =? 0)) (CheckpointAt (ws_pos w + 1));
    ShapeP <$> shape;
    SeedP <$> seed;
    ChangeP <$> change;
    check (KindIs e KindRetract && negb (bool_decide (e_Retracts e ∈ ws_seen w)))
      (RetractsUnknown (e_Retracts e));
    check (KindIs e KindAdjudication && negb (bool_decide (adjudicated e ∈ ws_seenReview w)))
      AdjudicatesUnknown ].

(** What a clean entry means for the chain. *)
Definition kind_note (e : Entry) : list note :=
  if KindIs e KindSigner then
    match e_Signer e with Some c => [ChangeN (changeNote c)] | None => [] end
  else if KindIs e KindCheckpoint then
    match e_Checkpoint e with
    | Some cp => [CheckpointN (cp_Entries cp) (cp_Through cp) (cp_Head cp)] | None => [] end
  else if KindIs e KindRetract then [RetractsN (e_Retracts e) (e_Reason e)]
  else if KindIs e KindReview then
    match e_Review e with
    | Some r => let '(rep, cr, hy) := Review_Counts r in
                [ReviewN (rv_Scope r) (rv_ReviewerModel r) rep cr hy]
    | None => []
    end
  else if KindIs e KindAdjudication then
    match e_Adjudication e with
    | Some a => [AdjudicationN (adj_Verdict a) (shortRef (adj_Adjudicates a)) (adj_By a) (adj_Reason a)]
    | None => []
    end
  else [].

Definition entry_notes (anySigned : bool) (e : Entry) : list note :=
  kind_note e
  ++ (if String.eqb (e_Format e) Format2 then [Format2N] else [])
  ++ (if negb (signed e) && anySigned then [UnsignedAmongSigned] else [])
  ++ (if negb (KeyIDIsHashed (e_Format e)) && signed e then [SelfReportedN (e_Format e)] else []).

Definition check_commit (e : Entry) (clean : bool) : string :=
  match e_Review e with
  | Some r => if KindIs e KindReview && clean then rv_Commit r else sr_Commit (b_Scan (e_Bundle e))
  | None => sr_Commit (b_Scan (e_Bundle e))
  end.

(** The set moves only on an entry that checked clean, and after its check. *)
Definition next_set (w : walk_state) (e : Entry) (clean : bool) : SignerSet :=
  if negb clean then ws_set w
  else if KindIs e KindSigner then
    match e_Signer e with Some c => apply (ws_set w) c (e_File e) | None => ws_set w end
  else if KindIs e KindCheckpoint && (ws_pos w =? 0) then
    match e_Checkpoint e with Some cp => seed (ws_set w) (cp_Signers cp) | None => ws_set w end
  else ws_set w.

Definition walk_step (t : Trust) (integrityOnly anySigned : bool) (w : walk_state) (e : Entry)
    : ChainCheck * walk_state :=
  let v := check_signature (ws_set w) e t integrityOnly in
  let '(pinProblem, pinned, pinChecked) := pin_verdict (ws_set w) e t v in
  let p := entry_problem w e v pinProblem in
  let clean := bool_decide (p = None) in
  let keyless := String.eqb (e_KeyID e) KeyIDSigstore in
  ({| cc_File := e_File e; cc_ScanUID := e_ScanUID e; cc_Hash := e_Hash e;
      cc_Commit := check_commit e clean;
      cc_HashOK := hash_ok e; cc_LinkOK := String.eqb (e_Prev e) (ws_prevHash w);
      cc_Signed := signed e; cc_SigOK := sv_SigOK v; cc_SigChecked := sv_SigChecked v;
      cc_Keyless := keyless; cc_KeyID := e_KeyID e; cc_Signer := sv_Signer v;
      cc_Cert := sv_Cert v;
      cc_Level := levelOf p (signed e) (sv_SigChecked v) (sv_SigOK v) keyless pinned pinChecked;
      cc_Problem := p; cc_Genesis := (ws_pos w =? 0); cc_Kind := e_Kind e;
      cc_Note := if clean then entry_notes anySigned e else [] |},
   {| ws_pos := ws_pos w + 1; ws_prevHash := e_Hash e; ws_seen := {[ e_Hash e ]} ∪ ws_seen w;
      ws_seenReview := if KindIs e KindReview then {[ e_Hash e ]} ∪ ws_seenReview w
                       else ws_seenReview w;
      ws_set := next_set w e clean |}).

Fixpoint walk_from (t : Trust) (io anySigned : bool) (w : walk_state) (entries : list Entry)
    : list ChainCheck * walk_state :=
  match entries with
  | [] => ([], w)
  | e :: entries' =>
      let '(c, w') := walk_step t io anySigned w e in
      let '(cs, w'') := walk_from t io anySigned w' entries' in (c :: cs, w'')
  end.

Definition walk_init (entries : list Entry) (t : Trust) : walk_state :=
  mkWalkState 0 "" ∅ ∅ (newSignerSet entries (t_RootPub t)).

Definition walk (entries : list Entry) (t : Trust) (integrityOnly : bool)
    : list ChainCheck * SignerSet :=
  let '(cs, w) := walk_from t integrityOnly (existsb signed entries) (walk_init entries t) entries in
  (cs, ws_set w).

Definition VerifyWithSigners (entries : list Entry) (t : Trust) : list ChainCheck * SignerSet :=
  walk entries t false.
Definition Verify (entries : list Entry) (t : Trust) : list ChainCheck :=
  (VerifyWithSigners entries t).1.
Definition VerifyIntegrity (entries : list Entry) : list ChainCheck :=
  (walk entries zero_Trust true).1.
End Walk.
