(* ===== verification/VerifyFacts.v ===== *)
(** * What the chain walk establishes

    Rule-by-rule facts of one step, then the theorems about whole walks: the
    signer set's invariant and where an accepted key's authority comes from, what
    a clean chain fixes (links, targets, content), what a read under a root key
    or without any trust can and cannot say. *)
From S2P Require Import Prelude GoLib Crypto JsonText Json Canonical Rows Entry Signers Keyless.
From S2P Require Import Verify.
Local Open Scope string_scope.
Local Open Scope list_scope.
Local Open Scope Z_scope.

Section Steps.
Context {ft : FloatText} {dg : Digest} {pki : Pki} {ed : Ed25519}.
Context (t : Trust) (io any : bool).

(** The state after some entries, and the check of one more. *)
Definition after (w : walk_state) (es : list Entry) : walk_state := (walk_from t io any w es).2.
Definition check_of (w : walk_state) (e : Entry) : ChainCheck := (walk_step t io any w e).1.
Definition step_of (w : walk_state) (e : Entry) : walk_state := (walk_step t io any w e).2.

Lemma walk_from_cons w e es :
  walk_from t io any w (e :: es) =
    (check_of w e :: (walk_from t io any (step_of w e) es).1,
     (walk_from t io any (step_of w e) es).2).
Proof.
  cbn [walk_from]. unfold check_of, step_of. destruct (walk_step t io any w e) as [c w'].
  cbn. by destruct (walk_from t io any w' es).
Qed.

Lemma walk_from_app w es1 es2 :
  walk_from t io any w (es1 ++ es2) =
    ((walk_from t io any w es1).1 ++ (walk_from t io any (after w es1) es2).1,
     (walk_from t io any (after w es1) es2).2).
Proof.
  revert w; induction es1 as [|e es1 IH]; intros w; unfold after; cbn [app].
  - cbn. by destruct (walk_from t io any w es2).
  - rewrite !walk_from_cons. cbn [fst snd app]. rewrite IH. reflexivity.
Qed.

Lemma length_walk_from w es : length (walk_from t io any w es).1 = length es.
Proof. revert w; induction es; intros w; [done|]. rewrite walk_from_cons. cbn. by rewrite IHes. Qed.

Lemma after_snoc w es e : after w (es ++ [e]) = step_of (after w es) e.
Proof. unfold after at 1. by rewrite walk_from_app, walk_from_cons. Qed.

(** The check at a position is made in the state the entries before it left. *)
Lemma walk_from_lookup w es i c :
  (walk_from t io any w es).1 !! i = Some c ↔
  ∃ e, es !! i = Some e ∧ c = check_of (after w (take i es)) e.
Proof.
  revert w i; induction es as [|e es IH]; intros w i.
  - cbn. rewrite !lookup_nil. naive_solver.
  - rewrite walk_from_cons. cbn [fst]. destruct i as [|i]; cbn [lookup list_lookup take].
    + unfold after. cbn. naive_solver.
    + rewrite IH. unfold after. by rewrite walk_from_cons.
Qed.

(** ** One step *)

Lemma check_problem w e :
  cc_Problem (check_of w e) =
    entry_problem w e (check_signature (ws_set w) e t io)
      (pin_verdict (ws_set w) e t (check_signature (ws_set w) e t io)).1.1.
Proof.
  unfold check_of, walk_step. by destruct (pin_verdict _ _ _ _) as [[p pd] pc].
Qed.

Lemma step_state w e :
  step_of w e = mkWalkState (ws_pos w + 1) (e_Hash e) ({[ e_Hash e ]} ∪ ws_seen w)
    (if KindIs e KindReview then {[ e_Hash e ]} ∪ ws_seenReview w else ws_seenReview w)
    (next_set w e (bool_decide (cc_Problem (check_of w e) = None))).
Proof.
  rewrite check_problem. unfold step_of, walk_step.
  by destruct (pin_verdict _ _ _ _) as [[p pd] pc].
Qed.

(** Everything a clean check passed. *)
Record clean_facts (w : walk_state) (e : Entry) : Prop := {
  cf_hash : EntryHash e = Some (e_Hash e);
  cf_uid : uid_ok e = true;
  cf_link : e_Prev e = ws_prevHash w;
  cf_keyless : sv_keyless (check_signature (ws_set w) e t io) = None;
  cf_pin : (pin_verdict (ws_set w) e t (check_signature (ws_set w) e t io)).1.1 = None;
  cf_key : sv_keyProblem (check_signature (ws_set w) e t io) = None;
  cf_sig : e_Signature e ≠ "" → is_Some (sv_key (check_signature (ws_set w) e t io)) →
           sv_SigOK (check_signature (ws_set w) e t io) = true;
  cf_checkpoint : e_Kind e = KindCheckpoint → ws_pos w = 0;
  cf_shape : EntryShapeProblem e = None;
  cf_seed : e_Kind e = KindCheckpoint → seedProblem (ws_set w) e = None;
  cf_change : e_Kind e = KindSigner → changeProblem (ws_set w) e = None;
  cf_retract : e_Kind e = KindRetract → e_Retracts e ∈ ws_seen w;
  cf_adjudication : e_Kind e = KindAdjudication → adjudicated e ∈ ws_seenReview w
}.

Lemma fmap_None {A B} (f : A → B) (o : option A) : f <$> o = None → o = None.
Proof. by destruct o. Qed.

Lemma clean_check w e : cc_Problem (check_of w e) = None → clean_facts w e.
Proof.
  rewrite check_problem. unfold entry_problem. rewrite first_problem_None.
  rewrite !Forall_cons, !check_None.
  intros (H1 & H2 & H3 & H4 & H5 & H6 & H7 & H8 & H9 & H10 & H11 & H12 & H13 & H14 & H15 & _).
  apply fmap_None in H4, H5, H7, H11, H12, H13. unfold KindIs in *.
  split; try done.
  - apply negb_false_iff in H1. unfold hash_ok in H1. destruct (EntryHash e); [|done]. by bools; subst.
  - by apply negb_false_iff in H2.
  - apply negb_false_iff in H3. by bools.
  - intros Hs Hk. apply String.eqb_neq in Hs. rewrite Hs in H9. cbn [negb andb] in H9.
    rewrite bool_decide_eq_true_2 in H9 by done. cbn in H9. by apply negb_false_iff in H9.
  - intros Hk. rewrite Hk in H10. cbn in H10. by destruct (Z.eqb_spec (ws_pos w) 0).
  - intros Hk. rewrite Hk, String.eqb_refl in H10, H12. cbn [andb] in H10.
    apply negb_false_iff in H10. rewrite H10, H11, bool_decide_eq_true_2 in H12 by done. exact H12.
  - intros Hk. rewrite Hk, String.eqb_refl, H11, bool_decide_eq_true_2 in H13 by done. exact H13.
  - intros Hk. rewrite Hk, String.eqb_refl in H14. cbn [andb] in H14.
    by apply negb_false_iff, bool_decide_eq_true in H14.
  - intros Hk. rewrite Hk, String.eqb_refl in H15. cbn [andb] in H15.
    by apply negb_false_iff, bool_decide_eq_true in H15.
Qed.

(** ** What the loop variables hold *)

Lemma after_pos w es : ws_pos (after w es) = ws_pos w + Z.of_nat (length es).
Proof.
  induction es as [|e es IH] using rev_ind; [cbn; lia|].
  rewrite after_snoc, step_state, length_app. cbn [ws_pos length]. rewrite IH. lia.
Qed.

Lemma after_prevHash w es : ws_prevHash (after w es) = default (ws_prevHash w) (e_Hash <$> last es).
Proof.
  destruct es as [|e es _] using rev_ind; [done|].
  by rewrite after_snoc, step_state, last_snoc.
Qed.

Lemma after_seen w es h : h ∈ ws_seen (after w es) ↔ h ∈ ws_seen w ∨ ∃ e, e ∈ es ∧ e_Hash e = h.
Proof.
  induction es as [|e es IH] using rev_ind.
  - unfold after. cbn. set_solver.
  - rewrite after_snoc, step_state. cbn [ws_seen]. rewrite elem_of_union, elem_of_singleton, IH.
    setoid_rewrite elem_of_app. setoid_rewrite list_elem_of_singleton. naive_solver.
Qed.

Lemma after_seenReview w es h :
  h ∈ ws_seenReview (after w es) ↔
  h ∈ ws_seenReview w ∨ ∃ e, e ∈ es ∧ e_Kind e = KindReview ∧ e_Hash e = h.
Proof.
  induction es as [|e es IH] using rev_ind.
  - unfold after. cbn. set_solver.
  - rewrite after_snoc, step_state. cbn [ws_seenReview]. unfold KindIs.
    setoid_rewrite elem_of_app. setoid_rewrite list_elem_of_singleton.
    destruct (String.eqb_spec (e_Kind e) KindReview) as [Hk|Hk].
    + rewrite elem_of_union, elem_of_singleton, IH. naive_solver.
    + rewrite IH. naive_solver.
Qed.

(** ** The signer set along the walk *)

Lemma shape_signer e : EntryShapeProblem e = None → e_Kind e = KindSigner →
  ∃ c, e_Signer e = Some c ∧ SignerShapeProblem (Some c) = None.
Proof.
  unfold EntryShapeProblem, KindIs. intros H Hk. rewrite Hk in H.
  cbn [String.eqb KindSigner] in H. apply (fmap_None SignerShape) in H.
  destruct (e_Signer e) as [c|]; [by exists c|done].
Qed.

Lemma shape_checkpoint e : EntryShapeProblem e = None → e_Kind e = KindCheckpoint →
  ∃ cp, e_Checkpoint e = Some cp ∧ CheckpointSignersProblem (cp_Signers cp) = None.
Proof.
  unfold EntryShapeProblem, KindIs. intros H Hk. rewrite Hk in H.
  cbn [String.eqb KindCheckpoint] in H.
  destruct (e_Checkpoint e) as [cp|]; [exists cp|done]. split; [done|].
  by destruct (String.eqb (cp_Head cp) "").
Qed.

Definition set_inv (w : walk_state) : Prop :=
  signers_ok (ws_set w) ∧ (ws_pos w = 0 → ss_active (ws_set w) = ∅) ∧ 0 <= ws_pos w.

Lemma step_set_inv w e : set_inv w → set_inv (step_of w e).
Proof.
  intros (Hs & H0 & Hp). rewrite step_state. unfold set_inv. cbn [ws_set ws_pos].
  split; [|split; [lia|lia]]. unfold next_set.
  case_bool_decide as Hc; [|done]. apply clean_check in Hc. cbn [negb]. unfold KindIs.
  destruct (String.eqb_spec (e_Kind e) KindSigner) as [Hk|Hk].
  { destruct (shape_signer e (cf_shape _ _ Hc) Hk) as (c & Ec & Hsh). rewrite Ec.
    eapply signers_apply_ok; eauto. by apply (cf_change _ _ Hc). }
  destruct (String.eqb_spec (e_Kind e) KindCheckpoint) as [Hk'|]; [|done].
  destruct (Z.eqb_spec (ws_pos w) 0) as [Hz|]; [|done]. cbn [andb].
  destruct (shape_checkpoint e (cf_shape _ _ Hc) Hk') as (cp & Ec & Hsh). rewrite Ec.
  eapply signers_seed_ok; eauto. by apply (cf_seed _ _ Hc).
Qed.

Lemma after_set_inv w es : set_inv w → set_inv (after w es).
Proof.
  intros Hw. induction es as [|e es IH] using rev_ind; [done|].
  rewrite after_snoc. by apply step_set_inv.
Qed.

Lemma init_set_inv entries : set_inv (walk_init entries t).
Proof.
  split; [apply newSignerSet_ok|]. split; [|cbn; lia]. intros _.
  unfold walk_init, newSignerSet. cbn. destruct (t_RootPub t); [done|].
  by repeat case_match.
Qed.

Lemma next_set_root w e b : ss_rootPub (next_set w e b) = ss_rootPub (ws_set w) ∧
                            ss_rootID (next_set w e b) = ss_rootID (ws_set w).
Proof.
  unfold next_set, apply, seed. destruct (negb b); [done|].
  repeat case_match; done.
Qed.

Lemma after_root w es : ss_rootPub (ws_set (after w es)) = ss_rootPub (ws_set w) ∧
                        ss_rootID (ws_set (after w es)) = ss_rootID (ws_set w).
Proof.
  induction es as [|e es [IH1 IH2]] using rev_ind; [done|].
  rewrite after_snoc, step_state. cbn [ws_set].
  destruct (next_set_root (after w es) e
    (bool_decide (cc_Problem (check_of (after w es) e) = None))). by rewrite IH1, IH2 in *.
Qed.
End Steps.

(** ** Where a key's authority comes from *)

(** [e], at position [j], makes [k] a signer: a registration, or a leading
    checkpoint that carries it. *)
Definition grants (e : Entry) (j : nat) (k : SignerKey) : Prop :=
  (e_Kind e = KindSigner ∧ ∃ c, e_Signer e = Some c ∧ sc_Action c = SignerRegister ∧
     k = mkSignerKey (sc_KeyID c) (sc_PubKey c) (sc_Name c)) ∨
  (j = 0%nat ∧ e_Kind e = KindCheckpoint ∧ ∃ cp, e_Checkpoint e = Some cp ∧ k ∈ cp_Signers cp).

Definition revokes (e : Entry) (id : string) : Prop :=
  e_Kind e = KindSigner ∧ ∃ c, e_Signer e = Some c ∧ sc_Action c = SignerRevoke ∧ sc_KeyID c = id.

Section Authority.
Context {ft : FloatText} {dg : Digest} {pki : Pki} {ed : Ed25519}.

(** The signature over the stored hash, as the walk checks it. *)
Definition signed_under (key : bytes) (e : Entry) : Prop :=
  ed25519_verify key (hex_decode (e_Hash e)).1 (hex_decode (e_Signature e)).1 = true.

Context (t : Trust) (io any : bool).

Lemma check_keyless w e : clean_facts t io w e → e_KeyID e = KeyIDSigstore →
  e_Signature e = "" ∧ e_Kind e ≠ KindSigner ∧ e_Kind e ≠ KindCheckpoint.
Proof.
  intros Hc Hk. pose proof (cf_keyless _ _ _ _ Hc) as H. unfold check_signature in H.
  destruct (keylessProblem e t io) as [[[kp by_] ck] cert] eqn:E.
  rewrite Hk, String.eqb_refl in H. cbn in H. subst kp.
  apply keylessProblem_shape, keylessShape_None in E; [|done]. naive_solver.
Qed.

(** What the walk checked a signed, key-signed entry against. *)
Lemma check_resolved w e key :
  clean_facts t io w e → e_KeyID e ≠ KeyIDSigstore → e_Signature e ≠ "" →
  (resolve (ws_set w) e).1.2 = Some key → signed_under key e.
Proof.
  intros Hc Hk Hs Hr. pose proof (cf_sig _ _ _ _ Hc Hs) as H. unfold check_signature in H.
  destruct (keylessProblem e t io) as [[[kp by_] ck] cert].
  apply String.eqb_neq in Hk, Hs. rewrite Hk in H.
  destruct (resolve (ws_set w) e) as [[name key'] kprob]. cbn in Hr. subst key'.
  cbn in H. rewrite Hs in H. cbn in H. by apply H.
Qed.

(** A clean change of the signer set is signed by the root, and the signature
    was checked. *)
Lemma root_signed w e root :
  clean_facts t io w e → ss_rootPub (ws_set w) = Some root →
  e_Signature e ≠ "" → isRoot (ws_set w) e = true →
  e_Kind e = KindSigner ∨ e_Kind e = KindCheckpoint → signed_under root e.
Proof.
  intros Hc Hr Hs Hroot Hkind. apply (check_resolved w); try done.
  - intros Hk. destruct (check_keyless w e Hc Hk) as (? & ? & ?). naive_solver.
  - unfold resolve. apply String.eqb_neq in Hs as ->. rewrite Hroot.
    destruct (_ && _) eqn:E; [|done]. bools. unfold isRoot in Hroot.
    by rewrite H, H0 in Hroot.
Qed.

(** The state's provenance: every active key was granted by a clean, root-signed
    entry and not revoked by a clean one since. *)
Definition provenance (root : bytes) (w0 : walk_state) (es : list Entry) (k : SignerKey) : Prop :=
  ∃ j e, es !! j = Some e ∧ cc_Problem (check_of t io any (after t io any w0 (take j es)) e) = None ∧
    grants e j k ∧ signed_under root e ∧
    ∀ i e', (j < i)%nat → es !! i = Some e' →
      cc_Problem (check_of t io any (after t io any w0 (take i es)) e') = None →
      ¬ revokes e' (sk_KeyID k).

Lemma provenance_snoc root w0 es e k :
  provenance root w0 es k →
  (cc_Problem (check_of t io any (after t io any w0 es) e) = None → ¬ revokes e (sk_KeyID k)) →
  provenance root w0 (es ++ [e]) k.
Proof.
  intros (j & ej & Hj & Hcl & Hg & Hs & Hrev) Hnew. pose proof (lookup_lt_Some _ _ _ Hj).
  exists j, ej. rewrite lookup_app_l, take_app_le by lia. split_and!; try done.
  intros i e' Hi He' Hc'. destruct (decide (i < length es)%nat) as [Hlt|Hge].
  - rewrite lookup_app_l in He' by lia. rewrite take_app_le in Hc' by lia. by eapply Hrev.
  - apply lookup_app_Some in He' as [He'|[_ He']]; [apply lookup_lt_Some in He'; lia|].
    apply list_lookup_singleton_Some in He' as [Hi0 <-].
    assert (i = length es) as -> by lia. rewrite take_app_length in Hc'. by apply Hnew.
Qed.

Lemma provenance_new root w0 es e k :
  cc_Problem (check_of t io any (after t io any w0 es) e) = None →
  grants e (length es) k → signed_under root e → provenance root w0 (es ++ [e]) k.
Proof.
  intros Hc Hg Hs. exists (length es), e. rewrite list_lookup_middle, take_app_length by done.
  split_and!; try done. intros i e' Hi He'. apply lookup_lt_Some in He'.
  rewrite length_app in He'. cbn in He'. lia.
Qed.

Lemma revokes_action e c id : e_Signer e = Some c → revokes e id →
  sc_Action c = SignerRevoke ∧ sc_KeyID c = id.
Proof. intros He (_ & c' & He' & ? & ?). rewrite He in He'. by injection He' as <-. Qed.

(** One clean signer entry: what it leaves active was granted by it, or was
    active before and is not revoked by it. *)
Lemma apply_active s e c id k :
  signers_ok s → e_Kind e = KindSigner → e_Signer e = Some c →
  ss_active (apply s c (e_File e)) !! id = Some k →
  (∀ j, grants e j k) ∨ (ss_active s !! id = Some k ∧ ¬ revokes e id).
Proof.
  intros Hs Hk He Ha. unfold apply in Ha.
  destruct (String.eqb_spec (sc_Action c) SignerRegister) as [Er|Er].
  { cbn in Ha. apply lookup_insert_Some in Ha as [[<- <-]|[? Ha]].
    - left. intros j. left. split; [done|]. by exists c.
    - right. split; [done|]. intros [Hv _]%(revokes_action e c _ He). by rewrite Er in Hv. }
  destruct (String.eqb_spec (sc_Action c) SignerRevoke) as [Ev|Ev].
  { cbn in Ha. apply lookup_delete_Some in Ha as [Hne Ha]. right. split; [done|].
    by intros [_ ?]%(revokes_action e c _ He). }
  right. split; [|by intros [? _]%(revokes_action e c _ He)]. by repeat case_match.
Qed.

Lemma active_provenance root w0 es :
  set_inv w0 → ws_pos w0 = 0 → ss_rootPub (ws_set w0) = Some root →
  ∀ id k, ss_active (ws_set (after t io any w0 es)) !! id = Some k → provenance root w0 es k.
Proof.
  intros Hw Hz Hr. induction es as [|e es IH] using rev_ind; intros id k.
  { destruct Hw as (_ & H0 & _). unfold after. cbn. rewrite H0 by done. by rewrite lookup_empty. }
  set (w := after t io any w0 es) in *.
  assert (Hwi : set_inv w) by by apply after_set_inv.
  assert (Hwr : ss_rootPub (ws_set w) = Some root).
  { destruct (after_root t io any w0 es) as [E _]. by rewrite <- Hr. }
  rewrite after_snoc, step_state. cbn [ws_set]. fold w. unfold next_set.
  case_bool_decide as Hcl; cbn [negb].
  2: { intros Ha. apply provenance_snoc; [by eapply IH|]. by intros ?%Hcl. }
  pose proof (clean_check _ _ _ _ _ Hcl) as Hc. unfold KindIs.
  destruct (String.eqb_spec (e_Kind e) KindSigner) as [Hk|Hk].
  { destruct (shape_signer e (cf_shape _ _ _ _ Hc) Hk) as (c & Ec & _). rewrite Ec. intros Ha.
    destruct (apply_active _ _ _ _ _ (proj1 Hwi) Hk Ec Ha) as [Hg|[Hold Hnr]].
    - destruct (changeProblem_None _ _ _ Ec (cf_change _ _ _ _ Hc Hk)) as (Hs & Hroot & _).
      apply provenance_new; [done|apply Hg|]. eapply root_signed; eauto.
    - apply provenance_snoc; [by eapply IH|]. intros _.
      by rewrite (proj1 (so_keys _ (proj1 Hwi) _ _ Hold)). }
  assert (∀ id', ¬ revokes e id') as Hnr by by intros ? [? _].
  destruct (String.eqb_spec (e_Kind e) KindCheckpoint) as [Hk'|]; cbn [andb].
  2: { intros Ha. apply provenance_snoc; [by eapply IH|]. intros _. apply Hnr. }
  pose proof (cf_checkpoint _ _ _ _ Hc Hk') as Hpos. rewrite Hpos. cbn [Z.eqb].
  assert (es = []) as ->.
  { unfold w in Hpos. rewrite after_pos, Hz in Hpos. destruct es; [done|cbn in Hpos; lia]. }
  destruct (shape_checkpoint e (cf_shape _ _ _ _ Hc) Hk') as (cp & Ec & Hsh). rewrite Ec.
  cbn [ss_active seed]. destruct Hwi as (_ & H0 & _). rewrite H0 by done.
  apply carried_problem_None in Hsh as (_ & Hn & _).
  rewrite seed_active_lookup, lookup_empty by done.
  destruct (List.find _ (cp_Signers cp)) as [k'|] eqn:E; [|done]. intros [= ->].
  apply find_some in E as [Hin _]. apply list_elem_of_In in Hin.
  apply (provenance_new root w0 [] e k); [done| |].
  - right. split_and!; try done. by exists cp.
  - pose proof (cf_seed _ _ _ _ Hc Hk') as Hsd. unfold seedProblem in Hsd. rewrite Ec in Hsd.
    destruct (cp_Signers cp) as [|k0 ks]; [by apply not_elem_of_nil in Hin|]. cbn [no_elems] in Hsd.
    revert Hsd. destruct (String.eqb_spec (e_Signature e) ""); [done|].
    destruct (isRoot (ws_set w) e) eqn:Hroot; [|done]. intros _. eapply root_signed; eauto.
Qed.
End Authority.

(** ** Linked chains *)

Section Linked.
Context {ft : FloatText} {dg : Digest}.

(** Every entry hashes to the hash it states and names the one before. *)
Fixpoint linked (prev : string) (es : list Entry) : Prop :=
  match es with
  | [] => True
  | e :: es' => e_Prev e = prev ∧ EntryHash e = Some (e_Hash e) ∧ linked (e_Hash e) es'
  end.

Definition head_hash (prev : string) (es : list Entry) : string :=
  default prev (e_Hash <$> last es).

Lemma linked_snoc p es e :
  linked p (es ++ [e]) ↔
  linked p es ∧ e_Prev e = head_hash p es ∧ EntryHash e = Some (e_Hash e).
Proof.
  revert p; induction es as [|e' es IH]; intros p; cbn [linked app].
  - unfold head_hash. cbn. naive_solver.
  - rewrite IH.
    assert (head_hash p (e' :: es) = head_hash (e_Hash e') es) as ->; [|naive_solver].
    unfold head_hash. destruct es as [|e2 es _] using rev_ind; [done|].
    by rewrite app_comm_cons, !last_snoc.
Qed.

Lemma head_hash_snoc p es e : head_hash p (es ++ [e]) = e_Hash e.
Proof. unfold head_hash. by rewrite last_snoc. Qed.

(** The "prev" an entry's bytes state. *)
Definition tree_prev (t : json) : string :=
  match t with
  | JObj m => match obj_get "prev" m with Some (JStr s) => s | _ => "" end
  | _ => ""
  end.

(** An entry as read from a file whose keys are spelled as the format spells
    them: its bytes kept, its Prev what they state. *)
Definition read_faithfully (e : Entry) : Prop :=
  e_Format e ≠ Format2 ∧ is_Some (e_Raw e) ∧ ∀ t, hashed_tree e = Some t → e_Prev e = tree_prev t.

(** What the hashes of a chain are the digests of. *)
Definition hash_inputs (es : list Entry) : list bytes := omap hashed_bytes es.

Lemma linked_same_head es1 es2 :
  Forall read_faithfully es1 → Forall read_faithfully es2 →
  linked "" es1 → linked "" es2 → head_hash "" es1 = head_hash "" es2 →
  map hashed_tree es1 = map hashed_tree es2 ∨ clash_among (hash_inputs es1) (hash_inputs es2).
Proof.
  revert es2; induction es1 as [|e1 es1 IH] using rev_ind; intros es2 F1 F2 L1 L2 Hh.
  - destruct es2 as [|e2 es2 _] using rev_ind; [by left|].
    apply linked_snoc in L2 as (_ & _ & H2). rewrite head_hash_snoc in Hh. cbn in Hh.
    apply EntryHash_64 in H2. by rewrite <- Hh in H2.
  - destruct es2 as [|e2 es2 _] using rev_ind.
    { apply linked_snoc in L1 as (_ & _ & H1). rewrite head_hash_snoc in Hh. cbn in Hh.
      apply EntryHash_64 in H1. by rewrite Hh in H1. }
    apply linked_snoc in L1 as (L1 & P1 & H1), L2 as (L2 & P2 & H2).
    apply Forall_snoc in F1 as [F1 (N1 & R1 & T1)], F2 as [F2 (N2 & R2 & T2)].
    rewrite !head_hash_snoc in Hh. rewrite <- Hh in H2.
    assert (∀ es e, hash_inputs es ⊆ hash_inputs (es ++ [e])) as Hin.
    { intros es e. unfold hash_inputs. rewrite omap_app. set_solver. }
    destruct (EntryHash_binds e1 e2 (e_Hash e1)) as [(tr & E1 & E2)|(x & y & Ex & Ey & ?)]; try done.
    2: { right. exists x, y. split_and!; [apply list_elem_of_omap; exists e1|apply list_elem_of_omap; exists e2|done]; (split; [set_solver|done]). }
    assert (e_Prev e1 = e_Prev e2) as Hp by (rewrite (T1 _ E1), (T2 _ E2); done).
    destruct (IH es2 F1 F2 L1 L2) as [E|]; [congruence| |right; eapply clash_among_mono; [apply Hin|apply Hin|done]].
    left. rewrite !map_app, E. cbn. by rewrite E1, E2.
Qed.
End Linked.

(** ** Theorems about whole walks *)

Section Walks.
Context {ft : FloatText} {dg : Digest} {pki : Pki} {ed : Ed25519}.

Definition clean_chain (cs : list ChainCheck) : Prop := Forall (λ c, cc_Problem c = None) cs.

Lemma walk_checks es t io :
  (walk es t io).1 = (walk_from t io (existsb signed es) (walk_init es t) es).1.
Proof. unfold walk. by destruct (walk_from _ _ _ _ _). Qed.

Lemma walk_set es t io :
  (walk es t io).2 = ws_set (after t io (existsb signed es) (walk_init es t) es).
Proof. unfold walk, after. by destruct (walk_from _ _ _ _ _). Qed.

Lemma walk_lookup es t io i c :
  (walk es t io).1 !! i = Some c ↔
  ∃ e, es !! i = Some e ∧
       c = check_of t io (existsb signed es) (after t io (existsb signed es) (walk_init es t) (take i es)) e.
Proof. rewrite walk_checks. apply walk_from_lookup. Qed.

Lemma clean_lookup es t io i e :
  clean_chain (walk es t io).1 → es !! i = Some e →
  clean_facts t io (after t io (existsb signed es) (walk_init es t) (take i es)) e.
Proof.
  intros Hc He. apply clean_check with (any := existsb signed es).
  unfold clean_chain in Hc. rewrite Forall_lookup in Hc. eapply Hc, walk_lookup. by eauto.
Qed.

Lemma clean_linked es t io : clean_chain (walk es t io).1 → linked "" es.
Proof.
  intros Hc. pose proof (λ i e, clean_lookup es t io i e Hc) as H.
  assert (∀ n, (n <= length es)%nat → linked "" (take n es)) as L.
  { induction n as [|n IH]; intros Hn; [done|].
    destruct (lookup_lt_is_Some_2 es n ltac:(lia)) as [e He].
    rewrite (take_S_r es n e He), linked_snoc. pose proof (H n e He) as F.
    split_and!; [apply IH; lia | | apply (cf_hash _ _ _ _ F)].
    pose proof (cf_link _ _ _ _ F) as E. by rewrite after_prevHash in E. }
  specialize (L (length es) (le_n _)). by rewrite firstn_all in L.
Qed.


(** The signer set is well formed at the head of every chain, whatever the
    entries, the trust and the mode: each active key is a 32-byte key under its
    own fingerprint, is not the root, and is listed exactly once, and the pin in
    force is well formed. *)
Theorem walk_signers_ok es t io : signers_ok (walk es t io).2.
Proof. rewrite walk_set. apply after_set_inv, init_set_inv. Qed.

(** No check panics: ed25519.Verify, which panics on a key that is not 32
    bytes, is given a 32-byte key at every entry of every chain, if the root key
    the operator named has 32. *)
Theorem checked_key_is_32_bytes t io any es pre e key root :
  t_RootPub t = Some root → String.length root = 32%nat →
  sv_key (check_signature (ws_set (after t io any (walk_init es t) pre)) e t io) = Some key →
  String.length key = 32%nat.
Proof.
  intros Hr Hl. set (w := after _ _ _ _ _).
  assert (Hw : set_inv w) by apply after_set_inv, init_set_inv.
  assert (Hroot : ss_rootPub (ws_set w) = Some root).
  { unfold w. rewrite (proj1 (after_root _ _ _ _ _)). unfold walk_init, newSignerSet. by rewrite Hr. }
  unfold check_signature. destruct (keylessProblem e t io) as [[[kp by_] ck] cert].
  destruct (String.eqb (e_KeyID e) KeyIDSigstore); [done|].
  unfold resolve. rewrite Hroot. destruct (String.eqb (e_Signature e) ""); [done|].
  destruct (_ && _); [done|]. destruct (isRoot _ e); [by intros [= <-]|].
  destruct (ss_active (ws_set w) !! e_KeyID e) as [k|] eqn:Ek; [|done].
  destruct (so_keys _ (proj1 Hw) _ _ Ek) as (_ & _ & raw & Hd & H32 & _).
  rewrite Hd. cbn. by intros [= <-].
Qed.

(** A check at the key level: clean, key-signed, put to a check that held. *)
Lemma key_level_check t io any w e :
  cc_Level (check_of t io any w e) = LevelKey →
  cc_Problem (check_of t io any w e) = None ∧ e_KeyID e ≠ KeyIDSigstore ∧ e_Signature e ≠ "" ∧
  ∃ key, (resolve (ws_set w) e).1.2 = Some key.
Proof.
  rewrite check_problem. unfold check_of, walk_step.
  destruct (pin_verdict _ _ _ _) as [[pp pd] pc] eqn:Epin. cbn [fst cc_Level]. unfold levelOf.
  destruct (entry_problem _ _ _ _); [done|]. destruct (signed e); [|done]. cbn [negb].
  unfold check_signature. destruct (keylessProblem e t io) as [[[kp by_] ck] cert].
  destruct (String.eqb_spec (e_KeyID e) KeyIDSigstore) as [Hk|Hk]; cbn.
  { intros H. exfalso. destruct (_ || _) in H; [done|]. by destruct pd, pc. }
  destruct (resolve (ws_set w) e) as [[name [key|]] kprob]; cbn; [|done].
  destruct (String.eqb_spec (e_Signature e) ""); cbn; [done|]. intros _. split_and!; eauto.
Qed.

(** C28. What "signed by a key this ledger's root holds or registered" rests on:
    read under a root key, an entry at the key level is unaltered and its
    signature verifies under the root, or under a key that an earlier clean
    entry, itself signed by the root, made a signer, and that no clean entry in
    between revoked. *)
Theorem key_level_authority es t root i e c :
  t_RootPub t = Some root → es !! i = Some e → Verify es t !! i = Some c →
  cc_Level c = LevelKey →
  EntryHash e = Some (e_Hash e) ∧
  (signed_under root e ∨
   ∃ k j ej, sk_KeyID k = e_KeyID e ∧ signed_under (hex_decode (sk_PubKey k)).1 e ∧
     (j < i)%nat ∧ es !! j = Some ej ∧ grants ej j k ∧ signed_under root ej ∧
     (∃ cj, Verify es t !! j = Some cj ∧ cc_Problem cj = None) ∧
     ∀ m em cm, (j < m < i)%nat → es !! m = Some em → Verify es t !! m = Some cm →
                cc_Problem cm = None → ¬ revokes em (e_KeyID e)).
Proof.
  intros Hr He Hc Hlvl. unfold Verify, VerifyWithSigners in *.
  apply walk_lookup in Hc as (e' & He' & ->). rewrite He in He'. injection He' as <-.
  set (any := existsb signed es) in *. set (w0 := walk_init es t) in *.
  set (w := after t false any w0 (take i es)) in *.
  apply key_level_check in Hlvl as (Hcl & Hk & Hs & key & Hkey).
  pose proof (clean_check _ _ _ _ _ Hcl) as F. split; [apply (cf_hash _ _ _ _ F)|].
  pose proof (check_resolved _ _ _ _ _ F Hk Hs Hkey) as Hsig.
  assert (Hwr : ss_rootPub (ws_set w) = Some root).
  { unfold w. rewrite (proj1 (after_root _ _ _ _ _)). unfold w0, walk_init, newSignerSet. by rewrite Hr. }
  unfold resolve in Hkey. rewrite Hwr in Hkey. apply String.eqb_neq in Hs. rewrite Hs in Hkey.
  destruct (_ && _) in Hkey; [done|].
  destruct (isRoot (ws_set w) e); [left; by injection Hkey as <-|right].
  destruct (ss_active (ws_set w) !! e_KeyID e) as [k|] eqn:Ek; [|done].
  destruct (hex_decode (sk_PubKey k)) as [raw ok] eqn:Ed. injection Hkey as <-.
  destruct (active_provenance t false any root w0 (take i es) (init_set_inv _ _) eq_refl
    ltac:(unfold w0, walk_init, newSignerSet; by rewrite Hr) _ _ Ek)
    as (j & ej & Hj & Hjc & Hg & Hjs & Hrev).
  assert (Hkid : sk_KeyID k = e_KeyID e).
  { assert (Hwi : set_inv w) by apply after_set_inv, init_set_inv.
    apply (so_keys _ (proj1 Hwi) _ _ Ek). }
  pose proof (lookup_lt_Some _ _ _ Hj) as Hlt. rewrite length_take in Hlt.
  rewrite lookup_take_lt in Hj by lia.
  exists k, j, ej. rewrite Ed. split_and!; try done; [lia| |].
  - exists (check_of t false any (after t false any w0 (take j es)) ej).
    rewrite take_take, Nat.min_l in Hjc by lia.
    split; [|done]. apply walk_lookup. by exists ej.
  - intros m em cm Hm Hem Hcm Hpm. rewrite <- Hkid. apply (Hrev m em); [lia| |].
    + by rewrite lookup_take_lt by lia.
    + rewrite take_take, Nat.min_l by lia.
      apply walk_lookup in Hcm as (em' & Hem' & ->). rewrite Hem in Hem'. by injection Hem' as <-.
Qed.

(** The pinned levels are earned: a keyless-pinned entry carries a bundle
    that verified for the ledger's repository, whose certificate the pin in force
    at that position allows, and that pin's own entry was checked against the
    root key the reader named. *)
Theorem pinned_level_earned es t i c :
  Verify es t !! i = Some c → cc_Level c = LevelKeylessPinned →
  ∃ e id art set pin, es !! i = Some e ∧ cc_Cert c = Some id ∧
    set = ws_set (after t false (existsb signed es) (walk_init es t) (take i es)) ∧
    ss_pin set = Some pin ∧ pin_well_shaped pin ∧ is_Some (t_RootPub t) ∧
    KeylessArtifact e = Some art ∧
    VerifyKeylessIdentity (e_Sigstore e) art (t_Repo t) (t_SigstoreRoot t) = Ok id ∧
    PinProblem pin (ss_pinFile set) id (t_Repo t) = None.
Proof.
  unfold Verify, VerifyWithSigners. intros (e & He & ->)%walk_lookup.
  set (any := existsb signed es). set (w0 := walk_init es t). set (w := after _ _ _ _ _).
  assert (Hw : signers_ok (ws_set w)) by apply after_set_inv, init_set_inv.
  assert (Hwr : ss_rootPub (ws_set w) = t_RootPub t).
  { unfold w. rewrite (proj1 (after_root _ _ _ _ _)). unfold w0, walk_init, newSignerSet.
    destruct (t_RootPub t); [done|]. by repeat case_match. }
  unfold check_of, walk_step.
  destruct (pin_verdict _ _ _ _) as [[pp pd] pc] eqn:Epin. cbn [fst cc_Level cc_Cert]. unfold levelOf.
  destruct (entry_problem _ _ _ _); [done|]. destruct (signed e); [|done]. cbn [negb].
  destruct (_ || _); [done|]. intros Hlvl.
  unfold pin_verdict in Epin. unfold check_signature in *.
  destruct (keylessProblem e t false) as [[[kp by_] ck] cert] eqn:Ek.
  destruct (String.eqb (e_KeyID e) KeyIDSigstore); [|done]. cbn in Epin, Hlvl |- *.
  destruct kp; [by injection Epin as <- <- <-|].
  destruct cert as [id|]; [|by injection Epin as <- <- <-].
  destruct (ss_pin (ws_set w)) as [pin|] eqn:Ep; [|by injection Epin as <- <- <-].
  apply keylessProblem_cert in Ek as (_ & _ & _ & _ & _ & art & Ha & Hv).
  injection Epin as <- <- <-. case_bool_decide as Hp; [|done]. cbn in Hlvl.
  exists e, id, art, (ws_set w), pin. split_and!; try done.
  - by apply (so_pin _ Hw).
  - rewrite <- Hwr. apply (so_pinned _ Hw). by destruct (ss_pinChecked (ws_set w)).
Qed.

(** A read without trust says so: VerifyIntegrity checks no signature of
    either kind, calls no entry's signature good, and ranks none above
    "unsigned" — and "unsigned" only where there is no signature. *)
Theorem integrity_claims_no_signature es i c :
  VerifyIntegrity es !! i = Some c →
  cc_SigOK c = false ∧ cc_SigChecked c = false ∧ cc_Cert c = None ∧
  (cc_Level c = NoLevel ∨ cc_Level c = LevelUnsigned ∧ cc_Signed c = false).
Proof.
  unfold VerifyIntegrity. intros (e & He & ->)%walk_lookup.
  set (any := existsb signed es). set (w := after _ _ _ _ _).
  assert (Hwr : ss_rootPub (ws_set w) = None).
  { unfold w. rewrite (proj1 (after_root _ _ _ _ _)). unfold walk_init, newSignerSet. cbn.
    by repeat case_match. }
  assert (∃ kp, keylessProblem e zero_Trust true = (kp, "", false, None)) as [kp Ekp].
  { unfold keylessProblem. repeat case_match; eauto. }
  unfold check_of, walk_step. destruct (pin_verdict _ _ _ _) as [[pp pd] pc].
  cbn [fst cc_SigOK cc_SigChecked cc_Level cc_Signed cc_Cert]. unfold check_signature. rewrite Ekp.
  destruct (String.eqb (e_KeyID e) KeyIDSigstore).
  { cbn [sv_SigOK sv_SigChecked sv_Cert String.eqb negb]. rewrite andb_false_r.
    split_and!; try done. unfold levelOf.
    destruct (entry_problem _ _ _ _); [by left|]. destruct (signed e); [by left|by right]. }
  destruct (resolve (ws_set w) e) as [[name key] kprob] eqn:Er.
  assert (key = None) as ->.
  { unfold resolve in Er. rewrite Hwr in Er. repeat case_match; by simplify_eq. }
  cbn [sv_SigOK sv_SigChecked sv_Cert default]. split_and!; try done. unfold levelOf.
  destruct (entry_problem _ _ _ _); [by left|]. destruct (signed e); [by left|by right].
Qed.

(** In a clean chain every reference resolves backwards: a retraction names
    the hash of an earlier entry, an adjudication a finding of an earlier review,
    and a checkpoint stands only at the start. *)
Theorem clean_references es t io i e :
  clean_chain (walk es t io).1 → es !! i = Some e →
  (e_Kind e = KindRetract →
     ∃ j e', (j < i)%nat ∧ es !! j = Some e' ∧ e_Hash e' = e_Retracts e) ∧
  (e_Kind e = KindAdjudication →
     ∃ j e', (j < i)%nat ∧ es !! j = Some e' ∧ e_Kind e' = KindReview ∧ e_Hash e' = adjudicated e) ∧
  (e_Kind e = KindCheckpoint → i = 0%nat).
Proof.
  intros Hc He. pose proof (clean_lookup es t io i e Hc He) as F.
  pose proof (lookup_lt_Some _ _ _ He) as Hi.
  assert (∀ e', e' ∈ take i es → ∃ j, (j < i)%nat ∧ es !! j = Some e') as Hback.
  { intros e' (j & Hj)%list_elem_of_lookup. exists j. pose proof (lookup_lt_Some _ _ _ Hj) as Hl.
    rewrite length_take in Hl. by rewrite lookup_take_lt in Hj by lia; split; [lia|]. }
  split_and!; intros Hk.
  - pose proof (cf_retract _ _ _ _ F Hk) as H. apply after_seen in H as [H|(e' & Hin & Hh)].
    + by apply not_elem_of_empty in H.
    + destruct (Hback _ Hin) as (j & ? & ?). by exists j, e'.
  - pose proof (cf_adjudication _ _ _ _ F Hk) as H.
    apply after_seenReview in H as [H|(e' & Hin & Hr & Hh)].
    + by apply not_elem_of_empty in H.
    + destruct (Hback _ Hin) as (j & ? & ?). by exists j, e'.
  - pose proof (cf_checkpoint _ _ _ _ F Hk) as H. rewrite after_pos, length_take in H.
    cbn in H. lia.
Qed.

(** Truncation is invisible from within: read under a root key, dropping
    entries off the end of a chain changes no remaining entry's verdict (which
    is why ChainCheck carries the head's hash for an outside anchor). *)
Theorem truncation_invisible es t n root :
  t_RootPub t = Some root →
  map cc_Problem (Verify (take n es) t) = take n (map cc_Problem (Verify es t)) ∧
  map cc_Level (Verify (take n es) t) = take n (map cc_Level (Verify es t)).
Proof.
  intros Hr. unfold Verify, VerifyWithSigners. rewrite !walk_checks.
  assert (walk_init (take n es) t = walk_init es t) as ->.
  { unfold walk_init, newSignerSet. by rewrite Hr. }
  generalize (existsb signed (take n es)) as a1, (existsb signed es) as a2.
  intros a1 a2. generalize (walk_init es t) as w. revert n.
  induction es as [|e es IH]; intros n w; [by rewrite take_nil; destruct n|].
  destruct n as [|n]; [done|]. cbn [take]. rewrite !walk_from_cons. cbn [fst map take].
  assert (check_of t false a1 w e = check_of t false a1 w e) by done.
  assert (cc_Problem (check_of t false a1 w e) = cc_Problem (check_of t false a2 w e) ∧
          cc_Level (check_of t false a1 w e) = cc_Level (check_of t false a2 w e) ∧
          step_of t false a1 w e = step_of t false a2 w e) as (-> & -> & ->).
  { unfold check_of, step_of, walk_step. by destruct (pin_verdict _ _ _ _) as [[? ?] ?]. }
  by destruct (IH n (step_of t false a2 w e)) as [-> ->].
Qed.
End Walks.
