(* ===== verification/Rules.v ===== *)
(** * What a chain of entries means: internal/ledger/rules.go

    Which verdict on a finding stands, which entries a retraction voids, which
    entries a reader sees. The one reverse pass of [Retracted] is compared with
    [voided], the rule it implements. *)
From S2P Require Import Prelude GoLib JsonText Json Canonical Rows Entry.
Local Open Scope string_scope.
Local Open Scope list_scope.

(** For every finding ref, the newest adjudication: a map write per entry. *)
Definition Adjudications (entries : list Entry) : gmap string Adjudication :=
  foldl (λ out e,
    match e_Adjudication e with
    | Some a => if KindIs e KindAdjudication then <[adj_Adjudicates a := a]> out else out
    | None => out
    end) ∅ entries.

Definition carries_signers (e : Entry) : bool :=
  match e_Checkpoint e with
  | Some cp => KindIs e KindCheckpoint && negb (no_elems (cp_Signers cp))
  | None => false
  end.

Definition ChainHasSigners (entries : list Entry) : bool :=
  existsb (λ e, KindIs e KindSigner) entries
  || match entries with e :: _ => carries_signers e | [] => false end.

(** The reverse pass: which hashes an in-force retraction seen so far names, and
    the in-force retractions, newest first. *)
Definition retract_step (e : Entry) (acc : gset string * list Entry) : gset string * list Entry :=
  let '(targeted, inForce) := acc in
  if negb (KindIs e KindRetract) then acc
  else if bool_decide (e_Hash e ∈ targeted) then acc
  else ({[ e_Retracts e ]} ∪ targeted, inForce ++ [e]).

(** [foldr] visits the newest entry first. *)
Definition retract_pass (entries : list Entry) : gset string * list Entry :=
  foldr retract_step (∅, []) entries.

Definition Retracted (entries : list Entry) : gmap string Entry :=
  foldl (λ out e, <[e_Retracts e := e]> out) ∅ (retract_pass entries).2.

(** Does the entry stand? Retracted entries are out, and an adjudication of a
    retracted review with it. *)
Definition lives (retracted : gmap string Entry) (e : Entry) : bool :=
  if bool_decide (is_Some (retracted !! e_Hash e)) then false
  else match e_Adjudication e with
  | Some a =>
      if KindIs e KindAdjudication then
        let '(h, _, ok) := CutRef (adj_Adjudicates a) in
        negb (ok && bool_decide (is_Some (retracted !! h)))
      else true
  | None => true
  end.

Definition LiveEntries (entries : list Entry) : list Entry :=
  let retracted := Retracted entries in List.filter (lives retracted) entries.

Definition ScanEntries (entries : list Entry) : list Entry :=
  List.filter IsScan (LiveEntries entries).

(** ** Retraction *)

(** The rule: [h] is retracted by a retraction that no later one retracts. *)
Fixpoint voided (entries : list Entry) (h : string) : Prop :=
  match entries with
  | [] => False
  | e :: later =>
      (e_Kind e = KindRetract ∧ e_Retracts e = h ∧ ¬ voided later (e_Hash e)) ∨ voided later h
  end.

Lemma retract_pass_targeted es h :
  (h ∈ (retract_pass es).1 ↔ voided es h).
Proof.
  revert h; induction es as [|e es IH]; intros h; cbn [voided retract_pass foldr].
  { cbn. set_solver. }
  fold (retract_pass es). unfold retract_step, KindIs.
  destruct (retract_pass es) as [targeted inForce] eqn:E. cbn [fst] in *.
  destruct (String.eqb_spec (e_Kind e) KindRetract) as [Hk|Hk]; cbn [negb].
  - case_bool_decide as Ht; cbn [fst].
    + rewrite IH. rewrite IH in Ht. naive_solver.
    + rewrite elem_of_union, elem_of_singleton, IH. rewrite IH in Ht. naive_solver.
  - rewrite IH. naive_solver.
Qed.

Lemma retract_pass_inForce es h :
  (h ∈ (retract_pass es).1 ↔ ∃ e, e ∈ (retract_pass es).2 ∧ e_Retracts e = h).
Proof.
  induction es as [|e es IH]; cbn [retract_pass foldr].
  { cbn. set_solver. }
  fold (retract_pass es). unfold retract_step.
  destruct (retract_pass es) as [targeted inForce]. cbn [fst snd] in *.
  destruct (negb _); [done|]. case_bool_decide; [done|]. cbn [fst snd].
  rewrite elem_of_union, elem_of_singleton, IH. setoid_rewrite elem_of_app.
  setoid_rewrite list_elem_of_singleton. naive_solver.
Qed.

Lemma foldl_insert_lookup {A} (key : A → string) (l : list A) (m : gmap string A) h :
  is_Some (foldl (λ out e, <[key e := e]> out) m l !! h) ↔
  is_Some (m !! h) ∨ ∃ e, e ∈ l ∧ key e = h.
Proof.
  revert m; induction l as [|e l IH]; intros m; cbn [foldl]; [set_solver|].
  rewrite IH, lookup_insert_is_Some. setoid_rewrite elem_of_cons.
  destruct (decide (key e = h)); naive_solver.
Qed.

Lemma Retracted_voided es h : is_Some (Retracted es !! h) ↔ voided es h.
Proof.
  unfold Retracted. rewrite foldl_insert_lookup, <- retract_pass_targeted, retract_pass_inForce.
  rewrite lookup_empty. split; [|by right]. intros [[]|]; done.
Qed.

Lemma voided_app es1 es2 h :
  Forall (λ e, e_Kind e ≠ KindRetract) es1 → (voided (es1 ++ es2) h ↔ voided es2 h).
Proof. induction 1 as [|e es1 He _ IH]; cbn [app voided]; [done|]. rewrite IH. naive_solver. Qed.

(** [rs] retract, undo, redo ...: the first names [h], each next the one before. *)
Fixpoint retraction_chain (h : string) (rs : list Entry) : Prop :=
  match rs with
  | [] => True
  | r :: rs' => e_Kind r = KindRetract ∧ e_Retracts r = h ∧ retraction_chain (e_Hash r) rs'
  end.

Lemma chain_names h rs e : retraction_chain h rs → e ∈ rs →
  e_Kind e = KindRetract ∧ (e_Retracts e = h ∨ ∃ e', e' ∈ rs ∧ e_Retracts e = e_Hash e').
Proof.
  revert h; induction rs as [|r rs IH]; intros h; cbn [retraction_chain]; [set_solver|].
  intros (H1 & H2 & H3) [->|Hin]%elem_of_cons; [by auto|].
  destruct (IH _ H3 Hin) as [? [->|(e' & ? & ?)]]; (split; [done|]); right.
  - exists r. split; [left|done].
  - exists e'. split; [by right|done].
Qed.

Lemma voided_unnamed es h :
  Forall (λ e, e_Kind e = KindRetract → e_Retracts e ≠ h) es → ¬ voided es h.
Proof. induction 1 as [|e es He _ IH]; cbn [voided]; naive_solver. Qed.

Lemma voided_chain h rs :
  retraction_chain h rs → NoDup (h :: map e_Hash rs) →
  (voided rs h ↔ Nat.Odd (length rs)).
Proof.
  revert h; induction rs as [|r rs IH]; intros h; cbn [retraction_chain voided length].
  { intros _ _. split; [done|]. intros [k Hk]. lia. }
  intros (H1 & H2 & H3) Hn. cbn [map] in Hn. apply NoDup_cons in Hn as [Hh Hn].
  rewrite (IH _ H3 Hn), Nat.Odd_succ.
  assert (¬ voided rs h) as Hv.
  { apply voided_unnamed, Forall_forall. intros e He _ E.
    destruct (chain_names _ _ _ H3 He) as [_ [E2|(e' & He' & E2)]].
    - apply Hh. rewrite <- E, E2. left.
    - apply Hh. right. apply list_elem_of_fmap. exists e'. split; [congruence|done]. }
  destruct (Nat.Even_or_Odd (length rs)) as [Ev|Od].
  - split; [done|]. intros _. left. split_and!; try done. intros Od.
    by apply (Nat.Even_Odd_False (length rs)).
  - split; [|intros Ev; exfalso; by apply (Nat.Even_Odd_False (length rs))]. naive_solver.
Qed.

Lemma voided_positions es h :
  voided es h ↔ ∃ i e, es !! i = Some e ∧ e_Kind e = KindRetract ∧ e_Retracts e = h ∧
                       ¬ voided (drop (S i) es) (e_Hash e).
Proof.
  induction es as [|e es IH]; cbn [voided].
  { split; [done|]. by intros (i & e & H & _). }
  rewrite IH. split.
  - intros [(H1 & H2 & H3)|(i & e' & H)]; [by exists 0%nat, e|by exists (S i), e'].
  - intros ([|i] & e' & H & H1 & H2 & H3).
    + injection H as ->. by left.
    + right. by exists i, e'.
Qed.

(** A retraction is in force exactly when no later in-force retraction
    retracts it: the reverse pass computes the one solution of that rule, at every
    position. *)
Theorem Retracted_in_force es h :
  is_Some (Retracted es !! h) ↔
  ∃ i e, es !! i = Some e ∧ e_Kind e = KindRetract ∧ e_Retracts e = h ∧
         ¬ is_Some (Retracted (drop (S i) es) !! e_Hash e).
Proof. setoid_rewrite Retracted_voided. apply voided_positions. Qed.

(** Retract, undo, redo: after a chain of [n] retractions, each naming the
    one before, the original entry is retracted exactly when [n] is odd — at any
    depth (the monotone first fix was wrong from depth 3 on). *)
Theorem retractions_alternate base h rs :
  Forall (λ e, e_Kind e ≠ KindRetract) base → retraction_chain h rs →
  NoDup (h :: map e_Hash rs) →
  (is_Some (Retracted (base ++ rs) !! h) ↔ Nat.Odd (length rs)).
Proof. intros Hb Hc Hn. by rewrite Retracted_voided, voided_app, voided_chain. Qed.

(** What a reader sees: in chain order, exactly the entries no in-force
    retraction names, less the adjudications of a review one names; and of those,
    the scans. A retraction reaches every kind of entry. *)
Theorem LiveEntries_spec es :
  LiveEntries es `sublist_of` es ∧ ScanEntries es `sublist_of` LiveEntries es ∧
  (∀ e, e ∈ LiveEntries es ↔
    e ∈ es ∧ ¬ is_Some (Retracted es !! e_Hash e) ∧
    (∀ a h id, e_Kind e = KindAdjudication → e_Adjudication e = Some a →
       CutRef (adj_Adjudicates a) = (h, id, true) → ¬ is_Some (Retracted es !! h))) ∧
  (∀ e, e ∈ ScanEntries es ↔ e ∈ LiveEntries es ∧ e_Kind e = KindScan).
Proof.
  split_and!; [apply filter_sublist..| |].
  - intros e. unfold LiveEntries. rewrite !list_elem_of_In, filter_In. unfold lives, KindIs.
    f_equiv. case_bool_decide as Hr; [split; [done|by intros []]|].
    destruct (e_Adjudication e) as [a|]; [|by split].
    destruct (String.eqb_spec (e_Kind e) KindAdjudication) as [Hk|Hk]; [|by split].
    destruct (CutRef (adj_Adjudicates a)) as [[h id] [|]] eqn:Ec; cbn [andb].
    + split.
      * intros Hn. split; [done|]. intros a' h' id' _ [= <-] E. rewrite Ec in E.
        injection E as <- <-. by case_bool_decide.
      * intros [_ H]. specialize (H a h id Hk eq_refl Ec). by case_bool_decide.
    + split; [|done]. intros _. split; [done|]. intros a' h' id' _ [= <-] E. by rewrite Ec in E.
  - intros e. unfold ScanEntries, IsScan, KindIs. rewrite !list_elem_of_In, filter_In.
    by rewrite String.eqb_eq.
Qed.

(** The newest verdict on a finding stands: the map holds, for every ref, the
    last adjudication of it in the chain, whoever made it. *)
Theorem Adjudications_newest es ref :
  Adjudications es !! ref =
    last (omap (λ e, match e_Adjudication e with
                     | Some a => if KindIs e KindAdjudication && String.eqb (adj_Adjudicates a) ref
                                 then Some a else None
                     | None => None end) es).
Proof.
  unfold Adjudications. induction es as [|e es IH] using rev_ind; [apply lookup_empty|].
  rewrite foldl_app, omap_app. cbn [foldl omap list_omap].
  destruct (e_Adjudication e) as [a|]; [|by rewrite app_nil_r].
  destruct (KindIs e KindAdjudication); [|by rewrite app_nil_r]. cbn [andb].
  destruct (String.eqb_spec (adj_Adjudicates a) ref) as [<-|Hne].
  - by rewrite lookup_insert_eq, last_snoc.
  - by rewrite lookup_insert_ne, app_nil_r.
Qed.

(** ** Witnesses *)

Section Witnesses.
Let entry kind hash retracts :=
  mkEntry FileFormat kind 0 "" "" zero_Bundle retracts "mistake" None None None None hash "" "" "" None "".
Let scan := entry KindScan "s" "".
Let r1 := entry KindRetract "r1" "s".
Let r2 := entry KindRetract "r2" "r1".
Let r3 := entry KindRetract "r3" "r2".

Lemma retractions_alternate_witness :
  is_Some (Retracted ([scan] ++ [r1; r2; r3]) !! "s") ↔ Nat.Odd (length [r1; r2; r3]).
Proof.
  apply retractions_alternate.
  - repeat constructor. discriminate.
  - repeat split.
  - apply (bool_decide_unpack _). vm_compute. exact I.
Defined.
End Witnesses.
