(* ===== verification/Order.v ===== *)
(** * Ordering entries into a chain: orderByPrev of internal/ledger/derive.go

    Positions are indices into the input. The walk back from a head is bounded by
    the number of entries, since it never visits a position twice
    ([walk_back_enough]). Main results: the output is the input, split; the chain
    is linked; and whatever the input order, a single linked chain is returned
    whole ([orderByPrev_recovers]). *)
From S2P Require Import Prelude GoLib JsonText Json Canonical Rows Entry.
Local Open Scope string_scope.
Local Open Scope list_scope.
Local Open Scope nat_scope.

Section Order.
Variable es : list Entry.

Definition entry_at (i : nat) : Entry := nth i es zero_Entry.

(** [byHash]: the first position of a hash. *)
Fixpoint first_with (h : string) (l : list Entry) : option nat :=
  match l with
  | [] => None
  | e :: l' => if String.eqb (e_Hash e) h then Some 0 else S <$> first_with h l'
  end.
Definition byHash (h : string) : option nat := first_with h es.

(** [dup]: an earlier entry claims the same hash. *)
Definition dup (i : nat) : bool := negb (bool_decide (byHash (e_Hash (entry_at i)) = Some i)).

Definition named (h : string) : bool :=
  existsb (λ e, negb (String.eqb (e_Prev e) "") && String.eqb (e_Prev e) h) es.

(** From a head back along Prev, head first. *)
Fixpoint walk_back (fuel : nat) (seen : list nat) (i : nat) : list nat :=
  match fuel with
  | O => []
  | S f =>
      let seen := i :: seen in
      i :: (if String.eqb (e_Prev (entry_at i)) "" then []
            else match byHash (e_Prev (entry_at i)) with
            | None => []
            | Some p => if bool_decide (p ∈ seen) then [] else walk_back f seen p
            end)
  end.
Definition walk_to (head : nat) : list nat := walk_back (List.length es) [] head.

(** Is the head [i], with walk [w], better than the best so far? *)
Definition better (i : nat) (w : list nat) (best : option (nat * list nat)) : bool :=
  match best with
  | None => true
  | Some (b, bw) =>
      let e := entry_at i in let eb := entry_at b in
      (List.length bw <? List.length w) ||
      (List.length w =? List.length bw) &&
        ((e_Pushed eb <? e_Pushed e)%Z ||
         (e_Pushed e =? e_Pushed eb)%Z && str_ltb (e_File eb) (e_File e))
  end.

Definition best_step (best : option (nat * list nat)) (i : nat) : option (nat * list nat) :=
  if dup i || named (e_Hash (entry_at i)) then best
  else let w := walk_to i in if better i w best then Some (i, w) else best.

Definition best_walk : list nat :=
  match foldl best_step None (seq 0 (List.length es)) with Some (_, w) => w | None => [] end.

Definition orderByPrev : list Entry * list Entry :=
  let on := rev best_walk in
  let rest := List.filter (λ i, negb (bool_decide (i ∈ on))) (seq 0 (List.length es)) in
  (map entry_at on,
   sort_stable (λ a b, (e_Pushed a <? e_Pushed b)%Z) (map entry_at rest)).

(** ** The walk *)

Lemma first_with_Some h l i : first_with h l = Some i →
  i < List.length l ∧ e_Hash (nth i l zero_Entry) = h.
Proof.
  revert i; induction l as [|e l IH]; intros i; cbn [first_with]; [done|].
  destruct (String.eqb_spec (e_Hash e) h) as [<-|].
  - intros [= <-]. cbn. split; [lia|done].
  - destruct (first_with h l) as [j|]; [|done]. intros [= <-].
    destruct (IH j eq_refl) as [? ?]. cbn. split; [lia|done].
Qed.

Lemma byHash_Some h i : byHash h = Some i → i < List.length es ∧ e_Hash (entry_at i) = h.
Proof. apply first_with_Some. Qed.

Lemma walk_back_spec f seen i : i ∉ seen → i < List.length es →
  NoDup (walk_back f seen i) ∧ Forall (λ j, j < List.length es ∧ j ∉ seen) (walk_back f seen i).
Proof.
  revert seen i; induction f as [|f IH]; intros seen i Hi Hlt; cbn [walk_back].
  { split; constructor. }
  destruct (String.eqb _ _). { split; [apply NoDup_singleton | by repeat constructor]. }
  destruct (byHash _) as [p|] eqn:Ep; [|split; [apply NoDup_singleton | by repeat constructor]].
  case_bool_decide as Hs; [split; [apply NoDup_singleton | by repeat constructor]|].
  apply byHash_Some in Ep as [Hp _]. destruct (IH (i :: seen) p Hs Hp) as [Hn Hf].
  rewrite Forall_forall in Hf. split.
  - constructor; [|done]. intros Hin. destruct (Hf i Hin) as [_ ?]. set_solver.
  - constructor; [done|]. rewrite Forall_forall. intros j Hj. destruct (Hf j Hj). set_solver.
Qed.

(** The walk stops of itself: more fuel changes nothing. *)
Lemma walk_back_enough f k seen i : List.length es ≤ f + List.length seen →
  NoDup seen → Forall (λ j, j < List.length es) seen → i ∉ seen → i < List.length es →
  walk_back (f + k) seen i = walk_back f seen i.
Proof.
  revert seen i; induction f as [|f IH]; intros seen i Hf Hn Hr Hi Hlt.
  - exfalso. assert (List.length (i :: seen) ≤ List.length (seq 0 (List.length es))) as Hl.
    { apply submseteq_length, NoDup_submseteq; [by constructor|].
      intros j [->|Hj]%elem_of_cons; rewrite elem_of_seq; [lia|].
      rewrite Forall_forall in Hr. specialize (Hr j Hj). lia. }
    rewrite length_seq in Hl. cbn in Hl. lia.
  - cbn [Nat.add walk_back]. f_equal. destruct (String.eqb _ _); [done|].
    destruct (byHash _) as [p|] eqn:Ep; [|done]. case_bool_decide; [done|].
    apply byHash_Some in Ep as [Hp _].
    apply IH; [cbn; lia | by constructor | by constructor | done | done].
Qed.

(** [linked l]: each entry's Prev is the hash of the one before it. *)
Fixpoint linked_back (w : list nat) : Prop :=
  match w with
  | i :: ((p :: _) as w') =>
      e_Prev (entry_at i) = e_Hash (entry_at p) ∧ e_Prev (entry_at i) ≠ "" ∧ linked_back w'
  | _ => True
  end.

Lemma walk_back_linked f seen i : linked_back (walk_back f seen i).
Proof.
  revert seen i; induction f as [|f IH]; intros seen i; cbn [walk_back]; [done|].
  destruct (String.eqb_spec (e_Prev (entry_at i)) "") as [|Hne]; [done|].
  destruct (byHash _) as [p|] eqn:Ep; [|done]. case_bool_decide; [done|].
  apply byHash_Some in Ep as [_ Hh]. pose proof (IH (i :: seen) p) as Hl.
  destruct f as [|f]; [done|]. cbn [walk_back] in *. split; [by symmetry|]. by split.
Qed.

Lemma best_cases : best_walk = [] ∨
  ∃ i, i < List.length es ∧ best_walk = walk_to i.
Proof.
  unfold best_walk.
  assert (∀ l acc, Forall (λ j, j < List.length es) l →
    (match acc with Some (b, w) => b < List.length es ∧ w = walk_to b | None => True end) →
    match foldl best_step acc l with Some (b, w) => b < List.length es ∧ w = walk_to b | None => True end)
    as H.
  { induction l as [|i l IH]; intros acc Hl Ha; cbn [foldl]; [done|]. inversion_clear Hl.
    apply IH; [done|]. unfold best_step. destruct (_ || _); [done|]. by destruct (better _ _ _). }
  specialize (H (seq 0 (List.length es)) None).
  destruct (foldl _ _ _) as [[b w]|]; [right|by left]. exists b.
  apply H; [|done]. apply Forall_forall. intros j Hj%elem_of_seq. lia.
Qed.

Lemma best_walk_spec : NoDup best_walk ∧ Forall (λ j, j < List.length es) best_walk ∧ linked_back best_walk.
Proof.
  destruct best_cases as [->|(i & Hi & ->)]; [by repeat constructor|].
  destruct (walk_back_spec (List.length es) [] i) as [Hn Hf]; [set_solver|done|].
  split; [done|]. split; [|apply walk_back_linked]. eapply Forall_impl; [exact Hf|]. by intros ? [].
Qed.

Lemma entry_at_seq : map entry_at (seq 0 (List.length es)) = es.
Proof.
  apply (nth_ext _ _ zero_Entry zero_Entry); [by rewrite length_map, length_seq|].
  intros i. rewrite length_map, length_seq. intros Hi. unfold entry_at.
  rewrite (nth_indep _ zero_Entry (nth 0 es zero_Entry)) by (by rewrite length_map, length_seq).
  rewrite (map_nth (λ j, nth j es zero_Entry)), seq_nth; [done|lia].
Qed.

Lemma orderByPrev_perm : (orderByPrev).1 ++ (orderByPrev).2 ≡ₚ es.
Proof.
  unfold orderByPrev. cbn [fst snd]. rewrite sort_stable_perm, <- map_app.
  transitivity (map entry_at (seq 0 (List.length es))); [|by rewrite entry_at_seq].
  apply Permutation_map. destruct best_walk_spec as (Hn & Hr & _).
  apply NoDup_Permutation; [| apply NoDup_seq |].
  - apply NoDup_app. split; [by rewrite <- Permutation_rev|]. split.
    + intros j Hj (_ & Hf)%list_elem_of_In%filter_In. by bools.
    + apply NoDup_ListNoDup, List.NoDup_filter, NoDup_ListNoDup, NoDup_seq.
  - intros j. rewrite elem_of_app, elem_of_seq. rewrite Forall_forall in Hr. split.
    + intros [Hj|Hj].
      * rewrite <- Permutation_rev in Hj. specialize (Hr j Hj). lia.
      * apply list_elem_of_In, filter_In in Hj as [Hj _]. apply in_seq in Hj. lia.
    + intros [_ Hj]. destruct (decide (j ∈ rev best_walk)) as [|Hn']; [by left|]. right.
      apply list_elem_of_In, filter_In. split; [apply in_seq; lia|].
      by apply negb_true_iff, bool_decide_eq_false.
Qed.

(** ** A single chain, in any order *)

(** [first_with] finds each entry's own place when no two share a hash. *)
Lemma first_with_own l i : NoDup (map e_Hash l) → i < List.length l →
  first_with (e_Hash (nth i l zero_Entry)) l = Some i.
Proof.
  revert i; induction l as [|e l IH]; intros i Hn Hi; [cbn in Hi; lia|].
  cbn [map] in Hn. apply NoDup_cons in Hn as [Hx Hn]. destruct i as [|i]; cbn [nth first_with].
  - by rewrite String.eqb_refl.
  - cbn in Hi. destruct (String.eqb_spec (e_Hash e) (e_Hash (nth i l zero_Entry))) as [E|_].
    + exfalso. apply Hx. rewrite E. apply list_elem_of_In, in_map, nth_In. lia.
    + rewrite IH; [done|done|lia].
Qed.

Lemma position e : e ∈ es → ∃ i, i < List.length es ∧ entry_at i = e.
Proof. intros He%list_elem_of_In. destruct (In_nth es e zero_Entry He) as (i & ? & ?). by exists i. Qed.

Lemma named_spec h : named h = true ↔ ∃ e, e ∈ es ∧ e_Prev e ≠ "" ∧ e_Prev e = h.
Proof.
  unfold named. rewrite existsb_exists. setoid_rewrite list_elem_of_In. split.
  - intros (e & He & Hb). exists e. by bools.
  - intros (e & He & Hn & Hh). exists e. split; [done|].
    apply andb_true_intro. split; [by apply negb_true_iff, String.eqb_neq | by apply String.eqb_eq].
Qed.

(** [follows p L]: the first entry's Prev is [p], each later one's the hash of
    the entry before it. *)
Fixpoint follows (p : string) (L : list Entry) : Prop :=
  match L with [] => True | e :: L' => e_Prev e = p ∧ follows (e_Hash e) L' end.

Definition last_hash (p : string) (L : list Entry) : string := default p (e_Hash <$> last L).

Lemma follows_app p L1 L2 : follows p (L1 ++ L2) ↔ follows p L1 ∧ follows (last_hash p L1) L2.
Proof.
  revert p; induction L1 as [|e L1 IH]; intros p; cbn [app follows]; [naive_solver|].
  rewrite IH. assert (last_hash (e_Hash e) L1 = last_hash p (e :: L1)) as ->; [|naive_solver].
  unfold last_hash. destruct L1 as [|e2 L1 _] using rev_ind; [done|].
  by rewrite app_comm_cons, !last_snoc.
Qed.

Lemma follows_prev p L h e : follows p (L ++ [h]) → e ∈ L ++ [h] →
  e_Prev e = p ∨ ∃ x, x ∈ L ∧ e_Prev e = e_Hash x.
Proof.
  revert p; induction L as [|x L IH]; intros p; cbn [app follows].
  - intros [Hp _] ->%list_elem_of_singleton. by left.
  - intros [Hp HL] [->|He]%elem_of_cons; [by left|]. right.
    destruct (IH _ HL He) as [E|(y & Hy & E)]; [exists x; set_solver | exists y; set_solver].
Qed.

(** From the head of a chain held by the input, the walk is the chain. *)
Lemma walk_back_chain L e f seen i :
  NoDup (map e_Hash es) → Forall (λ x, e_Hash x ≠ "" ∧ x ∈ es) (L ++ [e]) →
  follows "" (L ++ [e]) → NoDup (map e_Hash (L ++ [e])) →
  i < List.length es → entry_at i = e → List.length L < f →
  (∀ j, j ∈ seen → e_Hash (entry_at j) ∉ map e_Hash L) →
  map entry_at (walk_back f seen i) = e :: rev L.
Proof.
  intros Hes. revert e f seen i; induction L as [|x L IH] using rev_ind;
    intros e f seen i Hin HL Hn Hi He Hf Hseen; (destruct f as [|f]; [lia|]); cbn [walk_back map]; rewrite He.
  - destruct HL as [-> _]. done.
  - rewrite length_app in Hf. cbn in Hf.
    apply follows_app in HL as [HL [Hp _]]. unfold last_hash in Hp.
    rewrite last_snoc in Hp. cbn in Hp. rewrite Hp.
    apply Forall_app in Hin as [Hin _]. pose proof Hin as [_ [Hx Hxes]]%Forall_snoc.
    destruct (String.eqb_spec (e_Hash x) "") as [|_]; [done|].
    destruct (position x Hxes) as (q & Hq & Eq).
    assert (byHash (e_Hash x) = Some q) as -> by (rewrite <- Eq; by apply first_with_own).
    rewrite map_app in Hn. apply NoDup_app in Hn as (Hn & Hd & _).
    rewrite map_app in Hn, Hd. cbn [map] in Hn, Hd. rewrite map_app in Hseen. cbn [map] in Hseen.
    case_bool_decide as Hs.
    { exfalso. apply elem_of_cons in Hs as [->|Hs].
      - apply (Hd (e_Hash x)); [set_solver|]. rewrite <- Eq, He. set_solver.
      - apply (Hseen q Hs). rewrite Eq. set_solver. }
    rewrite rev_app_distr. cbn [rev app]. f_equal.
    apply IH; [done|done| by rewrite map_app |done|done|lia|].
    intros j [->|Hj]%elem_of_cons; [rewrite He; specialize (Hd (e_Hash e)); set_solver|].
    specialize (Hseen j Hj). set_solver.
Qed.

Lemma foldl_best_skip l acc :
  Forall (λ i, dup i || named (e_Hash (entry_at i)) = true) l → foldl best_step acc l = acc.
Proof.
  revert acc; induction l as [|i l IH]; intros acc Hl; cbn [foldl]; [done|].
  inversion_clear Hl. rewrite IH by done. unfold best_step. by destruct (_ || _).
Qed.

Lemma best_walk_only k : k < List.length es →
  (∀ i, i < List.length es → dup i || named (e_Hash (entry_at i)) = true ↔ i ≠ k) →
  best_walk = walk_to k.
Proof.
  intros Hk Honly. unfold best_walk.
  replace (List.length es) with (k + S (List.length es - S k)) at 1 by lia.
  rewrite seq_app, foldl_app. cbn [seq foldl Nat.add].
  rewrite (foldl_best_skip (seq 0 k)).
  2:{ apply Forall_forall. intros i Hi%elem_of_seq. apply Honly; lia. }
  rewrite foldl_best_skip.
  2:{ apply Forall_forall. intros i Hi%elem_of_seq. apply Honly; lia. }
  unfold best_step. destruct (_ || _) eqn:E; [by apply Honly in E|]. done.
Qed.

(** A chain from a genesis, with hashes that tell its entries apart. *)
Definition single_chain (L : list Entry) : Prop :=
  NoDup (map e_Hash L) ∧ Forall (λ e, e_Hash e ≠ "") L ∧ follows "" L.

Lemma single_head L h i : es ≡ₚ L ++ [h] → single_chain (L ++ [h]) → i < List.length es →
  dup i || named (e_Hash (entry_at i)) = true ↔ entry_at i ≠ h.
Proof.
  intros Hp (Hn & Hne & HL) Hi.
  assert (NoDup (map e_Hash es)) as Hes by by rewrite Hp.
  assert (dup i = false) as -> by
    (unfold dup, byHash; apply negb_false_iff, bool_decide_eq_true; by apply first_with_own).
  cbn [orb]. rewrite named_spec. setoid_rewrite Hp.
  rewrite map_app in Hn. apply NoDup_app in Hn as (_ & Hd & _). split.
  - intros (e & He & Hpe & E) Eh. rewrite Eh in E.
    destruct (follows_prev _ _ _ _ HL He) as [?|(x & Hx & E')]; [done|].
    apply (Hd (e_Hash x)); [apply list_elem_of_In, in_map; by apply list_elem_of_In|].
    rewrite <- E', E. set_solver.
  - intros Hnh. assert (entry_at i ∈ L ++ [h]) as Hin
      by (rewrite <- Hp; by apply list_elem_of_In, nth_In).
    apply elem_of_app in Hin as [Hin|Hin]; [|by apply list_elem_of_singleton in Hin].
    apply list_elem_of_split in Hin as (L1 & L2 & E).
    assert (∃ y L3, L2 ++ [h] = y :: L3) as (y & L3 & Ey) by (destruct L2; eauto).
    rewrite E, <- app_assoc in HL. cbn in HL. rewrite Ey in HL.
    apply follows_app in HL as (_ & _ & Hy & _). exists y.
    assert (y ∈ L ++ [h]) as Hyin by (rewrite E, <- app_assoc; cbn; rewrite Ey; set_solver).
    split_and!; [done| |done]. rewrite Hy. rewrite Forall_forall in Hne. apply Hne.
    rewrite E. set_solver.
Qed.

Lemma orderByPrev_single L : es ≡ₚ L → single_chain L → orderByPrev = (L, []).
Proof.
  intros Hp HC. destruct L as [|h L _] using rev_ind.
  { apply Permutation_nil_r in Hp. unfold orderByPrev, best_walk. by rewrite Hp. }
  assert (h ∈ es) as (k & Hk & Ek)%position by (rewrite Hp; set_solver).
  pose proof HC as (Hn & Hne & HL). assert (NoDup (map e_Hash es)) as Hes by by rewrite Hp.
  assert (map entry_at best_walk = h :: rev L) as Hw.
  { rewrite (best_walk_only k Hk).
    - unfold walk_to. apply walk_back_chain; try done; [| |set_solver].
      + rewrite Forall_forall in Hne |- *. intros e He. split; [by apply Hne | by rewrite Hp].
      + rewrite Hp, length_app. cbn. lia.
    - intros i Hi. rewrite (single_head L h i Hp HC Hi), <- Ek. split.
      + congruence.
      + intros Hik E. apply Hik. pose proof (first_with_own es i Hes Hi) as H1.
        pose proof (first_with_own es k Hes Hk) as H2. unfold entry_at in E. congruence. }
  pose proof orderByPrev_perm as Hperm. unfold orderByPrev in *. cbn [fst snd] in Hperm.
  rewrite map_rev, Hw in *. cbn [rev] in *. rewrite rev_involutive in *. f_equal.
  apply length_zero_iff_nil. apply Permutation_length in Hperm, Hp. rewrite length_app in Hperm.
  match goal with |- ?x = 0 => set (n := x) in * end. lia.
Qed.

(** Consecutive entries of a list, linked by Prev. *)
Fixpoint links (L : list Entry) : Prop :=
  match L with
  | a :: ((b :: _) as L') => e_Prev b = e_Hash a ∧ e_Prev b ≠ "" ∧ links L'
  | _ => True
  end.

Lemma links_snoc L b : links L →
  (∀ a, last L = Some a → e_Prev b = e_Hash a ∧ e_Prev b ≠ "") → links (L ++ [b]).
Proof.
  induction L as [|x L IH]; intros HL Hb; [done|]. destruct L as [|y L].
  - cbn. destruct (Hb x eq_refl). by split_and!.
  - destruct HL as (? & ? & HL). change (links (x :: y :: (L ++ [b]))). split_and!; try done.
    apply IH; [done|]. intros a Ha. apply Hb. by rewrite last_cons, Ha.
Qed.

Lemma linked_back_links w : linked_back w → links (map entry_at (rev w)).
Proof.
  induction w as [|i w IH]; [done|]. intros Hw. cbn [rev]. rewrite map_app. apply links_snoc.
  - apply IH. destruct w; [done|]. by destruct Hw as (_ & _ & Hw).
  - intros a. destruct w as [|p w]; [done|]. destruct Hw as (E & Hne & _).
    cbn [rev]. rewrite map_app. cbn [map]. rewrite last_snoc. by intros [= <-].
Qed.
End Order.

(** orderByPrev loses nothing and invents nothing: the chain and the entries
    set aside are together the input, and every entry of the chain after the first
    names the one before it as its Prev. *)
Theorem orderByPrev_partition es :
  (orderByPrev es).1 ++ (orderByPrev es).2 ≡ₚ es ∧ links (orderByPrev es).1.
Proof.
  split; [apply orderByPrev_perm|]. unfold orderByPrev. cbn [fst].
  apply linked_back_links, best_walk_spec.
Qed.

(** A single chain is recovered whole whatever order its files arrive in: if
    the entries are, in some order, one chain from a genesis with distinct hashes,
    orderByPrev returns exactly that chain and sets nothing aside. *)
Theorem orderByPrev_recovers es L :
  es ≡ₚ L → single_chain L → orderByPrev es = (L, []).
Proof. apply orderByPrev_single. Qed.

(** An entry with a hash and a link, and nothing else. *)
Definition bare_entry (hash prev : string) : Entry := {|
  e_Format := FileFormat; e_Kind := ""; e_Pushed := 0; e_ScanUID := ""; e_Prev := prev;
  e_Bundle := zero_Bundle; e_Retracts := ""; e_Reason := ""; e_Checkpoint := None;
  e_Review := None; e_Adjudication := None; e_Signer := None; e_Hash := hash; e_KeyID := "";
  e_Signature := ""; e_Sigstore := ""; e_Raw := None; e_File := hash |}.

Lemma orderByPrev_recovers_witness :
  orderByPrev [bare_entry "c" "b"; bare_entry "a" ""; bare_entry "b" "a"]
  = ([bare_entry "a" ""; bare_entry "b" "a"; bare_entry "c" "b"], []).
Proof.
  apply orderByPrev_recovers.
  - apply (Permutation_app_comm [_] [_; _]).
  - split_and!; [by apply (bool_decide_eq_true_1 _); vm_compute | by repeat constructor | by split_and!].
Defined.
