(* ===== verification/Summary.v ===== *)
(** * The figures of a results page: internal/ledger/summary.go, internal/seatrecord

    Summarize over the bundles Derive serves. The tallies add machine integers
    ([w64]); a share is the IEEE-754 double Go computes, by SpecFloat's division.
    Go ranges over its maps in no fixed order: [summarizeModels_spec] gives every
    line from the rows alone, so the order does not show. *)
From Stdlib Require Import SpecFloat.
From S2P Require Import Prelude GoLib JsonText Json Canonical Rows.
Local Open Scope string_scope.
Local Open Scope list_scope.
Local Open Scope Z_scope.

(** ** Seats: internal/seatrecord/seatrecord.go *)

Definition builtinAgents : list string := ["claude-code"; "codex"; "antigravity"].

Definition RecordedSeatNamesAModel (spec tool : string) : bool :=
  let spec := trim_space spec in
  if String.eqb spec "" then false
  else
    let '(name, model, _) := cut ":" spec in
    if negb (is_blank tool) then negb (is_blank model)
    else if existsb (String.eqb name) builtinAgents then negb (is_blank model)
    else true.

(** ** Floats *)

(** [math.IsNaN] of a bit pattern: exponent bits all set, a mantissa. *)
Definition float_nan (f : float64) : bool :=
  (Z.land (Z.shiftr f 52) 2047 =? 2047) && negb (Z.land f (2 ^ 52 - 1) =? 0).

(** [float64(z)]: the nearest double. *)
Definition float_of_int (z : Z) : spec_float := binary_normalize 53 1024 z 0 false.
Definition float_div (a b : Z) : spec_float :=
  SFdiv 53 1024 (float_of_int a) (float_of_int b).

(** ** The summary's shape *)

Record Telemetry := mkTelemetry {
  tel_ScansWithTelemetry : Z; tel_ModelCalls : Z; tel_InputTokens : Z;
  tel_OutputTokens : Z; tel_UnmeteredCalls : Z }.

Record Totals := mkTotals {
  tot_Scans : Z; tot_FilesAudited : Z; tot_MutantsPlanted : Z; tot_MutantsGraded : Z;
  tot_Survivors : Z; tot_ProvenMissed : Z; tot_CouldNotGrade : Z;
  tot_CaughtShare : option spec_float; tot_Telemetry : option Telemetry;
  tot_LastRun : option instant;
  tot_EntriesVerified : Z; tot_EntriesUnsigned : Z; tot_EntriesFailed : Z;
  tot_EntriesKey : Z; tot_EntriesKeylessPinned : Z;
  tot_EntriesKeylessPinnedUnchecked : Z; tot_EntriesKeylessUnpinned : Z }.

Record RunPoint := mkRunPoint {
  rp_ScanUID : string; rp_Repo : string; rp_Commit : string; rp_FinishedAt : option instant;
  rp_FilesAudited : Z; rp_MutantsPlanted : Z; rp_MutantsGraded : Z; rp_Survivors : Z;
  rp_ProvenMissed : Z; rp_CaughtShare : option spec_float }.

Record Gap := mkGap {
  gap_ScanUID : string; gap_Repo : string; gap_Commit : string; gap_Path : string;
  gap_MutantID : string; gap_Outcome : string; gap_AuthoredTest : string;
  gap_SourcePushed : bool }.

Record ModelLine := mkModelLine {
  ml_Role : string; ml_Model : string; ml_Files : Z; ml_Rows : Z; ml_MutantsPlanted : Z;
  ml_MutantsGraded : Z; ml_Survivors : Z; ml_ProvenMissed : Z;
  ml_CaughtShare : option spec_float }.

Record Summary := mkSummary {
  su_Totals : Totals; su_Runs : list RunPoint; su_Gaps : list Gap; su_Models : list ModelLine }.

Definition ComparedRole : string := "mutant-generator".

(** ** Tallies *)

Definition gradedFile (f : Row) : bool :=
  String.eqb (row_Disposition f) "audited"
  && match row_KillRate f with Some k => negb (float_nan k) | None => false end
  && negb (row_TimedOut f) && (0 <? row_MutantsGraded f).

Record tally := mkTally {
  ta_audited : Z; ta_graded : Z; ta_planted : Z; ta_survivors : Z; ta_proven : Z;
  ta_gradedMutants : Z; ta_caught : Z }.
Definition zero_tally : tally := mkTally 0 0 0 0 0 0 0.

Definition tally_add (t : tally) (f : Row) : tally :=
  if negb (String.eqb (row_Disposition f) "audited") then t
  else if negb (gradedFile f) then
    mkTally (ta_audited t + 1) (ta_graded t) (ta_planted t) (ta_survivors t) (ta_proven t)
      (ta_gradedMutants t) (ta_caught t)
  else mkTally (ta_audited t + 1) (ta_graded t + 1)
    (w64 (ta_planted t + row_MutantsPlanted f)) (w64 (ta_survivors t + row_Survivors f))
    (w64 (ta_proven t + row_ProvenMissed f))
    (w64 (ta_gradedMutants t + row_MutantsGraded f))
    (w64 (ta_caught t + w64 (row_MutantsGraded f - row_Survivors f))).

Definition tally_merge (t o : tally) : tally :=
  mkTally (ta_audited t + ta_audited o) (ta_graded t + ta_graded o)
    (w64 (ta_planted t + ta_planted o)) (w64 (ta_survivors t + ta_survivors o))
    (w64 (ta_proven t + ta_proven o)) (w64 (ta_gradedMutants t + ta_gradedMutants o))
    (w64 (ta_caught t + ta_caught o)).

Definition tally_share (t : tally) : option spec_float :=
  if ta_gradedMutants t =? 0 then None
  else Some (float_div (ta_caught t) (ta_gradedMutants t)).

(** ** Gaps *)

(** [files]: the first graded row of a path. *)
Definition graded_of (b : Bundle) (path : string) : option Row :=
  List.find (λ f, gradedFile f && String.eqb (row_Path f) path) (b_Files b).

Definition gap_of (b : Bundle) (m : MutantRow) : list Gap :=
  match graded_of b (mu_Path m) with
  | Some f =>
      if negb (mu_Proven m) then []
      else [{| gap_ScanUID := sr_ScanUID (b_Scan b); gap_Repo := sr_Repo (b_Scan b);
               gap_Commit := sr_Commit (b_Scan b); gap_Path := mu_Path m;
               gap_MutantID := mu_MutantID m; gap_Outcome := mu_Outcome m;
               gap_AuthoredTest := if b_SourcePushed b then row_AuthoredTest f else "";
               gap_SourcePushed := b_SourcePushed b |}]
  | None => []
  end.
Definition gapsOf (b : Bundle) : list Gap := flat_map (gap_of b) (b_Mutants b).

(** ** Models *)

(** [json.Unmarshal] into a [map[string]string]: null leaves it empty, a null
    member is the empty string, anything else that is not a string fails. *)
Definition string_member (kv : string * json) : option (string * string) :=
  match kv.2 with JStr s => Some (kv.1, s) | JNull => Some (kv.1, "") | _ => None end.
Definition unmarshal_strings (s : string) : option (list (string * string)) :=
  match parse_doc s with
  | Some JNull => Some []
  | Some (JObj m) => obj_of_list <$> mapM string_member m
  | _ => None
  end.

Definition seatModel (f : Row) (role : string) : option string :=
  match unmarshal_strings (row_ModelsByRole f) with
  | None => None
  | Some models =>
      match (if String.eqb (row_SeatTools f) "" then Some []
             else unmarshal_strings (row_SeatTools f)) with
      | None => None
      | Some tools =>
          let m := default "" (obj_get role models) in
          if RecordedSeatNamesAModel m (default "" (obj_get role tools)) then Some m else None
      end
  end.

(** (Repo, Commit, Path). *)
Abbreviation file_key := (string * string * string)%type.

Definition rated_row (f : Row) : option (file_key * (string * Row)) :=
  if negb (gradedFile f) then None
  else match seatModel f ComparedRole with
  | Some m => Some ((row_Repo f, row_Commit f, row_Path f), (m, f))
  | None => None
  end.
Definition rated_rows (scans : list Bundle) : list (file_key * (string * Row)) :=
  omap rated_row (flat_map b_Files scans).

Definition group_add (g : gmap file_key (list (string * Row))) (r : file_key * (string * Row)) :=
  <[r.1 := default [] (g !! r.1) ++ [r.2]]> g.
Definition byFile (scans : list Bundle) : gmap file_key (list (string * Row)) :=
  foldl group_add ∅ (rated_rows scans).

(** More than one distinct model. *)
Definition compared (rs : list (string * Row)) : bool :=
  (2 <=? Z.of_nat (size (list_to_set (map fst rs) : gset string))).

(** [byModel] and [files], keyed alike. *)
Definition model_add (k : file_key) (acc : gmap string (tally * gset file_key)) (r : string * Row) :=
  let '(t, ks) := default (zero_tally, ∅) (acc !! r.1) in
  <[r.1 := (tally_add t r.2, {[ k ]} ∪ ks)]> acc.
Definition file_add (acc : gmap string (tally * gset file_key))
    (kr : file_key * list (string * Row)) :=
  if compared kr.2 then foldl (model_add kr.1) acc kr.2 else acc.

Definition model_line (mt : string * (tally * gset file_key)) : ModelLine :=
  let '(m, (t, ks)) := mt in {|
    ml_Role := ComparedRole; ml_Model := m; ml_Files := Z.of_nat (size ks); ml_Rows := ta_graded t;
    ml_MutantsPlanted := ta_planted t; ml_MutantsGraded := ta_gradedMutants t;
    ml_Survivors := ta_survivors t; ml_ProvenMissed := ta_proven t;
    ml_CaughtShare := tally_share t |}.

Definition summarizeModels (scans : list Bundle) : list ModelLine :=
  sort_stable (λ a b, str_ltb (ml_Model a) (ml_Model b))
    (map model_line (map_to_list (foldl file_add ∅ (map_to_list (byFile scans))))).

(** ** Summarize *)

Definition run_tally (b : Bundle) : tally := foldl tally_add zero_tally (b_Files b).

Definition run_point (b : Bundle) : RunPoint :=
  let run := run_tally b in {|
    rp_ScanUID := sr_ScanUID (b_Scan b); rp_Repo := sr_Repo (b_Scan b);
    rp_Commit := sr_Commit (b_Scan b); rp_FinishedAt := sr_FinishedAt (b_Scan b);
    rp_FilesAudited := ta_audited run; rp_MutantsPlanted := ta_planted run;
    rp_MutantsGraded := ta_gradedMutants run; rp_Survivors := ta_survivors run;
    rp_ProvenMissed := ta_proven run; rp_CaughtShare := tally_share run |}.

Definition last_run (last : option instant) (b : Bundle) : option instant :=
  match sr_FinishedAt (b_Scan b), last with
  | Some t, None => Some t
  | Some t, Some l => if l <? t then Some t else last
  | None, _ => last
  end.

Definition tel_call (t : Telemetry) (c : ModelCallRow) : Telemetry :=
  mkTelemetry (tel_ScansWithTelemetry t) (w64 (tel_ModelCalls t + mc_Calls c))
    (w64 (tel_InputTokens t + mc_InputTokens c)) (w64 (tel_OutputTokens t + mc_OutputTokens c))
    (w64 (tel_UnmeteredCalls t + mc_UnmeteredCalls c)).
Definition tel_scan (t : Telemetry) (b : Bundle) : Telemetry :=
  match b_Calls b with
  | [] => t
  | cs => foldl tel_call (mkTelemetry (tel_ScansWithTelemetry t + 1) (tel_ModelCalls t)
            (tel_InputTokens t) (tel_OutputTokens t) (tel_UnmeteredCalls t)) cs
  end.

(** Timed runs first, by time, then by uid. *)
Definition run_less (a b : RunPoint) : bool :=
  match rp_FinishedAt a, rp_FinishedAt b with
  | Some x, Some y => if x =? y then str_ltb (rp_ScanUID a) (rp_ScanUID b) else x <? y
  | Some _, None => true
  | None, Some _ => false
  | None, None => str_ltb (rp_ScanUID a) (rp_ScanUID b)
  end.

Definition Summarize (scans : list Bundle) : Summary :=
  let all := foldl (λ t b, tally_merge t (run_tally b)) zero_tally scans in
  let tel := foldl tel_scan (mkTelemetry 0 0 0 0 0) scans in {|
  su_Totals := {|
    tot_Scans := Z.of_nat (length scans); tot_FilesAudited := ta_audited all;
    tot_MutantsPlanted := ta_planted all; tot_MutantsGraded := ta_gradedMutants all;
    tot_Survivors := ta_survivors all; tot_ProvenMissed := ta_proven all;
    tot_CouldNotGrade := ta_audited all - ta_graded all; tot_CaughtShare := tally_share all;
    tot_Telemetry := if 0 <? tel_ScansWithTelemetry tel then Some tel else None;
    tot_LastRun := foldl last_run None scans;
    tot_EntriesVerified := 0; tot_EntriesUnsigned := 0; tot_EntriesFailed := 0;
    tot_EntriesKey := 0; tot_EntriesKeylessPinned := 0;
    tot_EntriesKeylessPinnedUnchecked := 0; tot_EntriesKeylessUnpinned := 0 |};
  su_Runs := sort_stable run_less (map run_point scans);
  su_Gaps := flat_map gapsOf scans;
  su_Models := summarizeModels scans |}.

(** ** Tallies are sums *)

Definition audited (f : Row) : bool := String.eqb (row_Disposition f) "audited".
Definition audited_in (l : list Row) : list Row := List.filter audited l.
Definition graded_in (l : list Row) : list Row := List.filter gradedFile l.

(** The tally of a list of rows, as sums over its audited and graded rows. *)
Definition sum_tally (l : list Row) : tally :=
  mkTally (Z.of_nat (length (audited_in l))) (Z.of_nat (length (graded_in l)))
    (w64 (zsum row_MutantsPlanted (graded_in l))) (w64 (zsum row_Survivors (graded_in l)))
    (w64 (zsum row_ProvenMissed (graded_in l))) (w64 (zsum row_MutantsGraded (graded_in l)))
    (w64 (zsum (λ f, row_MutantsGraded f - row_Survivors f) (graded_in l))).

Lemma tally_eq t o : ta_audited t = ta_audited o → ta_graded t = ta_graded o →
  ta_planted t = ta_planted o → ta_survivors t = ta_survivors o → ta_proven t = ta_proven o →
  ta_gradedMutants t = ta_gradedMutants o → ta_caught t = ta_caught o → t = o.
Proof. destruct t, o; cbn; congruence. Qed.

Lemma gradedFile_audited f : gradedFile f = true → audited f = true.
Proof. unfold gradedFile, audited. intros H. by repeat apply andb_prop in H as [H _]. Qed.

Lemma sum_tally_snoc l f : sum_tally (l ++ [f]) = tally_add (sum_tally l) f.
Proof.
  unfold sum_tally, audited_in, graded_in, tally_add. rewrite !List.filter_app. cbn [List.filter].
  fold (audited f). destruct (gradedFile f) eqn:Eg.
  - rewrite (gradedFile_audited f Eg). cbn [negb].
    apply tally_eq; cbn [ta_audited ta_graded ta_planted ta_survivors ta_proven ta_gradedMutants ta_caught];
      rewrite ?length_app, ?zsum_app; cbn [length zsum foldr]; rewrite ?w64_l, ?w64_r, ?w64_l; f_equal; lia.
  - destruct (audited f); cbn [negb]; rewrite ?app_nil_r; [|done].
    apply tally_eq; cbn [ta_audited ta_graded ta_planted ta_survivors ta_proven ta_gradedMutants ta_caught];
      rewrite ?length_app; cbn; lia || done.
Qed.

Lemma foldl_tally_add l : foldl tally_add zero_tally l = sum_tally l.
Proof.
  induction l as [|f l IH] using rev_ind; [reflexivity|].
  by rewrite foldl_snoc, IH, sum_tally_snoc.
Qed.

Lemma sum_tally_app l1 l2 : sum_tally (l1 ++ l2) = tally_merge (sum_tally l1) (sum_tally l2).
Proof.
  unfold sum_tally, audited_in, graded_in, tally_merge. rewrite !List.filter_app, !length_app, !zsum_app.
  apply tally_eq; cbn [ta_audited ta_graded ta_planted ta_survivors ta_proven ta_gradedMutants ta_caught];
    rewrite ?w64_l, ?w64_r; lia.
Qed.

#[export] Instance sum_tally_perm : Proper ((≡ₚ) ==> eq) sum_tally.
Proof.
  intros l1 l2 H. unfold sum_tally, audited_in, graded_in.
  apply tally_eq; cbn [ta_audited ta_graded ta_planted ta_survivors ta_proven ta_gradedMutants ta_caught];
    by rewrite H.
Qed.

Lemma merge_runs scans :
  foldl (λ t b, tally_merge t (run_tally b)) zero_tally scans = sum_tally (flat_map b_Files scans).
Proof.
  induction scans as [|b scans IH] using rev_ind; [reflexivity|].
  rewrite foldl_snoc, IH, flat_map_app, sum_tally_app. unfold run_tally. rewrite foldl_tally_add.
  cbn [flat_map]. by rewrite app_nil_r.
Qed.

(** The figures pool the served files: audited counts every audited row,
    could-not-grade the audited rows without a measured rate, and planted, graded,
    survivors and proven are sums over the graded rows alone (modulo 2^64); the
    caught share is the double nearest to the pooled quotient, null when the
    pooled denominator is zero. *)
Theorem Summarize_pools scans :
  let rows := flat_map b_Files scans in
  let t := su_Totals (Summarize scans) in
  tot_Scans t = Z.of_nat (length scans) ∧
  tot_FilesAudited t = Z.of_nat (length (audited_in rows)) ∧
  tot_CouldNotGrade t = Z.of_nat (length (List.filter (λ f, negb (gradedFile f)) (audited_in rows))) ∧
  tot_MutantsPlanted t = w64 (zsum row_MutantsPlanted (graded_in rows)) ∧
  tot_MutantsGraded t = w64 (zsum row_MutantsGraded (graded_in rows)) ∧
  tot_Survivors t = w64 (zsum row_Survivors (graded_in rows)) ∧
  tot_ProvenMissed t = w64 (zsum row_ProvenMissed (graded_in rows)) ∧
  tot_CaughtShare t =
    if w64 (zsum row_MutantsGraded (graded_in rows)) =? 0 then None
    else Some (float_div (w64 (zsum (λ f, row_MutantsGraded f - row_Survivors f) (graded_in rows)))
                         (w64 (zsum row_MutantsGraded (graded_in rows)))).
Proof.
  cbn zeta. unfold Summarize. cbn [su_Totals tot_Scans tot_FilesAudited tot_CouldNotGrade
    tot_MutantsPlanted tot_MutantsGraded tot_Survivors tot_ProvenMissed tot_CaughtShare].
  rewrite merge_runs. split_and!; try done. unfold sum_tally. cbn [ta_audited ta_graded].
  generalize (flat_map b_Files scans) as l. unfold audited_in, graded_in. induction l as [|f l IH]; [done|].
  cbn [List.filter]. pose proof (gradedFile_audited f) as Hga.
  destruct (gradedFile f) eqn:Eg; [rewrite (Hga eq_refl)|destruct (audited f)];
    cbn [List.filter]; rewrite ?Eg; cbn [negb length]; lia.
Qed.

Lemma zsum_pos {A} (f : A → Z) l : (∀ x, x ∈ l → 0 < f x) → 0 <= zsum f l ∧ (zsum f l = 0 → l = []).
Proof.
  intros H. split; [apply zsum_nonneg, Forall_forall; intros x Hx; specialize (H x Hx); lia|].
  destruct l as [|x l]; [done|]. intros E. exfalso. cbn in E.
  pose proof (zsum_nonneg f l) as Hn. pose proof (H x ltac:(set_solver)).
  assert (0 <= zsum f l) by (apply Hn, Forall_forall; intros y Hy; specialize (H y ltac:(set_solver)); lia).
  unfold zsum in *. lia.
Qed.

Lemma graded_positive f : gradedFile f = true → 0 < row_MutantsGraded f.
Proof. unfold gradedFile. intros H. apply andb_prop in H as [_ H]. lia. Qed.

(** A share nobody measured is null, and only that: while the graded mutants
    fit in an int, the caught share is null exactly when no served row is graded —
    a withheld, timed-out, NaN or denominator-less rate never reads as a number. *)
Theorem CaughtShare_null_iff scans :
  zsum row_MutantsGraded (graded_in (flat_map b_Files scans)) < 2 ^ 63 →
  tot_CaughtShare (su_Totals (Summarize scans)) = None ↔
  Forall (λ f, gradedFile f = false) (flat_map b_Files scans).
Proof.
  unfold Summarize. cbn [su_Totals tot_CaughtShare]. rewrite merge_runs.
  generalize (flat_map b_Files scans) as l. intros l Hlt. unfold sum_tally, tally_share.
  cbn [ta_gradedMutants ta_caught].
  destruct (zsum_pos row_MutantsGraded (graded_in l)) as [Hn H0].
  { intros f (_ & Hf)%list_elem_of_In%filter_In. by apply graded_positive. }
  rewrite w64_id by lia. rewrite Forall_forall. setoid_rewrite list_elem_of_In. split.
  - destruct (Z.eqb_spec (zsum row_MutantsGraded (graded_in l)) 0) as [E|]; [|done].
    intros _ f Hf. destruct (gradedFile f) eqn:Eg; [|done].
    assert (In f (graded_in l)) as Hin by (by apply filter_In). by rewrite (H0 E) in Hin.
  - intros Hf. assert (graded_in l = []) as ->; [|done]. unfold graded_in.
    clear -Hf. induction l as [|f l IH]; [done|]. cbn. rewrite (Hf f) by (by left).
    apply IH. intros g Hg. apply Hf. by right.
Qed.

(** ** Runs *)

#[export] Instance run_less_strict : StrictWeak run_less.
Proof.
  split; unfold run_less.
  - intros x y. destruct (rp_FinishedAt x) as [a|], (rp_FinishedAt y) as [b|]; try done.
    + destruct (Z.eqb_spec b a), (Z.eqb_spec a b); try lia. apply less_asym, _.
    + apply less_asym, _.
  - intros x y z.
    destruct (rp_FinishedAt x) as [a|], (rp_FinishedAt y) as [b|], (rp_FinishedAt z) as [c|]; try done.
    + destruct (Z.eqb_spec b a), (Z.eqb_spec c b), (Z.eqb_spec c a); try lia.
      apply less_cotrans, _.
    + apply less_cotrans, _.
Qed.

(** ** Models, line by line *)

(** The rated rows of a file, and whether more than one model is among them. *)
Definition on_file (k : file_key) (l : list (file_key * (string * Row))) : list (string * Row) :=
  map snd (List.filter (λ r, bool_decide (r.1 = k)) l).
Definition shared (l : list (file_key * (string * Row))) (k : file_key) : bool := compared (on_file k l).

(** A model's evidence: its rated rows on shared files. *)
Definition evidence (scans : list Bundle) (m : string) : list (file_key * (string * Row)) :=
  List.filter (λ r, bool_decide (r.2.1 = m))
    (List.filter (λ r, shared (rated_rows scans) r.1) (rated_rows scans)).

Definition flat (L : list (file_key * list (string * Row))) : list (file_key * (string * Row)) :=
  flat_map (λ kr, map (pair kr.1) kr.2) L.

#[export] Instance flat_perm : Proper ((≡ₚ) ==> (≡ₚ)) flat.
Proof. intros L1 L2 H. unfold flat. by apply Permutation_flat_map. Qed.

Lemma group_lookup l k :
  foldl group_add ∅ l !! k = match on_file k l with [] => None | rs => Some rs end.
Proof.
  induction l as [|r l IH] using rev_ind; [done|].
  rewrite foldl_snoc. unfold group_add at 1. unfold on_file in *. rewrite List.filter_app, map_app.
  cbn [List.filter]. destruct (decide (r.1 = k)) as [<-|Hne].
  - rewrite lookup_insert_eq, bool_decide_eq_true_2 by done. cbn [map]. rewrite IH.
    by destruct (map snd _).
  - rewrite lookup_insert_ne, bool_decide_eq_false_2 by done. cbn [map]. by rewrite app_nil_r.
Qed.

Lemma group_flat l : flat (map_to_list (foldl group_add ∅ l)) ≡ₚ l.
Proof.
  induction l as [|r l IH] using rev_ind; [done|].
  rewrite foldl_snoc. set (g := foldl group_add ∅ l) in *. unfold group_add.
  destruct r as [k v]. cbn [fst snd]. transitivity (flat (map_to_list g) ++ [(k, v)]); [|by rewrite IH].
  destruct (g !! k) as [rs|] eqn:E; cbn [default].
  - rewrite <- insert_delete_eq.
    rewrite map_to_list_insert by apply lookup_delete_eq.
    rewrite <- (insert_delete_id g k rs E) at 2.
    rewrite map_to_list_insert by apply lookup_delete_eq.
    unfold flat. cbn [flat_map fst snd]. rewrite map_app, <- !app_assoc.
    apply Permutation_app_head, Permutation_app_comm.
  - rewrite map_to_list_insert by done. unfold flat. cbn. apply Permutation_app_comm with (l := [_]).
Qed.

(** The nested loops over the grouped rows, as one loop over the flat list. *)
Lemma file_add_flat L acc :
  foldl file_add acc L =
  foldl (λ acc r, model_add r.1 acc r.2) acc (flat (List.filter (λ kr, compared kr.2) L)).
Proof.
  revert acc; induction L as [|[k rs] L IH]; intros acc; [done|]. cbn [foldl List.filter].
  rewrite IH. unfold file_add. cbn [fst snd]. destruct (compared rs); [|done].
  unfold flat. cbn [flat_map fst snd]. rewrite foldl_app. f_equal. clear.
  revert acc; induction rs as [|r rs IH]; intros acc; [done|]. cbn. apply IH.
Qed.

Lemma flat_filter (p : file_key → bool) L :
  (∀ k rs, (k, rs) ∈ L → compared rs = p k) →
  flat (List.filter (λ kr, compared kr.2) L) = List.filter (λ r, p r.1) (flat L).
Proof.
  unfold flat. induction L as [|[k rs] L IH]; intros H; [done|]. cbn [List.filter flat_map fst snd].
  rewrite List.filter_app, <- IH by (intros; apply H; by right).
  rewrite (H k rs) by (by left).
  assert (List.filter (λ r : file_key * (string * Row), p r.1) (map (pair k) rs) =
          if p k then map (pair k) rs else []) as ->; [|by destruct (p k)].
  clear H. induction rs as [|r rs IHr]; [by destruct (p k)|]. cbn. rewrite IHr. by destruct (p k).
Qed.

Lemma model_lookup l m :
  foldl (λ acc r, model_add r.1 acc r.2) ∅ l !! m =
  match List.filter (λ r, bool_decide (r.2.1 = m)) l with
  | [] => None
  | ev => Some (foldl tally_add zero_tally (map (snd ∘ snd) ev), list_to_set (map fst ev))
  end.
Proof.
  induction l as [|[k [m' f]] l IH] using rev_ind; [done|].
  rewrite foldl_snoc, List.filter_app. set (acc := foldl _ _ l) in *. cbn [fst snd List.filter].
  unfold model_add. cbn [fst snd]. destruct (decide (m' = m)) as [->|Hne].
  - rewrite bool_decide_eq_true_2 by done.
    destruct (acc !! m) as [[t ks]|] eqn:E; cbn [default from_option id];
      rewrite lookup_insert_eq.
    + destruct (List.filter _ l) as [|e ev]; [done|]. injection IH as -> ->. cbn [app].
      f_equal. f_equal.
      * by rewrite app_comm_cons, map_app, foldl_app.
      * rewrite app_comm_cons, map_app. apply set_eq. intros x. rewrite elem_of_union, !elem_of_list_to_set, elem_of_app. set_solver.
    + destruct (List.filter _ l) as [|e ev]; [|done]. cbn. done.
  - rewrite bool_decide_eq_false_2 by done. rewrite app_nil_r.
    destruct (default _ _) as [t ks]. rewrite lookup_insert_ne by done. apply IH.
Qed.

Definition evidence_line (m : string) (ev : list (file_key * (string * Row))) : ModelLine :=
  let t := sum_tally (map (snd ∘ snd) ev) in {|
  ml_Role := ComparedRole; ml_Model := m;
  ml_Files := Z.of_nat (size (list_to_set (map fst ev) : gset file_key));
  ml_Rows := ta_graded t; ml_MutantsPlanted := ta_planted t; ml_MutantsGraded := ta_gradedMutants t;
  ml_Survivors := ta_survivors t; ml_ProvenMissed := ta_proven t; ml_CaughtShare := tally_share t |}.

(** The shared evidence the loops visit, in some order. *)
Lemma compared_perm scans :
  flat (List.filter (λ kr, compared kr.2) (map_to_list (byFile scans)))
  ≡ₚ List.filter (λ r, shared (rated_rows scans) r.1) (rated_rows scans).
Proof.
  rewrite (flat_filter (shared (rated_rows scans))).
  - unfold byFile. by rewrite group_flat.
  - intros k rs Hin%elem_of_map_to_list. unfold byFile in Hin. rewrite group_lookup in Hin.
    unfold shared. destruct (on_file k _) eqn:E; [done|]. by injection Hin as <-.
Qed.

Lemma summary_lookup scans m :
  foldl file_add ∅ (map_to_list (byFile scans)) !! m =
  match evidence scans m with
  | [] => None
  | ev => Some (sum_tally (map (snd ∘ snd) ev), list_to_set (map fst ev))
  end.
Proof.
  rewrite file_add_flat, model_lookup.
  pose proof (compared_perm scans) as Hp. unfold evidence.
  assert (List.filter (λ r, bool_decide (r.2.1 = m)) (flat (List.filter (λ kr, compared kr.2)
    (map_to_list (byFile scans)))) ≡ₚ List.filter (λ r, bool_decide (r.2.1 = m))
    (List.filter (λ r, shared (rated_rows scans) r.1) (rated_rows scans))) as H by by rewrite Hp.
  destruct (List.filter _ (flat _)) as [|e ev] eqn:E1.
  - apply Permutation_nil_l in H. by rewrite <- H.
  - destruct (List.filter _ (List.filter _ _)) as [|e' ev'] eqn:E2.
    { by apply Permutation_nil_r in H. }
    rewrite foldl_tally_add. f_equal. f_equal; [by rewrite H|].
    apply set_eq. intros k. rewrite !elem_of_list_to_set. by rewrite H.
Qed.

(** The comparison is like for like, and says all there is: the lines are in
    strict order of model, and a line stands for a model exactly when that model
    graded a file (the same repository, commit and path) that another model graded
    too; its figures are the sums over that model's rows on such files alone. *)
Theorem summarizeModels_spec scans :
  StronglySorted (λ a b, str_ltb (ml_Model a) (ml_Model b) = true) (summarizeModels scans) ∧
  ∀ l, l ∈ summarizeModels scans ↔
    ∃ m, evidence scans m ≠ [] ∧ l = evidence_line m (evidence scans m).
Proof.
  assert (Hmem : ∀ l, l ∈ summarizeModels scans ↔
    ∃ m, evidence scans m ≠ [] ∧ l = evidence_line m (evidence scans m)).
  { intros l. unfold summarizeModels. rewrite sort_stable_elem_of, list_elem_of_fmap.
    split.
    - intros ([m [t ks]] & -> & Hin%elem_of_map_to_list). rewrite summary_lookup in Hin. exists m.
      destruct (evidence scans m); [done|]. by injection Hin as <- <-.
    - intros (m & Hne & ->). set (ev := evidence scans m) in *.
      exists (m, (sum_tally (map (snd ∘ snd) ev), list_to_set (map fst ev))). split; [done|].
      apply elem_of_map_to_list. rewrite summary_lookup. fold ev. by destruct ev. }
  split; [|done]. unfold summarizeModels. set (M := foldl file_add _ _).
  apply sorted_strict; [apply sort_stable_sorted|].
  { split; intros *; [apply (less_asym str_ltb) | apply (less_cotrans str_ltb)]. }
  rewrite sort_stable_perm, map_map.
  rewrite (map_ext _ fst) by (by intros [m [t ks]]). apply NoDup_fst_map_to_list.
Qed.

(** A gap is a proven missing test, served with care: each one comes from a
    proven mutant of a scan, on a file that scan graded (so that the list describes
    the files the pooled figures do), and it carries an authored test's source only
    when that scan pushed source. *)
Theorem gaps_proven_and_graded scans :
  Forall (λ g, ∃ b m f, b ∈ scans ∧ m ∈ b_Mutants b ∧ f ∈ b_Files b ∧ mu_Proven m = true ∧
      gradedFile f = true ∧ row_Path f = mu_Path m ∧ gap_Path g = mu_Path m ∧
      gap_MutantID g = mu_MutantID m ∧ gap_ScanUID g = sr_ScanUID (b_Scan b) ∧
      gap_SourcePushed g = b_SourcePushed b ∧
      gap_AuthoredTest g = (if b_SourcePushed b then row_AuthoredTest f else ""))
    (su_Gaps (Summarize scans)) ∧
  sorted run_less (su_Runs (Summarize scans)) ∧
  su_Runs (Summarize scans) ≡ₚ map run_point scans.
Proof.
  split_and!; [|apply sort_stable_sorted, _|apply sort_stable_perm].
  apply Forall_forall. intros g (b & Hb & Hg)%list_elem_of_In%in_flat_map.
  apply in_flat_map in Hg as (m & Hm & Hg). unfold gap_of in Hg.
  destruct (graded_of b (mu_Path m)) as [f|] eqn:Ef; [|done].
  destruct (mu_Proven m) eqn:Ep; [|done]. destruct Hg as [<-|[]].
  unfold graded_of in Ef. apply find_some in Ef as [Hf Hgf]. bools.
  exists b, m, f. rewrite !list_elem_of_In. by split_and!.
Qed.

(** ** Witnesses *)

(** An audited row, graded: four mutants reached grading, two survived. *)
Definition sample_row (models : string) : Row := {|
  row_Repo := ""; row_Commit := ""; row_Path := "a.go"; row_KillRate := Some 4602678819172646912;
  row_Survivors := 2; row_ProvenMissed := 0; row_TimedOut := false; row_TestWriterFailed := false;
  row_PoolTestUnsound := false; row_Audited := 0; row_Candidates := 0; row_Lang := "";
  row_MutantsPlanted := 6; row_ModelsByRole := models; row_SeatTools := "";
  row_MinKillRate := None; row_MaxProvenMissed := None; row_Passed := None; row_StartedAt := None;
  row_StatementSHA256 := ""; row_RunURL := ""; row_TestSelection := ""; row_SelectedTests := 0;
  row_SuiteTests := 0; row_SelectionFallback := ""; row_SelectionUnreported := 0;
  row_SelectionExcluded := 0; row_AuthoredFallback := ""; row_SelectionExcludedRed := "";
  row_WriterMode := ""; row_Uncovered := false; row_PerMutant := false;
  row_TestsPerMutant := None; row_Trees := 0; row_ConcurrencyNote := ""; row_SharedDirs := "";
  row_ScanID := 0; row_Disposition := "audited"; row_Reason := ""; row_PreflightState := "";
  row_Evidence := ""; row_Detail := ""; row_Status := ""; row_CacheHit := false;
  row_ReusedFromScanID := None; row_CacheKey := ""; row_ParentSHA256 := "";
  row_MutantsGraded := 4; row_MutantsInvalid := 0; row_MutantsTimedOut := None;
  row_MutantsDistinct := None; row_MutantsDistinctSurvived := None; row_RegionsTotal := 0;
  row_RegionsProbed := 0; row_DroppedRegions := ""; row_VacuousFindings := 0;
  row_CriticIncomplete := false; row_AuthoredTestNotCollected := false;
  row_BaselineFailed := false; row_SuiteBaselineMillis := None; row_ProvenMutantIDs := "";
  row_ChallengerJaccard := None; row_ChallengerKappa := None; row_ChallengerSufficient := None;
  row_ChallengerMutants := None; row_ChallengerSurvivedWriter := None;
  row_ChallengerSurvivedShadow := None; row_ChallengerUnion := None; row_ChallengerShared := None;
  row_PriorsApplied := None; row_PriorDigest := ""; row_ComputedAt := None; row_MutantsFrom := "";
  row_GoalsDerived := 0; row_GoalReused := None; row_SelectionMillis := None;
  row_GenerationMillis := None; row_PoolMillis := None; row_DevPassMillis := None;
  row_AuthoredPassMillis := None; row_CriticMillis := None; row_TotalMillis := None;
  row_MutantMillisMedian := None; row_MutantMillisMax := None; row_AuthoredTest := "";
  row_VerdictJSON := ""; row_AuthoredLanding := ""; row_BaselineFlaky := "";
  row_PromptShape := ""; row_MutantBudget := None; row_MutantBudgetRule := "";
  row_Complexity := None; row_Symbols := None; row_SymbolsProbed := None; row_Decisions := None;
  row_DecisionsProbed := None; row_MutantsUnplaced := None; row_MutantsUnmeasured := None;
  row_MutantsDuplicate := None; row_WriterAttempts := ""; row_CoveringTests := None;
  row_CoveringUnits := None; row_ImportOnly := None |}.

Definition sample_bundle (rows : list Row) : Bundle :=
  mkBundle zero_ScanRow rows [] [] [] [] [] [] zero_Link false.

Example sample_share :
  tot_CaughtShare (su_Totals (Summarize [sample_bundle [sample_row ""; sample_row ""]]))
  = Some (S754_finite false 4503599627370496 (-53)).
Proof. vm_compute. reflexivity. Qed.

Lemma CaughtShare_null_iff_witness :
  tot_CaughtShare (su_Totals (Summarize [sample_bundle [sample_row ""; sample_row ""]])) ≠ None ∧
  tot_CaughtShare (su_Totals (Summarize [zero_Bundle])) = None.
Proof.
  split.
  - intros H. apply CaughtShare_null_iff in H; [|by vm_compute].
    by apply Forall_inv in H.
  - apply CaughtShare_null_iff; [by vm_compute|constructor].
Defined.

Definition seat_json (model : string) : string :=
  "{" +:+ String quote "mutant-generator" +:+ String quote ":" +:+ String quote model
  +:+ String quote "}".

Example sample_models :
  map (λ l, (ml_Model l, ml_Files l, ml_Rows l, ml_MutantsGraded l, ml_Survivors l))
    (summarizeModels [sample_bundle [sample_row (seat_json "beta")];
                      sample_bundle [sample_row (seat_json "alpha"); sample_row (seat_json "beta")]])
  = [("alpha", 1, 1, 4, 2); ("beta", 1, 2, 8, 4)] ∧
  summarizeModels [sample_bundle [sample_row (seat_json "beta")]] = [].
Proof. split; vm_compute; reflexivity. Qed.
