(* ===== verification/Derive.v ===== *)
(** * What a reader may trust: internal/ledger/derive.go

    Derive from raw files to served rows, over Verify, the record rules and
    Summarize. Main results: rows are served only from one intact chain
    ([Derive_all_or_nothing]); every served scan was verified and stands
    ([Derive_serves_verified]); every input file is accounted for
    ([Derive_accounts]); the input order does not matter
    ([Derive_order_independent]). *)
From S2P Require Import Prelude GoLib Crypto JsonText Json Canonical Rows Entry Signers Keyless Verify VerifyFacts Rules Order Summary.
Local Open Scope string_scope.
Local Open Scope list_scope.
Local Open Scope Z_scope.

Definition DeriveFormat : string := "corral-derive-1".

Record RawEntry := mkRawEntry { raw_Name : string; raw_Bytes : bytes }.

Inductive Status := StatusVerified | StatusUnsigned | StatusFailed.
#[export] Instance Status_eq_dec : EqDecision Status.
Proof. solve_decision. Defined.

Inductive status_problem :=
| CheckP (p : problem)
| HashOrLinkP
| NoRootKeyP
| NotVerifiedP
| ParseP (p : parse_error)
| OffChainP.

Record EntryStatus := mkEntryStatus {
  es_File : string; es_Hash : string; es_Kind : string; es_KeyID : string;
  es_Status : Status; es_Problem : option status_problem; es_Signer : string;
  es_Note : list note; es_Level : SigLevel; es_LevelSentence : string;
  es_Workflow : string; es_Trigger : string }.

Inductive ledger_problem :=
| DoesNotVerify (file : string) (p : option status_problem)
| NotOneChain (off : Z).

Record Derived := mkDerived {
  d_Format : string; d_Problem : option ledger_problem; d_RootKeyID : string;
  d_Entries : list EntryStatus; d_Scans : list ScanRow; d_Files : list Row;
  d_Mutants : list MutantRow; d_Calls : list ModelCallRow; d_Reviews : Z;
  d_Adjudications : gmap string Adjudication; d_Summary : Summary }.

Inductive derive_error := DuplicateName (name : string).

(** The verdict on a check; the first arm that applies. *)
Definition status_verdict (c : ChainCheck) : Status * option status_problem :=
  match cc_Problem c with
  | Some p => (StatusFailed, Some (CheckP p))
  | None =>
      if negb (cc_HashOK c) || negb (cc_LinkOK c) then (StatusFailed, Some HashOrLinkP)
      else if negb (cc_Signed c) then (StatusUnsigned, None)
      else if negb (cc_SigChecked c) then (StatusFailed, Some NoRootKeyP)
      else if negb (cc_SigOK c) then (StatusFailed, Some NotVerifiedP)
      else (StatusVerified, None)
  end.

Definition statusOf (c : ChainCheck) : EntryStatus :=
  let '(st, p) := status_verdict c in {|
  es_File := cc_File c; es_Hash := cc_Hash c; es_Kind := cc_Kind c; es_KeyID := cc_KeyID c;
  es_Status := st; es_Problem := p; es_Signer := cc_Signer c; es_Note := cc_Note c;
  es_Level := cc_Level c; es_LevelSentence := LevelSentence (cc_Level c);
  es_Workflow := match cc_Cert c with Some i => ci_Workflow i | None => "" end;
  es_Trigger := match cc_Cert c with Some i => ci_Trigger i | None => "" end |}.

Definition failed_status (file hash kind keyid : string) (p : status_problem) : EntryStatus :=
  mkEntryStatus file hash kind keyid StatusFailed (Some p) "" [] NoLevel "" "" "".

Definition is_off_chain (p : option status_problem) : bool :=
  match p with Some OffChainP => true | _ => false end.

Definition ledgerProblem (entries : list EntryStatus) (off : Z) : option ledger_problem :=
  match List.find (λ e, bool_decide (es_Status e = StatusFailed)
                        && negb (is_off_chain (es_Problem e))) entries with
  | Some e => Some (DoesNotVerify (es_File e) (es_Problem e))
  | None => if 0 <? off then Some (NotOneChain off) else None
  end.

(** [Totals.countEntries] of summary.go. *)
Definition count_if {A} (p : A → bool) (l : list A) : Z := Z.of_nat (length (List.filter p l)).
Definition countEntries (t : Totals) (es : list EntryStatus) : Totals :=
  let is_ st e := bool_decide (es_Status e = st) in
  let at_ l e := is_ StatusVerified e && bool_decide (es_Level e = l) in {|
  tot_Scans := tot_Scans t; tot_FilesAudited := tot_FilesAudited t;
  tot_MutantsPlanted := tot_MutantsPlanted t; tot_MutantsGraded := tot_MutantsGraded t;
  tot_Survivors := tot_Survivors t; tot_ProvenMissed := tot_ProvenMissed t;
  tot_CouldNotGrade := tot_CouldNotGrade t; tot_CaughtShare := tot_CaughtShare t;
  tot_Telemetry := tot_Telemetry t; tot_LastRun := tot_LastRun t;
  tot_EntriesVerified := count_if (is_ StatusVerified) es;
  tot_EntriesUnsigned := count_if (is_ StatusUnsigned) es;
  tot_EntriesFailed := count_if (is_ StatusFailed) es;
  tot_EntriesKey := count_if (at_ LevelKey) es;
  tot_EntriesKeylessPinned := count_if (at_ LevelKeylessPinned) es;
  tot_EntriesKeylessPinnedUnchecked := count_if (at_ LevelKeylessPinnedUnchecked) es;
  tot_EntriesKeylessUnpinned := count_if (at_ LevelKeylessUnpinned) es |}.

Definition counted (s : Summary) (es : list EntryStatus) : Summary :=
  mkSummary (countEntries (su_Totals s) es) (su_Runs s) (su_Gaps s) (su_Models s).

(** The first name met twice. *)
Fixpoint dup_name (seen : gset string) (raw : list RawEntry) : option string :=
  match raw with
  | [] => None
  | r :: raw' => if bool_decide (raw_Name r ∈ seen) then Some (raw_Name r)
                 else dup_name ({[ raw_Name r ]} ∪ seen) raw'
  end.

Section Derive.
Context {ft : FloatText} {dg : Digest} {pki : Pki} {ed : Ed25519} {ec : EntryCodec}.

Definition parse_raw (r : RawEntry) : result parse_error Entry :=
  ParseEntry (raw_Name r) (raw_Bytes r).
Definition parsed_of (raw : list RawEntry) : list Entry :=
  omap (λ r, match parse_raw r with Ok e => Some e | Err _ => None end) raw.
Definition unparsed_of (raw : list RawEntry) : list EntryStatus :=
  omap (λ r, match parse_raw r with
             | Ok _ => None
             | Err p => Some (failed_status (raw_Name r) "" "" "" (ParseP p)) end) raw.

(** Verified entries, and unsigned retractions: a retraction only removes. *)
Definition trusts (st : EntryStatus) (e : Entry) : bool :=
  bool_decide (es_Status st = StatusVerified)
  || bool_decide (es_Status st = StatusUnsigned) && KindIs e KindRetract.
Definition trusted_of (statuses : list EntryStatus) (chain : list Entry) : list Entry :=
  omap (λ se, if trusts se.1 se.2 then Some se.2 else None) (zip statuses chain).

Definition off_status (e : Entry) : EntryStatus :=
  failed_status (e_File e) (e_Hash e) (e_Kind e) (e_KeyID e) OffChainP.

Definition sorted_raw (raw : list RawEntry) : list RawEntry :=
  sort_stable (λ a b, str_ltb (raw_Name a) (raw_Name b)) raw.

Definition root_keyid (t : Trust) : string :=
  match t_RootPub t with
  | Some k => if (String.length k =? 32)%nat then KeyFingerprint k else ""
  | None => ""
  end.

Definition Derive (raw : list RawEntry) (t : Trust) : result derive_error Derived :=
  match dup_name ∅ raw with
  | Some n => Err (DuplicateName n)
  | None =>
      let sorted := sorted_raw raw in
      let '(chain, off) := orderByPrev (parsed_of sorted) in
      let statuses := map statusOf (Verify chain t) in
      let entries := statuses ++ map off_status off ++ unparsed_of sorted in
      match ledgerProblem entries (Z.of_nat (length off)) with
      | Some p => Ok {|
          d_Format := DeriveFormat; d_Problem := Some p; d_RootKeyID := root_keyid t;
          d_Entries := entries; d_Scans := []; d_Files := []; d_Mutants := []; d_Calls := [];
          d_Reviews := 0; d_Adjudications := ∅; d_Summary := counted (Summarize []) entries |}
      | None =>
          let trusted := trusted_of statuses chain in
          let live := LiveEntries trusted in
          let served := map e_Bundle (ScanEntries trusted) in
          Ok {|
          d_Format := DeriveFormat; d_Problem := None; d_RootKeyID := root_keyid t;
          d_Entries := entries; d_Scans := map b_Scan served;
          d_Files := flat_map b_Files served; d_Mutants := flat_map b_Mutants served;
          d_Calls := flat_map b_Calls served;
          d_Reviews := count_if (λ e, KindIs e KindReview) live;
          d_Adjudications := Adjudications live;
          d_Summary := counted (Summarize served) entries |}
      end
  end.

(** ** What a successful run is *)

Lemma dup_name_None seen raw :
  dup_name seen raw = None ↔ NoDup (map raw_Name raw) ∧ (∀ r, r ∈ raw → raw_Name r ∉ seen).
Proof.
  revert seen; induction raw as [|r raw IH]; intros seen; cbn [dup_name map].
  { split; [|done]. split; [constructor|set_solver]. }
  case_bool_decide as Hs; [split; [done|]; intros [_ H]; set_solver|].
  rewrite IH, NoDup_cons. assert (raw_Name r ∈ map raw_Name raw ↔ ∃ r', r' ∈ raw ∧ raw_Name r' = raw_Name r) as E.
  { rewrite list_elem_of_fmap. naive_solver. }
  rewrite E. split.
  - intros [Hn Hd]. split_and!; [|done|].
    + intros (r' & Hr & He). specialize (Hd r' Hr). set_solver.
    + intros r' [->|Hr]%elem_of_cons; [done|]. specialize (Hd r' Hr). set_solver.
  - intros [[Hn Hd] Hr]. split; [done|]. intros r' Hr'.
    assert (raw_Name r' ≠ raw_Name r) by naive_solver. set_solver.
Qed.

Lemma ledgerProblem_None entries off : ledgerProblem entries off = None ↔
  Forall (λ e, es_Status e = StatusFailed → is_off_chain (es_Problem e) = true) entries ∧ off <= 0.
Proof.
  unfold ledgerProblem. destruct (List.find _ entries) as [e|] eqn:E.
  - apply find_some in E as [Hin Hb]. bools. split; [done|]. intros [Hf _].
    rewrite Forall_forall in Hf. apply list_elem_of_In in Hin. rewrite (Hf e Hin) in *; done.
  - assert (Forall (λ e, es_Status e = StatusFailed → is_off_chain (es_Problem e) = true) entries).
    { apply Forall_forall. intros e He%list_elem_of_In Hs.
      pose proof (find_none _ _ E e He) as Hb. cbn in Hb.
      rewrite bool_decide_eq_true_2 in Hb by done. cbn in Hb. by bools. }
    destruct (Z.ltb_spec 0 off); [|by split]. split; [done|]. intros [_ ?]. lia.
Qed.

Lemma status_clean c : es_Status (statusOf c) ≠ StatusFailed → cc_Problem c = None.
Proof. unfold statusOf, status_verdict. by destruct (cc_Problem c). Qed.

Lemma status_not_off c : is_off_chain (es_Problem (statusOf c)) = false.
Proof. unfold statusOf, status_verdict. by repeat case_match; simplify_eq. Qed.

Lemma status_verified c : es_Status (statusOf c) = StatusVerified ↔
  cc_Problem c = None ∧ cc_HashOK c = true ∧ cc_LinkOK c = true ∧ cc_Signed c = true ∧
  cc_SigChecked c = true ∧ cc_SigOK c = true.
Proof.
  unfold statusOf, status_verdict.
  destruct (cc_Problem c), (cc_HashOK c), (cc_LinkOK c), (cc_Signed c), (cc_SigChecked c),
    (cc_SigOK c); cbn; naive_solver.
Qed.

(** The chain Derive verifies, the entries off it, and the statuses. *)
Definition chain_of (raw : list RawEntry) : list Entry := (orderByPrev (parsed_of (sorted_raw raw))).1.
Definition off_of (raw : list RawEntry) : list Entry := (orderByPrev (parsed_of (sorted_raw raw))).2.
Definition statuses_of (raw : list RawEntry) (t : Trust) : list EntryStatus :=
  map statusOf (Verify (chain_of raw) t).
Definition entries_of (raw : list RawEntry) (t : Trust) : list EntryStatus :=
  statuses_of raw t ++ map off_status (off_of raw) ++ unparsed_of (sorted_raw raw).

Lemma Derive_Ok raw t d : Derive raw t = Ok d →
  NoDup (map raw_Name raw) ∧ d_Entries d = entries_of raw t ∧
  d_Problem d = ledgerProblem (entries_of raw t) (Z.of_nat (length (off_of raw))).
Proof.
  unfold Derive. destruct (dup_name ∅ raw) eqn:En; [done|]. apply dup_name_None in En as [Hn _].
  unfold entries_of, statuses_of, chain_of, off_of.
  destruct (orderByPrev (parsed_of (sorted_raw raw))) as [chain off]. cbn [fst snd].
  destruct (ledgerProblem _ _) eqn:Ep; intros H; injection H as <-; done.
Qed.

(** Served rows, when there is no problem. *)
Lemma Derive_rows raw t d : Derive raw t = Ok d → d_Problem d = None →
  let trusted := trusted_of (statuses_of raw t) (chain_of raw) in
  let served := map e_Bundle (ScanEntries trusted) in
  d_Scans d = map b_Scan served ∧ d_Files d = flat_map b_Files served ∧
  d_Mutants d = flat_map b_Mutants served ∧ d_Calls d = flat_map b_Calls served ∧
  d_Adjudications d = Adjudications (LiveEntries trusted) ∧
  d_Summary d = counted (Summarize served) (d_Entries d).
Proof.
  unfold Derive. destruct (dup_name ∅ raw); [done|].
  unfold statuses_of, chain_of. destruct (orderByPrev (parsed_of (sorted_raw raw))) as [chain off].
  cbn [fst]. destruct (ledgerProblem _ _); intros H; injection H as <-; [done|].
  intros _. by split_and!.
Qed.

Lemma no_problem raw t d : Derive raw t = Ok d → d_Problem d = None →
  off_of raw = [] ∧ unparsed_of (sorted_raw raw) = [] ∧
  Forall (λ c, cc_Problem c = None) (Verify (chain_of raw) t) ∧
  Forall (λ st, es_Status st ≠ StatusFailed) (statuses_of raw t).
Proof.
  intros HD HP. destruct (Derive_Ok _ _ _ HD) as (_ & _ & E). rewrite HP in E. symmetry in E.
  apply ledgerProblem_None in E as [Hf Ho].
  assert (off_of raw = []) as Hoff by (destruct (off_of raw); [done|cbn in Ho; lia]).
  unfold entries_of in Hf. rewrite Hoff in Hf. cbn [map app] in Hf. apply Forall_app in Hf as [Hs Hu].
  assert (Forall (λ st, es_Status st ≠ StatusFailed) (statuses_of raw t)) as Hs'.
  { unfold statuses_of in *. rewrite Forall_map in Hs |- *. eapply Forall_impl; [exact Hs|].
    intros c Hc Hfail. specialize (Hc Hfail). by rewrite status_not_off in Hc. }
  split_and!; try done.
  - assert (∀ l, Forall (λ e, es_Status e = StatusFailed → is_off_chain (es_Problem e) = true)
      (unparsed_of l) → unparsed_of l = []) as H; [|by apply H].
    clear. intros l. unfold unparsed_of. induction l as [|r l IH]; [done|]. cbn [omap list_omap].
    destruct (parse_raw r); [apply IH|]. intros H%Forall_inv. by specialize (H eq_refl).
  - unfold statuses_of in Hs'. rewrite Forall_map in Hs'. eapply Forall_impl; [exact Hs'|].
    intros c. apply status_clean.
Qed.

(** ** What is served *)

(** No unsigned or verified retraction is lost: what is void among the trusted
    entries is what is void in the chain. *)
Lemma trusted_voided sts chain h : length sts = length chain →
  Forall (λ st, es_Status st ≠ StatusFailed) sts →
  voided (trusted_of sts chain) h ↔ voided chain h.
Proof.
  unfold trusted_of. revert sts h; induction chain as [|e chain IH]; intros [|st sts] h Hl Hs; try done.
  injection Hl as Hl. inversion_clear Hs as [|? ? Hst Hs']. cbn [zip zip_with omap list_omap fst snd].
  destruct (trusts st e) eqn:Et; cbn [voided]; rewrite !IH by done; [done|].
  assert (e_Kind e ≠ KindRetract); [|naive_solver].
  intros Hk. unfold trusts, KindIs in Et. rewrite Hk in Et. by destruct (es_Status st).
Qed.

Lemma trusted_elem sts chain e : length sts = length chain →
  e ∈ trusted_of sts chain ↔
  ∃ i st, sts !! i = Some st ∧ chain !! i = Some e ∧ trusts st e = true.
Proof.
  unfold trusted_of. intros Hl. rewrite list_elem_of_omap. split.
  - intros ([st e'] & (i & Hi)%list_elem_of_lookup & He). cbn in He.
    destruct (trusts st e') eqn:Et; [|done]. injection He as ->.
    apply lookup_zip_with_Some in Hi as (st' & e'' & [= -> ->] & ? & ?). by exists i, st'.
  - intros (i & st & Hst & He & Et). exists (st, e). cbn. rewrite Et. split; [|done].
    apply list_elem_of_lookup. exists i. apply lookup_zip_with_Some. by exists st, e.
Qed.

Lemma scan_elem es e : e ∈ ScanEntries es ↔ e ∈ es ∧ IsScan e = true ∧ ¬ voided es (e_Hash e).
Proof.
  unfold ScanEntries, LiveEntries. rewrite !list_elem_of_In, !filter_In.
  unfold lives. rewrite <- Retracted_voided.
  unfold IsScan, KindIs, KindScan. case_bool_decide as Hb; [naive_solver|].
  destruct (String.eqb_spec (e_Kind e) "") as [E|E]; [|naive_solver].
  rewrite E. cbn [String.eqb KindAdjudication]. destruct (e_Adjudication e); naive_solver.
Qed.

Lemma length_Verify es t : length (Verify es t) = length es.
Proof. unfold Verify, VerifyWithSigners. rewrite walk_checks. apply length_walk_from. Qed.

Lemma parsed_sorted raw : parsed_of (sorted_raw raw) ≡ₚ parsed_of raw.
Proof. unfold parsed_of, sorted_raw. by rewrite sort_stable_perm. Qed.

(** C40. Rows are served all or nothing: Derive reports no problem exactly when no
    status is "failed" — every file parses, every entry is on the one chain, and
    each one's hash, link, references and any signature check — and when it
    reports one it serves no scan, file, mutant, call, review or adjudication. *)
Theorem Derive_all_or_nothing raw t d : Derive raw t = Ok d →
  (d_Problem d = None ↔ Forall (λ st, es_Status st ≠ StatusFailed) (d_Entries d)) ∧
  (d_Problem d ≠ None →
     d_Scans d = [] ∧ d_Files d = [] ∧ d_Mutants d = [] ∧ d_Calls d = [] ∧ d_Reviews d = 0 ∧
     d_Adjudications d = ∅ ∧ tot_Scans (su_Totals (d_Summary d)) = 0).
Proof.
  intros HD. split.
  - destruct (Derive_Ok _ _ _ HD) as (_ & EE & EP). rewrite EE. split.
    + intros HP. destruct (no_problem _ _ _ HD HP) as (Ho & Hu & _ & Hs).
      unfold entries_of. rewrite Ho, Hu. by rewrite app_nil_r.
    + intros Hf. rewrite EP. apply ledgerProblem_None. split.
      * eapply Forall_impl; [exact Hf|]. intros st Hst ?. by destruct Hst.
      * unfold entries_of in Hf. apply Forall_app in Hf as [_ Hf]. apply Forall_app in Hf as [Hf _].
        destruct (off_of raw); [done|]. by apply Forall_inv in Hf.
  - unfold Derive in HD. destruct (dup_name ∅ raw); [done|].
    destruct (orderByPrev (parsed_of (sorted_raw raw))) as [chain off].
    destruct (ledgerProblem _ _); injection HD as <-; [intros _; by split_and!|done].
Qed.

(** C39. A served scan is a verified one that stands, and every such scan is
    served: when Derive reports no problem, its scan rows are those of the
    entries of the chain that are scans, whose hash, link and signature were
    checked and held, and that no retraction in force names. The chain holds
    every file, and every entry in it is clean. *)
Theorem Derive_serves_verified raw t d : Derive raw t = Ok d → d_Problem d = None →
  chain_of raw ≡ₚ parsed_of raw ∧ length (chain_of raw) = length raw ∧
  Forall (λ c, cc_Problem c = None) (Verify (chain_of raw) t) ∧
  ∀ s, s ∈ d_Scans d ↔ ∃ i e c, chain_of raw !! i = Some e ∧ Verify (chain_of raw) t !! i = Some c ∧
    cc_HashOK c = true ∧ cc_LinkOK c = true ∧ cc_SigChecked c = true ∧ cc_SigOK c = true ∧
    cc_Signed c = true ∧ IsScan e = true ∧ ¬ voided (chain_of raw) (e_Hash e) ∧
    s = b_Scan (e_Bundle e).
Proof.
  intros HD HP. destruct (no_problem _ _ _ HD HP) as (Ho & Hu & Hc & Hs).
  assert (chain_of raw ≡ₚ parsed_of raw) as Hch.
  { pose proof (orderByPrev_perm (parsed_of (sorted_raw raw))) as Hp.
    unfold off_of in Ho. rewrite Ho, app_nil_r in Hp. unfold chain_of. rewrite Hp.
    apply parsed_sorted. }
  split; [done|]. split.
  { transitivity (length (sorted_raw raw)); [|apply length_sort_stable].
    rewrite Hch, <- parsed_sorted.
    clear -Hu. induction (sorted_raw raw) as [|r l IH]; [done|].
    unfold parsed_of, unparsed_of in *. cbn [omap list_omap] in *.
    destruct (parse_raw r); [|done]. cbn. by rewrite IH. }
  split; [done|]. intros s.
  destruct (Derive_rows _ _ _ HD HP) as (-> & _). rewrite map_map.
  assert (length (statuses_of raw t) = length (chain_of raw)) as Hl
    by (unfold statuses_of; by rewrite length_map, length_Verify).
  rewrite list_elem_of_fmap. setoid_rewrite scan_elem.
  setoid_rewrite (trusted_elem _ _ _ Hl). setoid_rewrite (trusted_voided _ _ _ Hl Hs).
  unfold statuses_of. split.
  - intros (e & -> & (i & st & Hi & He & Ht) & Hscan & Hv).
    rewrite list_lookup_fmap in Hi. apply fmap_Some in Hi as (c & Hcc & ->).
    exists i, e, c. unfold trusts in Ht. apply orb_prop in Ht as [Ht|Ht].
    + bools. apply status_verified in Ht. naive_solver.
    + unfold IsScan, KindIs, KindScan, KindRetract in *. bools. congruence.
  - intros (i & e & c & He & Hcc & H1 & H2 & H3 & H4 & H5 & Hscan & Hv & ->).
    exists e. split_and!; try done. exists i, (statusOf c). split_and!; try done.
    + rewrite list_lookup_fmap, Hcc. done.
    + unfold trusts. rewrite bool_decide_eq_true_2; [done|]. apply status_verified.
      rewrite Forall_lookup in Hc. naive_solver.
Qed.

(** ** Every file, and no order *)

Lemma file_names l : map es_File (map off_status (parsed_of l) ++ unparsed_of l) ≡ₚ map raw_Name l.
Proof.
  unfold parsed_of, unparsed_of. induction l as [|r l IH]; [done|]. cbn [omap list_omap map].
  destruct (parse_raw r) as [e|p] eqn:E.
  - unfold parse_raw in E. apply ParseEntry_Ok in E as (_ & Hf & _). cbn [map app].
    unfold off_status at 1. cbn [es_File failed_status]. by rewrite Hf, IH.
  - rewrite map_app in *. cbn [map]. unfold failed_status at 2. cbn [es_File].
    by rewrite <- Permutation_middle, IH.
Qed.

Lemma status_files es t : map es_File (map statusOf (Verify es t)) = map es_File (map off_status es).
Proof.
  rewrite !map_map. unfold Verify, VerifyWithSigners. rewrite walk_checks.
  generalize (walk_init es t) as w, (existsb signed es) as a. intros w a. revert w.
  induction es as [|e es IH]; intros w; [done|]. rewrite walk_from_cons. cbn [fst map].
  rewrite IH. f_equal. unfold check_of, walk_step. destruct (pin_verdict _ _ _ _) as [[??]?].
  unfold statusOf. by destruct (status_verdict _).
Qed.

(** No file is hidden: Derive's entry list names every input file exactly
    once, those it could not parse and those off the chain included. It fails
    only when two inputs share a name. *)
Theorem Derive_accounts raw t :
  match Derive raw t with
  | Ok d => NoDup (map raw_Name raw) ∧ map es_File (d_Entries d) ≡ₚ map raw_Name raw
  | Err _ => ¬ NoDup (map raw_Name raw)
  end.
Proof.
  destruct (Derive raw t) as [d|e] eqn:HD.
  - destruct (Derive_Ok _ _ _ HD) as (Hn & -> & _). split; [done|].
    unfold entries_of, statuses_of. rewrite map_app, status_files, map_app, app_assoc, <- !map_app.
    unfold chain_of, off_of. rewrite orderByPrev_perm, map_app, <- map_app.
    rewrite file_names. unfold sorted_raw. by rewrite sort_stable_perm.
  - unfold Derive in HD. destruct (dup_name ∅ raw) eqn:En.
    + intros Hn. assert (dup_name ∅ raw = None) as E; [|by rewrite E in En].
      apply dup_name_None. split; [done|set_solver].
    + destruct (orderByPrev _) as [? ?]. by destruct (ledgerProblem _ _).
Qed.

Lemma sorted_raw_perm raw1 raw2 : raw1 ≡ₚ raw2 → NoDup (map raw_Name raw1) →
  sorted_raw raw1 = sorted_raw raw2.
Proof.
  intros Hp Hn. unfold sorted_raw.
  assert (StrictWeak (λ a b : RawEntry, str_ltb (raw_Name a) (raw_Name b))) as SW.
  { split; intros *; [apply (less_asym str_ltb) | apply (less_cotrans str_ltb)]. }
  apply (sorted_unique (λ a b, str_ltb (raw_Name a) (raw_Name b)));
    [|by apply sort_stable_sorted..|by rewrite !sort_stable_perm].
  intros x y Hx Hy Hxy Hyx. rewrite sort_stable_elem_of in Hx, Hy.
  pose proof (str_ltb_total _ _ Hxy Hyx) as E.
  apply list_elem_of_lookup in Hx as (i & Hi), Hy as (j & Hj).
  assert (i = j) as ->; [|congruence].
  apply (NoDup_lookup _ i j (raw_Name x) Hn).
  - by rewrite list_lookup_fmap, Hi.
  - by rewrite list_lookup_fmap, Hj, E.
Qed.

(** What a ledger says does not depend on the order its files are listed in:
    permuting the input changes nothing of the result, problems, statuses, rows
    and figures alike. *)
Theorem Derive_order_independent raw1 raw2 t :
  raw1 ≡ₚ raw2 → NoDup (map raw_Name raw1) → Derive raw1 t = Derive raw2 t.
Proof.
  intros Hp Hn. unfold Derive.
  assert (NoDup (map raw_Name raw2)) as Hn2 by by rewrite <- Hp.
  assert (∀ raw, NoDup (map raw_Name raw) → dup_name ∅ raw = None) as Hd
    by (intros raw H; apply dup_name_None; split; [done|set_solver]).
  by rewrite (Hd _ Hn), (Hd _ Hn2), (sorted_raw_perm _ _ Hp Hn).
Qed.
End Derive.
