(* ===== verification/Append.v ===== *)
(** * Writing a ledger directory: internal/auditpush/ledgerdir.go, signers.go

    A directory is the files of its scans/ subdirectory, by name; the clock is an
    argument. Writing an entry file (json.MarshalIndent, compress/gzip) is the
    interface [EntryFile]; the theorems say of the bytes it made only that they
    read back ([file_faithful]). Failing I/O and the directory lock are not
    modelled: an operation is one writer's, and its writes succeed. *)
From S2P Require Import Prelude GoLib Crypto JsonText Json Canonical Rows Entry Signers Keyless Verify VerifyFacts Rules.
Local Open Scope string_scope.
Local Open Scope list_scope.
Local Open Scope Z_scope.
Local Open Scope corral_scope.

Record LedgerSigner := mkLedgerSigner {
  SigningKeyID : string;
  Sign : bytes → option (string * bytes) }.

(** An entry as a file: indented JSON, compressed; None when it does not marshal. *)
Class EntryFile := { encode_file : Entry → option bytes }.

Inductive append_error :=
| CheckpointNotAppended
| ReadFailed (e : parse_error)
| NotIntact (file : string) (p : problem)
| UnsignedOnPinned
| UnsignedOnSigned
| UnregisteredKey (id : string)
| RefusedShape (p : shape_problem)
| KeylessControl (kind : string)
| LegacyKeyID
| NotHashable
| NotAnArtifact
| SignFailed
| SignerRenamed (before after : string)
| NotMarshalable
| NameTaken (name : string)
| NoRetractionReason
| AmbiguousEntry (target : string)
| NoSuchEntry (target : string)
| AlreadyRetracted (hash : string)
| ReviewUnnamed
| NoSuchReview (target : string)
| AmbiguousReview (target : string)
| BadFindingRef
| BadVerdict
| AdjudicationUnsigned
| NilReview                      (** a nil dereference: the code panics *)
| NoSuchFinding (review id : string)
| NothingToCheckpoint
| KeylessEntries
| PinInForce
| RootKeyNeeded
| RootMustSign (root : string)
| NotTheRootKey (root : string)
| NotVerified (file : string) (p : problem).

(** ** Entry files *)

Abbreviation dir := (gmap string bytes) (only parsing).

Definition isLedgerEntryName (name : string) : bool :=
  if has_prefix "." name then false
  else has_suffix ".json" name || has_suffix ".json.gz" name.

(** In name order, as os.ReadDir lists them. *)
Definition ledgerFileNames (d : dir) : list string :=
  sort_strings (List.filter isLedgerEntryName (map fst (map_to_list d))).

Definition stamp_text (t : instant) : string :=
  let sec := t / 1000000000 in
  let '(y, m, dd) := civil_date (sec / 86400) in
  let s := sec mod 86400 in
  pad_int 4 y +:+ pad_int 2 m +:+ pad_int 2 dd +:+ "T" +:+ pad_int 2 (s / 3600)
  +:+ pad_int 2 (s / 60 mod 60) +:+ pad_int 2 (s mod 60) +:+ "Z".

Definition first12 (s : string) : string :=
  if (12 <? String.length s)%nat then take_str 12 s else s.

(** What the entry is about. *)
Definition name_parts (e : Entry) : string * string :=
  if KindIs e KindRetract then ("retract", e_Retracts e)
  else if KindIs e KindCheckpoint then
    ("checkpoint", match e_Checkpoint e with Some cp => cp_Head cp | None => "" end)
  else if KindIs e KindSigner then ("signer", e_Hash e)
  else if KindIs e KindReview || KindIs e KindAdjudication then (e_Kind e, e_Hash e)
  else
    let c := sr_Commit (b_Scan (e_Bundle e)) in
    (if String.eqb c "" then "nocommit" else c, e_ScanUID e).

(** The placement time first: a listing reads as the chain does. *)
Definition entry_file_name (e : Entry) : string :=
  let '(middle, tail) := name_parts e in
  stamp_text (e_Pushed e) +:+ "-" +:+ first12 middle +:+ "-" +:+ first12 tail +:+ ".json.gz".

(** ** The entry before it is sealed *)

Definition with_scan (b : Bundle) (s : ScanRow) : Bundle :=
  mkBundle s (b_Files b) (b_Mutants b) (b_Calls b) (b_Events b) (b_Seats b) (b_MutantAttempts b)
    (b_CriticFindings b) (b_Link b) (b_SourcePushed b).

Section Place.
Context {ft : FloatText} {dg : Digest} {pki : Pki} {ed : Ed25519}.

(** Format, link, placement time, the uid that derives from it, and the
    signer's name; no seal. *)
Definition stamped (e : Entry) (prev : string) (now : instant) (signer : option LedgerSigner)
    : Entry :=
  let keyless := match signer with Some s => String.eqb (SigningKeyID s) KeyIDSigstore | None => false end in
  let pushed := now - now mod 1000 in
  let scan := b_Scan (e_Bundle e) in
  let named := IsScan e && negb (bool_decide (scan = zero_ScanRow)) in
  let uid := if named then ScanUID scan pushed else e_ScanUID e in {|
  e_Format := if keyless then Format6 else FileFormat; e_Kind := e_Kind e;
  e_Pushed := pushed; e_ScanUID := uid; e_Prev := prev;
  e_Bundle := if named then with_scan (e_Bundle e) (with_ScanUID scan uid) else e_Bundle e;
  e_Retracts := e_Retracts e; e_Reason := e_Reason e; e_Checkpoint := e_Checkpoint e;
  e_Review := e_Review e; e_Adjudication := e_Adjudication e; e_Signer := e_Signer e;
  e_Hash := ""; e_KeyID := match signer with Some s => SigningKeyID s | None => "" end;
  e_Signature := ""; e_Sigstore := ""; e_Raw := None; e_File := e_File e |}.

(** Hashed and signed: the hash is over the stamped entry. *)
Definition seal_entry (e : Entry) (signer : option LedgerSigner) : result append_error Entry :=
  match EntryHash e with
  | None => Err NotHashable
  | Some h =>
      let hashed := with_seal e h (e_KeyID e) "" "" in
      match signer with
      | None => Ok hashed
      | Some s =>
          let keyless := String.eqb (SigningKeyID s) KeyIDSigstore in
          let! raw := (if keyless
                       then match KeylessArtifact hashed with Some r => Ok r | None => Err NotAnArtifact end
                       else Ok (hex_decode h).1) in
          match Sign s raw with
          | None => Err SignFailed
          | Some (keyID, sig) =>
              if negb (String.eqb keyID (e_KeyID e)) then Err (SignerRenamed (e_KeyID e) keyID)
              else if keyless then Ok (with_seal e h (e_KeyID e) "" sig)
              else Ok (with_seal e h (e_KeyID e) (hex_encode sig) "")
          end
      end
  end.

Context {ec : EntryCodec} {ef : EntryFile}.

(** The one writer of entry files: the name, the entry as written, and the
    directory after. *)
Definition placeEntry (d : dir) (now : instant) (e : Entry) (prev : string)
    (signer : option LedgerSigner) : result append_error (string * Entry * dir) :=
  match EntryShapeProblem e with
  | Some p => Err (RefusedShape p)
  | None =>
      let keyless := match signer with Some s => String.eqb (SigningKeyID s) KeyIDSigstore | None => false end in
      if keyless && (KindIs e KindSigner || KindIs e KindCheckpoint) then Err (KeylessControl (e_Kind e)) else
      let e1 := stamped e prev now signer in
      if bool_decide (is_Some signer) && String.eqb (e_KeyID e1) LegacyRootKeyID then Err LegacyKeyID else
      let! sealed := seal_entry e1 signer in
      let name := entry_file_name sealed in
      match encode_file sealed with
      | None => Err NotMarshalable
      | Some b =>
          if bool_decide (is_Some (d !! name)) then Err (NameTaken name)
          else Ok (name, sealed, <[name := b]> d)
      end
  end.

(** ** Reading *)

Fixpoint parse_files (d : dir) (names : list string) : result append_error (list Entry) :=
  match names with
  | [] => Ok []
  | n :: names' =>
      match ParseEntry n (default "" (d !! n)) with
      | Err p => Err (ReadFailed p)
      | Ok e => let! es := parse_files d names' in Ok (e :: es)
      end
  end.

(** Chain order is Pushed order. *)
Definition ReadLedgerDir (d : dir) : result append_error (list Entry) :=
  let! es := parse_files d (ledgerFileNames d) in
  Ok (sort_stable (λ a b, e_Pushed a <? e_Pushed b) es).

Definition first_bad (cs : list ChainCheck) : option (string * problem) :=
  match omap (λ c, p ← cc_Problem c; Some (cc_File c, p)) cs with x :: _ => Some x | [] => None end.

Definition RequireIntactChain (d : dir) : result append_error () :=
  let! entries := ReadLedgerDir d in
  match first_bad (VerifyIntegrity entries) with
  | Some (f, p) => Err (NotIntact f p)
  | None => Ok ()
  end.

(** ** Who may sign *)

Definition ActiveSigners (entries : list Entry) : string * list SignerKey :=
  let set := (VerifyWithSigners entries zero_Trust).2 in (ss_rootID set, List_ set).
Definition KeylessPinInForce (entries : list Entry) : option KeylessPin :=
  ss_pin (VerifyWithSigners entries zero_Trust).2.

Definition requireRegisteredSigner (existing : list Entry) (signer : option LedgerSigner)
    : result append_error () :=
  let '(rootID, active) := ActiveSigners existing in
  match signer with
  | None =>
      if String.eqb rootID "" then Ok ()
      else if no_elems active && bool_decide (is_Some (KeylessPinInForce existing))
      then Err UnsignedOnPinned else Err UnsignedOnSigned
  | Some s =>
      let id := SigningKeyID s in
      if String.eqb id KeyIDSigstore then Ok ()
      else if String.eqb rootID "" then Ok ()
      else if String.eqb id rootID then Ok ()
      else if existsb (λ k, String.eqb (sk_KeyID k) id) active then Ok ()
      else Err (UnregisteredKey id)
  end.

(** ** Appending *)

Definition AppendLedgerEntry (d : dir) (now : instant) (e : Entry) (signer : option LedgerSigner)
    : result append_error (string * Entry * dir) :=
  if KindIs e KindCheckpoint then Err CheckpointNotAppended else
  let! existing := ReadLedgerDir d in
  match last existing with
  | None => placeEntry d now e "" signer
  | Some head =>
      let! _ := RequireIntactChain d in
      let! _ := requireRegisteredSigner existing signer in
      placeEntry d now e (e_Hash head) signer
  end.

(** A literal [LedgerEntry{Kind: ..., ...}]: what is not named is zero. *)
Definition entry_of (kind retracts reason : string) (cp : option Checkpoint) (rv : option Review)
    (adj : option Adjudication) (sc : option SignerChange) (b : Bundle) : Entry := {|
  e_Format := ""; e_Kind := kind; e_Pushed := zero_time; e_ScanUID := ""; e_Prev := "";
  e_Bundle := b; e_Retracts := retracts; e_Reason := reason; e_Checkpoint := cp;
  e_Review := rv; e_Adjudication := adj; e_Signer := sc; e_Hash := ""; e_KeyID := "";
  e_Signature := ""; e_Sigstore := ""; e_Raw := None; e_File := "" |}.

Definition PushedByCertify : string := "certify".

(** A push: the verb stamped on a scan row that exists. *)
Definition writeLedgerFile (d : dir) (now : instant) (b : Bundle) (signer : option LedgerSigner)
    : result append_error (Counts * Entry * dir) :=
  let scan := b_Scan b in
  let present := negb (bool_decide (scan = zero_ScanRow)) in
  let scan := if present && String.eqb (sr_PushedBy scan) "" then with_PushedBy scan PushedByCertify else scan in
  let b := with_scan b scan in
  let! (name, e, d') := AppendLedgerEntry d now (entry_of "" "" "" None None None None b) signer in
  Ok (mkCounts (if negb (bool_decide (scan = zero_ScanRow)) then 1 else 0) (Z.of_nat (length (b_Files b)))
        (Z.of_nat (length (b_Mutants b))) (Z.of_nat (length (b_Calls b)))
        (Z.of_nat (length (b_Events b))) name
        (match signer with Some s => SigningKeyID s | None => "" end), e, d').

Definition WriteSignerChange (d : dir) (now : instant) (c : SignerChange) (root : option LedgerSigner) :=
  AppendLedgerEntry d now (entry_of KindSigner "" "" None None None (Some c) zero_Bundle) root.

Definition WriteReview (d : dir) (now : instant) (r : Review) (signer : option LedgerSigner) :=
  if String.eqb (rv_Commit r) "" || String.eqb (rv_Scope r) "" then Err ReviewUnnamed
  else AppendLedgerEntry d now (entry_of KindReview "" "" None (Some r) None None zero_Bundle) signer.

(** Named by its hash, or by twelve or more of its first characters. *)
Definition names_entry (target : string) (e : Entry) : bool :=
  String.eqb (e_Hash e) target
  || (12 <=? String.length target)%nat && has_prefix target (e_Hash e).

Definition FindReview (entries : list Entry) (target : string) : result append_error Entry :=
  match List.filter (λ e, KindIs e KindReview && names_entry target e) entries with
  | [] => Err (NoSuchReview target)
  | [e] => Ok e
  | _ => Err (AmbiguousReview target)
  end.

Definition WriteAdjudication (d : dir) (now : instant) (ref verdict by_ reason : string)
    (signer : option LedgerSigner) : result append_error (string * Entry * dir) :=
  let '(hashPart, id, ok) := cut "#" (trim_space ref) in
  if negb ok || String.eqb id "" then Err BadFindingRef else
  if negb (String.eqb verdict VerdictConfirmed) && negb (String.eqb verdict VerdictRefuted)
  then Err BadVerdict else
  let by_ := trim_space by_ in
  let reason := trim_space reason in
  if String.eqb by_ "" || String.eqb reason "" then Err AdjudicationUnsigned else
  let! entries := ReadLedgerDir d in
  let! rev := FindReview entries hashPart in
  let! findings := match e_Review rev with Some r => Ok (rv_Findings r) | None => Err NilReview end in
  if negb (existsb (λ f, String.eqb (fi_ID f) id) findings) then Err (NoSuchFinding (e_Hash rev) id) else
  AppendLedgerEntry d now (entry_of KindAdjudication "" "" None None
    (Some (mkAdjudication (e_Hash rev +:+ "#" +:+ id) verdict by_ reason)) None zero_Bundle) signer.

Definition WriteRetraction (d : dir) (now : instant) (target reason : string)
    (signer : option LedgerSigner) : result append_error (string * Entry * dir) :=
  let target := trim_space target in
  let reason := trim_space reason in
  if String.eqb reason "" then Err NoRetractionReason else
  let! entries := ReadLedgerDir d in
  match List.filter (λ e, names_entry target e && negb (String.eqb (e_Hash e) "")) entries with
  | [] => Err (NoSuchEntry target)
  | _ :: _ :: _ => Err (AmbiguousEntry target)
  | [e] =>
      if existsb (λ r, KindIs r KindRetract && String.eqb (e_Retracts r) (e_Hash e)) entries
      then Err (AlreadyRetracted (e_Hash e)) else
      AppendLedgerEntry d now
        (entry_of KindRetract (e_Hash e) reason None None None None zero_Bundle) signer
  end.

(** ** Checkpoint: prune to one genesis *)

Definition checkpoint_entry (head : Entry) (n : Z) (carried : list SignerKey) : Entry :=
  entry_of KindCheckpoint "" "" (Some (mkCheckpoint (e_Hash head) n (e_Pushed head) carried))
    None None None zero_Bundle.

Definition root_probe : bytes := sha256 "corral-ledger-checkpoint-root-probe-v1".

(** The set the checkpoint carries: of a walk the root key vouches for. *)
Definition carried_signers (entries : list Entry) (signer : option LedgerSigner)
    (rootPub : option bytes) : result append_error (list SignerKey) :=
  if negb (ChainHasSigners entries) then Ok [] else
  match rootPub with
  | None => Err RootKeyNeeded
  | Some root =>
      let rootID := KeyFingerprint root in
      match signer with
      | None => Err (RootMustSign rootID)
      | Some s =>
          if negb (String.eqb (SigningKeyID s) rootID) then Err (RootMustSign rootID) else
          let proven := match Sign s root_probe with
                        | Some (_, sig) => ed25519_verify root root_probe sig | None => false end in
          if negb proven then Err (NotTheRootKey rootID) else
          let '(checks, set) := VerifyWithSigners entries (mkTrust (Some root) "" None) in
          match first_bad checks with
          | Some (f, p) => Err (NotVerified f p)
          | None => Ok (List_ set)
          end
      end
  end.

(** [os.Remove] of each name, the new checkpoint's apart. *)
Definition prune (d : dir) (names : list string) (keep : string) : dir :=
  foldl (λ d n, if String.eqb n keep then d else delete n d) d names.

Definition WriteCheckpoint (d : dir) (now : instant) (signer : option LedgerSigner)
    (rootPub : option bytes) : result append_error (string * Entry * Z * dir) :=
  let! entries := ReadLedgerDir d in
  match last entries with
  | None => Err NothingToCheckpoint
  | Some head =>
      if existsb (λ e, String.eqb (e_KeyID e) KeyIDSigstore) entries then Err KeylessEntries else
      if bool_decide (is_Some (KeylessPinInForce entries)) then Err PinInForce else
      let! _ := RequireIntactChain d in
      let names := ledgerFileNames d in
      let! carried := carried_signers entries signer rootPub in
      let n := Z.of_nat (length entries) in
      let! (name, e, d') := placeEntry d now (checkpoint_entry head n carried) "" signer in
      Ok (name, e, n, prune d' names name)
  end.
End Place.
