(* ===== verification/AppendFacts.v ===== *)
(** * What appending keeps true: facts of Append.v

    An append inserts one file and touches no other; on a ledger that verifies,
    with a clock past the head's, the directory read back is the old chain and the
    new entry, and it still verifies. A checkpoint leaves one genesis that does. *)
From S2P Require Import Prelude GoLib Crypto JsonText Json Canonical Rows Entry Signers Keyless Verify VerifyFacts Rules Append.
Local Open Scope string_scope.
Local Open Scope list_scope.
Local Open Scope Z_scope.

(** ** Sorting with one more *)

Section Sorted.
Context {A : Type} (less : A → A → bool).

Lemma sort_insert_split x l : ∃ l1 l2, l = l1 ++ l2 ∧ sort_insert less x l = l1 ++ x :: l2.
Proof.
  induction l as [|y l (l1 & l2 & E & E')]; [by exists [], []|]. cbn [sort_insert].
  destruct (less y x); [|by exists [], (y :: l)]. exists (y :: l1), l2. by rewrite E' , E.
Qed.

Lemma sort_insert_last x l : Forall (λ y, less y x = true) l → sort_insert less x l = l ++ [x].
Proof. induction 1 as [|y l Hy _ IH]; [done|]. cbn. by rewrite Hy, IH. Qed.

Lemma sort_insert_snoc x l z : less z x = false → sort_insert less x (l ++ [z]) = sort_insert less x l ++ [z].
Proof.
  intros Hz. induction l as [|y l IH]; cbn; [by rewrite Hz|]. destruct (less y x); [|done].
  by rewrite IH.
Qed.

(** An element greater than every other ends the sorted list, wherever it was. *)
Lemma sort_stable_max l1 z l2 :
  Forall (λ x, less x z = true ∧ less z x = false) (l1 ++ l2) →
  sort_stable less (l1 ++ z :: l2) = sort_stable less (l1 ++ l2) ++ [z].
Proof.
  induction l1 as [|x l1 IH]; cbn [app sort_stable foldr]; intros H.
  - apply sort_insert_last. apply Forall_forall. intros y Hy.
    change (y ∈ sort_stable less l2) in Hy. rewrite sort_stable_elem_of in Hy. rewrite Forall_forall in H. by apply H.
  - inversion_clear H as [|? ? [_ Hx] Hl]. unfold sort_stable in IH. rewrite IH by done.
    by apply sort_insert_snoc.
Qed.
End Sorted.

(** ** The file's name *)

Lemma digit_not_dot z : Ascii.eqb "." (ascii_of_N (48 + Z.to_N (z mod 10))) = false.
Proof.
  pose proof (Z.mod_pos_bound z 10). assert (z mod 10 < 10) by lia.
  assert (∃ n : nat, Z.to_N (z mod 10) = N.of_nat n ∧ (n < 10)%nat) as (n & -> & Hn)
    by (exists (Z.to_nat (z mod 10)); lia).
  do 10 (destruct n as [|n]; [done|]). lia.
Qed.

Lemma has_suffix_app s t : has_suffix t (s +:+ t) = true.
Proof.
  unfold has_suffix. rewrite length_app_str.
  replace (String.length s + String.length t - String.length t)%nat with (String.length s) by lia.
  rewrite drop_str_length_app, String.eqb_refl. apply andb_true_intro. split; [|done].
  apply Nat.leb_le. lia.
Qed.

Lemma entry_file_name_ok e : isLedgerEntryName (entry_file_name e) = true.
Proof.
  unfold isLedgerEntryName, entry_file_name. destruct (name_parts e) as [middle tail].
  rewrite <- !app_str_assoc. rewrite has_suffix_app.
  assert (∀ s, has_prefix "." (stamp_text (e_Pushed e) +:+ s) = false) as H.
  { intros s. unfold stamp_text. destruct (civil_date _) as [[y m] d]. cbn [pad_int].
    repeat (rewrite ?app_str_assoc, ?app_str_nil_l, ?app_str_cons). cbn [has_prefix].
    by rewrite digit_not_dot. }
  rewrite !app_str_assoc. rewrite H. apply orb_true_r.
Qed.

(** ** Reading after a write *)

Section Facts.
Context {ft : FloatText} {dg : Digest} {pki : Pki} {ed : Ed25519} {ec : EntryCodec} {ef : EntryFile}.

Lemma names_insert d name b : d !! name = None → isLedgerEntryName name = true →
  ∃ l1 l2, ledgerFileNames d = l1 ++ l2 ∧ ledgerFileNames (<[name := b]> d) = l1 ++ name :: l2 ∧
    name ∉ l1 ++ l2.
Proof.
  intros Hd Hn. unfold ledgerFileNames.
  rewrite (sort_strings_perm_eq (List.filter isLedgerEntryName (map fst (map_to_list (<[name := b]> d))))
    (name :: List.filter isLedgerEntryName (map fst (map_to_list d)))).
  - destruct (sort_insert_split str_ltb name (sort_strings (List.filter isLedgerEntryName
      (map fst (map_to_list d))))) as (l1 & l2 & E & E').
    exists l1, l2. split_and!; [exact E|exact E'|]. rewrite <- E. unfold sort_strings.
    rewrite sort_stable_elem_of. intros (Hin & _)%list_elem_of_In%filter_In.
    apply in_map_iff in Hin as ([n b'] & En & Hin). cbn in En. subst n.
    apply list_elem_of_In, elem_of_map_to_list in Hin. by pose proof (eq_trans (eq_sym Hd) Hin).
  - rewrite (Permutation_map fst (map_to_list_insert d name b Hd)). cbn. by rewrite Hn.
Qed.

Lemma parse_files_app d l1 l2 es : parse_files d (l1 ++ l2) = Ok es ↔
  ∃ es1 es2, parse_files d l1 = Ok es1 ∧ parse_files d l2 = Ok es2 ∧ es = es1 ++ es2.
Proof.
  revert es; induction l1 as [|n l1 IH]; intros es; cbn [app parse_files].
  { split; [by exists [], es|]. by intros (? & ? & [= <-] & ? & ->). }
  destruct (ParseEntry n _) as [e|]; [|naive_solver]. rewrite rbind_Ok. split.
  - intros (es' & (es1 & es2 & H1 & H2 & ->)%IH & [= <-]). exists (e :: es1), es2.
    rewrite rbind_Ok. naive_solver.
  - intros (es1 & es2 & (es1' & H1 & [= <-])%rbind_Ok & H2 & ->).
    exists (es1' ++ es2). rewrite IH. naive_solver.
Qed.

Lemma parse_files_insert d name b l : name ∉ l → parse_files (<[name := b]> d) l = parse_files d l.
Proof.
  induction l as [|n l IH]; intros Hn; [done|]. cbn [parse_files].
  rewrite lookup_insert_ne by set_solver. rewrite IH by set_solver. done.
Qed.

(** A file that reads back, stamped later than every entry, is read last. *)
Lemma ReadLedgerDir_insert d name b es e :
  ReadLedgerDir d = Ok es → d !! name = None → isLedgerEntryName name = true →
  ParseEntry name b = Ok e → Forall (λ x, e_Pushed x < e_Pushed e) es →
  ReadLedgerDir (<[name := b]> d) = Ok (es ++ [e]).
Proof.
  unfold ReadLedgerDir. rewrite rbind_Ok. intros (es0 & Hp & [= <-]) Hd Hn He Hlt.
  destruct (names_insert d name b Hd Hn) as (l1 & l2 & E1 & E2 & Hnot).
  rewrite E1 in Hp. apply parse_files_app in Hp as (es1 & es2 & P1 & P2 & ->).
  apply rbind_Ok. exists (es1 ++ e :: es2). rewrite E2. split.
  - apply parse_files_app. exists es1, (e :: es2). split_and!; [|cbn [parse_files]|done].
    + by rewrite parse_files_insert by set_solver.
    + rewrite lookup_insert_eq. cbn [default from_option]. unfold id. rewrite He.
      rewrite parse_files_insert by set_solver. by rewrite P2.
  - f_equal. apply sort_stable_max. rewrite Forall_forall in Hlt |- *. intros x Hx.
    specialize (Hlt x). rewrite sort_stable_elem_of in Hlt. specialize (Hlt Hx). lia.
Qed.

(** ** One more clean entry *)

Definition intact (es : list Entry) : Prop := clean_chain (walk es zero_Trust true).1.

Lemma first_bad_None cs : first_bad cs = None ↔ clean_chain cs.
Proof.
  unfold first_bad, clean_chain. induction cs as [|c cs IH]; [split; [constructor|done]|].
  rewrite Forall_cons, <- IH. cbn [omap list_omap]. destruct (cc_Problem c); cbn; naive_solver.
Qed.

Lemma RequireIntactChain_Ok d : RequireIntactChain d = Ok () ↔ ∃ es, ReadLedgerDir d = Ok es ∧ intact es.
Proof.
  unfold RequireIntactChain. rewrite rbind_Ok. apply exist_proper. intros es.
  unfold intact, VerifyIntegrity. rewrite <- first_bad_None.
  destruct (first_bad _) as [[f p]|]; naive_solver.
Qed.

Lemma check_any t io a1 a2 w e :
  cc_Problem (check_of t io a1 w e) = cc_Problem (check_of t io a2 w e) ∧
  step_of t io a1 w e = step_of t io a2 w e.
Proof. unfold check_of, step_of, walk_step. by destruct (pin_verdict _ _ _ _) as [[? ?] ?]. Qed.

Lemma after_any t io a1 a2 w es : after t io a1 w es = after t io a2 w es.
Proof.
  induction es as [|e es IH] using rev_ind; [done|]. rewrite !after_snoc, IH. apply check_any.
Qed.

Lemma problems_any t io a1 a2 w es :
  map cc_Problem (walk_from t io a1 w es).1 = map cc_Problem (walk_from t io a2 w es).1.
Proof.
  revert w; induction es as [|e es IH]; intros w; [done|]. rewrite !walk_from_cons. cbn [fst map].
  destruct (check_any t io a1 a2 w e) as [-> ->]. by rewrite IH.
Qed.

Lemma clean_problems cs1 cs2 : map cc_Problem cs1 = map cc_Problem cs2 → clean_chain cs1 → clean_chain cs2.
Proof.
  unfold clean_chain. intros E H. apply (Forall_map cc_Problem (λ p, p = None)). rewrite <- E.
  by apply Forall_map.
Qed.

(** The walk's start does not depend on an appended entry that is neither a
    signer change nor a checkpoint. *)
Lemma init_snoc es e : e_Kind e ≠ KindSigner → (e_Kind e = KindCheckpoint → es ≠ []) →
  walk_init (es ++ [e]) zero_Trust = walk_init es zero_Trust.
Proof.
  intros Hs Hc. unfold walk_init, newSignerSet. cbn [t_RootPub zero_Trust]. f_equal.
  assert (List.find (λ e, KindIs e KindSigner) (es ++ [e]) = List.find (λ e, KindIs e KindSigner) es) as ->.
  { clear Hc. unfold KindIs. apply String.eqb_neq in Hs. induction es as [|x es IH]; cbn; [by rewrite Hs|].
    by destruct (String.eqb (e_Kind x) KindSigner). }
  destruct es as [|x es]; [|done]. cbn [app]. unfold KindIs.
  destruct (e_Checkpoint e); [|done]. destruct (String.eqb_spec (e_Kind e) KindCheckpoint) as [E|]; [|done].
  by destruct (Hc E).
Qed.

Definition head_state (es : list Entry) : walk_state := after zero_Trust true false (walk_init es zero_Trust) es.

Lemma intact_snoc es e : e_Kind e ≠ KindSigner → (e_Kind e = KindCheckpoint → es ≠ []) →
  intact es → cc_Problem (check_of zero_Trust true false (head_state es) e) = None →
  intact (es ++ [e]).
Proof.
  intros Hs Hc Hes He. unfold intact. rewrite walk_checks, init_snoc by done.
  eapply clean_problems; [apply (problems_any _ _ false)|].
  rewrite walk_from_app. cbn [fst]. unfold clean_chain. apply Forall_app. split.
  - unfold intact in Hes. rewrite walk_checks in Hes.
    eapply clean_problems; [apply problems_any|exact Hes].
  - rewrite walk_from_cons. cbn [fst walk_from]. constructor; [exact He|constructor].
Qed.

(** What an entry must be for the integrity walk to find it clean. *)
Record integrity_facts (w : walk_state) (e : Entry) : Prop := {
  if_hash : EntryHash e = Some (e_Hash e);
  if_uid : uid_ok e = true;
  if_link : e_Prev e = ws_prevHash w;
  if_keyless : (keylessProblem e zero_Trust true).1.1.1 = None;
  if_name : e_KeyID e ≠ LegacyRootKeyID;
  if_shape : EntryShapeProblem e = None;
  if_checkpoint : e_Kind e = KindCheckpoint → ws_pos w = 0 ∧ seedProblem (ws_set w) e = None;
  if_change : e_Kind e ≠ KindSigner;
  if_retract : e_Kind e = KindRetract → e_Retracts e ∈ ws_seen w;
  if_adjudication : e_Kind e = KindAdjudication → adjudicated e ∈ ws_seenReview w
}.

Lemma integrity_clean any w e : ss_rootPub (ws_set w) = None → integrity_facts w e →
  cc_Problem (check_of zero_Trust true any w e) = None.
Proof.
  intros Hroot F. rewrite check_problem.
  assert (∃ kp, keylessProblem e zero_Trust true = (kp, "", false, None)) as [kp Ek]
    by (unfold keylessProblem; repeat case_match; eauto).
  pose proof (if_keyless _ _ F) as Hkp. rewrite Ek in Hkp. cbn in Hkp. subst kp.
  assert (∃ v, check_signature (ws_set w) e zero_Trust true = v ∧ sv_keyless v = None ∧
    sv_Cert v = None ∧ sv_keyProblem v = None ∧ sv_key v = None) as (v & -> & H1 & H2 & H3 & H4).
  { eexists. split; [reflexivity|]. unfold check_signature. rewrite Ek.
    destruct (String.eqb (e_KeyID e) KeyIDSigstore); [by split_and!|].
    unfold resolve. rewrite Hroot. pose proof (if_name _ _ F) as Hn%String.eqb_neq. rewrite Hn, andb_false_r.
    destruct (String.eqb (e_Signature e) ""); [by split_and!|].
    destruct (isRoot (ws_set w) e); [by split_and!|].
    by destruct (ss_active (ws_set w) !! e_KeyID e). }
  assert ((pin_verdict (ws_set w) e zero_Trust v).1.1 = None) as ->.
  { unfold pin_verdict. rewrite H1, H2. by destruct (String.eqb _ _). }
  unfold entry_problem. rewrite (if_shape _ _ F), H1, H3, H4.
  apply first_problem_None. rewrite !Forall_cons, !check_None. unfold KindIs.
  pose proof (if_change _ _ F) as Hc%String.eqb_neq. rewrite Hc. cbn [andb fmap option_fmap option_map].
  rewrite !andb_false_r. split_and!; try done.
  - unfold hash_ok. rewrite (if_hash _ _ F). by rewrite String.eqb_refl.
  - by rewrite (if_uid _ _ F).
  - rewrite (if_link _ _ F). by rewrite String.eqb_refl.
  - destruct (String.eqb_spec (e_Kind e) KindCheckpoint) as [E|]; cbn [andb].
    + destruct (if_checkpoint _ _ F E) as [-> ->]. done.
    + apply bool_decide_eq_false_2. done.
  - destruct (String.eqb_spec (e_Kind e) KindCheckpoint) as [E|]; [|done].
    by destruct (if_checkpoint _ _ F E) as [-> _].
  - destruct (String.eqb_spec (e_Kind e) KindCheckpoint) as [E|]; cbn [andb]; [|done].
    destruct (if_checkpoint _ _ F E) as [-> ->]. done.
  - destruct (String.eqb_spec (e_Kind e) KindRetract) as [E|]; [|done].
    rewrite bool_decide_eq_true_2; [done|]. by apply (if_retract _ _ F).
  - destruct (String.eqb_spec (e_Kind e) KindAdjudication) as [E|]; [|done].
    rewrite bool_decide_eq_true_2; [done|]. by apply (if_adjudication _ _ F).
Qed.

(** ** A placed entry *)

Definition is_keyless (signer : option LedgerSigner) : bool :=
  match signer with Some s => String.eqb (SigningKeyID s) KeyIDSigstore | None => false end.

(** A signer's signatures are not empty. *)
Definition signs (signer : option LedgerSigner) : Prop :=
  match signer with Some s => ∀ raw id sig, Sign s raw = Some (id, sig) → sig ≠ "" | None => True end.

(** The sealed entry: the stamped one, its hash, and one kind of signature. *)
Record sealed_as (st : Entry) (signer : option LedgerSigner) (e' : Entry) : Prop := {
  sa_seal : e' = with_seal st (e_Hash e') (e_KeyID st) (e_Signature e') (e_Sigstore e');
  sa_hash : EntryHash st = Some (e_Hash e');
  sa_keyless : is_keyless signer = true →
    e_Signature e' = "" ∧ (signs signer → e_Sigstore e' ≠ "");
  sa_keyed : is_keyless signer = false → e_Sigstore e' = "";
  sa_signed : is_Some signer → is_keyless signer = false → signs signer → e_Signature e' ≠ ""
}.

Lemma seal_entry_Ok st signer e' : seal_entry st signer = Ok e' → sealed_as st signer e'.
Proof.
  unfold seal_entry. destruct (EntryHash st) as [h|] eqn:Eh; [|done].
  destruct signer as [s|]; [|intros [= <-]; split; try done; by intros []].
  destruct (String.eqb (SigningKeyID s) KeyIDSigstore) eqn:Ek.
  - rewrite rbind_Ok. intros (raw & _ & H). destruct (Sign s raw) as [[id sig]|] eqn:Es; [|done].
    destruct (negb _); [done|]. injection H as <-. split; cbn; try done.
    + intros _. split; [done|]. intros Hs. by eapply Hs.
    + by rewrite Ek.
    + by rewrite Ek.
  - rewrite rbind_Ok. intros (raw & _ & H). destruct (Sign s raw) as [[id sig]|] eqn:Es; [|done].
    destruct (negb _); [done|]. injection H as <-. split; cbn; try done; [by rewrite Ek|].
    intros _ _ Hs E. apply (Hs _ _ _ Es). by apply hex_encode_inj.
Qed.

Lemma placeEntry_Ok d now e prev signer name e' d' :
  placeEntry d now e prev signer = Ok (name, e', d') →
  EntryShapeProblem e = None ∧ sealed_as (stamped e prev now signer) signer e' ∧
  (is_keyless signer = true → e_Kind e ≠ KindSigner ∧ e_Kind e ≠ KindCheckpoint) ∧
  e_KeyID e' ≠ LegacyRootKeyID ∧ isLedgerEntryName name = true ∧ d !! name = None ∧
  ∃ b, encode_file e' = Some b ∧ d' = <[name := b]> d.
Proof.
  unfold placeEntry. destruct (EntryShapeProblem e) eqn:Esh; [done|].
  fold (is_keyless signer). destruct (is_keyless signer && _) eqn:Ek; [done|].
  destruct (bool_decide (is_Some signer) && _) eqn:El; [done|].
  rewrite rbind_Ok. intros (e1 & Hs & H). apply seal_entry_Ok in Hs.
  destruct (encode_file e1) as [b|] eqn:Eb; [|done].
  destruct (d !! entry_file_name e1) eqn:Ed; [done|]. injection H as <- <- <-.
  split_and!; try done.
  - intros Hk. rewrite Hk in Ek. cbn [andb] in Ek. unfold KindIs in Ek. by bools.
  - rewrite (sa_seal _ _ _ Hs). cbn [with_seal e_KeyID].
    destruct signer as [s|]; [|done]. cbn [stamped e_KeyID] in *.
    rewrite bool_decide_eq_true_2 in El by by eexists. cbn [andb] in El. by bools.
  - apply entry_file_name_ok.
  - by exists b.
Qed.

(** What the file gives back: the entry as sealed, its bytes kept, the Sigstore
    bundle possibly spaced otherwise; the bytes say what the entry marshals to. *)
Definition file_faithful (name : string) (e' : Entry) (b : bytes) (e2 : Entry) : Prop :=
  ∃ raw sg js, ParseEntry name b = Ok e2 ∧
    e2 = with_source (with_seal e' (e_Hash e') (e_KeyID e') (e_Signature e') sg) (Some raw) name ∧
    (sg = "" ↔ e_Sigstore e' = "") ∧
    marshal (Entry_json e') = Some js ∧ decode_any raw = decode_any js ∧
    nests_within (Z.to_nat max_nesting) (Entry_json e') = true.

Lemma faithful_hash st signer name e' b e2 : e_Format st ≠ Format2 → e_Raw st = None →
  sealed_as st signer e' → file_faithful name e' b e2 → EntryHash e2 = Some (e_Hash e').
Proof.
  intros Hf Hr S (raw & sg & js & _ & -> & _ & Hm & Hd & Hn).
  transitivity (EntryHash (with_source e' (Some raw) name)).
  { unfold EntryHash. cbn [with_source with_seal e_Format e_Raw].
    rewrite (sa_seal _ _ _ S). cbn [with_seal e_Format].
    apply String.eqb_neq in Hf. by rewrite Hf. }
  rewrite (sa_seal _ _ _ S). rewrite (sa_seal _ _ _ S) in Hm, Hn.
  apply (EntryHash_sealed st (e_Hash e') _ _ _ _ js raw name); try done.
  etransitivity; [|exact (sa_hash _ _ _ S)]. unfold EntryHash. cbn [with_source e_Format e_Raw e_KeyID].
  rewrite Hr. reflexivity.
Qed.

Lemma stamped_uid e prev now signer : uid_ok (stamped e prev now signer) = true.
Proof.
  unfold uid_ok, stamped. cbn [e_Format e_Bundle e_ScanUID e_Pushed]. unfold IsScan, KindIs.
  cbn [e_Kind]. destruct (String.eqb (e_Kind e) KindScan); [|by rewrite andb_false_r].
  destruct (bool_decide (b_Scan (e_Bundle e) = zero_ScanRow)) eqn:Hz; cbn [negb andb].
  - by rewrite Hz, andb_false_r.
  - destruct (_ && _); [|done]. cbn [b_Scan with_scan with_ScanUID sr_ScanUID].
    apply andb_true_intro. split; apply String.eqb_eq; reflexivity.
Qed.

Lemma placed_keyless st signer e' sg raw name :
  sealed_as st signer e' → (sg = "" ↔ e_Sigstore e' = "") → signs signer →
  e_KeyID st = match signer with Some s => SigningKeyID s | None => "" end →
  e_Format st = (if is_keyless signer then Format6 else FileFormat) →
  (is_keyless signer = true → e_Kind st ≠ KindSigner ∧ e_Kind st ≠ KindCheckpoint) →
  (keylessProblem (with_source (with_seal e' (e_Hash e') (e_KeyID e') (e_Signature e') sg)
    (Some raw) name) zero_Trust true).1.1.1 = None.
Proof.
  intros S Hsg Hsigns Hk Hf Hkind. unfold keylessProblem. cbn [with_source with_seal e_KeyID e_Format e_Sigstore].
  pose proof (f_equal e_KeyID (sa_seal _ _ _ S)) as Ek. pose proof (f_equal e_Format (sa_seal _ _ _ S)) as Ef.
  pose proof (f_equal e_Kind (sa_seal _ _ _ S)) as Ekd. cbn [with_seal e_KeyID e_Format e_Kind] in *.
  rewrite Ek, Ef, Hk, Hf.
  assert (String.eqb match signer with Some s => SigningKeyID s | None => "" end KeyIDSigstore
    = is_keyless signer) as -> by by destruct signer.
  destruct (is_keyless signer) eqn:Es; cbn [negb andb fst].
  - unfold keylessShapeProblem, KindIs. cbn [with_source with_seal e_Format e_Kind e_Signature e_Sigstore].
    rewrite Ef, Hf, Ekd. cbn [String.eqb negb]. destruct (Hkind eq_refl) as [H1 H2].
    apply String.eqb_neq in H1, H2. rewrite H1, H2. cbn [orb].
    destruct (sa_keyless _ _ _ S Es) as [-> Hne]. cbn [String.eqb negb].
    destruct (String.eqb_spec sg "") as [->|]; [|done]. by destruct (Hne Hsigns), (proj1 Hsg).
  - rewrite (sa_keyed _ _ _ S Es) in Hsg. by rewrite (proj2 Hsg).
Qed.

(** What the integrity walk needs of a placed entry is what its writer gave it. *)
Lemma placed_facts d now e prev signer name e' d' b e2 w :
  placeEntry d now e prev signer = Ok (name, e', d') → signs signer →
  file_faithful name e' b e2 → prev = ws_prevHash w → e_Kind e ≠ KindSigner →
  (e_Kind e = KindCheckpoint → ws_pos w = 0 ∧ seedProblem (ws_set w) e2 = None) →
  (e_Kind e = KindRetract → e_Retracts e ∈ ws_seen w) →
  (e_Kind e = KindAdjudication → adjudicated e ∈ ws_seenReview w) →
  integrity_facts w e2 ∧ e_Pushed e2 = now - now mod 1000 ∧ e_Kind e2 = e_Kind e ∧ e_Hash e2 = e_Hash e'
  ∧ e_Retracts e2 = e_Retracts e ∧ e_Adjudication e2 = e_Adjudication e ∧ e_Checkpoint e2 = e_Checkpoint e.
Proof.
  intros HP Hsg HF Hprev Hs Hcp Hr Ha.
  apply placeEntry_Ok in HP as (Hsh & S & Hkk & Hleg & _ & _ & _).
  pose proof HF as (raw & sg & js & _ & E2 & Hsig & _).
  pose proof (sa_seal _ _ _ S) as Es.
  assert (Hh : EntryHash e2 = Some (e_Hash e')).
  { apply (faithful_hash (stamped e prev now signer) signer name e' b); [|reflexivity|exact S|exact HF].
    unfold stamped. cbn [e_Format]. by case_match. }
  assert (Hkl : (keylessProblem e2 zero_Trust true).1.1.1 = None).
  { rewrite E2. by eapply placed_keyless. }
  assert (Hfields : e2 = with_source (with_seal (stamped e prev now signer) (e_Hash e')
    (e_KeyID (stamped e prev now signer)) (e_Signature e') sg) (Some raw) name).
  { rewrite E2, Es. reflexivity. }
  rewrite Hfields. split; [|by split_and!]. rewrite <- Hfields. split.
  - rewrite Hh, E2. done.
  - rewrite Hfields. exact (stamped_uid e prev now signer).
  - rewrite Hfields. exact Hprev.
  - exact Hkl.
  - rewrite E2. exact Hleg.
  - rewrite Hfields. exact Hsh.
  - intros Hk. apply Hcp. rewrite Hfields in Hk. exact Hk.
  - rewrite Hfields. exact Hs.
  - rewrite Hfields. exact Hr.
  - rewrite Hfields. exact Ha.
Qed.

(** ** An append *)

(** What an entry points at is in the chain. *)
Definition targets_known (es : list Entry) (e : Entry) : Prop :=
  (e_Kind e = KindRetract → e_Retracts e ∈ map e_Hash es) ∧
  (e_Kind e = KindAdjudication → ∃ r, r ∈ es ∧ e_Kind r = KindReview ∧ e_Hash r = adjudicated e).

(** The clock has passed every entry of the chain. *)
Definition clock_after (es : list Entry) (now : instant) : Prop :=
  Forall (λ x, e_Pushed x < now - now mod 1000) es.

Lemma AppendLedgerEntry_Ok d now e signer name e' d' :
  AppendLedgerEntry d now e signer = Ok (name, e', d') →
  e_Kind e ≠ KindCheckpoint ∧ ∃ es, ReadLedgerDir d = Ok es ∧ intact es ∧
    placeEntry d now e (head_hash "" es) signer = Ok (name, e', d').
Proof.
  unfold AppendLedgerEntry, KindIs. destruct (String.eqb_spec (e_Kind e) KindCheckpoint); [done|].
  rewrite rbind_Ok. intros (es & Hes & H). split; [done|]. exists es. split; [done|].
  unfold head_hash. destruct (last es) as [h|] eqn:El.
  - apply rbind_Ok in H as ([] & Hi & H). apply rbind_Ok in H as (_ & _ & H).
    apply RequireIntactChain_Ok in Hi as (es' & Hes' & Hi). rewrite Hes in Hes'.
    injection Hes' as <-. by split.
  - apply last_None in El as ->. split; [|done]. constructor.
Qed.

Lemma appended d now e signer name e' d' es b e2 :
  AppendLedgerEntry d now e signer = Ok (name, e', d') → ReadLedgerDir d = Ok es →
  e_Kind e ≠ KindSigner → targets_known es e → clock_after es now → signs signer →
  d' !! name = Some b → file_faithful name e' b e2 →
  ReadLedgerDir d' = Ok (es ++ [e2]) ∧ intact (es ++ [e2]) ∧ d ⊆ d' ∧ e_Prev e2 = head_hash "" es ∧
  e_Kind e2 = e_Kind e ∧ e_Hash e2 = e_Hash e' ∧ e_Retracts e2 = e_Retracts e ∧
  e_Adjudication e2 = e_Adjudication e.
Proof.
  intros HA Hes Hs [Hr Ha] Hclock Hsg Hb HF.
  apply AppendLedgerEntry_Ok in HA as (Hcp & es' & Hes' & Hi & HP).
  rewrite Hes in Hes'. injection Hes' as <-.
  destruct (placed_facts _ _ _ _ _ _ _ _ _ _ (head_state es) HP Hsg HF)
    as (F & Hpush & Hkind & Hh & Hret & Hadj & _); try done.
  { unfold head_state. by rewrite after_prevHash. }
  { intros Hk. apply after_seen. right. apply Hr in Hk.
    apply list_elem_of_fmap in Hk as (x & -> & Hx). by exists x. }
  { intros Hk. apply after_seenReview. right. by apply Ha. }
  pose proof (placeEntry_Ok _ _ _ _ _ _ _ _ HP) as (_ & _ & _ & _ & Hn & Hd & b' & _ & ->).
  rewrite lookup_insert_eq in Hb. injection Hb as ->.
  pose proof HF as (raw & sg & js & Hparse & _).
  split_and!; try done.
  - apply ReadLedgerDir_insert; try done. by rewrite Hpush.
  - apply intact_snoc; rewrite ?Hkind; [done|done|done|].
    apply integrity_clean; [|done]. unfold head_state. rewrite (proj1 (after_root _ _ _ _ _)).
    unfold walk_init, newSignerSet. cbn. by repeat case_match.
  - by apply insert_subseteq.
  - rewrite (if_link _ _ F). unfold head_state. by rewrite after_prevHash.
Qed.

(** C38. Appending keeps a ledger whole. On a directory that reads as a chain, let an append succeed of an entry that is no change of signers and whose targets
    (what it retracts or adjudicates) the chain holds, by a signer whose signatures verify, at a clock past the last entry, and let
    the file written read back as the entry that was signed. Then no existing file is changed, the
    directory reads back as the old entries, in their order, followed by the
    new one linked to the old head, and the chain verifies. *)
Theorem AppendLedgerEntry_intact d now e signer name e' d' es b e2 :
  AppendLedgerEntry d now e signer = Ok (name, e', d') → ReadLedgerDir d = Ok es →
  e_Kind e ≠ KindSigner → targets_known es e → clock_after es now → signs signer →
  d' !! name = Some b → file_faithful name e' b e2 →
  d ⊆ d' ∧ ReadLedgerDir d' = Ok (es ++ [e2]) ∧ e_Prev e2 = head_hash "" es ∧
  RequireIntactChain d' = Ok ().
Proof.
  intros. destruct (appended d now e signer name e' d' es b e2) as (? & ? & ? & ? & _); try done.
  split_and!; try done. apply RequireIntactChain_Ok. by eexists.
Qed.

(** ** Retractions and adjudications *)

Lemma voided_later es later h : voided later h → voided (es ++ later) h.
Proof. intros H. induction es; [done|]. by right. Qed.

Lemma hex_no_char c s : mem_ascii c "0123456789abcdef" = false → mem_ascii c (hex_encode s) = false.
Proof.
  intros Hc. assert (∀ n, (n < 16)%nat → Ascii.eqb (hex_digit n) c = false) as Hd.
  { intros n Hn. cbn [mem_ascii] in Hc. repeat apply orb_false_elim in Hc as [? Hc].
    do 16 (destruct n as [|n]; [done|]). lia. }
  induction s as [|a s IH]; [done|]. cbn [hex_encode mem_ascii].
  rewrite IH, !Hd; [done| |].
  - apply Nat.mod_upper_bound. lia.
  - apply Nat.Div0.div_lt_upper_bound. unfold code. pose proof (nat_ascii_bounded a). lia.
Qed.

Lemma EntryHash_hex e h : EntryHash e = Some h → ∃ s, h = hex_encode s.
Proof.
  unfold EntryHash. destruct (String.eqb _ _).
  - destruct (CanonicalSparseJSON _); [|done]. cbn. intros [= <-]. by eexists.
  - destruct (match e_Raw e with Some raw => _ | None => _ end); [|done]. cbn.
    destruct (canonicalEntryBytes _ _); [|done]. cbn. intros [= <-]. by eexists.
Qed.

Lemma intact_hash es e : intact es → e ∈ es → EntryHash e = Some (e_Hash e).
Proof.
  intros Hi (i & He)%list_elem_of_lookup. exact (cf_hash _ _ _ _ (clean_lookup _ _ _ _ _ Hi He)).
Qed.

(** WriteRetraction does what it says: when it succeeds, exactly one entry of
    the directory has the hash or the prefix given, and once the new entry is
    read back a reader holds that entry retracted — and the chain verifies. *)
Theorem WriteRetraction_voids d now target reason signer name e' d' es b e2 :
  WriteRetraction d now target reason signer = Ok (name, e', d') → ReadLedgerDir d = Ok es →
  clock_after es now → signs signer → d' !! name = Some b → file_faithful name e' b e2 →
  ∃ t, List.filter (λ x, names_entry (trim_space target) x && negb (String.eqb (e_Hash x) "")) es = [t] ∧
    ReadLedgerDir d' = Ok (es ++ [e2]) ∧ RequireIntactChain d' = Ok () ∧
    voided (es ++ [e2]) (e_Hash t) ∧ e_Hash t ∉ map e_Hash (LiveEntries (es ++ [e2])).
Proof.
  intros HW Hes Hclock Hsg Hb HF. unfold WriteRetraction in HW.
  destruct (String.eqb (trim_space reason) ""); [done|]. rewrite Hes in HW. cbn [rbind] in HW.
  destruct (List.filter _ es) as [|t [|? ?]] eqn:Ef; [done| |done].
  destruct (existsb _ es); [done|]. exists t.
  assert (Ht : t ∈ es).
  { assert (In t [t]) as Hin by by left. rewrite <- Ef in Hin. apply filter_In in Hin as [? _].
    by apply list_elem_of_In. }
  destruct (appended _ _ _ _ _ _ _ es b e2 HW Hes) as (HR & HI & _ & _ & Hk & _ & Hret & _); try done.
  { split; [|done]. intros _. change (e_Hash t ∈ map e_Hash es). by apply list_elem_of_In, in_map, list_elem_of_In. }
  assert (voided (es ++ [e2]) (e_Hash t)) as Hv.
  { apply voided_later. left. cbn [entry_of e_Kind e_Retracts] in Hk, Hret. split_and!; [exact Hk | exact Hret | intros []]. }
  split_and!; try done. { apply RequireIntactChain_Ok. by eexists. }
  intros (x & Hx & Hin)%list_elem_of_fmap. unfold LiveEntries in Hin.
  apply list_elem_of_In, filter_In in Hin as [_ Hl]. unfold lives in Hl.
  apply Retracted_voided in Hv. rewrite Hx in Hv. by rewrite bool_decide_eq_true_2 in Hl.
Qed.

Lemma Adjudications_snoc es e a : e_Kind e = KindAdjudication → e_Adjudication e = Some a →
  Adjudications (es ++ [e]) !! adj_Adjudicates a = Some a.
Proof.
  intros Hk Ha. unfold Adjudications. rewrite foldl_snoc, Ha. unfold KindIs. rewrite Hk. cbn.
  by rewrite lookup_insert_eq.
Qed.

(** WriteAdjudication rules on a finding that exists, and its ruling is the
    one a reader then sees: the review it names is in the chain and has the
    finding, the chain still verifies, and the newest verdict on that finding is
    the one given. *)
Theorem WriteAdjudication_rules d now ref verdict by_ reason signer name e' d' es b e2 :
  WriteAdjudication d now ref verdict by_ reason signer = Ok (name, e', d') →
  ReadLedgerDir d = Ok es → clock_after es now → signs signer →
  d' !! name = Some b → file_faithful name e' b e2 →
  ∃ rev r f, rev ∈ es ∧ e_Review rev = Some r ∧ f ∈ rv_Findings r ∧ fi_ID f ≠ "" ∧
    ReadLedgerDir d' = Ok (es ++ [e2]) ∧ RequireIntactChain d' = Ok () ∧
    Adjudications (es ++ [e2]) !! (e_Hash rev +:+ "#" +:+ fi_ID f) =
      Some (mkAdjudication (e_Hash rev +:+ "#" +:+ fi_ID f) verdict (trim_space by_) (trim_space reason)).
Proof.
  intros HW Hes Hclock Hsg Hb HF. unfold WriteAdjudication in HW.
  destruct (cut "#" (trim_space ref)) as [[hp id] ok].
  destruct (negb ok || String.eqb id "") eqn:Eid; [done|]. destruct (_ && _) in HW; [done|].
  destruct (_ || _) in HW; [done|]. rewrite Hes in HW. cbn [rbind] in HW.
  apply rbind_Ok in HW as (rev & Hrev & HW). unfold FindReview in Hrev.
  destruct (List.filter _ es) as [|x [|? ?]] eqn:Ef; [done| |done]. injection Hrev as ->.
  assert (In rev [rev]) as Hin by by left. rewrite <- Ef in Hin. apply filter_In in Hin as [Hin Hk].
  apply list_elem_of_In in Hin. apply andb_prop in Hk as [Hk _]. unfold KindIs in Hk. apply String.eqb_eq in Hk.
  apply rbind_Ok in HW as (fs & Hfs & HW). destruct (e_Review rev) as [r|] eqn:Er; [|done].
  injection Hfs as <-. destruct (existsb _ _) eqn:Ex in HW; [|done]. cbn [negb] in HW.
  apply existsb_exists in Ex as (f & Hf & Eid'). apply String.eqb_eq in Eid'.
  pose proof (AppendLedgerEntry_Ok _ _ _ _ _ _ _ HW) as (_ & es' & Hes' & Hi & _).
  rewrite Hes in Hes'. injection Hes' as <-.
  destruct (EntryHash_hex _ _ (intact_hash _ _ Hi Hin)) as [hs Ehs].
  assert (Hcut : cut "#" (e_Hash rev +:+ "#" +:+ id) = (e_Hash rev, id, true)).
  { apply cut_app. rewrite Ehs. by apply hex_no_char. }
  destruct (appended _ _ _ _ _ _ _ es b e2 HW Hes) as (HR & HI & _ & _ & Hk2 & _ & _ & Hadj); try done.
  { split; [done|]. intros _. exists rev. split_and!; [done..|]. unfold adjudicated.
    cbn [entry_of e_Adjudication adj_Adjudicates]. by rewrite Hcut. }
  exists rev, r, f. rewrite Eid'. bools. split_and!; try done; [by apply list_elem_of_In| |].
  - apply RequireIntactChain_Ok. by eexists.
  - exact (Adjudications_snoc es e2 _ Hk2 Hadj).
Qed.

(** ** A checkpoint *)

Lemma elem_of_names d n : n ∈ ledgerFileNames d ↔ is_Some (d !! n) ∧ isLedgerEntryName n = true.
Proof.
  unfold ledgerFileNames, sort_strings. rewrite sort_stable_elem_of, list_elem_of_In, filter_In, in_map_iff.
  setoid_rewrite <- list_elem_of_In. split.
  - intros [([n' b] & E & Hin) Hn]. cbn in E. subst n'. apply elem_of_map_to_list in Hin.
    split; [by exists b|done].
  - intros [[b Hb] Hn]. split; [|done]. exists (n, b). split; [done|]. by apply elem_of_map_to_list.
Qed.

Lemma NoDup_names d : NoDup (ledgerFileNames d).
Proof.
  unfold ledgerFileNames, sort_strings. rewrite sort_stable_perm.
  apply NoDup_ListNoDup, List.NoDup_filter, NoDup_ListNoDup, NoDup_fst_map_to_list.
Qed.

Lemma prune_lookup d names keep n :
  prune d names keep !! n = if bool_decide (n ∈ names) && negb (String.eqb n keep) then None else d !! n.
Proof.
  unfold prune. revert d; induction names as [|x names IH]; intros d; cbn [foldl]; [done|].
  rewrite IH. destruct (String.eqb_spec x keep) as [->|Hx].
  - destruct (String.eqb_spec n keep) as [|Hne]; cbn [negb]; rewrite ?andb_false_r, ?andb_true_r; [done|].
    repeat case_bool_decide; set_solver.
  - destruct (decide (n = x)) as [->|Hn].
    + rewrite (bool_decide_eq_true_2 (x ∈ x :: names)) by set_solver.
      apply String.eqb_neq in Hx. rewrite Hx. cbn. rewrite lookup_delete_eq. by destruct (bool_decide (x ∈ names)).
    + rewrite lookup_delete_ne by done. repeat case_bool_decide; set_solver.
Qed.

(** After the prune one entry file is left. *)
Lemma pruned_names d name b : isLedgerEntryName name = true →
  ledgerFileNames (prune (<[name := b]> d) (ledgerFileNames d) name) = [name].
Proof.
  intros Hn. pose proof (NoDup_names (prune (<[name := b]> d) (ledgerFileNames d) name)) as Hd.
  assert (∀ n, n ∈ ledgerFileNames (prune (<[name := b]> d) (ledgerFileNames d) name) ↔ n = name) as H.
  { intros n. rewrite elem_of_names, prune_lookup. split.
    - intros [[b' Hb] Hnn]. destruct (decide (n = name)) as [|Hne]; [done|exfalso].
      apply String.eqb_neq in Hne as Hq. rewrite Hq, andb_true_r in Hb.
      case_bool_decide as Hin; [done|]. rewrite lookup_insert_ne in Hb by done.
      apply Hin, elem_of_names. split; [by exists b'|done].
    - intros ->. rewrite String.eqb_refl, andb_false_r, lookup_insert_eq. split; [by exists b|done]. }
  destruct (ledgerFileNames _) as [|x l].
  { pose proof (proj2 (H name) eq_refl) as Hnil. by apply elem_of_nil in Hnil. }
  assert (x = name) as -> by (apply H; left). f_equal. destruct l as [|y l]; [done|exfalso].
  apply NoDup_cons in Hd as [Hd _]. apply Hd. rewrite <- (proj1 (H y)); [left|right; left].
Qed.

Lemma List_carried set root k : signers_ok set → ss_rootPub set = Some root → k ∈ List_ set →
  sk_KeyID k ≠ KeyFingerprint root.
Proof.
  intros Hok Hroot (kid & -> & Hid)%list_elem_of_fmap.
  apply (so_dom _ Hok) in Hid as [k' Hk']. rewrite Hk'. cbn [default from_option].
  destruct (so_keys _ Hok _ _ Hk') as (E & Hne & _). unfold id. rewrite E.
  by rewrite <- (so_root _ Hok _ Hroot).
Qed.

Lemma carried_Ok es signer root carried : carried_signers es signer root = Ok carried →
  (ChainHasSigners es = false ∧ carried = []) ∨
  ChainHasSigners es = true ∧ ∃ r s, root = Some r ∧ signer = Some s ∧ SigningKeyID s = KeyFingerprint r ∧
    clean_chain (VerifyWithSigners es (mkTrust (Some r) "" None)).1 ∧
    carried = List_ (VerifyWithSigners es (mkTrust (Some r) "" None)).2.
Proof.
  unfold carried_signers. destruct (ChainHasSigners es); cbn [negb]; [|intros [= <-]; by left].
  destruct root as [r|]; [|done]. destruct signer as [s|]; [|done].
  destruct (String.eqb_spec (SigningKeyID s) (KeyFingerprint r)) as [Ek|]; [|done]. cbn [negb].
  destruct (negb _); [done|]. destruct (VerifyWithSigners _ _) as [cs set] eqn:Ev.
  destruct (first_bad cs) as [[f p]|] eqn:Eb; [done|]. intros [= <-]. right. split; [done|].
  exists r, s. split_and!; try done; [|by rewrite Ev]. rewrite Ev. by apply first_bad_None.
Qed.

(** A set the root vouched for may stand in a checkpoint the root signed. *)
Lemma checkpoint_seed d now head n carried signer name e' d' b e2 es root :
  placeEntry d now (checkpoint_entry head n carried) "" signer = Ok (name, e', d') →
  file_faithful name e' b e2 → signs signer → carried_signers es signer root = Ok carried →
  e_Checkpoint e2 = Some (mkCheckpoint (e_Hash head) n (e_Pushed head) carried) →
  e_Kind e2 = KindCheckpoint →
  seedProblem (ws_set (walk_init [e2] zero_Trust)) e2 = None.
Proof.
  intros HP (raw & sg & js & _ & E2 & _) Hsg Hcar Hcp Hk.
  apply placeEntry_Ok in HP as (_ & S & _ & Hleg & _).
  unfold seedProblem. rewrite Hcp. cbn [cp_Signers].
  destruct carried as [|k carried]; [done|]. cbn [no_elems].
  apply carried_Ok in Hcar as [[_ ?]|(_ & r & s & -> & -> & Hid & Hclean & Hlist)]; [done|].
  assert (is_keyless (Some s) = false) as Hkl by by (cbn [is_keyless]; rewrite Hid).
  assert (e_Signature e2 ≠ "") as Hsig%String.eqb_neq.
  { rewrite E2. cbn [with_source with_seal e_Signature]. by apply (sa_signed _ _ _ S). }
  assert (e_KeyID e2 = KeyFingerprint r) as Hkid.
  { rewrite E2. cbn [with_source with_seal e_KeyID].
    rewrite (sa_seal _ _ _ S). cbn [with_seal stamped e_KeyID]. done. }
  rewrite Hsig. unfold walk_init, newSignerSet. cbn [ws_set t_RootPub zero_Trust].
  rewrite Hcp. unfold KindIs. rewrite Hk, String.eqb_refl. cbn [cp_Signers no_elems negb andb].
  unfold isRoot. cbn [ss_rootID]. rewrite String.eqb_refl, Hkid.
  destruct (String.eqb_spec (KeyFingerprint r) LegacyRootKeyID) as [E|_]; [done|].
  cbn [negb orb String.eqb KeyFingerprint]. rewrite andb_true_r.
  destruct (existsb _ (k :: carried)) eqn:Ex; [exfalso|done].
  apply existsb_exists in Ex as (k' & Hin & E). apply String.eqb_eq in E.
  apply list_elem_of_In in Hin. rewrite Hlist in Hin.
  eapply (List_carried _ r k'); [| |exact Hin|exact E].
  - unfold VerifyWithSigners. rewrite walk_set. apply after_set_inv, init_set_inv.
  - unfold VerifyWithSigners. rewrite walk_set, (proj1 (after_root _ _ _ _ _)). done.
Qed.

Lemma check_io t io1 io2 any w e : e_KeyID e ≠ KeyIDSigstore →
  cc_Problem (check_of t io1 any w e) = cc_Problem (check_of t io2 any w e) ∧
  step_of t io1 any w e = step_of t io2 any w e.
Proof.
  intros Hk%String.eqb_neq.
  assert (keylessProblem e t io1 = keylessProblem e t io2) as E.
  { unfold keylessProblem. rewrite Hk. cbn [negb andb].
    by destruct (String.eqb (e_Format e) Format6), (String.eqb (e_Sigstore e) ""). }
  assert (check_signature (ws_set w) e t io1 = check_signature (ws_set w) e t io2) as Ec.
  { unfold check_signature. rewrite E. by destruct (keylessProblem e t io2) as [[[? ?] ?] ?]. }
  unfold check_of, step_of, walk_step. rewrite Ec.
  by destruct (pin_verdict _ _ _ _) as [[? ?] ?].
Qed.

Lemma placed_keyid d now e prev signer name e' d' :
  placeEntry d now e prev signer = Ok (name, e', d') → e_Kind e = KindCheckpoint →
  e_KeyID e' ≠ KeyIDSigstore.
Proof.
  intros HP Hk. apply placeEntry_Ok in HP as (_ & S & Hkk & _).
  rewrite (sa_seal _ _ _ S). cbn [with_seal stamped e_KeyID].
  destruct signer as [s|]; [|done]. intros E. destruct (Hkk) as [_ Hn]; [|done].
  cbn. by rewrite E.
Qed.

(** The signer set a lone clean checkpoint leaves is the one it carries. *)
Lemma lone_checkpoint e2 cp : e_Kind e2 = KindCheckpoint → e_Checkpoint e2 = Some cp →
  EntryShapeProblem e2 = None → e_KeyID e2 ≠ KeyIDSigstore →
  seedProblem (ws_set (walk_init [e2] zero_Trust)) e2 = None →
  cc_Problem (check_of zero_Trust true false (walk_init [e2] zero_Trust) e2) = None →
  (ActiveSigners [e2]).2 = cp_Signers cp.
Proof.
  intros Hk Hcp Hsh Hkid Hseed Hclean. unfold ActiveSigners. cbn [snd].
  unfold VerifyWithSigners. rewrite walk_set. unfold after. rewrite walk_from_cons. cbn [walk_from fst snd].
  rewrite (proj2 (check_any zero_Trust false _ false _ _)), step_state. cbn [ws_set].
  rewrite (proj1 (check_io zero_Trust false true false _ e2 Hkid)), Hclean.
  rewrite bool_decide_eq_true_2 by done. unfold next_set, KindIs. cbn [negb].
  rewrite Hk, Hcp. cbn [String.eqb ws_pos walk_init Z.eqb andb].
  unfold EntryShapeProblem, KindIs in Hsh. rewrite Hk, Hcp in Hsh. cbn in Hsh.
  destruct (String.eqb (cp_Head cp) ""); [done|].
  apply (signers_seed _ e2 cp); [apply newSignerSet_ok| |done|done|done].
  unfold walk_init, newSignerSet. cbn. by repeat case_match.
Qed.

(** A checkpoint replaces a ledger by its head and keeps who may sign: it
    succeeds only on a directory that verifies, holds no keyless entry and has no
    pin in force; afterwards the directory has one entry file, a checkpoint
    naming the old head and how many entries it replaced, the directory verifies,
    and the signers a reader finds are the ones the root-checked walk of the old
    chain left (none, when the chain registered none). *)
Theorem WriteCheckpoint_keeps_signers d now signer root name e' n d' es b e2 :
  WriteCheckpoint d now signer root = Ok (name, e', n, d') → ReadLedgerDir d = Ok es →
  signs signer → d' !! name = Some b → file_faithful name e' b e2 →
  intact es ∧ Forall (λ e, e_KeyID e ≠ KeyIDSigstore) es ∧ KeylessPinInForce es = None ∧
  ledgerFileNames d' = [name] ∧ ReadLedgerDir d' = Ok [e2] ∧ RequireIntactChain d' = Ok () ∧
  (∃ cp, e_Checkpoint e2 = Some cp ∧ cp_Head cp = head_hash "" es ∧ cp_Entries cp = Z.of_nat (length es)) ∧
  (ActiveSigners [e2]).2 =
    if ChainHasSigners es then
      match root with Some r => List_ (VerifyWithSigners es (mkTrust (Some r) "" None)).2 | None => [] end
    else [].
Proof.
  intros HW Hes Hsg Hb HF. unfold WriteCheckpoint in HW. rewrite Hes in HW. cbn [rbind] in HW.
  destruct (last es) as [head|] eqn:El; [|done].
  destruct (existsb _ es) eqn:Ekl; [done|]. destruct (KeylessPinInForce es) eqn:Epin; [done|]. cbn in HW.
  apply rbind_Ok in HW as ([] & Hi & HW). apply rbind_Ok in HW as (carried & Hcar & HW).
  apply rbind_Ok in HW as ([[name' e1] d1] & HP & HW). injection HW as <- <- <- <-.
  apply RequireIntactChain_Ok in Hi as (es' & Hes' & Hi). rewrite Hes in Hes'. injection Hes' as <-.
  set (cp := mkCheckpoint (e_Hash head) (Z.of_nat (length es)) (e_Pushed head) carried).
  pose proof (placeEntry_Ok _ _ _ _ _ _ _ _ HP) as (Hsh & S & _ & _ & Hn & Hd & b' & _ & ->).
  pose proof HF as (raw & sg & js & Hparse & E2 & _).
  assert (Hfields : e_Kind e2 = KindCheckpoint ∧ e_Checkpoint e2 = Some cp ∧ EntryShapeProblem e2 = None).
  { rewrite E2, (sa_seal _ _ _ S). split_and!; [done|done|exact Hsh]. }
  destruct Hfields as (Hk2 & Hcp2 & Hsh2).
  pose proof (checkpoint_seed _ _ _ _ _ _ _ _ _ _ _ _ _ HP HF Hsg Hcar Hcp2 Hk2) as Hseed.
  destruct (placed_facts _ _ _ _ _ _ _ _ _ _ (walk_init [e2] zero_Trust) HP Hsg HF) as (F & _); try done.
  assert (Hclean : cc_Problem (check_of zero_Trust true false (walk_init [e2] zero_Trust) e2) = None).
  { apply integrity_clean; [|done]. unfold walk_init, newSignerSet. cbn. by repeat case_match. }
  pose proof (pruned_names d name' b' Hn) as Hnames.
  assert (b' = b) as ->.
  { rewrite prune_lookup, String.eqb_refl, andb_false_r, lookup_insert_eq in Hb. by injection Hb. }
  assert (HR : ReadLedgerDir (prune (<[name' := b]> d) (ledgerFileNames d) name') = Ok [e2]).
  { unfold ReadLedgerDir. rewrite Hnames. cbn [parse_files].
    rewrite Hb. cbn [default from_option]. unfold id. by rewrite Hparse. }
  assert (HI : intact [e2]).
  { unfold intact. rewrite walk_checks, walk_from_cons. cbn [fst walk_from].
    constructor; [|constructor]. by rewrite (proj1 (check_any _ _ _ false _ _)). }
  split_and!; try done.
  - apply Forall_forall. intros e He%list_elem_of_In E.
    assert (existsb (λ e, String.eqb (e_KeyID e) KeyIDSigstore) es = true) as Ht; [|by rewrite Ht in Ekl].
    apply existsb_exists. exists e. rewrite E. done.
  - apply RequireIntactChain_Ok. by eexists.
  - exists cp. split_and!; try done. unfold head_hash. by rewrite El.
  - rewrite (lone_checkpoint e2 cp); try done.
    + cbn [cp_Signers cp]. apply carried_Ok in Hcar as [[-> ->]|(-> & r & s & -> & -> & _ & _ & ->)]; done.
    + rewrite E2. cbn [with_source with_seal e_KeyID]. by eapply placed_keyid.
Qed.

(** A directory that does not verify takes no further entry. *)
Lemma broken_refuses d now e signer : is_ok (RequireIntactChain d) = false →
  is_ok (AppendLedgerEntry d now e signer) = false.
Proof.
  intros H. unfold AppendLedgerEntry. destruct (KindIs e KindCheckpoint); [done|].
  destruct (ReadLedgerDir d) as [es|] eqn:Er; [|done]. cbn [rbind].
  destruct (last es) eqn:El; [by destruct (RequireIntactChain d)|].
  apply last_None in El as ->. unfold RequireIntactChain in H. by rewrite Er in H.
Qed.
End Facts.
