(* ===== verification/Samples.v ===== *)
(** * A concrete chain, and the theorems applied to it

    Toy cryptography (Crypto.Toy, and [toy_pki] here) makes a ledger whose every
    byte is computed: a root registers a key and pins a workflow, the key signs a
    scan, a run signs another keylessly, an unsigned entry retracts the first
    scan. The theorems with hypotheses are applied to this chain. *)
From S2P Require Import Prelude GoLib GoText Crypto Merkle JsonText Json Canonical Rows Entry Signers StrictJson Keyless Verify VerifyFacts Rules Order Summary Derive.
Import Toy ToyFloat.
Local Open Scope string_scope.
Local Open Scope list_scope.
Local Open Scope Z_scope.

(** ** A toy public-key infrastructure *)

Definition toy_repo : string := "acme/app".
Definition toy_ref : string := "refs/heads/main".
Definition toy_workflow : string := ".github/workflows/audit.yml".

(** DER strings are themselves; a certificate's bytes are its name; a signature is
    the key's point before the digest. *)
Definition toy_leaf : Certificate := {|
  x_Raw := "LEAF"; x_NotBefore := 0; x_NotAfter := 2000000000000000000;
  x_ExtKeyUsage := [3];
  x_Extensions := [
    (fulcio_oid 8, GitHubActionsIssuer);
    (fulcio_oid 12, githubURL toy_repo);
    (fulcio_oid 14, toy_ref);
    (fulcio_oid 15, "4242");
    (fulcio_oid 18, githubURL toy_repo +:+ "/" +:+ toy_workflow +:+ "@" +:+ toy_ref)];
  x_PublicKey := Some (mkEcdsaKey P256 "RUN") |}.
Definition toy_ca : Certificate := mkCertificate "CA" 0 0 [] [] None.
Definition log_key : EcdsaKey := mkEcdsaKey P256 "LOG".

#[export] Instance toy_pki : Pki := {
  ParseCertificate b := if String.eqb b "LEAF" then Some toy_leaf else None;
  cert_verifies leaf root _ _ := String.eqb (x_Raw leaf) "LEAF" && String.eqb (x_Raw root) "CA";
  ecdsa_verify k digest sig := String.eqb sig (ek_Point k +:+ digest);
  MarshalPKIXPublicKey k := Some (ek_Point k);
  asn1_string b := Some (b, "");
  pem_decode b := Some ("CERTIFICATE", b, "")
}.

Definition toy_root : SigstoreRoot := {|
  sg_cas := [mkFulcioCA toy_ca [] 0 zero_time];
  sg_logs := {[ hex_encode "LOGID" := mkRekorLog (Some log_key) "P256" 0 zero_time ]} |}.

(** ** A bundle over an artifact *)

Definition jstr (k v : string) : string * json := (k, JStr v).

Definition toy_body (art : bytes) : bytes := encode (JObj [
  jstr "apiVersion" "0.0.1"; jstr "kind" "hashedrekord";
  ("spec", JObj [
    ("data", JObj [("hash", JObj [jstr "algorithm" "sha256"; jstr "value" (hex_encode (sha256 art))])]);
    ("signature", JObj [
      jstr "content" (base64_encode ("RUN" +:+ sha256 art));
      ("publicKey", JObj [jstr "content" (base64_encode "LEAF")])])])]).

Definition nl : string := String newline "".

Definition toy_envelope (root : bytes) : string :=
  let text := "log.example - 1" +:+ nl +:+ "1" +:+ nl +:+ base64_encode root +:+ nl in
  text +:+ nl +:+ "— log.example "
  +:+ base64_encode (take_str 4 (sha256 "LOG") +:+ "LOG" +:+ sha256 text) +:+ nl.

Definition toy_time : Z := 1700000000.

Definition toy_bundle (art : bytes) : bytes :=
  let body := toy_body art in
  let tl := mkTlogEntry 0 "LOGID" "hashedrekord" "0.0.1" toy_time None None body in
  let root := leaf_hash body in
  encode (JObj [
    jstr "mediaType" bundleMediaType;
    ("verificationMaterial", JObj [
      ("certificate", JObj [jstr "rawBytes" (base64_encode "LEAF")]);
      ("tlogEntries", JArr [JObj [
        jstr "logIndex" "0"; ("logId", JObj [jstr "keyId" (base64_encode "LOGID")]);
        ("kindVersion", JObj [jstr "kind" "hashedrekord"; jstr "version" "0.0.1"]);
        jstr "integratedTime" (format_int toy_time);
        ("inclusionPromise", JObj [jstr "signedEntryTimestamp" (base64_encode
          ("LOG" +:+ sha256 (set_payload tl (hex_encode "LOGID"))))]);
        ("inclusionProof", JObj [
          jstr "logIndex" "0"; jstr "rootHash" (base64_encode root); jstr "treeSize" "1";
          ("hashes", JArr []); ("checkpoint", JObj [jstr "envelope" (toy_envelope root)])]);
        jstr "canonicalizedBody" (base64_encode body)]])]);
    ("messageSignature", JObj [
      ("messageDigest", JObj [jstr "algorithm" "SHA2_256"; jstr "digest" (base64_encode (sha256 art))]);
      jstr "signature" (base64_encode ("RUN" +:+ sha256 art))])]).

Definition toy_identity : CertIdentity := {|
  ci_Repo := githubURL toy_repo; ci_RepoID := "4242";
  ci_Workflow := githubURL toy_repo +:+ "/" +:+ toy_workflow +:+ "@" +:+ toy_ref;
  ci_BuildSigner := ""; ci_Ref := toy_ref; ci_Commit := ""; ci_Trigger := ""; ci_Runner := "" |}.

Example toy_bundle_verifies :
  verifyBundle (toy_bundle "artifact") "artifact" toy_repo toy_root = Ok toy_identity.
Proof. vm_compute. reflexivity. Qed.

(** ** The chain *)

Definition root_pub : bytes := "ROOT-KEY-ROOT-KEY-ROOT-KEY-ROOT-".
Definition ci_pub : bytes := "CI-KEY--CI-KEY--CI-KEY--CI-KEY--".
Definition toy_trust : Trust := mkTrust (Some root_pub) toy_repo (Some toy_root).

(** A draft: everything but the seal. *)
Definition draft (format kind keyid prev retracts reason : string) (change : option SignerChange)
    (scan : ScanRow) (uid : string) (pushed : Z) : Entry := {|
  e_Format := format; e_Kind := kind; e_Pushed := pushed; e_ScanUID := uid; e_Prev := prev;
  e_Bundle := mkBundle scan [] [] [] [] [] [] [] zero_Link false;
  e_Retracts := retracts; e_Reason := reason; e_Checkpoint := None; e_Review := None;
  e_Adjudication := None; e_Signer := change; e_Hash := ""; e_KeyID := keyid; e_Signature := "";
  e_Sigstore := ""; e_Raw := None; e_File := "" |}.

Definition hash_of (e : Entry) : string := default "" (EntryHash e).

(** Written out and read back: the bytes kept. *)
Definition placed (name : string) (e : Entry) : Entry :=
  with_source e (Some (default "" (marshal (Entry_json e)))) name.

(** Sealed by an ed25519 key, or unsigned, or by a run. *)
Definition seal_key (pub : bytes) (name : string) (e : Entry) : Entry :=
  placed name (with_seal e (hash_of e) (e_KeyID e)
    (hex_encode (sign pub (hex_decode (hash_of e)).1)) "").
Definition seal_none (name : string) (e : Entry) : Entry :=
  placed name (with_seal e (hash_of e) "" "" "").
Definition seal_run (name : string) (e : Entry) : Entry :=
  placed name (with_seal e (hash_of e) KeyIDSigstore "" (toy_bundle (hex_decode (hash_of e)).1)).

Definition root_id : string := KeyFingerprint root_pub.
Definition ci_id : string := KeyFingerprint ci_pub.

Definition toy_scan (uid commit : string) : ScanRow := {|
  sr_ScanUID := uid; sr_Repo := "acme/app"; sr_RunURL := ""; sr_ScanID := 0; sr_Commit := commit;
  sr_CorralVersion := ""; sr_Substrate := ""; sr_Host := ""; sr_Cores := 0;
  sr_TreesRequested := 0; sr_DiffBase := ""; sr_Scope := ""; sr_Candidates := 0; sr_Audited := 0;
  sr_Passed := None; sr_StartedAt := None; sr_TotalMillis := None; sr_SelectionMillis := None;
  sr_SelectionReused := false; sr_InputTokens := 0; sr_OutputTokens := 0; sr_ModelCalls := 0;
  sr_SourcePushed := false; sr_StatementSHA256 := ""; sr_RekorLogIndex := None;
  sr_RekorUUID := ""; sr_PushedBy := ""; sr_EntryHash := ""; sr_EngineVersion := "";
  sr_ModelSet := ""; sr_Top := 0; sr_AllCandidates := false; sr_TotalFiles := 0;
  sr_PreflightRan := false; sr_PreflightNote := ""; sr_FinishedAt := None;
  sr_Identity := zero_Identity; sr_TreeDirty := None; sr_RepoIdentity := "";
  sr_SandboxBackend := ""; sr_SandboxImage := ""; sr_SeedSkipped := ""; sr_UnitPass := "";
  sr_TestCommand := ""; sr_Runner := ""; sr_Settings := ""; sr_Toolchains := "";
  sr_LoadStart := None; sr_LoadEnd := None; sr_LoadPeak := None;
  sr_MemAvailableStartBytes := None; sr_PeakRSSBytes := None; sr_CPUMillis := None;
  sr_HostNotMeasured := ""; sr_Inventory := ""; sr_ShadowDraw := ""; sr_MaxTokensReached := None;
  sr_ToolMutants := "" |}.

Definition scan_draft (format keyid prev commit : string) (pushed : Z) : Entry :=
  let uid := ScanUID (toy_scan "" commit) pushed in
  draft format "" keyid prev "" "" None (toy_scan uid commit) uid pushed.

Definition e_register : Entry := Eval vm_compute in seal_key root_pub "0.json"
  (draft FileFormat KindSigner root_id "" "" "" (Some (mkSignerChange SignerRegister ci_id
    (hex_encode ci_pub) "ci" "" None)) zero_ScanRow "" 1000).
Definition e_pin : Entry := Eval vm_compute in seal_key root_pub "1.json"
  (draft FileFormat KindSigner root_id (e_Hash e_register) "" "" (Some (mkSignerChange
    SignerPinKeyless "" "" "" "" (Some (mkKeylessPin "4242" [mkPinnedWorkflow toy_workflow toy_ref]))))
    zero_ScanRow "" 2000).
Definition e_scan1 : Entry := Eval vm_compute in seal_key ci_pub "2.json"
  (scan_draft FileFormat ci_id (e_Hash e_pin) "c1" 3000).
Definition e_scan2 : Entry := Eval vm_compute in seal_run "3.json"
  (scan_draft Format6 KeyIDSigstore (e_Hash e_scan1) "c2" 4000).
Definition e_undo : Entry := Eval vm_compute in seal_none "4.json"
  (draft FileFormat KindRetract "" (e_Hash e_scan2) (e_Hash e_scan1) "wrong commit" None
    zero_ScanRow "" 5000).

Definition toy_chain : list Entry := [e_register; e_pin; e_scan1; e_scan2; e_undo].
Definition toy_checks : list ChainCheck := Eval vm_compute in Verify toy_chain toy_trust.

Example toy_chain_checks :
  map (λ c, (cc_Problem c, cc_Level c, cc_Signer c)) (Verify toy_chain toy_trust)
  = [(None, LevelKey, "root"); (None, LevelKey, "root"); (None, LevelKey, "ci");
     (None, LevelKeylessPinned, "https://github.com/acme/app"); (None, LevelUnsigned, "")].
Proof. vm_compute. reflexivity. Qed.

Lemma toy_checks_eq : Verify toy_chain toy_trust = toy_checks.
Proof. vm_compute. reflexivity. Qed.

(** ** Bundles and entries *)

Lemma verifyBundle_sound_witness :
  ∃ leaf pub sig, x_PublicKey leaf = Some pub ∧ ecdsa_verify pub (sha256 "artifact") sig = true.
Proof.
  destruct (verifyBundle_sound (toy_bundle "artifact") "artifact" toy_repo toy_root toy_identity
    toy_bundle_verifies) as (leaf & pub & sig & ? & ? & ? & ? & ? & ? & ? & _ & _ & [? ?] & _).
  by exists leaf, pub, sig.
Defined.

Lemma verifyBundle_one_artifact_witness : "artifact" = "artifact" ∨ clash "artifact" "artifact".
Proof.
  exact (verifyBundle_one_artifact (toy_bundle "artifact") "artifact" toy_repo toy_root toy_identity
    "artifact" toy_repo toy_root toy_identity toy_bundle_verifies toy_bundle_verifies).
Defined.

Lemma keylessProblem_pairing_witness :
  e_KeyID e_scan2 = KeyIDSigstore ∧
  (e_KeyID e_scan2 = KeyIDSigstore ↔ e_Format e_scan2 = Format6).
Proof.
  split; [reflexivity|].
  refine (proj1 (keylessProblem_pairing e_scan2 toy_trust false (githubURL toy_repo) true
    (Some toy_identity) _)).
  vm_compute. reflexivity.
Defined.

Definition e_draft : Entry := Eval vm_compute in scan_draft FileFormat ci_id "" "c1" 3000.
Definition e_sealed : Entry := with_seal e_draft "h" ci_id "s" "".

Lemma EntryHash_seal_witness :
  match marshal (Entry_json e_sealed), EntryHash e_draft with
  | Some raw, Some h => EntryHash (with_source e_sealed (Some raw) "2.json") = Some h
  | _, _ => False
  end.
Proof.
  destruct (marshal (Entry_json e_sealed)) as [raw|] eqn:Em; [|by vm_compute in Em].
  destruct (EntryHash e_draft) as [h|] eqn:Eh; [|by vm_compute in Eh].
  apply (EntryHash_seal e_draft h "h" ci_id "s" "" raw "2.json"); try done.
Defined.

Lemma ScanUID_identifies_witness :
  sr_Commit (toy_scan "x" "c1") = sr_Commit (toy_scan "y" "c1") ∨ short_clash (scan_uid_text (toy_scan "x" "c1") 5) (scan_uid_text (toy_scan "y" "c1") 5).
Proof.
  destruct (ScanUID_identifies (toy_scan "x" "c1") 5 (toy_scan "y" "c1") 5 eq_refl) as [H|H];
    [left; apply H | by right].
Defined.

(** ** Walks *)

Lemma clean_of_problems cs : map cc_Problem cs = repeat None (length cs) → clean_chain cs.
Proof.
  unfold clean_chain. induction cs as [|c cs IH]; [constructor|]. cbn [map length repeat].
  intros H. injection H as Hc H. constructor; [done|by apply IH].
Qed.

Lemma toy_chain_clean : clean_chain (walk toy_chain toy_trust false).1.
Proof. apply clean_of_problems. vm_compute. reflexivity. Qed.

Lemma toy_chain_integrity : clean_chain (walk toy_chain zero_Trust true).1.
Proof. apply clean_of_problems. vm_compute. reflexivity. Qed.

Lemma faithful_of (e : Entry) : e_Format e ≠ Format2 → is_Some (e_Raw e) →
  match hashed_tree e with Some t => e_Prev e = tree_prev t | None => True end → read_faithfully e.
Proof. intros Hf Hr Ht. split_and!; try done. intros t E. by rewrite E in Ht. Qed.

Lemma toy_chain_faithful : Forall read_faithfully toy_chain.
Proof.
  repeat first [apply Forall_nil_2 | apply Forall_cons_2]; apply faithful_of;
    (by vm_compute) || (by eexists) || (vm_compute; reflexivity).
Qed.


Lemma checked_key_is_32_bytes_witness : String.length ci_pub = 32%nat.
Proof.
  apply (checked_key_is_32_bytes toy_trust false true toy_chain [e_register; e_pin] e_scan1
    ci_pub root_pub); vm_compute; reflexivity.
Defined.

Lemma key_level_authority_witness :
  ∃ k, signed_under root_pub e_scan1 ∨ signed_under (hex_decode (sk_PubKey k)).1 e_scan1.
Proof.
  destruct (toy_checks !! 2%nat) as [c|] eqn:E; [|done].
  destruct (key_level_authority toy_chain toy_trust root_pub 2 e_scan1 c) as [_ [H|H]].
  - reflexivity.
  - reflexivity.
  - by rewrite toy_checks_eq.
  - by injection E as <-.
  - exists zero_SignerKey. by left.
  - destruct H as (k & _ & _ & _ & H & _). exists k. by right.
Defined.

Lemma pinned_level_earned_witness : ∃ e pin, toy_chain !! 3%nat = Some e ∧ pin_well_shaped pin.
Proof.
  destruct (toy_checks !! 3%nat) as [c|] eqn:E; [|done].
  destruct (pinned_level_earned toy_chain toy_trust 3 c)
    as (e & id & art & set & pin & He & _ & _ & _ & Hp & _).
  - by rewrite toy_checks_eq.
  - by injection E as <-.
  - by exists e, pin.
Defined.

Lemma integrity_claims_no_signature_witness :
  ∃ c, VerifyIntegrity toy_chain !! 2%nat = Some c ∧ cc_SigChecked c = false.
Proof.
  destruct (VerifyIntegrity toy_chain !! 2%nat) as [c|] eqn:E; [|by vm_compute in E].
  exists c. split; [done|]. apply (integrity_claims_no_signature toy_chain 2 c E).
Defined.

Lemma clean_references_witness :
  ∃ j e', (j < 4)%nat ∧ toy_chain !! j = Some e' ∧ e_Hash e' = e_Retracts e_undo.
Proof.
  apply (clean_references toy_chain toy_trust false 4 e_undo toy_chain_clean); reflexivity.
Defined.

Lemma truncation_invisible_witness :
  map cc_Problem (Verify (take 3 toy_chain) toy_trust) = [None; None; None].
Proof.
  rewrite (proj1 (truncation_invisible toy_chain toy_trust 3 root_pub eq_refl)), toy_checks_eq.
  reflexivity.
Defined.

(** ** Derive *)

(** Entries' files, and a decoder that knows them. *)
Definition toy_file (e : Entry) : RawEntry := mkRawEntry (e_File e) (default "" (e_Raw e)).
Definition toy_codec : EntryCodec := {|
  unmarshal_entry raw := List.find (λ e, String.eqb (default "" (e_Raw e)) raw) toy_chain;
  gunzip _ := None |}.
#[local] Existing Instance toy_codec.

Definition toy_files : list RawEntry := map toy_file (rev toy_chain).

Example toy_derived_scans :
  match Derive toy_files toy_trust with
  | Ok d => d_Problem d = None ∧ map sr_Commit (d_Scans d) = ["c2"]
            ∧ map es_Status (d_Entries d) = [StatusVerified; StatusVerified; StatusVerified; StatusVerified; StatusUnsigned]
  | Err _ => False
  end.
Proof. vm_compute. by split_and!. Qed.

Lemma toy_Derive : ∃ d, Derive toy_files toy_trust = Ok d ∧ d_Problem d = None ∧
  d_Scans d = [b_Scan (e_Bundle e_scan2)].
Proof.
  assert (match Derive toy_files toy_trust with
    | Ok d => d_Problem d = None ∧ d_Scans d = [b_Scan (e_Bundle e_scan2)]
    | Err _ => False end) as H by (vm_compute; split; reflexivity).
  destruct (Derive toy_files toy_trust) as [d|e]; [by exists d | done].
Qed.

Lemma Derive_all_or_nothing_witness :
  ∃ d, Derive toy_files toy_trust = Ok d ∧ Forall (λ st, es_Status st ≠ StatusFailed) (d_Entries d).
Proof.
  destruct toy_Derive as (d & Hd & Hp & _). exists d. split; [done|].
  by apply (Derive_all_or_nothing toy_files toy_trust d Hd).
Defined.

Lemma Derive_serves_verified_witness :
  ∃ d e, Derive toy_files toy_trust = Ok d ∧ e ∈ chain_of toy_files ∧
    d_Scans d = [b_Scan (e_Bundle e)] ∧ ¬ voided (chain_of toy_files) (e_Hash e).
Proof.
  destruct toy_Derive as (d & Hd & Hp & Hs).
  destruct (Derive_serves_verified toy_files toy_trust d Hd Hp) as (_ & _ & _ & H).
  destruct (proj1 (H (b_Scan (e_Bundle e_scan2)))) as (i & e & c & He & _ & _ & _ & _ & _ & _ & _ & Hv & E).
  { rewrite Hs. left. }
  exists d, e. split_and!; [done| by apply list_elem_of_lookup; exists i | by rewrite Hs, E | done].
Defined.

Lemma Derive_order_independent_witness :
  Derive (map toy_file toy_chain) toy_trust = Derive toy_files toy_trust.
Proof.
  apply Derive_order_independent.
  - unfold toy_files. rewrite map_rev. apply Permutation_rev.
  - apply (bool_decide_eq_true_1 _). vm_compute. reflexivity.
Defined.
