(* ===== verification/AppendSamples.v ===== *)
(** * A ledger directory, written step by step

    The writer's operations on concrete directories: the theorems of AppendFacts.v
    applied, and two appends that leave a ledger its own verifier refuses. *)
From S2P Require Import Prelude GoLib GoText Crypto Merkle JsonText Json Canonical Rows Entry Signers StrictJson Keyless Verify VerifyFacts Rules Append AppendFacts Samples.
Import Toy ToyFloat.
Local Open Scope string_scope.
Local Open Scope list_scope.
Local Open Scope Z_scope.

(** A file is the compact document. *)
#[local] Instance toy_file_format : EntryFile := { encode_file e := marshal (Entry_json e) }.

Definition ci_signer : option LedgerSigner :=
  Some (mkLedgerSigner ci_id (λ raw, Some (ci_id, sign ci_pub raw))).

Lemma ci_signs : signs ci_signer.
Proof. intros raw id sig E. injection E as _ <-. by destruct raw. Qed.

(** Place an entry, ignoring refusals (each is shown to succeed below). *)
Definition place (d : dir) (now : instant) (e : Entry) (prev : string) : string * Entry * dir :=
  match placeEntry d now e prev ci_signer with Ok r => r | Err _ => ("", zero_Entry, ∅) end.

Definition push1 : Entry := Eval vm_compute in
  entry_of "" "" "" None None None None (with_scan zero_Bundle (toy_scan "" "c1")).
Definition review1 : Review := {|
  rv_Repo := "acme/app"; rv_Commit := "c1"; rv_Author := ""; rv_Committer := "";
  rv_CoAuthors := ""; rv_GeneratedWith := ""; rv_Scope := "all"; rv_ReviewerModel := "m";
  rv_ReviewerTool := ""; rv_VerifierTool := ""; rv_ReviewerModelResolved := true;
  rv_VerifierModelResolved := false; rv_Lang := "go"; rv_VerifierModel := "";
  rv_VerifierOpinion := ""; rv_VerifierNote := ""; rv_Substrate := ""; rv_StartedAt := 0;
  rv_Findings := [mkFinding "R1" "claim" "CODE-READ" "CODE-READ" "a.go" 3 "high" "" "" None "" "" None];
  rv_Sound := []; rv_Opinion := ""; rv_FilesShown := []; rv_BytesShown := 0; rv_Truncated := false;
  rv_InputTokens := 0; rv_OutputTokens := 0; rv_Calls := 1; rv_UnmeteredCalls := 0;
  rv_Coverage := ""; rv_StatementSHA256 := "" |}.

(** An equation the virtual machine checks by evaluating both sides. *)
Ltac vm_eq := match goal with |- _ = ?y => vm_cast_no_check (@eq_refl _ y) end.

(** Four placements, one after the other. *)
Definition step1 := Eval vm_compute in place ∅ 1000000000 push1 "".
Definition h1 : string := Eval vm_compute in e_Hash step1.1.2.
Definition step2 := Eval vm_compute in
  place step1.2 2000000000 (entry_of KindReview "" "" None (Some review1) None None zero_Bundle) h1.
Definition h2 : string := Eval vm_compute in e_Hash step2.1.2.
Definition step3 := Eval vm_compute in
  place step2.2 3000000000 (entry_of KindRetract h1 "oops" None None None None zero_Bundle) h2.
Definition step4 := Eval vm_compute in
  place step2.2 3000000000 (entry_of KindAdjudication "" "" None None
    (Some (mkAdjudication (h2 +:+ "#R1") VerdictConfirmed "ann" "seen")) None zero_Bundle) h2.
Definition step5 := Eval vm_compute in
  place step2.2 3000000000 (entry_of KindCheckpoint "" "" (Some (mkCheckpoint h2 2 2000000000 []))
    None None None zero_Bundle) "".
(** A retraction of an entry this ledger does not hold, and an entry placed by a
    clock that runs behind. *)
Definition step6 := Eval vm_compute in
  place step2.2 3000000000 (entry_of KindRetract (e_Hash e_scan1) "elsewhere" None None None None
    zero_Bundle) h2.
Definition step7 := Eval vm_compute in place step2.2 1500000000 push1 h2.

(** Reading: the entries these files hold. *)
Definition known_entries : list Entry :=
  map (λ s : string * Entry * dir, s.1.2) [step1; step2; step3; step4; step5; step6; step7].
#[local] Instance toy_reader : EntryCodec := {
  unmarshal_entry raw := List.find (λ e, String.eqb (default "" (marshal (Entry_json e))) raw) known_entries;
  gunzip _ := None }.

Definition read_back (s : string * Entry * dir) : Entry := placed s.1.1 s.1.2.
Definition file_of (s : string * Entry * dir) : bytes := default "" (s.2 !! s.1.1).

Lemma faithful_of_parse name e b js :
  marshal (Entry_json e) = Some js → ParseEntry name b = Ok (placed name e) → e_Raw e = None →
  nests_within (Z.to_nat max_nesting) (Entry_json e) = true →
  with_seal e (e_Hash e) (e_KeyID e) (e_Signature e) (e_Sigstore e) = e →
  file_faithful name e b (placed name e).
Proof.
  intros Hm Hp Hr Hn Hs. exists js, (e_Sigstore e), js. split_and!; try done.
  unfold placed. by rewrite Hm, Hs.
Qed.

Lemma faithful2 : file_faithful step2.1.1 step2.1.2 (file_of step2) (read_back step2).
Proof.
  eapply faithful_of_parse; [vm_compute; reflexivity | vm_compute; reflexivity | reflexivity
    | vm_compute; reflexivity | reflexivity].
Qed.
Lemma faithful3 : file_faithful step3.1.1 step3.1.2 (file_of step3) (read_back step3).
Proof.
  eapply faithful_of_parse; [vm_compute; reflexivity | vm_compute; reflexivity | reflexivity
    | vm_compute; reflexivity | reflexivity].
Qed.
Lemma faithful4 : file_faithful step4.1.1 step4.1.2 (file_of step4) (read_back step4).
Proof.
  eapply faithful_of_parse; [vm_compute; reflexivity | vm_compute; reflexivity | reflexivity
    | vm_compute; reflexivity | reflexivity].
Qed.

Lemma AppendLedgerEntry_intact_witness :
  ReadLedgerDir step2.2 = Ok ([read_back step1] ++ [read_back step2]) ∧
  RequireIntactChain step2.2 = Ok ().
Proof.
  destruct (AppendLedgerEntry_intact step1.2 2000000000
    (entry_of KindReview "" "" None (Some review1) None None zero_Bundle) ci_signer
    step2.1.1 step2.1.2 step2.2 [read_back step1] (file_of step2) (read_back step2))
    as (_ & H1 & _ & H2).
  - vm_eq.
  - vm_eq.
  - done.
  - by split.
  - constructor; [vm_compute; reflexivity | constructor].
  - exact ci_signs.
  - vm_eq.
  - exact faithful2.
  - by split.
Defined.

Lemma WriteRetraction_voids_witness :
  RequireIntactChain step3.2 = Ok () ∧
  ∃ t, voided ([read_back step1; read_back step2] ++ [read_back step3]) (e_Hash t).
Proof.
  destruct (WriteRetraction_voids step2.2 3000000000 h1 "oops" ci_signer step3.1.1 step3.1.2 step3.2
    [read_back step1; read_back step2] (file_of step3) (read_back step3))
    as (t & _ & _ & H1 & H2 & _).
  - vm_eq.
  - vm_eq.
  - repeat first [apply Forall_nil_2 | apply Forall_cons_2]; vm_compute; reflexivity.
  - exact ci_signs.
  - vm_eq.
  - exact faithful3.
  - split; [exact H1 | by exists t].
Defined.

Lemma WriteAdjudication_rules_witness :
  RequireIntactChain step4.2 = Ok () ∧ ∃ rev, rev ∈ [read_back step1; read_back step2].
Proof.
  destruct (WriteAdjudication_rules step2.2 3000000000 (h2 +:+ "#R1") VerdictConfirmed "ann" "seen"
    ci_signer step4.1.1 step4.1.2 step4.2 [read_back step1; read_back step2] (file_of step4)
    (read_back step4)) as (rev & r & f & Hin & _ & _ & _ & _ & H & _).
  - vm_eq.
  - vm_eq.
  - repeat first [apply Forall_nil_2 | apply Forall_cons_2]; vm_compute; reflexivity.
  - exact ci_signs.
  - vm_eq.
  - exact faithful4.
  - split; [exact H | by exists rev].
Defined.

Definition pruned5 : dir := Eval vm_compute in prune step5.2 (ledgerFileNames step2.2) step5.1.1.

Lemma faithful5 : file_faithful step5.1.1 step5.1.2 (file_of step5) (read_back step5).
Proof.
  eapply faithful_of_parse; [vm_compute; reflexivity | vm_compute; reflexivity | reflexivity
    | vm_compute; reflexivity | reflexivity].
Qed.

Lemma WriteCheckpoint_keeps_signers_witness :
  ledgerFileNames pruned5 = [step5.1.1] ∧ RequireIntactChain pruned5 = Ok ().
Proof.
  destruct (WriteCheckpoint_keeps_signers step2.2 3000000000 ci_signer None step5.1.1 step5.1.2 2
    pruned5 [read_back step1; read_back step2] (file_of step5) (read_back step5))
    as (_ & _ & _ & H1 & _ & H2 & _).
  - vm_eq.
  - vm_eq.
  - exact ci_signs.
  - vm_eq.
  - exact faithful5.
  - by split.
Defined.

(** ** Two ways to append a ledger into a refusal *)

(** An append does not look at what the entry points to: a retraction naming an
    entry this ledger does not hold (one carried over from another ledger) is
    accepted by AppendLedgerEntry on a directory that verifies — and the directory
    no longer verifies, so every later append is refused. *)
Theorem append_unknown_target_breaks :
  ∃ (d : dir) now e signer name e' d',
    RequireIntactChain d = Ok () ∧ AppendLedgerEntry d now e signer = Ok (name, e', d') ∧
    is_ok (RequireIntactChain d') = false ∧
    ∀ now2 e2, is_ok (AppendLedgerEntry d' now2 e2 signer) = false.
Proof.
  exists step2.2, 3000000000,
    (entry_of KindRetract (e_Hash e_scan1) "elsewhere" None None None None zero_Bundle),
    ci_signer, step6.1.1, step6.1.2, step6.2.
  split; [vm_eq|]. split; [vm_eq|].
  assert (is_ok (RequireIntactChain step6.2) = false) as H by vm_eq.
  split; [exact H|]. intros now2 e2. by apply broken_refuses.
Qed.

(** Placement order rests on the clock: an append made while the clock reads
    earlier than the head's stamp succeeds, and leaves a directory whose entries
    read back out of chain order — one that no longer verifies. *)
Theorem append_behind_the_clock_breaks :
  ∃ (d : dir) now e signer name e' d',
    RequireIntactChain d = Ok () ∧ AppendLedgerEntry d now e signer = Ok (name, e', d') ∧
    is_ok (RequireIntactChain d') = false.
Proof.
  exists step2.2, 1500000000, push1, ci_signer, step7.1.1, step7.1.2, step7.2.
  split; [vm_eq|]. split; vm_eq.
Qed.
