(* ===== verification/TestMap.v ===== *)
(** * The test map: internal/testmap/testmap.go, from_evidence.go, lang's line ranges

    Which test nodes executed which source files. A Go map is a [gmap]; a nil and
    an empty command are told apart ([gocmd]), because the engine asks. The runner
    row's fields are functions of the language plugins: arguments here. *)
From S2P Require Import Prelude GoLib.
Local Open Scope string_scope.
Local Open Scope list_scope.
Local Open Scope Z_scope.

(** A [[]string] whose nil-ness is read. *)
Abbreviation gocmd := (option (list string)) (only parsing).
Definition words (c : gocmd) : list string := default [] c.

Definition Schema : Z := 1.
Definition GrainUnit : string := "unit".
Definition GrainTest : string := "test".
Definition MethodUnitEvidence : string := "unit-evidence".
Definition MethodCoverageContext : string := "coverage-context".

Record LineRange := mkLineRange { lr_Start : Z; lr_End : Z }.

Definition IsZero (r : LineRange) : bool := (lr_Start r =? 0) && (lr_End r =? 0).
Definition Overlaps (r o : LineRange) : bool :=
  negb (IsZero r) && negb (IsZero o) && (lr_Start r <=? lr_End o) && (lr_Start o <=? lr_End r).

Record Source := mkSource { so_HasStatic : bool; so_HasStatements : bool; so_Static : list LineRange }.

Record Node := mkNode {
  nd_ID : string; nd_Grain : string; nd_Unit : string; nd_Files : list string; nd_Err : string }.

Record Edge := mkEdge {
  ed_Test : string; ed_Source : string; ed_Lines : list LineRange; ed_Executed : Z;
  ed_Loaded : bool; ed_Uncounted : string }.

Record Map := mkMap {
  tm_Schema : Z; tm_Lang : string; tm_Runner : string; tm_Command : list string;
  tm_Scope : list string; tm_Tree : string; tm_Method : string; tm_Of : Z;
  tm_Sources : gmap string Source; tm_Tests : gmap string Node; tm_Edges : list Edge;
  tm_Note : string }.

Definition EdgesTo (m : Map) (source : string) : list Edge :=
  List.filter (λ e, String.eqb (ed_Source e) source) (tm_Edges m).

Definition unreported_node (kv : string * Node) : bool := negb (String.eqb (nd_Err kv.2) "").

(** The nodes that contributed no evidence, sorted. *)
Definition Unreported (m : Map) : list string :=
  sort_strings (map fst (List.filter unreported_node (map_to_list (tm_Tests m)))).

Record FileCoverage := mkFileCoverage {
  fc_Tests : gmap string Z; fc_HasStatic : bool; fc_HasStatements : bool }.

Definition cover_edge (out : gmap string FileCoverage) (e : Edge) : gmap string FileCoverage :=
  match out !! ed_Source e with
  | None => out
  | Some fc =>
      <[ed_Source e := mkFileCoverage
          (<[ed_Test e := w64 (default 0 (fc_Tests fc !! ed_Test e) + ed_Executed e)]> (fc_Tests fc))
          (fc_HasStatic fc) (fc_HasStatements fc)]> out
  end.

Definition Coverage (m : Map) : gmap string FileCoverage :=
  foldl cover_edge ((λ s, mkFileCoverage ∅ (so_HasStatic s) (so_HasStatements s)) <$> tm_Sources m)
    (tm_Edges m).

(** ** Facts *)

Lemma elem_of_Unreported m id :
  id ∈ Unreported m ↔ ∃ n, tm_Tests m !! id = Some n ∧ nd_Err n ≠ "".
Proof.
  unfold Unreported, sort_strings. rewrite sort_stable_elem_of, list_elem_of_fmap. split.
  - intros ([i n] & -> & (Hin & Hu)%list_elem_of_In%filter_In). unfold unreported_node in Hu. bools.
    apply list_elem_of_In, elem_of_map_to_list in Hin. by exists n.
  - intros (n & Hn & He). exists (id, n). split; [done|]. apply list_elem_of_In, filter_In. split.
    + by apply list_elem_of_In, elem_of_map_to_list.
    + by apply negb_true_iff, String.eqb_neq.
Qed.

Lemma NoDup_Unreported m : NoDup (Unreported m).
Proof.
  unfold Unreported, sort_strings. rewrite sort_stable_perm.
  pose proof (NoDup_fst_map_to_list (tm_Tests m)) as Hnd.
  induction (map_to_list (tm_Tests m)) as [|kv l IH]; [constructor|]. revert Hnd.
  intros [Hn Hl]%NoDup_cons. cbn [List.filter]. destruct (unreported_node kv); [|by apply IH].
  cbn [map]. constructor; [|by apply IH]. intros Hin. apply Hn.
  apply list_elem_of_fmap in Hin as (kv' & E & (Hin & _)%list_elem_of_In%filter_In).
  apply list_elem_of_fmap. exists kv'. split; [done|]. by apply list_elem_of_In.
Qed.

Lemma length_Unreported m :
  length (Unreported m) = length (List.filter unreported_node (map_to_list (tm_Tests m))).
Proof. unfold Unreported, sort_strings. by rewrite length_sort_stable, length_map. Qed.

(** Overlap is symmetric, and sharing a line. *)
Lemma Overlaps_spec r o : IsZero r = false → IsZero o = false →
  lr_Start r <= lr_End r → lr_Start o <= lr_End o →
  Overlaps r o = true ↔ ∃ l, lr_Start r <= l <= lr_End r ∧ lr_Start o <= l <= lr_End o.
Proof.
  intros Hr Ho ? ?. unfold Overlaps. rewrite Hr, Ho. cbn [negb andb]. split.
  - intros Ho2. exists (Z.max (lr_Start r) (lr_Start o)). lia.
  - intros (l & ? & ?). lia.
Qed.
