(* ===== verification/Select.v ===== *)
(** * The selection engine: internal/testmap/select.go

    A map and a runner row become a selection and its commands, in the order the code
    asks its questions and with its errors. The loop that closes a unit set under what
    its command would also run has fuel, with a result of its own for running out. What
    is proved of the engine is in SelectFacts (the set) and SpanFacts (the narrowing,
    the authored test). *)
From S2P Require Import Prelude GoLib TestMap.
Local Open Scope string_scope.
Local Open Scope list_scope.
Local Open Scope Z_scope.
Local Open Scope corral_scope.

(** The fields of a runner row the engine calls; None: the row has no such field. *)
Record Runner := mkRunner {
  rn_ID : string;
  rn_CollectionBase : option (gocmd → string → gocmd);
  rn_TestsCmd : option (gocmd → list string → option gocmd);
  rn_UnitsCmd : option (gocmd → list string → option gocmd);
  rn_UnitsCoruns : option (list string → string → bool);
  rn_UnitForFile : option (string → string → option string);
  rn_TestUnit : option (string → string);
  rn_CarryArgs : option (gocmd → list string) }.

Record Selection := mkSelection {
  sl_Base : gocmd; sl_Cmd : gocmd; sl_Tests : list string; sl_Method : string; sl_Of : Z;
  sl_Fallback : string; sl_Lines : option (gmap string (list LineRange)); sl_Static : list LineRange;
  sl_Always : list string; sl_Excluded : list string; sl_ExcludedWhy : gmap string string }.

(** A line of [sel.Lines]: a nil map reads as empty. *)
Definition lines_of (sel : Selection) (id : string) : list LineRange :=
  match sl_Lines sel with Some ls => default [] (ls !! id) | None => [] end.

Definition NarrowableByLine (s : Selection) : bool :=
  match sl_Lines s with
  | None => false
  | Some ls => negb (bool_decide (ls = ∅)) && negb (bool_decide (sl_Tests s = []))
               && existsb (λ t, negb (bool_decide (lines_of s t = []))) (sl_Tests s)
  end.

Inductive select_error :=
| NoGrain (method : string)
| NoTestsCmd (runner : string)
| NoUnitsCmd (runner : string)
| NothingReported (listed : Z) (note : string)
| NeverSaw (code test : string)
| NotMeasured (measured : Z) (code test : string)
| NoNode (test source : string)
| WrongGrain (test grain : string)
| LeavesAllOut (dropped : Z) (source : string)
| CorunsUnnamed (other : string)
| CorunsLeftOut (other : string)
| TooLong (n bytes : Z)
| RunnerRefuses (n : Z)
| NoUnitToWiden (test : string)
| NoUnitForFile (path : string)
| NoUnitHolds (path : string)
| CannotAdd (path : string)
| OutOfFuel.

Definition MaxArgv : Z := 32 * 1024.
Definition MaxCommandBytes : Z := 96 * 1024.

Definition argvLen (args : list string) : Z :=
  foldl (λ n a, n + (Z.of_nat (String.length a) + 1)) 0 args.

Definition grainOf (m : Map) : result select_error string :=
  if String.eqb (tm_Method m) MethodCoverageContext then Ok GrainTest
  else if String.eqb (tm_Method m) MethodUnitEvidence then Ok GrainUnit
  else Err (NoGrain (tm_Method m)).

Definition has {A} (o : option A) : bool := match o with Some _ => true | None => false end.

Definition canRun (r : Runner) (grain : string) : result select_error () :=
  if String.eqb grain GrainTest && negb (has (rn_TestsCmd r)) then Err (NoTestsCmd (rn_ID r))
  else if String.eqb grain GrainUnit && negb (has (rn_UnitsCmd r)) then Err (NoUnitsCmd (rn_ID r))
  else Ok ().

Definition someUnitReported (m : Map) : result select_error () :=
  if (length (Unreported m) <? size (tm_Tests m))%nat then Ok ()
  else Err (NothingReported (Z.of_nat (size (tm_Tests m))) (tm_Note m)).

(** ** selectedIDs *)

(** A unit edge that measured the file, executed none of it, did not load it and
    could count it selects nothing. *)
Definition edge_selects (grain : string) (e : Edge) : bool :=
  negb (String.eqb grain GrainUnit && (ed_Executed e =? 0) && negb (ed_Loaded e)
        && String.eqb (ed_Uncounted e) "").

(** The loop's variables: seen, ids (in order), how many edges' nodes were taken
    and how many left out, the lines recorded. *)
Record pick := mkPick {
  pk_seen : gset string; pk_ids : list string; pk_edges : Z; pk_dropped : Z;
  pk_lines : gmap string (list LineRange) }.

Definition pick_edge (m : Map) (grain want : string) (withLines : bool) (dropEdges : gset string)
    (p : pick) (e : Edge) : result select_error pick :=
  match tm_Tests m !! ed_Test e with
  | None => Err (NoNode (ed_Test e) want)
  | Some n =>
      if negb (String.eqb (nd_Grain n) grain) then Err (WrongGrain (ed_Test e) (nd_Grain n))
      else if negb (edge_selects grain e) then Ok p
      else
        let t := ed_Test e in
        let fresh := negb (bool_decide (t ∈ pk_seen p)) in
        if bool_decide (t ∈ dropEdges) then
          Ok (if fresh then mkPick ({[ t ]} ∪ pk_seen p) (pk_ids p) (pk_edges p) (pk_dropped p + 1) (pk_lines p) else p)
        else
          let p := if fresh then mkPick ({[ t ]} ∪ pk_seen p) (pk_ids p ++ [t]) (pk_edges p + 1) (pk_dropped p) (pk_lines p) else p in
          Ok (if withLines && String.eqb grain GrainTest && negb (bool_decide (ed_Lines e = []))
              then mkPick (pk_seen p) (pk_ids p) (pk_edges p) (pk_dropped p)
                     (<[t := default [] (pk_lines p !! t) ++ ed_Lines e]> (pk_lines p))
              else p)
  end.

Fixpoint pick_edges (m : Map) (grain want : string) (withLines : bool) (dropEdges : gset string)
    (p : pick) (es : list Edge) : result select_error pick :=
  match es with
  | [] => Ok p
  | e :: es' => let! p' := pick_edge m grain want withLines dropEdges p e in
                pick_edges m grain want withLines dropEdges p' es'
  end.

(** Every unreported node joins, unless excluded. *)
Definition pick_unreported (exclude : gset string) (p : pick) (id : string) : pick :=
  if bool_decide (id ∈ pk_seen p) || bool_decide (id ∈ exclude) then p
  else mkPick ({[ id ]} ∪ pk_seen p) (pk_ids p ++ [id]) (pk_edges p) (pk_dropped p) (pk_lines p).

Definition selectedIDs (m : Map) (grain want : string) (withLines : bool) (exclude dropEdges : gset string)
    : result select_error (list string * gmap string (list LineRange)) :=
  let! p := pick_edges m grain want withLines dropEdges (mkPick ∅ [] 0 0 ∅) (EdgesTo m want) in
  let p := foldl (pick_unreported exclude) p (Unreported m) in
  if (0 <? pk_dropped p) && (pk_edges p =? 0) then Err (LeavesAllOut (pk_dropped p) want)
  else Ok (pk_ids p, pk_lines p).

(** ** The commands *)

(** The listed unit nodes a list of units does not name, in id order. *)
Definition unnamed_unit (units : list string) (kv : string * Node) : bool :=
  String.eqb (nd_Grain kv.2) GrainUnit && negb (bool_decide (kv.1 ∈ units)).
Definition listed_unnamed (m : Map) (units : list string) : list string :=
  sort_strings (map fst (List.filter (unnamed_unit units) (map_to_list (tm_Tests m)))).

Definition corunsUnnamed (m : Map) (r : Runner) (units : list string) : option string :=
  match rn_UnitsCoruns r with
  | None => None
  | Some coruns => List.find (coruns units) (listed_unnamed m units)
  end.

(** unitsCmd's loop: a unit the run would also collect joins by name, until none
    is left. Each turn names one more listed unit, so the fuel [unitsCmd] gives, one
    more than the listed units, never runs out ([close_units_enough]). *)
Fixpoint close_units (fuel : nat) (m : Map) (r : Runner) (closed : bool) (exclude : gset string)
    (units : list string) : result select_error (list string) :=
  match fuel with
  | O => Err OutOfFuel
  | S fuel =>
      match corunsUnnamed m r units with
      | None => Ok units
      | Some other =>
          if negb closed then Err (CorunsUnnamed other)
          else if bool_decide (other ∈ exclude) then Err (CorunsLeftOut other)
          else close_units fuel m r closed exclude (sort_strings (units ++ [other]))
      end
  end.

Definition unitsCmd (m : Map) (r : Runner) (argv : gocmd) (units : list string) (closed : bool)
    (exclude : gset string) : result select_error (gocmd * list string) :=
  let! units := close_units (S (size (tm_Tests m))) m r closed exclude units in
  let n := argvLen units in
  if MaxCommandBytes <? n then Err (TooLong (Z.of_nat (length units)) n)
  else match rn_UnitsCmd r with
       | None => Err (NoUnitsCmd (rn_ID r))
       | Some f => match f argv units with
                   | Some cmd => Ok (cmd, units)
                   | None => Err (RunnerRefuses (Z.of_nat (length units)))
                   end
       end.

(** A Go set's keys, sorted. *)
Definition sortedKeys (set : gset string) : list string := sort_strings (elements set).

Definition node_unit (m : Map) (id : string) : string :=
  match tm_Tests m !! id with Some n => nd_Unit n | None => "" end.

Fixpoint units_of_nodes (m : Map) (set : gset string) (ids : list string) : result select_error (gset string) :=
  match ids with
  | [] => Ok set
  | id :: ids' =>
      if String.eqb (node_unit m id) "" then Err (NoUnitToWiden id)
      else units_of_nodes m ({[ node_unit m id ]} ∪ set) ids'
  end.
Definition widenByNode (m : Map) (ids : list string) : result select_error (list string) :=
  let! set := units_of_nodes m ∅ ids in Ok (sortedKeys set).

Definition is_unreported (m : Map) (id : string) : bool :=
  match tm_Tests m !! id with Some n => negb (String.eqb (nd_Err n) "") | None => false end.

(** ** Select *)

(** The tail of selectWithout at test grain: over the cap, the tests give way to
    their units and the line evidence goes with them. *)
Definition tests_selection (m : Map) (r : Runner) (sel : Selection) (ids : list string)
    : result select_error Selection :=
  let always := List.filter (is_unreported m) ids in
  let! narrowed :=
    (if MaxArgv <? argvLen ids then
       let! units := widenByNode m ids in
       if MaxCommandBytes <? argvLen units then Err (TooLong (Z.of_nat (length units)) (argvLen units))
       else Ok (units, None, [], [])
     else Ok (ids, sl_Lines sel, sl_Static sel, always)) in
  let '(ids, ls, static, always) := narrowed in
  match rn_TestsCmd r with
  | None => Err (NoTestsCmd (rn_ID r))
  | Some f =>
      match f (sl_Base sel) ids with
      | None => Err (RunnerRefuses (Z.of_nat (length ids)))
      | Some cmd => Ok (mkSelection (sl_Base sel) cmd ids (sl_Method sel) (sl_Of sel) "" ls static always [] ∅)
      end
  end.

Definition selectWithout (m : Map) (r : Runner) (testCmd : gocmd) (repoRoot codePath testPath : string)
    (exclude : gset string) (evidence : bool) : result select_error Selection :=
  let! grain := grainOf m in
  let! _ := canRun r grain in
  let! _ := (if String.eqb grain GrainUnit then someUnitReported m else Ok ()) in
  match tm_Sources m !! codePath with
  | None =>
      if negb (has (tm_Sources m !! testPath)) || String.eqb testPath "" then Err (NeverSaw codePath testPath)
      else Err (NotMeasured (Z.of_nat (size (tm_Sources m))) codePath testPath)
  | Some src =>
      let base := match rn_CollectionBase r with Some f => f testCmd repoRoot | None => testCmd end in
      let lined := String.eqb grain GrainTest in
      let! picked := selectedIDs m grain codePath true exclude (if evidence then exclude else ∅) in
      let sel := mkSelection base None [] (tm_Method m) (tm_Of m) ""
                   (if lined then Some picked.2 else None) (if lined then so_Static src else []) [] [] ∅ in
      if bool_decide (picked.1 = []) then Ok sel
      else
        let ids := sort_strings picked.1 in
        if String.eqb grain GrainUnit then
          let! cr := unitsCmd m r base ids true exclude in
          Ok (mkSelection base cr.1 cr.2 (tm_Method m) (tm_Of m) "" (sl_Lines sel) (sl_Static sel) [] [] ∅)
        else tests_selection m r sel ids
  end.

Definition SelectExcluding (m : Map) (r : Runner) (testCmd : gocmd) (repoRoot codePath testPath : string)
    (exclude : gset string) : result select_error Selection :=
  selectWithout m r testCmd repoRoot codePath testPath exclude false.
Definition SelectLeavingOut (m : Map) (r : Runner) (testCmd : gocmd) (repoRoot codePath testPath : string)
    (exclude : gset string) : result select_error Selection :=
  selectWithout m r testCmd repoRoot codePath testPath exclude true.
Definition Select (m : Map) (r : Runner) (testCmd : gocmd) (repoRoot codePath testPath : string)
    : result select_error Selection :=
  SelectExcluding m r testCmd repoRoot codePath testPath ∅.

(** ** The readouts of a map and of a selection *)

Definition uncovered_ids (m : Map) (grain : string) (kv : string * Source) : option (list string) :=
  if negb (so_HasStatements kv.2) || so_HasStatic kv.2 then None
  else match selectedIDs m grain kv.1 false ∅ ∅ with Ok (ids, _) => Some ids | Err _ => None end.
Definition no_ids (m : Map) (grain : string) (kv : string * Source) : bool :=
  match uncovered_ids m grain kv with Some ids => bool_decide (ids = []) | None => false end.
Definition only_unreported (m : Map) (grain : string) (kv : string * Source) : bool :=
  match uncovered_ids m grain kv with
  | Some ids => negb (bool_decide (ids = [])) && (length ids =? length (Unreported m))%nat
  | None => false
  end.

Definition Uncovered (m : Map) : list string * list string :=
  match grainOf m with
  | Err _ => ([], [])
  | Ok grain =>
      (sort_strings (map fst (List.filter (no_ids m grain) (map_to_list (tm_Sources m)))),
       sort_strings (map fst (List.filter (only_unreported m grain) (map_to_list (tm_Sources m)))))
  end.

Definition UnreportedIn (m : Map) (sel : Selection) : Z :=
  Z.of_nat (length (List.filter (is_unreported m) (sl_Tests sel))).

Fixpoint first_reason (m : Map) (ids : list string) : string :=
  match ids with
  | [] => ""
  | id :: ids' => match tm_Tests m !! id with
                  | Some n => if negb (String.eqb (nd_Err n) "") then nd_Err n else first_reason m ids'
                  | None => first_reason m ids'
                  end
  end.
Definition FirstUnreportedReason (m : Map) (sel : Selection) : string := first_reason m (sl_Tests sel).

Definition RanRedIn (m : Map) (sel : Selection) (red : Node → bool) : list string :=
  List.filter (λ id, match tm_Tests m !! id with
                     | Some n => negb (String.eqb (nd_Err n) "") && red n
                     | None => false
                     end) (sl_Tests sel).

(** ** ForSpan: the per-mutant narrowing *)

Definition SpanRuleLines : string := "lines".
Definition SpanRuleStatic : string := "static".
Definition SpanRuleUnreached : string := "unreached".
Definition SpanRuleFile : string := "file".

(** How many of the span's own lines a test executed. *)
Definition reach_step (span : LineRange) (n : Z) (r : LineRange) : Z :=
  let lo := Z.max (lr_Start r) (lr_Start span) in
  let hi := Z.min (lr_End r) (lr_End span) in
  if lo <=? hi then w64 (n + (hi - lo + 1)) else n.
Definition reach (sel : Selection) (span : LineRange) (id : string) : Z :=
  foldl (reach_step span) 0 (lines_of sel id).
Definition span_less (sel : Selection) (span : LineRange) (i j : string) : bool :=
  if reach sel span i =? reach sel span j then str_ltb i j
  else reach sel span j <? reach sel span i.
Definition sortBySpanCoverage (ids : list string) (sel : Selection) (span : LineRange) : list string :=
  sort_stable (span_less sel span) ids.

Definition reaches (sel : Selection) (span : LineRange) (id : string) : bool :=
  existsb (λ rg, Overlaps rg span) (lines_of sel id).
Definition add_always (ids : list string) (id : string) : list string :=
  if bool_decide (id ∈ ids) then ids else ids ++ [id].

(** The ids ForSpan would run, before the cap. *)
Definition span_ids (sel : Selection) (span : LineRange) : list string :=
  foldl add_always (sortBySpanCoverage (List.filter (reaches sel span) (sl_Tests sel)) sel span) (sl_Always sel).

Definition file_selection (sel : Selection) (rule : string) : gocmd * list string * string :=
  (Some (words (sl_Cmd sel)), sl_Tests sel, rule).

(** The prefix the narrowed ids are appended to. *)
Definition span_base (sel : Selection) : option gocmd :=
  match sl_Base sel with
  | Some b => Some (Some b)
  | None => let cmd := words (sl_Cmd sel) in
            if (length cmd <? length (sl_Tests sel))%nat then None
            else Some (Some (take (length cmd - length (sl_Tests sel)) cmd))
  end.

(** Over the cap the units take the tests' place; None: the row cannot name one. *)
Definition span_capped (r : Runner) (ids : list string) : option (list string) :=
  if MaxArgv <? argvLen ids then
    match rn_TestUnit r with
    | None => None
    | Some unit => Some (sortedKeys (list_to_set (map unit ids)))
    end
  else Some ids.

Definition ForSpan (sel : Selection) (r : Runner) (span : LineRange) : gocmd * list string * string :=
  if IsZero span || negb (NarrowableByLine sel) then file_selection sel SpanRuleFile
  else if existsb (λ s, Overlaps s span) (sl_Static sel) then file_selection sel SpanRuleStatic
  else if bool_decide (List.filter (reaches sel span) (sl_Tests sel) = []) then file_selection sel SpanRuleUnreached
  else
    match span_capped r (span_ids sel span), span_base sel, rn_TestsCmd r with
    | Some ids, Some base, Some f =>
        match f base ids with
        | Some out => (out, ids, SpanRuleLines)
        | None => file_selection sel SpanRuleFile
        end
    | _, _, _ => file_selection sel SpanRuleFile
    end.

(** ** AuthoredTestCmd *)

Definition go_append (c : gocmd) (xs : list string) : gocmd :=
  match xs with [] => c | _ => Some (words c ++ xs) end.

Definition AuthoredTestCmd (m : Map) (sel : Selection) (r : Runner) (testCmd : gocmd)
    (repoRoot authoredTestPath : string) : result select_error gocmd :=
  let! grain := grainOf m in
  let! _ := canRun r grain in
  if String.eqb grain GrainUnit then
    match rn_UnitForFile r with
    | None => Err (NoUnitForFile authoredTestPath)
    | Some f =>
        match f repoRoot authoredTestPath with
        | None => Err (NoUnitHolds authoredTestPath)
        | Some u =>
            let units := if bool_decide (u ∈ sl_Tests sel) then sl_Tests sel else sl_Tests sel ++ [u] in
            let! cr := unitsCmd m r testCmd (sort_strings units) false ∅ in
            Ok cr.1
        end
    end
  else
    let base := match sl_Tests sel with
                | [] => match sl_Base sel with Some b => Some b | None => testCmd end
                | _ => sl_Cmd sel
                end in
    match rn_TestsCmd r with
    | None => Err (NoTestsCmd (rn_ID r))
    | Some f =>
        match f base [authoredTestPath] with
        | None => Err (CannotAdd authoredTestPath)
        | Some out => Ok (match rn_CarryArgs r with Some carry => go_append out (carry testCmd) | None => out end)
        end
    end.

Definition WithAuthoredTest (m : Map) (sel : Selection) (r : Runner) (testCmd : gocmd)
    (repoRoot authoredTestPath : string) : gocmd * bool :=
  match AuthoredTestCmd m sel r testCmd repoRoot authoredTestPath with
  | Ok cmd => (cmd, true)
  | Err _ => (None, false)
  end.
