(* ===== verification/SelectFacts.v ===== *)
(** * The selection engine is right: internal/testmap/select.go

    What [selectedIDs] picks is exactly what the evidence says and the exclusions
    leave ([selectedIDs_spec]); a unit command is closed and its loop ends
    ([close_units_spec], [close_units_enough]). From them the engine's promises. *)
From S2P Require Import Prelude GoLib TestMap Select.
Local Open Scope string_scope.
Local Open Scope list_scope.
Local Open Scope Z_scope.
Local Open Scope corral_scope.

(** ** What the evidence says *)

(** An edge of the map selects the node for the file. *)
Definition selected (m : Map) (grain want t : string) : Prop :=
  Exists (λ e, edge_selects grain e = true ∧ ed_Test e = t) (EdgesTo m want).
Definition unreported (m : Map) (t : string) : Prop := t ∈ Unreported m.

#[export] Instance selected_dec m grain want t : Decision (selected m grain want t).
Proof. apply Exists_dec. intros e. apply _. Defined.

(** The invariant of selectedIDs' loop. *)
Record picked_ok (drop : gset string) (p : pick) : Prop := {
  pk_nodup : NoDup (pk_ids p);
  pk_ids_seen t : t ∈ pk_ids p ↔ t ∈ pk_seen p ∧ t ∉ drop;
  pk_edges_ids : pk_edges p = Z.of_nat (length (pk_ids p));
  pk_dropped_pos : 0 <= pk_dropped p;
  pk_dropped_seen : 0 < pk_dropped p ↔ ∃ t, t ∈ pk_seen p ∧ t ∈ drop }.

Definition edge_ok (m : Map) (grain : string) (e : Edge) : Prop :=
  ∃ n, tm_Tests m !! ed_Test e = Some n ∧ nd_Grain n = grain.

Lemma pick_edge_spec m grain want wl drop p e p' :
  pick_edge m grain want wl drop p e = Ok p' → picked_ok drop p →
  picked_ok drop p' ∧ edge_ok m grain e ∧
  pk_seen p' = (if edge_selects grain e then {[ ed_Test e ]} ∪ pk_seen p else pk_seen p).
Proof.
  unfold pick_edge. destruct (tm_Tests m !! ed_Test e) as [n|] eqn:En; [|done].
  destruct (negb (String.eqb (nd_Grain n) grain)) eqn:Eg; [done|]. bools.
  assert (edge_ok m grain e) as Hok by (by exists n).
  destruct (edge_selects grain e); cbn [negb]; [|by intros [= <-]].
  intros E Hp. destruct (decide (ed_Test e ∈ pk_seen p)) as [Hs|Hs].
  - rewrite (bool_decide_true (ed_Test e ∈ pk_seen p)) in E by done. cbn [negb] in E.
    assert (pk_seen p = {[ed_Test e]} ∪ pk_seen p) as Hse by set_solver.
    case_bool_decide; [by injection E as <-|].
    destruct (_ && _ && _); injection E as <-; [|done]. destruct Hp. by split_and!.
  - rewrite (bool_decide_false (ed_Test e ∈ pk_seen p)) in E by done. cbn [negb] in E.
    destruct Hp as [Hnd Hids He Hd0 Hd]. case_bool_decide as Hdrop.
    + injection E as <-. split_and!; [split; cbn [pk_ids pk_seen pk_edges pk_dropped]| |]; try done; try lia.
      * intros t. rewrite Hids. set_solver.
      * split; [|lia]. intros _. exists (ed_Test e). set_solver.
    + assert (picked_ok drop (mkPick ({[ed_Test e]} ∪ pk_seen p) (pk_ids p ++ [ed_Test e]) (pk_edges p + 1)
                                (pk_dropped p) (pk_lines p))) as Hp.
      { split; cbn [pk_ids pk_seen pk_edges pk_dropped]; try done.
        - apply NoDup_app. split_and!; [done| |by apply NoDup_singleton].
          intros t Hin ->%list_elem_of_singleton. apply Hids in Hin. naive_solver.
        - intros t. rewrite elem_of_app, list_elem_of_singleton, Hids. set_solver.
        - rewrite length_app. cbn. lia.
        - rewrite Hd. set_solver. }
      destruct (_ && _ && _); injection E as <-; [|done]. destruct Hp. by split_and!.
Qed.

Lemma pick_edges_spec m grain want wl drop es p p' :
  pick_edges m grain want wl drop p es = Ok p' → picked_ok drop p →
  picked_ok drop p' ∧ Forall (edge_ok m grain) es ∧
  ∀ t, t ∈ pk_seen p' ↔ t ∈ pk_seen p ∨ Exists (λ e, edge_selects grain e = true ∧ ed_Test e = t) es.
Proof.
  revert p. induction es as [|e es IH]; intros p; cbn [pick_edges].
  - intros [= <-] ?. split_and!; [done..|]. intros t. rewrite Exists_nil. naive_solver.
  - intros (p1 & E1 & E)%rbind_Ok Hp. destruct (pick_edge_spec _ _ _ _ _ _ _ _ E1 Hp) as (Hp1 & Hok & Hs).
    destruct (IH _ E Hp1) as (? & ? & Hall). split_and!; [done | by constructor |].
    intros t. rewrite Hall, Exists_cons, Hs. destruct (edge_selects grain e); set_solver.
Qed.

(** The unreported nodes that join. *)
Definition joined (exclude : gset string) (us : list string) (p p' : pick) : Prop :=
  NoDup (pk_ids p') ∧ (∀ t, t ∈ pk_ids p' → t ∈ pk_seen p') ∧
  pk_dropped p' = pk_dropped p ∧ pk_edges p' = pk_edges p ∧
  (∀ t, t ∈ pk_seen p' ↔ t ∈ pk_seen p ∨ (t ∈ us ∧ t ∉ exclude)) ∧
  ∀ t, t ∈ pk_ids p' ↔ t ∈ pk_ids p ∨ (t ∉ pk_seen p ∧ t ∈ us ∧ t ∉ exclude).

Lemma pick_unreported_one exclude p u : NoDup (pk_ids p) → (∀ t, t ∈ pk_ids p → t ∈ pk_seen p) →
  joined exclude [u] p (pick_unreported exclude p u).
Proof.
  intros Hnd Hs. unfold pick_unreported, joined.
  destruct (decide (u ∈ pk_seen p ∨ u ∈ exclude)) as [Hu|Hu].
  - rewrite (proj2 (orb_true_iff _ _)); [|by rewrite !bool_decide_eq_true].
    split_and!; [done..| |]; intros t; rewrite list_elem_of_singleton; naive_solver.
  - rewrite !bool_decide_false by naive_solver. cbn [orb pk_ids pk_seen pk_dropped pk_edges]. split_and!; [| |done..| |].
    + apply NoDup_app. split_and!; [done| |by apply NoDup_singleton].
      intros t Hin ->%list_elem_of_singleton. naive_solver.
    + intros t [?|?%list_elem_of_singleton]%elem_of_app; set_solver.
    + intros t. rewrite elem_of_union, elem_of_singleton, list_elem_of_singleton. naive_solver.
    + intros t. rewrite elem_of_app, list_elem_of_singleton. naive_solver.
Qed.

Lemma pick_unreported_spec exclude us p : NoDup (pk_ids p) → (∀ t, t ∈ pk_ids p → t ∈ pk_seen p) →
  joined exclude us p (foldl (pick_unreported exclude) p us).
Proof.
  revert p. induction us as [|u us IH]; intros p Hnd Hs; cbn [foldl].
  - unfold joined. split_and!; [done..| |]; intros t; rewrite elem_of_nil; naive_solver.
  - destruct (pick_unreported_one exclude p u Hnd Hs) as (Hnd1 & Hs1 & Hd1 & He1 & Hse1 & Hi1).
    destruct (IH _ Hnd1 Hs1) as (? & ? & Hd & He & Hse & Hi). unfold joined.
    rewrite Hd, He. split_and!; [done..| |]; intros t.
    + rewrite Hse, Hse1, list_elem_of_singleton, elem_of_cons. clear. tauto.
    + rewrite Hi, Hi1, Hse1, !list_elem_of_singleton, elem_of_cons.
      clear. destruct (decide (t ∈ pk_seen p)), (decide (t = u)); tauto.
Qed.

Lemma empty_pick_ok drop : picked_ok drop (mkPick ∅ [] 0 0 ∅).
Proof.
  split; cbn [pk_ids pk_seen pk_edges pk_dropped]; [constructor | | done | done |].
  - intros t. split; [by intros ?%not_elem_of_nil | set_solver].
  - split; [lia | set_solver].
Qed.

(** A success of [selectedIDs] is exactly the nodes an edge selects and no drop
    removes, and the unreported ones no exclusion removes, each once. *)
Lemma selectedIDs_spec m grain want wl exclude drop ids ls :
  selectedIDs m grain want wl exclude drop = Ok (ids, ls) →
  NoDup ids ∧ Forall (edge_ok m grain) (EdgesTo m want) ∧
  (∀ t, t ∈ ids ↔ (selected m grain want t ∧ t ∉ drop) ∨
                  (¬ selected m grain want t ∧ unreported m t ∧ t ∉ exclude)) ∧
  ((∃ t, selected m grain want t ∧ t ∈ drop) → ∃ t, selected m grain want t ∧ t ∉ drop).
Proof.
  unfold selectedIDs. intros (p & Ep & E)%rbind_Ok.
  destruct (pick_edges_spec _ _ _ _ _ _ _ _ Ep (empty_pick_ok drop)) as ([Hnd Hids He Hd0 Hd] & Hok & Hs).
  assert (∀ t, t ∈ pk_seen p ↔ selected m grain want t) as Hsel.
  { intros t. rewrite Hs. cbn [pk_seen]. unfold selected. set_solver. }
  destruct (pick_unreported_spec exclude (Unreported m) p Hnd) as (Hnd' & _ & Hd' & He' & _ & Hall).
  { intros t Hin. by apply Hids in Hin as []. }
  cbn zeta in E. destruct (_ && _) eqn:Eb; [done|]. injection E as <- <-. split_and!; [done..| |].
  - intros t. rewrite Hall, Hids, !Hsel. unfold unreported. naive_solver.
  - intros (t & Ht & Htd). rewrite He', Hd', He in Eb.
    assert (0 < pk_dropped p) as Hpos by (apply Hd; exists t; by rewrite Hsel).
    destruct (pk_ids p) as [|i rest] eqn:Ei; [cbn in Eb; lia|].
    exists i. rewrite <- Hsel. apply Hids. left.
Qed.

(** A map whose edges have nodes of the grain always answers, when nothing is left
    out. *)
Lemma pick_edges_total m grain want wl drop es p : Forall (edge_ok m grain) es →
  ∃ p', pick_edges m grain want wl drop p es = Ok p'.
Proof.
  intros Hok. revert p. induction Hok as [|e es (n & Hn & Hg) _ IH]; intros p; cbn [pick_edges]; [by eauto|].
  unfold pick_edge. rewrite Hn, Hg, String.eqb_refl. cbn [negb].
  destruct (negb (edge_selects grain e)); [cbn [rbind]; apply IH|].
  destruct (bool_decide (ed_Test e ∈ drop)); cbn [rbind]; apply IH.
Qed.

Lemma selectedIDs_total m grain want wl exclude : Forall (edge_ok m grain) (EdgesTo m want) →
  ∃ ids ls, selectedIDs m grain want wl exclude ∅ = Ok (ids, ls).
Proof.
  intros Hok. unfold selectedIDs. destruct (pick_edges_total m grain want wl ∅ _ (mkPick ∅ [] 0 0 ∅) Hok) as (p & Ep).
  rewrite Ep. cbn [rbind]. destruct (pick_edges_spec _ _ _ _ _ _ _ _ Ep (empty_pick_ok ∅)) as ([Hnd Hids _ Hd0 Hd] & _ & _).
  destruct (pick_unreported_spec exclude (Unreported m) p Hnd) as (_ & _ & -> & _); [by intros t [? _]%Hids|].
  destruct (0 <? pk_dropped p) eqn:E; [|cbn [andb]; by eauto].
  destruct (proj1 Hd) as (t & _ & Ht); [lia|]. set_solver.
Qed.

(** ** unitsCmd *)

Definition listed_unit (m : Map) (u : string) : Prop :=
  ∃ n, tm_Tests m !! u = Some n ∧ nd_Grain n = GrainUnit.

Lemma elem_of_listed_unnamed m units u : u ∈ listed_unnamed m units ↔ listed_unit m u ∧ u ∉ units.
Proof.
  unfold listed_unnamed, listed_unit, sort_strings. rewrite sort_stable_elem_of, list_elem_of_fmap. split.
  - intros ([i n] & -> & (Hin & Hu)%list_elem_of_In%filter_In). unfold unnamed_unit in Hu. bools.
    apply list_elem_of_In, elem_of_map_to_list in Hin. cbn in *. naive_solver.
  - intros ((n & Hn & Hg) & Hu). exists (u, n). split; [done|]. apply list_elem_of_In, filter_In. split.
    + by apply list_elem_of_In, elem_of_map_to_list.
    + unfold unnamed_unit. cbn [fst snd]. by rewrite Hg, bool_decide_false.
Qed.

Definition would_corun (r : Runner) (units : list string) (u : string) : Prop :=
  ∃ f, rn_UnitsCoruns r = Some f ∧ f units u = true.

Lemma corunsUnnamed_Some m r units u : corunsUnnamed m r units = Some u →
  listed_unit m u ∧ u ∉ units ∧ would_corun r units u.
Proof.
  unfold corunsUnnamed, would_corun. destruct (rn_UnitsCoruns r) as [f|]; [|done].
  intros (Hin & Hf)%find_some. apply list_elem_of_In, elem_of_listed_unnamed in Hin as [??]. by eauto.
Qed.

Lemma corunsUnnamed_None m r units : corunsUnnamed m r units = None ↔
  ∀ u, listed_unit m u → u ∉ units → ¬ would_corun r units u.
Proof.
  unfold corunsUnnamed, would_corun. destruct (rn_UnitsCoruns r) as [f|]; [|naive_solver]. split.
  - intros Hf u Hl Hu (f' & [= <-] & E). by rewrite (find_none _ _ Hf u) in E by (by apply list_elem_of_In, elem_of_listed_unnamed).
  - intros Hall. destruct (List.find (f units) _) as [u|] eqn:E; [|done].
    apply find_some in E as (Hin & Hf). apply list_elem_of_In, elem_of_listed_unnamed in Hin as [Hl Hu].
    destruct (Hall u Hl Hu). by eauto.
Qed.

(** How the closure grew: each unit added is a listed one, not excluded, that a run
    of units already in would have collected. *)
Inductive grown (m : Map) (r : Runner) (exclude : gset string) (units : list string) : list string → Prop :=
| grown_refl : grown m r exclude units units
| grown_add units1 u : grown m r exclude units units1 → listed_unit m u → u ∉ units1 → u ∉ exclude →
    would_corun r units1 u → grown m r exclude units (sort_strings (units1 ++ [u])).

Lemma grown_trans m r exclude u0 u1 u2 :
  grown m r exclude u0 u1 → grown m r exclude u1 u2 → grown m r exclude u0 u2.
Proof. intros H1. induction 1; [done | by constructor]. Qed.

Lemma grown_incl m r exclude units units' u : grown m r exclude units units' → u ∈ units → u ∈ units'.
Proof.
  induction 1 as [|u1 v _ IH]; [done|]. intros Hu. unfold sort_strings. rewrite sort_stable_elem_of, elem_of_app. auto.
Qed.

Lemma grown_NoDup m r exclude units units' : grown m r exclude units units' → NoDup units → NoDup units'.
Proof.
  induction 1 as [|u1 v _ IH _ Hv]; [done|]. intros Hu. unfold sort_strings. rewrite sort_stable_perm.
  apply NoDup_app. split_and!; [by apply IH| |by apply NoDup_singleton]. by intros t Ht ->%list_elem_of_singleton.
Qed.

Lemma close_units_spec fuel m r closed exclude units ran :
  close_units fuel m r closed exclude units = Ok ran →
  grown m r exclude units ran ∧ corunsUnnamed m r ran = None ∧ (closed = false → ran = units).
Proof.
  revert units. induction fuel as [|fuel IH]; intros units; cbn [close_units]; [done|].
  destruct (corunsUnnamed m r units) as [u|] eqn:Ec; [|intros [= <-]; by repeat constructor].
  destruct closed; cbn [negb]; [|done]. case_bool_decide as Hx; [done|].
  intros (Hg & ? & _)%IH. apply corunsUnnamed_Some in Ec as (? & ? & ?). split_and!; [|done..].
  eapply grown_trans; [|exact Hg]. by repeat constructor.
Qed.

(** The listed units not yet named: the loop's measure. *)
Definition unnamed_left (m : Map) (units : list string) : nat := length (listed_unnamed m units).

Lemma unnamed_left_add m units u : listed_unit m u → u ∉ units →
  (unnamed_left m (sort_strings (units ++ [u])) < unnamed_left m units)%nat.
Proof.
  intros Hl Hu. unfold unnamed_left, listed_unnamed, sort_strings. rewrite !length_sort_stable, !length_map.
  destruct Hl as (n & Hn & Hg). apply (length_filter_lt _ _ _ (u, n)); unfold unnamed_unit; cbn [fst snd].
  - intros kv Hk. bools. rewrite bool_decide_false; [apply andb_true_iff; split; [by apply String.eqb_eq|done]|].
    intros Hin. match goal with Hx : _ ∉ _ |- _ => apply Hx end. rewrite sort_stable_elem_of, elem_of_app. auto.
  - by apply elem_of_map_to_list.
  - rewrite bool_decide_true; [by rewrite andb_false_r|]. rewrite sort_stable_elem_of, elem_of_app, list_elem_of_singleton. auto.
  - by rewrite Hg, bool_decide_false.
Qed.

Lemma close_units_enough fuel m r closed exclude units :
  (unnamed_left m units < fuel)%nat → close_units fuel m r closed exclude units ≠ Err OutOfFuel.
Proof.
  revert units. induction fuel as [|fuel IH]; intros units; [lia|]. cbn [close_units]. intros Hf.
  destruct (corunsUnnamed m r units) as [u|] eqn:Ec; [|done].
  destruct (negb closed); [done|]. case_bool_decide; [done|]. apply IH.
  apply corunsUnnamed_Some in Ec as (Hl & Hu & _). pose proof (unnamed_left_add m units u Hl Hu). lia.
Qed.

Lemma unnamed_left_le m units : (unnamed_left m units <= size (tm_Tests m))%nat.
Proof.
  unfold unnamed_left, listed_unnamed, sort_strings. rewrite length_sort_stable, length_map.
  rewrite <- length_map_to_list. apply filter_length_le.
Qed.

(** ** Widening *)

Lemma units_of_nodes_spec m set ids set' : units_of_nodes m set ids = Ok set' →
  (∀ t, t ∈ ids → node_unit m t ≠ "") ∧
  ∀ u, u ∈ set' ↔ u ∈ set ∨ ∃ t, t ∈ ids ∧ node_unit m t = u.
Proof.
  revert set. induction ids as [|i ids IH]; intros set; cbn [units_of_nodes].
  - intros [= <-]. split; [by intros t ?%not_elem_of_nil|]. intros u. split; [by left|].
    intros [?|(t & Ht & _)]; [done|]. by apply not_elem_of_nil in Ht.
  - destruct (String.eqb (node_unit m i) "") eqn:Ei; [done|]. bools. intros (Hne & Hin)%IH. split.
    + intros t [->|?]%elem_of_cons; [done | by apply Hne].
    + intros u. rewrite Hin, elem_of_union, elem_of_singleton. setoid_rewrite elem_of_cons. naive_solver.
Qed.

Lemma widenByNode_spec m ids units : widenByNode m ids = Ok units →
  (∀ u, u ∈ units ↔ ∃ t, t ∈ ids ∧ node_unit m t = u) ∧ NoDup units ∧ (∀ u, u ∈ units → u ≠ "").
Proof.
  unfold widenByNode. intros (set & Hs & [= <-])%rbind_Ok.
  apply units_of_nodes_spec in Hs as [Hne Hs]. unfold sortedKeys, sort_strings.
  assert (∀ u, u ∈ sort_stable str_ltb (elements set) ↔ ∃ t, t ∈ ids ∧ node_unit m t = u) as Hu.
  { intros u. rewrite sort_stable_elem_of, elem_of_elements, Hs. set_solver. }
  split_and!; [done | |].
  - rewrite sort_stable_perm. apply NoDup_elements.
  - intros u (t & Ht & <-)%Hu. by apply Hne.
Qed.

(** ** What a selection runs *)

(** The nodes a selection is about: those an edge selects (unless left out by
    evidence), and the unreported ones not excluded. *)
Definition chosen (m : Map) (grain code : string) (exclude : gset string) (evidence : bool) (t : string) : Prop :=
  (selected m grain code t ∧ (evidence = true → t ∉ exclude)) ∨
  (¬ selected m grain code t ∧ unreported m t ∧ t ∉ exclude).

(** How the chosen nodes are run. *)
Inductive runs (m : Map) (r : Runner) (exclude : gset string) (grain : string) (ids : list string)
    (sel : Selection) : Prop :=
| runs_none : ids = [] → sl_Tests sel = [] → sl_Cmd sel = None → runs m r exclude grain ids sel
| runs_units f : ids ≠ [] → grain = GrainUnit →
    grown m r exclude (sort_strings ids) (sl_Tests sel) → corunsUnnamed m r (sl_Tests sel) = None →
    argvLen (sl_Tests sel) <= MaxCommandBytes →
    rn_UnitsCmd r = Some f → f (sl_Base sel) (sl_Tests sel) = Some (sl_Cmd sel) → runs m r exclude grain ids sel
| runs_tests f : ids ≠ [] → grain = GrainTest → sl_Tests sel = sort_strings ids →
    argvLen (sl_Tests sel) <= MaxArgv → is_Some (sl_Lines sel) →
    sl_Always sel = List.filter (is_unreported m) (sl_Tests sel) →
    rn_TestsCmd r = Some f → f (sl_Base sel) (sl_Tests sel) = Some (sl_Cmd sel) → runs m r exclude grain ids sel
| runs_widened f : ids ≠ [] → grain = GrainTest → MaxArgv < argvLen (sort_strings ids) →
    (∀ u, u ∈ sl_Tests sel ↔ ∃ t, t ∈ ids ∧ node_unit m t = u) →
    argvLen (sl_Tests sel) <= MaxCommandBytes →
    sl_Lines sel = None → sl_Static sel = [] → sl_Always sel = [] →
    rn_TestsCmd r = Some f → f (sl_Base sel) (sl_Tests sel) = Some (sl_Cmd sel) → runs m r exclude grain ids sel.

Lemma grainOf_cases m grain : grainOf m = Ok grain → grain = GrainTest ∨ grain = GrainUnit.
Proof. unfold grainOf. destruct (String.eqb _ _); [by intros [= <-]; left|]. destruct (String.eqb _ _); [by intros [= <-]; right|done]. Qed.

Lemma unitsCmd_spec m r argv units closed exclude cmd ran :
  unitsCmd m r argv units closed exclude = Ok (cmd, ran) →
  grown m r exclude units ran ∧ corunsUnnamed m r ran = None ∧ (closed = false → ran = units) ∧
  argvLen ran <= MaxCommandBytes ∧ ∃ f, rn_UnitsCmd r = Some f ∧ f argv ran = Some cmd.
Proof.
  unfold unitsCmd. intros (us & (Hg & Hc & Hs)%close_units_spec & E)%rbind_Ok. cbn zeta in E.
  destruct (MaxCommandBytes <? argvLen us) eqn:El; [done|].
  destruct (rn_UnitsCmd r) as [f|]; [|done]. destruct (f argv us) as [c|] eqn:Ef; [|done].
  injection E as <- <-. split_and!; [done..|lia|by eauto].
Qed.

Lemma tests_selection_spec m r exclude sel ids sel' : ids ≠ [] → is_Some (sl_Lines sel) →
  tests_selection m r sel (sort_strings ids) = Ok sel' → runs m r exclude GrainTest ids sel'.
Proof.
  intros Hne Hls. unfold tests_selection. intros ([[[us ls] st] al] & Hn & E)%rbind_Ok.
  destruct (rn_TestsCmd r) as [f|] eqn:Er; [|done].
  destruct (f (sl_Base sel) us) as [c|] eqn:Ef; [|done]. injection E as <-.
  destruct (MaxArgv <? argvLen (sort_strings ids)) eqn:El.
  - apply rbind_Ok in Hn as (us' & (Hw & _)%widenByNode_spec & E).
    destruct (MaxCommandBytes <? argvLen us') eqn:Eb; [done|]. injection E as <- <- <- <-.
    apply (runs_widened _ _ _ _ _ _ f); cbn [sl_Tests sl_Lines sl_Static sl_Always sl_Cmd sl_Base]; try done; try lia.
    intros u. rewrite Hw. unfold sort_strings. by setoid_rewrite sort_stable_elem_of.
  - injection Hn as <- <- <- <-.
    apply (runs_tests _ _ _ _ _ _ f); cbn [sl_Tests sl_Lines sl_Static sl_Always sl_Cmd sl_Base]; try done; try lia.
Qed.

(** The command a selection's is made from. *)
Definition collection_base (r : Runner) (testCmd : gocmd) (root : string) : gocmd :=
  match rn_CollectionBase r with Some f => f testCmd root | None => testCmd end.

Lemma tests_selection_base m r sel ids sel' : tests_selection m r sel ids = Ok sel' → sl_Base sel' = sl_Base sel.
Proof.
  unfold tests_selection. intros ([[[us ls] st] al] & _ & E)%rbind_Ok. destruct (rn_TestsCmd r) as [f|]; [|done].
  destruct (f _ us); [|done]. by injection E as <-.
Qed.

(** Every success of the engine is one of the four ways of running exactly the
    chosen nodes. *)
Lemma selectWithout_runs m r testCmd root code test exclude evidence sel grain :
  grainOf m = Ok grain → selectWithout m r testCmd root code test exclude evidence = Ok sel →
  ∃ ids, NoDup ids ∧ (∀ t, t ∈ ids ↔ chosen m grain code exclude evidence t) ∧ runs m r exclude grain ids sel ∧
    sl_Base sel = collection_base r testCmd root.
Proof.
  intros Hg. unfold selectWithout. rewrite Hg. cbn [rbind]. intros (_ & _ & E)%rbind_Ok.
  apply rbind_Ok in E as (_ & _ & E). destruct (tm_Sources m !! code) as [src|]; [|by destruct (_ || _)].
  cbn zeta in E. apply rbind_Ok in E as ([ids ls] & Hp & E).
  destruct (selectedIDs_spec _ _ _ _ _ _ _ _ Hp) as (Hnd & _ & Hids & _). exists ids. split; [done|]. split.
  { intros t. rewrite Hids. unfold chosen. assert (t ∉@{gset string} ∅) by set_solver.
    destruct evidence; naive_solver. }
  cbn [fst snd] in E. case_bool_decide as Hne; [injection E as <-; split; [by apply runs_none|done]|].
  destruct (grainOf_cases _ _ Hg) as [-> | ->]; cbn [String.eqb] in E.
  - split; [eapply tests_selection_spec; [done| |exact E]; by eexists|]. by rewrite (tests_selection_base _ _ _ _ _ E).
  - apply rbind_Ok in E as ([c ran] & (? & ? & _ & ? & f & ? & ?)%unitsCmd_spec & [= <-]).
    split; [by apply (runs_units _ _ _ _ _ _ f)|done].
Qed.

(** ** The engine's promises *)

(** A unit outside the chosen ones that runs beside them. *)
Definition joins (m : Map) (r : Runner) (exclude : gset string) (tests : list string) (u : string) : Prop :=
  listed_unit m u ∧ u ∉ exclude ∧ ∃ us, (∀ v, v ∈ us → v ∈ tests) ∧ u ∉ us ∧ would_corun r us u.

Lemma grown_joins m r exclude units units' u :
  grown m r exclude units units' → u ∈ units' → u ∈ units ∨ joins m r exclude units' u.
Proof.
  induction 1 as [|us v Hg IH Hl Hv Hx Hc]; [by left|].
  assert (∀ w, w ∈ sort_strings (us ++ [v]) ↔ w ∈ us ∨ w = v) as Hin.
  { intros w. unfold sort_strings. by rewrite sort_stable_elem_of, elem_of_app, list_elem_of_singleton. }
  intros [Hu| ->]%Hin.
  - destruct (IH Hu) as [?|(? & ? & us' & Hus & ? & ?)]; [by left|]. right. split_and!; [done..|].
    exists us'. split_and!; [|done..]. intros w ?%Hus. apply Hin. by left.
  - right. split_and!; [done..|]. exists us. split_and!; [|done..]. intros w ?. apply Hin. by left.
Qed.

(** The builder of a runner's command from names of a grain. *)
Definition command_builder (r : Runner) (grain : string) : option (gocmd → list string → option gocmd) :=
  if String.eqb grain GrainUnit then rn_UnitsCmd r else rn_TestsCmd r.


(** A unit command runs exactly the units it names. On success no listed unit
    outside the named ones would also be collected; each unit added to the asked-for
    ones is listed, not excluded, and would have been collected; without [closed]
    nothing is added; and the command line fits the jail's one argument. *)
Theorem unitsCmd_closed m r argv units closed exclude cmd ran :
  unitsCmd m r argv units closed exclude = Ok (cmd, ran) →
  (∀ u, listed_unit m u → u ∉ ran → ¬ would_corun r ran u) ∧
  (∀ u, u ∈ units → u ∈ ran) ∧
  (∀ u, u ∈ ran → u ∈ units ∨ joins m r exclude ran u) ∧
  (closed = false → ran = units) ∧ argvLen ran <= MaxCommandBytes ∧
  ∃ f, rn_UnitsCmd r = Some f ∧ f argv ran = Some cmd.
Proof.
  intros (Hg & Hc & ? & ? & ?)%unitsCmd_spec. split_and!; [by apply corunsUnnamed_None|..|done|done|done].
  - intros u. by apply (grown_incl _ _ _ _ _ _ Hg).
  - intros u. by apply grown_joins.
Qed.

(** unitsCmd's closing loop ends on every input: it never runs out of the fuel of
    one turn per node of the map, and one. *)
Theorem unitsCmd_terminates m r argv units closed exclude :
  unitsCmd m r argv units closed exclude ≠ Err OutOfFuel.
Proof.
  unfold unitsCmd. pose proof (close_units_enough (S (size (tm_Tests m))) m r closed exclude units) as Hen.
  pose proof (unnamed_left_le m units). destruct (close_units _ _ _ _ _ _) as [us|e]; cbn [rbind].
  - destruct (_ <? _); [done|]. destruct (rn_UnitsCmd r) as [f|]; [|done]. by destruct (f argv us).
  - intros E. apply Hen; [lia|]. by injection E as ->.
Qed.

(** ** Uncovered *)

Definition executable_unloaded (m : Map) (p : string) : Prop :=
  ∃ s, tm_Sources m !! p = Some s ∧ so_HasStatements s = true ∧ so_HasStatic s = false.

Lemma uncovered_ids_Some m grain p s ids : uncovered_ids m grain (p, s) = Some ids ↔
  so_HasStatements s = true ∧ so_HasStatic s = false ∧ ∃ ls, selectedIDs m grain p false ∅ ∅ = Ok (ids, ls).
Proof.
  unfold uncovered_ids. cbn [fst snd]. destruct (so_HasStatements s), (so_HasStatic s); cbn [negb orb]; try naive_solver.
  destruct (selectedIDs m grain p false ∅ ∅) as [[i l]|e]; naive_solver.
Qed.

Lemma elem_of_readout (P : string * Source → bool) (m : Map) p :
  p ∈ sort_strings (map fst (List.filter P (map_to_list (tm_Sources m)))) ↔
  ∃ s, tm_Sources m !! p = Some s ∧ P (p, s) = true.
Proof.
  unfold sort_strings. rewrite sort_stable_elem_of, list_elem_of_fmap. split.
  - intros ([q s] & -> & (Hin & HP)%list_elem_of_In%filter_In). exists s.
    split; [|done]. by apply list_elem_of_In, elem_of_map_to_list in Hin.
  - intros (s & Hs & HP). exists (p, s). split; [done|]. apply list_elem_of_In, filter_In.
    split; [|done]. by apply list_elem_of_In, elem_of_map_to_list.
Qed.

(** With nothing excluded, a node is chosen when an edge selects it or it is
    unreported. *)
Lemma selectedIDs_all m grain p wl ids ls : selectedIDs m grain p wl ∅ ∅ = Ok (ids, ls) →
  NoDup ids ∧ (∀ t, t ∈ ids ↔ selected m grain p t ∨ unreported m t).
Proof.
  intros (Hnd & _ & Hids & _)%selectedIDs_spec. split; [done|]. intros t. rewrite Hids.
  assert (t ∉@{gset string} ∅) by set_solver. destruct (decide (selected m grain p t)); naive_solver.
Qed.

Lemma only_unreported_ids m grain p wl ids ls : selectedIDs m grain p wl ∅ ∅ = Ok (ids, ls) →
  length ids = length (Unreported m) ↔ ∀ t, selected m grain p t → unreported m t.
Proof.
  intros (Hnd & Hids)%selectedIDs_all. pose proof (NoDup_Unreported m) as Hndu.
  assert (Unreported m ⊆+ ids) as Hsub by (apply NoDup_submseteq; [done|]; intros t ?; apply Hids; by right). split.
  - intros Hl t Ht. assert (Unreported m ≡ₚ ids) as Hp by (apply submseteq_length_Permutation; [done|lia]).
    unfold unreported. rewrite Hp. apply Hids. by left.
  - intros Hall. apply Permutation_length, NoDup_Permutation; [done..|]. intros t. rewrite Hids.
    split; [intros [?|?]; [by apply Hall | done] | by right].
Qed.

(** The readout of a map and grading agree. A file is listed uncovered exactly when
    it has statements, none run at load time, its evidence reads, and Select would choose
    no node for it; it is listed as graded without evidence exactly when some node would
    be chosen and every one an edge selects is itself unreported. *)
Theorem Uncovered_agrees m grain p : grainOf m = Ok grain →
  (p ∈ (Uncovered m).1 ↔
     executable_unloaded m p ∧ is_ok (selectedIDs m grain p false ∅ ∅) = true ∧
     ∀ t, ¬ chosen m grain p ∅ false t) ∧
  (p ∈ (Uncovered m).2 ↔
     executable_unloaded m p ∧ is_ok (selectedIDs m grain p false ∅ ∅) = true ∧
     (∃ t, unreported m t) ∧ ∀ t, selected m grain p t → unreported m t).
Proof.
  intros Hg. unfold Uncovered. rewrite Hg. cbn [fst snd]. rewrite !elem_of_readout.
  unfold executable_unloaded, no_ids, only_unreported.
  assert (∀ t, t ∉@{gset string} ∅) as Hemp by set_solver.
  assert (∀ t, chosen m grain p ∅ false t ↔ selected m grain p t ∨ unreported m t) as Hch.
  { intros t. unfold chosen. specialize (Hemp t). destruct (decide (selected m grain p t)); naive_solver. }
  setoid_rewrite Hch. destruct (selectedIDs m grain p false ∅ ∅) as [[ids ls]|e] eqn:Es; cbn [is_ok].
  - destruct (selectedIDs_all _ _ _ _ _ _ Es) as [_ Hids]. pose proof (only_unreported_ids _ _ _ _ _ _ Es) as Hlen.
    setoid_rewrite <- Hids. split; split.
    + intros (s & Hs & H1). destruct (uncovered_ids m grain (p, s)) as [i|] eqn:Eu; [|done].
      apply uncovered_ids_Some in Eu as (? & ? & ls' & [= <- <-]%(eq_trans (eq_sym Es))). bools. subst ids.
      split_and!; [by eauto|done|by intros t ?%not_elem_of_nil].
    + intros ((s & Hs & H1 & H2) & _ & Hn). exists s. split; [done|].
      rewrite (proj2 (uncovered_ids_Some m grain p s ids)) by eauto. apply bool_decide_eq_true.
      destruct ids as [|t ?]; [done|]. destruct (Hn t). left.
    + intros (s & Hs & H1). destruct (uncovered_ids m grain (p, s)) as [i|] eqn:Eu; [|done].
      apply uncovered_ids_Some in Eu as (? & ? & ls' & [= <- <-]%(eq_trans (eq_sym Es))). bools.
      match goal with Hl : (_ =? _)%nat = true |- _ => apply Nat.eqb_eq in Hl; rename Hl into Hl end.
      split_and!; [by eauto|done| |by apply Hlen].
      destruct (Unreported m) as [|t us] eqn:Eun; [by destruct ids|]. exists t. unfold unreported. rewrite Eun. left.
    + intros ((s & Hs & H1 & H2) & _ & (t & Ht) & Hn). exists s. split; [done|].
      rewrite (proj2 (uncovered_ids_Some m grain p s ids)) by eauto. rewrite (proj2 Hlen Hn), Nat.eqb_refl, andb_true_r.
      apply negb_true_iff, bool_decide_eq_false. intros ->. apply (not_elem_of_nil t). apply Hids. by right.
  - assert (∀ s, uncovered_ids m grain (p, s) = None) as Hnone.
    { intros s. destruct (uncovered_ids m grain (p, s)) eqn:Eu; [|done].
      apply uncovered_ids_Some in Eu as (_ & _ & ls & E2). congruence. }
    setoid_rewrite Hnone. naive_solver.
Qed.
