(* ===== verification/SpanFacts.v ===== *)
(** * The per-mutant narrowing and the authored test: internal/testmap/select.go

    [ForSpan] drops no test whose recorded lines reach the span, and runs the file's
    whole selection in every other case; its order is a function of the set of tests
    ([sortBySpanCoverage_canonical]). [AuthoredTestCmd] runs nothing it does not name. *)
From S2P Require Import Prelude GoLib TestMap Select SelectFacts.
Local Open Scope string_scope.
Local Open Scope list_scope.
Local Open Scope Z_scope.
Local Open Scope corral_scope.

(** ** The order of a narrowed command *)

#[export] Instance span_less_strict sel span : StrictWeak (span_less sel span).
Proof.
  split; intros *; unfold span_less.
  - rewrite (Z.eqb_sym (reach sel span y)). destruct (Z.eqb_spec (reach sel span x) (reach sel span y)).
    + apply (less_asym str_ltb).
    + intros ?%Z.ltb_lt. apply Z.ltb_ge. lia.
  - destruct (Z.eqb_spec (reach sel span y) (reach sel span x)) as [E1|E1];
      destruct (Z.eqb_spec (reach sel span z) (reach sel span y)) as [E2|E2];
      destruct (Z.eqb_spec (reach sel span z) (reach sel span x)) as [E3|E3]; try lia.
    apply (less_cotrans str_ltb).
Qed.

Lemma span_less_total sel span x y :
  span_less sel span x y = false → span_less sel span y x = false → x = y.
Proof.
  unfold span_less. rewrite (Z.eqb_sym (reach sel span y)).
  destruct (Z.eqb_spec (reach sel span x) (reach sel span y)); [apply str_ltb_total | lia].
Qed.

(** A narrowed command is a function of the set it runs: the order tests reached the
    engine in does not show. The tests come out kill-likeliest first, no test before one
    that executed more of the span, nor after one of equal reach and a greater id. *)
Theorem sortBySpanCoverage_canonical sel span ids :
  sortBySpanCoverage ids sel span ≡ₚ ids ∧
  StronglySorted (λ a b, reach sel span b < reach sel span a ∨
                         (reach sel span b = reach sel span a ∧ str_ltb b a = false))
    (sortBySpanCoverage ids sel span) ∧
  ∀ ids', ids' ≡ₚ ids → sortBySpanCoverage ids' sel span = sortBySpanCoverage ids sel span.
Proof.
  unfold sortBySpanCoverage. split_and!.
  - apply sort_stable_perm.
  - pose proof (sort_stable_sorted (span_less sel span) ids) as Hs. unfold sorted in Hs.
    eapply StronglySorted_ind; [constructor| |exact Hs]. intros a l _ Hl Ha. constructor; [done|].
    eapply Forall_impl; [exact Ha|]. intros b Hb. unfold span_less in Hb.
    destruct (Z.eqb_spec (reach sel span b) (reach sel span a)); [by right|]. left. lia.
  - intros ids' Hp. apply (sorted_unique (span_less sel span)); [|apply sort_stable_sorted, _..|].
    + intros x y _ _. apply span_less_total.
    + by rewrite !sort_stable_perm.
Qed.

(** ** ForSpan *)

Lemma elem_of_add_always ids as_ t : t ∈ foldl add_always ids as_ ↔ t ∈ ids ∨ t ∈ as_.
Proof.
  revert ids. induction as_ as [|a as_ IH]; intros ids; cbn [foldl].
  - split; [by left | by intros [?|?%not_elem_of_nil]].
  - rewrite IH. unfold add_always. case_bool_decide; rewrite elem_of_cons; [naive_solver|].
    rewrite elem_of_app, list_elem_of_singleton. naive_solver.
Qed.

(** A test ForSpan must keep: one of the selection whose recorded lines share a line
    with the span, or one no line evidence speaks of. *)
Definition kept (sel : Selection) (span : LineRange) (t : string) : Prop :=
  (t ∈ sl_Tests sel ∧ ∃ rg, rg ∈ lines_of sel t ∧ Overlaps rg span = true) ∨ t ∈ sl_Always sel.

Lemma reaches_true sel span t : reaches sel span t = true ↔ ∃ rg, rg ∈ lines_of sel t ∧ Overlaps rg span = true.
Proof. unfold reaches. rewrite existsb_exists. by setoid_rewrite list_elem_of_In. Qed.

Lemma elem_of_span_ids sel span t : t ∈ span_ids sel span ↔ kept sel span t.
Proof.
  unfold span_ids, sortBySpanCoverage, kept. rewrite elem_of_add_always, sort_stable_elem_of, <- reaches_true.
  by rewrite list_elem_of_In, filter_In, <- list_elem_of_In.
Qed.

Lemma span_capped_spec r ids ids' : span_capped r ids = Some ids' →
  (ids' = ids ∧ argvLen ids <= MaxArgv) ∨
  ∃ unit, rn_TestUnit r = Some unit ∧ MaxArgv < argvLen ids ∧ ∀ u, u ∈ ids' ↔ ∃ t, t ∈ ids ∧ unit t = u.
Proof.
  unfold span_capped. destruct (MaxArgv <? argvLen ids) eqn:El; [|intros [= <-]; left; split; [done|lia]].
  destruct (rn_TestUnit r) as [unit|]; [|done]. intros [= <-]. right. exists unit. split_and!; [done|lia|].
  intros u. unfold sortedKeys, sort_strings. rewrite sort_stable_elem_of, elem_of_elements, elem_of_list_to_set, list_elem_of_fmap.
  naive_solver.
Qed.

(** The file's own selection: what runs whenever the engine does not narrow. *)
Definition whole_file (sel : Selection) (cmd : gocmd) (tests : list string) : Prop :=
  cmd = Some (words (sl_Cmd sel)) ∧ tests = sl_Tests sel.

(** Narrowing a mutant's run loses no test the evidence says could notice it. Either
    the command runs every kept test, and only those — by name, or by their units past the
    cap — and at least one test's lines reach the span; or it is the file's whole selection,
    labelled static only when the span meets an import-time line and unreached only when no
    test's lines meet it. *)
Theorem ForSpan_spec sel r span :
  let '(cmd, tests, rule) := ForSpan sel r span in
  (rule = SpanRuleLines ∧
   (∃ t, t ∈ sl_Tests sel ∧ reaches sel span t = true) ∧
   (∀ s, s ∈ sl_Static sel → Overlaps s span = false) ∧
   ((∀ t, t ∈ tests ↔ kept sel span t) ∨
    ∃ unit, rn_TestUnit r = Some unit ∧ ∀ u, u ∈ tests ↔ ∃ t, kept sel span t ∧ unit t = u) ∧
   ∃ f base, rn_TestsCmd r = Some f ∧ span_base sel = Some base ∧ f base tests = Some cmd) ∨
  (whole_file sel cmd tests ∧
   (rule = SpanRuleFile ∨
    (rule = SpanRuleStatic ∧ ∃ s, s ∈ sl_Static sel ∧ Overlaps s span = true) ∨
    (rule = SpanRuleUnreached ∧ IsZero span = false ∧ NarrowableByLine sel = true ∧
     ∀ t rg, t ∈ sl_Tests sel → rg ∈ lines_of sel t → Overlaps rg span = false))).
Proof.
  assert (whole_file sel (Some (words (sl_Cmd sel))) (sl_Tests sel)) as Hw by done.
  unfold ForSpan, file_selection. destruct (IsZero span || negb (NarrowableByLine sel)) eqn:Ez; [right; by auto|].
  bools. destruct (existsb _ (sl_Static sel)) eqn:Est.
  { right. split; [done|]. right. left. split; [done|].
    apply existsb_exists in Est as (s & ?%list_elem_of_In & ?). by eauto. }
  case_bool_decide as Hf.
  { right. split; [done|]. right. right. split_and!; [done..|]. intros t rg Ht Hrg.
    destruct (Overlaps rg span) eqn:Eo; [|done]. exfalso.
    apply (not_elem_of_nil t). rewrite <- Hf. apply list_elem_of_In, filter_In.
    split; [by apply list_elem_of_In|]. apply reaches_true. by eauto. }
  destruct (span_capped r (span_ids sel span)) as [ids|] eqn:Ec; [|right; by auto].
  destruct (span_base sel) as [base|] eqn:Eb; [|right; by auto].
  destruct (rn_TestsCmd r) as [f|] eqn:Er; [|right; by auto].
  destruct (f base ids) as [out|] eqn:Eo; [|right; by auto]. left. split_and!; [done|..].
  - destruct (List.filter (reaches sel span) (sl_Tests sel)) as [|t l] eqn:El; [done|]. exists t.
    assert (In t (List.filter (reaches sel span) (sl_Tests sel))) as Hin by (rewrite El; by left).
    apply filter_In in Hin as [?%list_elem_of_In ?]. done.
  - intros s Hs. destruct (Overlaps s span) eqn:E; [|done]. rewrite <- not_true_iff_false in Est.
    destruct Est. apply existsb_exists. exists s. by rewrite <- list_elem_of_In.
  - destruct (span_capped_spec _ _ _ Ec) as [[-> _]|(unit & Hu & _ & Hids)].
    + left. intros t. apply elem_of_span_ids.
    + right. exists unit. split; [done|]. intros u. rewrite Hids. by setoid_rewrite elem_of_span_ids.
  - by eauto.
Qed.

(** ** AuthoredTestCmd *)

(** An authored test that is said to prove a survivor killed it alone beside the
    selection: at unit grain its command runs the selected units and the unit the file is
    in, and no other listed unit; at test grain it is the selection's own command, or the
    bare base when nothing was selected, with the authored path added. *)
Theorem AuthoredTestCmd_exact m sel r testCmd root path cmd :
  AuthoredTestCmd m sel r testCmd root path = Ok cmd →
  (∃ locate f u units, grainOf m = Ok GrainUnit ∧ rn_UnitForFile r = Some locate ∧ locate root path = Some u ∧
     rn_UnitsCmd r = Some f ∧ f testCmd units = Some cmd ∧
     (∀ v, v ∈ units ↔ v ∈ sl_Tests sel ∨ v = u) ∧
     ∀ v, listed_unit m v → v ∉ units → ¬ would_corun r units v) ∨
  (∃ f base out, grainOf m = Ok GrainTest ∧ rn_TestsCmd r = Some f ∧ f base [path] = Some out ∧
     base = (if bool_decide (sl_Tests sel = []) then match sl_Base sel with Some b => Some b | None => testCmd end
             else sl_Cmd sel) ∧
     words cmd = words out ++ match rn_CarryArgs r with Some carry => carry testCmd | None => [] end).
Proof.
  unfold AuthoredTestCmd. intros (grain & Hg & (_ & _ & E)%rbind_Ok)%rbind_Ok.
  destruct (grainOf_cases _ _ Hg) as [-> | ->]; cbn [String.eqb] in E.
  - right. destruct (rn_TestsCmd r) as [f|] eqn:Er; [|done].
    set (base := match sl_Tests sel with [] => _ | _ => _ end) in E.
    destruct (f base [path]) as [out|] eqn:Ef; [|done]. injection E as <-.
    exists f, base, out. split_and!; [done..| |].
    + subst base. case_bool_decide as Hb; destruct (sl_Tests sel); done.
    + destruct (rn_CarryArgs r) as [carry|]; [|by rewrite app_nil_r].
      unfold go_append. destruct (carry testCmd); [by rewrite app_nil_r|done].
  - left. destruct (rn_UnitForFile r) as [locate|] eqn:Er; [|done].
    destruct (locate root path) as [u|] eqn:El; [|done].
    apply rbind_Ok in E as ([c ran] & (_ & Hc & Hs & _ & f & Hf & Hcmd)%unitsCmd_spec & [= <-]).
    rewrite (Hs eq_refl) in *. do 4 eexists. split_and!; [done..| |by apply corunsUnnamed_None].
    intros v. unfold sort_strings. rewrite sort_stable_elem_of. case_bool_decide; [naive_solver|].
    by rewrite elem_of_app, list_elem_of_singleton.
Qed.
