(* ===== verification/Evidence.v ===== *)
(** * From an evidence run to a test map: internal/testmap/from_evidence.go,
    internal/reposcan/selection.go, internal/lang/python.go's path alignment

    A Go map ranged over is the list of its entries in the order the range visits
    them. Main results: the map built is well formed, does not depend on that order,
    and selects for a file exactly the passing tests the run saw execute it, and the
    failed ones ([evidence_selects]). Parsing a report is the plugin's: an argument. *)
From S2P Require Import Prelude GoLib GoText TestMap Select SelectFacts.
Local Open Scope string_scope.
Local Open Scope list_scope.
Local Open Scope Z_scope.
Local Open Scope corral_scope.

Record FileEvidence := mkFileEvidence {
  fe_Tests : list (string * list LineRange); fe_Static : list LineRange; fe_HasStatements : bool }.

Record EvidenceDoc := mkEvidenceDoc {
  dc_Of : Z; dc_Files : list (string * FileEvidence); dc_Failed : list string }.

(** ** FromEvidence *)

Record built := mkBuilt {
  bl_Sources : gmap string Source; bl_Tests : gmap string Node; bl_Edges : list Edge }.

Definition lines_count (rngs : list LineRange) : Z :=
  foldl (λ n r, w64 (n + (lr_End r - lr_Start r + 1))) 0 rngs.

Definition add_test (unitOf : string → string) (src : string) (b : built) (tr : string * list LineRange) : built :=
  let id := tr.1 in
  mkBuilt (bl_Sources b)
    (match bl_Tests b !! id with
     | Some _ => bl_Tests b
     | None => <[id := mkNode id GrainTest (unitOf id) [] ""]> (bl_Tests b)
     end)
    (bl_Edges b ++ [mkEdge id src tr.2 (lines_count tr.2) false ""]).

Definition add_file (align : string → option string) (unitOf : string → string) (b : built)
    (pf : string * FileEvidence) : built :=
  match align pf.1 with
  | None => b
  | Some src =>
      let f := pf.2 in
      foldl (add_test unitOf src)
        (mkBuilt (<[src := mkSource (negb (bool_decide (fe_Static f = []))) (fe_HasStatements f) (fe_Static f)]>
                    (bl_Sources b)) (bl_Tests b) (bl_Edges b))
        (fe_Tests f)
  end.

Definition edge_less (a b : Edge) : bool :=
  if String.eqb (ed_Source a) (ed_Source b) then str_ltb (ed_Test a) (ed_Test b)
  else str_ltb (ed_Source a) (ed_Source b).

Definition FromEvidence (doc : EvidenceDoc) (align : string → option string) (unitOf : string → string) : Map :=
  let b := foldl (add_file align unitOf) (mkBuilt ∅ ∅ []) (dc_Files doc) in
  mkMap Schema "" "" [] [] "" MethodCoverageContext (dc_Of doc) (bl_Sources b) (bl_Tests b)
    (sort_stable edge_less (bl_Edges b)) "".

(** ** markFailedTests *)

Definition failedInEvidenceRun : string := "run failed: failed in the instrumented evidence run".

Definition with_evidence (m : Map) (tests : gmap string Node) (edges : list Edge) : Map :=
  mkMap (tm_Schema m) (tm_Lang m) (tm_Runner m) (tm_Command m) (tm_Scope m) (tm_Tree m) (tm_Method m) (tm_Of m)
    (tm_Sources m) tests edges (tm_Note m).

Definition mark_failed (unitOf : string → string) (tests : gmap string Node) (id : string) : gmap string Node :=
  <[id := mkNode id GrainTest (unitOf id) [] failedInEvidenceRun]> tests.

Definition markFailedTests (m : Map) (failed : list string) (unitOf : string → string) : Map :=
  match failed with
  | [] => m
  | _ => with_evidence m (foldl (mark_failed unitOf) (tm_Tests m) failed)
           (List.filter (λ e, negb (bool_decide (ed_Test e ∈ failed))) (tm_Edges m))
  end.

(** ** The paths of a report *)

Definition normalizePyRepoRoot (modulePath : string) : string :=
  if String.eqb modulePath "" then "" else path_clean modulePath.

Definition alignPyPath (path root : string) : option string :=
  if negb (has_prefix "/" path) then Some path
  else if String.eqb root "" then None
  else
    let clean := path_clean path in
    let prefix := if String.eqb root "/" then "/" else root +:+ "/" in
    if negb (has_prefix prefix clean) then None
    else
      let rel := drop_str (String.length prefix) clean in
      if String.eqb rel "" || String.eqb rel ".." || has_prefix "../" rel then None else Some rel.

Definition AlignEvidencePath (path repoRoot : string) : option string :=
  alignPyPath path (normalizePyRepoRoot repoRoot).

(** ** BuildSelectionMap *)

Inductive build_error (E : Type) :=
| NoSelector (lang : string)
| NoRow (lang : string)
| NoTestUnit (lang runner : string)
| BadReport (e : E).
Arguments NoSelector {E} lang.
Arguments NoRow {E} lang.
Arguments NoTestUnit {E} lang runner.
Arguments BadReport {E} e.

(** The plugin: its name, the row that reads a command, its report parser when it
    has one. *)
Record Plugin (E : Type) := mkPlugin {
  pg_Name : string;
  pg_RunnerFor : gocmd → option Runner;
  pg_Evidence : option (bytes → result E EvidenceDoc) }.
Arguments pg_Name {E} _.
Arguments pg_RunnerFor {E} _ _.
Arguments pg_Evidence {E} _.

Definition selectionRow {E} (p : Plugin E) (testCmd : gocmd) : result (build_error E) (Runner * (string → string)) :=
  match pg_RunnerFor p testCmd with
  | None => Err (NoRow (pg_Name p))
  | Some r => match rn_TestUnit r with
              | None => Err (NoTestUnit (pg_Name p) (rn_ID r))
              | Some unit => Ok (r, unit)
              end
  end.

Definition BuildSelectionMap {E} (p : Plugin E) (testCmd : gocmd) (raw : bytes) : result (build_error E) Map :=
  match pg_Evidence p with
  | None => Err (NoSelector (pg_Name p))
  | Some parse =>
      let! (row, unit) := selectionRow p testCmd in
      match parse raw with
      | Err e => Err (BadReport e)
      | Ok doc =>
          let m := FromEvidence doc (λ path, AlignEvidencePath path "") unit in
          let m := mkMap (tm_Schema m) (pg_Name p) (rn_ID row) (words testCmd) (tm_Scope m) (tm_Tree m) (tm_Method m)
                     (tm_Of m) (tm_Sources m) (tm_Tests m) (tm_Edges m) (tm_Note m) in
          Ok (markFailedTests m (dc_Failed doc) unit)
      end
  end.

(** ** What a run recorded *)

Definition source_of (f : FileEvidence) : Source :=
  mkSource (negb (bool_decide (fe_Static f = []))) (fe_HasStatements f) (fe_Static f).
Definition evidence_sources (align : string → option string) (files : list (string * FileEvidence))
    : list (string * Source) :=
  omap (λ pf, src ← align pf.1; Some (src, source_of pf.2)) files.
Definition evidence_edge (src : string) (tr : string * list LineRange) : Edge :=
  mkEdge tr.1 src tr.2 (lines_count tr.2) false "".
Definition file_edges (align : string → option string) (pf : string * FileEvidence) : list Edge :=
  match align pf.1 with None => [] | Some src => map (evidence_edge src) (fe_Tests pf.2) end.
Definition evidence_edges (align : string → option string) (files : list (string * FileEvidence)) : list Edge :=
  flat_map (file_edges align) files.
Definition evidence_node (unitOf : string → string) (id : string) : Node := mkNode id GrainTest (unitOf id) [] "".

Definition node_or (unitOf : string → string) (old : option Node) (id : string) (es : list Edge) : option Node :=
  match old with
  | Some n => Some n
  | None => if bool_decide (id ∈ map ed_Test es) then Some (evidence_node unitOf id) else None
  end.

Lemma add_tests_spec unitOf src b trs :
  let b' := foldl (add_test unitOf src) b trs in
  bl_Sources b' = bl_Sources b ∧ bl_Edges b' = bl_Edges b ++ map (evidence_edge src) trs ∧
  ∀ id, bl_Tests b' !! id = node_or unitOf (bl_Tests b !! id) id (map (evidence_edge src) trs).
Proof.
  cbn zeta. revert b. induction trs as [|tr trs IH]; intros b; cbn [foldl map].
  - split_and!; [done|by rewrite app_nil_r|]. intros id. cbn. by destruct (bl_Tests b !! id).
  - destruct (IH (add_test unitOf src b tr)) as (-> & -> & Hn). split_and!; [done| |].
    + cbn [add_test bl_Edges]. by rewrite <- (assoc_L (++)).
    + intros id. rewrite Hn. unfold add_test, node_or. cbn [bl_Tests map evidence_edge ed_Test].
      destruct (decide (id = tr.1)) as [->|Hne].
      * rewrite (bool_decide_true (tr.1 ∈ tr.1 :: _)) by left.
        destruct (bl_Tests b !! tr.1) as [n|] eqn:En; rewrite ?En, ?lookup_insert_eq; done.
      * replace (bool_decide (id ∈ tr.1 :: map ed_Test (map (evidence_edge src) trs)))
          with (bool_decide (id ∈ map ed_Test (map (evidence_edge src) trs))).
        -- destruct (bl_Tests b !! tr.1); [done|]. by rewrite lookup_insert_ne.
        -- apply bool_decide_ext. rewrite elem_of_cons. naive_solver.
Qed.

Lemma add_files_spec align unitOf b files :
  let b' := foldl (add_file align unitOf) b files in
  bl_Sources b' = foldl (λ m kv, <[kv.1 := kv.2]> m) (bl_Sources b) (evidence_sources align files) ∧
  bl_Edges b' = bl_Edges b ++ evidence_edges align files ∧
  ∀ id, bl_Tests b' !! id = node_or unitOf (bl_Tests b !! id) id (evidence_edges align files).
Proof.
  cbn zeta. revert b. induction files as [|[p f] files IH]; intros b; cbn [foldl].
  - split_and!; [done|by rewrite app_nil_r|]. intros id. cbn. by destruct (bl_Tests b !! id).
  - destruct (IH (add_file align unitOf b (p, f))) as (-> & -> & Hn).
    unfold evidence_sources, evidence_edges, add_file in *. cbn [omap list_omap flat_map fst snd] in *.
    destruct (align p) as [src|] eqn:Ea; cbn [mbind option_bind].
    2: { replace (file_edges align (p, f)) with (@nil Edge) by (unfold file_edges; cbn; by rewrite Ea). by split_and!. }
    replace (file_edges align (p, f)) with (map (evidence_edge src) (fe_Tests f)) by (unfold file_edges; cbn; by rewrite Ea).
    match goal with |- context [foldl (add_test _ _) ?b0 _] => destruct (add_tests_spec unitOf src b0 (fe_Tests f)) as (Hs & He & Ht) end.
    rewrite Hs, He. split_and!; [done|by rewrite <- (assoc_L (++))|].
    intros id. rewrite Hn, Ht. cbn [bl_Tests]. unfold node_or.
    destruct (bl_Tests b !! id); [done|]. rewrite map_app.
    set (here := map ed_Test (map (evidence_edge src) (fe_Tests f))). set (later := map ed_Test (flat_map _ _)).
    rewrite (bool_decide_ext (id ∈ here ++ later) (id ∈ here ∨ id ∈ later)) by apply elem_of_app.
    rewrite bool_decide_or. by destruct (bool_decide (id ∈ here)).
Qed.

Lemma FromEvidence_spec doc align unitOf :
  let m := FromEvidence doc align unitOf in
  tm_Method m = MethodCoverageContext ∧ tm_Of m = dc_Of doc ∧
  tm_Sources m = list_to_map (rev (evidence_sources align (dc_Files doc))) ∧
  tm_Edges m ≡ₚ evidence_edges align (dc_Files doc) ∧
  ∀ id, tm_Tests m !! id = node_or unitOf None id (evidence_edges align (dc_Files doc)).
Proof.
  cbn zeta. unfold FromEvidence. destruct (add_files_spec align unitOf (mkBuilt ∅ ∅ []) (dc_Files doc)) as (Hs & He & Ht).
  cbn [tm_Method tm_Of tm_Sources tm_Edges tm_Tests]. split_and!; [done..| | |].
  - rewrite Hs. cbn [bl_Sources]. generalize (evidence_sources align (dc_Files doc)) as l.
    induction l as [|kv l IH] using rev_ind; [done|]. rewrite foldl_snoc, rev_unit, IH. by destruct kv.
  - by rewrite sort_stable_perm, He.
  - intros id. by rewrite Ht.
Qed.

(** ** The order a range visits entries in *)

#[export] Instance edge_less_strict : StrictWeak edge_less.
Proof.
  split; intros *; unfold edge_less.
  - rewrite (String.eqb_sym (ed_Source y)). destruct (String.eqb (ed_Source x) (ed_Source y)); apply (less_asym str_ltb).
  - destruct (String.eqb_spec (ed_Source y) (ed_Source x)) as [E1|E1];
      destruct (String.eqb_spec (ed_Source z) (ed_Source y)) as [E2|E2];
      destruct (String.eqb_spec (ed_Source z) (ed_Source x)) as [E3|E3]; try congruence.
    + apply (less_cotrans str_ltb).
    + intros Hyx Hzy. exfalso. apply E1, str_ltb_total; [done|]. by rewrite <- E3.
    + apply (less_cotrans str_ltb).
Qed.

(** The same run: the files in any order, each one's tests in any order, and no
    file or test twice, as in the Go maps. *)
Definition same_file (a b : string * FileEvidence) : Prop :=
  a.1 = b.1 ∧ fe_Tests a.2 ≡ₚ fe_Tests b.2 ∧ fe_Static a.2 = fe_Static b.2 ∧ fe_HasStatements a.2 = fe_HasStatements b.2.
Definition same_run (d1 d2 : EvidenceDoc) : Prop :=
  dc_Of d1 = dc_Of d2 ∧ ∃ l, Forall2 same_file (dc_Files d1) l ∧ l ≡ₚ dc_Files d2.
Definition keyed (d : EvidenceDoc) : Prop :=
  NoDup (map fst (dc_Files d)) ∧ Forall (λ pf, NoDup (map fst (fe_Tests pf.2))) (dc_Files d).

(** No two files of the run are one source. *)
Definition apart (align : string → option string) (d : EvidenceDoc) : Prop :=
  ∀ p q s, p ∈ map fst (dc_Files d) → q ∈ map fst (dc_Files d) → align p = Some s → align q = Some s → p = q.

Definition edge_key (e : Edge) : string * string := (ed_Source e, ed_Test e).

Lemma file_edges_same align a b : same_file a b → file_edges align a ≡ₚ file_edges align b.
Proof.
  intros (E & Hp & _ & _). unfold file_edges. rewrite E. destruct (align b.1); [|done]. by rewrite Hp.
Qed.

Lemma evidence_same align fs gs :
  (∃ l, Forall2 same_file fs l ∧ l ≡ₚ gs) →
  evidence_edges align fs ≡ₚ evidence_edges align gs ∧ evidence_sources align fs ≡ₚ evidence_sources align gs.
Proof.
  intros (l & Hs & Hp). unfold evidence_edges, evidence_sources. rewrite <- Hp. clear Hp.
  induction Hs as [|a b fs l Hab _ [IH1 IH2]]; [done|]. cbn [flat_map]. rewrite IH1, (file_edges_same align a b Hab). split; [done|].
  cbn. destruct Hab as (E & _ & H1 & H2). unfold source_of. rewrite E, H1, H2.
  destruct (align b.1); cbn; [by rewrite IH2|done].
Qed.

Lemma evidence_sources_keys align fs s src : (s, src) ∈ evidence_sources align fs →
  ∃ pf, pf ∈ fs ∧ align pf.1 = Some s ∧ src = source_of pf.2.
Proof.
  intros (pf & Hin & E)%list_elem_of_omap. exists pf. destruct (align pf.1); [|done]. cbn in E. naive_solver.
Qed.

Lemma NoDup_evidence_sources align d : keyed d → apart align d → NoDup (map fst (evidence_sources align (dc_Files d))).
Proof.
  unfold keyed, apart. intros [Hn _]. induction (dc_Files d) as [|[p f] fs IH]; intros Ha; [constructor|].
  cbn [map fst] in Hn. apply NoDup_cons in Hn as [Hp Hn].
  assert (NoDup (map fst (evidence_sources align fs))) as IH' by (apply IH; [done|]; intros ?????; apply Ha; by right).
  unfold evidence_sources. cbn. destruct (align p) as [s|] eqn:E; [|done]. cbn. constructor; [|done].
  intros Hin. apply list_elem_of_fmap in Hin as ([s' src] & [= <-] & Hin).
  apply evidence_sources_keys in Hin as ([q g] & Hq & Hal & _). cbn in Hal. apply Hp.
  rewrite (Ha p q s); [|left| |done|done]; [|right]; by apply (list_elem_of_fmap_2 fst _ (q, g)).
Qed.

Lemma evidence_edge_in align fs e : e ∈ evidence_edges align fs ↔
  ∃ pf src tr, pf ∈ fs ∧ align pf.1 = Some src ∧ tr ∈ fe_Tests pf.2 ∧ e = evidence_edge src tr.
Proof.
  unfold evidence_edges, file_edges. rewrite list_elem_of_In, in_flat_map. setoid_rewrite <- list_elem_of_In. split.
  - intros (pf & Hin & He). destruct (align pf.1) as [src|] eqn:Ea; [|by apply not_elem_of_nil in He].
    apply list_elem_of_fmap in He as (tr & -> & Htr). by exists pf, src, tr.
  - intros (pf & src & tr & Hin & Ha & Htr & ->). exists pf. rewrite Ha. split; [done|]. by apply list_elem_of_fmap_2.
Qed.

Lemma NoDup_edge_keys align d : keyed d → apart align d → NoDup (map edge_key (evidence_edges align (dc_Files d))).
Proof.
  unfold keyed, apart. intros [Hn Ht]. induction (dc_Files d) as [|[p f] fs IH]; intros Ha; [constructor|].
  cbn [map fst] in Hn. apply NoDup_cons in Hn as [Hp Hn]. apply Forall_cons in Ht as [Hf Ht].
  assert (NoDup (map edge_key (evidence_edges align fs))) as IH' by (apply IH; [done..|]; intros ?????; apply Ha; by right).
  unfold evidence_edges. cbn [flat_map]. rewrite map_app. apply NoDup_app. unfold file_edges at 1 2. cbn [fst snd] in *.
  destruct (align p) as [s|] eqn:E; [|split_and!; [constructor|by intros ? ?%not_elem_of_nil|done]].
  split_and!; [|intros k Hk Hk'|done].
  - rewrite map_map. apply (NoDup_fmap_1 snd). change (snd <$> ?l) with (map (@snd string string) l). rewrite map_map. exact Hf.
  - rewrite map_map in Hk. apply list_elem_of_fmap in Hk as (tr & -> & _).
    apply list_elem_of_fmap in Hk' as (e & Ek & He). apply evidence_edge_in in He as ([q g] & s' & tr' & Hq & Hal & _ & ->).
    cbn in Ek. injection Ek as <- _. apply Hp. rewrite (Ha p q s); [|left| |done|done]; [|right]; by apply (list_elem_of_fmap_2 fst _ (q, g)).
Qed.

Lemma edge_less_total x y : edge_less x y = false → edge_less y x = false → edge_key x = edge_key y.
Proof.
  unfold edge_less, edge_key. rewrite (String.eqb_sym (ed_Source y)).
  destruct (String.eqb_spec (ed_Source x) (ed_Source y)) as [E|E]; intros Hxy Hyx.
  - by rewrite E, (str_ltb_total _ _ Hxy Hyx).
  - by rewrite (str_ltb_total _ _ Hxy Hyx) in E.
Qed.

Lemma edge_key_inj es e f : NoDup (map edge_key es) → e ∈ es → f ∈ es → edge_key e = edge_key f → e = f.
Proof.
  induction es as [|a es IH]; cbn [map]; [by intros _ ?%not_elem_of_nil|].
  intros [Ha Hn]%NoDup_cons He Hf Ek. apply elem_of_cons in He as [->|He], Hf as [->|Hf]; [done|..|by apply IH].
  - destruct Ha. rewrite Ek. by apply list_elem_of_fmap_2.
  - destruct Ha. rewrite <- Ek. by apply list_elem_of_fmap_2.
Qed.

(** The map is the evidence's, not the iteration order's: two readings of one run,
    ranging over its files and tests in different orders, build the same map — sources,
    nodes and sorted edges — when no two files are one source. *)
Theorem FromEvidence_order_free d1 d2 align unitOf :
  same_run d1 d2 → keyed d2 → apart align d2 → FromEvidence d1 align unitOf = FromEvidence d2 align unitOf.
Proof.
  intros [Hof Hs] Hk Ha. destruct (evidence_same align _ _ Hs) as [He Hsrc].
  destruct (FromEvidence_spec d1 align unitOf) as (_ & _ & Hs1 & He1 & Ht1).
  destruct (FromEvidence_spec d2 align unitOf) as (_ & _ & Hs2 & He2 & Ht2).
  assert (tm_Sources (FromEvidence d1 align unitOf) = tm_Sources (FromEvidence d2 align unitOf)) as Es.
  { rewrite Hs1, Hs2. symmetry. apply list_to_map_proper.
    - rewrite <- Permutation_rev. change (NoDup (map fst (evidence_sources align (dc_Files d2)))). by apply NoDup_evidence_sources.
    - by rewrite <- !Permutation_rev, Hsrc. }
  assert (tm_Tests (FromEvidence d1 align unitOf) = tm_Tests (FromEvidence d2 align unitOf)) as Et.
  { apply map_eq. intros id. rewrite Ht1, Ht2. cbn. erewrite bool_decide_ext; [reflexivity|]. by rewrite He. }
  assert (tm_Edges (FromEvidence d1 align unitOf) = tm_Edges (FromEvidence d2 align unitOf)) as Ee.
  { apply (sorted_unique edge_less); [|apply sort_stable_sorted, _..|by rewrite He1, He2, He].
    intros x y Hx Hy Hxy Hyx. apply (edge_key_inj (evidence_edges align (dc_Files d2))); [by apply NoDup_edge_keys|..|by apply edge_less_total];
      by rewrite <- He, <- He1. }
  unfold FromEvidence in *. cbn [tm_Sources tm_Tests tm_Edges] in *. by rewrite Es, Et, Ee, Hof.
Qed.

(** ** A run's map selects what the run saw *)

(** The run saw the test execute the source, and pass. *)
Definition passed_on (align : string → option string) (d : EvidenceDoc) (src t : string) : Prop :=
  t ∉ dc_Failed d ∧ ∃ pf, pf ∈ dc_Files d ∧ align pf.1 = Some src ∧ t ∈ map fst (fe_Tests pf.2).

Lemma foldl_mark_failed unitOf tests failed id :
  foldl (mark_failed unitOf) tests failed !! id =
  if bool_decide (id ∈ failed) then Some (mkNode id GrainTest (unitOf id) [] failedInEvidenceRun) else tests !! id.
Proof.
  revert tests. induction failed as [|f failed IH]; intros tests; cbn [foldl]; [done|]. rewrite IH. unfold mark_failed.
  destruct (decide (id ∈ failed)) as [Hin|Hin].
  - rewrite !bool_decide_true; [done|by right|done].
  - rewrite (bool_decide_false (id ∈ failed)) by done. destruct (decide (id = f)) as [->|Hne].
    + by rewrite lookup_insert_eq, bool_decide_true by left.
    + rewrite lookup_insert_ne by done. rewrite bool_decide_false; [done|]. by intros [?|?]%elem_of_cons.
Qed.

Lemma markFailedTests_fields m failed unitOf :
  (∀ id, tm_Tests (markFailedTests m failed unitOf) !! id =
     if bool_decide (id ∈ failed) then Some (mkNode id GrainTest (unitOf id) [] failedInEvidenceRun) else tm_Tests m !! id) ∧
  tm_Edges (markFailedTests m failed unitOf) =
    List.filter (λ e, negb (bool_decide (ed_Test e ∈ failed))) (tm_Edges m) ∧
  tm_Method (markFailedTests m failed unitOf) = tm_Method m ∧ tm_Sources (markFailedTests m failed unitOf) = tm_Sources m.
Proof.
  destruct failed as [|f failed]; cbn [markFailedTests].
  - split_and!; try done. symmetry. induction (tm_Edges m) as [|e es IH]; cbn; [done|]. by f_equal.
  - split_and!; try done. intros id. apply foldl_mark_failed.
Qed.

(** The map of a run, its failed tests marked. *)
Definition run_map (d : EvidenceDoc) (align : string → option string) (unitOf : string → string) : Map :=
  markFailedTests (FromEvidence d align unitOf) (dc_Failed d) unitOf.

Lemma run_map_edge d align unitOf e : e ∈ tm_Edges (run_map d align unitOf) ↔
  ed_Test e ∉ dc_Failed d ∧ e ∈ evidence_edges align (dc_Files d).
Proof.
  unfold run_map. destruct (markFailedTests_fields (FromEvidence d align unitOf) (dc_Failed d) unitOf) as (_ & -> & _).
  rewrite list_elem_of_In, filter_In, <- list_elem_of_In.
  destruct (FromEvidence_spec d align unitOf) as (_ & _ & _ & -> & _).
  rewrite negb_true_iff, bool_decide_eq_false. tauto.
Qed.

Lemma run_map_node d align unitOf id n : tm_Tests (run_map d align unitOf) !! id = Some n →
  nd_Grain n = GrainTest ∧ (nd_Err n ≠ "" ↔ id ∈ dc_Failed d).
Proof.
  unfold run_map. destruct (markFailedTests_fields (FromEvidence d align unitOf) (dc_Failed d) unitOf) as (-> & _).
  case_bool_decide; [intros [= <-]; done|]. destruct (FromEvidence_spec d align unitOf) as (_ & _ & _ & _ & ->).
  cbn. case_bool_decide; [|done]. intros [= <-]. by split.
Qed.

Lemma run_map_selected d align unitOf src t :
  selected (run_map d align unitOf) GrainTest src t ↔ passed_on align d src t.
Proof.
  unfold selected, EdgesTo. rewrite Exists_exists. setoid_rewrite list_elem_of_In. setoid_rewrite filter_In.
  setoid_rewrite <- list_elem_of_In. setoid_rewrite run_map_edge. setoid_rewrite evidence_edge_in. unfold passed_on. split.
  - intros (e & ((Hnf & pf & s & tr & Hin & Ha & Htr & ->) & Es) & _ & <-). bools. cbn in *. subst s.
    split; [done|]. exists pf. split_and!; [done..|]. by apply list_elem_of_fmap_2.
  - intros (Hnf & pf & Hin & Ha & (tr & -> & Htr)%list_elem_of_fmap). exists (evidence_edge src tr).
    split_and!; [done|by exists pf, src, tr|by apply String.eqb_refl|done|done].
Qed.

Lemma run_map_unreported d align unitOf t : unreported (run_map d align unitOf) t ↔ t ∈ dc_Failed d.
Proof.
  unfold unreported. rewrite elem_of_Unreported. split.
  - intros (n & Hn & He). by apply (run_map_node _ _ _ _ _ Hn).
  - intros Hin. unfold run_map. destruct (markFailedTests_fields (FromEvidence d align unitOf) (dc_Failed d) unitOf) as (Ht & _).
    setoid_rewrite Ht. rewrite bool_decide_true by done. by eexists.
Qed.

Lemma run_map_edges_ok d align unitOf src : Forall (edge_ok (run_map d align unitOf) GrainTest) (EdgesTo (run_map d align unitOf) src).
Proof.
  apply Forall_forall. intros e (He & _)%list_elem_of_In%filter_In. apply list_elem_of_In, run_map_edge in He as [Hnf He].
  assert (∃ n, tm_Tests (run_map d align unitOf) !! ed_Test e = Some n) as (n & Hn).
  { unfold run_map. destruct (markFailedTests_fields (FromEvidence d align unitOf) (dc_Failed d) unitOf) as (-> & _).
    rewrite bool_decide_false by done. destruct (FromEvidence_spec d align unitOf) as (_ & _ & _ & _ & ->).
    cbn. rewrite bool_decide_true; [by eexists|]. by apply list_elem_of_fmap_2. }
  exists n. split; [done|]. by apply (run_map_node _ _ _ _ _ Hn).
Qed.

Lemma run_map_sources d align unitOf src :
  is_Some (tm_Sources (run_map d align unitOf) !! src) ↔ ∃ pf, pf ∈ dc_Files d ∧ align pf.1 = Some src.
Proof.
  unfold run_map. destruct (markFailedTests_fields (FromEvidence d align unitOf) (dc_Failed d) unitOf) as (_ & _ & _ & ->).
  destruct (FromEvidence_spec d align unitOf) as (_ & _ & -> & _). split.
  - intros (s & Hs%elem_of_list_to_map_2). apply list_elem_of_In, in_rev, list_elem_of_In, evidence_sources_keys in Hs as (pf & ? & ? & _).
    by exists pf.
  - intros (pf & Hin & Ha). destruct (_ !! src) as [s|] eqn:E; [by eexists|]. apply not_elem_of_list_to_map_2 in E.
    destruct E. apply list_elem_of_fmap. exists (src, source_of pf.2). split; [done|].
    apply list_elem_of_In, in_rev. rewrite rev_involutive. apply list_elem_of_In, list_elem_of_omap. exists pf. by rewrite Ha.
Qed.

(** A report's path is a key of the map exactly when it is relative. *)
Lemma align_no_root path src : AlignEvidencePath path "" = Some src ↔ path = src ∧ has_prefix "/" path = false.
Proof.
  unfold AlignEvidencePath, alignPyPath, normalizePyRepoRoot. cbn [String.eqb].
  destruct (has_prefix "/" path) eqn:E; cbn [negb]; naive_solver.
Qed.

Lemma BuildSelectionMap_Ok {E} (p : Plugin E) testCmd raw m : BuildSelectionMap p testCmd raw = Ok m →
  ∃ parse doc row unit, pg_Evidence p = Some parse ∧ parse raw = Ok doc ∧ pg_RunnerFor p testCmd = Some row ∧
    rn_TestUnit row = Some unit ∧
    let m' := run_map doc (λ path, AlignEvidencePath path "") unit in
    tm_Method m = tm_Method m' ∧ tm_Sources m = tm_Sources m' ∧ tm_Tests m = tm_Tests m' ∧ tm_Edges m = tm_Edges m'.
Proof.
  unfold BuildSelectionMap, selectionRow. destruct (pg_Evidence p) as [parse|]; [|done].
  destruct (pg_RunnerFor p testCmd) as [row|]; [|done]. destruct (rn_TestUnit row) as [unit|] eqn:Eu; [|done]. cbn [rbind].
  destruct (parse raw) as [doc|e] eqn:Ep; [|done]. intros [= <-].
  exists parse, doc, row, unit. cbn zeta. unfold run_map. destruct (dc_Failed doc); by split_and!.
Qed.

Lemma selectedIDs_same m m' grain want wl exclude drop :
  tm_Tests m = tm_Tests m' → tm_Edges m = tm_Edges m' →
  selectedIDs m grain want wl exclude drop = selectedIDs m' grain want wl exclude drop.
Proof.
  intros Ht He. unfold selectedIDs, EdgesTo, Unreported. rewrite He, Ht.
  assert (∀ p es, pick_edges m grain want wl drop p es = pick_edges m' grain want wl drop p es) as Hp.
  { intros p es. revert p. induction es as [|e es IH]; intros p; cbn [pick_edges]; [done|].
    assert (pick_edge m grain want wl drop p e = pick_edge m' grain want wl drop p e) as -> by (unfold pick_edge; by rewrite Ht).
    destruct (pick_edge m' grain want wl drop p e); cbn [rbind]; [apply IH|done]. }
  by rewrite Hp.
Qed.

(** From a report to a selection, nothing is lost. The map built from a run's report
    measures exactly the relative paths of the report, and for every file the engine
    answers: it selects the passing tests the run saw execute the file, each failed test
    of the run, and no other. *)
Theorem evidence_selects {E} (p : Plugin E) testCmd raw parse doc m :
  pg_Evidence p = Some parse → parse raw = Ok doc → BuildSelectionMap p testCmd raw = Ok m →
  ∀ src wl,
  (is_Some (tm_Sources m !! src) ↔ has_prefix "/" src = false ∧ src ∈ map fst (dc_Files doc)) ∧
  ∃ ids ls, selectedIDs m GrainTest src wl ∅ ∅ = Ok (ids, ls) ∧ NoDup ids ∧
  ∀ t, t ∈ ids ↔
    (t ∉ dc_Failed doc ∧ has_prefix "/" src = false ∧ ∃ fe, (src, fe) ∈ dc_Files doc ∧ t ∈ map fst (fe_Tests fe)) ∨
    t ∈ dc_Failed doc.
Proof.
  intros Hp Hd (parse' & doc' & row & unit & Hp' & Hd' & _ & _ & _ & Hs & Ht & He)%BuildSelectionMap_Ok src wl.
  rewrite Hp in Hp'. injection Hp' as <-. rewrite Hd in Hd'. injection Hd' as <-. split.
  - rewrite Hs, run_map_sources. setoid_rewrite align_no_root. rewrite list_elem_of_fmap. naive_solver.
  - rewrite (selectedIDs_same _ _ _ _ _ _ _ Ht He).
    destruct (selectedIDs_total _ _ src wl ∅ (run_map_edges_ok doc (λ path, AlignEvidencePath path "") unit src)) as (ids & ls & E1).
    exists ids, ls. destruct (selectedIDs_all _ _ _ _ _ _ E1) as [Hnd Hids]. split_and!; [done..|]. intros t.
    rewrite Hids, run_map_selected, run_map_unreported. unfold passed_on. setoid_rewrite align_no_root. split.
    + intros [(Hnf & [q fe] & Hin & [Hq Hr] & Hin')|?]; [left|by right]. cbn in *. subst q. eauto.
    + intros [(Hnf & Hr & fe & Hin & Hin')|?]; [left|by right]. split; [done|]. exists (src, fe). by split_and!.
Qed.
