(* ===== verification/SelectSamples.v ===== *)
(** * Concrete maps and runners

    A unit map in which one unit cannot run without another, and a coverage report of
    two tests and a failed one; the engine's theorems applied to them. *)
From S2P Require Import Prelude GoLib TestMap Select SelectFacts SpanFacts Evidence.
Local Open Scope string_scope.
Local Open Scope list_scope.
Local Open Scope Z_scope.

Definition append_runner (coruns : list string → string → bool) : Runner :=
  mkRunner "toy" None (Some (λ base ids, Some (Some (words base ++ ids)))) (Some (λ argv us, Some (Some (words argv ++ us))))
    (Some coruns) (Some (λ _ path, if String.eqb path "b_test" then Some "b" else None))
    (Some (λ id, if String.eqb id "t1" then "f" else "g")) None.

(** Running [a] also collects [c]. *)
Definition a_collects_c (us : list string) (o : string) : bool := existsb (String.eqb "a") us && String.eqb o "c".
Definition toy_row : Runner := append_runner a_collects_c.

Definition unit_node (id err : string) : string * Node := (id, mkNode id GrainUnit "" [] err).
Definition unit_map : Map :=
  mkMap Schema "toy" "toy" ["run"] [] "" MethodUnitEvidence 4
    (list_to_map [("x", mkSource false true []); ("y", mkSource false true []); ("z", mkSource false false [])])
    (list_to_map [unit_node "a" ""; unit_node "b" "run failed: exit 1"; unit_node "c" ""; unit_node "d" ""])
    [mkEdge "a" "x" [] 3 false ""; mkEdge "d" "x" [] 0 false ""] "".

Example select_x : Select unit_map toy_row (Some ["run"]) "" "x" "" =
  Ok (mkSelection (Some ["run"]) (Some ["run"; "a"; "b"; "c"]) ["a"; "b"; "c"] MethodUnitEvidence 4 "" None [] [] [] ∅).
Proof. vm_compute. reflexivity. Qed.
Example excluding_b : (λ s, sl_Tests s) <$> match SelectExcluding unit_map toy_row (Some ["run"]) "" "x" "" {[ "b" ]} with Ok s => Some s | Err _ => None end
  = Some ["a"; "c"].
Proof. vm_compute. reflexivity. Qed.
(** What the run would collect anyway may not be excluded. *)
Example excluding_c : SelectExcluding unit_map toy_row (Some ["run"]) "" "x" "" {[ "c" ]} = Err (CorunsLeftOut "c").
Proof. vm_compute. reflexivity. Qed.
Example leaving_out_a : SelectLeavingOut unit_map toy_row (Some ["run"]) "" "x" "" {[ "a" ]} = Err (LeavesAllOut 1 "x").
Proof. vm_compute. reflexivity. Qed.
Example readouts : Uncovered unit_map = ([], ["y"]).
Proof. vm_compute. reflexivity. Qed.


Lemma closed_a : unitsCmd unit_map toy_row (Some ["run"]) ["a"] true ∅ = Ok (Some ["run"; "a"; "c"], ["a"; "c"]).
Proof. vm_compute. reflexivity. Qed.

Lemma unitsCmd_closed_witness :
  unitsCmd unit_map toy_row (Some ["run"]) ["a"] true ∅ = Ok (Some ["run"; "a"; "c"], ["a"; "c"]) ∧
  (∀ u, listed_unit unit_map u → u ∉ ["a"; "c"] → ¬ would_corun toy_row ["a"; "c"] u).
Proof.
  split; [exact closed_a|].
  exact (proj1 (unitsCmd_closed unit_map toy_row (Some ["run"]) ["a"] true ∅ (Some ["run"; "a"; "c"]) ["a"; "c"] closed_a)).
Defined.

Lemma Uncovered_agrees_witness : "y" ∈ (Uncovered unit_map).2 ∧ ∃ t, unreported unit_map t.
Proof.
  assert ("y" ∈ (Uncovered unit_map).2) as Hy by (rewrite readouts; cbn; left).
  split; [exact Hy|]. exact (proj1 (proj2 (proj2 (proj1 (proj2 (Uncovered_agrees unit_map GrainUnit "y" eq_refl)) Hy)))).
Defined.

(** The authored test's unit [b], beside a selection of [d]. *)
Definition selection_d : Selection :=
  mkSelection (Some ["run"]) (Some ["run"; "d"]) ["d"] MethodUnitEvidence 4 "" None [] [] [] ∅.
Lemma AuthoredTestCmd_exact_witness :
  AuthoredTestCmd unit_map selection_d toy_row (Some ["run"]) "" "b_test" = Ok (Some ["run"; "b"; "d"]) ∧
  ∃ locate, rn_UnitForFile toy_row = Some locate ∧ locate "" "b_test" = Some "b".
Proof.
  assert (AuthoredTestCmd unit_map selection_d toy_row (Some ["run"]) "" "b_test" = Ok (Some ["run"; "b"; "d"])) as H
    by (vm_compute; reflexivity).
  split; [exact H|].
  destruct (AuthoredTestCmd_exact _ _ _ _ _ _ _ H) as [(l & f & u & us & _ & Hl & Hu & _)|(f & base & out & Hg & _)].
  - exists l. split; [exact Hl|]. injection Hl as <-. reflexivity.
  - discriminate Hg.
Defined.

(** ** A coverage report *)

Definition report1 : EvidenceDoc := mkEvidenceDoc 3
  [("pkg/a.py", mkFileEvidence [("t1", [mkLineRange 1 4]); ("t2", [mkLineRange 9 9])] [mkLineRange 1 1] true);
   ("pkg/b.py", mkFileEvidence [("t2", []); ("t3", [mkLineRange 2 2])] [] true);
   ("/usr/lib/c.py", mkFileEvidence [("t1", [])] [] true)] ["t3"].
(** The same report, ranged over differently. *)
Definition report2 : EvidenceDoc := mkEvidenceDoc 3
  [("/usr/lib/c.py", mkFileEvidence [("t1", [])] [] true);
   ("pkg/b.py", mkFileEvidence [("t3", [mkLineRange 2 2]); ("t2", [])] [] true);
   ("pkg/a.py", mkFileEvidence [("t2", [mkLineRange 9 9]); ("t1", [mkLineRange 1 4])] [mkLineRange 1 1] true)] ["t3"].
Definition no_root (path : string) : option string := AlignEvidencePath path "".

Lemma same_reports : same_run report1 report2 ∧ keyed report2 ∧ apart no_root report2.
Proof.
  split_and!.
  - split; [reflexivity|]. exists (rev (dc_Files report2)). split; [|symmetry; apply Permutation_rev].
    repeat constructor; cbn; done || apply Permutation_swap.
  - split; [|repeat constructor]; apply (bool_decide_unpack _); vm_compute; exact I.
  - intros p q s _ _ [-> _]%align_no_root [-> _]%align_no_root. reflexivity.
Qed.

Lemma FromEvidence_order_free_witness :
  report1 ≠ report2 ∧ FromEvidence report1 no_root (λ _, "f") = FromEvidence report2 no_root (λ _, "f").
Proof.
  split; [discriminate|]. destruct same_reports as (H1 & H2 & H3). exact (FromEvidence_order_free _ _ no_root (λ _, "f") H1 H2 H3).
Defined.

Definition py : Plugin () := mkPlugin () "py" (λ _, Some toy_row) (Some (λ _, Ok report1)).

Example built_map :
  match BuildSelectionMap py (Some ["pytest"]) "raw" with
  | Ok m => selectedIDs m GrainTest "pkg/a.py" true ∅ ∅
  | Err _ => Err OutOfFuel
  end = Ok (["t1"; "t2"; "t3"], {[ "t1" := [mkLineRange 1 4]; "t2" := [mkLineRange 9 9] ]}).
Proof. vm_compute. reflexivity. Qed.

Lemma evidence_selects_witness :
  ∃ m, BuildSelectionMap py (Some ["pytest"]) "raw" = Ok m ∧ is_Some (tm_Sources m !! "pkg/a.py").
Proof.
  eexists. split; [reflexivity|].
  apply (proj1 (evidence_selects py (Some ["pytest"]) "raw" (λ _, Ok report1) report1 _ eq_refl eq_refl eq_refl "pkg/a.py" true)).
  split; [reflexivity|]. left.
Defined.

(** The mutant's span meets t1's lines only; t3, which failed, still runs. *)
Definition py_selection : option Selection :=
  match BuildSelectionMap py (Some ["pytest"]) "raw" with
  | Ok m => match Select m (append_runner (λ _ _, false)) (Some ["pytest"]) "" "pkg/a.py" "" with Ok s => Some s | Err _ => None end
  | Err _ => None
  end.
Example span_of_t1 : (λ s, (ForSpan s (append_runner (λ _ _, false)) (mkLineRange 3 3)).1.2) <$> py_selection = Some ["t1"; "t3"].
Proof. vm_compute. reflexivity. Qed.
Example span_static : (λ s, (ForSpan s (append_runner (λ _ _, false)) (mkLineRange 1 2)).2) <$> py_selection = Some SpanRuleStatic.
Proof. vm_compute. reflexivity. Qed.
