(* ===== verification/Shell.v ===== *)
(** * Reading a shell script: internal/lang/shlex.go, shellcmd.go, corralcov.go

    The lexer over the rest of the script, one step per turn of its loop, with the
    byte before it (the [<<-] test looks back one). The inner loop over a double-quoted
    part is the lexer with [lx_dq] set. Each step consumes a byte, so a script's length
    and one is fuel enough ([lex_enough]). Main result: a quoted command line is read
    back as the one command it is, whatever its words hold ([shellCommands_shellJoin]). *)
From S2P Require Import Prelude GoLib GoText.
Local Open Scope string_scope.
Local Open Scope list_scope.

Definition sq : ascii := "'"%char.
Definition dquote : ascii := "034"%char.
Definition backslash : ascii := "\"%char.
Definition tab : ascii := "009"%char.
Definition one (c : ascii) : string := String c "".

Record shWord := mkShWord { sw_raw : string; sw_text : string }.

(** The lexer's variables; [lx_dq]: inside a double-quoted part. *)
Record lexer := mkLexer {
  lx_out : list (list shWord); lx_cur : list shWord; lx_raw : string; lx_text : string;
  lx_inWord : bool; lx_redirectTarget : bool; lx_dq : bool }.
Definition lexer0 : lexer := mkLexer [] [] "" "" false false false.

Definition flushWord (l : lexer) : lexer :=
  if negb (lx_inWord l) then l
  else if lx_redirectTarget l then mkLexer (lx_out l) (lx_cur l) "" "" false false (lx_dq l)
  else mkLexer (lx_out l) (lx_cur l ++ [mkShWord (lx_raw l) (lx_text l)]) "" "" false false (lx_dq l).

Definition flushCmd (l : lexer) : lexer :=
  let l := flushWord l in
  mkLexer (match lx_cur l with [] => lx_out l | _ => lx_out l ++ [lx_cur l] end) [] (lx_raw l) (lx_text l)
    (lx_inWord l) false (lx_dq l).

(** Text written to the word, which the word then is in. *)
Definition write (raw text : string) (l : lexer) : lexer :=
  mkLexer (lx_out l) (lx_cur l) (lx_raw l +:+ raw) (lx_text l +:+ text) true (lx_redirectTarget l) (lx_dq l).
Definition drop_word (l : lexer) : lexer :=
  mkLexer (lx_out l) (lx_cur l) "" "" false (lx_redirectTarget l) (lx_dq l).
Definition to_redirect (l : lexer) : lexer :=
  mkLexer (lx_out l) (lx_cur l) (lx_raw l) (lx_text l) (lx_inWord l) true (lx_dq l).
Definition with_dq (b : bool) (l : lexer) : lexer :=
  mkLexer (lx_out l) (lx_cur l) (lx_raw l) (lx_text l) (lx_inWord l) (lx_redirectTarget l) b.
Definition with_commands (cs : list (list shWord)) (l : lexer) : lexer :=
  mkLexer (lx_out l ++ cs) (lx_cur l) (lx_raw l) (lx_text l) (lx_inWord l) (lx_redirectTarget l) (lx_dq l).

(** ** shMatchParen *)

Inductive paren_mode := Plain | Escaped | SingleQuoted | DoubleQuoted | DoubleEscaped.

(** The index of the closing parenthesis, or the length of the text. *)
Fixpoint match_paren (mode : paren_mode) (depth : nat) (s : string) : nat :=
  match s with
  | "" => O
  | String c s' =>
      match mode with
      | Escaped => S (match_paren Plain depth s')
      | SingleQuoted => S (match_paren (if Ascii.eqb c sq then Plain else SingleQuoted) depth s')
      | DoubleEscaped => S (match_paren DoubleQuoted depth s')
      | DoubleQuoted =>
          S (match_paren (if Ascii.eqb c dquote then Plain
                          else if Ascii.eqb c backslash then DoubleEscaped else DoubleQuoted) depth s')
      | Plain =>
          if Ascii.eqb c backslash then S (match_paren Escaped depth s')
          else if Ascii.eqb c sq then S (match_paren SingleQuoted depth s')
          else if Ascii.eqb c dquote then S (match_paren DoubleQuoted depth s')
          else if Ascii.eqb c "("%char then S (match_paren Plain (S depth) s')
          else if Ascii.eqb c ")"%char then
            match depth with
            | S (S d) => S (match_paren Plain (S d) s')
            | _ => O
            end
          else S (match_paren Plain depth s')
      end
  end.
Definition shMatchParen (s : string) (start : nat) : nat := start + match_paren Plain 1 (drop_str start s).

(** ** One turn of the loop *)

Fixpoint index_byte (c : ascii) (s : string) : option nat :=
  match s with
  | "" => None
  | String a s' => if Ascii.eqb a c then Some O else S <$> index_byte c s'
  end.

Definition head_is (c : ascii) (s : string) : bool :=
  match s with String a _ => Ascii.eqb a c | "" => false end.
Definition head_in (cs : string) (s : string) : bool :=
  match s with String a _ => mem_ascii a cs | "" => false end.

Definition all_digits (s : string) : bool := only_bytes_of decimal_digits s.

(** A [$(…)] at the head: the commands it runs, then its own bytes. *)
Definition substitution (sub : string → list (list shWord)) (s : string) (l : lexer) : lexer * nat :=
  let end_ := shMatchParen s 2 in
  let inner := take_str (end_ - 2) (drop_str 2 s) in
  let next := Nat.min (S end_) (String.length s) in
  (write (take_str next s) (take_str next s) (with_commands (sub inner) l), next).

Definition in_dquotes (sub : string → list (list shWord)) (c : ascii) (s' : string) (l : lexer) : lexer * nat :=
  let s := String c s' in
  if Ascii.eqb c dquote then (with_dq false (write (one dquote) "" l), 1)
  else if Ascii.eqb c backslash && head_in ("$`" +:+ one dquote +:+ one backslash +:+ one newline) s' then
    (write (take_str 2 s) (if head_is newline s' then "" else take_str 1 s') l, 2)
  else if Ascii.eqb c "$"%char && head_is "("%char s' then substitution sub s l
  else (write (one c) (one c) l, 1).

(** Bytes of a redirection operator at the head, and of a [-] after [<<]. *)
Definition redirect_len (prev : option ascii) (c : ascii) (s' : string) : nat :=
  if head_in "<>&|" s' then
    if Ascii.eqb c "<"%char && head_is "<"%char s' && head_is "-"%char (drop_str 1 s') then 3 else 2
  else if match prev with Some p => Ascii.eqb p "<"%char | None => false end
          && Ascii.eqb c "<"%char && head_is "-"%char s' then 2 else 1.

Definition step (sub : string → list (list shWord)) (prev : option ascii) (c : ascii) (s' : string) (l : lexer)
    : lexer * nat :=
  let s := String c s' in
  if lx_dq l then in_dquotes sub c s' l
  else if Ascii.eqb c " "%char || Ascii.eqb c tab then (flushWord l, 1)
  else if Ascii.eqb c "&"%char && head_is ">"%char s' then
    (to_redirect (flushWord l), if head_is ">"%char (drop_str 1 s') then 3 else 2)
  else if Ascii.eqb c newline || mem_ascii c ";&|()" then (flushCmd l, 1)
  else if Ascii.eqb c "#"%char && negb (lx_inWord l) then
    (l, match index_byte newline s with Some n => n | None => String.length s end)
  else if Ascii.eqb c "<"%char || Ascii.eqb c ">"%char then
    (to_redirect (if lx_inWord l && all_digits (lx_raw l) then drop_word l else flushWord l), redirect_len prev c s')
  else if Ascii.eqb c backslash then
    match s' with
    | "" => (write "" "" l, 1)
    | String d _ => if Ascii.eqb d newline then (write "" "" l, 2) else (write (take_str 2 s) (one d) l, 2)
    end
  else if Ascii.eqb c sq then
    let end_ := default (String.length s') (index_byte sq s') in
    let n := Nat.min (end_ + 2) (String.length s) in
    (write (take_str n s) (take_str end_ s') l, n)
  else if Ascii.eqb c dquote then (with_dq true (write (one dquote) "" l), 1)
  else if Ascii.eqb c "$"%char && head_is "("%char s' then substitution sub s l
  else if Ascii.eqb c "$"%char && head_is "{"%char s' then
    let n := match index_byte "}"%char s with Some e => S e | None => String.length s end in
    (write (take_str n s) (take_str n s) l, n)
  else (write (one c) (one c) l, 1).

Fixpoint lex (fuel : nat) (prev : option ascii) (s : string) (l : lexer) : lexer :=
  match fuel with
  | O => l
  | S fuel =>
      match s with
      | "" => l
      | String c s' =>
          let '(l', n) := step (λ inner, lx_out (flushCmd (lex fuel None inner lexer0))) prev c s' l in
          lex fuel (String.get (n - 1) s) (drop_str n s) l'
      end
  end.

Definition shellCommands (script : string) : list (list shWord) :=
  lx_out (flushCmd (lex (S (String.length script)) None script lexer0)).

(** ** Quoting *)

Fixpoint quote_body (s : string) : string :=
  match s with
  | "" => ""
  | String c s' => if Ascii.eqb c sq then "'\''" +:+ quote_body s' else String c (quote_body s')
  end.
Definition shellQuote (s : string) : string := "'" +:+ quote_body s +:+ "'".
Definition shellJoin (argv : list string) : string := String.concat " " (map shellQuote argv).

Definition texts (cs : list (list shWord)) : list (list string) := map (map sw_text) cs.


Example lex_quotes : texts (shellCommands "A=1 go 'b c;d' 'x'\''y' && e 2>&1 <<'EOF' f # g") =
  [["A=1"; "go"; "b c;d"; "x'y"]; ["e"; "f"]].
Proof. vm_compute. reflexivity. Qed.
Example lex_substitution : texts (shellCommands "echo a$(cd 'x)' ; ls $(pwd))b | cat") =
  [["cd"; "x)"]; ["pwd"]; ["ls"; "$(pwd)"]; ["echo"; "a$(cd 'x)' ; ls $(pwd))b"]; ["cat"]].
Proof. vm_compute. reflexivity. Qed.

(** ** Fuel *)

Lemma match_paren_le mode depth s : match_paren mode depth s <= String.length s.
Proof.
  revert mode depth; induction s as [|c s IH]; intros mode depth; cbn [match_paren String.length]; [lia|].
  destruct mode; repeat case_match; try lia; try (apply le_n_S; apply IH).
Qed.

Lemma index_byte_lt c s n : index_byte c s = Some n → n < String.length s.
Proof.
  revert n; induction s as [|a s IH]; intros n; cbn; [done|]. destruct (Ascii.eqb a c); [intros [= <-]; lia|].
  destruct (index_byte c s) as [m|]; [|done]. cbn. intros [= <-]. specialize (IH m eq_refl). lia.
Qed.

(** A step consumes at least a byte, and asks only for the commands of a strictly
    shorter script. *)
Ltac split_ifs := repeat match goal with |- context [if ?b then _ else _] => destruct b eqn:? end.

Lemma substitution_pos sub c s' l : 0 < (substitution sub (String c s') l).2.
Proof. unfold substitution. cbn [snd String.length]. lia. Qed.

Lemma redirect_len_pos prev c s' : 0 < redirect_len prev c s'.
Proof. unfold redirect_len. split_ifs; lia. Qed.

Lemma in_dquotes_pos sub c s' l : 0 < (in_dquotes sub c s' l).2.
Proof. unfold in_dquotes. cbv zeta. split_ifs; try (cbn [snd]; lia); apply substitution_pos. Qed.

Lemma comment_pos c s' : Ascii.eqb c newline = false →
  0 < match index_byte newline (String c s') with Some n => n | None => String.length (String c s') end.
Proof. cbn. intros ->. destruct (index_byte newline s'); cbn; lia. Qed.

Lemma step_pos sub prev c s' l : 0 < (step sub prev c s' l).2.
Proof.
  pose proof (substitution_pos sub c s' l). pose proof (redirect_len_pos prev c s').
  pose proof (in_dquotes_pos sub c s' l). pose proof (comment_pos c s').
  unfold step. cbv zeta. destruct (lx_dq l); [done|].
  destruct (_ || Ascii.eqb c tab); [cbn; lia|]. destruct (_ && head_is ">"%char s'); [cbn [snd]; destruct (head_is _ (drop_str 1 s')); lia|].
  destruct (_ || mem_ascii c ";&|()") eqn:Esep; [cbn; lia|]. apply orb_false_elim in Esep as [Enl _].
  destruct (_ && negb (lx_inWord l)); [cbn [snd]; auto|]. destruct (_ || Ascii.eqb c ">"%char); [done|].
  destruct (Ascii.eqb c backslash); [destruct s' as [|d t]; [cbn; lia|destruct (Ascii.eqb d newline); cbn; lia]|].
  destruct (Ascii.eqb c sq); [cbn [snd String.length]; lia|]. destruct (Ascii.eqb c dquote); [cbn; lia|].
  destruct (_ && head_is "("%char s'); [done|]. destruct (_ && head_is "{"%char s'); [|cbn; lia].
  cbn [snd]. destruct (index_byte "}"%char (String c s')); cbn; lia.
Qed.

Lemma step_sub sub1 sub2 prev c s' l :
  (∀ t, String.length t < S (String.length s') → sub1 t = sub2 t) → step sub1 prev c s' l = step sub2 prev c s' l.
Proof.
  intros Hsub. assert (substitution sub1 (String c s') l = substitution sub2 (String c s') l) as Hs.
  { unfold substitution. cbv zeta. rewrite Hsub; [done|]. rewrite length_take_str, length_drop_str. cbn. lia. }
  unfold step, in_dquotes. cbv zeta. by rewrite Hs.
Qed.

Lemma lex_enough f g prev s l : String.length s < f → String.length s < g → lex f prev s l = lex g prev s l.
Proof.
  revert g prev s l. induction f as [f IH] using lt_wf_ind. intros [|g] prev s l Hf Hg; [lia|].
  destruct f as [|f]; [lia|]. cbn [lex]. destruct s as [|c s']; [done|]. cbn [String.length] in *.
  rewrite (step_sub _ (λ inner, lx_out (flushCmd (lex g None inner lexer0)))).
  2: { intros t Ht. f_equal. f_equal. apply IH; lia. }
  pose proof (step_pos (λ inner, lx_out (flushCmd (lex g None inner lexer0))) prev c s' l) as Hn.
  destruct (step _ prev c s' l) as [l' n]. cbn [snd] in Hn. apply IH; [lia|..]; rewrite length_drop_str; cbn; lia.
Qed.

(** ** The words of a command are no longer than its script *)

Definition cmd_length (c : list shWord) : nat := sum_list_with (λ w, String.length (sw_text w)) c.
Definition small (b : nat) (c : list shWord) : Prop := cmd_length c <= b.
Definition pending (l : lexer) : nat := cmd_length (lx_cur l) + String.length (lx_text l).

(** What is left to read and what is held would fit in [b] bytes. *)
Definition fits_in (b rest : nat) (l : lexer) : Prop := Forall (small b) (lx_out l) ∧ pending l + rest <= b.

Lemma cmd_length_snoc c w : cmd_length (c ++ [w]) = cmd_length c + String.length (sw_text w).
Proof. unfold cmd_length. rewrite sum_list_with_app. cbn. lia. Qed.
#[local] Arguments cmd_length : simpl never.

Lemma fits_flushWord b rest l : fits_in b rest l → fits_in b rest (flushWord l).
Proof.
  intros [Ho Hp]. unfold flushWord. case_match; [done|]. split; [by case_match|]. unfold pending in *.
  case_match; cbn; rewrite ?cmd_length_snoc; cbn; lia.
Qed.

Lemma fits_flushCmd b rest l : fits_in b rest l → fits_in b rest (flushCmd l).
Proof.
  intros H%fits_flushWord. unfold flushCmd. cbv zeta. remember (flushWord l) as m eqn:Em. clear Em.
  destruct H as [Ho Hp]. unfold fits_in, pending, small in *. cbn.
  split; [|change (cmd_length []) with 0; lia].
  destruct (lx_cur m) as [|w c]; [done|]. apply Forall_snoc. split; [done|]. lia.
Qed.

Lemma fits_le b r1 r2 l : r2 <= r1 → fits_in b r1 l → fits_in b r2 l.
Proof. intros ? [? ?]. split; [done|lia]. Qed.

Lemma fits_write b rest raw text l : fits_in b (String.length text + rest) l → fits_in b rest (write raw text l).
Proof. intros [? Hp]. split; [done|]. unfold pending in *. cbn. rewrite length_app_str. lia. Qed.

(** The text of a part consumed whole. *)
Lemma fits_take b n s raw l : fits_in b (String.length s) l →
  fits_in b (String.length s - n) (write raw (take_str n s) l).
Proof. intros H. apply fits_write. eapply fits_le, H. rewrite length_take_str. lia. Qed.

Lemma fits_substitution b sub c s' l : (∀ t, String.length t < S (String.length s') → Forall (small b) (sub t)) →
  fits_in b (S (String.length s')) l →
  fits_in b (S (String.length s') - (substitution sub (String c s') l).2) (substitution sub (String c s') l).1.
Proof.
  intros Hsub [Ho Hp]. unfold substitution. cbn [fst snd]. apply fits_write. split.
  - cbn [with_commands lx_out]. apply Forall_app. split; [done|]. apply Hsub. rewrite length_take_str, length_drop_str. cbn. lia.
  - unfold pending in *. cbn [with_commands lx_cur lx_text]. rewrite length_take_str. cbn [String.length]. lia.
Qed.

Lemma fits_in_dquotes b sub c s' l : (∀ t, String.length t < S (String.length s') → Forall (small b) (sub t)) →
  fits_in b (S (String.length s')) l →
  fits_in b (S (String.length s') - (in_dquotes sub c s' l).2) (in_dquotes sub c s' l).1.
Proof.
  intros Hsub Hf. unfold in_dquotes. cbv zeta. destruct (Ascii.eqb c dquote).
  { destruct (fits_write b (String.length s') (one dquote) "" l) as [Ho Hp]; [eapply fits_le, Hf; cbn; lia|].
    split; [done|]. unfold pending in *. cbn in *. lia. }
  destruct (_ && head_in _ s') eqn:E.
  { cbn [fst snd]. apply fits_write. eapply fits_le, Hf. case_match; [cbn; lia|]. destruct s'; cbn; lia. }
  case_match; [by apply fits_substitution|]. cbn [fst snd]. apply fits_write. eapply fits_le, Hf. cbn. lia.
Qed.

Lemma fits_step b sub prev c s' l : (∀ t, String.length t < S (String.length s') → Forall (small b) (sub t)) →
  fits_in b (S (String.length s')) l →
  fits_in b (S (String.length s') - (step sub prev c s' l).2) (step sub prev c s' l).1.
Proof.
  intros Hsub Hf. pose proof (fits_in_dquotes b sub c s' l Hsub Hf) as Hdq.
  pose proof (fits_substitution b sub c s' l Hsub Hf) as Hs. unfold step. cbv zeta.
  assert (∀ n, fits_in b (S (String.length s') - n) l) as Hn by (intros n; eapply fits_le, Hf; lia).
  assert (∀ n l', fits_in b (S (String.length s') - n) l' → fits_in b (S (String.length s') - n) (to_redirect l')) as Hr by done.
  split_ifs; cbn [fst snd]; auto using fits_flushWord, fits_flushCmd; clear Hdq Hs Hsub;
    repeat match goal with H : @eq bool _ _ |- _ => clear H end.
  all: try (apply Hr; destruct (Hn (redirect_len prev c s')); split; [done|unfold pending in *; cbn; lia]).
  - destruct s' as [|d t]; [apply fits_write, Hn|]. destruct (Ascii.eqb d newline); cbn [fst snd]; apply fits_write.
    + apply Hn.
    + eapply fits_le, Hf. cbn. lia.
  - clear -Hf. apply fits_write. eapply fits_le, Hf. rewrite length_take_str. cbn [String.length]. lia.
  - destruct (Hn 1) as [Ho Hp]. apply (fits_write b _ (one dquote) "" l), Hn.
  - by apply (fits_take b _ (String c s')).
  - by apply (fits_take b 1 (String c s')).
Qed.

Lemma fits_lex b f prev s l : fits_in b (String.length s) l → fits_in b 0 (lex f prev s l).
Proof.
  revert b prev s l. induction f as [|f IH]; intros b prev s l Hf; cbn [lex]; [by eapply fits_le, Hf; lia|].
  destruct s as [|c s']; [done|]. cbn [String.length] in Hf.
  pose proof (fits_step b (λ inner, lx_out (flushCmd (lex f None inner lexer0))) prev c s' l) as Hstep.
  destruct (step _ prev c s' l) as [l' n]. apply IH. rewrite length_drop_str. apply Hstep; [|done].
  intros t Ht. apply (fits_flushCmd b 0), IH.
  split; [done|]. destruct Hf as [_ Hf]. change (pending lexer0) with 0. lia.
Qed.

Lemma shellCommands_small script : Forall (small (String.length script)) (shellCommands script).
Proof. apply (fits_flushCmd _ 0), fits_lex. split; [constructor|done]. Qed.

(** The lexer with the fuel it needs, and its unfolding. *)
Definition run (prev : option ascii) (s : string) (l : lexer) : lexer := lex (S (String.length s)) prev s l.

Lemma run_nil prev l : run prev "" l = l.
Proof. done. Qed.

Lemma run_cons prev c s' l :
  run prev (String c s') l =
  (let '(l', n) := step shellCommands prev c s' l in run (String.get (n - 1) (String c s')) (drop_str n (String c s')) l').
Proof.
  unfold run at 1. cbn [String.length]. remember (S (String.length s')) as g eqn:Hg. cbn [lex].
  rewrite (step_sub _ shellCommands).
  2: { intros t Ht. unfold shellCommands. f_equal. f_equal. apply lex_enough; lia. }
  pose proof (step_pos shellCommands prev c s' l) as Hn. destruct (step _ prev c s' l) as [l' n]. cbn [snd] in Hn.
  unfold run. apply lex_enough; rewrite length_drop_str; cbn; lia.
Qed.

(** ** A quoted command line reads back *)

Lemma write_write r1 t1 r2 t2 l : write r2 t2 (write r1 t1 l) = write (r1 +:+ r2) (t1 +:+ t2) l.
Proof. unfold write. cbn. by rewrite !app_str_assoc. Qed.

Lemma index_byte_app c s t : mem_ascii c s = false → index_byte c (s +:+ String c t) = Some (String.length s).
Proof.
  induction s as [|a s IH]; str_simpl; [by rewrite Ascii.eqb_refl|]. intros [Ha Hs]%orb_false_elim.
  rewrite (Ascii.eqb_sym a c) in *. rewrite Ha || (rewrite Ascii.eqb_sym in Ha; rewrite Ha). by rewrite (IH Hs).
Qed.

Lemma get_app s c t : String.get (String.length s) (s +:+ String c t) = Some c.
Proof. induction s as [|a s IH]; str_simpl; [done|apply IH]. Qed.

Lemma step_quote sub prev s' l : lx_dq l = false →
  step sub prev sq s' l =
  (let end_ := default (String.length s') (index_byte sq s') in
   let n := Nat.min (end_ + 2) (S (String.length s')) in
   (write (take_str n (String sq s')) (take_str end_ s') l, n)).
Proof. intros Hdq. unfold step. rewrite Hdq. reflexivity. Qed.

Lemma run_quoted prev seg rest l : mem_ascii sq seg = false → lx_dq l = false →
  run prev (String sq (seg +:+ String sq rest)) l = run (Some sq) rest (write (String sq (seg +:+ one sq)) seg l).
Proof.
  intros Hseg Hdq. rewrite run_cons, step_quote, index_byte_app by done. cbv zeta. unfold default, from_option, id.
  rewrite length_app_str. cbn [String.length]. rewrite take_str_length_app.
  replace (Nat.min _ _) with (S (S (String.length seg))) by lia.
  replace (S (S (String.length seg)) - 1) with (S (String.length seg)) by lia.
  assert (seg +:+ String sq rest = (seg +:+ one sq) +:+ rest) as E by (by rewrite app_str_assoc).
  assert (S (String.length seg) = String.length (seg +:+ one sq)) as El by (rewrite length_app_str; cbn; lia).
  change (run (String.get (String.length seg) (seg +:+ String sq rest)) (drop_str (S (String.length seg)) (seg +:+ String sq rest))
    (write (String sq (take_str (S (String.length seg)) (seg +:+ String sq rest))) seg l) =
    run (Some sq) rest (write (String sq (seg +:+ one sq)) seg l)).
  by rewrite get_app, E, El, drop_str_length_app, take_str_length_app.
Qed.

Lemma run_escaped prev rest l : lx_dq l = false →
  run prev (String backslash (String sq rest)) l = run (Some sq) rest (write (String backslash (one sq)) (one sq) l).
Proof. intros Hdq. rewrite run_cons. unfold step. cbv zeta. by rewrite Hdq. Qed.

Lemma run_space prev rest l : lx_dq l = false → run prev (String " " rest) l = run (Some " "%char) rest (flushWord l).
Proof. intros Hdq. rewrite run_cons. unfold step. cbv zeta. by rewrite Hdq. Qed.

Lemma run_quote_body a seg prev rest l : mem_ascii sq seg = false → lx_dq l = false →
  run prev (String sq (seg +:+ quote_body a +:+ String sq rest)) l =
  run (Some sq) rest (write (String sq (seg +:+ quote_body a +:+ one sq)) (seg +:+ a) l).
Proof.
  revert seg prev l. induction a as [|c a IH]; intros seg prev l Hseg Hdq; cbn [quote_body].
  - rewrite !app_str_nil_l, app_str_nil_r. by apply run_quoted.
  - destruct (Ascii.eqb_spec c sq) as [->|Hc].
    + change ("'\''" +:+ quote_body a +:+ ?t) with (String sq (String backslash (String sq (String sq (quote_body a +:+ t))))).
      change (("'\''" +:+ quote_body a) +:+ ?t) with (String sq (String backslash (String sq (String sq (quote_body a +:+ t))))).
      rewrite run_quoted, run_escaped by done.
      pose proof (IH "" (Some sq) (write (String backslash (one sq)) (one sq) (write (String sq (seg +:+ one sq)) seg l)) eq_refl Hdq) as H.
      rewrite !app_str_nil_l in H. rewrite H, !write_write. f_equal. f_equal.
      all: str_simpl; by rewrite ?app_str_assoc.
    + specialize (IH (seg +:+ one c) prev l). rewrite !app_str_assoc in IH. apply IH; [|done].
      clear -Hseg Hc. induction seg as [|d seg IHs]; str_simpl.
      * rewrite orb_false_r. by apply Ascii.eqb_neq; intros ->.
      * cbn in Hseg. apply orb_false_elim in Hseg as [-> Hs]. by apply IHs.
Qed.

Lemma run_shellQuote a prev rest l : lx_dq l = false →
  run prev (shellQuote a +:+ rest) l = run (Some sq) rest (write (shellQuote a) a l).
Proof.
  intros Hdq. pose proof (run_quote_body a "" prev rest l eq_refl Hdq) as H. rewrite !app_str_nil_l in H.
  unfold shellQuote. str_simpl. rewrite app_str_assoc. exact H.
Qed.

(** Text that is read as one part of a word, whatever comes before or after it. *)
Definition reads_as (raw text : string) : Prop :=
  ∀ prev rest l, lx_dq l = false → ∃ prev', run prev (raw +:+ rest) l = run prev' rest (write raw text l).

Lemma shellQuote_reads a : reads_as (shellQuote a) a.
Proof. intros prev rest l Hdq. exists (Some sq). by apply run_shellQuote. Qed.

(** Bytes with no meaning to the lexer. *)
Definition special_bytes : string :=
  " ;&|()#<>$'" +:+ one tab +:+ one newline +:+ one backslash +:+ one dquote.
Definition no_special (s : string) : bool := forallb (λ c, negb (mem_ascii c special_bytes)) (list_ascii_of_string s).

Lemma step_plain sub prev c s' l : mem_ascii c special_bytes = false → lx_dq l = false →
  step sub prev c s' l = (write (one c) (one c) l, 1).
Proof.
  intros Hc Hdq. unfold step. rewrite Hdq. clear Hdq. revert Hc. destruct c as [b0 b1 b2 b3 b4 b5 b6 b7].
  destruct b0, b1, b2, b3, b4, b5, b6, b7; intros Hc; first [discriminate Hc | reflexivity].
Qed.

Lemma plain_reads a : no_special a = true → a ≠ "" → reads_as a a.
Proof.
  induction a as [|c a IH]; [done|]. unfold no_special. cbn [list_ascii_of_string forallb]. intros Hs _ prev rest l Hdq.
  apply andb_prop in Hs as [Hc%negb_true_iff Hs]. rewrite app_str_cons, run_cons, step_plain by done.
  cbn [Nat.sub String.get drop_str]. destruct a as [|d a]; [by eexists|].
  destruct (IH Hs ltac:(done) (Some c) rest (write (one c) (one c) l) Hdq) as (prev' & E). exists prev'. by rewrite E, write_write.
Qed.

Lemma run_words prev out cur w ws : Forall (λ p, reads_as (sw_raw p) (sw_text p)) (w :: ws) →
  flushCmd (run prev (String.concat " " (map sw_raw (w :: ws))) (mkLexer out cur "" "" false false false)) =
  mkLexer (out ++ [cur ++ w :: ws]) [] "" "" false false false.
Proof.
  revert prev cur w. induction ws as [|v ws IH]; intros prev cur [raw text] Hall; apply Forall_cons in Hall as [Hw Hall]; cbn [sw_raw sw_text] in Hw.
  - cbn [map String.concat sw_raw]. rewrite <- (app_str_nil_r raw) at 1.
    edestruct (Hw prev "") as (prev' & ->); [done|]. cbn [run lex String.length]. unfold flushCmd, flushWord, write. cbn.
    by destruct cur.
  - change (String.concat " " (map sw_raw (mkShWord raw text :: v :: ws))) with
      (raw +:+ String " " (String.concat " " (map sw_raw (v :: ws)))).
    edestruct (Hw prev) as (prev' & ->); [done|]. rewrite run_space by done. unfold flushWord, write.
    cbn [lx_inWord lx_redirectTarget lx_out lx_cur lx_dq lx_raw lx_text negb].
    rewrite IH, <- (assoc_L (++)) by done. done.
Qed.

(** Words joined by spaces, each read as it should be, are one command. *)
Lemma shellCommands_joined ws : Forall (λ p, reads_as (sw_raw p) (sw_text p)) ws →
  shellCommands (String.concat " " (map sw_raw ws)) = match ws with [] => [] | _ => [ws] end.
Proof.
  intros Hall. destruct ws as [|w ws]; [done|]. unfold shellCommands.
  fold (run None (String.concat " " (map sw_raw (w :: ws))) lexer0). unfold lexer0. by rewrite run_words.
Qed.

Definition word_of (a : string) : shWord := mkShWord (shellQuote a) a.

Lemma shellCommands_words argv :
  shellCommands (shellJoin argv) = match argv with [] => [] | _ => [map word_of argv] end.
Proof.
  unfold shellJoin. rewrite <- (map_map word_of sw_raw), shellCommands_joined; [by destruct argv|].
  apply Forall_map, Forall_true. intros a. apply shellQuote_reads.
Qed.

(** Quoting is exact. A command line built by quoting each word and joining them is
    read back as one command of exactly those words, each as it was, whatever quotes,
    separators, substitutions or comments the words hold; nothing in a quoted word is a
    command, so no file name can put a program in command position. *)
Theorem shellCommands_shellJoin argv :
  texts (shellCommands (shellJoin argv)) = match argv with [] => [] | _ => [argv] end.
Proof.
  rewrite shellCommands_words. destruct argv as [|a argv]; [done|]. unfold texts. cbn [map]. f_equal. f_equal.
  rewrite map_map. apply map_id.
Qed.
