(* ===== verification/Argv.v ===== *)
(** * A command as one string: ShellJoin and ShellSplit of internal/adequacy/jail.go

    A run's command is carried as one string and taken apart where it is run. The splitter walks runes, so that bytes
    that are no UTF-8 come out as U+FFFD; every byte it treats specially is ASCII, so it is a walk over the bytes of the text so
    repaired. Main result: splitting what was joined gives the words back, repaired ([ShellSplit_joined]). *)
From S2P Require Import Prelude GoLib GoText JsonText Shell.
Local Open Scope string_scope.
Local Open Scope list_scope.

Definition sh_space (c : ascii) : bool := Ascii.eqb c " " || Ascii.eqb c tab || Ascii.eqb c newline || Ascii.eqb c "013".
(** What a backslash escapes inside double quotes. *)
Definition dq_escapes (n : ascii) : bool := Ascii.eqb n dquote || Ascii.eqb n backslash || Ascii.eqb n "$" || Ascii.eqb n "`".
Inductive Quote := NoQuote | InSingle | InDouble.
(** The word begun, if any, and the rest of the text. *)
Definition flushed (cur : option string) : list string := match cur with Some w => [w] | None => [] end.
Definition more (cur : option string) (c : ascii) : option string := Some (default "" cur +:+ one c).
Fixpoint split_words (q : Quote) (cur : option string) (s : string) : list string :=
  match s with
  | "" => flushed cur
  | String c s' =>
      match q with
      | InSingle => if Ascii.eqb c sq then split_words NoQuote cur s' else split_words InSingle (more cur c) s'
      | InDouble =>
          if Ascii.eqb c dquote then split_words NoQuote cur s'
          else
            match s' with
            | String n s2 =>
                if Ascii.eqb c backslash && dq_escapes n then split_words InDouble (more cur n) s2 else split_words InDouble (more cur c) s'
            | "" => split_words InDouble (more cur c) s'
            end
      | NoQuote =>
          if Ascii.eqb c sq then split_words InSingle (Some (default "" cur)) s'
          else if Ascii.eqb c dquote then split_words InDouble (Some (default "" cur)) s'
          else if sh_space c then flushed cur ++ split_words NoQuote None s'
          else
            match s' with
            | String n s2 => if Ascii.eqb c backslash then split_words NoQuote (more cur n) s2 else split_words NoQuote (more cur c) s'
            | "" => split_words NoQuote (more cur c) s'
            end
      end
  end.
Definition ShellSplit (s : string) : list string := split_words NoQuote None (to_valid s).
Definition ShellJoin (argv : list string) : string := shellJoin argv.

(** ** Repairing goes through quoting *)

Lemma to_valid_chunk c t : good_chunk (Some c) → to_valid (c +:+ t) = c +:+ to_valid t.
Proof. intros Hc. unfold to_valid. by rewrite chunks_app. Qed.
Lemma to_valid_ascii a t : code a < 128 → to_valid (String a t) = String a (to_valid t).
Proof. intros Ha. by apply (to_valid_chunk (one a)), ascii_good. Qed.
Lemma to_valid_bad a t : rune_len (String a t) = 0 → to_valid (String a t) = fffd +:+ to_valid t.
Proof. intros E. unfold to_valid. by rewrite chunks_cons, E. Qed.
Lemma quote_body_app s t : quote_body (s +:+ t) = quote_body s +:+ quote_body t.
Proof.
  induction s as [|c s IH]; [done|]. rewrite app_str_cons. cbn [quote_body]. rewrite IH. destruct (Ascii.eqb c sq); [|done]. by rewrite app_str_assoc.
Qed.
(** A rune is one ASCII byte or holds no quote. *)
Lemma rune_quote c : good_chunk (Some c) → c = one sq ∨ quote_body c = c.
Proof.
  intros Hg. destruct c as [|a c]; [by destruct Hg|]. destruct (decide (c = "")) as [->|Hne].
  - cbn [quote_body]. destruct (Ascii.eqb_spec a sq) as [->|]; [by left|by right].
  - right. pose proof (rune_first a c Hg Hne) as Ha. destruct Hg as [Hl _].
    assert (∀ b lo hi t, cont lo hi (String b t) = true → 128 <= lo → Ascii.eqb b sq = false) as Hb.
    { intros b lo hi t H Hlo. apply Ascii.eqb_neq. intros ->. cbn in H. bools. change (code sq) with 39%nat in *. lia. }
    assert (Ascii.eqb a sq = false) as Hq by (apply Ascii.eqb_neq; intros ->; change (code sq) with 39%nat in Ha; lia).
    cbn [rune_len] in Hl. repeat (case_match; bools; try (cbn in Hl; lia)); cbn [String.length] in Hl;
      destruct c as [|b [|c [|d [|? ?]]]]; try (cbn in Hl; lia); cbn [drop_str] in *; cbn [quote_body]; rewrite Hq;
      repeat match goal with H : cont _ _ (String _ _) = true |- _ => apply Hb in H as ->; [|repeat case_match; lia] end; done.
Qed.
Lemma cont_quoted lo hi s t : (128 <= lo)%nat → cont lo hi (quote_body s +:+ String sq t) = cont lo hi s.
Proof.
  intros H. assert (∀ u, cont lo hi (String sq u) = false) as Hq.
  { intros u. unfold cont. change (code sq) with 39%nat. by replace (lo <=? 39)%nat with false by (symmetry; apply Nat.leb_gt; lia). }
  destruct s as [|b s]; [apply Hq|]. cbn [quote_body]. destruct (Ascii.eqb_spec b sq) as [->|]; [|done]. rewrite Hq. apply Hq.
Qed.
Lemma drop_quoted lo hi s t : (128 <= lo)%nat → cont lo hi s = true → drop_str 1 (quote_body s +:+ String sq t) = quote_body (drop_str 1 s) +:+ String sq t.
Proof.
  intros H. destruct s as [|b s]; [done|]. cbn [quote_body]. destruct (Ascii.eqb_spec b sq) as [->|]; [|done]. unfold cont. change (code sq) with 39%nat.
  by replace (lo <=? 39)%nat with false by (symmetry; apply Nat.leb_gt; lia).
Qed.
(** A byte that starts no rune starts none when what follows it is quoted and the quote closed. *)
Lemma bad_quoted a s t : rune_len (String a s) = 0 → rune_len (String a (quote_body s +:+ String sq t)) = 0.
Proof.
  cbn [rune_len]. assert (∀ lo hi, (128 <= lo)%nat → cont lo hi s && cont 128 191 (drop_str 1 s) = false →
    cont lo hi (quote_body s +:+ String sq t) && cont 128 191 (drop_str 1 (quote_body s +:+ String sq t)) = false) as H2.
  { intros lo hi Hlo. rewrite cont_quoted by done. destruct (cont lo hi s) eqn:E; [|done]. cbn [andb]. by rewrite (drop_quoted lo hi), cont_quoted by done. }
  assert (∀ lo hi, (128 <= lo)%nat → cont lo hi s && cont 128 191 (drop_str 1 s) && cont 128 191 (drop_str 2 s) = false →
    cont lo hi (quote_body s +:+ String sq t) && cont 128 191 (drop_str 1 (quote_body s +:+ String sq t)) && cont 128 191 (drop_str 2 (quote_body s +:+ String sq t)) = false) as H3.
  { intros lo hi Hlo. destruct (cont lo hi s && cont 128 191 (drop_str 1 s)) eqn:E; [|intros _; by rewrite (H2 lo hi Hlo E)]. bools. cbn [andb].
    replace (drop_str 2 s) with (drop_str 1 (drop_str 1 s)) by (by destruct s as [|? [|? ?]]). rewrite cont_quoted, (drop_quoted lo hi) by done.
    replace (drop_str 2 (quote_body s +:+ String sq t)) with (drop_str 1 (drop_str 1 (quote_body s +:+ String sq t))) by (by destruct (quote_body s +:+ String sq t) as [|? [|? ?]]).
    rewrite (drop_quoted lo hi), (drop_quoted 128 191), !cont_quoted by done. intros ->. by rewrite andb_false_r. }
  destruct (code a <? 128)%nat; [done|]. destruct (code a <? 194)%nat; [done|].
  destruct (code a <? 224)%nat; [by rewrite cont_quoted by done|].
  destruct (code a <? 240)%nat.
  - destruct (cont _ _ s && _) eqn:E; [done|]. intros _. rewrite H2; [done|case_match; lia|done].
  - destruct (code a <? 245)%nat; [|done]. destruct (cont _ _ s && _ && _) eqn:E; [done|]. intros _. rewrite H3; [done|case_match; lia|done].
Qed.
Lemma to_valid_quote_body s t : to_valid (quote_body s +:+ String sq t) = quote_body (to_valid s) +:+ to_valid (String sq t).
Proof.
  induction s as [s IH] using string_len_ind. destruct s as [|a s]; [done|]. destruct (rune_len (String a s)) as [|n] eqn:E.
  - rewrite (to_valid_bad a s E), quote_body_app, app_str_assoc, <- IH by (cbn; lia).
    assert (Ascii.eqb a sq = false) as Hq by (apply Ascii.eqb_neq; by intros ->). cbn [quote_body]. rewrite Hq, app_str_cons. by apply to_valid_bad, bad_quoted.
  - pose proof (rune_chunk (String a s)) as Hg. rewrite E in Hg. specialize (Hg ltac:(done)). remember (take_str (S n) (String a s)) as c eqn:Ec.
    rewrite <- (take_drop_str (S n) (String a s)), <- Ec. set (r := drop_str (S n) (String a s)).
    assert (String.length r < String.length (String a s)) as Hr by (unfold r; rewrite length_drop_str; cbn; lia).
    rewrite (to_valid_chunk c r Hg), !quote_body_app, !app_str_assoc. destruct (rune_quote c Hg) as [->| ->].
    + change (quote_body (one sq)) with (String sq (String backslash (String sq (String sq "")))). rewrite !app_str_cons, !app_str_nil_l.
      do 4 (rewrite to_valid_ascii by (cbv; lia)). by rewrite IH.
    + by rewrite to_valid_chunk, IH.
Qed.
Lemma to_valid_shellQuote s t : to_valid (shellQuote s +:+ t) = shellQuote (to_valid s) +:+ to_valid t.
Proof.
  unfold shellQuote. change "'" with (String sq ""). rewrite !app_str_assoc, !app_str_cons, !app_str_nil_l, to_valid_ascii, to_valid_quote_body, to_valid_ascii by (cbv; lia). done.
Qed.
Lemma shellJoin_cons a b argv : shellJoin (a :: b :: argv) = shellQuote a +:+ String " " (shellJoin (b :: argv)).
Proof. done. Qed.
Lemma shellJoin_one a : shellJoin [a] = shellQuote a +:+ "".
Proof. by rewrite app_str_nil_r. Qed.
Lemma to_valid_joined argv : to_valid (shellJoin argv) = shellJoin (map to_valid argv).
Proof.
  induction argv as [|a [|b argv] IH]; [done| |]; cbn [map]; [by rewrite !shellJoin_one, to_valid_shellQuote|].
  by rewrite !shellJoin_cons, to_valid_shellQuote, to_valid_ascii, IH by (cbv; lia).
Qed.

(** ** Splitting what was quoted *)

Lemma split_quote_body s : ∀ cur t, split_words InSingle (Some cur) (quote_body s +:+ String sq t) = split_words NoQuote (Some (cur +:+ s)) t.
Proof.
  induction s as [|c s IH]; intros cur t; [by rewrite app_str_nil_r|]. cbn [quote_body]. destruct (Ascii.eqb_spec c sq) as [->|Hc].
  - rewrite app_str_assoc, !app_str_cons, app_str_nil_l. cbn. unfold more; cbn. rewrite IH, app_str_assoc. done.
  - rewrite app_str_cons. cbn [split_words]. apply Ascii.eqb_neq in Hc. rewrite Hc. unfold more; cbn. by rewrite IH, app_str_assoc.
Qed.
Lemma split_shellQuote s t : split_words NoQuote None (shellQuote s +:+ t) = split_words NoQuote (Some s) t.
Proof. unfold shellQuote. change "'" with (String sq ""). rewrite !app_str_assoc, !app_str_cons, !app_str_nil_l. cbn [split_words Ascii.eqb]. cbn. by rewrite split_quote_body. Qed.
Lemma split_shellJoin argv : split_words NoQuote None (shellJoin argv) = argv.
Proof.
  induction argv as [|a [|b argv] IH]; [done|by rewrite shellJoin_one, split_shellQuote|].
  rewrite shellJoin_cons, split_shellQuote. change (a :: split_words NoQuote None (shellJoin (b :: argv)) = a :: b :: argv). by rewrite IH.
Qed.
(** C35. A command survives being carried as one string. Splitting the text of any list of words gives the same words back, in the same number and
    order, with every byte that belongs to no UTF-8 rune replaced by U+FFFD; so a list of valid words comes back unchanged. *)
Theorem ShellSplit_joined argv : ShellSplit (ShellJoin argv) = map to_valid argv ∧ (Forall (λ a, utf8_valid a = true) argv → ShellSplit (ShellJoin argv) = argv).
Proof.
  assert (ShellSplit (ShellJoin argv) = map to_valid argv) as E by (unfold ShellSplit, ShellJoin; by rewrite to_valid_joined, split_shellJoin). split; [done|].
  rewrite E. clear E. induction 1 as [|a l Ha _ IH]; [done|]. cbn. by rewrite to_valid_id, IH.
Qed.
