(* ===== verification/Commands.v ===== *)
(** * The programs a command line runs: internal/lang/shellcmd.go, corralcov.go, shlex.go

    The words in command position of a script read by the lexer of Shell, behind a
    [sh -c] wrapper or not, with the bodies of quoted here-documents removed first.
    [InterpretersIn] reads wrappers inside wrappers: it recurses on an argv whose words
    are shorter in total (the words of a command are no longer than its script,
    [shellCommands_small]), which is the fuel it is given. *)
From S2P Require Import Prelude GoLib GoText Shell.
Local Open Scope string_scope.
Local Open Scope list_scope.

(** ** The wrapper shape *)

Definition is_shell (s : string) : bool :=
  let b := path_base s in String.eqb b "sh" || String.eqb b "bash" || String.eqb b "zsh" || String.eqb b "dash".

Definition cmdIsShellWrapped (cmd : list string) : bool :=
  match cmd with
  | [] => false
  | a :: rest => is_shell a && existsb (String.eqb "-c") rest
  end.

(** The script after the first [-c] that has one, and the words after its [$0]. *)
Fixpoint wrapped_script (argv : list string) : option (string * list string) :=
  match argv with
  | a :: ((script :: rest) as t) =>
      if String.eqb a "-c" then Some (script, drop 1 rest) else wrapped_script t
  | _ => None
  end.

(** ** Command position *)

Definition letters_ : string := "abcdefghijklmnopqrstuvwxyzABCDEFGHIJKLMNOPQRSTUVWXYZ_".
Fixpoint assignment_tail (s : string) : bool :=
  match s with
  | "" => false
  | String c s' =>
      if mem_ascii c (letters_ +:+ decimal_digits) then assignment_tail s'
      else Ascii.eqb c "="%char || Ascii.eqb c "+"%char && head_is "="%char s'
  end.
Definition shAssignment (raw : string) : bool := head_in letters_ raw && assignment_tail raw.

Definition coverageTransparentWord (w : string) : bool :=
  existsb (String.eqb w)
    ["if"; "then"; "else"; "elif"; "fi"; "while"; "until"; "do"; "done"; "for"; "in"; "case"; "esac";
     "{"; "}"; "!"; "time"; "exec"; "command"; "builtin"; "env"; "nohup"; "sudo"; "xargs"; "eval";
     "bundle"; "bundler"].

Definition passed_over (w : shWord) : bool :=
  shAssignment (sw_raw w) || coverageTransparentWord (sw_text w) || all_digits (sw_text w).
Fixpoint commandArgv (cmd : list shWord) : list shWord :=
  match cmd with
  | [] => []
  | w :: rest => if passed_over w then commandArgv rest else cmd
  end.

(** ** ShellScriptCommands *)

Inductive quoting := Unquoted | AfterBackslash (q : option ascii) | Within (q : ascii).

Definition quote_step (q : quoting) (c : ascii) : quoting :=
  match q with
  | AfterBackslash None => Unquoted
  | AfterBackslash (Some d) => Within d
  | Within d =>
      if Ascii.eqb d sq then if Ascii.eqb c sq then Unquoted else q
      else if Ascii.eqb c backslash then AfterBackslash (Some d)
      else if Ascii.eqb c dquote then Unquoted else q
  | Unquoted =>
      if Ascii.eqb c backslash then AfterBackslash None
      else if Ascii.eqb c sq || Ascii.eqb c dquote then Within c else Unquoted
  end.

(** The quoting at the end of the script; [None] when it holds a backquote. *)
Fixpoint quote_scan (q : quoting) (s : string) : option quoting :=
  match s with
  | "" => Some q
  | String c s' => if Ascii.eqb c "`"%char then None else quote_scan (quote_step q c) s'
  end.

Definition ShellScriptCommands (script : string) : option (list (list string)) :=
  match quote_scan Unquoted script with
  | Some Unquoted => Some (texts (shellCommands script))
  | _ => None
  end.

(** ** Here-documents *)

Definition re_space (c : ascii) : bool :=
  mem_ascii c (" " +:+ one tab +:+ one newline +:+ one (byte 12) +:+ one (byte 13)).
Fixpoint skip_spaces (s : string) : string :=
  match s with String c s' => if re_space c then skip_spaces s' else s | "" => "" end.
Definition is_quote (c : ascii) : bool := Ascii.eqb c sq || Ascii.eqb c dquote.
Fixpoint delim_run (s : string) : string :=
  match s with
  | String c s' => if is_quote c || re_space c then "" else String c (delim_run s')
  | "" => ""
  end.

(** The regular expression at the head of the text: dashed, the delimiter, its length. *)
Definition heredoc_at (s : string) : option (bool * string * nat) :=
  if negb (has_prefix "<<" s) then None
  else
    let s1 := drop_str 2 s in
    let dashed := head_is "-"%char s1 in
    match skip_spaces (if dashed then drop_str 1 s1 else s1) with
    | String q s2 =>
        if negb (is_quote q) then None
        else
          let delim := delim_run s2 in
          match drop_str (String.length delim) s2 with
          | String q' s3 =>
              if negb (String.eqb delim "") && is_quote q'
              then Some (dashed, delim, String.length s - String.length s3) else None
          | "" => None
          end
    | "" => None
    end.

(** FindAll over a line: is the byte before the match a [<], dashed, the delimiter. *)
Fixpoint heredocs (skip : nat) (prev : option ascii) (s : string) : list (bool * bool * string) :=
  match s with
  | "" => []
  | String c s' =>
      match skip with
      | S k => heredocs k (Some c) s'
      | O =>
          match heredoc_at s with
          | Some (dashed, delim, n) =>
              (match prev with Some p => Ascii.eqb p "<"%char | None => false end, dashed, delim)
              :: heredocs (n - 1) (Some c) s'
          | None => heredocs O (Some c) s'
          end
      end
  end.

Fixpoint trim_tabs (s : string) : string :=
  match s with String c s' => if Ascii.eqb c tab then trim_tabs s' else s | "" => "" end.

(** The lines after the delimiter line, when there is one. *)
Fixpoint after_delim (dashed : bool) (delim : string) (lines : list string) : option (list string) :=
  match lines with
  | [] => None
  | body :: rest =>
      if String.eqb (if dashed then trim_tabs body else body) delim then Some rest
      else after_delim dashed delim rest
  end.

Fixpoint skip_bodies (ms : list (bool * bool * string)) (rest : list string) : list string :=
  match ms with
  | [] => rest
  | (here_string, dashed, delim) :: ms =>
      if here_string : bool then skip_bodies ms rest
      else match after_delim dashed delim rest with
           | None => rest
           | Some rest' => skip_bodies ms rest'
           end
  end.

Fixpoint strip_bodies (fuel : nat) (lines : list string) : list string :=
  match fuel, lines with
  | S fuel, line :: rest => line :: strip_bodies fuel (skip_bodies (heredocs O None line) rest)
  | _, _ => []
  end.

Fixpoint contains_heredoc (s : string) : bool :=
  match s with "" => false | String _ s' => has_prefix "<<" s || contains_heredoc s' end.

Definition withoutHeredocBodies (script : string) : string :=
  if negb (contains_heredoc script) then script
  else
    let lines := split_on newline script in
    String.concat (one newline) (strip_bodies (length lines) lines).

(** ** shellCommandWords, coverageRunnerNamed, InterpretersIn *)

Definition shellCommandWords (script : string) : list string :=
  omap (λ cmd, sw_text <$> head (commandArgv cmd)) (shellCommands (withoutHeredocBodies script)).

Definition runner_word (word : string) : string := trim_suffix ".cmd" (path_base word).
Definition coverageRunnerNamed (testCmd runners : list string) : bool :=
  match testCmd with
  | [] => false
  | a :: _ =>
      if cmdIsShellWrapped testCmd then
        let script := match wrapped_script testCmd with Some (s, _) => s | None => "" end in
        if String.eqb script "" then false
        else existsb (λ w, existsb (String.eqb (runner_word w)) runners) (shellCommandWords script)
      else existsb (String.eqb (runner_word a)) runners
  end.

Definition positionals_raw (raw : string) : bool :=
  String.eqb raw (one dquote +:+ "$@" +:+ one dquote) || String.eqb raw "$@".

(** One command of a wrapped script. *)
Definition command_programs (rec : list string → option (list string)) (positional : list string)
    (cmd : list shWord) : option (list string) :=
  match commandArgv cmd with
  | [] => Some []
  | (w :: _) as words =>
      let texts := map sw_text words in
      if positionals_raw (sw_raw w) then rec positional
      else if cmdIsShellWrapped texts then rec texts
      else Some [sw_text w]
  end.

Fixpoint interpreters (fuel : nat) (argv : list string) : option (list string) :=
  match fuel with
  | O => None
  | S fuel =>
      match argv with
      | [] => Some []
      | a :: _ =>
          if cmdIsShellWrapped argv then
            match wrapped_script argv with
            | Some (script, positional) =>
                @List.concat string <$> mapM (command_programs (interpreters fuel) positional)
                             (shellCommands (withoutHeredocBodies script))
            | None => Some [a]
            end
          else Some [a]
      end
  end.

Definition total_length (argv : list string) : nat := sum_list_with String.length argv.
Definition InterpretersIn (argv : list string) : option (list string) :=
  interpreters (S (total_length argv)) argv.

(** The wrapper around a suite run for coverage. *)
Definition coverageArgv0 : string := "corral-coverage".
Definition suiteExitTrailer : string := "printf '# suite-exit %s\n' " +:+ one dquote +:+ "$rc" +:+ one dquote.
Definition coverageRunAndReduce (setup env : string) (testCmd : list string) (reduce : string) : list string :=
  let script := "d=$(mktemp -d) && trap 'rm -rf " +:+ one dquote +:+ "$d" +:+ one dquote +:+ "' EXIT && " +:+ setup +:+
    env +:+ " " +:+ one dquote +:+ "$@" +:+ one dquote +:+ " >&2" +:+ "; rc=$?; " +:+ suiteExitTrailer +:+ "; " +:+ reduce in
  ["sh"; "-c"; script; coverageArgv0] ++ testCmd.

Example coverage_programs :
  InterpretersIn (coverageRunAndReduce "mkdir -p cov && " "PYTHONPATH=x" ["/bin/bash"; "-e"; "-c"; "cd a && exec pytest -q"] "cat r") =
  Some ["mktemp"; "trap"; "mkdir"; "cd"; "pytest"; "printf"; "cat"].
Proof. vm_compute. reflexivity. Qed.
Example heredoc_data : shellCommandWords
  ("cat <<-'A' <<'B' >x" +:+ one newline +:+ one tab +:+ "A" +:+ one newline +:+ "code" +:+ one newline +:+ "B" +:+ one newline +:+ "go test") =
  ["cat"; "go"].
Proof. vm_compute. reflexivity. Qed.

(** ** Fuel *)

Lemma concat_sublist_length sep (l k : list string) : sublist l k →
  String.length (String.concat sep l) <= String.length (String.concat sep k).
Proof.
  assert (∀ x t, String.length x + String.length (String.concat sep t) <= String.length (String.concat sep (x :: t))) as Hc.
  { intros x [|y t]; cbn [String.concat]; [cbn; lia|]. rewrite !length_app_str. lia. }
  induction 1 as [|x l k Hs IH|x l k Hs IH]; [done|..].
  - destruct l as [|y l]; [specialize (Hc x k); cbn [String.concat] in *; lia|].
    destruct k as [|z k]; [by apply sublist_nil_r in Hs|].
    cbn [String.concat] in *. rewrite !length_app_str. lia.
  - specialize (Hc x k). lia.
Qed.

Lemma after_delim_sublist dashed delim lines rest : after_delim dashed delim lines = Some rest → sublist rest lines.
Proof.
  induction lines as [|b lines IH]; cbn; [done|]. case_match; [intros [= ->]; by constructor|].
  intros Hs%IH. by constructor.
Qed.

Lemma skip_bodies_sublist ms rest : sublist (skip_bodies ms rest) rest.
Proof.
  revert rest. induction ms as [|[[h d] delim] ms IH]; intros rest; cbn; [done|]. destruct h; [done|].
  destruct (after_delim d delim rest) as [rest'|] eqn:E; [|done]. etrans; [apply IH|by eapply after_delim_sublist].
Qed.

Lemma strip_bodies_sublist fuel lines : sublist (strip_bodies fuel lines) lines.
Proof.
  revert lines. induction fuel as [|fuel IH]; intros [|line rest]; cbn; try apply sublist_nil_l.
  constructor. etrans; [apply IH|apply skip_bodies_sublist].
Qed.

Lemma split_on_nonempty c s : split_on c s ≠ [].
Proof. destruct s; cbn; [done|]. case_match; [done|]. by case_match. Qed.

Lemma concat_split c s : String.concat (one c) (split_on c s) = s.
Proof.
  induction s as [|a s IH]; [done|]. cbn [split_on]. pose proof (split_on_nonempty c s) as Hne.
  destruct (Ascii.eqb_spec a c) as [->|Hac].
  - destruct (split_on c s) as [|w l]; [done|]. change (String.concat (one c) ("" :: w :: l)) with (one c +:+ String.concat (one c) (w :: l)).
    by rewrite IH.
  - destruct (split_on c s) as [|w l]; [done|]. rewrite <- IH. by destruct l.
Qed.

Lemma withoutHeredocBodies_length s : String.length (withoutHeredocBodies s) <= String.length s.
Proof.
  unfold withoutHeredocBodies. case_match; [done|]. rewrite <- (concat_split newline s) at 3.
  apply concat_sublist_length, strip_bodies_sublist.
Qed.

Lemma commandArgv_suffix cmd : commandArgv cmd `suffix_of` cmd.
Proof. induction cmd as [|w cmd IH]; cbn; [done|]. case_match; [by apply suffix_cons_r|done]. Qed.

Lemma total_length_texts cmd : total_length (map sw_text (commandArgv cmd)) <= cmd_length cmd.
Proof.
  assert (∀ c, total_length (map sw_text c) = cmd_length c) as E.
  { induction c as [|w c IH]; [done|]. unfold total_length, cmd_length in *. cbn. by rewrite IH. }
  rewrite E. destruct (commandArgv_suffix cmd) as [c Hc]. rewrite Hc at 2. unfold cmd_length. rewrite sum_list_with_app. lia.
Qed.

(** A wrapper's script and positionals are shorter than the wrapper. *)
Lemma wrapped_script_length argv script positional :
  wrapped_script argv = Some (script, positional) →
  String.length script < total_length argv ∧ total_length positional < total_length argv.
Proof.
  enough (wrapped_script argv = Some (script, positional) →
    2 + String.length script <= total_length argv ∧ 2 + total_length positional <= total_length argv) as Hl.
  { intros H%Hl. lia. }
  { induction argv as [|a [|b l] IH]; [done..|]. cbn [wrapped_script]. destruct (String.eqb_spec a "-c") as [->|_].
    - intros [= -> <-]. unfold total_length. cbn. destruct l as [|z l]; cbn; rewrite ?drop_0; lia.
    - intros H%IH. unfold total_length in *. cbn in *. lia. }
Qed.

Lemma mapM_agree {A B} (f g : A → option B) l :
  Forall (λ a, f a = g a ∧ is_Some (f a)) l → mapM f l = mapM g l ∧ is_Some (mapM f l).
Proof.
  induction 1 as [|a l [E [b Hb]] _ [IHe [bs Hbs]]]; [by split|]. cbn. rewrite <- E, Hb. cbn. rewrite <- IHe, Hbs. by split.
Qed.

Lemma interpreters_enough f g argv : total_length argv < f → total_length argv < g →
  interpreters f argv = interpreters g argv ∧ is_Some (interpreters f argv).
Proof.
  revert g argv. induction f as [f IH] using lt_wf_ind. intros [|g] argv Hf Hg; [lia|].
  destruct f as [|f]; [lia|]. cbn [interpreters]. destruct argv as [|a rest]; [by split|].
  destruct (cmdIsShellWrapped (a :: rest)) eqn:Hw; [|by split].
  destruct (wrapped_script (a :: rest)) as [[script positional]|] eqn:Es; [|by split].
  destruct (wrapped_script_length _ _ _ Es) as [Hscript Hpos].
  pose proof (shellCommands_small (withoutHeredocBodies script)) as Hsmall. pose proof (withoutHeredocBodies_length script) as Hh.
  assert (Forall (λ cmd, command_programs (interpreters f) positional cmd = command_programs (interpreters g) positional cmd ∧
    is_Some (command_programs (interpreters f) positional cmd)) (shellCommands (withoutHeredocBodies script))) as Hall.
  { eapply Forall_impl; [exact Hsmall|]. intros cmd Hc. unfold command_programs.
    pose proof (total_length_texts cmd) as Ht. unfold small in Hc.
    destruct (commandArgv cmd) as [|w words]; [by split|]. case_match; [apply IH; lia|]. case_match; [apply IH; lia|by split]. }
  destruct (mapM_agree _ _ _ Hall) as [E [ps Hps]]. rewrite <- E, Hps. by split.
Qed.

Lemma InterpretersIn_some argv : is_Some (InterpretersIn argv).
Proof. apply (interpreters_enough _ (S (total_length argv))); lia. Qed.

Lemma interpreters_cons f argv : total_length argv < f →
  interpreters f argv = InterpretersIn argv.
Proof. intros Hf. apply interpreters_enough; [done|lia]. Qed.

(** The equation the code is written as. *)
Lemma InterpretersIn_wrapped argv script positional :
  cmdIsShellWrapped argv = true → wrapped_script argv = Some (script, positional) →
  InterpretersIn argv =
  @List.concat string <$> mapM (command_programs InterpretersIn positional) (shellCommands (withoutHeredocBodies script)).
Proof.
  intros Hw Es. unfold InterpretersIn at 1. cbn [interpreters]. destruct argv as [|a rest]; [done|]. rewrite Hw, Es. f_equal.
  destruct (wrapped_script_length _ _ _ Es) as [Hscript Hpos].
  pose proof (shellCommands_small (withoutHeredocBodies script)) as Hsmall. pose proof (withoutHeredocBodies_length script) as Hh.
  remember (total_length (a :: rest)) as n eqn:En. clear En.
  induction Hsmall as [|cmd cmds Hc _ IH]; [done|]. cbn [mapM]. rewrite IH.
  enough (command_programs (interpreters n) positional cmd = command_programs InterpretersIn positional cmd) as -> by done.
  unfold command_programs. pose proof (total_length_texts cmd) as Ht. unfold small in Hc.
  destruct (commandArgv cmd) as [|w words]; [done|]. do 2 (case_match; [apply interpreters_cons; lia|]). done.
Qed.

(** The search for a command's programs always ends: a wrapper's script, and each
    command in it, holds fewer bytes than the wrapper, so the recursion is bounded by the
    bytes of the command line, and with that much fuel or more there is one answer. *)
Theorem InterpretersIn_terminates argv fuel : total_length argv < fuel →
  is_Some (interpreters fuel argv) ∧ interpreters fuel argv = InterpretersIn argv.
Proof. intros Hf. split; [by apply (interpreters_enough fuel fuel)|by apply interpreters_cons]. Qed.

(** ** Quoted commands *)

Lemma split_on_absent c s : mem_ascii c s = false → split_on c s = [s].
Proof. induction s as [|a s IH]; cbn; [done|]. intros [-> Hs]%orb_false_elim. by rewrite IH. Qed.

Lemma skip_bodies_nil ms : skip_bodies ms [] = [].
Proof. induction ms as [|[[[] ?] ?] ms IH]; cbn; auto. Qed.

Lemma withoutHeredocBodies_line s : mem_ascii newline s = false → withoutHeredocBodies s = s.
Proof.
  intros Hs. unfold withoutHeredocBodies. case_match; [done|]. rewrite split_on_absent by done. cbn. done.
Qed.


Lemma quote_body_mem c s : Ascii.eqb c sq = false → Ascii.eqb c backslash = false →
  mem_ascii c (quote_body s) = mem_ascii c s.
Proof.
  intros Hq Hb. rewrite Ascii.eqb_sym in Hq, Hb. induction s as [|a s IH]; [done|]. cbn [quote_body mem_ascii].
  destruct (Ascii.eqb_spec a sq) as [->|_]; [|cbn [mem_ascii]; by rewrite IH].
  rewrite mem_ascii_app, IH, Hq. change "'\''" with (String sq (String backslash (String sq (one sq)))).
  cbn [mem_ascii one]. by rewrite Hq, Hb.
Qed.

Lemma shellJoin_mem c argv : Ascii.eqb c sq = false → Ascii.eqb c backslash = false → Ascii.eqb c " "%char = false →
  mem_ascii c (shellJoin argv) = existsb (mem_ascii c) argv.
Proof.
  intros Hq Hb Hs.
  assert (∀ a, mem_ascii c (shellQuote a) = mem_ascii c a) as Ha.
  { intros a. unfold shellQuote. rewrite !mem_ascii_app, quote_body_mem by done. change "'" with (one sq).
    cbn [mem_ascii one]. rewrite (Ascii.eqb_sym sq), Hq. by rewrite !orb_false_r. }
  induction argv as [|a [|b argv] IH]; [done|cbn; by rewrite Ha, orb_false_r|].
  change (shellJoin (a :: b :: argv)) with (shellQuote a +:+ " " +:+ shellJoin (b :: argv)).
  rewrite !mem_ascii_app, IH, Ha. cbn [mem_ascii]. by rewrite (Ascii.eqb_sym " "), Hs.
Qed.

Lemma map_text_word argv : map sw_text (map word_of argv) = argv.
Proof. rewrite map_map. apply map_id. Qed.

Lemma command_programs_quoted rec positional a argv :
  coverageTransparentWord a = false → all_digits a = false →
  command_programs rec positional (map word_of (a :: argv)) =
  if cmdIsShellWrapped (a :: argv) then rec (a :: argv) else Some [a].
Proof.
  intros Hword Hnum. unfold command_programs.
  assert (commandArgv (map word_of (a :: argv)) = map word_of (a :: argv)) as ->; [|cbn [map]; by rewrite map_text_word].
  cbn [map commandArgv]. unfold passed_over. cbn [word_of sw_raw sw_text]. by rewrite Hword, Hnum.
Qed.

(** Quoting hides nothing and adds nothing. A command quoted into a shell's [-c]
    script, as the jail runs every command, has the programs of the command itself, however many
    wrappers it holds: for a command on one line whose first word is neither a keyword
    nor a number, the answer through the wrapper is the answer without it. *)
Theorem InterpretersIn_quoted shell a argv rest :
  is_shell shell = true → coverageTransparentWord a = false → all_digits a = false →
  existsb (mem_ascii newline) (a :: argv) = false →
  InterpretersIn (shell :: "-c" :: shellJoin (a :: argv) :: rest) = InterpretersIn (a :: argv).
Proof.
  intros Hshell Hword Hnum Hline.
  assert (wrapped_script (shell :: "-c" :: shellJoin (a :: argv) :: rest) = Some (shellJoin (a :: argv), drop 1 rest)) as Hscript.
  { cbn [wrapped_script]. destruct (String.eqb_spec shell "-c") as [->|_]; [done|]. by rewrite String.eqb_refl. }
  assert (cmdIsShellWrapped (shell :: "-c" :: shellJoin (a :: argv) :: rest) = true) as Hsh.
  { unfold cmdIsShellWrapped. by rewrite Hshell. }
  rewrite (InterpretersIn_wrapped _ _ _ Hsh Hscript).
  rewrite withoutHeredocBodies_line by (by rewrite shellJoin_mem). rewrite shellCommands_words.
  cbn [mapM]. rewrite command_programs_quoted by done. unfold InterpretersIn at 2. cbn [interpreters].
  destruct (cmdIsShellWrapped (a :: argv)) eqn:Hw; [|done].
  destruct (InterpretersIn_some (a :: argv)) as [ps Hps]. rewrite Hps. cbn. rewrite app_nil_r.
  rewrite <- Hps. unfold InterpretersIn. cbn [interpreters]. by rewrite Hw.
Qed.

(** ** The operator's command in corral's wrapper *)

Lemma mapM_concat_in {A} (f : A → option (list string)) l x ps out :
  x ∈ l → f x = Some ps → mapM f l = Some out → ∀ p, p ∈ ps → p ∈ concat out.
Proof.
  intros Hx Hf Hm p Hp. apply mapM_Some in Hm. apply list_elem_of_lookup in Hx as [i Hi].
  destruct (Forall2_lookup_l _ _ _ _ _ Hm Hi) as (y & Hy & Hfy). rewrite Hf in Hfy. injection Hfy as <-.
  apply list_elem_of_In, in_concat. exists ps. split; apply list_elem_of_In; [|done]. by eapply list_elem_of_lookup_2.
Qed.

(** The operator's command is never lost in a wrapper. Where a wrapper's script runs its
    positional parameters in command position, as every coverage wrapper's does, each
    program of the command passed there is among the wrapper's programs, so the toolchain
    the jail binds for the bare command is bound for the instrumented one. *)
Theorem positional_programs_bound argv script positional cmd w words p :
  cmdIsShellWrapped argv = true → wrapped_script argv = Some (script, positional) →
  cmd ∈ shellCommands (withoutHeredocBodies script) → commandArgv cmd = w :: words → positionals_raw (sw_raw w) = true →
  (∃ ps, InterpretersIn positional = Some ps ∧ p ∈ ps) → ∃ progs, InterpretersIn argv = Some progs ∧ p ∈ progs.
Proof.
  intros Hw Es Hcmd Ha Hraw (ps & Hps & Hp). destruct (InterpretersIn_some argv) as [progs E]. exists progs. split; [done|].
  rewrite (InterpretersIn_wrapped _ _ _ Hw Es) in E. apply fmap_Some in E as (out & Hm & ->).
  eapply mapM_concat_in; [exact Hcmd| |exact Hm|exact Hp]. unfold command_programs. by rewrite Ha, Hraw.
Qed.

Lemma positional_programs_bound_witness :
  ∃ progs, InterpretersIn (coverageRunAndReduce "mkdir -p cov && " "PYTHONPATH=x" ["/bin/bash"; "-c"; "pytest -q"] "cat r") = Some progs ∧
    "pytest" ∈ progs.
Proof.
  eapply (positional_programs_bound _ _ ["/bin/bash"; "-c"; "pytest -q"]
    (map (λ s, mkShWord s s) ["PYTHONPATH=x"] ++ [mkShWord (one dquote +:+ "$@" +:+ one dquote) "$@"])
    (mkShWord (one dquote +:+ "$@" +:+ one dquote) "$@") [] "pytest").
  - reflexivity.
  - reflexivity.
  - apply list_elem_of_In. vm_compute. tauto.
  - vm_compute. reflexivity.
  - vm_compute. reflexivity.
  - exists ["pytest"]. split; [vm_compute; reflexivity|apply list_elem_of_here].
Defined.

Lemma InterpretersIn_quoted_witness :
  InterpretersIn ["sh"; "-c"; shellJoin ["bash"; "-c"; "go test; exec 'npm' ci"]] = InterpretersIn ["bash"; "-c"; "go test; exec 'npm' ci"].
Proof. apply InterpretersIn_quoted; vm_compute; reflexivity. Defined.

Lemma InterpretersIn_terminates_witness :
  is_Some (interpreters 40 ["sh"; "-c"; "sh -c 'sh -c go'"]) ∧
  interpreters 40 ["sh"; "-c"; "sh -c 'sh -c go'"] = InterpretersIn ["sh"; "-c"; "sh -c 'sh -c go'"].
Proof. apply InterpretersIn_terminates. vm_compute. lia. Defined.

(** ** Reading a quoted script with confidence *)

Lemma quote_scan_app q s t : quote_scan q (s +:+ t) = quote_scan q s ≫= λ q', quote_scan q' t.
Proof.
  revert q. induction s as [|c s IH]; intros q; [done|]. rewrite app_str_cons. cbn [quote_scan].
  destruct (Ascii.eqb c "`"%char); [done|apply IH].
Qed.

Lemma quote_scan_body s :
  quote_scan (Within sq) (quote_body s) = if mem_ascii "`"%char s then None else Some (Within sq).
Proof.
  induction s as [|c s IH]; [done|]. cbn [quote_body mem_ascii]. destruct (Ascii.eqb_spec c sq) as [->|Hc].
  - rewrite quote_scan_app. cbn. exact IH.
  - cbn [quote_scan]. destruct (Ascii.eqb c "`"%char); [done|]. cbn [orb]. rewrite <- IH. f_equal. cbn [quote_step].
    rewrite Ascii.eqb_refl. by apply Ascii.eqb_neq in Hc as ->.
Qed.

Lemma quote_scan_word s : quote_scan Unquoted (shellQuote s) = if mem_ascii "`"%char s then None else Some Unquoted.
Proof.
  unfold shellQuote. rewrite quote_scan_app. change (quote_scan Unquoted "'") with (Some (Within sq)). cbn [mbind option_bind].
  rewrite quote_scan_app, quote_scan_body. by destruct (mem_ascii _ s).
Qed.

(** A script is read with confidence or not at all: the script of a quoted command is
    read as exactly that command, and is refused just when a word holds a backquote. *)
Theorem ShellScriptCommands_quoted a argv :
  ShellScriptCommands (shellJoin (a :: argv)) =
  if existsb (mem_ascii "`"%char) (a :: argv) then None else Some [a :: argv].
Proof.
  assert (∀ l, quote_scan Unquoted (shellJoin l) = if existsb (mem_ascii "`"%char) l then None else Some Unquoted) as Hs.
  { induction l as [|b [|c l] IH]; [done|unfold shellJoin; cbn [map String.concat existsb]; by rewrite quote_scan_word, orb_false_r|].
    change (shellJoin (b :: c :: l)) with (shellQuote b +:+ " " +:+ shellJoin (c :: l)).
    rewrite !quote_scan_app, quote_scan_word. cbn [existsb] in *. destruct (mem_ascii _ b); [done|]. cbn. exact IH. }
  unfold ShellScriptCommands. rewrite Hs, shellCommands_words. destruct (existsb _ _); [done|].
  unfold texts. cbn [map]. by rewrite map_text_word.
Qed.

(** A command hidden: the here-document operator inside a quoted word, and a later line
    that is its delimiter. The shell runs [rm]; the reader drops it with the line. *)
Lemma heredoc_hides_command :
  let script := "echo " +:+ one dquote +:+ "<<'X'" +:+ one dquote +:+ one newline +:+ "rm -rf y" +:+ one newline +:+ "X" +:+ one newline +:+ "go" in
  shellCommandWords script = ["echo"; "go"] ∧
  omap (λ cmd, sw_text <$> head (commandArgv cmd)) (shellCommands script) = ["echo"; "rm"; "X"; "go"].
Proof. split; vm_compute; reflexivity. Qed.
