(* ===== verification/Redact.v ===== *)
(** * The recorded command: cmd/corral/record_settings.go

    What a signed, published entry says of the command a run executed: an allowlist,
    every token either provably safe or replaced. Whether a path exists in the
    repository is the file system's answer ([lstat], reached through an [os.Root]);
    everything before that question is the code's. Main results: what is recorded is
    on the list ([redactCommand_safe]), a hidden value leaves no trace
    ([redactCommand_hides]), and the recorded text is the command it quotes
    ([testCommandText_reads]). *)
From S2P Require Import Prelude GoLib GoText Shell Commands.
Local Open Scope string_scope.
Local Open Scope list_scope.

Definition redactedValue : string := "<redacted>".
Definition in_words (l : list string) (w : string) : bool := existsb (String.eqb w) l.

Definition launcherWords : list string :=
  ["node"; "python"; "python3"; "npm"; "npx"; "pnpm"; "yarn"; "bun"; "go"; "cargo"; "bundle"; "ruby"; "php";
   "composer"; "sh"; "bash"; "env"].
Definition subcommandWords : list string := ["run"; "test"; "exec"; "-m"].
Definition shortFlagsKept : list string :=
  ["race"; "run"; "count"; "short"; "timeout"; "cover"; "bench"; "json"; "parallel"; "failfast"].

(** The words of the runner table's rows. *)
Definition runnerWords : list string :=
  ["gotestsum"; "pytest"; "unittest"; "jest"; "mocha"; "vitest"; "rspec"; "ruby"; "rake"; "testrb"; "phpunit"; "cargo"].

(** ** The regular expressions *)

Definition letters : string := "abcdefghijklmnopqrstuvwxyzABCDEFGHIJKLMNOPQRSTUVWXYZ".
Definition name_start : string := letters +:+ "_".
Definition name_chars : string := name_start +:+ decimal_digits.
Definition flag_chars : string := letters +:+ decimal_digits +:+ "-".
Definition plain_chars : string := name_chars +:+ "./+-".
Definition quote_plain_chars : string := name_chars +:+ "@%+=:,./-".

(** The longest run of the bytes, and the rest. *)
Fixpoint span_of (chars s : string) : string * string :=
  match s with
  | "" => ("", "")
  | String c s' =>
      if mem_ascii c chars then let '(a, b) := span_of chars s' in (String c a, b) else ("", s)
  end.

(** A name: a byte of [start], then bytes of [rest]; and what follows it. *)
Definition read_name (start rest s : string) : option (string * string) :=
  match s with
  | String c s' => if mem_ascii c start then let '(a, b) := span_of rest s' in Some (String c a, b) else None
  | "" => None
  end.

(** [--?[A-Za-z][A-Za-z0-9-]*], at the head. *)
Definition read_flag (s : string) : option (string * string) :=
  if has_prefix "--" s then (λ p, ("--" +:+ p.1, p.2)) <$> read_name letters flag_chars (drop_str 2 s)
  else if has_prefix "-" s then (λ p, ("-" +:+ p.1, p.2)) <$> read_name letters flag_chars (drop_str 1 s)
  else None.

Definition flagRe (s : string) : bool :=
  match read_flag s with Some (_, rest) => String.eqb rest "" | None => false end.

(** The value after the [=], to the end: [.] is any byte but a newline. *)
Definition value_after (s : string) : option string :=
  match s with
  | String c v => if Ascii.eqb c "="%char && negb (mem_ascii newline v) then Some v else None
  | "" => None
  end.
Definition with_value (p : option (string * string)) : option (string * string) :=
  match p with Some (name, rest) => (λ v, (name, v)) <$> value_after rest | None => None end.
Definition flagValueRe (s : string) : option (string * string) := with_value (read_flag s).
Definition assignmentRe (s : string) : option (string * string) := with_value (read_name name_start name_chars s).

Definition plainWordRe (s : string) : bool := negb (String.eqb s "") && only_bytes_of plain_chars s.
Definition quotePlainRe (s : string) : bool := negb (String.eqb s "") && only_bytes_of quote_plain_chars s.

Fixpoint trim_dashes (s : string) : string :=
  match s with String c s' => if Ascii.eqb c "-"%char then trim_dashes s' else s | "" => "" end.

(** ** One token *)

Definition contains_byte (c : ascii) (s : string) : bool := mem_ascii c s.

(** The textual checks before the file system is asked. *)
Definition repo_path_text (tok : string) : option string :=
  if String.eqb tok "" || has_prefix "/" tok then None
  else
    let t := trim_suffix "/..." tok in
    let t := if String.eqb t "" then "." else t in
    if String.eqb t "..." then None
    else if existsb (String.eqb "..") (split_on "/"%char t) then None
    else
      let c := path_clean t in
      if negb (String.eqb c (trim_suffix "/" (trim_prefix "./" t))) && negb (String.eqb t "." || String.eqb t "./") then None
      else Some c.

Section Redact.
(** Does the cleaned path exist in the repository, through an [os.Root]? *)
Variable lstat : string → string → bool.

Definition repoPathExists (repoRoot tok : string) : bool :=
  if String.eqb repoRoot "" then false
  else match repo_path_text tok with Some c => lstat repoRoot c | None => false end.

Definition flagAllowed (name : string) : bool :=
  if negb (flagRe name) then false
  else
    let bare := trim_dashes name in
    has_prefix "--" name || (String.length bare =? 1)%nat || in_words shortFlagsKept bare.

Definition keepToken (tok repoRoot : string) (words : list string) (first : bool) : string :=
  if String.eqb tok "--" then tok
  else if first && plainWordRe tok then path_base tok
  else if plainWordRe tok && negb (contains_byte "/"%char tok)
          && (in_words launcherWords tok || in_words words tok || in_words subcommandWords tok) then tok
  else if in_words subcommandWords tok then tok
  else if flagAllowed tok then tok
  else if repoPathExists repoRoot tok then tok
  else redactedValue.

Definition valueOf (v repoRoot : string) : string := if repoPathExists repoRoot v then v else redactedValue.

Definition redactToken (tok repoRoot : string) (words : list string) (first assign : bool) : string :=
  match flagValueRe tok with
  | Some (name, v) => if flagAllowed name then name +:+ "=" +:+ valueOf v repoRoot else redactedValue
  | None =>
      match assignmentRe tok with
      | Some (name, v) => if assign then name +:+ "=" +:+ valueOf v repoRoot else keepToken tok repoRoot words first
      | None => keepToken tok repoRoot words first
      end
  end.

(** ** A command *)

Definition still_assign (assign : bool) (a : string) : bool :=
  assign && (match assignmentRe a with Some _ => true | None => false end || String.eqb (path_base a) "env").

Fixpoint redact_words (repoRoot : string) (words : list string) (assign : bool) (c : list string) : list string :=
  match c with
  | [] => []
  | w :: c => redactToken w repoRoot words false assign :: redact_words repoRoot words (still_assign assign w) c
  end.

Definition redactScript (script repoRoot : string) (words : list string) : string :=
  match ShellScriptCommands script with
  | None => redactedValue
  | Some cmds => String.concat " ; " (map (λ c, String.concat " " (redact_words repoRoot words true c)) cmds)
  end.

Definition cmdShellName (a : string) : bool := is_shell a.

(** The position of the script: after the first [-c] that has a word after it. *)
Fixpoint script_index (i : nat) (argv : list string) : option nat :=
  match argv with
  | a :: (_ :: _) as t => if String.eqb a "-c" then Some (S i) else script_index (S i) t
  | _ => None
  end.

Fixpoint redact_from (i : nat) (script : option nat) (repoRoot : string) (words : list string) (assign : bool)
    (argv : list string) : list string :=
  match argv with
  | [] => []
  | a :: rest =>
      if bool_decide (script = Some i) then
        redactScript a repoRoot words :: redact_from (S i) script repoRoot words assign rest
      else
        redactToken a repoRoot words (i =? 0)%nat assign
          :: redact_from (S i) script repoRoot words (still_assign assign a) rest
  end.

Definition redactCommand (argv : list string) (repoRoot : string) : list string :=
  let shell := match argv with a :: _ => cmdShellName a | [] => false end in
  redact_from 0 (if shell then script_index 0 argv else None) repoRoot runnerWords true argv.

Definition shell_word (a : string) : string := if quotePlainRe a then a else shellQuote a.
Definition shellQuoted (argv : list string) : string := String.concat " " (map shell_word argv).

Definition testCommandText (argv : list string) (repoRoot : string) : string :=
  match argv with [] => "" | _ => shellQuoted (redactCommand argv repoRoot) end.

(** ** What may be recorded *)

(** What may be recorded of a token: [first] marks [argv[0]], recorded by its base name, [script] the
    script of a shell, recorded word by word. No constructor records a byte of the token but of a fixed list, a flag or
    variable name, or a path that exists in the repository. *)
#[warnings="-register-all"]
Inductive recordable (repoRoot : string) : bool → bool → string → string → Prop :=
  | rec_redacted first script tok : recordable repoRoot first script tok redactedValue
  | rec_dashes first : recordable repoRoot first false "--" "--"
  | rec_word first w : in_words (launcherWords ++ runnerWords ++ subcommandWords) w = true → recordable repoRoot first false w w
  | rec_flag first f : flagAllowed f = true → recordable repoRoot first false f f
  | rec_path first p : repoPathExists repoRoot p = true → recordable repoRoot first false p p
  | rec_base w : plainWordRe w = true → recordable repoRoot true false w (path_base w)
  | rec_value first name v v' :
      flagAllowed name = true ∨ read_name name_start name_chars name = Some (name, "") →
      v' = redactedValue ∨ v' = v ∧ repoPathExists repoRoot v = true →
      recordable repoRoot first false (name +:+ "=" +:+ v) (name +:+ "=" +:+ v')
  | rec_script first tok cs outs : ShellScriptCommands tok = Some cs → Forall2 (Forall2 (recordable repoRoot false false)) cs outs →
      recordable repoRoot first true tok (String.concat " ; " (map (String.concat " ") outs)).

Lemma in_words_app l1 l2 w : in_words (l1 ++ l2) w = in_words l1 w || in_words l2 w.
Proof. apply existsb_app. Qed.

Lemma keepToken_recordable tok repoRoot first : recordable repoRoot first false tok (keepToken tok repoRoot runnerWords first).
Proof.
  unfold keepToken. destruct (String.eqb_spec tok "--") as [->|_]; [constructor|].
  case_match; [bools; subst; by constructor|].
  destruct (_ && (_ || _)) eqn:Hw.
  { bools. apply rec_word. rewrite !in_words_app. destruct (in_words launcherWords tok); [done|].
    by destruct (in_words runnerWords tok), (in_words subcommandWords tok). }
  case_match; [apply rec_word; rewrite !in_words_app; rewrite H0; by rewrite !orb_true_r|].
  do 2 (case_match; [by constructor|]). constructor.
Qed.

Lemma valueOf_listed v repoRoot : valueOf v repoRoot = redactedValue ∨ valueOf v repoRoot = v ∧ repoPathExists repoRoot v = true.
Proof. unfold valueOf. case_match; auto. Qed.

Lemma span_of_self chars s a b : span_of chars s = (a, b) → span_of chars a = (a, "").
Proof.
  revert a b. induction s as [|c s IH]; intros a b; cbn; [by intros [= <- <-]|].
  destruct (mem_ascii c chars) eqn:Hc; [|by intros [= <- <-]]. destruct (span_of chars s) as [a' b'].
  intros [= <- <-]. cbn. by rewrite Hc, (IH _ _ eq_refl).
Qed.

Lemma read_name_self start rest s a b : read_name start rest s = Some (a, b) → read_name start rest a = Some (a, "").
Proof.
  destruct s as [|c s]; cbn; [done|]. destruct (mem_ascii c start) eqn:Hc; [|done].
  destruct (span_of rest s) as [a' b'] eqn:E. intros [= <- <-]. cbn. by rewrite Hc, (span_of_self _ _ _ _ E).
Qed.

Lemma span_of_split chars s a b : span_of chars s = (a, b) → s = a +:+ b.
Proof.
  revert a b. induction s as [|c s IH]; intros a b; cbn; [by intros [= <- <-]|].
  destruct (mem_ascii c chars); [|by intros [= <- <-]]. destruct (span_of chars s) as [a' b'].
  intros [= <- <-]. cbn. by rewrite (IH _ _ eq_refl).
Qed.
Lemma read_name_split start rest s a b : read_name start rest s = Some (a, b) → s = a +:+ b.
Proof.
  destruct s as [|c s]; cbn; [done|]. destruct (mem_ascii c start); [|done].
  destruct (span_of rest s) as [a' b'] eqn:E. intros [= <- <-]. by rewrite (span_of_split _ _ _ _ E).
Qed.
Lemma drop_prefix p s : has_prefix p s = true → s = p +:+ drop_str (String.length p) s.
Proof. intros (t & ->)%has_prefix_iff. by rewrite drop_str_length_app. Qed.
Lemma read_flag_split s a b : read_flag s = Some (a, b) → s = a +:+ b.
Proof.
  unfold read_flag. destruct (has_prefix "--" s) eqn:E2; [|destruct (has_prefix "-" s) eqn:E1; [|done]];
    (destruct (read_name _ _ _) as [[n r]|] eqn:E; [|done]); intros [= <- <-]; rewrite app_str_assoc; rewrite <- (read_name_split _ _ _ _ _ E);
    by apply drop_prefix.
Qed.
(** A token read as a name and a value is the two with the [=] between. *)
Lemma with_value_split tok p name v : (∀ a b, p = Some (a, b) → tok = a +:+ b) → with_value p = Some (name, v) → tok = name +:+ "=" +:+ v.
Proof.
  intros Hp. unfold with_value. destruct p as [[n r]|]; [|done]. unfold value_after. destruct r as [|c r]; [done|].
  destruct (Ascii.eqb_spec c "=") as [->|]; [|done]. destruct (negb _); [|done]. cbn. intros [= <- <-]. by apply Hp.
Qed.

Lemma redactToken_recordable tok repoRoot first assign :
  recordable repoRoot first false tok (redactToken tok repoRoot runnerWords first assign).
Proof.
  unfold redactToken. destruct (flagValueRe tok) as [[name v]|] eqn:Ef.
  { destruct (flagAllowed name) eqn:E; [|constructor]. rewrite (with_value_split tok _ name v (read_flag_split tok) Ef).
    apply rec_value; [by left|apply valueOf_listed]. }
  destruct (assignmentRe tok) as [[name v]|] eqn:E; [|apply keepToken_recordable].
  destruct assign; [|apply keepToken_recordable]. rewrite (with_value_split tok _ name v (read_name_split _ _ tok) E).
  apply rec_value; [right|apply valueOf_listed].
  unfold assignmentRe, with_value in E. destruct (read_name _ _ tok) as [[n r]|] eqn:Hn; [|done].
  destruct (value_after r); [|done]. injection E as -> ->. by eapply read_name_self.
Qed.

Lemma redact_words_recordable repoRoot assign c : Forall2 (recordable repoRoot false false) c (redact_words repoRoot runnerWords assign c).
Proof. revert assign. induction c as [|w c IH]; intros assign; constructor; [apply redactToken_recordable|apply IH]. Qed.

Lemma redactScript_recordable script repoRoot first : recordable repoRoot first true script (redactScript script repoRoot runnerWords).
Proof.
  unfold redactScript. destruct (ShellScriptCommands script) as [cs|] eqn:E; [|constructor].
  rewrite <- (map_map (redact_words repoRoot runnerWords true)). eapply rec_script; [exact E|]. apply Forall2_fmap_r, Forall_Forall2_diag, Forall_true.
  intros c. apply redact_words_recordable.
Qed.

Lemma redact_from_recordable k script repoRoot assign argv i tok t : argv !! i = Some tok →
  redact_from k script repoRoot runnerWords assign argv !! i = Some t →
  recordable repoRoot (k + i =? 0)%nat (bool_decide (script = Some (k + i))) tok t.
Proof.
  revert k assign i. induction argv as [|a argv IH]; intros k assign i; cbn; [done|].
  case_bool_decide as Hs; destruct i as [|i]; cbn; rewrite ?Nat.add_0_r.
  - intros [= ->] [= <-]. rewrite bool_decide_eq_true_2 by done. apply redactScript_recordable.
  - intros Ha Hi%(IH _ _ _ Ha). by replace (k + S i) with (S k + i) by lia.
  - intros [= ->] [= <-]. rewrite bool_decide_eq_false_2 by done. apply redactToken_recordable.
  - intros Ha Hi%(IH _ _ _ Ha). by replace (k + S i) with (S k + i) by lia.
Qed.

Lemma length_redactCommand argv repoRoot : length (redactCommand argv repoRoot) = length argv.
Proof.
  unfold redactCommand. generalize (if match argv with [] => false | a :: _ => cmdShellName a end then script_index 0 argv else None).
  intros script. generalize O, true. induction argv as [|a argv IH]; intros k assign; cbn; [done|].
  by case_bool_decide; cbn; rewrite IH.
Qed.

(** Where a command's script is: after the first [-c] of a shell's words that has a word after it. *)
Definition script_of (argv : list string) : option nat :=
  match argv with a :: _ => if cmdShellName a then script_index 0 argv else None | [] => None end.

(** C32. What is recorded of a command is on the allowlist. Each token keeps its position, and what stands there is
    recorded of the very token that stood there: the redaction mark, or the token itself when it is a listed word, an allowed flag or a path
    that exists in the repository, the base name of [argv[0]], or a flag or variable name with the token's value under the same
    rule. The script of a shell is its commands, word by word under that rule, or the mark. So no other byte of the command, and no secret in
    one, is signed and published. *)
Theorem redactCommand_safe argv repoRoot :
  length (redactCommand argv repoRoot) = length argv ∧
  ∀ i tok t, argv !! i = Some tok → redactCommand argv repoRoot !! i = Some t →
    recordable repoRoot (i =? 0)%nat (bool_decide (script_of argv = Some i)) tok t.
Proof.
  split; [apply length_redactCommand|]. intros i tok t Ha Ht. pose proof (redact_from_recordable 0 _ _ _ _ _ _ _ Ha Ht) as H.
  assert (script_of argv = if match argv with a :: _ => cmdShellName a | [] => false end then script_index 0 argv else None) as ->
    by (by destruct argv as [|a argv]; [|unfold script_of; destruct (cmdShellName a)]). exact H.
Qed.

(** ** A hidden value leaves no trace *)

(** A flag or variable name, and a value that is no path, in a token that is none and
    whose last path element names neither a shell nor [env]. *)
Definition value_name (name : string) : Prop :=
  read_flag name = Some (name, "") ∨ read_name name_start name_chars name = Some (name, "").
Definition hidden (repoRoot name v : string) : bool :=
  let tok := name +:+ String "=" v in
  negb (mem_ascii newline v) && negb (repoPathExists repoRoot v) && negb (repoPathExists repoRoot tok)
  && negb (is_shell tok) && negb (String.eqb (path_base tok) "env").

Lemma span_of_app chars a v : mem_ascii "="%char chars = false → span_of chars a = (a, "") →
  span_of chars (a +:+ String "=" v) = (a, String "=" v).
Proof.
  intros Heq. induction a as [|c a IH]; str_simpl; [by rewrite Heq|].
  destruct (mem_ascii c chars); [|intros [=]]. destruct (span_of chars a) as [b r]. intros [= -> ->]. by rewrite IH.
Qed.

Lemma read_name_app start rest name v : mem_ascii "="%char rest = false →
  read_name start rest name = Some (name, "") → read_name start rest (name +:+ String "=" v) = Some (name, String "=" v).
Proof.
  intros Heq. destruct name as [|c a]; [done|]. rewrite app_str_cons. cbn [read_name].
  destruct (mem_ascii c start); [|done]. destruct (span_of rest a) as [b r] eqn:E. intros [= -> ->]. by rewrite span_of_app.
Qed.

Lemma read_flag_app name v : read_flag name = Some (name, "") →
  read_flag (name +:+ String "=" v) = Some (name, String "=" v).
Proof.
  destruct name as [|c1 [|c2 n]]; [done|unfold read_flag; by case_match; case_match|].
  rewrite !app_str_cons. unfold read_flag. cbn [has_prefix drop_str].
  destruct (Ascii.eqb "-" c1) eqn:E1; cbn [andb]; [|done]. apply Ascii.eqb_eq in E1 as <-.
  destruct (Ascii.eqb "-" c2) eqn:E2; cbn [andb].
  - apply Ascii.eqb_eq in E2 as <-. destruct (read_name letters flag_chars n) as [[b r]|] eqn:E; [|done].
    cbn. intros [= Hb ->]. rewrite app_str_nil_l in Hb. subst b. by rewrite (read_name_app letters flag_chars n v eq_refl E).
  - destruct (read_name letters flag_chars (String c2 n)) as [[b r]|] eqn:E; [|done].
    cbn [fmap option_fmap option_map fst snd]. intros [= Hb ->]. rewrite app_str_nil_l in Hb. subst b.
    pose proof (read_name_app letters flag_chars (String c2 n) v eq_refl E) as H. rewrite app_str_cons in H. by rewrite H.
Qed.

Lemma only_bytes_app chars s t : only_bytes_of chars (s +:+ t) = only_bytes_of chars s && only_bytes_of chars t.
Proof. induction s as [|c s IH]; str_simpl; [done|]. by rewrite IH, andb_assoc. Qed.

Lemma in_words_value l name v : forallb (λ w, negb (mem_ascii "="%char w)) l = true →
  in_words l (name +:+ String "=" v) = false.
Proof.
  intros Hl. apply not_true_iff_false. intros Hin. apply existsb_exists in Hin as (w & Hw & <-%String.eqb_eq).
  rewrite forallb_forall in Hl. specialize (Hl _ Hw). rewrite mem_ascii_app in Hl. cbn in Hl. by rewrite orb_true_r in Hl.
Qed.

Lemma variable_no_flag name t : read_name name_start name_chars name = Some (name, "") →
  read_flag (name +:+ t) = None.
Proof.
  destruct name as [|c n]; [done|]. cbn [read_name]. destruct (mem_ascii c name_start) eqn:Hc; [|done]. intros _.
  rewrite app_str_cons. unfold read_flag. cbn [has_prefix]. destruct (Ascii.eqb "-" c) eqn:E; [|done].
  apply Ascii.eqb_eq in E as <-. by vm_compute in Hc.
Qed.

Lemma keepToken_hidden repoRoot name v first : read_flag (name +:+ String "=" v) = None →
  repoPathExists repoRoot (name +:+ String "=" v) = false →
  keepToken (name +:+ String "=" v) repoRoot runnerWords first = redactedValue.
Proof.
  intros Hf Hp. unfold keepToken. rewrite Hp.
  assert (String.eqb (name +:+ String "=" v) "--" = false) as ->.
  { apply String.eqb_neq. intros E. apply (f_equal (mem_ascii "="%char)) in E. rewrite mem_ascii_app in E.
    cbn in E. by rewrite orb_true_r in E. }
  assert (plainWordRe (name +:+ String "=" v) = false) as ->.
  { unfold plainWordRe. rewrite only_bytes_app. cbn. by rewrite !andb_false_r. }
  rewrite andb_false_r. cbn [andb]. unfold flagAllowed, flagRe. by rewrite Hf, in_words_value.
Qed.

Lemma redactToken_hidden repoRoot name v first assign : value_name name → hidden repoRoot name v = true →
  redactToken (name +:+ String "=" v) repoRoot runnerWords first assign =
  match read_flag name with
  | Some _ => if flagAllowed name then name +:+ "=" +:+ redactedValue else redactedValue
  | None => if assign then name +:+ "=" +:+ redactedValue else redactedValue
  end.
Proof.
  intros Hname Hh. unfold hidden in Hh. bools. unfold redactToken, flagValueRe, assignmentRe.
  assert (valueOf v repoRoot = redactedValue) as Hv by (unfold valueOf; by case_match).
  assert (value_after (String "=" v) = Some v) as Hva by (cbn; by destruct (mem_ascii newline v)).
  destruct Hname as [Hn|Hn].
  - rewrite (read_flag_app _ _ Hn), Hn. unfold with_value. rewrite Hva. cbn. by rewrite Hv.
  - pose proof (variable_no_flag _ (String "=" v) Hn) as Hnf.
    rewrite Hnf, (read_name_app name_start name_chars _ v eq_refl Hn). unfold with_value. rewrite Hva. cbn. rewrite Hv.
    rewrite keepToken_hidden; [|done|by destruct (repoPathExists repoRoot (name +:+ String "=" v))].
    pose proof (variable_no_flag _ "" Hn) as Hnn. rewrite app_str_nil_r in Hnn. rewrite Hnn.
    by destruct assign.
Qed.

Lemma value_not_c name v : name +:+ String "=" v ≠ "-c".
Proof.
  intros E. apply (f_equal (mem_ascii "="%char)) in E. rewrite mem_ascii_app in E. cbn in E. by rewrite orb_true_r in E.
Qed.

Lemma hidden_shell repoRoot name v : hidden repoRoot name v = true → is_shell (name +:+ String "=" v) = false.
Proof. unfold hidden. intros H. bools. by destruct (is_shell _). Qed.

Lemma hidden_assign repoRoot name v assign : value_name name → hidden repoRoot name v = true →
  still_assign assign (name +:+ String "=" v) =
  assign && match read_name name_start name_chars name with Some (_, "") => true | _ => false end.
Proof.
  intros Hname Hh. unfold hidden in Hh. bools. unfold still_assign, assignmentRe. f_equal.
  assert (value_after (String "=" v) = Some v) as Hva by (cbn; by destruct (mem_ascii newline v)).
  rewrite (proj2 (String.eqb_neq _ _) H0), orb_false_r. destruct Hname as [Hn|Hn].
  - destruct name as [|c n]; [done|]. unfold read_flag in Hn. cbn [has_prefix] in Hn.
    destruct (Ascii.eqb "-" c) eqn:E; [|done]. apply Ascii.eqb_eq in E as <-. done.
  - rewrite (read_name_app name_start name_chars _ v eq_refl Hn), Hn. unfold with_value. by rewrite Hva.
Qed.

(** ** In a command *)

Section OneToken.
Context (repoRoot x x' : string).
Hypothesis Htoken : ∀ first assign,
  redactToken x repoRoot runnerWords first assign = redactToken x' repoRoot runnerWords first assign.
Hypothesis Hassign : ∀ assign, still_assign assign x = still_assign assign x'.
Hypothesis Hdash : x ≠ "-c" ∧ x' ≠ "-c".

Lemma redact_from_token k script assign pre post : script ≠ Some (k + length pre) →
  redact_from k script repoRoot runnerWords assign (pre ++ x :: post) =
  redact_from k script repoRoot runnerWords assign (pre ++ x' :: post).
Proof.
  revert k assign. induction pre as [|a pre IH]; intros k assign Hs; cbn.
  - rewrite Nat.add_0_r in Hs. rewrite bool_decide_false by done. by rewrite Htoken, Hassign.
  - cbn in Hs. case_bool_decide; f_equal; apply IH; by rewrite Nat.add_succ_comm.
Qed.

Lemma redact_words_token assign pre post :
  redact_words repoRoot runnerWords assign (pre ++ x :: post) = redact_words repoRoot runnerWords assign (pre ++ x' :: post).
Proof.
  revert assign. induction pre as [|a pre IH]; intros assign; cbn; [by rewrite Htoken, Hassign|]. by rewrite IH.
Qed.

Lemma script_index_token k pre post :
  script_index k (pre ++ x :: post) = script_index k (pre ++ x' :: post).
Proof.
  destruct Hdash as [Hx Hx']. revert k. induction pre as [|a [|b pre] IH]; intros k; cbn.
  - destruct post; [done|]. apply String.eqb_neq in Hx as ->. by apply String.eqb_neq in Hx' as ->.
  - case_match; [done|]. apply IH.
  - case_match; [done|]. apply IH.
Qed.

Lemma script_index_spec k argv i : script_index k argv = Some i → ∃ j, i = k + S j ∧ argv !! j = Some "-c".
Proof.
  revert k. induction argv as [|a [|b t] IH]; intros k; [done..|]. cbn [script_index].
  destruct (String.eqb_spec a "-c") as [->|_].
  - intros [= <-]. exists O. split; [lia|done].
  - intros (j & -> & Hj)%IH. exists (S j). split; [lia|done].
Qed.
End OneToken.

(** A hidden value leaves no trace in the record. Two commands that differ only in
    the value of one assignment or flag, neither value being a path of the repository
    and the token not being the script of a shell, are recorded by the same text: what
    is published is a function of the rest of the command alone. *)
Theorem redactCommand_hides repoRoot name v v' pre post :
  value_name name → hidden repoRoot name v = true → hidden repoRoot name v' = true → last pre ≠ Some "-c" →
  redactCommand (pre ++ (name +:+ String "=" v) :: post) repoRoot =
  redactCommand (pre ++ (name +:+ String "=" v') :: post) repoRoot.
Proof.
  intros Hn Hv Hv' Hlast. pose proof (hidden_shell _ _ _ Hv) as Hs. pose proof (hidden_shell _ _ _ Hv') as Hs'.
  assert (∀ first assign, redactToken (name +:+ String "=" v) repoRoot runnerWords first assign =
    redactToken (name +:+ String "=" v') repoRoot runnerWords first assign) as Htoken.
  { intros. by rewrite !redactToken_hidden. }
  assert (∀ assign, still_assign assign (name +:+ String "=" v) = still_assign assign (name +:+ String "=" v')) as Hassign.
  { intros. by rewrite !(hidden_assign repoRoot). }
  assert (name +:+ String "=" v ≠ "-c" ∧ name +:+ String "=" v' ≠ "-c") as Hdash by (split; apply value_not_c).
  unfold redactCommand.
  assert (match pre ++ (name +:+ String "=" v) :: post with a :: _ => cmdShellName a | [] => false end =
    match pre ++ (name +:+ String "=" v') :: post with a :: _ => cmdShellName a | [] => false end) as ->.
  { destruct pre; [|done]. cbn. unfold cmdShellName. by rewrite Hs, Hs'. }
  rewrite (script_index_token _ _ Hdash 0 pre post). apply redact_from_token; [done..|].
  case_match; [|done]. intros (j & E & Hj)%script_index_spec. cbn in E. subst.
  destruct (decide (S j = length pre)) as [Ej|]; [|lia]. 
  apply Hlast. rewrite last_lookup, <- Ej. cbn. rewrite lookup_app_l in Hj; [done|lia].
Qed.

Lemma redactScript_quoted repoRoot l : l ≠ [] →
  redactScript (shellJoin l) repoRoot runnerWords =
  if existsb (mem_ascii "`"%char) l then redactedValue else String.concat " " (redact_words repoRoot runnerWords true l).
Proof.
  destruct l as [|a l]; [done|]. intros _. unfold redactScript. rewrite ShellScriptCommands_quoted. by destruct (existsb _ _).
Qed.

(** Nor in a script. The same holds of a command quoted into a shell's [-c] script:
    its words are read back with their quotes resolved and each is redacted, so the value
    in an assignment or flag of the script is hidden as it is outside one. *)
Theorem redactScript_hides repoRoot shell name v v' pre post :
  value_name name → hidden repoRoot name v = true → hidden repoRoot name v' = true →
  mem_ascii "`"%char v = mem_ascii "`"%char v' → is_shell shell = true →
  redactCommand [shell; "-c"; shellJoin (pre ++ (name +:+ String "=" v) :: post)] repoRoot =
  redactCommand [shell; "-c"; shellJoin (pre ++ (name +:+ String "=" v') :: post)] repoRoot.
Proof.
  intros Hn Hv Hv' Hbq Hshell.
  assert (∀ l, redactCommand [shell; "-c"; shellJoin l] repoRoot =
    [redactToken shell repoRoot runnerWords true true;
     redactToken "-c" repoRoot runnerWords false (still_assign true shell); redactScript (shellJoin l) repoRoot runnerWords]) as E.
  { intros l. unfold redactCommand, cmdShellName. rewrite Hshell. cbn [script_index].
    destruct (String.eqb_spec shell "-c") as [->|_]; [done|]. by rewrite String.eqb_refl. }
  rewrite !E, !redactScript_quoted by (by destruct pre). do 3 f_equal. rewrite !existsb_app. cbn [existsb].
  rewrite !mem_ascii_app. cbn [mem_ascii]. rewrite Hbq. case_match; [done|]. f_equal.
  apply redact_words_token.
  - intros. by rewrite !redactToken_hidden.
  - intros. by rewrite !(hidden_assign repoRoot).
Qed.

(** ** The recorded text *)

Lemma quote_plain_no_special a : only_bytes_of quote_plain_chars a = true → no_special a = true.
Proof.
  unfold no_special. induction a as [|c a IH]; [done|]. cbn [only_bytes_of list_ascii_of_string forallb].
  intros [Hc Ha]%andb_prop. rewrite IH by done. rewrite andb_true_r. clear IH Ha. revert Hc.
  destruct c as [b0 b1 b2 b3 b4 b5 b6 b7].
  destruct b0, b1, b2, b3, b4, b5, b6, b7; vm_compute; first [done | by intros [=]].
Qed.

Lemma shell_word_reads a : reads_as (shell_word a) a.
Proof.
  unfold shell_word. destruct (quotePlainRe a) eqn:E; [|apply shellQuote_reads]. unfold quotePlainRe in E. bools.
  by apply plain_reads; [apply quote_plain_no_special|].
Qed.

(** The recorded text is the recorded command: a shell, or the reader here, gets back
    exactly the redacted tokens, in order, whichever of them needed quotes, so a token
    cannot break out of its place in the signed text. *)
Theorem testCommandText_reads argv repoRoot :
  texts (shellCommands (testCommandText argv repoRoot)) = match argv with [] => [] | _ => [redactCommand argv repoRoot] end.
Proof.
  destruct argv as [|a argv]; [done|]. unfold testCommandText, shellQuoted.
  rewrite <- (map_map (λ t, mkShWord (shell_word t) t) sw_raw), shellCommands_joined.
  2: { apply Forall_map, Forall_true. intros t. apply shell_word_reads. }
  destruct (redactCommand (a :: argv) repoRoot) as [|t ts] eqn:E.
  - pose proof (length_redactCommand (a :: argv) repoRoot) as Hl. by rewrite E in Hl.
  - unfold texts. cbn [map]. f_equal. f_equal. rewrite map_map. apply map_id.
Qed.
End Redact.

Definition lstat_demo (root path : string) : bool := in_words ["tests/a.py"; "pkg"; "."] path.
Example redact_demo :
  testCommandText lstat_demo ["/usr/bin/env"; "DB_PASS=hunter2"; "CFG=tests/a.py"; "python3"; "-m"; "pytest"; "--token=abc"; "--cov"; "-psecret"; "X=1"; "./pkg/..."; "tests/../pkg"; "https://u:p@h"] "/repo" =
  "env 'DB_PASS=<redacted>' CFG=tests/a.py python3 -m pytest '--token=<redacted>' --cov '<redacted>' '<redacted>' ./pkg/... '<redacted>' '<redacted>'".
Proof. vm_compute. reflexivity. Qed.

Lemma redactCommand_hides_witness :
  redactCommand lstat_demo ["python"; "-m"; "pytest"; "--token=abc"; "tests/a.py"] "/repo" =
  redactCommand lstat_demo ["python"; "-m"; "pytest"; "--token=s3cr3t"; "tests/a.py"] "/repo".
Proof.
  apply (redactCommand_hides lstat_demo "/repo" "--token" "abc" "s3cr3t" ["python"; "-m"; "pytest"] ["tests/a.py"]).
  - left. vm_compute. reflexivity.
  - vm_compute. reflexivity.
  - vm_compute. reflexivity.
  - discriminate.
Defined.

Lemma redactScript_hides_witness :
  redactCommand lstat_demo ["bash"; "-c"; shellJoin ["DB_PASS=abc"; "pytest"]] "/repo" =
  redactCommand lstat_demo ["bash"; "-c"; shellJoin ["DB_PASS=it's a; secret"; "pytest"]] "/repo".
Proof.
  apply (redactScript_hides lstat_demo "/repo" "bash" "DB_PASS" "abc" "it's a; secret" [] ["pytest"]).
  - right. vm_compute. reflexivity.
  - vm_compute. reflexivity.
  - vm_compute. reflexivity.
  - reflexivity.
  - reflexivity.
Defined.
