(* ===== verification/Float64.v ===== *)
(** * Go's float64 on quotients of integers

    The doubles the code computes with are quotients of ints, so a double is kept as
    the exact rational it is: a numerator over a power of two. Every operation is the
    exact one rounded to 53 bits, ties to even. Subnormals and infinities are not
    reached: the operands are converted ints. Main result: truncating a quotient of
    small ints is integer division ([trunc_share]). *)
From S2P Require Import Prelude.
Local Open Scope Z_scope.

(** [num / den], the denominator positive. *)
Definition double : Type := Z * Z.

(** The nearest integer to [a / q], ties to even. *)
Definition round_even (a q : Z) : Z :=
  let f := a / q in
  let r := a mod q in
  if 2 * r <? q then f else if q <? 2 * r then f + 1 else if Z.even f then f else f + 1.

(** The exponent that scales [p / q] to 53 bits. *)
Definition scale (p q : Z) : Z :=
  let e := 52 - (Z.log2 p - Z.log2 q) in
  if (if 0 <=? e then p * 2 ^ e <? 2 ^ 52 * q else p <? 2 ^ 52 * (q * 2 ^ (- e))) then e + 1 else e.

Definition round_pos (p q : Z) : double :=
  let e := scale p q in
  if 0 <=? e then (round_even (p * 2 ^ e) q, 2 ^ e) else (round_even p (q * 2 ^ (- e)) * 2 ^ (- e), 1).

(** The double nearest to [p / q]. *)
Definition round53 (p q : Z) : double :=
  if p =? 0 then (0, 1)
  else if p <? 0 then let '(a, b) := round_pos (- p) q in (- a, b)
  else round_pos p q.

Definition of_int (z : Z) : double := round53 z 1.
Definition fmul (x y : double) : double := round53 (fst x * fst y) (snd x * snd y).
Definition fdiv (x y : double) : double := round53 (fst x * snd y * Z.sgn (fst y)) (snd x * Z.abs (fst y)).
Definition fsub (x y : double) : double := round53 (fst x * snd y - fst y * snd x) (snd x * snd y).
Definition ftrunc (x : double) : Z := Z.quot (fst x) (snd x).
Definition fgt (x y : double) : bool := snd x * fst y <? fst x * snd y.
Definition half : double := (1, 2).

Example third_minus : fsub (fdiv (of_int 4) (of_int 3)) (of_int 1) = (6004799503160660, 2 ^ 54).
Proof. vm_compute. reflexivity. Qed.

(** ** Rounding *)

Lemma round_even_bounds a q : 0 <= a → 0 < q → 2 * q * round_even a q <= 2 * a + q ∧ a / q <= round_even a q.
Proof.
  intros Ha Hq. pose proof (Z.div_mod a q ltac:(lia)) as E. pose proof (Z.mod_pos_bound a q Hq) as Hr.
  unfold round_even. repeat case_match; bools; rewrite ?Z.ltb_lt, ?Z.ltb_ge in *; split; nia.
Qed.

Lemma round_even_exact a q : 0 < q → round_even (a * q) q = a.
Proof. intros Hq. unfold round_even. rewrite Z.mod_mul, Z.div_mul by lia. by assert (2 * 0 <? q = true) as -> by lia. Qed.

Lemma round_even_scale a q k : 0 < q → 0 < k → round_even (a * k) (q * k) = round_even a q.
Proof.
  intros Hq Hk. unfold round_even. rewrite Z.div_mul_cancel_r, Z.mul_mod_distr_r by lia.
  assert (∀ x y, (2 * (x * k) <? y * k) = (2 * x <? y)) as Hl.
  { intros x y. apply eq_true_iff_eq. rewrite !Z.ltb_lt. nia. }
  assert (∀ x y, (y * k <? 2 * (x * k)) = (y <? 2 * x)) as Hr.
  { intros x y. apply eq_true_iff_eq. rewrite !Z.ltb_lt. nia. }
  by rewrite Hl, Hr.
Qed.

Lemma log2_shift p k : 0 < p → 0 <= k → Z.log2 (p * 2 ^ k) = Z.log2 p + k.
Proof. intros. rewrite Z.log2_mul_pow2; lia. Qed.

(** A common power of two does not change a quotient's double. *)
Lemma round_pos_scale p q k : 0 < p → 0 < q → 0 <= k → round_pos (p * 2 ^ k) (q * 2 ^ k) = round_pos p q.
Proof.
  intros Hp Hq Hk. pose proof (Z.pow_pos_nonneg 2 k ltac:(lia) Hk) as H2.
  assert (scale (p * 2 ^ k) (q * 2 ^ k) = scale p q) as E.
  { unfold scale. rewrite !log2_shift by done. replace (Z.log2 p + k - (Z.log2 q + k)) with (Z.log2 p - Z.log2 q) by lia.
    set (e := 52 - _). assert (∀ b c, b = c → (if b : bool then e + 1 else e) = if c : bool then e + 1 else e) as Hif by (by intros ? ? ->).
    apply Hif. destruct (0 <=? e); apply eq_true_iff_eq; rewrite !Z.ltb_lt.
    - generalize (2 ^ e) (2 ^ 52). nia.
    - generalize (2 ^ (- e)) (2 ^ 52). nia. }
  unfold round_pos. rewrite E. destruct (0 <=? scale p q) eqn:He.
  - f_equal. replace (p * 2 ^ k * 2 ^ scale p q) with (p * 2 ^ scale p q * 2 ^ k) by ring. by apply round_even_scale.
  - do 2 f_equal. replace (q * 2 ^ k * 2 ^ (- scale p q)) with (q * 2 ^ (- scale p q) * 2 ^ k) by ring.
    apply round_even_scale; [|done]. apply Z.leb_gt in He. pose proof (Z.pow_pos_nonneg 2 (- scale p q)). nia.
Qed.

Lemma round53_scale p q k : 0 <= p → 0 < q → 0 <= k → round53 (p * 2 ^ k) (q * 2 ^ k) = round53 p q.
Proof.
  intros Hp Hq Hk. pose proof (Z.pow_pos_nonneg 2 k ltac:(lia) Hk) as H2. unfold round53.
  destruct (Z.eqb_spec p 0) as [->|Hne]; [done|]. destruct (Z.eqb_spec (p * 2 ^ k) 0) as [|_]; [nia|].
  assert (p * 2 ^ k <? 0 = false) as -> by nia. assert (p <? 0 = false) as -> by lia. apply round_pos_scale; lia.
Qed.

(** A power-of-two exponent for an int below [2 ^ 53], which is a double as it is. *)
Lemma of_int_small z : 0 <= z < 2 ^ 53 → ∃ k, 0 <= k ∧ of_int z = (z * 2 ^ k, 2 ^ k).
Proof.
  intros Hz. unfold of_int, round53. destruct (Z.eqb_spec z 0) as [->|Hne]; [by exists 0|].
  assert (z <? 0 = false) as -> by lia. unfold round_pos, scale.
  assert (Z.log2 z <= 52) as Hl. { assert (Z.log2 z < 53); [|lia]. apply Z.log2_lt_pow2; lia. }
  change (Z.log2 1) with 0. set (e := 52 - _). assert (0 <= e) as He by (unfold e; lia).
  assert (0 <=? e = true) as -> by lia. 
  assert (z * 2 ^ e <? 2 ^ 52 * 1 = false) as ->.
  { apply Z.ltb_ge. pose proof (Z.log2_spec z ltac:(lia)) as [H1 _]. rewrite Z.mul_1_r.
    replace 52 with (Z.log2 z + e) by (unfold e; lia). rewrite Z.pow_add_r by (try lia; apply Z.log2_nonneg).
    apply Z.mul_le_mono_nonneg_r; [apply Z.pow_nonneg; lia|done]. }
  assert (0 <=? e = true) as -> by lia. exists e. split; [done|]. f_equal.
  rewrite <- (Z.mul_1_r (z * 2 ^ e)) at 1. by apply round_even_exact.
Qed.

(** The double of a quotient keeps its integer part, when the quotient is small and the
    divisor below [2 ^ 46]: it is at least [1 / q] away from the next integer. *)
Lemma round53_floor p q : 0 <= p → 0 < q < 2 ^ 46 → p < 2 ^ 6 * q → ftrunc (round53 p q) = p / q.
Proof.
  intros Hp Hq Hpq. unfold round53. destruct (Z.eqb_spec p 0) as [->|Hne]; [by rewrite Zdiv_0_l|].
  assert (p <? 0 = false) as -> by lia.
  assert (46 <= scale p q) as He.
  { assert (Z.log2 p <= Z.log2 q + 6).
    { rewrite <- log2_shift by lia. apply Z.log2_le_mono. lia. }
    unfold scale. case_match; lia. }
  unfold round_pos. set (e := scale p q) in *. assert (0 <=? e = true) as -> by lia. unfold ftrunc. cbn [fst snd].
  assert (2 ^ 46 <= 2 ^ e) as H2 by (apply Z.pow_le_mono_r; lia).
  destruct (round_even_bounds (p * 2 ^ e) q ltac:(nia) ltac:(lia)) as [Hup Hlo].
  set (m := round_even _ _) in *. pose proof (Z.div_mod p q ltac:(lia)) as E. pose proof (Z.mod_pos_bound p q ltac:(lia)) as Hr.
  assert (p / q * 2 ^ e <= m).
  { etrans; [|exact Hlo]. apply Z.div_le_lower_bound; nia. }
  assert (m < (p / q + 1) * 2 ^ e) by nia.
  rewrite Z.quot_div_nonneg by nia. symmetry. apply (Z.div_unique _ _ _ (m - p / q * 2 ^ e)); nia.
Qed.

(** [int(float64(s) * float64(c) / float64(w))] is [s * c / w]. *)
Lemma trunc_share s c w : 0 <= s → 0 <= c <= w → 0 < w < 2 ^ 46 → s < 2 ^ 6 →
  ftrunc (fdiv (fmul (of_int s) (of_int c)) (of_int w)) = s * c / w.
Proof.
  intros Hs Hc Hw Hs6.
  assert (0 <= s * c < 2 ^ 52) as Hsc by (split; [nia|]; change (2 ^ 52) with (2 ^ 6 * 2 ^ 46); nia).
  destruct (of_int_small s) as (k1 & Hk1 & ->); [lia|]. destruct (of_int_small c) as (k2 & Hk2 & ->); [lia|].
  destruct (of_int_small w) as (k3 & Hk3 & ->); [lia|]. unfold fmul. cbn [fst snd].
  replace (s * 2 ^ k1 * (c * 2 ^ k2)) with (s * c * 2 ^ (k1 + k2)) by (rewrite Z.pow_add_r by done; ring).
  rewrite <- Z.pow_add_r by done. rewrite <- (Z.mul_1_l (2 ^ (k1 + k2))) at 2.
  rewrite round53_scale by lia. fold (of_int (s * c)). destruct (of_int_small (s * c)) as (k & Hk & ->); [lia|].
  unfold fdiv. cbn [fst snd]. pose proof (Z.pow_pos_nonneg 2 k3 ltac:(lia) Hk3).
  rewrite Z.sgn_pos, Z.abs_eq by nia.
  replace (s * c * 2 ^ k * 2 ^ k3 * 1) with (s * c * 2 ^ (k + k3)) by (rewrite Z.pow_add_r by done; ring).
  replace (2 ^ k * (w * 2 ^ k3)) with (w * 2 ^ (k + k3)) by (rewrite Z.pow_add_r by done; ring).
  rewrite round53_scale by lia. apply round53_floor; nia.
Qed.

(** ** Sums and roots *)

Definition fadd (x y : double) : double := round53 (fst x * snd y + fst y * snd x) (snd x * snd y).

(** math.Sqrt: the double nearest to the root, scaled to 53 bits; no root of a double is
    half way between two. *)
Definition sqrt_scaled (p q e : Z) : Z := if 0 <=? e then Z.sqrt (p * 4 ^ e / q) else Z.sqrt (p / (q * 4 ^ (- e))).
Definition root_above (p q e s : Z) : bool :=
  if 0 <=? e then (2 * s + 1) * (2 * s + 1) * q <? 4 * (p * 4 ^ e) else (2 * s + 1) * (2 * s + 1) * (q * 4 ^ (- e)) <? 4 * p.
Definition fsqrt (x : double) : double :=
  let '(p, q) := x in
  if p <=? 0 then (0, 1)
  else
    let e0 := 52 - (Z.log2 p - Z.log2 q) / 2 in
    let e := if sqrt_scaled p q e0 <? 2 ^ 52 then e0 + 1 else e0 in
    let s := sqrt_scaled p q e in
    let s := if root_above p q e s then s + 1 else s in
    if 0 <=? e then (s, 2 ^ e) else (s * 2 ^ (- e), 1).

Example sqrt_two : fsqrt (of_int 2) = (6369051672525773, 2 ^ 52).
Proof. vm_compute. reflexivity. Qed.
Example sqrt_quarter : fsqrt (fdiv (of_int 1) (of_int 4)) = (2 ^ 52, 2 ^ 53).
Proof. vm_compute. reflexivity. Qed.

Definition feq (x y : double) : bool := snd x * fst y =? fst x * snd y.

Lemma fgt_irrefl x : fgt x x = false.
Proof. unfold fgt. apply Z.ltb_ge. lia. Qed.
