(* ===== verification/Shards.v ===== *)
(** * The mutant budget and its shards: internal/advpool/shard.go, budget.go, exam.go

    How many faults a run asks for, of which seats, and what part of the file the exam
    reached. Ints keep their 64 bits where they are summed, and the shares are computed
    in doubles as the code does (Float64). Main results: every named symbol is in
    exactly one shard and no shard is empty ([ShardSymbols_partition]), the loads differ by
    one symbol at most ([ShardSymbols_balanced]), the seats' mutants add up to the
    budget the record discloses ([PlanShards_total]), and the exam's coverage
    is one more mutants only raise ([coverage_grows]). *)
From S2P Require Import Prelude GoLib TestMap Float64.
Local Open Scope string_scope.
Local Open Scope list_scope.
Local Open Scope Z_scope.

(** What the extractor found of a symbol. *)
Record Signature := mkSignature {
  sg_Name : string; sg_Receiver : string; sg_Line : Z; sg_Complexity : Z; sg_Lines : Z; sg_Decisions : list LineRange }.

Record Shard := mkShard { sh_Index : Z; sh_Symbols : list string; sh_Complexity : Z; sh_Lines : Z; sh_Mutants : Z }.

Definition symbolIdentity (s : Signature) : string :=
  if String.eqb (sg_Receiver s) "" then sg_Name s else sg_Receiver s +:+ "." +:+ sg_Name s.

(** ** ShardSymbols *)

Definition is_named (s : Signature) : bool := negb (String.eqb (sg_Name s) "").
Definition harder (a b : Signature) : bool :=
  if sg_Complexity a =? sg_Complexity b then str_ltb (symbolIdentity a) (symbolIdentity b)
  else sg_Complexity b <? sg_Complexity a.

Definition lighter (a b : Shard) : bool :=
  (sh_Complexity a <? sh_Complexity b)
  || (sh_Complexity a =? sh_Complexity b) && (length (sh_Symbols a) <? length (sh_Symbols b))%nat.

(** The position of the lightest shard, the first of equals. *)
Fixpoint lightest_from (i best : nat) (b : Shard) (shards : list Shard) : nat :=
  match shards with
  | [] => best
  | s :: rest => if lighter s b then lightest_from (S i) i s rest else lightest_from (S i) best b rest
  end.
Definition lightest (shards : list Shard) : nat :=
  match shards with [] => O | s :: rest => lightest_from 1 0 s rest end.

Definition add_symbol (s : Signature) (sh : Shard) : Shard :=
  mkShard (sh_Index sh) (sh_Symbols sh ++ [symbolIdentity s]) (w64 (sh_Complexity sh + sg_Complexity s))
    (w64 (sh_Lines sh + sg_Lines s)) (sh_Mutants sh).

Definition pack (shards : list Shard) (s : Signature) : list Shard := alter (add_symbol s) (lightest shards) shards.

Definition empty_shard (i : nat) : Shard := mkShard (Z.of_nat i) [] 0 0 0.

Definition ShardSymbols (sigs : list Signature) (maxShards : Z) : option (list Shard) :=
  if maxShards <=? 1 then None
  else
    let named := List.filter is_named sigs in
    if (length named <? 2)%nat then None
    else
      let sorted := sort_stable harder named in
      let n := Z.min maxShards (Z.of_nat (length named)) in
      Some (foldl pack (map empty_shard (seq 0 (Z.to_nat n))) sorted).

(** ** The budget *)

Definition DefaultNMutants : Z := 5.
Definition DefaultMaxShards : Z := 8.
Definition BudgetFloor : Z := 5.
Definition BudgetCeiling : Z := DefaultNMutants * DefaultMaxShards.
Definition MutantsPerComplexity : Z := 1.

Inductive BudgetRule := RuleComplexity | RuleExplicit | RuleDefault | RuleFitted.

Record MutantBudget := mkBudget {
  mb_Total : Z; mb_Rule : BudgetRule; mb_Complexity : Z; mb_Floor : Z; mb_Ceiling : Z; mb_PerSeat : Z;
  mb_BeforeFit : Z; mb_DeadlineMillis : Z; mb_RoundCostMillis : Z; mb_Trees : Z; mb_Exceeds : bool }.

(** The fields of a run's specification the plan reads; durations in nanoseconds. *)
Record RunSpec := mkRunSpec {
  rs_NMutants : Z; rs_MaxShards : Z; rs_MutantRoundCost : Z; rs_Deadline : Z; rs_Trees : Z }.

Definition trees_of (rs : RunSpec) : Z := if rs_Trees rs <? 1 then 1 else rs_Trees rs.

Definition fitsInDeadline (rs : RunSpec) : Z :=
  if (rs_MutantRoundCost rs <=? 0) || (rs_Deadline rs <=? 0) then 0
  else
    let rounds := ftrunc (fdiv (fmul (of_int (rs_Deadline rs)) half) (of_int (rs_MutantRoundCost rs))) in
    w64 ((if rounds <? 1 then 1 else rounds) * trees_of rs).

Definition millis (d : Z) : Z := Z.quot d 1000000.

(** ** splitByComplexity *)

Definition with_mutants (sh : Shard) (n : Z) : Shard :=
  mkShard (sh_Index sh) (sh_Symbols sh) (sh_Complexity sh) (sh_Lines sh) n.

Definition share (spare weight : Z) (sh : Shard) : double :=
  if 0 <? weight then fdiv (fmul (of_int spare) (of_int (sh_Complexity sh))) (of_int weight) else of_int 0.
Definition whole (spare weight : Z) (sh : Shard) : Z := ftrunc (share spare weight sh).
Definition frac (spare weight : Z) (sh : Shard) : double := fsub (share spare weight sh) (of_int (whole spare weight sh)).

Definition bump (shards : list Shard) (i : nat) : list Shard :=
  alter (λ sh, with_mutants sh (sh_Mutants sh + 1)) i shards.

Definition splitByComplexity (shards : list Shard) (total : Z) : list Shard :=
  let n := length shards in
  let total := if total <? Z.of_nat n then Z.of_nat n else total in
  let weight := foldl (λ w sh, w64 (w + sh_Complexity sh)) 0 shards in
  let spare := total - Z.of_nat n in
  let given := foldl (λ g sh, w64 (g + whole spare weight sh)) 0 shards in
  let rems := sort_stable (λ a c : nat * double, fgt (snd a) (snd c))
                (imap (λ i sh, (i, frac spare weight sh)) shards) in
  foldl (λ acc k, match rems !! (k mod n)%nat with Some (i, _) => bump acc i | None => acc end)
    (map (λ sh, with_mutants sh (1 + whole spare weight sh)) shards) (seq 0 (Z.to_nat (spare - given))).

(** ** PlanShards *)

Definition namedCount (sigs : list Signature) : Z := Z.of_nat (length (List.filter is_named sigs)).
Definition complexity_of (sigs : list Signature) : Z :=
  foldl (λ c s, w64 (c + sg_Complexity s)) 0 (List.filter is_named sigs).

Definition clamp_total (c : Z) : Z :=
  let total := w64 (c * MutantsPerComplexity) in
  let total := if total <? BudgetFloor then BudgetFloor else total in
  if BudgetCeiling <? total then BudgetCeiling else total.

Definition rule_budget (sigs : list Signature) (rs : RunSpec) : MutantBudget :=
  let complexity := complexity_of sigs in
  if 0 <? rs_NMutants rs then mkBudget 0 RuleExplicit complexity 0 0 (rs_NMutants rs) 0 0 0 0 false
  else if complexity <=? 0 then mkBudget 0 RuleDefault 0 0 0 DefaultNMutants 0 0 0 0 false
  else mkBudget (clamp_total complexity) RuleComplexity complexity BudgetFloor BudgetCeiling 0 0 0 0 0 false.

Definition seats_of (sigs : list Signature) (rs : RunSpec) : Z :=
  let seats := Z.min (rs_MaxShards rs) (namedCount sigs) in if seats <? 1 then 1 else seats.

(** The budget after the clock. *)
Definition fit_budget (sigs : list Signature) (rs : RunSpec) (b : MutantBudget) : MutantBudget :=
  let capacity := fitsInDeadline rs in
  if capacity <=? 0 then b
  else
    match mb_Rule b with
    | RuleComplexity =>
        if capacity <? mb_Total b then
          mkBudget (if capacity <? BudgetFloor then BudgetFloor else capacity) RuleFitted (mb_Complexity b) (mb_Floor b)
            (mb_Ceiling b) (mb_PerSeat b) (mb_Total b) (millis (rs_Deadline rs)) (millis (rs_MutantRoundCost rs)) (trees_of rs)
            (mb_Exceeds b)
        else b
    | RuleExplicit =>
        if capacity <? w64 (mb_PerSeat b * seats_of sigs rs) then
          mkBudget (mb_Total b) (mb_Rule b) (mb_Complexity b) (mb_Floor b) (mb_Ceiling b) (mb_PerSeat b) (mb_BeforeFit b)
            (millis (rs_Deadline rs)) (millis (rs_MutantRoundCost rs)) (trees_of rs) true
        else b
    | _ => b
    end.

Definition derived (b : MutantBudget) : bool :=
  match mb_Rule b with RuleComplexity | RuleFitted => true | _ => false end.
Definition with_total (b : MutantBudget) (n : Z) : MutantBudget :=
  mkBudget n (mb_Rule b) (mb_Complexity b) (mb_Floor b) (mb_Ceiling b) (mb_PerSeat b) (mb_BeforeFit b) (mb_DeadlineMillis b)
    (mb_RoundCostMillis b) (mb_Trees b) (mb_Exceeds b).

Definition PlanShards (sigs : list Signature) (rs : RunSpec) : option (list Shard) * MutantBudget :=
  let b := fit_budget sigs rs (rule_budget sigs rs) in
  let width := if derived b && (mb_Total b <? rs_MaxShards rs) then mb_Total b else rs_MaxShards rs in
  match ShardSymbols sigs width with
  | None => (None, if derived b then b else with_total b (mb_PerSeat b))
  | Some shards =>
      if derived b then (Some (splitByComplexity shards (mb_Total b)), b)
      else (Some (map (λ sh, with_mutants sh (mb_PerSeat b)) shards),
            with_total b (w64 (mb_PerSeat b * Z.of_nat (length shards))))
  end.

(** ** The exam's coverage *)

Record examSurface := mkSurface { xs_symbols : list LineRange; xs_decisions : list LineRange }.
Record ExamCoverage := mkCoverage {
  ec_Symbols : nat; ec_SymbolsProbed : nat; ec_Decisions : nat; ec_DecisionsProbed : nat; ec_Unplaced : nat; ec_Measured : bool }.

Definition has_lines (sig : Signature) : bool := negb (String.eqb (sg_Name sig) "" || (sg_Line sig <=? 0)).
Definition newExamSurface (sigs : list Signature) : examSurface :=
  let kept := List.filter has_lines sigs in
  mkSurface
    (map (λ sig, mkLineRange (sg_Line sig) (if 0 <? sg_Lines sig then w64 (sg_Line sig + sg_Lines sig - 1) else sg_Line sig)) kept)
    (flat_map sg_Decisions kept).

Definition probed (spans : list LineRange) (r : LineRange) : bool :=
  existsb (λ sp, (lr_Start sp <=? lr_End r) && (lr_Start r <=? lr_End sp)) spans.

(** The graded mutants by their spans, a group per source. *)
Definition coverage (s : examSurface) (refs : list (list LineRange)) : ExamCoverage :=
  let graded := concat refs in
  let spans := List.filter (λ r, negb (IsZero r)) graded in
  let unplaced := length (List.filter IsZero graded) in
  if (length (xs_symbols s) =? 0)%nat || (length graded =? 0)%nat then
    mkCoverage (length (xs_symbols s)) 0 (length (xs_decisions s)) 0 unplaced false
  else
    mkCoverage (length (xs_symbols s)) (length (List.filter (probed spans) (xs_symbols s))) (length (xs_decisions s))
      (length (List.filter (probed spans) (xs_decisions s))) unplaced true.

Definition sig_demo (name : string) (c : Z) : Signature := mkSignature name "" 1 c 3 [].
Example plan_demo :
  (λ p, (map (λ sh, (sh_Symbols sh, sh_Mutants sh)) <$> fst p, mb_Total (snd p)))
    (PlanShards [sig_demo "a" 9; sig_demo "b" 3; sig_demo "c" 4; sig_demo "" 50; sig_demo "d" 1] (mkRunSpec 0 3 0 0 0)) =
  (Some [(["a"], 9); (["c"], 4); (["b"; "d"], 4)], 17).
Proof. vm_compute. reflexivity. Qed.

(** ** The lightest shard *)

Lemma lighter_spec a b : lighter a b = true ↔
  sh_Complexity a < sh_Complexity b ∨
  sh_Complexity a = sh_Complexity b ∧ (length (sh_Symbols a) < length (sh_Symbols b))%nat.
Proof. unfold lighter. rewrite orb_true_iff, andb_true_iff, Z.ltb_lt, Z.eqb_eq, Nat.ltb_lt. lia. Qed.

Lemma lighter_trans a b c : lighter a b = true → lighter c b = false → lighter c a = false.
Proof. rewrite <- !not_true_iff_false, !lighter_spec. lia. Qed.

Lemma lightest_from_spec pre b best shards :
  pre !! best = Some b → Forall (λ s, lighter s b = false) pre →
  ∃ s, (pre ++ shards) !! lightest_from (length pre) best b shards = Some s ∧
    Forall (λ x, lighter x s = false) (pre ++ shards).
Proof.
  revert pre best b. induction shards as [|x shards IH]; intros pre best b Hb Hall; cbn [lightest_from].
  - exists b. by rewrite app_nil_r.
  - replace (pre ++ x :: shards) with ((pre ++ [x]) ++ shards) by (by rewrite <- app_assoc).
    replace (S (length pre)) with (length (pre ++ [x])) by (rewrite length_app; cbn; lia).
    destruct (lighter x b) eqn:E; apply IH.
    + by apply lookup_snoc_Some; right.
    + apply Forall_app. split; [|constructor; [|done]].
      * eapply Forall_impl; [exact Hall|]. intros y Hy. by eapply lighter_trans.
      * apply not_true_iff_false. rewrite lighter_spec. lia.
    + by apply lookup_app_l_Some.
    + apply Forall_app. split; [done|]. by constructor.
Qed.

Lemma lightest_spec shards : shards ≠ [] →
  ∃ s, shards !! lightest shards = Some s ∧ Forall (λ x, lighter x s = false) shards.
Proof.
  destruct shards as [|s rest]; [done|]. intros _. apply (lightest_from_spec [s] s 0 rest); [done|].
  constructor; [|done]. apply not_true_iff_false. rewrite lighter_spec. lia.
Qed.

(** Packing a symbol changes one shard, the lightest. *)
Lemma pack_split shards s : shards ≠ [] →
  ∃ l1 x l2, shards = l1 ++ x :: l2 ∧ pack shards s = l1 ++ add_symbol s x :: l2 ∧ Forall (λ y, lighter y x = false) shards.
Proof.
  intros Hne. destruct (lightest_spec shards Hne) as (x & Hx & Hmin). exists (take (lightest shards) shards), x, (drop (S (lightest shards)) shards).
  pose proof (take_drop_middle _ _ _ Hx) as E. split; [done|]. split; [|done]. unfold pack.
  pose proof (lookup_lt_Some _ _ _ Hx) as Hl. remember (lightest shards) as i eqn:Ei. clear Ei.
  rewrite <- E at 1. rewrite alter_app_r_alt by (rewrite length_take; lia).
  rewrite length_take, Nat.min_l, Nat.sub_diag by lia. done.
Qed.

(** ** The shards while symbols are packed *)

Definition empty_count (shards : list Shard) : nat := length (List.filter (λ sh, (length (sh_Symbols sh) =? 0)%nat) shards).

Record packed (most : Z) (done : list Signature) (n : nat) (shards : list Shard) : Prop := {
  pk_length : length shards = n;
  pk_index : map sh_Index shards = map Z.of_nat (seq 0 n);
  pk_symbols : concat (map sh_Symbols shards) ≡ₚ map symbolIdentity done;
  pk_loads : Forall (λ sh, 0 <= sh_Complexity sh) shards;
  pk_sum : zsum sh_Complexity shards = zsum sg_Complexity done;
  pk_empty_load : Forall (λ sh, sh_Symbols sh = [] → sh_Complexity sh = 0) shards;
  pk_empty : empty_count shards = (n - length done)%nat;
  pk_close x y : x ∈ shards → y ∈ shards → sh_Complexity x <= sh_Complexity y + most }.

Lemma packed_start most n : 0 <= most → packed most [] n (map empty_shard (seq 0 n)).
Proof.
  intros Hm. split.
  - by rewrite length_map, length_seq.
  - by rewrite map_map.
  - induction (seq 0 n) as [|i l IH]; cbn; [done|exact IH].
  - apply Forall_map, Forall_true. cbn. lia.
  - unfold zsum. induction (seq 0 n) as [|i l IH]; cbn in *; lia.
  - by apply Forall_map, Forall_true.
  - assert (∀ l, empty_count (map empty_shard l) = length l) as Hl.
    { intros l. unfold empty_count. induction l as [|i l IH]; cbn; [done|]. by rewrite IH. }
    rewrite Hl, length_seq. cbn. lia.
  - intros x y (i & -> & _)%list_elem_of_fmap (j & -> & _)%list_elem_of_fmap. cbn. lia.
Qed.

Lemma empty_count_add l1 x l2 : empty_count (l1 ++ x :: l2) = (empty_count [x] + empty_count (l1 ++ l2))%nat.
Proof. unfold empty_count. rewrite !List.filter_app, !length_app. cbn. case_match; cbn; lia. Qed.

Lemma empty_count_filled s x : empty_count [add_symbol s x] = 0%nat.
Proof. unfold empty_count. cbn. rewrite length_app. cbn. by rewrite Nat.add_comm. Qed.

Lemma empty_count_empty x : sh_Symbols x = [] → empty_count [x] = 1%nat.
Proof. unfold empty_count. cbn. by intros ->. Qed.

Lemma packed_step most done n shards s : (0 < n)%nat → packed most done n shards →
  0 <= sg_Complexity s <= most → zsum sg_Complexity done + sg_Complexity s < 2 ^ 63 →
  packed most (done ++ [s]) n (pack shards s).
Proof.
  intros Hn H Hs Hb. destruct H as [Hlen Hidx Hsym Hload Hsum Hel Hemp Hclose].
  destruct (pack_split shards s) as (l1 & x & l2 & E & -> & Hmin); [by destruct shards; cbn in *; [lia|]|].
  assert (x ∈ shards) as Hx by (rewrite E; apply elem_of_app; right; left).
  assert (0 <= sh_Complexity x) as Hx0 by (rewrite Forall_forall in Hload; by apply Hload).
  assert (w64 (sh_Complexity x + sg_Complexity s) = sh_Complexity x + sg_Complexity s) as Hw.
  { apply w64_id. pose proof (zsum_ge_elem sh_Complexity shards x Hload Hx). lia. }
  assert (∀ y, y ∈ shards → sh_Complexity x <= sh_Complexity y) as Hleast.
  { intros y Hy. rewrite Forall_forall in Hmin. specialize (Hmin y Hy). rewrite <- not_true_iff_false, lighter_spec in Hmin. lia. }
  assert (∀ y, y ∈ l1 ++ add_symbol s x :: l2 → y = add_symbol s x ∨ y ∈ shards) as Hin.
  { intros y. rewrite E, !elem_of_app, !elem_of_cons. tauto. }
  split.
  - rewrite <- Hlen, E, !length_app. done.
  - rewrite <- Hidx, E, !map_app. done.
  - rewrite E in Hsym. rewrite (map_app symbolIdentity), <- Hsym, !map_app, !concat_app. cbn. solve_Permutation.
  - apply Forall_forall. intros y [->|Hy]%Hin; [cbn; lia|]. rewrite Forall_forall in Hload. by apply Hload.
  - rewrite (zsum_app sg_Complexity), <- Hsum, E, !zsum_app. unfold zsum. cbn. lia.
  - apply Forall_forall. intros y [->|Hy]%Hin; [by intros []%app_nil|]. rewrite Forall_forall in Hel. by apply Hel.
  - rewrite empty_count_add, length_app. rewrite E, empty_count_add in Hemp. cbn [length].
    destruct (decide (sh_Symbols x = [])) as [Hxe|Hxe]; [rewrite empty_count_filled, (empty_count_empty x Hxe) in *; lia|].
    rewrite empty_count_filled. assert (empty_count shards = 0%nat) as H0; [|rewrite E, empty_count_add in H0; lia].
    apply length_zero_iff_nil. destruct (List.filter _ shards) as [|e es] eqn:Ef; [done|]. exfalso.
    assert (In e (e :: es)) as He by (by left). rewrite <- Ef, filter_In in He. destruct He as [He%list_elem_of_In Hee].
    apply Nat.eqb_eq, length_zero_iff_nil in Hee. rewrite Forall_forall in Hmin, Hel. specialize (Hmin e He). specialize (Hel e He Hee).
    rewrite <- not_true_iff_false, lighter_spec, Hee in Hmin. cbn in Hmin. destruct (sh_Symbols x); [done|]. cbn in Hmin. lia.
  - intros y z [->|Hy]%Hin [->|Hz]%Hin; cbn [add_symbol sh_Complexity].
    + lia.
    + specialize (Hleast z Hz). lia.
    + specialize (Hclose y x Hy Hx). lia.
    + by apply Hclose.
Qed.

Lemma packed_fold most done todo n shards : (0 < n)%nat → packed most done n shards →
  Forall (λ s, 0 <= sg_Complexity s <= most) todo → zsum sg_Complexity (done ++ todo) < 2 ^ 63 →
  packed most (done ++ todo) n (foldl pack shards todo).
Proof.
  intros Hn. revert done shards. induction todo as [|s todo IH]; intros done shards H Hall Hb; [by rewrite app_nil_r|].
  apply Forall_cons in Hall as [Hs Hall]. cbn [foldl].
  replace (done ++ s :: todo) with ((done ++ [s]) ++ todo) in * by (by rewrite <- app_assoc).
  apply IH; [|done|done]. apply packed_step; [done..|]. rewrite !zsum_app in Hb. unfold zsum in *. cbn in Hb.
  assert (0 <= zsum sg_Complexity todo); [|unfold zsum in *; lia].
  apply zsum_nonneg. eapply Forall_impl; [exact Hall|]. cbn. lia.
Qed.

(** What [ShardSymbols] is given: complexities are counts, and their sum is an int. *)
Definition counts (bound : Z) (sigs : list Signature) : Prop :=
  Forall (λ s, 0 <= sg_Complexity s) (List.filter is_named sigs) ∧
  zsum sg_Complexity (List.filter is_named sigs) < bound.

Lemma ShardSymbols_packed sigs maxShards shards most : ShardSymbols sigs maxShards = Some shards → counts (2 ^ 63) sigs →
  Forall (λ s, sg_Complexity s <= most) (List.filter is_named sigs) →
  let n := Nat.min (Z.to_nat maxShards) (length (List.filter is_named sigs)) in
  (1 < n)%nat ∧ ∃ done, done ≡ₚ List.filter is_named sigs ∧ packed most done n shards.
Proof.
  unfold ShardSymbols. destruct (Z.leb_spec maxShards 1) as [|Hm]; [done|].
  destruct (Nat.ltb_spec (length (List.filter is_named sigs)) 2) as [|Hl]; [done|]. intros [= <-] [Hnn Hb] Hmost. cbn zeta.
  replace (Z.to_nat (Z.min maxShards _)) with (Nat.min (Z.to_nat maxShards) (length (List.filter is_named sigs))) by lia.
  split; [lia|]. pose proof (sort_stable_perm harder (List.filter is_named sigs)) as Hp.
  exists (sort_stable harder (List.filter is_named sigs)). split; [done|].
  apply (packed_fold most []); [lia|..].
  - apply packed_start. destruct (List.filter is_named sigs) as [|s l]; [cbn in Hl; lia|].
    apply Forall_cons in Hnn as [Hs _]. apply Forall_cons in Hmost as [Hs' _]. lia.
  - rewrite Hp. apply Forall_and. by split.
  - by rewrite app_nil_l, (zsum_perm sg_Complexity _ _ Hp).
Qed.

(** Sharding bounds parallelism, never coverage. When a file is sharded, there are as
    many shards as seats or named symbols, whichever is fewer; every named symbol is in
    exactly one shard, under the identity its seat is aimed at; no shard is empty, so no
    seat is asked to attack nothing; and shards are numbered in order. *)
Theorem ShardSymbols_partition sigs maxShards shards : ShardSymbols sigs maxShards = Some shards → counts (2 ^ 63) sigs →
  length shards = Nat.min (Z.to_nat maxShards) (length (List.filter is_named sigs)) ∧
  concat (map sh_Symbols shards) ≡ₚ map symbolIdentity (List.filter is_named sigs) ∧
  Forall (λ sh, sh_Symbols sh ≠ []) shards ∧
  map sh_Index shards = map Z.of_nat (seq 0 (length shards)).
Proof.
  intros E Hc. set (most := zsum sg_Complexity (List.filter is_named sigs)).
  destruct (ShardSymbols_packed _ _ _ most E Hc) as [Hn (done & Hp & H)].
  { destruct Hc as [Hc _]. apply Forall_forall. intros s Hs. by apply zsum_ge_elem. }
  destruct H as [Hlen Hidx Hsym _ _ _ Hemp _]. split_and!; [done|by rewrite Hsym, Hp| |by rewrite Hlen].
  assert (length done = length (List.filter is_named sigs)) as Hld by (by rewrite Hp).
  assert (empty_count shards = 0%nat) as He by lia. apply length_zero_iff_nil in He.
  apply Forall_forall. intros sh Hsh Hnil. assert (In sh (List.filter (λ sh, (length (sh_Symbols sh) =? 0)%nat) shards)) as Hin.
  { apply filter_In. split; [by apply list_elem_of_In|]. by rewrite Hnil. }
  by rewrite He in Hin.
Qed.

(** The seats' work is balanced. No shard's load exceeds another's by more than the
    hardest single symbol, whatever the symbols, so a seat is never paired with one that
    has a multiple of its difficulty unless one symbol alone accounts for it. *)
Theorem ShardSymbols_balanced sigs maxShards shards most : ShardSymbols sigs maxShards = Some shards → counts (2 ^ 63) sigs →
  Forall (λ s, sg_Complexity s <= most) (List.filter is_named sigs) →
  zsum sh_Complexity shards = zsum sg_Complexity (List.filter is_named sigs) ∧
  ∀ x y, x ∈ shards → y ∈ shards → sh_Complexity x <= sh_Complexity y + most.
Proof.
  intros E Hc Hmost. destruct (ShardSymbols_packed _ _ _ most E Hc Hmost) as [_ (done & Hp & H)]. split; [|apply H].
  by rewrite (pk_sum _ _ _ _ H), (zsum_perm sg_Complexity _ _ Hp).
Qed.

Lemma ShardSymbols_partition_witness :
  counts (2 ^ 63) [sig_demo "a" 9; sig_demo "b" 3; sig_demo "" 50; sig_demo "c" 4] ∧
  ∃ shards, ShardSymbols [sig_demo "a" 9; sig_demo "b" 3; sig_demo "" 50; sig_demo "c" 4] 2 = Some shards ∧
    length shards = 2%nat ∧ concat (map sh_Symbols shards) ≡ₚ ["a"; "b"; "c"].
Proof.
  assert (counts (2 ^ 63) [sig_demo "a" 9; sig_demo "b" 3; sig_demo "" 50; sig_demo "c" 4]) as Hc.
  { split; [repeat constructor; cbn; lia|vm_compute; done]. }
  split; [exact Hc|]. eexists. split; [reflexivity|].
  destruct (ShardSymbols_partition [sig_demo "a" 9; sig_demo "b" 3; sig_demo "" 50; sig_demo "c" 4] 2 _ eq_refl Hc) as (Hl & Hs & _).
  split; [exact Hl|exact Hs].
Defined.

Lemma ShardSymbols_balanced_witness :
  ∃ shards, ShardSymbols [sig_demo "a" 9; sig_demo "b" 3; sig_demo "c" 4] 2 = Some shards ∧
    ∀ x y, x ∈ shards → y ∈ shards → sh_Complexity x <= sh_Complexity y + 9.
Proof.
  eexists. split; [reflexivity|].
  apply (ShardSymbols_balanced [sig_demo "a" 9; sig_demo "b" 3; sig_demo "c" 4] 2 _ 9 eq_refl).
  - split; [repeat constructor; cbn; lia|vm_compute; done].
  - repeat constructor; cbn; lia.
Defined.

(** ** The seats' shares *)

Lemma foldl_w64 {A} (f : A → Z) l acc :
  foldl (λ w x, w64 (w + f x)) (w64 acc) l = w64 (acc + zsum f l).
Proof.
  revert acc. induction l as [|x l IH]; intros acc; cbn [foldl].
  - f_equal. unfold zsum. cbn. lia.
  - rewrite w64_l, IH. f_equal. unfold zsum. cbn. lia.
Qed.

Lemma sum_w64 {A} (f : A → Z) l : 0 <= zsum f l < 2 ^ 63 → foldl (λ w x, w64 (w + f x)) 0 l = zsum f l.
Proof. intros H. change 0 with (w64 0). rewrite foldl_w64, Z.add_0_l. apply w64_id. lia. Qed.

Lemma whole_share spare weight sh : 0 <= spare < 2 ^ 6 → 0 <= sh_Complexity sh <= weight → weight < 2 ^ 46 →
  whole spare weight sh = spare * sh_Complexity sh / weight.
Proof.
  intros Hs Hc Hw. unfold whole, share. destruct (Z.ltb_spec 0 weight) as [H0|H0].
  - apply trunc_share; lia.
  - replace weight with 0 by lia. by rewrite Z.div_0_r.
Qed.

Lemma zsum_shares {A} (f : A → Z) spare weight l : 0 <= spare → 0 < weight → Forall (λ x, 0 <= f x) l →
  zsum (λ x, spare * f x / weight) l * weight <= spare * zsum f l.
Proof.
  intros Hs Hw. unfold zsum. induction 1 as [|x l Hx _ IH]; cbn; [lia|].
  pose proof (Z.mul_div_le (spare * f x) weight Hw). lia.
Qed.

Lemma bump_spec shards i : (i < length shards)%nat →
  zsum sh_Mutants (bump shards i) = zsum sh_Mutants shards + 1 ∧ length (bump shards i) = length shards.
Proof.
  intros Hi. unfold bump. split; [|apply length_alter]. revert i Hi.
  induction shards as [|sh shards IH]; intros [|i] Hi; [cbn in Hi; lia..|unfold zsum; cbn; lia|].
  cbn [length] in Hi. specialize (IH i ltac:(lia)).
  change (sh_Mutants sh + zsum sh_Mutants (bump shards i) = sh_Mutants sh + zsum sh_Mutants shards + 1). unfold bump. lia.
Qed.

Lemma bump_least k shards i : Forall (λ sh, k <= sh_Mutants sh) shards → Forall (λ sh, k <= sh_Mutants sh) (bump shards i).
Proof. intros H. apply Forall_alter; [done|]. cbn. lia. Qed.

Lemma bump_loop (rems : list (nat * double)) n shards ks :
  (0 < n)%nat → length shards = n → length rems = n → Forall (λ p, (p.1 < n)%nat) rems → Forall (λ sh, 1 <= sh_Mutants sh) shards →
  let out := foldl (λ acc k, match rems !! (k mod n)%nat with Some (i, _) => bump acc i | None => acc end) shards ks in
  zsum sh_Mutants out = zsum sh_Mutants shards + Z.of_nat (length ks) ∧ Forall (λ sh, 1 <= sh_Mutants sh) out ∧ length out = n.
Proof.
  intros Hn Hl Hr Hall. cbn zeta. revert shards Hl. induction ks as [|k ks IH]; intros shards Hl Hm; cbn [foldl length]; [split_and!; [lia|done..]|].
  destruct (lookup_lt_is_Some_2 rems (k mod n)%nat) as [[i fr] Hi]; [rewrite Hr; by apply Nat.mod_upper_bound; lia|].
  rewrite Hi. assert (i < n)%nat as Hin. { apply (Forall_lookup_1 _ _ _ _ Hall) in Hi. exact Hi. }
  destruct (bump_spec shards i) as [Hs Hbl]; [lia|].
  destruct (IH (bump shards i)) as (IH1 & IH2 & IH3); [lia|by apply bump_least|]. split_and!; [lia|done..].
Qed.

(** The split is exact when the weights and the total are of a size a budget has. *)
Lemma split_total shards total : shards ≠ [] → Z.of_nat (length shards) <= total → total < 2 ^ 6 →
  Forall (λ sh, 0 <= sh_Complexity sh) shards → zsum sh_Complexity shards < 2 ^ 46 →
  zsum sh_Mutants (splitByComplexity shards total) = total ∧ Forall (λ sh, 1 <= sh_Mutants sh) (splitByComplexity shards total) ∧
  length (splitByComplexity shards total) = length shards.
Proof.
  intros Hne Hle Ht Hc Hw. unfold splitByComplexity. assert ((total <? Z.of_nat (length shards)) = false) as -> by lia.
  pose proof (zsum_nonneg _ _ Hc) as Hw0. rewrite (sum_w64 sh_Complexity) by lia.
  set (weight := zsum sh_Complexity shards) in *. set (spare := total - Z.of_nat (length shards)).
  assert (0 < length shards)%nat as Hn by (destruct shards; cbn; [done|lia]).
  assert (∀ sh, sh ∈ shards → whole spare weight sh = spare * sh_Complexity sh / weight) as Hwh.
  { intros sh Hsh. rewrite Forall_forall in Hc. apply whole_share; [unfold spare; lia| |done].
    split; [by apply Hc|]. apply zsum_ge_elem; [|done]. by apply Forall_forall. }
  assert (0 <= zsum (whole spare weight) shards <= spare) as Hg.
  { rewrite (zsum_ext _ _ _ Hwh). split.
    - apply zsum_nonneg. eapply Forall_impl; [exact Hc|]. cbn. intros sh Hsh. destruct (Z.eq_dec weight 0) as [->|]; [by rewrite Z.div_0_r|].
      apply Z.div_pos; [unfold spare|]; nia.
    - destruct (Z.eq_dec weight 0) as [->|Hw1].
      + rewrite (zsum_ext _ (λ _, 0)) by (intros; apply Z.div_0_r). rewrite zsum_zero. unfold spare. lia.
      + pose proof (zsum_shares sh_Complexity spare weight shards ltac:(unfold spare; lia) ltac:(lia) Hc) as Hz. fold weight in Hz. nia. }
  rewrite (sum_w64 (whole spare weight)) by (unfold spare in *; lia).
  destruct (bump_loop (sort_stable (λ a c : nat * double, fgt a.2 c.2) (imap (λ i sh, (i, frac spare weight sh)) shards)) (length shards)
    (map (λ sh, with_mutants sh (1 + whole spare weight sh)) shards)
    (seq 0 (Z.to_nat (spare - zsum (whole spare weight) shards)))) as (H1 & H2 & H3).
  - done.
  - apply length_map.
  - by rewrite length_sort_stable, length_imap.
  - rewrite sort_stable_perm. apply Forall_lookup_2. intros i [j fr] Hi. rewrite list_lookup_imap in Hi.
    destruct (shards !! i) eqn:Ei; [|done]. cbn in Hi. injection Hi as <- _. by eapply lookup_lt_Some.
  - apply Forall_map, Forall_forall. intros sh Hsh. cbn. rewrite Hwh by done. rewrite Forall_forall in Hc. specialize (Hc sh Hsh).
    destruct (Z.eq_dec weight 0) as [->|]; [rewrite Z.div_0_r; lia|].
    assert (0 <= spare * sh_Complexity sh / weight); [|lia]. apply Z.div_pos; [unfold spare|]; nia.
  - split_and!; [|done..]. rewrite H1, length_seq.
    assert (zsum sh_Mutants (map (λ sh, with_mutants sh (1 + whole spare weight sh)) shards) =
      Z.of_nat (length shards) + zsum (whole spare weight) shards) as ->; [|unfold spare in *; lia].
    clear. generalize (whole spare weight). intros f. unfold zsum. induction shards as [|x l IH]; cbn [map foldr length]; [done|].
    cbn [with_mutants sh_Mutants] in *. lia.
Qed.

(** ** The plan *)

Lemma clamp_total_bounds c : BudgetFloor <= clamp_total c <= BudgetCeiling.
Proof. unfold clamp_total, BudgetFloor, BudgetCeiling, DefaultNMutants, DefaultMaxShards. cbv zeta. destruct (w64 _ <? 5) eqn:E; case_match; lia. Qed.

Lemma fit_budget_spec sigs rs :
  let b := fit_budget sigs rs (rule_budget sigs rs) in
  if derived b then BudgetFloor <= mb_Total b <= BudgetCeiling else 1 <= mb_PerSeat b.
Proof.
  cbn zeta. pose proof (clamp_total_bounds (complexity_of sigs)) as Hc. unfold BudgetFloor, BudgetCeiling, DefaultNMutants, DefaultMaxShards in *.
  unfold rule_budget. destruct (Z.ltb_spec 0 (rs_NMutants rs)) as [Hn|_].
  - unfold fit_budget. cbn [mb_Rule]. destruct (fitsInDeadline rs <=? 0); [cbn; lia|].
    destruct (fitsInDeadline rs <? _); cbn; lia.
  - destruct (complexity_of sigs <=? 0) eqn:Ec.
    + unfold fit_budget. cbn [mb_Rule]. destruct (fitsInDeadline rs <=? 0); cbn; unfold DefaultNMutants; lia.
    + unfold fit_budget. cbn [mb_Rule mb_Total]. destruct (fitsInDeadline rs <=? 0); [cbn; lia|].
      destruct (fitsInDeadline rs <? clamp_total _) eqn:E; cbn; [|lia]. unfold BudgetFloor.
      destruct (fitsInDeadline rs <? 5) eqn:E5; lia.
Qed.

Lemma ShardSymbols_loads sigs n shards : ShardSymbols sigs n = Some shards → counts (2 ^ 46) sigs →
  shards ≠ [] ∧ Z.of_nat (length shards) <= n ∧ Forall (λ sh, 0 <= sh_Complexity sh) shards ∧ zsum sh_Complexity shards < 2 ^ 46.
Proof.
  intros E [Hc Hb]. destruct (ShardSymbols_packed sigs n shards (zsum sg_Complexity (List.filter is_named sigs)) E) as [Hn (done & Hp & H)].
  { split; [done|lia]. }
  { apply Forall_forall. intros s Hs. by apply zsum_ge_elem. }
  destruct H as [Hl _ _ Hload Hsum _ _ _]. rewrite (zsum_perm sg_Complexity _ _ Hp) in Hsum.
  split_and!; [intros ->; cbn in Hl; lia|lia|done|lia].
Qed.

(** One decision, one budget. The mutants the seats are asked for add up to the total
    the record discloses, each seat is asked for at least one, and a budget derived from
    complexity, fitted to the clock or not, is within its floor and ceiling; the shares,
    computed in doubles, are exact. Unsharded, the one seat is asked for the total. *)
Theorem PlanShards_total sigs rs : counts (2 ^ 46) sigs →
  let '(shards, b) := PlanShards sigs rs in
  (derived b = true → BudgetFloor <= mb_Total b <= BudgetCeiling) ∧
  match shards with
  | Some shards => mb_Total b = w64 (zsum sh_Mutants shards) ∧ Forall (λ sh, 1 <= sh_Mutants sh) shards
  | None => 1 <= mb_Total b
  end.
Proof.
  intros Hc. unfold PlanShards. pose proof (fit_budget_spec sigs rs) as Hb. cbn zeta in *.
  set (b := fit_budget sigs rs (rule_budget sigs rs)) in *. unfold BudgetFloor, BudgetCeiling, DefaultNMutants, DefaultMaxShards in *.
  destruct (derived b) eqn:Ed.
  - destruct (ShardSymbols sigs _) as [shards|] eqn:Es; [|split; [done|lia]]. split; [done|].
    destruct (ShardSymbols_loads _ _ _ Es Hc) as (Hne & Hl & Hload & Hsum).
    destruct (split_total shards (mb_Total b)) as (H1 & H2 & _); [done| |lia|done|done|].
    { cbn [andb] in Hl. case_match; lia. }
    split; [|done]. rewrite H1, w64_id; lia.
  - cbn [andb]. destruct (ShardSymbols sigs _) as [shards|] eqn:Es.
    + split; [unfold derived in *; cbn; by rewrite Ed|]. cbn [with_total mb_Total]. split.
      * f_equal. clear. unfold zsum. induction shards as [|x l IH]; cbn [map foldr length]; [lia|]. cbn [with_mutants sh_Mutants] in *. lia.
      * by apply Forall_map, Forall_true.
    + split; [unfold derived in *; cbn; by rewrite Ed|]. cbn. lia.
Qed.

Lemma PlanShards_total_witness :
  let '(shards, b) := PlanShards [sig_demo "a" 7; sig_demo "b" 2; sig_demo "c" 4; sig_demo "d" 19] (mkRunSpec 0 8 60000000000 300000000000 4) in
  (derived b = true → BudgetFloor <= mb_Total b <= BudgetCeiling) ∧
  match shards with
  | Some shards => mb_Total b = w64 (zsum sh_Mutants shards) ∧ Forall (λ sh, 1 <= sh_Mutants sh) shards
  | None => 1 <= mb_Total b
  end.
Proof. apply PlanShards_total. split; [repeat constructor; cbn; lia|vm_compute; done]. Defined.

Example fitted_demo :
  (λ p, (map sh_Mutants <$> fst p, mb_Total (snd p), mb_BeforeFit (snd p)))
    (PlanShards [sig_demo "a" 7; sig_demo "b" 2; sig_demo "c" 4; sig_demo "d" 19] (mkRunSpec 0 8 60000000000 300000000000 4)) =
  (Some [3; 2; 2; 1], 8, 32).
Proof. vm_compute. reflexivity. Qed.

(** ** What the exam reached *)

Lemma filter_length_mono {A} (p q : A → bool) l : (∀ x, p x = true → q x = true) →
  (length (List.filter p l) <= length (List.filter q l) <= length l)%nat.
Proof. intros H. split; [by apply length_filter_le|apply List.filter_length_le]. Qed.

Lemma probed_mono spans spans' r : (∀ x, x ∈ spans → x ∈ spans') → probed spans r = true → probed spans' r = true.
Proof.
  intros H. unfold probed. rewrite !existsb_exists. intros (x & Hx & Hr). exists x. split; [|done].
  apply list_elem_of_In, H. by apply list_elem_of_In.
Qed.

(** The coverage an exam discloses is a lower bound that more mutants only raise: it does
    not depend on how the graded mutants are grouped or ordered, grading more never lowers
    a count, no more is probed than there is, and a mutant with no span is counted as
    unplaced and probes nothing. *)
Theorem coverage_grows s refs refs' more : concat refs' ≡ₚ concat refs ++ more →
  let c := coverage s refs in
  let c' := coverage s refs' in
  (ec_SymbolsProbed c <= ec_SymbolsProbed c' <= ec_Symbols c')%nat ∧
  (ec_DecisionsProbed c <= ec_DecisionsProbed c' <= ec_Decisions c')%nat ∧
  ec_Unplaced c' = (ec_Unplaced c + length (List.filter IsZero more))%nat ∧
  (ec_Measured c = true → ec_Measured c' = true) ∧
  (List.filter (λ r, negb (IsZero r)) (concat refs') = [] → ec_SymbolsProbed c' = 0%nat ∧ ec_DecisionsProbed c' = 0%nat).
Proof.
  intros Hp. cbn zeta.
  assert (∀ x, x ∈ List.filter (λ r, negb (IsZero r)) (concat refs) → x ∈ List.filter (λ r, negb (IsZero r)) (concat refs')) as Hin.
  { intros x. rewrite !list_elem_of_In, !filter_In, <- !list_elem_of_In, Hp, elem_of_app. tauto. }
  assert (length (List.filter IsZero (concat refs')) = (length (List.filter IsZero (concat refs)) + length (List.filter IsZero more))%nat) as Hu.
  { rewrite <- length_app, <- List.filter_app. by rewrite Hp. }
  assert (length (concat refs) <= length (concat refs'))%nat as Hl by (rewrite Hp, length_app; lia).
  pose proof (λ rs, filter_length_mono _ _ rs (λ r, probed_mono _ _ r Hin)) as Hmono.
  unfold coverage. set (sp := List.filter _ (concat refs)) in *. set (sp' := List.filter _ (concat refs')) in *.
  assert (∀ rs, sp' = [] → length (List.filter (probed sp') rs) = 0%nat) as Hnone.
  { intros rs ->. induction rs; cbn; auto. }
  pose proof (Hmono (xs_symbols s)). pose proof (Hmono (xs_decisions s)).
  destruct (length (xs_symbols s) =? 0)%nat eqn:E0; [cbn; split_and!; auto; lia|]. cbn [orb].
  destruct (Nat.eqb_spec (length (concat refs)) 0) as [E1|E1], (Nat.eqb_spec (length (concat refs')) 0) as [E2|E2];
    cbn; split_and!; auto; lia.
Qed.

Lemma coverage_grows_witness :
  let s := newExamSurface [mkSignature "f" "" 1 2 5 [mkLineRange 2 3]; mkSignature "g" "" 7 1 2 []] in
  let few := [[mkLineRange 2 2; mkLineRange 0 0]] in
  let more := [[mkLineRange 0 0]; [mkLineRange 8 8; mkLineRange 2 2]] in
  (ec_SymbolsProbed (coverage s few) <= ec_SymbolsProbed (coverage s more) <= ec_Symbols (coverage s more))%nat ∧
  (ec_SymbolsProbed (coverage s few), ec_SymbolsProbed (coverage s more), ec_Unplaced (coverage s more)) = (1, 2, 1)%nat.
Proof.
  cbv zeta. split; [|vm_compute; reflexivity].
  refine (proj1 (coverage_grows _ _ _ [mkLineRange 8 8] _)). cbn. solve_Permutation.
Defined.
