(* ===== verification/Invocations.v ===== *)
(** * Which runner a command is: internal/lang/invocation.go, runner.go, failfast.go

    A command, or the package script it runs, is read once as a row of the runner
    table; later commands are built by appending to it, never by rewriting it. Reading
    a file is an argument ([read_file]); the manifest's JSON is read here. Main results:
    every command of a known language has a row and the command run is the operator's
    ([Resolve_keeps], [RunnerFor_total]), what corral adds is only appended
    ([shape_appends], [AppendFailFast_appends]), and the script splitter agrees with the
    shell reader on every simple script ([splitScript_agrees]). *)
From S2P Require Import Prelude GoLib GoText Json Shell Commands.
Local Open Scope string_scope.
Local Open Scope list_scope.

(** ** Words of a command *)

Fixpoint index_where (p : string → bool) (l : list string) : option nat :=
  match l with
  | [] => None
  | a :: l => if p a then Some O else S <$> index_where p l
  end.

Definition names_word (name a : string) : bool :=
  String.eqb a name || String.eqb (path_base a) name || String.eqb (path_base a) (name +:+ ".exe").
Definition wordIndex (cmd : list string) (name : string) : option nat := index_where (names_word name) cmd.
Definition cmdHasWord (cmd : list string) (name : string) : bool := bool_decide (is_Some (wordIndex cmd name)).

Definition is_entry (pkg : string) (bins : list string) (a : string) : bool :=
  existsb (λ b, let suffix := "node_modules/" +:+ pkg +:+ "/" +:+ b in
                String.eqb a suffix || has_suffix ("/" +:+ suffix) a) bins.
Definition entryScriptIndex (argv : list string) (pkg : string) (bins : list string) : option nat :=
  index_where (is_entry pkg bins) argv.

Definition vitestIndex (argv : list string) : option nat :=
  match wordIndex argv "vitest" with
  | Some i => Some i
  | None => index_where (λ a, String.eqb (path_base a) "vitest.mjs" || String.eqb (path_base a) "vitest.js") argv
  end.

Definition isGoBinary (argv0 : string) : bool := String.eqb (path_base argv0) "go" || String.eqb (path_base argv0) "go.exe".
Definition goTestCmd (argv : list string) : bool :=
  match argv with a :: b :: _ => isGoBinary a && String.eqb b "test" | _ => false end.
Definition isNextest (testCmd : list string) : bool := cmdHasWord testCmd "nextest" || cmdHasWord testCmd "cargo-nextest".
Definition jestCmd (argv : list string) : bool :=
  bool_decide (is_Some (wordIndex argv "jest")) || bool_decide (is_Some (entryScriptIndex argv "jest" ["bin/jest.js"])).
Definition mochaCmd (argv : list string) : bool :=
  bool_decide (is_Some (wordIndex argv "mocha")) || bool_decide (is_Some (entryScriptIndex argv "mocha" ["bin/mocha.js"; "bin/_mocha"])).
Definition vitestCmd (argv : list string) : bool := bool_decide (is_Some (vitestIndex argv)).
Definition nodeTestCmd (argv : list string) : bool :=
  match argv with a :: _ => String.eqb (path_base a) "node" && existsb (String.eqb "--test") argv | [] => false end.

(** ** The runner table: the fields detection reads *)

Record Row := mkRow {
  rw_Name : string; rw_ID : string; rw_Languages : list string; rw_Default : bool; rw_Words : list string;
  rw_Detect : option (list string → bool); rw_FailFast : list string }.

Definition js : list string := ["javascript"; "typescript"].
Definition runners : list Row := [
  mkRow "go test" "go-test" ["go"] true [] (Some goTestCmd) ["-failfast"];
  mkRow "gotestsum" "gotestsum" ["go"] false ["gotestsum"] None [];
  mkRow "pytest" "pytest" ["python"] true ["pytest"] None ["-x"];
  mkRow "unittest" "unittest" ["python"] false ["unittest"] None ["--failfast"];
  mkRow "jest" "jest" js false ["jest"] (Some jestCmd) ["--bail"];
  mkRow "mocha" "mocha" js false ["mocha"] (Some mochaCmd) ["--bail"];
  mkRow "vitest" "vitest" js false ["vitest"] (Some vitestCmd) [];
  mkRow "node --test" "node-test" js true [] (Some nodeTestCmd) [];
  mkRow "rspec" "rspec" ["ruby"] true ["rspec"] None ["--fail-fast"];
  mkRow "minitest" "minitest" ["ruby"] false ["ruby"; "rake"; "testrb"] None [];
  mkRow "phpunit" "phpunit" ["php"] true ["phpunit"] None ["--stop-on-failure"];
  mkRow "cargo nextest" "cargo-nextest" ["rust"] false [] (Some isNextest) [];
  mkRow "cargo test" "cargo-test" ["rust"] true ["cargo"] None []].

Definition runs_language (lang : string) (r : Row) : bool := existsb (String.eqb lang) (rw_Languages r).

(** The command words of a wrapped script; [None]: not wrapped, or no words. *)
Definition script_words (argv : list string) : option (list string) :=
  if cmdIsShellWrapped argv then
    match index_where (String.eqb "-c") argv with
    | Some i => match argv !! S i with
                | Some s => match shellCommandWords s with [] => None | ws => Some ws end
                | None => None
                end
    | None => None
    end
  else None.

Definition row_named (argv : list string) (script : option (list string)) (r : Row) : bool :=
  match script with
  | Some ws => existsb (λ w, existsb (String.eqb (runner_word w)) (rw_Words r)) ws
  | None => match rw_Detect r with
            | Some detect => detect argv
            | None => existsb (cmdHasWord argv) (rw_Words r)
            end
  end.

Definition namedRunner (lang : string) (argv : list string) : option Row :=
  match argv with
  | [] => None
  | _ => List.find (λ r, runs_language lang r && row_named argv (script_words argv) r) runners
  end.

Definition RunnerByID (lang id : string) : option Row :=
  List.find (λ r, runs_language lang r && String.eqb (rw_ID r) id) runners.
Definition CheckRunnerID (id : string) : bool := existsb (λ r, String.eqb (rw_ID r) id) runners.

(** ** Invocations *)

(** [iv_Script]: [None] when no package script is run; [Some []] when one is and it was
    not read. *)
Record Invocation := mkInvocation {
  iv_Argv : list string; iv_Runner : string; iv_Script : option (list string); iv_Pass : string; iv_Narrow : bool; iv_From : string }.
Definition Cmd (argv : list string) : Invocation := mkInvocation argv "" None "" false "".
Definition WithArgv (inv : Invocation) (argv : list string) : Invocation :=
  mkInvocation argv (iv_Runner inv) (iv_Script inv) (iv_Pass inv) (iv_Narrow inv) (iv_From inv).
Definition detectWords (inv : Invocation) : list string := default (iv_Argv inv) (iv_Script inv).

Definition RunnerFor (lang : string) (inv : Invocation) : option Row :=
  match (if String.eqb (iv_Runner inv) "" then None else RunnerByID lang (iv_Runner inv)) with
  | Some r => Some r
  | None =>
      match namedRunner lang (detectWords inv) with
      | Some r => Some r
      | None => List.find (λ r, rw_Default r && runs_language lang r) runners
      end
  end.

(** ** Launchers *)

Record launcher := mkLauncher {
  ln_manifest : string; ln_key : string; ln_pass : string; ln_testWords : list string; ln_runWords : list string; ln_bareName : bool }.
Definition launchers (name : string) : option launcher :=
  if String.eqb name "npm" then Some (mkLauncher "package.json" "scripts" "--" ["test"; "t"] ["run"; "run-script"] false)
  else if String.eqb name "pnpm" then Some (mkLauncher "package.json" "scripts" "--" ["test"; "t"] ["run"; "run-script"] true)
  else if String.eqb name "yarn" then Some (mkLauncher "package.json" "scripts" "" ["test"] ["run"] true)
  else if String.eqb name "composer" then Some (mkLauncher "composer.json" "scripts" "--" ["test"] ["run-script"; "run"] true)
  else None.

Definition hasFlag (argv flags : list string) : bool :=
  existsb (λ a, existsb (λ f, String.eqb a f || has_prefix (f +:+ "=") a) flags) argv.
Definition launcherRedirects : list string :=
  ["--workspace"; "-w"; "--workspaces"; "-ws"; "--prefix"; "--include-workspace-root"; "--cwd"; "--filter"; "-F";
   "--recursive"; "-r"; "--dir"; "-C"; "--workspace-root"; "--working-dir"; "-d"].
Definition before_dashes (l : list string) : list string :=
  match index_where (String.eqb "--") l with Some i => take i l | None => l end.
Definition launcherRedirected (argv : list string) : bool := hasFlag (before_dashes (drop 1 argv)) launcherRedirects.

Definition filepath_Join (dir file : string) : string :=
  if String.eqb dir "" then path_clean file else path_clean (dir +:+ "/" +:+ file).

(** [json.Unmarshal] into a map of raw messages: an object, or null for no map. *)
Definition raw_members (t : option json) : option (list (string * json)) :=
  match t with Some (JObj m) => Some (obj_of_list m) | Some JNull => Some [] | _ => None end.
Definition raw_string (t : json) : option string :=
  match t with JStr s => Some s | JNull => Some "" | _ => None end.
Definition nonempty (s : string) : option string := if String.eqb s "" then None else Some s.

Section Manifest.
Variable read_file : string → option bytes.

Definition readScript (path key name : string) : option string :=
  match read_file path with
  | None => None
  | Some b =>
      match raw_members (parse_doc b) with
      | None => None
      | Some top =>
          match raw_members (obj_get key top) with
          | None => None
          | Some scripts =>
              match obj_get name scripts with
              | None => None
              | Some raw =>
                  match raw_string raw with
                  | Some s => nonempty s
                  | None => match raw with
                            | JArr [x] => match raw_string x with Some s => nonempty s | None => None end
                            | _ => None
                            end
                  end
              end
          end
      end
  end.

Definition launchedScript (repoDir : string) (argv : list string) : option (launcher * string) :=
  match argv with
  | a :: sub :: rest =>
      match launchers (path_base a) with
      | None => None
      | Some l =>
          if existsb (String.eqb sub) (ln_testWords l) then Some (l, "test")
          else if existsb (String.eqb sub) (ln_runWords l) then
            match rest with
            | name :: _ => if has_prefix "-" name then None else Some (l, name)
            | [] => None
            end
          else if ln_bareName l && negb (has_prefix "-" sub) then
            match readScript (filepath_Join repoDir (ln_manifest l)) (ln_key l) sub with
            | Some _ => Some (l, sub)
            | None => None
            end
          else None
      end
  | _ => None
  end.

Fixpoint contains_substitution (s : string) : bool :=
  match s with "" => false | String _ s' => has_prefix "$(" s || contains_substitution s' end.
Definition scriptIsSimple (s : string) : bool :=
  negb (contains_any s (";|&<>`" +:+ one newline)) && negb (contains_substitution s).

(** The splitter's variables. *)
Record splitter := mkSplitter { sp_quote : option ascii; sp_inWord : bool; sp_cur : string; sp_words : list string }.
Definition split_step (c : ascii) (st : splitter) : splitter :=
  let '(mkSplitter q w cur words) := st in
  match q with
  | Some d => if Ascii.eqb c d then mkSplitter None w cur words else mkSplitter q w (cur +:+ one c) words
  | None =>
      if Ascii.eqb c sq || Ascii.eqb c dquote then mkSplitter (Some c) true cur words
      else if Ascii.eqb c " "%char || Ascii.eqb c tab then
        if w then mkSplitter None false "" (words ++ [cur]) else st
      else mkSplitter None true (cur +:+ one c) words
  end.
Fixpoint split_run (s : string) (st : splitter) : splitter :=
  match s with "" => st | String c s' => split_run s' (split_step c st) end.
Definition splitScript (s : string) : option (list string) :=
  let st := split_run s (mkSplitter None false "" []) in
  match sp_quote st with
  | Some _ => None
  | None => Some (if sp_inWord st then sp_words st ++ [sp_cur st] else sp_words st)
  end.

(** ** Resolve *)

Definition with_script (inv : Invocation) (words : option (list string)) : Invocation :=
  mkInvocation (iv_Argv inv) (iv_Runner inv) words (iv_Pass inv) (iv_Narrow inv) (iv_From inv).

Definition Resolve (lang repoDir : string) (argv : list string) (override : string) : option Invocation :=
  let start :=
    if String.eqb override "" then Some (Cmd argv)
    else match RunnerByID lang override with
         | Some _ => Some (mkInvocation argv override None "" false "--runner")
         | None => None
         end in
  match start with
  | None => None
  | Some inv =>
      match argv with
      | [] => Some inv
      | a :: _ =>
          match launchers (path_base a) with
          | None => Some inv
          | Some _ =>
              match launchedScript repoDir argv with
              | None =>
                  Some (match namedRunner lang argv with Some _ => inv | None => with_script inv (Some []) end)
              | Some (l, name) =>
                  let inv := with_script inv (Some []) in
                  if launcherRedirected argv then Some inv
                  else
                    match readScript (filepath_Join repoDir (ln_manifest l)) (ln_key l) name with
                    | None => Some inv
                    | Some src =>
                        match splitScript src with
                        | None | Some [] => Some inv
                        | Some words =>
                            Some (mkInvocation argv (iv_Runner inv) (Some words) (ln_pass l)
                                    (scriptIsSimple src && negb (has_prefix "@" src))
                                    (if String.eqb (iv_From inv) "" then ln_manifest l +:+ " scripts." +:+ name else iv_From inv))
                        end
                    end
              end
          end
      end
  end.
End Manifest.

(** ** Building a command from a row *)

Definition passThrough (inv : Invocation) (extra : list string) : list string :=
  iv_Argv inv
  ++ (if negb (String.eqb (iv_Pass inv) "") && negb (existsb (String.eqb (iv_Pass inv)) (iv_Argv inv)) then [iv_Pass inv] else [])
  ++ extra.

Definition shape (lang : string) (inv : Invocation) (row : list string → option (list string)) : option (list string) :=
  let words := detectWords inv in
  let has_script := bool_decide (is_Some (iv_Script inv)) in
  if has_script && negb (iv_Narrow inv) then None
  else if (has_script || negb (String.eqb (iv_Runner inv) ""))
          && match namedRunner lang words with
             | None => true
             | Some r => negb (String.eqb (iv_Runner inv) "") && negb (String.eqb (rw_ID r) (iv_Runner inv))
             end then None
  else
    match row words with
    | None => None
    | Some out =>
        if negb has_script then Some out
        else if (length out <? length words)%nat || negb (bool_decide (take (length words) out = words)) then None
        else Some (passThrough inv (drop (length words) out))
    end.

(** ** Fail fast *)

Definition AppendFailFast (cmd args : list string) : list string :=
  match cmd, args with
  | [], _ | _, [] => cmd
  | _, _ =>
      if cmdIsShellWrapped cmd then cmd
      else if existsb (λ a, let flag := (cut "="%char a).1.1 in
                            existsb (λ c, String.eqb c flag || has_prefix (flag +:+ "=") c) cmd) args then cmd
      else cmd ++ args
  end.

Definition FailFastArgsFor (lang : string) (inv : Invocation) : option (list string) :=
  let words := detectWords inv in
  let has_script := bool_decide (is_Some (iv_Script inv)) in
  if cmdIsShellWrapped (iv_Argv inv) || cmdIsShellWrapped words || (has_script && negb (iv_Narrow inv)) then None
  else
    match namedRunner lang words with
    | None => None
    | Some r =>
        if bool_decide (rw_FailFast r = []) || (negb (String.eqb (iv_Runner inv) "") && negb (String.eqb (rw_ID r) (iv_Runner inv))) then None
        else if has_script && negb (String.eqb (iv_Pass inv) "") && negb (existsb (String.eqb (iv_Pass inv)) (iv_Argv inv))
        then Some (iv_Pass inv :: rw_FailFast r)
        else Some (rw_FailFast r)
    end.

Definition quoted (s : string) : string := one dquote +:+ s +:+ one dquote.
Definition manifest_demo (path : string) : option bytes :=
  if String.eqb path "/repo/package.json" then
    Some ("{" +:+ quoted "name" +:+ ": " +:+ quoted "x" +:+ ", " +:+ quoted "scripts" +:+ ": {" +:+ quoted "test" +:+ ": " +:+ quoted "jest --ci 'a b'" +:+ "}}")
  else None.
Example resolve_demo :
  Resolve manifest_demo "javascript" "/repo" ["npm"; "test"] "" =
  Some (mkInvocation ["npm"; "test"] "" (Some ["jest"; "--ci"; "a b"]) "--" true "package.json scripts.test").
Proof. vm_compute. reflexivity. Qed.
Example failfast_demo :
  (inv ← Resolve manifest_demo "javascript" "/repo" ["npm"; "test"] ""; FailFastArgsFor "javascript" inv) = Some ["--"; "--bail"].
Proof. vm_compute. reflexivity. Qed.

(** ** Nothing is rewritten *)

Lemma prefix_refl_string s : has_prefix s s = true.
Proof. induction s as [|a s IH]; [done|]. cbn. by rewrite Ascii.eqb_refl. Qed.

(** Through a package script, what corral builds is the operator's own command with
    words appended. The row is one the script names; its command is the script's words
    with the extra ones after them, the script is a single simple command, and the extra
    words go after the launcher's separator. Nothing of the operator's command is dropped,
    reordered or replaced. *)
Theorem shape_appends lang inv row words out : iv_Script inv = Some words → shape lang inv row = Some out →
  iv_Narrow inv = true ∧ is_Some (namedRunner lang words) ∧
  ∃ extra, row words = Some (words ++ extra) ∧ out = passThrough inv extra ∧ iv_Argv inv `prefix_of` out.
Proof.
  intros Hs. unfold shape, detectWords. rewrite Hs. cbn [default from_option id is_Some]. rewrite bool_decide_true by (by eexists).
  cbn [andb orb negb]. destruct (iv_Narrow inv); cbn [negb]; [|done]. destruct (namedRunner lang words) as [r|]; [|done].
  destruct (negb (String.eqb (iv_Runner inv) "") && _); [done|]. destruct (row words) as [o|] eqn:Er; [|done].
  destruct (Nat.ltb_spec (length o) (length words)) as [|Hl]; [done|]. cbn [orb].
  destruct (bool_decide (take (length words) o = words)) eqn:Et; cbn [negb]; [|done]. apply bool_decide_eq_true in Et. intros [= <-].
  split; [done|]. split; [by eexists|]. exists (drop (length words) o). split_and!.
  - rewrite <- Et at 1. by rewrite take_drop.
  - done.
  - eexists. unfold passThrough. done.
Qed.

Lemma Resolve_cases read_file lang repoDir argv override inv : Resolve read_file lang repoDir argv override = Some inv →
  iv_Argv inv = argv ∧ iv_Runner inv = override ∧
  (iv_Narrow inv = true → ∃ src words, iv_Script inv = Some words ∧ words ≠ [] ∧ splitScript src = Some words ∧ scriptIsSimple src = true) ∧
  (override ≠ "" → is_Some (RunnerByID lang override)).
Proof.
  unfold Resolve. set (start := if String.eqb override "" then _ else _).
  destruct start as [inv0|] eqn:E0; [|done].
  assert (iv_Argv inv0 = argv ∧ iv_Runner inv0 = override ∧ iv_Narrow inv0 = false ∧ (override ≠ "" → is_Some (RunnerByID lang override))) as (Ha & Hr & Hn & Ho).
  { unfold start in E0. destruct (String.eqb_spec override "") as [->|]; [by injection E0 as <-|].
    destruct (RunnerByID lang override) eqn:Ei; [|done]. injection E0 as <-. split_and!; [done..|by eexists]. }
  clearbody start. assert (∀ inv', iv_Argv inv' = argv → iv_Runner inv' = override → iv_Narrow inv' = false → Some inv' = Some inv →
    iv_Argv inv = argv ∧ iv_Runner inv = override ∧
    (iv_Narrow inv = true → ∃ src words, iv_Script inv = Some words ∧ words ≠ [] ∧ splitScript src = Some words ∧ scriptIsSimple src = true) ∧
    (override ≠ "" → is_Some (RunnerByID lang override))) as Hk.
  { intros inv' H1 H2 H3 [= <-]. split_and!; [done..|by rewrite H3|done]. }
  destruct argv as [|a rest]; [by apply Hk|]. destruct (launchers (path_base a)) as [ln0|]; [|by apply Hk].
  destruct (launchedScript read_file repoDir (a :: rest)) as [[ln name]|]; [|by case_match; apply Hk].
  destruct (launcherRedirected (a :: rest)); [by apply Hk|].
  destruct (readScript _ _ _ _) as [src|]; [|by apply Hk]. destruct (splitScript src) as [[|w ws]|] eqn:Es; [by apply Hk| |by apply Hk].
  intros [= <-]. cbn. split_and!; [done..| |done]. intros [Hsimple _]%andb_prop. by exists src, (w :: ws).
Qed.

(** Reading a package script never changes what runs. The command is the operator's,
    the row override is the operator's and names a row of the language, and arguments may
    be appended only through a script that was read, is one simple command and has words. *)
Theorem Resolve_keeps read_file lang repoDir argv override :
  match Resolve read_file lang repoDir argv override with
  | Some inv =>
      iv_Argv inv = argv ∧ iv_Runner inv = override ∧
      (iv_Narrow inv = true → ∃ src words, iv_Script inv = Some words ∧ words ≠ [] ∧ splitScript src = Some words ∧ scriptIsSimple src = true)
  | None => override ≠ "" ∧ RunnerByID lang override = None
  end.
Proof.
  destruct (Resolve read_file lang repoDir argv override) as [inv|] eqn:E.
  - destruct (Resolve_cases _ _ _ _ _ _ E) as (H1 & H2 & H3 & _). done.
  - unfold Resolve in E. set (start := if String.eqb override "" then _ else _) in E.
    assert (start = None) as Hs.
    { destruct start; [|done]. destruct argv; [done|]. exfalso. revert E. repeat case_match; done. }
    unfold start in Hs. destruct (String.eqb_spec override "") as [|Hne]; [done|]. split; [done|].
    by destruct (RunnerByID lang override).
Qed.

Lemma find_row lang (p : Row → bool) r : List.find (λ r, runs_language lang r && p r) runners = Some r →
  runs_language lang r = true ∧ p r = true.
Proof. intros H. apply List.find_some in H as [_ H%andb_prop]. done. Qed.

(** Every language of the table has a default row. *)
Lemma default_row lang : existsb (runs_language lang) runners = true →
  ∃ r, List.find (λ r, rw_Default r && runs_language lang r) runners = Some r.
Proof.
  intros H. destruct (List.find _ runners) as [r|] eqn:E; [by exists r|]. exfalso.
  assert (∀ r, In r runners → rw_Default r && runs_language lang r = false) as Hno by exact (List.find_none _ _ E).
  assert (∀ r, In r runners → ∃ d, In d runners ∧ rw_Default d = true ∧ rw_Languages d = rw_Languages r) as Hd.
  { intros r Hr. assert (forallb (λ r, existsb (λ d, rw_Default d && bool_decide (rw_Languages d = rw_Languages r)) runners) runners = true)
      as Hall by reflexivity.
    rewrite forallb_forall in Hall. specialize (Hall r Hr). apply existsb_exists in Hall as (d & Hd & H2).
    apply andb_prop in H2 as [H2 H3%bool_decide_eq_true]. by exists d. }
  apply existsb_exists in H as (r & Hr & Hl). destruct (Hd r Hr) as (d & Hd1 & Hd2 & Hd3).
  specialize (Hno d Hd1). unfold runs_language in *. by rewrite Hd2, Hd3, Hl in Hno.
Qed.

(** Every command of a known language has a row of that language: the one the operator
    named, else the one the words name, else the language's default; what the words name
    is never overridden by the default. *)
Theorem RunnerFor_total lang inv : existsb (runs_language lang) runners = true →
  ∃ r, RunnerFor lang inv = Some r ∧ runs_language lang r = true ∧
    (iv_Runner inv ≠ "" → is_Some (RunnerByID lang (iv_Runner inv)) → rw_ID r = iv_Runner inv) ∧
    (iv_Runner inv = "" → ∀ n, namedRunner lang (detectWords inv) = Some n → r = n).
Proof.
  intros Hlang. destruct (default_row lang Hlang) as (d & Hd).
  assert (∀ n, namedRunner lang (detectWords inv) = Some n → runs_language lang n = true) as Hn.
  { intros n. unfold namedRunner. destruct (detectWords inv); [done|]. intros [H _]%find_row. done. }
  assert (runs_language lang d = true) as Hdl. { apply List.find_some in Hd as [_ [_ H]%andb_prop]. done. }
  unfold RunnerFor. rewrite Hd. destruct (String.eqb_spec (iv_Runner inv) "") as [E|Hne].
  - destruct (namedRunner lang (detectWords inv)) as [n|]; eexists; split_and!; eauto; try done. by intros ? ? [= ->].
  - destruct (RunnerByID lang (iv_Runner inv)) as [r|] eqn:E.
    + apply find_row in E as [Hr Hid%String.eqb_eq]. by exists r.
    + destruct (namedRunner lang (detectWords inv)) as [n|]; eexists; split_and!; eauto; try done; by intros _ [? [=]].
Qed.

Lemma RunnerFor_total_witness :
  ∃ r, RunnerFor "typescript" (Cmd ["npx"; "./node_modules/jest/bin/jest.js"]) = Some r ∧ rw_ID r = "jest".
Proof.
  destruct (RunnerFor_total "typescript" (Cmd ["npx"; "./node_modules/jest/bin/jest.js"]) eq_refl) as (r & Hr & _ & _ & Hn).
  exists r. split; [exact Hr|]. rewrite (Hn eq_refl _ eq_refl). reflexivity.
Defined.

Lemma shape_appends_witness :
  ∃ out, shape "javascript" (mkInvocation ["npm"; "test"] "" (Some ["jest"; "--ci"]) "--" true "") (λ w, Some (w ++ ["--bail"])) = Some out ∧
    ["npm"; "test"] `prefix_of` out.
Proof.
  eexists. split; [vm_compute; reflexivity|].
  destruct (shape_appends "javascript" (mkInvocation ["npm"; "test"] "" (Some ["jest"; "--ci"]) "--" true "") (λ w, Some (w ++ ["--bail"]))
    ["jest"; "--ci"] ["npm"; "test"; "--"; "--bail"] eq_refl) as (_ & _ & extra & _ & _ & H); [vm_compute; reflexivity|exact H].
Defined.

(** ** Fail fast *)

Lemma flag_present a : let flag := (cut "="%char a).1.1 in String.eqb a flag || has_prefix (flag +:+ "=") a = true.
Proof.
  cbn zeta. destruct (cut "="%char a) as [[h t] []] eqn:E; cbn.
  - apply cut_found in E as ->. change (String "=" t) with ("=" +:+ t). rewrite <- app_str_assoc, has_prefix_app. apply orb_true_r.
  - apply cut_not_found in E as [-> _]. by rewrite String.eqb_refl.
Qed.

(** The stop-at-first-failure flags are only appended, and once: the command comes
    first, unchanged, and adding them to a command that has them does nothing. *)
Theorem AppendFailFast_appends cmd args :
  cmd `prefix_of` AppendFailFast cmd args ∧
  AppendFailFast (AppendFailFast cmd args) args = AppendFailFast cmd args.
Proof.
  destruct cmd as [|c cmd]; [by split|]. destruct args as [|a args]; [split; [done|by destruct cmd]|].
  cbn [AppendFailFast]. destruct (cmdIsShellWrapped (c :: cmd)) eqn:Hw.
  { split; [done|]. cbn [AppendFailFast]. by rewrite Hw. }
  destruct (existsb _ (a :: args)) eqn:He.
  { split; [done|]. cbn [AppendFailFast]. by rewrite Hw, He. }
  split; [by eexists|]. cbn [app AppendFailFast]. destruct (cmdIsShellWrapped (c :: cmd ++ a :: args)); [done|].
  match goal with |- (if ?b then _ else _) = _ => enough (b = true) as -> by done end.
  apply existsb_exists. exists a. split; [by left|]. apply existsb_exists. exists a. split; [right; apply in_or_app; right; by left|].
  apply flag_present.
Qed.

(** ** The splitter and the shell *)

(** Bytes on which a word splitter and a shell part ways: separators, redirections,
    substitutions, escapes and comments. *)
Definition shell_syntax : string := ";|&<>()#$" +:+ one backslash +:+ one newline.
Definition no_syntax (s : string) : bool := negb (contains_any s shell_syntax).

(** The lexer's state when the splitter has this one. *)
Definition same_state (l : lexer) (st : splitter) : Prop :=
  map sw_text (lx_cur l) = sp_words st ∧ lx_text l = sp_cur st ∧ lx_inWord l = sp_inWord st ∧
  lx_redirectTarget l = false ∧ lx_out l = [] ∧
  match sp_quote st with
  | None => lx_dq l = false ∧ (sp_inWord st = false → sp_cur st = "")
  | Some q => q = dquote ∧ lx_dq l = true ∧ sp_inWord st = true
  end.

Lemma split_run_quote q w cur words s : 
  split_run s (mkSplitter (Some q) w cur words) =
  match index_byte q s with
  | Some k => split_run (drop_str (S k) s) (mkSplitter None w (cur +:+ take_str k s) words)
  | None => mkSplitter (Some q) w (cur +:+ s) words
  end.
Proof.
  revert cur. induction s as [|c s IH]; intros cur; cbn [split_run split_step index_byte]; [by rewrite app_str_nil_r|].
  destruct (Ascii.eqb_spec c q) as [->|Hc]; [cbn [drop_str take_str]; by rewrite app_str_nil_r|].
  rewrite IH. destruct (index_byte q s) as [k|]; cbn [fmap option_fmap option_map drop_str take_str]; by rewrite app_str_assoc.
Qed.

Lemma same_write l q w cur words raw text : same_state l (mkSplitter q w cur words) →
  same_state (write raw text l) (mkSplitter q true (cur +:+ text) words).
Proof.
  intros (H1 & H2 & H3 & H4 & H5 & H6). cbn in *. unfold same_state. cbn. rewrite H2. split_and!; try done.
  destruct q; naive_solver.
Qed.

Lemma same_flush l w cur words : same_state l (mkSplitter None w cur words) →
  same_state (flushWord l) (if w then mkSplitter None false "" (words ++ [cur]) else mkSplitter None w cur words).
Proof.
  intros (H1 & H2 & H3 & H4 & H5 & H6 & H7). cbn in *. unfold flushWord. rewrite H3, H4. destruct w; cbn; [|done].
  unfold same_state. cbn. rewrite map_app, H1, H2. done.
Qed.

(** A byte without syntax, outside quotes and not a quote or a blank, is the word's. *)
Lemma no_syntax_special c : mem_ascii c shell_syntax = false → Ascii.eqb c sq = false → Ascii.eqb c dquote = false →
  Ascii.eqb c " "%char = false → Ascii.eqb c tab = false → mem_ascii c special_bytes = false.
Proof.
  unfold shell_syntax, special_bytes. destruct c as [b0 b1 b2 b3 b4 b5 b6 b7].
  destruct b0, b1, b2, b3, b4, b5, b6, b7; vm_compute; congruence.
Qed.

Lemma step_blank sub prev c s' l : Ascii.eqb c " "%char || Ascii.eqb c tab = true → lx_dq l = false →
  step sub prev c s' l = (flushWord l, 1).
Proof. intros Hc Hdq. unfold step. cbv zeta. by rewrite Hdq, Hc. Qed.

Lemma step_open sub prev s' l : lx_dq l = false → step sub prev dquote s' l = (with_dq true (write (one dquote) "" l), 1).
Proof. intros Hdq. unfold step. rewrite Hdq. reflexivity. Qed.

Lemma step_in_dq sub prev c s' l : lx_dq l = true → mem_ascii c shell_syntax = false →
  step sub prev c s' l = if Ascii.eqb c dquote then (with_dq false (write (one dquote) "" l), 1) else (write (one c) (one c) l, 1).
Proof.
  intros Hdq Hc. unfold step, in_dquotes. cbv zeta. rewrite Hdq. destruct (Ascii.eqb c dquote); [done|].
  assert (Ascii.eqb c backslash = false ∧ Ascii.eqb c "$"%char = false) as [-> ->]; [|done].
  revert Hc. unfold shell_syntax. destruct c as [b0 b1 b2 b3 b4 b5 b6 b7].
  destruct b0, b1, b2, b3, b4, b5, b6, b7; vm_compute; first [discriminate | by intros _; split].
Qed.

Lemma no_syntax_drop n s : no_syntax s = true → no_syntax (drop_str n s) = true.
Proof.
  revert n. induction s as [|c s IH]; intros [|n]; [done..|]. cbn. unfold no_syntax. cbn [contains_any].
  intros H%negb_true_iff%orb_false_elim. apply IH. unfold no_syntax. by rewrite (proj2 H).
Qed.

Lemma split_run_same n s prev l st : String.length s <= n → no_syntax s = true → same_state l st →
  sp_quote (split_run s st) = None → same_state (run prev s l) (split_run s st).
Proof.
  revert s prev l st. induction n as [|n IH]; intros [|c s] prev l [q w cur words] Hn Hs Hst Hq; cbn [String.length] in Hn; [done|lia|done|].
  pose proof (le_S_n _ _ Hn) as Hlen.
  pose proof Hs as Hs0. unfold no_syntax in Hs0. cbn [contains_any] in Hs0. apply negb_true_iff, orb_false_elim in Hs0 as [Hc Hs1].
  assert (no_syntax s = true) as Hs' by (unfold no_syntax; by rewrite Hs1).
  rewrite run_cons. pose proof Hst as (H1 & H2 & H3 & H4 & H5 & H6). cbn in H1, H2, H3, H6.
  destruct q as [d|].
  - destruct H6 as (-> & Hdq & ->). rewrite step_in_dq by done. cbn [split_run split_step] in *.
    destruct (Ascii.eqb c dquote); cbn [Nat.sub String.get drop_str]; apply IH; try done.
    + pose proof (same_write l _ _ _ _ (one dquote) "" Hst) as Hw. rewrite app_str_nil_r in Hw.
      destruct Hw as (W1 & W2 & W3 & W4 & W5 & W6). unfold same_state. cbn in *. by split_and!.
    + exact (same_write _ _ _ _ _ (one c) (one c) Hst).
  - destruct H6 as [Hdq Hcur]. cbn [split_run split_step] in *. destruct (Ascii.eqb_spec c sq) as [->|Hcq].
    + cbn [orb] in *. rewrite step_quote by done. cbv zeta. rewrite split_run_quote in *.
      destruct (index_byte sq s) as [k|] eqn:Ek; [|done]. unfold default, from_option, id.
      pose proof (index_byte_lt _ _ _ Ek). replace (Nat.min (k + 2) _) with (S (S k)) by (clear -H; lia). change (drop_str (S (S k)) (String sq s)) with (drop_str (S k) s).
      apply IH; [rewrite length_drop_str; clear -Hlen; lia|by apply no_syntax_drop| |done]. by apply (same_write l None w).
    + assert (Ascii.eqb c sq = false) as Ecq by (by apply Ascii.eqb_neq). cbn [orb] in *.
      destruct (Ascii.eqb_spec c dquote) as [->|Hcd].
      * rewrite step_open by done. cbn [Nat.sub String.get drop_str]. apply IH; try done.
        pose proof (same_write l _ _ _ _ (one dquote) "" Hst) as Hw. rewrite app_str_nil_r in Hw.
        destruct Hw as (W1 & W2 & W3 & W4 & W5 & W6). unfold same_state. cbn in *. by split_and!.
      * destruct (Ascii.eqb c " "%char || Ascii.eqb c tab) eqn:Eb.
        -- rewrite step_blank by done. cbn [Nat.sub String.get drop_str]. apply IH; try done.
           pose proof (same_flush l w cur words Hst) as Hf. by destruct w.
        -- apply orb_false_elim in Eb as [E1 E2]. rewrite step_plain; [|apply no_syntax_special; try done; by apply Ascii.eqb_neq|done].
           cbn [Nat.sub String.get drop_str]. apply IH; try done. by apply (same_write l None w).
Qed.

(** One script, one reading. On a script with no separator, redirection, substitution,
    escape or comment in it, the words the runner is detected from and appended to are
    exactly the words of the one command the shell reader finds, which are what runs. *)
Theorem splitScript_agrees s words : no_syntax s = true → splitScript s = Some words →
  texts (shellCommands s) = match words with [] => [] | _ => [words] end.
Proof.
  intros Hs. unfold splitScript. set (st := split_run s (mkSplitter None false "" [])).
  destruct (sp_quote st) eqn:Hq; [done|]. intros [= <-].
  assert (same_state (run None s lexer0) st) as (H1 & H2 & H3 & H4 & H5 & H6).
  { by apply (split_run_same (String.length s)). }
  unfold shellCommands. fold (run None s lexer0). remember (run None s lexer0) as l eqn:El. clear El.
  unfold flushCmd, flushWord, texts. rewrite H3, H4. destruct (sp_inWord st); cbn [negb lx_cur lx_out].
  - rewrite H5, H2. destruct (lx_cur l ++ _) as [|w ws] eqn:E; [by destruct (lx_cur l)|]. rewrite <- E. cbn. rewrite map_app, H1. cbn.
    by destruct (sp_words st).
  - rewrite H5. destruct (lx_cur l) as [|w ws] eqn:E; [by rewrite <- H1|]. cbn. rewrite <- H1. done.
Qed.

Lemma splitScript_agrees_witness :
  no_syntax "jest --ci 'a b' c'd'" = true ∧ texts (shellCommands "jest --ci 'a b' c'd'") = [["jest"; "--ci"; "a b"; "cd"]].
Proof. split; [vm_compute; reflexivity|]. exact (splitScript_agrees "jest --ci 'a b' c'd'" ["jest"; "--ci"; "a b"; "cd"] eq_refl eq_refl). Defined.
