(* ===== verification/Mutant.v ===== *)
(** * Mutants: internal/adequacy/score.go (Mutant), dedupe.go, mutantset.go

    A mutant is a hunk of one source: an anchor that occurs exactly once and what it
    becomes, tied to the source's digest. [Apply] is the only place it becomes a file.
    Main results: [Apply] succeeds exactly when the anchor is the unique edit the
    mutant claims, and then changes that occurrence and nothing else ([Apply_exact],
    [Apply_mutates]); the span it is aimed with leaves every line before it alone
    ([EditSpan_prefix]); duplicates collapse to one of each edit ([DedupeMutants_spec]);
    a recorded set replays onto the bytes it was cut from and no others
    ([MutantsFor_replays]), an older document's mutants onto the files it stored
    ([upgrade_replays]); a hunk's wire form reads back ([DecodeHunk_EncodeHunk]). *)
From S2P Require Import Prelude GoLib GoText Crypto JsonText Json TestMap.
Local Open Scope string_scope.
Local Open Scope list_scope.
Local Open Scope Z_scope.
Local Open Scope corral_scope.

(** ** strings.Index, Contains, Count of newlines *)

Fixpoint str_index (p s : string) : option nat :=
  if has_prefix p s then Some O
  else match s with "" => None | String _ s' => S <$> str_index p s' end.
Definition str_contains (p s : string) : bool := bool_decide (is_Some (str_index p s)).

Fixpoint count_newlines (s : string) : Z :=
  match s with
  | "" => 0
  | String a s' => (if Ascii.eqb a newline then 1 else 0) + count_newlines s'
  end.

(** ** Mutants *)

Record Mutant := mkMutant {
  mt_ID : string; mt_ParentSHA256 : string; mt_Span : LineRange; mt_Search : string; mt_Replace : string }.

Definition IsWholeFile (m : Mutant) : bool := String.eqb (mt_Search m) "".

(** Why a mutant does not apply: it names another source, changes nothing, its anchor
    is not there, or is there twice. *)
Inductive ApplyErr := OtherSource (got : string) | ChangesNothing | DoesNotAnchor | AnchorsTwice.

Definition short (hexDigest : string) : string :=
  if (String.length hexDigest <=? 12)%nat then hexDigest else take_str 12 hexDigest.

Section Apply.
Context {dg : Digest}.

Definition Apply (m : Mutant) (original : string) : result ApplyErr string :=
  let got := hex_encode (sha256 original) in
  if negb (String.eqb (mt_ParentSHA256 m) "") && negb (String.eqb got (mt_ParentSHA256 m)) then Err (OtherSource (short got))
  else if IsWholeFile m then Ok (mt_Replace m)
  else if String.eqb (mt_Search m) (mt_Replace m) then Err ChangesNothing
  else
    match str_index (mt_Search m) original with
    | None => Err DoesNotAnchor
    | Some i =>
        if str_contains (mt_Search m) (drop_str (i + 1) original) then Err AnchorsTwice
        else Ok (take_str i original +:+ mt_Replace m +:+ drop_str (i + String.length (mt_Search m)) original)
    end.
End Apply.

(** ** Spans *)

Definition HunkSpan (original search : string) : LineRange :=
  if String.eqb search "" then mkLineRange 0 0
  else
    match str_index search original with
    | None => mkLineRange 0 0
    | Some i =>
        let start := count_newlines (take_str i original) + 1 in
        mkLineRange start (start + count_newlines (trim_suffix (String newline "") search))
    end.

Definition EditSpan (original search replace : string) : LineRange :=
  let r := HunkSpan original search in
  if negb (IsZero r) && has_prefix (String newline "") search && has_prefix (String newline "") replace && (lr_Start r <? lr_End r)
  then mkLineRange (lr_Start r + 1) (lr_End r) else r.

(** ** Duplicates *)

Record MutantIdentity := mkIdentity { mi_Span : LineRange; mi_Search : string; mi_Replace : string; mi_Parent : string }.
#[export] Instance LineRange_eq_dec : EqDecision LineRange.
Proof. solve_decision. Defined.
#[export] Instance MutantIdentity_eq_dec : EqDecision MutantIdentity.
Proof. solve_decision. Defined.

Definition IdentityOf (m : Mutant) : MutantIdentity :=
  mkIdentity (mt_Span m) (mt_Search m) (mt_Replace m) (mt_ParentSHA256 m).

(** One turn of the loop: the identities seen, the mutants kept, how many collapsed. *)
Definition dedupe_step (st : list MutantIdentity * list Mutant * Z) (m : Mutant) : list MutantIdentity * list Mutant * Z :=
  match st with
  | (seen, kept, collapsed) =>
      if bool_decide (IdentityOf m ∈ seen) then (seen, kept, collapsed + 1)
      else (IdentityOf m :: seen, kept ++ [m], collapsed)
  end.
Definition DedupeMutants (ms : list Mutant) : list Mutant * Z :=
  match foldl dedupe_step ([], [], 0) ms with (_, kept, collapsed) => (kept, collapsed) end.

(** ** Recorded sets *)

Definition MutantSetFormat : string := "corral-mutants-2".
Definition MutantSetFormatV1 : string := "corral-mutants-1".

Record RecordedMutant := mkRecorded { rm_ID : string; rm_Span : LineRange; rm_Search : string; rm_Replace : string }.
Record MutantSetEntry := mkSetEntry { se_ParentSHA256 : string; se_Mutants : list RecordedMutant }.
Record MutantSetFile := mkSetFile { sf_Format : string; sf_Files : gmap string MutantSetEntry }.

Record recordedMutantV1 := mkRecordedV1 { r1_ID : string; r1_File : string; r1_Span : LineRange }.
Record mutantSetEntryV1 := mkSetEntryV1 { s1_ParentSHA256 : string; s1_Mutants : list recordedMutantV1 }.
Record mutantSetFileV1 := mkSetFileV1 { f1_Format : string; f1_Files : gmap string mutantSetEntryV1 }.

Definition upgrade_mutant (rm : recordedMutantV1) : RecordedMutant := mkRecorded (r1_ID rm) (r1_Span rm) "" (r1_File rm).
Definition upgrade_entry (e : mutantSetEntryV1) : MutantSetEntry :=
  mkSetEntry (s1_ParentSHA256 e) (map upgrade_mutant (s1_Mutants e)).
Definition upgrade (v : mutantSetFileV1) : MutantSetFile :=
  mkSetFile MutantSetFormatV1 (upgrade_entry <$> f1_Files v).

Inductive SetErr := NotRecorded | SourceChanged (have recorded : string).

Definition restore_mutant (parent : string) (rm : RecordedMutant) : Mutant :=
  mkMutant (rm_ID rm) parent (rm_Span rm) (rm_Search rm) (rm_Replace rm).

Definition MutantsFor `{Digest} (s : MutantSetFile) (codePath currentSource : string) : result SetErr (list Mutant) :=
  match sf_Files s !! codePath with
  | None => Err NotRecorded
  | Some entry =>
      let have := hex_encode (sha256 currentSource) in
      if negb (String.eqb have (se_ParentSHA256 entry)) then Err (SourceChanged have (se_ParentSHA256 entry))
      else Ok (map (restore_mutant (se_ParentSHA256 entry)) (se_Mutants entry))
  end.

(** ** The hunk's wire form *)

Definition EncodeHunk `{FloatText} (search replace : string) : string :=
  if String.eqb search "" && String.eqb replace "" then ""
  else default "" (marshal (JObj [("search", JStr search); ("replace", JStr replace)])).

(** How encoding/json matches a member's name to a field of ASCII name when no field has
    it exactly: letter case aside, and with the two runes that fold to an ASCII letter. *)
Definition upper (a : ascii) : ascii := if (97 <=? code a)%nat && (code a <=? 122)%nat then byte (code a - 32) else a.
Definition long_s : string := String (byte 197) (String (byte 191) "").
Definition kelvin : string := String (byte 226) (String (byte 132) (String (byte 170) "")).
Fixpoint fold_name (skip : nat) (s : string) : string :=
  match s, skip with
  | "", _ => ""
  | String _ s', S k => fold_name k s'
  | String a s', O =>
      if has_prefix long_s s then String "S" (fold_name 1 s')
      else if has_prefix kelvin s then String "K" (fold_name 2 s')
      else String (upper a) (fold_name 0 s')
  end.
Definition names_field (field key : string) : bool :=
  String.eqb key field || String.eqb (fold_name 0 key) (fold_name 0 field).

(** json.Unmarshal into a Hunk, member by member: a null leaves the field, a value of
    another kind is an error kept while the decoding goes on, other names are skipped. *)
Definition hunk_member (st : string * string * bool) (kv : string * json) : string * string * bool :=
  match st with
  | (s, r, ok) =>
      if names_field "search" kv.1 then
        match kv.2 with JStr x => (x, r, ok) | JNull => st | _ => (s, r, false) end
      else if names_field "replace" kv.1 then
        match kv.2 with JStr x => (s, x, ok) | JNull => st | _ => (s, r, false) end
      else st
  end.

Definition DecodeHunk (text : string) : option (string * string) :=
  if negb (has_prefix "{" text) then None
  else
    match parse_doc text with
    | Some (JObj ms) =>
        match foldl hunk_member ("", "", true) ms with
        | (s, r, ok) => if negb ok || String.eqb s "" && String.eqb r "" then None else Some (s, r)
        end
    | _ => None
    end.

(** ** Searching *)

Lemma str_index_Some p s i : str_index p s = Some i → ∃ pre post,
  s = pre +:+ p +:+ post ∧ String.length pre = i ∧ (∀ pre' post', s = pre' +:+ p +:+ post' → (i <= String.length pre')%nat).
Proof.
  revert i; induction s as [|a s IH]; intros i; cbn [str_index];
    (destruct (has_prefix p _) eqn:E; [intros [= <-]; apply has_prefix_iff in E as [t Ht]; exists "", t; split_and!; [done|done|lia]|]); [done|].
  destruct (str_index p s) as [j|] eqn:Ej; [|done]. intros [= <-].
  destruct (IH j eq_refl) as (pre & post & -> & <- & Hmin). exists (String a pre), post. split_and!; [done|done|].
  intros [|b pre'] post' Eq.
  - apply not_true_iff_false in E. destruct E. apply has_prefix_iff. by exists post'.
  - injection Eq as -> Eq. cbn. specialize (Hmin _ _ Eq). lia.
Qed.

Lemma str_index_None p s : str_index p s = None ↔ ∀ pre post, s ≠ pre +:+ p +:+ post.
Proof.
  induction s as [|a s IH]; cbn [str_index]; (destruct (has_prefix p _) eqn:E;
    [apply has_prefix_iff in E as [t Ht]; split; [done|intros H; by destruct (H "" t)]|];
     assert (∀ t, p +:+ t ≠ _) as Hp by (intros t Ht; apply not_true_iff_false in E; destruct E; apply has_prefix_iff; by exists t)).
  - split; [|done]. intros _ [|b pre] post Eq; [by apply (Hp post)|done].
  - rewrite fmap_None, IH. split.
    + intros H [|b pre] post Eq; [by apply (Hp post)|]. injection Eq as -> Eq. by apply (H pre post).
    + intros H pre post ->. by apply (H (String a pre) post).
Qed.

Lemma str_contains_false p s : str_contains p s = false ↔ ∀ pre post, s ≠ pre +:+ p +:+ post.
Proof. unfold str_contains. by rewrite bool_decide_eq_false, <- eq_None_not_Some, str_index_None. Qed.

(** Past the first byte of the first occurrence there is another exactly when the
    source holds the anchor at two places. *)
Lemma second_occurrence p s pre post : p ≠ "" → s = pre +:+ p +:+ post →
  (∀ pre' post', s = pre' +:+ p +:+ post' → (String.length pre <= String.length pre')%nat) →
  str_contains p (drop_str (String.length pre + 1) s) = false ↔ ∀ pre' post', s = pre' +:+ p +:+ post' → pre' = pre.
Proof.
  intros Hp Hs Hmin. rewrite str_contains_false.
  assert (∀ pre', (∃ post', s = pre' +:+ p +:+ post') → pre' = take_str (String.length pre') s) as Htake.
  { intros pre' [post' ->]. by rewrite take_str_length_app. }
  split.
  - intros H pre' post' Eq. pose proof (Hmin _ _ Eq) as Hle.
    destruct (decide (String.length pre' = String.length pre)) as [El|]; [rewrite (Htake pre), (Htake pre'), El by eauto; done|].
    exfalso. apply (H (drop_str (String.length pre + 1) pre') post').
    rewrite Eq. clear -Hle n. remember (String.length pre + 1)%nat as k. assert (k <= String.length pre')%nat as Hk by lia. clear -Hk.
    revert k Hk; induction pre' as [|a pre' IH]; intros [|k] Hk; cbn in *; [done|lia|done|]. apply IH. lia.
  - intros H pre' post' Eq. assert (pre = take_str (String.length pre + 1) s +:+ pre') as E.
    { symmetry. apply (H _ post'). rewrite <- (take_drop_str (String.length pre + 1) s) at 1. by rewrite Eq, app_str_assoc. }
    apply (f_equal String.length) in E. rewrite length_app_str, length_take_str in E.
    rewrite Hs, !length_app_str in E. destruct p; [done|]. cbn in E. lia.
Qed.

(** ** What Apply does *)

Section ApplyFacts.
Context {dg : Digest}.

(** The mutant's claim about a source: its digest, where it records one, and an anchor
    that is a change and occurs there once, at [pre]. *)
Definition of_source (m : Mutant) (original : string) : Prop :=
  mt_ParentSHA256 m = "" ∨ mt_ParentSHA256 m = hex_encode (sha256 original).
Definition sole_edit (m : Mutant) (original pre post : string) : Prop :=
  mt_Search m ≠ mt_Replace m ∧ original = pre +:+ mt_Search m +:+ post ∧
  (∀ pre' post', original = pre' +:+ mt_Search m +:+ post' → pre' = pre).

Lemma parent_guard m original :
  negb (String.eqb (mt_ParentSHA256 m) "") && negb (String.eqb (hex_encode (sha256 original)) (mt_ParentSHA256 m)) = false
  ↔ of_source m original.
Proof.
  unfold of_source. destruct (String.eqb_spec (mt_ParentSHA256 m) "") as [->|]; [by split; [left|]|].
  destruct (String.eqb_spec (hex_encode (sha256 original)) (mt_ParentSHA256 m)) as [->|]; cbn; [by split; [right|]|].
  split; [done|]. intros [|]; congruence.
Qed.

(** A mutant applies to a source exactly when it is the edit it claims to be: the
    source is the one it was cut from, and either it stands for a whole file, or its anchor
    differs from its replacement and occurs once and once only, counting overlapping
    occurrences; the file is then the source with that occurrence replaced. *)
Theorem Apply_exact m original file : Apply m original = Ok file ↔
  of_source m original ∧
  ((mt_Search m = "" ∧ file = mt_Replace m) ∨
   (mt_Search m ≠ "" ∧ ∃ pre post, sole_edit m original pre post ∧ file = pre +:+ mt_Replace m +:+ post)).
Proof.
  unfold Apply, IsWholeFile. destruct (_ && _) eqn:Eg.
  { split; [done|]. intros [H _]. apply parent_guard in H. congruence. }
  apply parent_guard in Eg. destruct (String.eqb_spec (mt_Search m) "") as [Ew|Ew]; [naive_solver|].
  destruct (String.eqb_spec (mt_Search m) (mt_Replace m)) as [Ec|Ec].
  { split; [done|]. intros (_ & [[? _]|(_ & ? & ? & [? _] & _)]); congruence. }
  destruct (str_index (mt_Search m) original) as [i|] eqn:Ei.
  - apply str_index_Some in Ei as (pre & post & Hs & <- & Hmin).
    pose proof (second_occurrence _ _ _ _ Ew Hs Hmin) as H2.
    destruct (str_contains _ _) eqn:E2.
    + split; [done|]. intros (_ & [[? _]|(_ & pre' & post' & (_ & _ & Hu) & _)]); [congruence|].
      exfalso. apply diff_true_false. apply H2. intros. etrans; [eapply Hu; done|]. symmetry. by eapply Hu.
    + apply proj1 in H2. specialize (H2 eq_refl).
      assert (drop_str (String.length pre + String.length (mt_Search m)) original = post) as ->
        by (rewrite Hs, <- length_app_str, <- app_str_assoc; apply drop_str_length_app).
      assert (take_str (String.length pre) original = pre) as -> by (rewrite Hs; apply take_str_length_app).
      split; [intros [= <-]; split; [done|]; right; split; [done|]; by exists pre, post|].
      intros (_ & [[? _]|(_ & pre' & post' & (_ & Hs' & _) & ->)]); [congruence|].
      pose proof (H2 _ _ Hs') as ->. rewrite Hs in Hs'. apply app_str_inj_len in Hs' as [_ Hs']; [|done].
      apply app_str_inj_len in Hs' as [_ ->]; done.
  - rewrite str_index_None in Ei. split; [done|].
    intros (_ & [[? _]|(_ & pre & post & (_ & ? & _) & _)]); [congruence|]. by destruct (Ei pre post).
Qed.

(** A hunk that applies changes the file. *)
Lemma Apply_mutates m original file : IsWholeFile m = false → Apply m original = Ok file → file ≠ original.
Proof.
  unfold IsWholeFile. rewrite Apply_exact. intros E%String.eqb_neq (_ & [[? _]|(_ & pre & post & (Hc & Hs & _) & ->)]); [done|].
  intros Eq. rewrite Hs in Eq. apply app_str_inj_len in Eq as [_ Eq]; [|done]. apply Hc.
  apply (f_equal (λ s, take_str (String.length s - String.length post) s)) in Eq.
  rewrite !length_app_str, !Nat.add_sub, !take_str_length_app in Eq. done.
Qed.

(** Two mutants of one identity become the same file. *)
Lemma Apply_identity m1 m2 original : IdentityOf m1 = IdentityOf m2 → Apply m1 original = Apply m2 original.
Proof. intros [= _ E1 E2 E3]. unfold Apply, IsWholeFile. by rewrite E1, E2, E3. Qed.

(** ** Recorded sets replay *)

(** A recorded set is replayed whole or not at all: the mutants come back in their
    order with every text recorded, each tied to the digest of the very bytes the file has
    now, so each of them that is a hunk applies to those bytes exactly when its anchor is
    the sole edit there; a file the set does not hold, or that has changed since, is refused. *)
Theorem MutantsFor_replays s path src ms : MutantsFor s path src = Ok ms ↔
  ∃ e, sf_Files s !! path = Some e ∧ se_ParentSHA256 e = hex_encode (sha256 src) ∧
    length ms = length (se_Mutants e) ∧
    (∀ i rm, se_Mutants e !! i = Some rm → ∃ m, ms !! i = Some m ∧
       mt_ID m = rm_ID rm ∧ mt_Span m = rm_Span rm ∧ mt_Search m = rm_Search rm ∧ mt_Replace m = rm_Replace rm ∧
       mt_ParentSHA256 m = hex_encode (sha256 src)).
Proof.
  unfold MutantsFor. destruct (sf_Files s !! path) as [e|]; [|split; [done|by intros (? & ? & _)]].
  destruct (String.eqb_spec (hex_encode (sha256 src)) (se_ParentSHA256 e)) as [Eh|]; cbn [negb].
  - split.
    + intros [= <-]. exists e. split_and!; [done|done|by rewrite length_map|].
      intros i rm Hi. exists (restore_mutant (se_ParentSHA256 e) rm). rewrite list_lookup_fmap, Hi. by rewrite <- Eh.
    + intros (e' & [= <-] & _ & Hl & Hm). f_equal. apply list_eq. intros i. rewrite list_lookup_fmap.
      destruct (se_Mutants e !! i) as [rm|] eqn:Hi; cbn.
      * destruct (Hm _ _ Hi) as ([] & -> & E1 & E2 & E3 & E4 & Hp). cbn in *. unfold restore_mutant. by subst; rewrite <- Eh.
      * symmetry. apply lookup_ge_None in Hi. apply lookup_ge_None. lia.
  - split; [done|]. intros (? & [= <-] & ? & _). congruence.
Qed.
End ApplyFacts.

(** ** Duplicates *)

Lemma dedupe_loop ms : ∀ seen kept n, (∀ x, x ∈ seen ↔ x ∈ map IdentityOf kept) → NoDup (map IdentityOf kept) →
  ∃ seen' more, foldl dedupe_step (seen, kept, n) ms = (seen', kept ++ more, n + Z.of_nat (length ms) - Z.of_nat (length more)) ∧
    more `sublist_of` ms ∧ NoDup (map IdentityOf (kept ++ more)) ∧
    (∀ m, m ∈ ms → IdentityOf m ∈ map IdentityOf (kept ++ more)).
Proof.
  induction ms as [|m ms IH]; intros seen kept n Hseen Hnd.
  { exists seen, []. rewrite app_nil_r. cbn. split_and!; [f_equal; lia|constructor|done|by intros ? ?%elem_of_nil]. }
  cbn [foldl dedupe_step]. case_bool_decide as Hin.
  - destruct (IH seen kept (n + 1) Hseen Hnd) as (seen' & more & -> & Hsub & Hnd' & Hall). exists seen', more.
    split_and!; [f_equal; cbn [length]; lia|by constructor|done|].
    intros m' [->|?]%elem_of_cons; [|by apply Hall]. rewrite map_app, elem_of_app. left. by apply Hseen.
  - destruct (IH (IdentityOf m :: seen) (kept ++ [m]) n) as (seen' & more & -> & Hsub & Hnd' & Hall).
    { intros x. rewrite map_app. cbn. rewrite elem_of_cons, elem_of_app, list_elem_of_singleton, Hseen. tauto. }
    { rewrite map_app. apply NoDup_app. split_and!; [done| |apply NoDup_singleton].
      intros x Hx. cbn. rewrite list_elem_of_singleton. intros ->. by apply Hin, Hseen. }
    rewrite <- app_assoc in *. exists seen', (m :: more). cbn [app] in *.
    split_and!; [f_equal; cbn [length]; lia|by constructor|done|].
    intros m' [->|?]%elem_of_cons; [|by apply Hall]. rewrite map_app, elem_of_app. right. cbn. left.
Qed.

(** DedupeMutants keeps one mutant of each edit: what it keeps is in the input's
    order, no two of one identity, every input's identity is among them, and the count it
    returns is the number it left out. *)
Theorem DedupeMutants_spec ms :
  (DedupeMutants ms).1 `sublist_of` ms ∧ NoDup (map IdentityOf (DedupeMutants ms).1) ∧
  (∀ m, m ∈ ms → ∃ k, k ∈ (DedupeMutants ms).1 ∧ IdentityOf k = IdentityOf m) ∧
  Z.of_nat (length (DedupeMutants ms).1) + (DedupeMutants ms).2 = Z.of_nat (length ms).
Proof.
  unfold DedupeMutants. destruct (dedupe_loop ms [] [] 0) as (seen & kept & -> & Hsub & Hnd & Hall);
    [done|apply NoDup_nil_2|]. cbn [app fst snd] in *. split_and!; [done|done| |lia].
  intros m (k & -> & ?)%Hall%list_elem_of_fmap. by exists k.
Qed.

(** ** An older document *)

(** A document of the first version replays the files it stored: once its digest is
    that of the source, every mutant becomes the very file recorded. *)
Theorem upgrade_replays `{Digest} v path src ms i m : MutantsFor (upgrade v) path src = Ok ms → ms !! i = Some m →
  ∃ e rm, f1_Files v !! path = Some e ∧ s1_Mutants e !! i = Some rm ∧ mt_ID m = r1_ID rm ∧ Apply m src = Ok (r1_File rm).
Proof.
  intros (e & He & Hp & Hl & Hm)%MutantsFor_replays Hi. cbn in He. rewrite lookup_fmap in He.
  destruct (f1_Files v !! path) as [e'|]; [|done]. injection He as <-. cbn in Hm, Hl. rewrite length_map in Hl.
  destruct (lookup_lt_is_Some_2 (s1_Mutants e') i) as [rm Hrm]; [rewrite <- Hl; by eapply lookup_lt_Some|].
  destruct (Hm i (upgrade_mutant rm)) as (m' & Hm' & E1 & _ & E3 & E4 & E5); [by rewrite list_lookup_fmap, Hrm|].
  rewrite Hi in Hm'. injection Hm' as <-. exists e', rm. split_and!; [done..|].
  apply Apply_exact. split; [by right|]. left. by rewrite E4.
Qed.

(** ** The span a hunk is aimed with *)

(** The first [n] lines of a text, with the newlines that end them. *)
Fixpoint first_lines (n : Z) (s : string) : string :=
  match s with
  | "" => ""
  | String a s' => if n <=? 0 then "" else String a (first_lines (if Ascii.eqb a newline then n - 1 else n) s')
  end.

Lemma first_lines_app n pre s t : n <= count_newlines pre → first_lines n (pre +:+ s) = first_lines n (pre +:+ t).
Proof.
  revert n; induction pre as [|a pre IH]; intros n Hn; rewrite ?app_str_nil_l, ?app_str_cons.
  - cbn in Hn. destruct s, t; cbn; try (by replace (n <=? 0) with true by (symmetry; apply Z.leb_le; lia)); done.
  - cbn [first_lines count_newlines] in *. destruct (n <=? 0); [done|]. f_equal. apply IH. destruct (Ascii.eqb a newline); lia.
Qed.

Lemma count_newlines_app s t : count_newlines (s +:+ t) = count_newlines s + count_newlines t.
Proof. induction s as [|a s IH]; rewrite ?app_str_nil_l, ?app_str_cons; cbn [count_newlines]; lia. Qed.
Lemma count_newlines_nonneg s : 0 <= count_newlines s.
Proof. induction s as [|a s IH]; cbn [count_newlines]; [lia|]. destruct (Ascii.eqb a newline); lia. Qed.
Lemma count_trim_suffix s : count_newlines (trim_suffix (String newline "") s) <= count_newlines s.
Proof.
  unfold trim_suffix. destruct (has_suffix _ s); [|lia]. set (n := (String.length s - _)%nat).
  rewrite <- (take_drop_str n s) at 2. rewrite count_newlines_app. pose proof (count_newlines_nonneg (drop_str n s)). lia.
Qed.

Lemma HunkSpan_sole `{Digest} m original pre post : mt_Search m ≠ "" → sole_edit m original pre post →
  HunkSpan original (mt_Search m) = mkLineRange (count_newlines pre + 1)
    (count_newlines pre + 1 + count_newlines (trim_suffix (String newline "") (mt_Search m))).
Proof.
  intros Hn (_ & Hs & Hu). unfold HunkSpan. destruct (String.eqb_spec (mt_Search m) ""); [done|].
  destruct (str_index (mt_Search m) original) as [i|] eqn:Ei.
  - apply str_index_Some in Ei as (pre' & post' & Hs' & <- & _). pose proof (Hu _ _ Hs') as ->.
    rewrite Hs at 1 2. by rewrite !take_str_length_app.
  - by destruct (proj1 (str_index_None _ _) Ei pre post).
Qed.

(** The span a mutant is aimed with lies in the source and starts no later than its
    edit: applying the mutant leaves every line before the span as it was, whichever of
    the two starts EditSpan chooses. *)
Theorem EditSpan_prefix `{Digest} m original file :
  IsWholeFile m = false → Apply m original = Ok file →
  let r := EditSpan original (mt_Search m) (mt_Replace m) in
  1 <= lr_Start r <= lr_End r ∧ lr_End r <= count_newlines original + 1 ∧
  first_lines (lr_Start r - 1) file = first_lines (lr_Start r - 1) original.
Proof.
  unfold IsWholeFile. rewrite Apply_exact. intros Hn%String.eqb_neq (_ & [[? _]|(_ & pre & post & Hsole & ->)]); [done|].
  unfold EditSpan. rewrite (HunkSpan_sole m original pre post Hn Hsole). destruct Hsole as (_ & -> & _).
  pose proof (count_newlines_nonneg pre). pose proof (count_newlines_nonneg post).
  pose proof (count_trim_suffix (mt_Search m)). pose proof (count_newlines_nonneg (trim_suffix (String newline "") (mt_Search m))).
  destruct (_ && _ && _ && _) eqn:E; cbn [lr_Start lr_End] in *; rewrite !count_newlines_app.
  - apply andb_prop in E as [[[_ [s Es]%has_prefix_iff]%andb_prop [t Et]%has_prefix_iff]%andb_prop E]. apply Z.ltb_lt in E.
    split_and!; [lia..|]. rewrite Es, Et, !app_str_assoc, <- !(app_str_assoc pre (String newline "")).
    apply first_lines_app. rewrite count_newlines_app. cbn. lia.
  - split_and!; [lia..|]. apply first_lines_app. lia.
Qed.

(** ** The wire form reads back *)

Section Wire.
Context {ft : FloatText}.

Lemma to_valid_empty s : to_valid s = "" ↔ s = "".
Proof.
  split; [|by intros ->]. intros E. pose proof (chunks_to_valid s) as C. rewrite E in C. destruct s as [|a s]; [done|].
  exfalso. rewrite chunks_cons in C. by destruct (rune_len (String a s)).
Qed.

(** The wire form of a hunk reads back as its two texts with what is not valid UTF-8
    replaced, so unchanged when both are valid, and no text at all reads back as no hunk. *)
Theorem DecodeHunk_EncodeHunk search replace :
  DecodeHunk (EncodeHunk search replace) =
    if String.eqb search "" && String.eqb replace "" then None else Some (to_valid search, to_valid replace).
Proof.
  unfold EncodeHunk. destruct (String.eqb search "" && String.eqb replace "") eqn:E; [done|].
  unfold marshal. cbn [marshalable forallb snd andb default].
  set (t := JObj _). change (id (encode t)) with (encode t). assert (has_prefix "{" (encode t) = true) as Hp by reflexivity.
  unfold DecodeHunk. rewrite Hp. cbn [negb].
  rewrite parse_doc_encode by reflexivity. cbn [as_read t map fst snd foldl].
  assert (names_field "search" (to_valid "search") = true) as Hs by reflexivity.
  assert (names_field "search" (to_valid "replace") = false ∧ names_field "replace" (to_valid "replace") = true) as [Hr1 Hr2] by (split; reflexivity).
  cbn [hunk_member fst snd]. rewrite Hs. cbn [hunk_member fst snd]. rewrite Hr1, Hr2. cbn [negb orb].
  destruct (String.eqb (to_valid search) "" && String.eqb (to_valid replace) "") eqn:E2; [|done].
  rewrite andb_true_iff, !String.eqb_eq, !to_valid_empty in E2. destruct E2 as [-> ->]. discriminate E.
Qed.
End Wire.

(** ** Samples *)

Definition sample_source : string := "if a < b {" +:+ String newline ("  return a" +:+ String newline ("}" +:+ String newline "")).
Definition sample_mutant : Mutant :=
  mkMutant "m1" "" (mkLineRange 2 2) (String newline ("  return a" +:+ String newline "")) (String newline ("  return b" +:+ String newline "")).

Example sample_span : EditSpan sample_source (mt_Search sample_mutant) (mt_Replace sample_mutant) = mkLineRange 2 2.
Proof. vm_compute. reflexivity. Qed.
Example overlapping_twice : @Apply Toy.digest (mkMutant "m" "" (mkLineRange 0 0) "aa" "b") "xaaay" = Err AnchorsTwice.
Proof. vm_compute. reflexivity. Qed.
Example dedupe_demo : DedupeMutants [sample_mutant; mkMutant "m2" "" (mkLineRange 2 2) (mt_Search sample_mutant) (mt_Replace sample_mutant)] = ([sample_mutant], 1).
Proof. vm_compute. reflexivity. Qed.

Lemma EditSpan_prefix_witness : ∃ file, @Apply Toy.digest sample_mutant sample_source = Ok file ∧
  first_lines 1 file = first_lines 1 sample_source.
Proof.
  eexists. split; [vm_compute; reflexivity|].
  refine (proj2 (proj2 (@EditSpan_prefix Toy.digest sample_mutant sample_source _ _ _))); [reflexivity|vm_compute; reflexivity].
Defined.
