(* ===== verification/Hunks.v ===== *)
(** * What a model's text is read as: internal/testgen/parse.go, parse_diag.go and review.go

    A generator writes its mutants as SEARCH/REPLACE blocks, a writer its test in a code fence, a reviewer one line a
    mutant. Main results: a mutant read is the sole edit of the source it claims to be and is tied to that
    source ([parse_proven]); why a hunk is refused is said exactly, and its last reason never arises ([ProveHunk_exact]); the accounting
    is of every block ([diag_accounts]); and blocks written in the format are read back as they were written ([parse_reads_back]). *)
From S2P Require Import Prelude GoLib GoText Crypto JsonText TestMap Mutant.
Local Open Scope string_scope.
Local Open Scope list_scope.
Local Open Scope Z_scope.
Local Open Scope corral_scope.

(** ** Cutting text *)

(** strings.Cut and strings.Split at a separator that is not empty. *)
Definition str_cut (sep s : string) : option (string * string) :=
  (λ i, (take_str i s, drop_str (i + String.length sep) s)) <$> str_index sep s.
Fixpoint split_fuel (fuel : nat) (sep s : string) : list string :=
  match fuel with
  | O => [s]
  | S n => match str_cut sep s with Some (a, b) => a :: split_fuel n sep b | None => [s] end
  end.
Definition str_split (sep s : string) : list string := split_fuel (S (String.length s)) sep s.

Definition nl : string := String newline "".
(** The rest of a text after its first line. *)
Definition afterMarkerLine (s : string) : string := match str_cut nl s with Some (_, rest) => rest | None => "" end.

(** ** A fenced block of code *)

Definition fence : string := "```".
(** The byte before an offset ends a line, or there is none. *)
Definition line_start (s : string) (i : nat) : bool :=
  match i with O => true | S j => match String.get j s with Some c => Ascii.eqb c newline | None => false end end.
Fixpoint fence_fuel (fuel : nat) (s : string) (i : nat) : option nat :=
  match fuel with
  | O => None
  | S n =>
      match str_index fence (drop_str i s) with
      | None => None
      | Some rel => let idx := (i + rel)%nat in if line_start s idx then Some idx else fence_fuel n s (idx + 3)
      end
  end.
Definition lineFenceIndex (s : string) (from : nat) : option nat := fence_fuel (S (String.length s)) s from.
Definition extractCode (resp : string) : string :=
  match lineFenceIndex resp 0 with
  | None => trim_space resp
  | Some start =>
      let rest := afterMarkerLine (drop_str (start + 3) resp) in
      match lineFenceIndex rest 0 with
      | None => trim_space rest
      | Some end_ => trim_space (take_str end_ rest)
      end
  end.

(** ** Hunks *)

Definition srSearchHead : string := "<<<<<<< SEARCH".
Definition srDivider : string := "=======".
Definition srReplaceEnd : string := ">>>>>>> REPLACE".
Definition parseSearchReplace (block : string) : option (string * string) :=
  '(_, rest) ← str_cut srSearchHead block;
  '(search, rest) ← str_cut (nl +:+ srDivider) (afterMarkerLine rest);
  '(replace, _) ← str_cut (nl +:+ srReplaceEnd) (afterMarkerLine rest);
  Some (search, replace).

Inductive HunkRejection := HunkNoOp | HunkAnchorNotFound | HunkAnchorNotUnique | HunkIntegrityFailed.

Section Prove.
Context {dg : Digest}.

Definition hunk_of (original id search replace : string) (span : LineRange) : Mutant :=
  mkMutant id (hex_encode (sha256 original)) span search replace.
Definition ProveHunk (original id search replace : string) : result HunkRejection Mutant :=
  if String.eqb search "" || String.eqb search replace then Err HunkNoOp
  else if negb (str_contains search original) then Err HunkAnchorNotFound
  else
    match Apply (hunk_of original id search replace (mkLineRange 0 0)) original with
    | Ok _ => Ok (hunk_of original id search replace (EditSpan original search replace))
    | Err _ =>
        let i := default 0%nat (str_index search original) in
        Err (if str_contains search (drop_str (i + 1) original) then HunkAnchorNotUnique else HunkIntegrityFailed)
    end.

(** ** A response of mutants *)

Record MutantParseDiag := mkDiag {
  pd_Blocks : Z; pd_Kept : Z; pd_Malformed : Z; pd_NoOp : Z; pd_AnchorNotFound : Z; pd_AnchorNotUnique : Z; pd_IntegrityFailed : Z;
  pd_WhitespaceOnly : Z }.
Definition no_blocks : MutantParseDiag := mkDiag 0 0 0 0 0 0 0 0.

(** strings.TrimLeft with spaces and tabs. *)
Definition indentation (a : ascii) : bool := Ascii.eqb a " " || Ascii.eqb a "009"%char.
Fixpoint trim_indent (s : string) : string := match s with String a s' => if indentation a then trim_indent s' else s | "" => "" end.
Definition stripLeading (s : string) : string := String.concat nl (map trim_indent (split_on newline s)).

Definition block_seen (d : MutantParseDiag) : MutantParseDiag := match d with mkDiag b k m n f u i w => mkDiag (b + 1) k m n f u i w end.
Definition malformed (d : MutantParseDiag) : MutantParseDiag := match d with mkDiag b k m n f u i w => mkDiag b k (m + 1) n f u i w end.
Definition kept_one (d : MutantParseDiag) : MutantParseDiag := match d with mkDiag b k m n f u i w => mkDiag b (k + 1) m n f u i w end.
Definition rejected (why : HunkRejection) (indented : bool) (d : MutantParseDiag) : MutantParseDiag :=
  match d, why with
  | mkDiag b k m n f u i w, HunkNoOp => mkDiag b k m (n + 1) f u i w
  | mkDiag b k m n f u i w, HunkAnchorNotFound => mkDiag b k m n (f + 1) u i (if indented then w + 1 else w)
  | mkDiag b k m n f u i w, HunkAnchorNotUnique => mkDiag b k m n f (u + 1) i w
  | mkDiag b k m n f u i w, HunkIntegrityFailed => mkDiag b k m n f u (i + 1) w
  end.
(** The hunk would be found if the indentation did not matter. *)
Definition only_indented (original search : string) : bool :=
  let s := stripLeading search in negb (String.eqb s "") && str_contains s (stripLeading original).

Definition mutant_id (n : nat) : string := "m" +:+ format_int (Z.of_nat n).
Definition block_step (original : string) (st : list Mutant * MutantParseDiag) (p : string) : list Mutant * MutantParseDiag :=
  let '(out, d) := st in
  let d := block_seen d in
  match str_cut "===" p with
  | None => (out, malformed d)
  | Some (_, rest) =>
      match parseSearchReplace rest with
      | None => (out, malformed d)
      | Some (search, replace) =>
          match ProveHunk original (mutant_id (S (length out))) search replace with
          | Err why => (out, rejected why (only_indented original search) d)
          | Ok m => (out ++ [m], kept_one d)
          end
      end
  end.
Definition mutation_mark : string := "===MUTATION_".
Definition parseMutantsDiag (resp original : string) : list Mutant * MutantParseDiag :=
  foldl (block_step original) ([], no_blocks) (tl (str_split mutation_mark resp)).
Definition parseMutants (resp original : string) : list Mutant := (parseMutantsDiag resp original).1.

Definition em_dash : string := String (byte 226) (String (byte 128) (String (byte 148) "")).
(** None: something was kept. *)
Inductive DiagErr := NoBlocks | NoneUsable (d : MutantParseDiag).
Definition diag_Error (d : MutantParseDiag) : option DiagErr :=
  if 0 <? pd_Kept d then None else if pd_Blocks d =? 0 then Some NoBlocks else Some (NoneUsable d).
Definition ParseMutantsOutput (raw original : string) : result DiagErr (list Mutant) :=
  let '(muts, diag) := parseMutantsDiag raw original in match diag_Error diag with Some e => Err e | None => Ok muts end.

(** The error as the driver repeats it. *)
Definition counted (n : Z) (what : string) : list string := if 0 <? n then [format_int n +:+ what] else [].
Definition diag_text (e : DiagErr) : string :=
  match e with
  | NoBlocks => "testgen: generator emitted no " +:+ String (byte 34) ("===MUTATION_n===" +:+ String (byte 34)
      (" blocks at all " +:+ em_dash +:+ " the model is not following the output format"))
  | NoneUsable d =>
      let why := counted (pd_Malformed d) " malformed (missing or unclosed SEARCH/REPLACE markers)" ++
                 counted (pd_NoOp d) " no-op (empty SEARCH, or REPLACE identical to it)" ++
                 counted (pd_AnchorNotUnique d) " anchor-not-unique (SEARCH occurs more than once)" ++
                 counted (pd_IntegrityFailed d) " failed the integrity round-trip" ++
                 counted (pd_AnchorNotFound d) " anchor-not-found (SEARCH is not in the file's bytes)" in
      "testgen: " +:+ format_int (pd_Blocks d) +:+ " block(s) emitted, none usable: " +:+ String.concat "; " why +:+
      String.concat "" (map (λ note, ". NOTE: " +:+ note) (counted (pd_WhitespaceOnly d)
        (" of the anchor-not-found block(s) WOULD match if leading whitespace were normalized " +:+ em_dash +:+
         " this model is not reproducing indentation exactly, which the prompt requires. The anchor is deliberately byte-exact and is not relaxed; use a model that copies indentation faithfully")))
  end.
End Prove.

(** ** A reviewer's verdicts *)

Record Review := mkReview { rv_MutantID : string; rv_RealGap : bool; rv_Rationale : string }.
(** strings.ToUpper, of the runes that have an ASCII capital: the letters, and U+0131 and U+017F. *)
Fixpoint to_upper (s : string) : string :=
  match s with
  | String a (String b s' as t) =>
      if (code a =? 196)%nat && (code b =? 177)%nat then String "I" (to_upper s')
      else if (code a =? 197)%nat && (code b =? 191)%nat then String "S" (to_upper s')
      else String (upper a) (to_upper t)
  | String a "" => String (upper a) ""
  | "" => ""
  end.
Definition review_line (line : string) : option Review :=
  let line := trim_space line in
  if negb (has_prefix "MUTANT " line) then None
  else
    '(id, after) ← str_cut ":" (drop_str 7 line);
    '(class, rationale) ← str_cut ":" after;
    let cls := to_upper (trim_space class) in
    if String.eqb cls "GAP" || String.eqb cls "EQUIVALENT" then Some (mkReview (trim_space id) (String.eqb cls "GAP") (trim_space rationale)) else None.
Definition parseVerdicts (resp : string) : list Review := omap review_line (split_on newline resp).

(** ** Where a text first occurs *)

(** [p] comes first right after [s]. *)
Definition clear_of (p s : string) : Prop := str_index p (s +:+ p) = Some (String.length s).
Lemma str_index_least p s i : str_index p s = Some i ↔ (∃ pre post, s = pre +:+ p +:+ post ∧ String.length pre = i) ∧
  ∀ pre post, s = pre +:+ p +:+ post → (i <= String.length pre)%nat.
Proof.
  split.
  - intros (pre & post & -> & Hl & Hmin)%str_index_Some. split; [by exists pre, post|]. intros. by eapply Hmin.
  - intros [(pre & post & -> & Hl) Hmin]. destruct (str_index p (pre +:+ p +:+ post)) as [j|] eqn:E.
    + apply str_index_Some in E as (pre' & post' & E' & <- & Hmin'). f_equal. apply Nat.le_antisymm; [subst i; by eapply Hmin'|by eapply Hmin].
    + exfalso. rewrite str_index_None in E. by apply (E pre post).
Qed.
Lemma app_str_split (x1 y1 x2 y2 : string) : x1 +:+ y1 = x2 +:+ y2 → (String.length x1 <= String.length x2)%nat → ∃ z, x2 = x1 +:+ z ∧ y1 = z +:+ y2.
Proof.
  revert x2. induction x1 as [|a x1 IH]; intros x2 E Hl; [by exists x2|]. destruct x2 as [|b x2]; cbn in *; [lia|]. injection E as -> E.
  destruct (IH x2 E) as (z & -> & ->); [lia|]. by exists z.
Qed.
(** What follows does not matter. *)
Lemma clear_app p s t : clear_of p s → str_index p (s +:+ p +:+ t) = Some (String.length s).
Proof.
  unfold clear_of. intros [_ Hmin]%str_index_least. apply str_index_least. split; [by exists s, t|]. intros pre post E.
  destruct (Nat.le_gt_cases (String.length s) (String.length pre)) as [|Hlt]; [done|].
  rewrite <- app_str_assoc, <- (app_str_assoc pre) in E. destruct (app_str_split (pre +:+ p) post (s +:+ p) t) as (z & Ez & _); [done|rewrite !length_app_str; lia|].
  rewrite app_str_assoc in Ez. by apply (Hmin _ _ Ez).
Qed.
Lemma clear_cut p s t : clear_of p s → str_cut p (s +:+ p +:+ t) = Some (s, t).
Proof.
  intros H. unfold str_cut. rewrite (clear_app _ _ _ H). cbn. rewrite take_str_length_app. do 2 f_equal.
  rewrite <- length_app_str, <- app_str_assoc. apply drop_str_length_app.
Qed.
Lemma contains_iff p s : str_contains p s = true ↔ ∃ pre post, s = pre +:+ p +:+ post.
Proof.
  destruct (str_contains p s) eqn:E; split; try done.
  - intros _. unfold str_contains in E. apply bool_decide_eq_true in E as [i (pre & post & -> & _)%str_index_Some]. by exists pre, post.
  - intros (pre & post & ->). rewrite str_contains_false in E. by destruct (E pre post).
Qed.
(** An occurrence that ends past [s] and begins within it holds what is in between. *)
Lemma clear_not p s : str_contains p s = false → (∀ x y z, s = x +:+ y → y ≠ "" → p = y +:+ z → z ≠ "" → ∀ t, p ≠ z +:+ t) → clear_of p s.
Proof.
  intros Hn Hov. apply str_index_least. split; [exists s, ""; by rewrite app_str_nil_r|]. intros pre post E.
  destruct (Nat.le_gt_cases (String.length s) (String.length pre)) as [|Hlt]; [done|]. exfalso.
  destruct (app_str_split pre (p +:+ post) s p) as (y & -> & Ey); [done|lia|].
  destruct (Nat.le_gt_cases (String.length p) (String.length y)) as [Hle|Hgt].
  - destruct (app_str_split p post y p Ey Hle) as (z & -> & _). apply not_true_iff_false in Hn. apply Hn, contains_iff. by exists pre, z.
  - destruct (app_str_split y p p post (eq_sym Ey)) as (z & Ez & Ep); [lia|].
    apply (Hov pre y z eq_refl) with post; [|done| |done]; intros ->; rewrite ?length_app_str in *; cbn in *; [lia|]. rewrite app_str_nil_r in Ez. rewrite Ez in Hgt. lia.
Qed.
Lemma mem_here a s t : mem_ascii a (s +:+ String a t) = true.
Proof. rewrite mem_ascii_app. cbn. by rewrite Ascii.eqb_refl, orb_true_r. Qed.
Lemma mem_first a t : mem_ascii a (String a t) = true.
Proof. apply (mem_here a ""). Qed.
Lemma clear_head a q s : mem_ascii a s = false → clear_of (String a q) s.
Proof.
  intros Hm. apply clear_not.
  - apply str_contains_false. intros pre post ->. by rewrite app_str_cons, mem_here in Hm.
  - intros x [|b y] z -> Hy Ep _ t _; [done|]. injection Ep as <- _. by rewrite mem_here in Hm.
Qed.
Lemma clear_once a q s : mem_ascii a q = false → str_contains (String a q) s = false → clear_of (String a q) s.
Proof.
  intros Hm Hn. apply clear_not; [done|]. intros x [|b y] z -> Hy Ep Hz t Et; [done|]. injection Ep as <- ->. destruct z as [|b z]; [done|]. injection Et as <- _. by rewrite mem_here in Hm.
Qed.
Lemma snoc_str s : s ≠ "" → ∃ s' c, s = s' +:+ String c "".
Proof. induction s as [|a s IH]; [done|]. intros _. destruct s as [|b s]; [by exists "", a|]. destruct IH as (s' & c & ->); [done|]. by exists (String a s'), c. Qed.
Lemma clear_end c p s : mem_ascii c p = false → str_contains p (s +:+ String c "") = false → clear_of p (s +:+ String c "").
Proof.
  intros Hm Hn. apply clear_not; [done|]. intros x y z E Hy -> _ t _. destruct (snoc_str y Hy) as (y' & b & ->). rewrite <- app_str_assoc in E.
  assert (b = c) as ->.
  { clear -E. assert (String.length s = String.length (x +:+ y')) as Hl by (apply (f_equal String.length) in E; rewrite !length_app_str in E; cbn in E; rewrite length_app_str; lia).
    apply app_str_inj_len in E as [_ [= ->]]; done. }
  by rewrite app_str_assoc, app_str_cons, mem_here in Hm.
Qed.
(** A byte that the text does not hold keeps its occurrences on either side. *)
Lemma contains_sep c p x y : mem_ascii c p = false → p ≠ "" → str_contains p (x +:+ String c y) = str_contains p x || str_contains p y.
Proof.
  intros Hm Hp. apply eq_bool_prop_intro. rewrite !Is_true_true, orb_true_iff, !contains_iff. split.
  - intros (pre & post & E). destruct (Nat.le_gt_cases (String.length x) (String.length pre)) as [Hle|Hgt].
    + right. destruct (app_str_split x (String c y) pre (p +:+ post) E Hle) as (z & -> & Ez). destruct z as [|b z]; cbn in Ez.
      * destruct p as [|b p]; [done|]. injection Ez as -> _. by rewrite mem_first in Hm.
      * injection Ez as -> ->. by exists z, post.
    + left. destruct (app_str_split pre (p +:+ post) x (String c y) (eq_sym E)) as (z & -> & Ez); [lia|].
      destruct (Nat.le_gt_cases (String.length p) (String.length z)) as [Hle|Hlt].
      * destruct (app_str_split p post z (String c y) Ez Hle) as (t & -> & _). by exists pre, t.
      * destruct (app_str_split z (String c y) p post (eq_sym Ez)) as (t & -> & Et); [lia|]. destruct t as [|b t]; [rewrite app_str_nil_r in Hlt; lia|]. injection Et as <- _.
        by rewrite mem_here in Hm.
  - intros [(pre & post & ->)|(pre & post & ->)]; [exists pre, (post +:+ String c y); by rewrite !app_str_assoc|].
    exists (x +:+ String c pre), post. by rewrite !app_str_assoc.
Qed.

(** Splitting: the fuel is enough, and a part ends at the first separator. *)
Lemma str_cut_shorter sep s a b : sep ≠ "" → str_cut sep s = Some (a, b) → (String.length b < String.length s)%nat.
Proof.
  unfold str_cut. intros Hs. destruct (str_index sep s) as [i|] eqn:E; [|done]. intros [= _ <-]. apply str_index_Some in E as (pre & post & -> & <- & _).
  rewrite length_drop_str, !length_app_str. destruct sep; [done|]. cbn. lia.
Qed.
Lemma split_fuel_enough sep s : sep ≠ "" → ∀ n m, (String.length s < n)%nat → (String.length s < m)%nat → split_fuel n sep s = split_fuel m sep s.
Proof.
  intros Hs n. revert s. induction n as [|n IH]; intros s m Hn Hm; [lia|]. destruct m as [|m]; [lia|]. cbn. destruct (str_cut sep s) as [[a b]|] eqn:E; [|done].
  apply str_cut_shorter in E; [|done]. f_equal. apply IH; lia.
Qed.
Lemma str_split_step sep s : sep ≠ "" → str_split sep s = match str_cut sep s with Some (a, b) => a :: str_split sep b | None => [s] end.
Proof.
  intros Hs. unfold str_split at 1. cbn [split_fuel]. destruct (str_cut sep s) as [[a b]|] eqn:E; [|done]. apply str_cut_shorter in E; [|done]. f_equal.
  apply (split_fuel_enough sep b Hs (String.length s) (S (String.length b))); lia.
Qed.
Lemma str_split_clear sep s t : sep ≠ "" → clear_of sep s → str_split sep (s +:+ sep +:+ t) = s :: str_split sep t.
Proof. intros Hs Hc. by rewrite str_split_step, (clear_cut _ _ _ Hc). Qed.
Lemma str_split_none sep s : sep ≠ "" → str_contains sep s = false → str_split sep s = [s].
Proof.
  intros Hs Hc. rewrite str_split_step by done. unfold str_cut. unfold str_contains in Hc. apply bool_decide_eq_false in Hc. destruct (str_index sep s); [by destruct Hc|done].
Qed.

(** ** A hunk's proof *)

Section Facts.
Context {dg : Digest}.

(** What a mutant of a source claims, and keeps. *)
Definition proven (original : string) (m : Mutant) : Prop :=
  mt_Search m ≠ "" ∧ mt_ParentSHA256 m = hex_encode (sha256 original) ∧ mt_Span m = EditSpan original (mt_Search m) (mt_Replace m) ∧
  ∃ pre post, sole_edit m original pre post.

(** Why a hunk is refused is said exactly. A hunk becomes a mutant exactly when its anchor is not empty, differs from its replacement and occurs
    in the source once, counting overlapping occurrences, and the mutant then carries the texts as written, the source's digest and the span of the edit;
    otherwise the reason given is the one that holds: no change, an anchor that is not there, or one that is there at two places. The remaining reason, that
    the edit did not pass its check though none of these holds, never arises. *)
Theorem ProveHunk_exact original id search replace :
  match ProveHunk original id search replace with
  | Ok m => m = hunk_of original id search replace (EditSpan original search replace) ∧ proven original m
  | Err HunkNoOp => search = "" ∨ search = replace
  | Err HunkAnchorNotFound => search ≠ "" ∧ search ≠ replace ∧ ∀ pre post, original ≠ pre +:+ search +:+ post
  | Err HunkAnchorNotUnique => search ≠ "" ∧ search ≠ replace ∧ ∃ pre post pre' post', original = pre +:+ search +:+ post ∧ original = pre' +:+ search +:+ post' ∧ pre ≠ pre'
  | Err HunkIntegrityFailed => False
  end.
Proof.
  unfold ProveHunk. destruct (String.eqb_spec search "") as [|He]; [by left|]. destruct (String.eqb_spec search replace) as [|Hc]; [by right|]. cbn [orb].
  destruct (str_contains search original) eqn:Ec; cbn [negb]; [|split_and!; [done|done|by apply str_contains_false]].
  destruct (Apply _ original) as [file|e] eqn:Ea.
  - apply Apply_exact in Ea as (_ & [[? _]|(_ & pre & post & (Hs & Ho & Hu) & _)]); [done|]. split; [done|]. split_and!; [done|done|done|]. by exists pre, post.
  - destruct (str_index search original) as [i|] eqn:Ei; [|by rewrite str_index_None in Ei; apply contains_iff in Ec as (pre & post & E); destruct (Ei pre post)].
    cbn [default]. apply str_index_Some in Ei as (pre & post & Ho & <- & Hmin). pose proof (second_occurrence _ _ _ _ He Ho Hmin) as H2.
    destruct (str_contains search (drop_str _ _)) eqn:E2.
    + split_and!; [done|done|]. apply contains_iff in E2 as (pre' & post' & E2).
      exists pre, post, (take_str (String.length pre + 1) original +:+ pre'), post'. split_and!; [done| |].
      * rewrite <- (take_drop_str (String.length pre + 1) original) at 1. by rewrite E2, app_str_assoc.
      * intros E. apply (f_equal String.length) in E. rewrite length_app_str, length_take_str in E. rewrite Ho, !length_app_str in E. destruct search; [done|]. cbn in E. lia.
    + apply proj1 in H2. specialize (H2 eq_refl).
      assert (Apply (hunk_of original id search replace (mkLineRange 0 0)) original = Ok (pre +:+ replace +:+ post)) as E; [|congruence].
      apply Apply_exact. split; [by right|]. right. split; [done|]. exists pre, post. split; [split_and!; [done|done|exact H2]|done].
Qed.

(** ** The accounting of a response *)

(** A block's two texts, as they are written in it. *)
Definition block_hunk (p : string) : option (string * string) := '(_, rest) ← str_cut "===" p; parseSearchReplace rest.
Definition blocks_of (resp : string) : list string := tl (str_split mutation_mark resp).
Record accounted (original : string) (ps : list string) (st : list Mutant * MutantParseDiag) : Prop := {
  ac_ids : map mt_ID st.1 = map mutant_id (seq 1 (length st.1));
  ac_proven : ∀ m, m ∈ st.1 → proven original m ∧ ∃ p, p ∈ ps ∧ block_hunk p = Some (mt_Search m, mt_Replace m);
  ac_kept : pd_Kept st.2 = Z.of_nat (length st.1);
  ac_blocks : pd_Blocks st.2 = Z.of_nat (length ps);
  ac_sum : pd_Blocks st.2 = pd_Kept st.2 + pd_Malformed st.2 + pd_NoOp st.2 + pd_AnchorNotFound st.2 + pd_AnchorNotUnique st.2;
  ac_integrity : pd_IntegrityFailed st.2 = 0;
  ac_whitespace : 0 <= pd_WhitespaceOnly st.2 <= pd_AnchorNotFound st.2 }.

Lemma accounted_step original ps st p : accounted original ps st → accounted original (ps ++ [p]) (block_step original st p).
Proof.
  intros [Hi Hp Hk Hb Hs Hint Hw]. destruct st as [out d]. cbn [fst snd] in *.
  assert (∀ m, m ∈ out → proven original m ∧ ∃ p', p' ∈ ps ++ [p] ∧ block_hunk p' = Some (mt_Search m, mt_Replace m)) as Hp'.
  { intros m Hm. destruct (Hp m Hm) as (? & p' & ? & ?). split; [done|]. exists p'. split; [apply elem_of_app; by left|done]. }
  unfold block_step. destruct (str_cut "===" p) as [[n rest]|] eqn:Ec; [|destruct d; split; cbn in *; rewrite ?length_app; cbn; try done; lia].
  destruct (parseSearchReplace rest) as [[search replace]|] eqn:Er; [|destruct d; split; cbn in *; rewrite ?length_app; cbn; try done; lia].
  pose proof (ProveHunk_exact original (mutant_id (S (length out))) search replace) as H. destruct (ProveHunk _ _ _ _) as [m|why].
  - destruct H as [-> H]. destruct d. split; cbn [fst snd kept_one block_seen pd_Kept pd_Blocks pd_Malformed pd_NoOp pd_AnchorNotFound pd_AnchorNotUnique pd_IntegrityFailed pd_WhitespaceOnly] in *;
      rewrite ?length_app; cbn [length]; try done; try lia.
    + rewrite map_app, Hi, Nat.add_comm. cbn [map mt_ID hunk_of]. change (1 + length out)%nat with (S (length out)). rewrite seq_S, map_app. done.
    + intros m [Hm| ->%list_elem_of_singleton]%elem_of_app; [by apply Hp'|]. split; [done|]. exists p. split; [apply elem_of_app; right; by left|].
      unfold block_hunk. by rewrite Ec.
  - destruct d, why; try done; split; cbn in *; rewrite ?length_app; cbn; try done; try lia; destruct (only_indented original search); lia.
Qed.
Lemma accounted_all original ps : accounted original ps (foldl (block_step original) ([], no_blocks) ps).
Proof.
  induction ps as [|p ps IH] using rev_ind; [split; cbn; try done; by intros ? ?%elem_of_nil|]. rewrite foldl_app. by apply accounted_step.
Qed.
Lemma mutant_id_inj i j : mutant_id i = mutant_id j → i = j.
Proof. unfold mutant_id. intros H. apply (f_equal (drop_str 1)) in H. cbn in H. apply format_int_inj in H. lia. Qed.
Lemma NoDup_mutant_ids k n : NoDup (map mutant_id (seq k n)).
Proof. apply NoDup_fmap_2; [intros i j; apply mutant_id_inj|apply NoDup_seq]. Qed.

(** C6. A mutant read from a model's response is the sole edit of the source it claims to be: it is one of the blocks, its texts as written there; its
    anchor is not empty and occurs once, it carries the source's digest and the span of its edit, and it applies to the source and changes it there and
    nowhere else. The mutants are named m1, m2 and so on, so no two have one name. *)
Theorem parse_proven resp original : let ms := parseMutants resp original in
  map mt_ID ms = map mutant_id (seq 1 (length ms)) ∧ NoDup (map mt_ID ms) ∧
  ∀ m, m ∈ ms → mt_ParentSHA256 m = hex_encode (sha256 original) ∧ mt_Span m = EditSpan original (mt_Search m) (mt_Replace m) ∧
    (∃ p, p ∈ blocks_of resp ∧ block_hunk p = Some (mt_Search m, mt_Replace m)) ∧
    ∃ pre post, sole_edit m original pre post ∧ Apply m original = Ok (pre +:+ mt_Replace m +:+ post) ∧ pre +:+ mt_Replace m +:+ post ≠ original.
Proof.
  intros ms. destruct (accounted_all original (blocks_of resp)) as [Hi Hp _ _ _ _ _]. change (foldl _ _ _).1 with ms in *. split; [done|]. split; [rewrite Hi; apply NoDup_mutant_ids|].
  intros m Hm. destruct (Hp m Hm) as ((He & Hpar & Hspan & pre & post & Hs) & Hb). split_and!; [done|done|done|]. exists pre, post.
  assert (Apply m original = Ok (pre +:+ mt_Replace m +:+ post)) as Ea by (apply Apply_exact; split; [by right|]; right; split; [done|]; by exists pre, post).
  split_and!; [done|done|]. apply (Apply_mutates m); [by apply String.eqb_neq|done].
Qed.

(** The accounting is of every block: the blocks of a response are those kept and those refused for each reason, none twice; as many are kept as
    mutants are returned; those that miss by their indentation are among those whose anchor was not found; and the response is an error exactly when
    nothing was kept, of the two kinds by whether there was a block at all. *)
Theorem diag_accounts resp original : let d := (parseMutantsDiag resp original).2 in
  pd_Blocks d = Z.of_nat (length (blocks_of resp)) ∧ pd_Kept d = Z.of_nat (length (parseMutants resp original)) ∧
  pd_Blocks d = pd_Kept d + pd_Malformed d + pd_NoOp d + pd_AnchorNotFound d + pd_AnchorNotUnique d ∧ pd_IntegrityFailed d = 0 ∧
  0 <= pd_WhitespaceOnly d <= pd_AnchorNotFound d ∧
  ParseMutantsOutput resp original = match parseMutants resp original with
    | [] => Err (if bool_decide (blocks_of resp = []) then NoBlocks else NoneUsable d) | ms => Ok ms end.
Proof.
  intros d. destruct (accounted_all original (blocks_of resp)) as [_ _ Hk Hb Hs Hi Hw]. change (foldl _ _ _) with (parseMutantsDiag resp original) in *. fold d in Hk, Hb, Hs, Hi, Hw.
  split_and!; [done|exact Hk|done|done|by destruct Hw..|]. unfold ParseMutantsOutput, parseMutants in *. destruct (parseMutantsDiag resp original) as [ms d'] eqn:E. subst d. cbn [fst snd] in *.
  unfold diag_Error. rewrite Hk, Hb. destruct ms as [|m ms]; cbn [length Z.of_nat Z.ltb Z.compare].
  - by destruct (blocks_of resp).
  - done.
Qed.

(** ** Written blocks read back *)

(** A block as the format has it, and a response of them. *)
Definition block_body (n : nat) (h : string * string) : string :=
  format_int (Z.of_nat n) +:+ "===" +:+ nl +:+ srSearchHead +:+ nl +:+ h.1 +:+ (nl +:+ srDivider) +:+ nl +:+ h.2 +:+ (nl +:+ srReplaceEnd) +:+ nl.
Fixpoint response (n : nat) (hs : list (string * string)) : string :=
  match hs with [] => "" | h :: hs => mutation_mark +:+ block_body n h +:+ response (S n) hs end.
(** The texts hold no marker that ends them. *)
Definition unmarked (h : string * string) : Prop :=
  str_contains mutation_mark h.1 = false ∧ str_contains mutation_mark h.2 = false ∧
  str_contains (nl +:+ srDivider) h.1 = false ∧ str_contains (nl +:+ srReplaceEnd) h.2 = false.

Lemma not_contains c p s : mem_ascii c p = true → mem_ascii c s = false → str_contains p s = false.
Proof.
  intros Hp Hs. apply str_contains_false. intros pre post ->. rewrite !mem_ascii_app, Hp in Hs. by rewrite orb_true_r in Hs.
Qed.
Lemma afterMarkerLine_nl s : afterMarkerLine (nl +:+ s) = s.
Proof. unfold afterMarkerLine. change (nl +:+ s) with ("" +:+ nl +:+ s). by rewrite (clear_cut nl "" s). Qed.
Lemma body_reads n h : unmarked h → block_hunk (block_body n h) = Some h.
Proof.
  intros (_ & _ & Hd & Hr). unfold block_hunk, block_body. rewrite (clear_cut "===" (format_int (Z.of_nat n)));
    [|apply clear_head, format_int_no_char; by intros []]. cbn [mbind option_bind]. unfold parseSearchReplace.
  rewrite (clear_cut srSearchHead nl) by (by apply clear_head). cbn [mbind option_bind]. rewrite afterMarkerLine_nl, (clear_cut (nl +:+ srDivider) h.1) by (by apply clear_once).
  cbn [mbind option_bind]. rewrite afterMarkerLine_nl, (clear_cut (nl +:+ srReplaceEnd) h.2) by (by apply clear_once). by destruct h.
Qed.
Lemma body_unmarked n h : unmarked h → str_contains mutation_mark (block_body n h) = false.
Proof.
  intros (H1 & H2 & _). unfold block_body. assert (∀ x y, str_contains mutation_mark x = false → str_contains mutation_mark y = false → str_contains mutation_mark (x +:+ String newline y) = false) as Hs
    by (intros x y Hx Hy; rewrite contains_sep by done; by rewrite Hx, Hy).
  assert (mem_ascii "M" (format_int (Z.of_nat n)) = false) as Hn by (apply format_int_no_char; by intros []).
  rewrite <- (app_str_assoc (format_int _)). change (nl +:+ ?x) with (String newline x). apply Hs; [by apply (not_contains "M"); [|rewrite mem_ascii_app, Hn]|].
  apply (Hs srSearchHead); [done|]. apply Hs; [done|]. apply (Hs srDivider); [done|]. apply Hs; [done|]. by apply (Hs srReplaceEnd).
Qed.
Lemma body_clear n h : unmarked h → clear_of mutation_mark (block_body n h).
Proof.
  intros Hu. assert (∃ s, block_body n h = s +:+ String newline "") as [s E].
  { exists (format_int (Z.of_nat n) +:+ "===" +:+ nl +:+ srSearchHead +:+ nl +:+ h.1 +:+ (nl +:+ srDivider) +:+ nl +:+ h.2 +:+ (nl +:+ srReplaceEnd)).
    unfold block_body. by rewrite !app_str_assoc. }
  pose proof (body_unmarked n h Hu) as Hc. rewrite E in *. by apply clear_end.
Qed.
Lemma clear_none p s : p ≠ "" → clear_of p s → str_contains p s = false.
Proof.
  intros Hp Hc. apply str_contains_false. intros pre post ->. apply str_index_least in Hc as [_ Hmin]. specialize (Hmin pre (post +:+ p)). rewrite !app_str_assoc, !length_app_str in Hmin.
  destruct p; [done|]. cbn in Hmin. specialize (Hmin eq_refl). lia.
Qed.
Lemma response_splits hs : ∀ n pre, clear_of mutation_mark pre → Forall unmarked hs →
  str_split mutation_mark (pre +:+ response n hs) = pre :: imap (λ i h, block_body (n + i) h) hs.
Proof.
  induction hs as [|h hs IH]; intros n pre Hc Hu; cbn [response imap].
  - rewrite app_str_nil_r. apply str_split_none; [done|by apply clear_none].
  - apply Forall_cons in Hu as [Hh Hu]. rewrite str_split_clear by done. rewrite IH by (try done; by apply body_clear). rewrite Nat.add_0_r. do 2 f_equal.
    apply imap_ext. intros i x _. cbn. by rewrite Nat.add_succ_r.
Qed.

(** C36. Blocks written in the format are read back: when the texts of each hold no marker that would end them, each anchor occurs once in the source and is
    not its replacement, a response of any preamble and these blocks is read as one mutant a block, in order, with the very texts, and nothing is refused. *)
Theorem parse_reads_back pre hs original : clear_of mutation_mark pre → Forall unmarked hs →
  Forall (λ h, h.1 ≠ "" ∧ ∃ before after, sole_edit (hunk_of original "" h.1 h.2 (mkLineRange 0 0)) original before after) hs →
  parseMutantsDiag (pre +:+ response 1 hs) original =
    (imap (λ i h, hunk_of original (mutant_id (S i)) h.1 h.2 (EditSpan original h.1 h.2)) hs, let n := Z.of_nat (length hs) in mkDiag n n 0 0 0 0 0 0).
Proof.
  intros Hc Hu Hs. unfold parseMutantsDiag. rewrite (response_splits hs 1 pre Hc Hu). cbn [tl]. clear Hc pre.
  induction hs as [|h hs IH] using rev_ind; [done|]. apply Forall_app in Hu as [Hu [Hh _]%Forall_cons], Hs as [Hs [[He (b & a & Hsole)] _]%Forall_cons].
  rewrite !imap_app, foldl_app, IH by done. cbn [imap foldl]. unfold block_step. pose proof (body_reads (1 + (length hs + 0)) h Hh) as Hb. unfold block_hunk in Hb.
  destruct (str_cut "===" _) as [[x rest]|]; [|done]. cbn [mbind option_bind] in Hb. rewrite Hb. destruct h as [search replace]. cbn [fst snd] in *.
  pose proof (ProveHunk_exact original (mutant_id (S (length (imap (λ i h, hunk_of original (mutant_id (S i)) h.1 h.2 (EditSpan original h.1 h.2)) hs)))) search replace) as H.
  rewrite length_imap in *. destruct (ProveHunk _ _ _ _) as [m|why].
  - destruct H as [-> _]. cbn. rewrite length_app, Nat.add_0_r. cbn. f_equal. f_equal; lia.
  - exfalso. destruct Hsole as (Hne & Ho & Huniq). cbn in *. destruct why; [naive_solver|destruct H as (_ & _ & H); by apply (H b a)| |done].
    destruct H as (_ & _ & p1 & q1 & p2 & q2 & E1 & E2 & Hd). apply Hd. by rewrite (Huniq _ _ E1), (Huniq _ _ E2).
Qed.
End Facts.

(** ** The fence of a block of code *)

Definition fence_at (s : string) (i : nat) : Prop := has_prefix fence (drop_str i s) = true ∧ line_start s i = true.

Lemma drop_drop_str i j s : drop_str i (drop_str j s) = drop_str (j + i) s.
Proof. revert s. induction j as [|j IH]; intros s; [done|]. destruct s as [|a s]; cbn; [by destruct i|apply IH]. Qed.
Lemma get_drop_str k i s : String.get k (drop_str i s) = String.get (i + k) s.
Proof. revert s. induction i as [|i IH]; intros s; [done|]. destruct s as [|a s]; cbn; [by destruct k|apply IH]. Qed.
Lemma str_index_first p s : p ≠ "" → match str_index p s with
  | Some k => has_prefix p (drop_str k s) = true ∧ ∀ j, (j < k)%nat → has_prefix p (drop_str j s) = false
  | None => ∀ j, has_prefix p (drop_str j s) = false end.
Proof.
  intros Hp. induction s as [|a s IH]; cbn [str_index].
  - destruct (has_prefix p "") eqn:E; [by destruct p|]. intros j. by destruct j.
  - destruct (has_prefix p (String a s)) eqn:E; [split; [done|lia]|]. destruct (str_index p s) as [k|]; cbn.
    + destruct IH as [? Hk]. split; [done|]. intros [|j] Hj; [done|]. cbn. apply Hk. lia.
    + intros [|j]; [done|]. apply IH.
Qed.
(** Within a fence no line starts. *)
Lemma fence_no_line s i k : has_prefix fence (drop_str i s) = true → (k < 2)%nat → line_start s (S (i + k)) = false.
Proof.
  intros [t E]%has_prefix_iff Hk. cbn [line_start]. rewrite <- get_drop_str, E. by destruct k as [|[|k]]; [..|lia].
Qed.
Lemma fence_fuel_first s n : ∀ i, (String.length s < i + n)%nat → (∀ j, (j < i)%nat → ¬ fence_at s j) →
  match fence_fuel n s i with Some k => fence_at s k ∧ ∀ j, (j < k)%nat → ¬ fence_at s j | None => ∀ j, ¬ fence_at s j end.
Proof.
  induction n as [|n IH]; intros i Hn Hi; cbn [fence_fuel].
  { intros j Hj. destruct (Nat.lt_ge_cases j i); [by apply (Hi j)|]. destruct Hj as [[t E]%has_prefix_iff _].
    apply (f_equal String.length) in E. rewrite length_drop_str, length_app_str in E. cbn in E. lia. }
  pose proof (str_index_first fence (drop_str i s)) as H. destruct (str_index fence _) as [k|].
  - destruct H as [Hk Hmin]; [done|]. rewrite drop_drop_str in Hk. assert (∀ j, (j < i + k)%nat → ¬ fence_at s j) as Hj.
    { intros j Hj Hf. destruct (Nat.lt_ge_cases j i); [by apply (Hi j)|]. destruct Hf as [Hf _]. specialize (Hmin (j - i)%nat). rewrite drop_drop_str in Hmin.
      replace (i + (j - i))%nat with j in Hmin by lia. rewrite Hmin in Hf; [done|lia]. }
    destruct (line_start s (i + k)) eqn:El; [by split|]. apply IH; [lia|]. intros j Hlt Hf. destruct (Nat.lt_ge_cases j (i + k)); [by apply (Hj j)|].
    destruct (Nat.eq_dec j (i + k)%nat) as [->|Hne]; [destruct Hf; congruence|]. destruct Hf as [_ Hf].
    replace j with (S (i + k + (j - (i + k) - 1)))%nat in Hf by lia. rewrite fence_no_line in Hf; [done|done|lia].
  - intros j Hj. destruct (Nat.lt_ge_cases j i); [by apply (Hi j)|]. destruct Hj as [Hj _]. specialize (H ltac:(done) (j - i)%nat). rewrite drop_drop_str in H.
    replace (i + (j - i))%nat with j in H by lia. congruence.
Qed.

(** The code taken from a response is what its first fence encloses: the fence is the first that starts a line, its own line is dropped, and the code
    ends before the next fence that starts a line, however many fences there are inside lines, or with the response when none does; a response without such a fence is
    taken whole. Blank space around the code is dropped. *)
Theorem extractCode_exact resp :
  (∃ start, fence_at resp start ∧ (∀ j, (j < start)%nat → ¬ fence_at resp j) ∧ let rest := afterMarkerLine (drop_str (start + 3) resp) in
     ∃ stop, (fence_at rest stop ∨ stop = String.length rest ∧ ∀ j, ¬ fence_at rest j) ∧ (∀ j, (j < stop)%nat → ¬ fence_at rest j) ∧
       extractCode resp = trim_space (take_str stop rest)) ∨
  (∀ j, ¬ fence_at resp j) ∧ extractCode resp = trim_space resp.
Proof.
  unfold extractCode, lineFenceIndex. pose proof (fence_fuel_first resp (S (String.length resp)) 0) as H. destruct (fence_fuel _ resp 0) as [start|].
  - left. destruct H as [Hf Hmin]; [lia|lia|]. exists start. split_and!; [done|done|]. set (rest := afterMarkerLine _).
    pose proof (fence_fuel_first rest (S (String.length rest)) 0) as H. destruct (fence_fuel _ rest 0) as [stop|].
    + destruct H as [Hs Hm]; [lia|lia|]. exists stop. split_and!; [by left|done|done].
    + exists (String.length rest). assert (∀ j, ¬ fence_at rest j) by (apply H; lia). split_and!; [by right|by intros|]. f_equal.
      pose proof (take_str_length_app rest "") as E. by rewrite app_str_nil_r in E.
  - right. split; [apply H; lia|done].
Qed.
