(* ===== verification/Jail.v ===== *)
(** * Runs in a jail, one at a time and many at once

    The scorer of internal/adequacy is a program over an environment: it asks for runs of
    a command on a set of files, reads the clock and asks whether its context is done. A
    computation is a tree of those questions ([Prog]), what happened is the list of the
    questions with their answers ([Runs]), and nothing is assumed of the answers. [wp]
    is the rule that what a computation returns agrees with what happened.

    The scorer's worker pool is Go as the code writes it: the loop's goroutine adds to a WaitGroup, sends to a buffered channel,
    starts a worker and waits at the end; a worker runs its program and then what it deferred. [pool_step] is the
    interleaving of goroutines: which one moves is not determined, a send blocks while the channel is full, a receive while it is
    empty, a wait while the counter is not zero, and a counter taken below zero is stuck (Go panics). A run's answer is whatever the
    machine said under that load. Main results: whatever the interleaving, each worker did a
    run of its own program and its events are in the trace ([Pool_Runs]); never more than [n] bodies run, nothing is
    ever stuck, the loop goes past its wait only when every worker is done, and every schedule ends
    ([pool_terminates]); one worker after another is one of the schedules ([pseq_Pool]). *)
From S2P Require Import Prelude GoLib.
From stdpp Require Import relations.
Local Open Scope string_scope.
Local Open Scope list_scope.
Local Open Scope nat_scope.

(** An error of a run, as [errors.Is] tells them apart. *)
Record JailErr := mkJailErr { je_TestTimeout : bool; je_DeadlineExceeded : bool; je_Text : string }.

(** Which method of the jail is asked: RunTest, RunTestVerbose or RunTestDetailed. *)
Inductive RunVia := ViaRunTest | ViaVerbose | ViaDetailed.
(** The files, the command, and the cap of the context; None: the context of the file. *)
Record RunReq := mkRunReq {
  rq_Via : RunVia; rq_Files : gmap string string; rq_Cmd : list string; rq_Cap : option Z }.
Record RunRes := mkRunRes { rr_Pass : bool; rr_Out : string; rr_Err : option JailErr }.

Inductive Event :=
| EvRun (q : RunReq) (r : RunRes)
| EvNow (t : Z)
| EvCtx (e : option JailErr).

Inductive Prog (A : Type) : Type :=
| Ret (a : A)
| Run (q : RunReq) (k : RunRes → Prog A)
| Now (k : Z → Prog A)
| CtxErr (k : option JailErr → Prog A).
Arguments Ret {A} a.
Arguments Run {A} q k.
Arguments Now {A} k.
Arguments CtxErr {A} k.

Fixpoint pbind {A B} (p : Prog A) (f : A → Prog B) : Prog B :=
  match p with
  | Ret a => f a
  | Run q k => Run q (λ r, pbind (k r) f)
  | Now k => Now (λ t, pbind (k t) f)
  | CtxErr k => CtxErr (λ e, pbind (k e) f)
  end.

Declare Scope prog_scope.
Delimit Scope prog_scope with prog.
Notation "'let*' x ':=' p 'in' k" := (pbind p (λ x, k))
  (at level 10, x pattern, p at level 100, k at level 200) : prog_scope.

(** One program after another. *)
Fixpoint pseq {A} (ps : list (Prog A)) : Prog (list A) :=
  match ps with
  | [] => Ret []
  | p :: ps' => pbind p (λ a, pbind (pseq ps') (λ l, Ret (a :: l)))
  end.

(** The program returns [a] when the answers are those of the trace. *)
Fixpoint Runs {A} (p : Prog A) (tr : list Event) (a : A) : Prop :=
  match p with
  | Ret b => tr = [] ∧ a = b
  | Run q k => ∃ r tr', tr = EvRun q r :: tr' ∧ Runs (k r) tr' a
  | Now k => ∃ t tr', tr = EvNow t :: tr' ∧ Runs (k t) tr' a
  | CtxErr k => ∃ e tr', tr = EvCtx e :: tr' ∧ Runs (k e) tr' a
  end.

(** A jail given as functions: what a run answers, what the clock and the context say
    at each turn of it. *)
Fixpoint exec {A} (ans : RunReq → RunRes) (clock : nat → Z) (n : nat) (p : Prog A) : list Event * A :=
  match p with
  | Ret a => ([], a)
  | Run q k => let '(tr, a) := exec ans clock (S n) (k (ans q)) in (EvRun q (ans q) :: tr, a)
  | Now k => let '(tr, a) := exec ans clock (S n) (k (clock n)) in (EvNow (clock n) :: tr, a)
  | CtxErr k => let '(tr, a) := exec ans clock (S n) (k None) in (EvCtx None :: tr, a)
  end.

(** Whatever is answered, [Φ] holds of what happened (after [h]) and what is returned. *)
Fixpoint wp {A} (p : Prog A) (h : list Event) (Φ : list Event → A → Prop) : Prop :=
  match p with
  | Ret a => Φ h a
  | Run q k => ∀ r, wp (k r) (h ++ [EvRun q r]) Φ
  | Now k => ∀ t, wp (k t) (h ++ [EvNow t]) Φ
  | CtxErr k => ∀ e, wp (k e) (h ++ [EvCtx e]) Φ
  end.

(** ** Facts of programs *)

Section Programs.
Context {A : Type}.
Implicit Types p : Prog A.

Lemma wp_Runs p : ∀ h Φ tr a, wp p h Φ → Runs p tr a → Φ (h ++ tr) a.
Proof.
  induction p as [b|q k IH|k IH|k IH]; cbn; intros h Φ tr a Hwp;
    [intros [-> ->]; by rewrite app_nil_r|intros (x & tr' & -> & HR)..];
    (rewrite cons_middle, (assoc_L (++)); by eapply IH).
Qed.

Lemma wp_mono p : ∀ h (Φ Ψ : list Event → A → Prop), (∀ tr a, Φ tr a → Ψ tr a) → wp p h Φ → wp p h Ψ.
Proof. induction p; cbn; eauto. Qed.

Lemma wp_conj p : ∀ h (Φ Ψ : list Event → A → Prop), wp p h Φ → wp p h Ψ → wp p h (λ tr a, Φ tr a ∧ Ψ tr a).
Proof. induction p; cbn; eauto. Qed.

Lemma wp_bind {B} p (f : A → Prog B) : ∀ h Φ, wp p h (λ tr a, wp (f a) tr Φ) → wp (pbind p f) h Φ.
Proof. induction p; cbn; eauto. Qed.

(** What happened is never taken back. *)
Lemma wp_grows p : ∀ h, wp p h (λ tr _, ∃ more, tr = h ++ more).
Proof.
  induction p as [b|q k IH|k IH|k IH]; cbn; intros h; [by exists []; rewrite app_nil_r|..];
    intros x; (eapply wp_mono; [|apply IH]); intros tr a [more ->]; eexists; by rewrite <- app_assoc.
Qed.

Lemma wp_incl p h (Φ : list Event → A → Prop) : (∀ tr a, h ⊆ tr → Φ tr a) → wp p h Φ.
Proof.
  intros H. eapply wp_mono; [|apply wp_grows]. intros tr a [more ->]. apply H. intros x Hx. apply elem_of_app. by left.
Qed.

Lemma Runs_bind {B} p (f : A → Prog B) : ∀ tr b,
  Runs (pbind p f) tr b ↔ ∃ t1 t2 a, tr = t1 ++ t2 ∧ Runs p t1 a ∧ Runs (f a) t2 b.
Proof.
  induction p as [a|q k IH|k IH|k IH]; cbn; intros tr b;
    [split; [by exists [], tr, a|by intros (? & ? & ? & -> & [-> ->] & ?)]|..];
    (split; [intros (x & tr' & -> & (t1 & t2 & a & -> & ? & ?)%IH); eexists (_ :: t1), t2, a; split_and!; [reflexivity|eauto|done]
            |intros (t1 & t2 & a & -> & (x & tr' & -> & ?) & ?); eexists x, (tr' ++ t2); split; [done|]; apply IH; eauto 10]).
Qed.

(** A jail that answers gives a run: no program waits for ever. *)
Lemma exec_Runs ans clock p : ∀ n, Runs p (exec ans clock n p).1 (exec ans clock n p).2.
Proof.
  induction p as [a|q k IH|k IH|k IH]; cbn; intros n; [done|..].
  - specialize (IH (ans q) (S n)). destruct (exec _ _ _ (k _)) as [tr a] eqn:E. cbn in *. eauto.
  - specialize (IH (clock n) (S n)). destruct (exec _ _ _ (k _)) as [tr a] eqn:E. cbn in *. eauto.
  - specialize (IH None (S n)). destruct (exec _ _ _ (k _)) as [tr a] eqn:E. cbn in *. eauto.
Qed.
End Programs.

Lemma pseq_Runs {A} (ps : list (Prog A)) tr outs : Runs (pseq ps) tr outs →
  ∃ hs, Forall3 Runs ps hs outs ∧ tr = concat hs.
Proof.
  revert tr outs; induction ps as [|p ps IH]; cbn; intros tr outs.
  - intros [-> ->]. exists []. by repeat constructor.
  - intros (t1 & t2 & a & -> & Hp & (t3 & t4 & l & -> & (hs & ? & ->)%IH & [-> ->])%Runs_bind)%Runs_bind.
    exists (t1 :: hs). rewrite app_nil_r. by repeat constructor.
Qed.

(** ** How many runs *)

Definition is_run (e : Event) : bool := match e with EvRun _ _ => true | _ => false end.
Definition runs (tr : list Event) : nat := length (List.filter is_run tr).

(** The program asks for at most [n] runs, whatever it is answered. *)
Fixpoint costs {A} (p : Prog A) (n : nat) : Prop :=
  match p with
  | Ret _ => True
  | Run _ k => match n with O => False | S n' => ∀ r, costs (k r) n' end
  | Now k => ∀ t, costs (k t) n
  | CtxErr k => ∀ e, costs (k e) n
  end.

Lemma runs_app t1 t2 : runs (t1 ++ t2) = runs t1 + runs t2.
Proof. unfold runs. by rewrite List.filter_app, length_app. Qed.
Lemma runs_perm t1 t2 : t1 ≡ₚ t2 → runs t1 = runs t2.
Proof. unfold runs. induction 1; cbn; repeat case_match; cbn; lia. Qed.

Lemma costs_Runs {A} (p : Prog A) : ∀ n tr a, costs p n → Runs p tr a → runs tr <= n.
Proof.
  induction p as [b|q k IH|k IH|k IH]; cbn; intros n tr a Hc.
  - intros [-> _]. unfold runs. cbn. lia.
  - destruct n as [|n]; [done|]. intros (r & tr' & -> & HR). specialize (IH r n tr' a (Hc r) HR). unfold runs in *. cbn. lia.
  - intros (t & tr' & -> & HR). apply (IH t n tr' a (Hc t) HR).
  - intros (e & tr' & -> & HR). apply (IH e n tr' a (Hc e) HR).
Qed.
Lemma costs_le {A} (p : Prog A) : ∀ n m, n <= m → costs p n → costs p m.
Proof.
  induction p as [b|q k IH|k IH|k IH]; cbn; intros n m Hle; [done| |by intros H x; apply (IH x n)..].
  destruct n as [|n]; [done|]. destruct m as [|m]; [lia|]. intros H r. apply (IH r n); [lia|done].
Qed.
Lemma costs_bind {A B} (p : Prog A) (f : A → Prog B) m : ∀ n, costs p n → (∀ a, costs (f a) m) → costs (pbind p f) (n + m).
Proof.
  induction p as [b|q k IH|k IH|k IH]; cbn; intros n Hp Hf; [apply (costs_le _ m); [lia|done]| |by intros x; apply IH..].
  destruct n as [|n]; [done|]. cbn. intros r. by apply IH.
Qed.
Lemma costs_concat {A} (ps : list (Prog A)) hs outs n : Forall3 Runs ps hs outs → Forall (λ p, costs p n) ps →
  runs (concat hs) <= length ps * n.
Proof.
  induction 1 as [|p h o ps hs outs HR _ IH]; cbn [concat length Nat.mul]; intros Hc; [done|].
  apply Forall_cons in Hc as [Hp Hc]. rewrite runs_app. pose proof (costs_Runs p n h o Hp HR). specialize (IH Hc). lia.
Qed.

(** ** The pool of workers *)

Section Pool.
Context {A : Type}.

(** What the loop and the workers do to what they share: the WaitGroup, the channel, and starting a goroutine. *)
Inductive instr : Type := WgAdd | WgDone | WgWait | SemSend | SemRecv | GoWorker (p : Prog A).

(** A turn of the loop, and the loop with the wait after it. *)
Definition launch_one (p : Prog A) : list instr := [WgAdd; SemSend; GoWorker p].
Definition launch (ps : list (Prog A)) : list instr := concat (map launch_one ps) ++ [WgWait].
(** What a worker defers, in the order of its defer statements. *)
Definition worker_defers : list instr := [WgDone; SemRecv].

(** A worker: in the body of its function, or returned, with what is left of its deferred calls. *)
Inductive goroutine : Type := Body (p : Prog A) | Leaving (a : A) (ds : list instr).

(** How many values the channel holds, and the WaitGroup's counter. *)
Definition shared : Type := nat * nat.
(** One of these statements on a channel of capacity [n]; None while it blocks. *)
Definition exec_instr (n : nat) (i : instr) (c : shared) : option shared :=
  match i with
  | WgAdd => Some (c.1, S c.2)
  | WgDone => match c.2 with O => None | S w => Some (c.1, w) end
  | WgWait => if (c.2 =? 0)%nat then Some c else None
  | SemSend => if (c.1 <? n)%nat then Some (S c.1, c.2) else None
  | SemRecv => match c.1 with O => None | S m => Some (m, c.2) end
  | GoWorker _ => None
  end.

Record machine := mkMachine { mc_shared : shared; mc_loop : list instr; mc_workers : list goroutine; mc_trace : list Event }.

(** One move of one worker: the events it adds. Deferred calls run last in, first out. *)
Inductive worker_step (n : nat) : goroutine * shared → list Event → goroutine * shared → Prop :=
| worker_run q k r c : worker_step n (Body (Run q k), c) [EvRun q r] (Body (k r), c)
| worker_now k t c : worker_step n (Body (Now k), c) [EvNow t] (Body (k t), c)
| worker_ctx k e c : worker_step n (Body (CtxErr k), c) [EvCtx e] (Body (k e), c)
| worker_return a c : worker_step n (Body (Ret a), c) [] (Leaving a (rev worker_defers), c)
| worker_defer a i ds c c' : exec_instr n i c = Some c' → worker_step n (Leaving a (i :: ds), c) [] (Leaving a ds, c').

Inductive pool_step (n : nat) : machine → machine → Prop :=
| step_loop i rest c c' gs tr : exec_instr n i c = Some c' → pool_step n (mkMachine c (i :: rest) gs tr) (mkMachine c' rest gs tr)
| step_go p rest c gs tr : pool_step n (mkMachine c (GoWorker p :: rest) gs tr) (mkMachine c rest (gs ++ [Body p]) tr)
| step_worker c c' loop gs1 g g' gs2 tr ev : worker_step n (g, c) ev (g', c') →
    pool_step n (mkMachine c loop (gs1 ++ g :: gs2) tr) (mkMachine c' loop (gs1 ++ g' :: gs2) (tr ++ ev)).

Definition start (ps : list (Prog A)) : machine := mkMachine (0, 0) (launch ps) [] [].
(** What a worker has written by then. *)
Definition written (g : goroutine) : option A := match g with Body _ => None | Leaving a _ => Some a end.

(** The programs ran in a pool of [n] permits: the loop is past its wait, what happened, and what each worker has written. *)
Definition Pool (n : nat) (ps : list (Prog A)) (tr : list Event) (outs : list A) : Prop :=
  ∃ m, rtc (pool_step n) (start ps) m ∧ mc_loop m = [] ∧ mapM written (mc_workers m) = Some outs ∧ mc_trace m = tr.

(** *** The invariant of a pool *)

Definition running (g : goroutine) : bool := match g with Body _ => true | _ => false end.
Definition has_permit (g : goroutine) : bool := match g with Body _ => true | Leaving _ (SemRecv :: _) => true | _ => false end.
Definition unfinished (g : goroutine) : bool := match g with Leaving _ [] => false | _ => true end.
Definition count (f : goroutine → bool) (gs : list goroutine) : nat := length (List.filter f gs).
#[local] Arguments count : simpl never.

(** Where the loop is: what it has not started yet, and what it holds itself of the counter and of the channel. *)
Inductive loop_at : list (Prog A) → list instr → nat → nat → Prop :=
| at_turn ps : loop_at ps (launch ps) 0 0
| at_send p ps : loop_at (p :: ps) (SemSend :: GoWorker p :: launch ps) 1 0
| at_go p ps : loop_at (p :: ps) (GoWorker p :: launch ps) 1 1
| at_end : loop_at [] [] 0 0.

(** A worker is on its way through its own program, with the events [h] behind it. *)
Definition worker_ok (p : Prog A) (h : list Event) (g : goroutine) : Prop :=
  match g with
  | Body p' => ∀ t a, Runs p' t a → Runs p (h ++ t) a
  | Leaving a ds => Runs p h a ∧ ds `suffix_of` [SemRecv; WgDone]
  end.

Record pool_ok (n : nat) (ps : list (Prog A)) (m : machine) : Prop := {
  pk_loop : ∃ started left hs w s, ps = started ++ left ∧ loop_at left (mc_loop m) w s ∧
    (mc_shared m).2 = w + count unfinished (mc_workers m) ∧ (mc_shared m).1 = s + count has_permit (mc_workers m) ∧
    Forall3 worker_ok started hs (mc_workers m) ∧ mc_trace m ≡ₚ concat hs ∧ Forall (λ h, h `sublist_of` mc_trace m) hs;
  pk_cap : (mc_shared m).1 <= n;
  pk_end : mc_loop m = [] → count unfinished (mc_workers m) = 0 }.

Lemma count_app f gs1 gs2 : count f (gs1 ++ gs2) = count f gs1 + count f gs2.
Proof. unfold count. by rewrite List.filter_app, length_app. Qed.
Lemma count_cons f g gs : count f (g :: gs) = (if f g then 1 else 0) + count f gs.
Proof. unfold count. cbn. by destruct (f g). Qed.

Lemma launch_more ps : launch ps ≠ [].
Proof. by destruct ps. Qed.

Lemma pool_ok_start n ps : pool_ok n ps (start ps).
Proof.
  split; [|cbn; lia|by intros E; destruct (launch_more _ E)].
  exists [], ps, [], 0, 0. split_and!; try done; constructor.
Qed.

Lemma launch_inv ps i rest : launch ps = i :: rest → (ps = [] ∧ i = WgWait ∧ rest = []) ∨ ∃ p ps', ps = p :: ps' ∧ i = WgAdd ∧ rest = SemSend :: GoWorker p :: launch ps'.
Proof. destruct ps as [|p ps]; cbn; intros [= <- <-]; [by left|right; by exists p, ps]. Qed.

Lemma at_the_end left w s : loop_at left [] w s → left = [].
Proof. remember [] as loop eqn:E. destruct 1; [by apply launch_more in E|done..]. Qed.

(** A move of a worker keeps what it is counted for and its place in its program. *)
Lemma worker_keeps n p h g c ev g' c' : worker_step n (g, c) ev (g', c') → worker_ok p h g →
  worker_ok p (h ++ ev) g' ∧ c'.1 + (if has_permit g then 1 else 0) = c.1 + (if has_permit g' then 1 else 0) ∧
  c'.2 + (if unfinished g then 1 else 0) = c.2 + (if unfinished g' then 1 else 0) ∧ c'.1 <= c.1.
Proof.
  inversion 1 as [q k r ?|k t ?|k e ?|a ?|a i ds ? ? Hi]; subst; cbn [worker_ok]; intros Hok.
  1-3: split; [intros t' a HR; rewrite <- app_assoc; apply Hok; cbn; by eauto|cbn; lia].
  - split; [split; [by apply Hok|by exists []]|cbn; lia].
  - destruct Hok as [HR Hs]. rewrite app_nil_r. destruct c as [s w], c' as [s' w'].
    apply suffix_cons_inv in Hs as [[= -> ->]|Hs]; [|apply suffix_cons_inv in Hs as [[= -> ->]|Hs%suffix_nil_inv]; [|done]]; cbn in Hi.
    + destruct s as [|s]; [done|]. injection Hi as <- <-. split; [split; [done|by exists [SemRecv]]|cbn; lia].
    + destruct w as [|w]; [done|]. injection Hi as <- <-. split; [split; [done|by exists [SemRecv; WgDone]]|cbn; lia].
Qed.

Lemma Forall3_ends {X Y Z} (P : X → Y → Z → Prop) l k m : Forall3 P l k m → length l = length m.
Proof. induction 1; cbn; congruence. Qed.
Lemma send_Some n c c' : exec_instr n SemSend c = Some c' ↔ c.1 < n ∧ c' = (S c.1, c.2).
Proof. unfold exec_instr. destruct (Nat.ltb_spec c.1 n); split; [by intros [= <-]|by intros [_ ->]|done|lia]. Qed.

Lemma pool_ok_step n ps m m' : pool_step n m m' → pool_ok n ps m → pool_ok n ps m'.
Proof.
  intros Hs [(started & left & hs & w & s & -> & Hl & Ew & Es & Hall & Hp & Hsub) Hcap Hend].
  destruct Hs as [i rest [s0 w0] [s1 w1] gs tr Hi|p rest c gs tr|[s0 w0] [s1 w1] loop gs1 g g' gs2 tr ev Hw]; cbn [mc_shared mc_loop mc_workers mc_trace fst snd] in *.
  - inversion Hl as [ps' E1 E2|p ps'|p ps'|]; subst; try done.
    + apply launch_inv in E2 as [(-> & -> & ->)|(p & ps' & -> & -> & ->)]; cbn in Hi.
      * destruct (Nat.eqb_spec (count unfinished gs) 0) as [E|]; [|done]. injection Hi as <- <-.
        split; cbn; [|lia|done]. exists started, [], hs, 0, 0. split_and!; try done. constructor.
      * injection Hi as <- <-. split; cbn; [|lia|done]. exists started, (p :: ps'), hs, 1, 0. split_and!; try done. constructor.
    + apply send_Some in Hi as [? [= -> ->]]. cbn in *.
      split; cbn; [|lia|done]. exists started, (p :: ps'), hs, 1, 1. split_and!; try done. constructor.
  - inversion Hl as [ps' E1 E2|p' ps'|p' ps'|]; subst; [by apply launch_inv in E2 as [(_ & ? & _)|(? & ? & _ & ? & _)]|].
    split; cbn [mc_shared mc_loop mc_workers mc_trace fst snd]; [|done|by intros E; destruct (launch_more _ E)]. exists (started ++ [p]), ps', (hs ++ [[]]), 0, 0.
    rewrite !count_app, concat_app, !count_cons. cbn [running has_permit unfinished concat]. rewrite !app_nil_r. split_and!; [by rewrite <- app_assoc|constructor|change (count unfinished []) with 0; lia|change (count has_permit []) with 0; lia| |done|].
    + apply Forall3_app; [done|]. constructor; [|constructor]. by intros t a.
    + apply Forall_app. split; [done|]. constructor; [apply sublist_nil_l|constructor].
  - apply Forall3_app_inv_r in Hall as (p1 & p2 & h1 & h2 & -> & -> & H1 & H2).
    inversion H2 as [|p h ? ps' hs' ? Hok H2' E1 E2 E3]. subst. clear H2.
    destruct (worker_keeps _ _ _ _ _ _ _ _ Hw Hok) as (Hok' & Hc1 & Hc2 & Hc3). cbn [fst snd] in *.
    rewrite !count_app, !count_cons in *. apply Forall_app in Hsub as [Hs1 [Hh Hs2]%Forall_cons].
    split; cbn [mc_shared mc_loop mc_workers mc_trace fst snd]; rewrite ?count_app, ?count_cons.
    + exists (p1 ++ p :: ps'), left, (h1 ++ (h ++ ev) :: hs'), w, s. split_and!; try done; [lia|lia|by apply Forall3_app; [|constructor]| |].
      * rewrite Hp, !concat_app. cbn [concat]. rewrite <- !app_assoc. do 2 apply Permutation_app_head. apply Permutation_app_comm.
      * apply Forall_app. split; [|constructor]; [eapply Forall_impl; [exact Hs1|]; intros x Hx; by apply sublist_inserts_r|by apply sublist_app
          |eapply Forall_impl; [exact Hs2|]; intros x Hx; by apply sublist_inserts_r].
    + lia.
    + intros E. specialize (Hend E). destruct (unfinished g) eqn:Eg; [lia|]. destruct g as [|a []]; try done. inversion Hw.
Qed.

Lemma pool_ok_reach n ps m : rtc (pool_step n) (start ps) m → pool_ok n ps m.
Proof.
  intros Hr. eapply (rtc_ind_r (λ m, pool_ok n ps m)); [apply pool_ok_start| |exact Hr]. intros. by eapply pool_ok_step.
Qed.

(** *** Nothing is stuck, and it ends *)

Lemma running_permit gs : count running gs <= count has_permit gs.
Proof. induction gs as [|g gs IH]; [done|]. rewrite !count_cons. destruct g as [|a [|[]]]; cbn; lia. Qed.
Lemma count_one f gs : count f gs ≠ 0 → ∃ gs1 g gs2, gs = gs1 ++ g :: gs2 ∧ f g = true.
Proof.
  induction gs as [|g gs IH]; [done|]. rewrite count_cons. destruct (f g) eqn:E; [intros _; by exists [], g, gs|].
  intros (gs1 & g' & gs2 & -> & ?)%IH. by exists (g :: gs1), g', gs2.
Qed.
Lemma all_written gs : count unfinished gs = 0 → ∃ outs, mapM written gs = Some outs ∧ gs = map (λ a, Leaving a []) outs.
Proof.
  induction gs as [|g gs IH]; [by exists []|]. rewrite count_cons. destruct g as [|a [|]]; cbn; try lia. intros (outs & E & ->)%IH.
  exists (a :: outs). cbn. by rewrite E.
Qed.

(** Past the wait, and every worker has returned and run its deferred calls. *)
Definition over (ps : list (Prog A)) (m : machine) : Prop := mc_loop m = [] ∧ ∃ outs, mc_workers m = map (λ a, Leaving a []) outs ∧ length outs = length ps.

Lemma pool_progress n ps m : 0 < n → pool_ok n ps m → over ps m ∨ ∃ m', pool_step n m m'.
Proof.
  intros Hn [(started & left & hs & w & s & -> & Hl & Ew & Es & Hall & _) _ _]. destruct m as [[s0 w0] loop gs tr]. cbn in *.
  destruct (decide (count unfinished gs = 0)) as [E|(gs1 & g & gs2 & -> & Hg)%count_one].
  - destruct (all_written gs E) as (outs & _ & Eg). assert (count has_permit gs = 0) as Eh by (rewrite Eg; clear; by induction outs).
    destruct Hl as [[|p ps']|p ps'|p ps'|].
    + right. eexists. apply step_loop with (c' := (s0, w0)). by replace w0 with 0 by lia.
    + right. eexists. by apply step_loop.
    + right. eexists. apply step_loop, send_Some. cbn. split; [lia|done].
    + right. eexists. apply step_go.
    + left. split; [done|]. exists outs. split; [done|]. apply Forall3_ends in Hall. rewrite Eg, length_map in Hall. rewrite app_nil_r. lia.
  - right. apply Forall3_app_inv_r in Hall as (p1 & p2 & h1 & h2 & -> & -> & _ & H2). apply Forall3_cons_inv_r in H2 as (p & ps' & h & hs' & -> & -> & Hok & _).
    rewrite !count_app, !count_cons, Hg in *.
    assert (∃ ev g' c', worker_step n (g, (s0, w0)) ev (g', c')) as (ev & g' & c' & Hw).
    { destruct g as [[a|q k|k|k]|a ds]; [by do 3 eexists; constructor|exists [EvRun q (mkRunRes true "" None)]; by do 2 eexists; constructor
        |exists [EvNow 0]; by do 2 eexists; constructor|exists [EvCtx None]; by do 2 eexists; constructor|].
      destruct Hok as [_ Hs]. destruct ds as [|i ds]; [done|]. exists [], (Leaving a ds).
      apply suffix_cons_inv in Hs as [[= -> ->]|Hs]; [|apply suffix_cons_inv in Hs as [[= -> ->]|Hs%suffix_nil_inv]; [|done]]; cbn in *.
      - destruct s0 as [|s0]; [lia|]. exists (s0, w0). by constructor.
      - destruct w0 as [|w0]; [lia|]. exists (s0, w0). by constructor. }
    eexists. by apply (step_worker n (s0, w0) c').
Qed.

(** A worker moves finitely often, whatever it is answered. *)
Definition later (g' g : goroutine) : Prop := ∃ n ev c c', worker_step n (g, c) ev (g', c').
Lemma later_Leaving a ds : Acc later (Leaving a ds).
Proof. induction ds as [|i ds IH]; constructor; intros g' (n & ev & c & c' & Hs); by inversion Hs; subst. Qed.
Lemma later_wf g : Acc later g.
Proof.
  destruct g as [p|a ds]; [|apply later_Leaving].
  induction p as [a|q k IH|k IH|k IH]; constructor; intros g' (n & ev & c & c' & Hs); inversion Hs; subst; [apply later_Leaving|apply IH..].
Qed.

(** One component of a list moves. *)
Definition laters l' l : Prop := ∃ l1 s s' l2, l = l1 ++ s :: l2 ∧ l' = l1 ++ s' :: l2 ∧ later s' s.
Lemma laters_cons s l : Acc later s → Acc laters l → Acc laters (s :: l).
Proof.
  intros Hs. revert l. induction Hs as [s _ IHs]. intros l Hl. induction Hl as [l Hl IHl].
  constructor. intros l' (l1 & x & x' & l2 & E & -> & Hx). destruct l1 as [|y l1]; injection E as -> ->.
  - apply IHs; [done|]. by constructor.
  - apply IHl. by exists l1, x, x', l2.
Qed.
Lemma laters_wf l : Acc laters l.
Proof.
  induction l as [|s l IH]; [constructor; intros l' ([] & ? & ? & ? & ? & _); discriminate|].
  apply laters_cons; [apply later_wf|done].
Qed.
Lemma pool_wf n m : Acc (λ m' m, pool_step n m m') m.
Proof.
  destruct m as [c loop gs tr]. revert c gs tr. induction loop as [|i loop IH]; intros c gs; revert c; induction (laters_wf gs) as [gs _ IHg]; intros c tr;
    constructor; intros m' Hs; inversion Hs; subst; try apply IH.
  all: apply IHg; do 4 eexists; split_and!; [done..|]; by do 4 eexists.
Qed.

(** C34. The scorer's pool is safe and ends, under every interleaving of its goroutines and every answer of
    the jail. From the start on at most as many workers are in their bodies as the channel has room for; a state that is not over can always
    move, so that no send, receive or wait blocks for ever and the WaitGroup's counter is never taken below zero; the loop is past its wait only when
    every program was started and every worker has written its outcome and run its deferred calls; and no schedule is infinite. *)
Theorem pool_terminates n (ps : list (Prog A)) : 0 < n →
  (∀ m, rtc (pool_step n) (start ps) m →
     count running (mc_workers m) <= n ∧ (over ps m ∨ ∃ m', pool_step n m m') ∧ (mc_loop m = [] → over ps m)) ∧
  Acc (λ m' m, pool_step n m m') (start ps).
Proof.
  intros Hn. split; [|apply pool_wf]. intros m Hr%pool_ok_reach. pose proof Hr as [(started & left & hs & w & s & -> & Hl & _ & Es & Hall & _) Hcap Hend].
  split_and!; [pose proof (running_permit (mc_workers m)); lia|by apply pool_progress|]. intros E. split; [done|].
  destruct (all_written _ (Hend E)) as (outs & _ & Eg). exists outs. split; [done|].
  rewrite E in Hl. apply at_the_end in Hl as ->. apply Forall3_ends in Hall. rewrite Eg, length_map in Hall. rewrite app_nil_r. lia.
Qed.

(** *** What happened is each worker's own run *)

(** Whatever the interleaving, each worker ran as its own program would, its events are
    in the trace in their order, and the trace holds nothing else. *)
Theorem Pool_Runs n ps tr outs : Pool n ps tr outs →
  ∃ hs, Forall3 Runs ps hs outs ∧ tr ≡ₚ concat hs ∧ Forall (λ h, h `sublist_of` tr) hs.
Proof.
  intros (m & Hr%pool_ok_reach & E & Hout & <-). destruct Hr as [(started & left & hs & w & s & -> & Hl & _ & _ & Hall & Hp & Hsub) _ _].
  exists hs. split; [|done]. rewrite E in Hl. apply at_the_end in Hl as ->. rewrite app_nil_r. clear -Hall Hout.
  revert outs Hout. induction Hall as [|p h g ps hs gs Hok _ IH]; cbn; intros outs; [intros [= <-]; constructor|].
  destruct g as [|a ds]; [done|]. cbn. destruct (mapM written gs) as [outs'|]; [|done]. intros [= <-]. constructor; [by destruct Hok|by apply IH].
Qed.

(** *** One after another *)

Lemma worker_runs n c loop gs p a : ∀ tr t, Runs p t a →
  rtc (pool_step n) (mkMachine c loop (gs ++ [Body p]) tr) (mkMachine c loop (gs ++ [Leaving a (rev worker_defers)]) (tr ++ t)).
Proof.
  induction p as [b|q k IH|k IH|k IH]; cbn [Runs]; intros tr t;
    [intros [-> ->]; apply rtc_once; apply step_worker; constructor
    |intros (x & t' & -> & HR)..];
    (rewrite (cons_middle _ tr), (assoc_L (++)); (eapply rtc_l; [|by apply IH]); apply step_worker; constructor).
Qed.

Lemma turn_runs n ps gs p a tr t : 0 < n → Runs p t a →
  rtc (pool_step n) (mkMachine (0, 0) (launch (p :: ps)) gs tr) (mkMachine (0, 0) (launch ps) (gs ++ [Leaving a []]) (tr ++ t)).
Proof.
  intros Hn HR. change (launch (p :: ps)) with (WgAdd :: SemSend :: GoWorker p :: launch ps).
  eapply rtc_l; [by apply (step_loop n WgAdd _ _ (0, 1))|]. eapply rtc_l; [by apply (step_loop n SemSend _ _ (1, 1)), send_Some|].
  eapply rtc_l; [apply step_go|]. etrans; [by apply worker_runs|]. cbn [rev worker_defers app].
  eapply rtc_l; [apply (step_worker n _ (0, 1) _ gs _ (Leaving a [WgDone])); by constructor|]. eapply rtc_l; [apply (step_worker n _ (0, 0) _ gs _ (Leaving a [])); by constructor|].
  by rewrite !app_nil_r.
Qed.

(** Scoring the mutants in order, as a scorer of no concurrency does, is one of the schedules. *)
Lemma pseq_Pool n ps tr outs : 0 < n → Runs (pseq ps) tr outs → Pool n ps tr outs.
Proof.
  intros Hn (hs & Hall & ->)%pseq_Runs. exists (mkMachine (0, 0) [] (map (λ a, Leaving a []) outs) (concat hs)).
  split_and!; [|done|clear; induction outs as [|a outs IH]; [done|cbn in *; by rewrite IH]|done]. unfold start.
  change (map _ outs) with ([] ++ map (λ a, Leaving a []) outs). change (concat hs) with ([] ++ concat hs).
  generalize (@nil Event) as tr. generalize (@nil goroutine) as gs.
  induction Hall as [|p h a ps hs outs HR _ IH]; intros gs tr; cbn [map concat].
  - rewrite !app_nil_r. apply rtc_once. by apply step_loop.
  - etrans; [by eapply turn_runs|]. specialize (IH (gs ++ [Leaving a []]) (tr ++ h)). by rewrite <- !app_assoc in IH.
Qed.
End Pool.
