(* ===== verification/Score.v ===== *)
(** * The adequacy scorer: internal/adequacy/score.go (Score)

    A suite is run on the code and on each of its mutants, and every failing run is a
    candidate that is confirmed before it is a kill. The scorer is a program over the jail
    ([Jail.Prog]): a prologue (the baseline, the canary, the stop-at-first-failure
    probe, the compile gate's probe, the proof of each narrowed command), one grading
    program per distinct mutant, run in order or in a pool, and an epilogue (the
    confirmations, in order, then the report). [Scored] is what a call may do;
    [Score] is the program of a call without concurrency. Durations are nanoseconds;
    a message is a value of the types [Reason], [Doubt], [ScoreErr]; log lines
    are left out. The theorems are in ScoreFacts. *)
From S2P Require Import Prelude GoLib GoText Crypto TestMap Float64 Invocations Mutant Jail.
Local Open Scope string_scope.
Local Open Scope list_scope.
Local Open Scope Z_scope.
Local Open Scope prog_scope.

(** ** Timeouts *)

Definition second : Z := 1000000000.
Definition minMutantTimeout : Z := 30 * second.
Definition maxMutantTimeout : Z := 300 * second.
Definition mutantTimeoutMultiple : Z := 3.

Definition clampMutantTimeout (baseDur : Z) : Z :=
  let d := w64 (baseDur * mutantTimeoutMultiple) in
  if d <? minMutantTimeout then minMutantTimeout
  else if maxMutantTimeout <? d then maxMutantTimeout else d.

(** ** Options, and what a jail can do *)

Record MutantCommand := mkMutantCommand { mc_Cmd : list string; mc_Tests : Z; mc_Rule : string }.
(** A runner's reader of its output; the second field where it is a FlakyReporter too. *)
Record FailureParser := mkFailureParser { fp_FirstFailure : string → string; fp_FlakyTests : option (string → list string) }.

Record scoreConfig := mkConfig {
  sc_capFloor : Z; sc_mutantTimeout : Z; sc_concurrency : Z; sc_mutantCompileCheck : list (list string);
  sc_commandFor : option (Mutant → MutantCommand); sc_failureParser : option FailureParser;
  sc_failFast : option (list string → option (list string));
  sc_killConfirmer : option (list string → string → option (list string)) }.

(** Whether the jail is a VerboseJail, and a DetailedJail. *)
Record JailKind := mkJailKind { jk_Verbose : bool; jk_Detailed : bool }.

(** ** The report *)

Inductive Confirmation := NotCandidate | KillConfirmedAlone | KillConfirmedRepeated | KillConfirmedReprobed | KillNotRepeated.

Record MutantGrading := mkGrading {
  mg_TestsRun : Z; mg_Rule : string; mg_Duration : Z; mg_KilledBy : string;
  mg_KillConfirmation : Confirmation; mg_UnrepeatedKilledBy : string }.

(** Why a mutant never sat the exam. *)
Inductive Reason :=
| ReasonAnchor (e : ApplyErr)
| ReasonSlowBuild (cap probe : Z) (cmd : list string)
| ReasonOutput (out : string).
Definition has_reason (r : Reason) : bool := match r with ReasonOutput "" => false | _ => true end.

(** Why what a command said of a mutant is no evidence. *)
Inductive Doubt :=
| FailsOnCompliant (cmd : list string) (why : string)
| NeverReaches (cmd : list string)
| NotConfirmed (gradeCmd : list string).

Inductive FailFastNote := NoNote | AlreadyStops | ProbeFailed (args : list string) (e : JailErr) | NotAccepted (args : list string) | NoSureFlag.

Inductive GateNote :=
| GateCouldNotRun (cmd : list string) (e : JailErr)
| GateRejects (cmd : list string) (out : string)
| GateSkippedOn (n : nat).

Inductive ScoreErr :=
| ErrRun (e : JailErr)
| ErrCancelled (e : JailErr)
| ErrGateProbe (e : JailErr)
| ErrProving (cmd : list string) (e : JailErr)
| ErrReaching (cmd : list string) (e : JailErr)
| ErrUnstable (id : string) (cap : Z)
| ErrLoaded (id : string) (cap : Z)
| ErrApply (e : ApplyErr)
| ErrConfirming (id : string) (e : ScoreErr).

Record Report := mkReport {
  rp_CompliantPass : bool; rp_CanaryKilled : bool; rp_BaselineOutput : string; rp_BaselineFlaky : list string;
  rp_BaselineDuration : Z; rp_BaselineTimedOut : bool; rp_FailFast : bool; rp_DuplicateMutants : Z;
  rp_FailFastNote : FailFastNote; rp_Total : Z; rp_Killed : list string; rp_Survived : list string;
  rp_Invalid : list string; rp_InvalidReasons : gmap string Reason; rp_Unmeasured : list string;
  rp_UnmeasuredReasons : gmap string Doubt; rp_CompileGateNote : list GateNote;
  rp_PerMutant : gmap string MutantGrading; rp_MutantDurationMedian : Z; rp_MutantDurationMax : Z;
  rp_ConfirmDuration : Z }.

(** The report of a baseline, before any mutant is looked at. *)
Definition baseline_report (pass timedOut : bool) (out : string) (flaky : list string) (dur : Z) : Report :=
  mkReport pass false out flaky dur timedOut false 0 NoNote 0 [] [] [] ∅ [] ∅ [] ∅ 0 0 0.
Definition with_canary (r : Report) (killed : bool) : Report :=
  match r with mkReport p _ o f d t ff du fn to k s i ir u ur g pm me ma c => mkReport p killed o f d t ff du fn to k s i ir u ur g pm me ma c end.
Definition with_failfast (r : Report) (used : bool) (note : FailFastNote) : Report :=
  match r with mkReport p ck o f d t _ du _ to k s i ir u ur g pm me ma c => mkReport p ck o f d t used du note to k s i ir u ur g pm me ma c end.
Definition with_gate (r : Report) (notes : list GateNote) : Report :=
  match r with mkReport p ck o f d t ff du fn to k s i ir u ur _ pm me ma c => mkReport p ck o f d t ff du fn to k s i ir u ur notes pm me ma c end.
Definition with_run (r : Report) (dupes confirm : Z) : Report :=
  match r with mkReport p ck o f d t ff _ fn to k s i ir u ur g pm me ma _ => mkReport p ck o f d t ff dupes fn to k s i ir u ur g pm me ma confirm end.

Definition command_key (cmd : list string) : string := String.concat (String (byte 0) "") cmd.

Fixpoint trim_newlines (s : string) : string :=
  match s with
  | "" => ""
  | String a s' => let t := trim_newlines s' in if Ascii.eqb a newline && String.eqb t "" then "" else String a t
  end.
Definition lastLines (s : string) (n : nat) : string :=
  let lines := split_on newline (trim_newlines s) in
  String.concat (String newline "") (drop (length lines - n) lines).

Definition CanaryCode : string := "!!!corral canary!!!".

(** ** Outcomes *)

Record outcome := mkOutcome {
  oc_killed : bool; oc_candidate : bool; oc_cmd : list string; oc_gradeCmd : list string; oc_err : option ScoreErr;
  oc_invalid : option Reason; oc_unmeasured : option Doubt; oc_grading : option MutantGrading; oc_gateSkipped : bool }.
Definition no_outcome : outcome := mkOutcome false false [] [] None None None None false.
Definition o_err (e : ScoreErr) : outcome := mkOutcome false false [] [] (Some e) None None None false.
Definition o_invalid (r : Reason) : outcome := mkOutcome false false [] [] None (Some r) None None false.
Definition o_unmeasured (d : Doubt) (g : MutantGrading) : outcome := mkOutcome false false [] [] None None (Some d) (Some g) false.
Definition with_skip (skipped : bool) (o : outcome) : outcome :=
  if skipped then
    match o with mkOutcome k c cm gc e i u g _ => mkOutcome k c cm gc e i u g true end
  else o.
Definition with_err (o : outcome) (e : ScoreErr) : outcome :=
  match o with mkOutcome k c cm gc _ i u g s => mkOutcome k c cm gc (Some e) i u g s end.

Definition add_reason (ir : gmap string Reason) (id : string) (r : Reason) : gmap string Reason :=
  if has_reason r then <[id := r]> ir else ir.

Definition timed_out (e : JailErr) : bool := je_TestTimeout e.
Definition out_of_time (e : JailErr) : bool := je_TestTimeout e || je_DeadlineExceeded e.

Section Scorer.
Context {dg : Digest}.
Variable jk : JailKind.
Variable base : gmap string string.
Variables codePath compliantCode : string.
Variable mutants : list Mutant.
Variable testCmd : list string.
Variable cfg : scoreConfig.
(** The order in which a range over a map of commands visits it. *)
Variable rangeMap : gmap string (list string) → list (string * list string).

(** ** Runs *)

Definition files_with (code : string) : gmap string string := <[codePath := code]> base.

Definition runCmd (cap : option Z) (code : string) (cmd : list string) : Prog (bool * option JailErr) :=
  Run (mkRunReq ViaRunTest (files_with code) cmd cap) (λ r, Ret (rr_Pass r, rr_Err r)).
Definition runCmdDetailed (cap : option Z) (code : string) (cmd : list string) : Prog (bool * string * option JailErr) :=
  Run (mkRunReq ViaDetailed (files_with code) cmd cap) (λ r, Ret (rr_Pass r, rr_Out r, rr_Err r)).
Definition runCmdVerbose (cap : option Z) (code : string) (cmd : list string) : Prog (bool * string * option JailErr) :=
  if jk_Verbose jk then Run (mkRunReq ViaVerbose (files_with code) cmd cap) (λ r, Ret (rr_Pass r, rr_Out r, rr_Err r))
  else let* (pass, err) := runCmd cap code cmd in Ret (pass, "", err).
Definition baselineRun (code : string) : Prog (bool * string * option JailErr) :=
  if jk_Detailed jk then runCmdDetailed None code testCmd else runCmdVerbose None code testCmd.

Definition nameKiller : bool := bool_decide (is_Some (sc_failureParser cfg)) && jk_Detailed jk.
Definition first_failure (out : string) : string :=
  match sc_failureParser cfg with Some fp => fp_FirstFailure fp out | None => "" end.
Definition flaky_tests (out : string) : list string :=
  match sc_failureParser cfg with
  | Some fp => match fp_FlakyTests fp with Some f => f out | None => [] end
  | None => []
  end.

(** ** Caps *)

Definition clamp (d : Z) : Z :=
  let x := w64 (d * mutantTimeoutMultiple) in
  if (0 <? sc_capFloor cfg) && (x <? sc_capFloor cfg) then sc_capFloor cfg
  else if (0 <? sc_capFloor cfg) && (x <? minMutantTimeout) then x
  else clampMutantTimeout d.

(** What the prologue leaves to the rest. *)
Record Setup := mkSetup {
  su_rep : Report; su_perMutant : Z; su_args : option (list string); su_gate : list (list string);
  su_gateCap : Z; su_gateProbe : Z; su_commandBaseline : gmap string Z;
  su_commandFails : gmap string string; su_neverReaches : gset string }.

Definition failFast (args : option (list string)) (cmd : list string) : list string :=
  match args with None => cmd | Some a => AppendFailFast cmd a end.

Definition capFor (su : Setup) (rawCmd : list string) : Z :=
  if 0 <? sc_mutantTimeout cfg then sc_mutantTimeout cfg
  else match su_commandBaseline su !! command_key rawCmd with Some d => clamp d | None => su_perMutant su end.

(** ** The prologue *)

(** The stop-at-first-failure probe: the arguments, when proven, and the note. *)
Definition probeFailFast (perMutant : Z) : Prog (option (list string) * FailFastNote) :=
  match sc_failFast cfg, mutants with
  | Some ff, _ :: _ =>
      match ff testCmd with
      | None => Ret (None, NoSureFlag)
      | Some args =>
          let probeCmd := AppendFailFast testCmd args in
          if (length probeCmd =? length testCmd)%nat then Ret (None, AlreadyStops)
          else
            let* (pass, err) := runCmd (Some perMutant) compliantCode probeCmd in
            Ret match err with
                | Some e => (None, ProbeFailed args e)
                | None => if pass then (Some args, NoNote) else (None, NotAccepted args)
                end
      end
  | _, _ => Ret (None, NoNote)
  end.

(** The compile gate on the compliant file: a note when it is switched off. *)
Fixpoint probeGate (cmds : list (list string)) : Prog (result ScoreErr (option GateNote)) :=
  match cmds with
  | [] => Ret (Ok None)
  | cmd :: rest =>
      let* (ok, out, gerr) := runCmdVerbose None compliantCode cmd in
      match gerr with
      | Some e =>
          CtxErr (λ cerr, Ret match cerr with Some ce => Err (ErrGateProbe ce) | None => Ok (Some (GateCouldNotRun cmd e)) end)
      | None => if ok then probeGate rest else Ret (Ok (Some (GateRejects cmd (trim_space (lastLines out 6)))))
      end
  end.

(** The distinct narrowed commands of the mutants, by key. *)
Definition narrowed (f : Mutant → MutantCommand) : gmap string (list string) :=
  foldl (λ acc m, let cmd := mc_Cmd (f m) in
           if bool_decide (cmd = []) || String.eqb (command_key cmd) (command_key testCmd) then acc
           else <[command_key cmd := cmd]> acc) ∅ mutants.

(** What is known of the narrowed commands: how long the compliant run takes, which fail
    on the compliant code, which never reach the file. *)
Definition Proven : Type := gmap string Z * gmap string string * gset string.

Fixpoint proveCommands (perMutant : Z) (args : option (list string)) (l : list (string * list string)) (known : Proven)
    : Prog (result ScoreErr Proven) :=
  match l with
  | [] => Ret (Ok known)
  | (key, cmd) :: rest =>
      let '(durs, fails, never) := known in
      Now (λ pstart,
      let* (passed, out, perr) := runCmdVerbose (Some perMutant) compliantCode (failFast args cmd) in
      Now (λ pend,
      let durs := <[key := pend - pstart]> durs in
      match perr with
      | Some e => Ret (Err (ErrProving cmd e))
      | None =>
          if negb passed then proveCommands perMutant args rest (durs, <[key := trim_space (lastLines out 12)]> fails, never)
          else
            let* (cpass, cerr) := runCmd (Some perMutant) CanaryCode cmd in
            match cerr with
            | Some e => if timed_out e then proveCommands perMutant args rest (durs, fails, never) else Ret (Err (ErrReaching cmd e))
            | None => proveCommands perMutant args rest (durs, fails, if cpass then {[ key ]} ∪ never else never)
            end
      end))
  end.

(** A call stops in the prologue, with its result, or goes on to grade. *)
Inductive Started := Stopped (r : result ScoreErr Report) | Going (su : Setup).

(** The gate's probe and cap, and the proof of the narrowed commands. *)
Definition prove (rep : Report) (perMutant : Z) (args : option (list string)) (gate : list (list string)) (gateCap gateProbe : Z)
    : Prog Started :=
  let going known :=
    let '(durs, fails, never) := known in Going (mkSetup rep perMutant args gate gateCap gateProbe durs fails never) in
  match sc_commandFor cfg with
  | None => Ret (going (∅, ∅, ∅))
  | Some f =>
      let* r := proveCommands perMutant args (rangeMap (narrowed f)) (∅, ∅, ∅) in
      Ret match r with Ok known => going known | Err e => Stopped (Err e) end
  end.

Definition gated (rep : Report) (perMutant : Z) (args : option (list string)) : Prog Started :=
  match sc_mutantCompileCheck cfg with
  | [] => prove rep perMutant args [] perMutant 0
  | gate =>
      Now (λ probeStart,
      let* r := probeGate gate in
      match r with
      | Err e => Ret (Stopped (Err e))
      | Ok note =>
          Now (λ probeEnd,
          let gateProbe := probeEnd - probeStart in
          let gateCap := Z.max perMutant (w64 (gateProbe * mutantTimeoutMultiple)) in
          match note with
          | None => prove rep perMutant args gate gateCap gateProbe
          | Some n => prove (with_gate rep [n]) perMutant args [] gateCap gateProbe
          end)
      end)
  end.

Definition probed (rep : Report) (baseDur : Z) : Prog Started :=
  let perMutant := if sc_mutantTimeout cfg <=? 0 then clamp baseDur else sc_mutantTimeout cfg in
  let* (args, note) := probeFailFast perMutant in
  gated (with_failfast rep (bool_decide (is_Some args)) note) perMutant args.

Definition prologue : Prog Started :=
  Now (λ start,
  let* (pass, baseOut, err) := baselineRun compliantCode in
  Now (λ finish,
  let baseDur := finish - start in
  match err with
  | Some e => Ret (Stopped (if timed_out e then Ok (baseline_report false true baseOut [] baseDur) else Err (ErrRun e)))
  | None =>
      if negb pass then Ret (Stopped (Ok (baseline_report false false baseOut [] baseDur)))
      else
        let rep := baseline_report true false "" (flaky_tests baseOut) baseDur in
        match mutants with
        | [] => probed rep baseDur
        | _ :: _ =>
            let* (cpass, cerr) := runCmd None CanaryCode testCmd in
            match cerr with
            | Some e => if timed_out e then probed (with_canary rep true) baseDur else Ret (Stopped (Err (ErrRun e)))
            | None => if cpass then Ret (Stopped (Ok rep)) else probed (with_canary rep true) baseDur
            end
        end
  end)).

(** ** Duplicates *)

Definition dedupeKey : Type := MutantIdentity * string.
Definition key_of (m : Mutant) : dedupeKey :=
  (IdentityOf m, match sc_commandFor cfg with
                 | Some f => if bool_decide (mc_Cmd (f m) = []) then "" else command_key (mc_Cmd (f m))
                 | None => ""
                 end).

Fixpoint seen_at (k : dedupeKey) (firstSeen : list (dedupeKey * nat)) : option nat :=
  match firstSeen with
  | [] => None
  | (k', j) :: rest => if bool_decide (k = k') then Some j else seen_at k rest
  end.

(** repOf: for each mutant the position of the first one of its key. *)
Fixpoint reps_from (i : nat) (firstSeen : list (dedupeKey * nat)) (ms : list Mutant) : list nat :=
  match ms with
  | [] => []
  | m :: ms' =>
      match seen_at (key_of m) firstSeen with
      | Some j => j :: reps_from (S i) firstSeen ms'
      | None => i :: reps_from (S i) ((key_of m, i) :: firstSeen) ms'
      end
  end.
Definition repOf : list nat := reps_from 0 [] mutants.

Definition is_rep (i : nat) : bool := bool_decide (repOf !! i = Some i).
(** The mutants graded, with their positions. *)
Definition representatives : list (nat * Mutant) := List.filter (λ im, is_rep im.1) (imap pair mutants).
Definition duplicates : Z := Z.of_nat (length mutants - length representatives).

(** ** Grading one mutant *)

(** The compile gate on one mutant: past it, skipped, or the outcome that ends the grading. *)
Inductive GateVerdict := GatePassed | GateSkipped | GateEnds (o : outcome).

Fixpoint runGate (su : Setup) (code : string) (cmds : list (list string)) : Prog GateVerdict :=
  match cmds with
  | [] => Ret GatePassed
  | cmd :: rest =>
      let* (ok, out, err) := runCmdVerbose (Some (su_gateCap su)) code cmd in
      match err with
      | Some e =>
          CtxErr (λ cerr, Ret match cerr with
            | Some ce => GateEnds (o_err (ErrCancelled ce))
            | None => if out_of_time e then GateEnds (o_invalid (ReasonSlowBuild (su_gateCap su) (su_gateProbe su) cmd)) else GateSkipped
            end)
      | None => if ok then runGate su code rest else Ret (GateEnds (o_invalid (ReasonOutput (trim_space out))))
      end
  end.

(** The command a mutant is graded with, and its record. *)
Definition command_of (m : Mutant) : list string :=
  match sc_commandFor cfg with
  | Some f => if bool_decide (mc_Cmd (f m) = []) then testCmd else mc_Cmd (f m)
  | None => testCmd
  end.
Definition blank_grading (m : Mutant) : MutantGrading :=
  match sc_commandFor cfg with
  | Some f => mkGrading (mc_Tests (f m)) (mc_Rule (f m)) 0 "" NotCandidate ""
  | None => mkGrading 0 "" 0 "" NotCandidate ""
  end.
Definition timed (g : MutantGrading) (d : Z) : MutantGrading :=
  mkGrading (mg_TestsRun g) (mg_Rule g) d (mg_KilledBy g) (mg_KillConfirmation g) (mg_UnrepeatedKilledBy g).
Definition blaming (g : MutantGrading) (killer : string) (c : Confirmation) (unrepeated : string) : MutantGrading :=
  mkGrading (mg_TestsRun g) (mg_Rule g) (mg_Duration g) killer c unrepeated.
Definition confirmed_as (g : MutantGrading) (c : Confirmation) : MutantGrading := blaming g (mg_KilledBy g) c (mg_UnrepeatedKilledBy g).

(** A grading run that timed out: the same command on the compliant code, in the same cap,
    says whether the mutant hangs or the machine does. *)
Definition reprobe (m : Mutant) (gradeCmd : list string) (cap : Z) (g : MutantGrading) : Prog outcome :=
  let* (bpassed, berr) := runCmd (Some cap) compliantCode gradeCmd in
  Ret match berr with
      | None =>
          if negb bpassed then o_err (ErrUnstable (mt_ID m) cap)
          else mkOutcome true false [] [] None None None (Some (confirmed_as g KillConfirmedReprobed)) false
      | Some be => if timed_out be then o_err (ErrLoaded (mt_ID m) cap) else o_err (ErrRun be)
      end.

Definition grading_run (cap : Z) (code : string) (gradeCmd : list string) : Prog (bool * string * option JailErr) :=
  if nameKiller then
    let* (passed, out, err) := runCmdDetailed (Some cap) code gradeCmd in
    Ret (passed, if bool_decide (err = None) && negb passed then first_failure out else "", err)
  else let* (passed, err) := runCmd (Some cap) code gradeCmd in Ret (passed, "", err).

Definition grade (su : Setup) (m : Mutant) (code : string) : Prog outcome :=
  let cmd := command_of m in
  let g := blank_grading m in
  match su_commandFails su !! command_key cmd with
  | Some why => Ret (o_unmeasured (FailsOnCompliant cmd why) g)
  | None =>
      if bool_decide (command_key cmd ∈ su_neverReaches su) then Ret (o_unmeasured (NeverReaches cmd) g)
      else
        let cap := capFor su cmd in
        let gradeCmd := failFast (su_args su) cmd in
        Now (λ mstart,
        let* (passed, killedBy, err) := grading_run cap code gradeCmd in
        Now (λ mend,
        let g := timed g (mend - mstart) in
        match err with
        | Some e => if timed_out e then reprobe m gradeCmd cap g else Ret (o_err (ErrRun e))
        | None =>
            let g := if passed then g else blaming g killedBy NotCandidate "" in
            Ret (mkOutcome (negb passed) (negb passed) cmd gradeCmd None None None (Some g) false)
        end))
  end.

Definition scoreOne (su : Setup) (m : Mutant) : Prog outcome :=
  match Apply m compliantCode with
  | Err e => Ret (o_invalid (ReasonAnchor e))
  | Ok code =>
      let* v := runGate su code (su_gate su) in
      match v with
      | GateEnds o => Ret o
      | GatePassed => grade su m code
      | GateSkipped => let* o := grade su m code in Ret (with_skip true o)
      end
  end.

(** ** Confirming a kill *)

(** One confirmation run: passed, timed out, or an error that is no answer. *)
Definition confirmRun (code : string) (cmd : list string) (budget : Z) : Prog (result ScoreErr (bool * bool)) :=
  let* (p, rerr) := runCmd (Some budget) code cmd in
  match rerr with
  | None => Ret (Ok (p, false))
  | Some e =>
      CtxErr (λ cerr, Ret match cerr with
        | Some ce => Err (ErrCancelled ce)
        | None => if out_of_time e then Ok (false, true) else Err (ErrRun e)
        end)
  end.

Definition killed_as (o : outcome) (c : Confirmation) : outcome :=
  match o with mkOutcome _ cd cm gc e i u g s => mkOutcome true cd cm gc e i u ((λ g, confirmed_as g c) <$> g) s end.
Definition refuted (o : outcome) : outcome :=
  match o with mkOutcome _ cd cm gc e i u g s =>
    mkOutcome false cd cm gc e i u ((λ g, blaming g "" KillNotRepeated (mg_KilledBy g)) <$> g) s end.
Definition doubted (o : outcome) : outcome :=
  match o with mkOutcome _ cd cm gc e i _ g s =>
    mkOutcome false cd cm gc e i (Some (NotConfirmed gc)) ((λ g, blaming g "" (mg_KillConfirmation g) (mg_UnrepeatedKilledBy g)) <$> g) s end.

(** Step B: the grading command again, on the mutant and then on the compliant code. *)
Definition repeatGrading (code : string) (budget : Z) (o : outcome) : Prog (result ScoreErr outcome) :=
  let* r := confirmRun code (oc_gradeCmd o) budget in
  match r with
  | Err e => Ret (Err e)
  | Ok (true, _) => Ret (Ok (refuted o))
  | Ok (false, _) =>
      let* r := confirmRun compliantCode (oc_gradeCmd o) budget in
      Ret match r with
          | Err e => Err e
          | Ok (cp, cto) => Ok (if cp && negb cto then killed_as o KillConfirmedRepeated else doubted o)
          end
  end.

(** The command that runs the blamed test alone, where there is one. *)
Definition killer_cmd (o : outcome) : option (list string) :=
  let blamed := match oc_grading o with Some g => mg_KilledBy g | None => "" end in
  if nameKiller && negb (String.eqb blamed "") then
    match sc_killConfirmer cfg with Some f => f (oc_gradeCmd o) blamed | None => None end
  else None.

(** confirmKill; the set holds the narrowed commands seen passing on the compliant code. *)
Definition confirmKill (su : Setup) (passedK : gset string) (m : Mutant) (o : outcome) : Prog (gset string * result ScoreErr outcome) :=
  match Apply m compliantCode with
  | Err e => Ret (passedK, Err (ErrApply e))
  | Ok code =>
      let budget := capFor su (oc_cmd o) in
      let stepB passedK := let* r := repeatGrading code budget o in Ret (passedK, r) in
      match killer_cmd o with
      | None => stepB passedK
      | Some k =>
          let* r := confirmRun code k budget in
          match r with
          | Err e => Ret (passedK, Err e)
          | Ok (mp, mto) =>
              if mp || mto then stepB passedK
              else if bool_decide (command_key k ∈ passedK) then Ret (passedK, Ok (killed_as o KillConfirmedAlone))
              else
                let* r := confirmRun compliantCode k budget in
                match r with
                | Err e => Ret (passedK, Err e)
                | Ok (cp, cto) =>
                    if cp && negb cto then Ret ({[ command_key k ]} ∪ passedK, Ok (killed_as o KillConfirmedAlone))
                    else stepB passedK
                end
          end
      end
  end.

(** Every candidate among the representatives, in order, until an error. *)
Fixpoint confirmAll (su : Setup) (reps : list (nat * Mutant)) (passedK : gset string) (outs : list outcome) : Prog (list outcome) :=
  match reps with
  | [] => Ret outs
  | (i, m) :: rest =>
      match outs !! i with
      | Some o =>
          if negb (oc_candidate o) then confirmAll su rest passedK outs
          else
            let* (passedK, r) := confirmKill su passedK m o in
            match r with
            | Ok o' => confirmAll su rest passedK (<[i := o']> outs)
            | Err e => Ret (<[i := with_err o (ErrConfirming (mt_ID m) e)]> outs)
            end
      | None => confirmAll su rest passedK outs
      end
  end.

(** ** The report of the outcomes *)

Definition place (outs : list outcome) (graded : list ((nat * Mutant) * outcome)) : list outcome :=
  foldl (λ acc io, <[io.1.1 := io.2]> acc) outs graded.

(** What the loop over the mutants collects. *)
Definition report_one (acc : result ScoreErr Report) (mo : Mutant * outcome) : result ScoreErr Report :=
  match acc with
  | Err e => Err e
  | Ok (mkReport p ck ot f d t ff du fn to k s inv ir unm ur g pm me ma c) =>
      let '(m, o) := mo in
      match oc_err o with
      | Some e => Err e
      | None =>
          match oc_invalid o with
          | Some r => Ok (mkReport p ck ot f d t ff du fn to k s (inv ++ [mt_ID m]) (add_reason ir (mt_ID m) r) unm ur g pm me ma c)
          | None =>
              let pm := match oc_grading o with Some gr => <[mt_ID m := gr]> pm | None => pm end in
              match oc_unmeasured o with
              | Some why => Ok (mkReport p ck ot f d t ff du fn to k s inv ir (unm ++ [mt_ID m]) (<[mt_ID m := why]> ur) g pm me ma c)
              | None =>
                  if oc_killed o then Ok (mkReport p ck ot f d t ff du fn to (k ++ [mt_ID m]) s inv ir unm ur g pm me ma c)
                  else Ok (mkReport p ck ot f d t ff du fn to k (s ++ [mt_ID m]) inv ir unm ur g pm me ma c)
              end
          end
      end
  end.

(** The middle and the worst of the durations above zero: the upper of two middles. *)
Definition mutantSpread (per : gmap string MutantGrading) : Z * Z :=
  let ds := sort_stable Z.ltb (List.filter (λ d, 0 <? d) (map (λ kv, mg_Duration kv.2) (map_to_list per))) in
  (nth (length ds / 2) ds 0, List.last ds 0).

Definition with_totals (r : Report) : Report :=
  match r with mkReport p ck o f d t ff du fn _ k s i ir u ur g pm _ _ c =>
    mkReport p ck o f d t ff du fn (Z.of_nat (length k + length s)) k s i ir u ur g pm (mutantSpread pm).1 (mutantSpread pm).2 c end.

Definition skipped_note (notes : list GateNote) (outs : list outcome) : list GateNote :=
  match length (List.filter oc_gateSkipped outs) with O => notes | n => notes ++ [GateSkippedOn n] end.

Definition inherited (outs : list outcome) : list outcome := map (λ j, default no_outcome (outs !! j)) repOf.

Definition assemble (su : Setup) (outs : list outcome) (confirm : Z) : result ScoreErr Report :=
  let outs := inherited outs in
  let rep := with_run (with_gate (su_rep su) (skipped_note (rp_CompileGateNote (su_rep su)) outs)) duplicates confirm in
  match foldl report_one (Ok rep) (zip mutants outs) with
  | Ok rep => Ok (with_totals rep)
  | Err e => Err e
  end.

(** The epilogue: from what the grading runs left to the call's result. *)
Definition epilogue (su : Setup) (graded : list outcome) : Prog (result ScoreErr Report) :=
  let outs := place (replicate (length mutants) no_outcome) (zip representatives graded) in
  let failed := existsb (λ o, bool_decide (is_Some (oc_err o))) outs in
  let candidates := if failed then O
    else length (List.filter (λ im, match outs !! im.1 with Some o => oc_candidate o | None => false end) representatives) in
  Now (λ confirmStart,
  let* outs := if failed then Ret outs else confirmAll su representatives ∅ outs in
  if (0 <? candidates)%nat then Now (λ confirmEnd, Ret (assemble su outs (confirmEnd - confirmStart)))
  else Ret (assemble su outs 0)).

(** ** The call *)

Definition threads (su : Setup) : list (Prog outcome) := map (λ im, scoreOne su im.2) representatives.

(** Grading in a pool when there is concurrency and more than one mutant, else in order. *)
Definition Graded (su : Setup) (tr : list Event) (outs : list outcome) : Prop :=
  if (1 <? sc_concurrency cfg) && (1 <? length mutants)%nat
  then Pool (Z.to_nat (sc_concurrency cfg)) (threads su) tr outs
  else Runs (pseq (threads su)) tr outs.

(** What a call may do: what happened, and its result. *)
Definition Scored (tr : list Event) (res : result ScoreErr Report) : Prop :=
  ∃ t1 st, Runs prologue t1 st ∧
    match st with
    | Stopped r => tr = t1 ∧ res = r
    | Going su => ∃ t2 outs t3, Graded su t2 outs ∧ Runs (epilogue su outs) t3 res ∧ tr = t1 ++ t2 ++ t3
    end.

(** The program of a call without concurrency. *)
Definition Score : Prog (result ScoreErr Report) :=
  let* st := prologue in
  match st with
  | Stopped r => Ret r
  | Going su => let* outs := pseq (threads su) in epilogue su outs
  end.
End Scorer.

Definition KillRate (r : Report) : double :=
  if (rp_Total r =? 0) || negb (rp_CanaryKilled r) then of_int 0
  else fdiv (of_int (Z.of_nat (length (rp_Killed r)))) (of_int (rp_Total r)).
