(* ===== verification/Adequacy.v ===== *)
(** * The scorer's promises

    What a caller of Score may rely on, whatever the jail answers and however the grading
    runs are scheduled: the theorems of the scorer over the evidence of ScoreFacts, the
    bound on its runs, and their use on a small suite. *)
From S2P Require Import Prelude GoLib GoText Crypto TestMap Float64 Invocations Mutant Jail Score ScoreFacts.
Local Open Scope string_scope.
Local Open Scope list_scope.
Local Open Scope Z_scope.
Local Open Scope prog_scope.

Section Promises.
Context {dg : Digest}.
Variable jk : JailKind.
Variable base : gmap string string.
Variables codePath compliantCode : string.
Variable mutants : list Mutant.
Variable testCmd : list string.
Variable cfg : scoreConfig.
Variable rangeMap : gmap string (list string) → list (string * list string).
Hypothesis rangeMap_perm : ∀ m, rangeMap m ≡ₚ map_to_list m.

Local Abbreviation Scored := (Scored jk base codePath compliantCode mutants testCmd cfg rangeMap).
Local Abbreviation asked := (asked base codePath).
Local Abbreviation kill_backed t2 t3 su := (kill_backed base codePath compliantCode testCmd cfg su t2 t3).
Local Abbreviation pass_backed t su := (pass_backed base codePath testCmd cfg su t).
Local Abbreviation graded_report := (graded_report base codePath compliantCode mutants testCmd cfg).

(** The command a mutant is graded with, up to its key, passed on the compliant code and
    did not pass on source that cannot compile. *)
Definition reaches (t1 : list Event) (su : Setup) (m : Mutant) : Prop :=
  ∃ cmd, command_key cmd = command_key (command_of testCmd cfg m) ∧
    (∃ cap r, (asked t1 compliantCode cmd cap r ∨ asked t1 compliantCode (failFast (su_args su) cmd) cap r) ∧ passed r) ∧
    (∃ cap r, asked t1 CanaryCode cmd cap r ∧ unpassed r).

Lemma trusted_reaches t1 t2 t3 su rep l m : graded_report t1 t2 t3 su rep l → m ∈ mutants → trusted testCmd cfg su m → reaches t1 su m.
Proof.
  intros Hg Hm Ht. destruct (decide (command_key (command_of testCmd cfg m) = command_key testCmd)) as [E|E].
  - destruct (gr_suite _ _ _ _ _ _ _ _ _ _ _ _ Hg) as [(cap & r & ? & ?) Hc]. exists testCmd. split_and!; [done|exists cap, r; by split; [left|]|].
    apply Hc. intros ->. by apply elem_of_nil in Hm.
  - destruct (gr_narrowed _ _ _ _ _ _ _ _ _ _ _ _ Hg m Hm Ht E) as (cmd & ? & (cap & r & ? & ?) & ?).
    exists cmd. split_and!; [done|exists cap, r; by split; [right|]|done].
Qed.

(** The mutant of a listed id, and the one that was graded for it. *)
Lemma listed_settled t1 t2 t3 su rep l c id : graded_report t1 t2 t3 su rep l → id ∈ ids c l → c = AsKilled ∨ c = AsSurvived →
  ∃ m0 m o code g, m0 ∈ mutants ∧ m ∈ mutants ∧ mt_ID m0 = id ∧ key_of cfg m = key_of cfg m0 ∧ (m0, o) ∈ l ∧ class_of o = c ∧
    oc_grading o = Some g ∧ Apply m0 compliantCode = Ok code ∧ reaches t1 su m ∧
    if oc_killed o then kill_backed t2 t3 su m code (mg_KillConfirmation g) else pass_backed (t2 ++ t3) su m code.
Proof.
  intros Hg (m0 & o & Hin & Hid & Hc)%elem_of_ids Hcase. destruct (gr_settled _ _ _ _ _ _ _ _ _ _ _ _ Hg m0 o Hin) as (m & Hm & Hk & Hs).
  assert (oc_err o = None ∧ oc_invalid o = None ∧ oc_unmeasured o = None) as (E1 & E2 & E3).
  { unfold class_of in Hc. destruct (oc_err o), (oc_invalid o), (oc_unmeasured o); destruct Hcase; subst; try done. }
  destruct (Hs E1 E2 E3) as (Ht & code & g & Ha & Hgr & Hev). exists m0, m, o, code, g. split_and!; try done.
  - rewrite <- (gr_mutants _ _ _ _ _ _ _ _ _ _ _ _ Hg). apply list_elem_of_fmap. exists (m0, o). done.
  - rewrite <- Ha. apply Apply_identity. symmetry. by apply (f_equal fst) in Hk.
  - by eapply trusted_reaches.
Qed.

Lemma killed_class o : class_of o = AsKilled → oc_killed o = true.
Proof. unfold class_of. destruct (oc_err o), (oc_invalid o), (oc_unmeasured o), (oc_killed o); done. Qed.
Lemma survived_class o : class_of o = AsSurvived → oc_killed o = false.
Proof. unfold class_of. destruct (oc_err o), (oc_invalid o), (oc_unmeasured o), (oc_killed o); done. Qed.
Lemma blank_lists rep id : blank rep → id ∉ rp_Killed rep ∧ id ∉ rp_Survived rep.
Proof. intros (-> & -> & _). split; apply not_elem_of_nil. Qed.

Lemma Scored_killed tr rep id : Scored tr (Ok rep) → id ∈ rp_Killed rep →
  ∃ t1 t2 t3 su m0 m code c, tr = t1 ++ t2 ++ t3 ∧ m0 ∈ mutants ∧ mt_ID m0 = id ∧ m ∈ mutants ∧ key_of cfg m = key_of cfg m0 ∧
    Apply m0 compliantCode = Ok code ∧ reaches t1 su m ∧ kill_backed t2 t3 su m code c ∧
    (NoDup (map mt_ID mutants) → ∃ g, rp_PerMutant rep !! id = Some g ∧ mg_KillConfirmation g = c).
Proof.
  intros [[Hb _]|(t1 & t2 & t3 & su & l & -> & Hg)]%Scored_report Hid; [by destruct (blank_lists rep id Hb)| |done].
  rewrite (gr_killed _ _ _ _ _ _ _ _ _ _ _ _ Hg) in Hid.
  destruct (listed_settled _ _ _ _ _ _ _ _ Hg Hid (or_introl eq_refl)) as (m0 & m & o & code & g & ? & ? & Hi & ? & Hin & Hc & Hgr & ? & ? & Hev).
  rewrite (killed_class o Hc) in Hev. exists t1, t2, t3, su, m0, m, code, (mg_KillConfirmation g). split_and!; try done.
  intros Hnd. exists g. split; [|done]. rewrite <- Hi. eapply (gr_perMutant _ _ _ _ _ _ _ _ _ _ _ _ Hg Hnd); [done|by rewrite Hc|done].
Qed.
(** C12. No kill is the word of one run. A mutant the report lists as killed was graded, or
    its twin was, by a command that passed on the compliant code and did not on source
    that cannot compile; its mutated file failed that command, and then, after every grading run
    had ended, either the test it blamed failed on it alone and passed on the compliant
    code, or the command did not pass on it a second time and passed on the compliant code; or the
    run timed out and the same command passed on the compliant code under the same cap.
    The record says which. *)
Theorem kill_confirmed tr rep id : Scored tr (Ok rep) → id ∈ rp_Killed rep →
  ∃ t1 t2 t3 su m0 m code c, tr = t1 ++ t2 ++ t3 ∧ m0 ∈ mutants ∧ mt_ID m0 = id ∧ m ∈ mutants ∧ key_of cfg m = key_of cfg m0 ∧
    Apply m0 compliantCode = Ok code ∧ reaches t1 su m ∧ kill_backed t2 t3 su m code c ∧
    (NoDup (map mt_ID mutants) → ∃ g, rp_PerMutant rep !! id = Some g ∧ mg_KillConfirmation g = c).
Proof. apply Scored_killed. Qed.

(** C14. A survivor was looked at: the command that graded it, or its twin, passed on the
    compliant code, did not pass on source that cannot compile, and passed on the mutated
    file. *)
Theorem survivor_passed tr rep id : Scored tr (Ok rep) → id ∈ rp_Survived rep →
  ∃ t1 t23 su m0 m code, tr = t1 ++ t23 ∧ m0 ∈ mutants ∧ mt_ID m0 = id ∧ m ∈ mutants ∧ key_of cfg m = key_of cfg m0 ∧
    Apply m0 compliantCode = Ok code ∧ reaches t1 su m ∧ pass_backed t23 su m code.
Proof.
  intros [[Hb _]|(t1 & t2 & t3 & su & l & -> & Hg)]%Scored_report Hid; [by destruct (blank_lists rep id Hb)| |done].
  rewrite (gr_survived _ _ _ _ _ _ _ _ _ _ _ _ Hg) in Hid.
  destruct (listed_settled _ _ _ _ _ _ _ _ Hg Hid (or_intror eq_refl)) as (m0 & m & o & code & g & ? & ? & Hi & ? & Hin & Hc & Hgr & ? & ? & Hev).
  rewrite (survived_class o Hc) in Hev. by exists t1, (t2 ++ t3), su, m0, m, code.
Qed.

Lemma sublist_ids c l : map fst l = mutants → ids c l `sublist_of` map mt_ID mutants.
Proof. intros <-. rewrite map_map. apply ids_sublist. Qed.

Lemma Scored_accounts tr rep : Scored tr (Ok rep) →
  rp_Total rep = Z.of_nat (length (rp_Killed rep) + length (rp_Survived rep)) ∧
  Forall (λ ids, ids `sublist_of` map mt_ID mutants) [rp_Killed rep; rp_Survived rep; rp_Invalid rep; rp_Unmeasured rep] ∧
  if rp_CompliantPass rep && (rp_CanaryKilled rep || bool_decide (mutants = []))
  then rp_Killed rep ++ rp_Survived rep ++ rp_Invalid rep ++ rp_Unmeasured rep ≡ₚ map mt_ID mutants
  else rp_Killed rep ++ rp_Survived rep ++ rp_Invalid rep ++ rp_Unmeasured rep = [] ∧ KillRate rep = of_int 0.
Proof.
  intros [(Hb & Hwhy & Hck)|(t1 & t2 & t3 & su & l & -> & Hg)]%Scored_report; [| |done].
  - destruct Hb as (-> & -> & -> & -> & Ht & _). split_and!; [done|repeat constructor; apply sublist_nil_l|].
    rewrite Hck. unfold KillRate. rewrite Hck, orb_true_r.
    destruct Hwhy as [->|Hm]; [done|]. rewrite (bool_decide_eq_false_2 _ Hm). cbn. by rewrite andb_false_r.
  - destruct Hg as [Hm Hcl HK HS HI HU HT HC HCK _ _ _ _ _]. split_and!; [done| |].
    + rewrite HK, HS, HI, HU. repeat constructor; by apply sublist_ids.
    + rewrite HC. assert (rp_CanaryKilled rep || bool_decide (mutants = []) = true) as ->.
      { case_bool_decide as E; [apply orb_true_r|]. by rewrite HCK. }
      cbn. rewrite HK, HS, HI, HU, (ids_permutation l Hcl). by rewrite <- Hm, map_map.
Qed.

(** The report accounts for every mutant. Each list is in the mutants' order and the total is the
    number graded. Either the suite was proven and every mutant is in exactly one of the four
    lists; or the suite failed on the compliant code or passed on source that cannot
    compile, and then no mutant is listed and there is no rate. *)
Theorem report_accounts tr rep : Scored tr (Ok rep) →
  rp_Total rep = Z.of_nat (length (rp_Killed rep) + length (rp_Survived rep)) ∧
  Forall (λ ids, ids `sublist_of` map mt_ID mutants) [rp_Killed rep; rp_Survived rep; rp_Invalid rep; rp_Unmeasured rep] ∧
  if rp_CompliantPass rep && (rp_CanaryKilled rep || bool_decide (mutants = []))
  then rp_Killed rep ++ rp_Survived rep ++ rp_Invalid rep ++ rp_Unmeasured rep ≡ₚ map mt_ID mutants
  else rp_Killed rep ++ rp_Survived rep ++ rp_Invalid rep ++ rp_Unmeasured rep = [] ∧ KillRate rep = of_int 0.
Proof. apply Scored_accounts. Qed.

(** The same edit graded by the same command gets the same answer, in every list. *)
Theorem twins_agree tr rep m m' : Scored tr (Ok rep) → NoDup (map mt_ID mutants) → m ∈ mutants → m' ∈ mutants → key_of cfg m = key_of cfg m' →
  (mt_ID m ∈ rp_Killed rep ↔ mt_ID m' ∈ rp_Killed rep) ∧ (mt_ID m ∈ rp_Survived rep ↔ mt_ID m' ∈ rp_Survived rep) ∧
  (mt_ID m ∈ rp_Invalid rep ↔ mt_ID m' ∈ rp_Invalid rep) ∧ (mt_ID m ∈ rp_Unmeasured rep ↔ mt_ID m' ∈ rp_Unmeasured rep).
Proof.
  intros [((-> & -> & -> & -> & _) & _)|(t1 & t2 & t3 & su & l & -> & Hg)]%Scored_report Hnd Hm Hm' Hk; [by rewrite !elem_of_nil| |done].
  destruct Hg as [Hl _ -> -> -> -> _ _ _ _ _ _ Htw _].
  assert (∀ c, mt_ID m ∈ ids c l ↔ mt_ID m' ∈ ids c l) as H; [|done].
  assert (∀ x, x ∈ mutants → ∃ o, (x, o) ∈ l ∧ ∀ c, mt_ID x ∈ ids c l ↔ class_of o = c) as Hx.
  { intros x Hx. rewrite <- Hl in Hx. apply list_elem_of_fmap in Hx as ([x' o] & -> & Hin). cbn. exists o. split; [done|]. intros c.
    rewrite elem_of_ids. split; [|by exists x', o]. intros (y & o' & Hin' & Hid & <-). f_equal.
    rewrite <- Hl, map_map in Hnd. apply list_elem_of_lookup in Hin as [i Hi]. apply list_elem_of_lookup in Hin' as [j Hj].
    assert (i = j) as <-; [|congruence]. eapply (NoDup_lookup _ i j (mt_ID x') Hnd); rewrite list_lookup_fmap; [by rewrite Hi|by rewrite Hj; cbn; rewrite Hid]. }
  intros c. destruct (Hx m Hm) as (o & Ho & ->), (Hx m' Hm') as (o' & Ho' & ->). by rewrite (Htw m o m' o' Ho Ho' Hk).
Qed.

(** ** How many runs a call asks for *)

Local Open Scope nat_scope.

Lemma costs_runCmd cap code cmd : costs (runCmd base codePath cap code cmd) 1.
Proof. done. Qed.
Lemma costs_runCmdVerbose cap code cmd : costs (runCmdVerbose jk base codePath cap code cmd) 1.
Proof. unfold runCmdVerbose. by destruct (jk_Verbose jk). Qed.
Lemma costs_confirmRun code cmd budget : costs (confirmRun base codePath code cmd budget) 1.
Proof. unfold confirmRun. cbn. intros r. by destruct (rr_Err r). Qed.

Lemma costs_runGate su code cmds : costs (runGate jk base codePath su code cmds) (length cmds).
Proof.
  induction cmds as [|cmd rest IH]; [done|]. cbn [runGate]. apply (costs_bind _ _ (length rest) 1); [apply costs_runCmdVerbose|].
  intros [[ok out] [e|]]; [done|]. destruct ok; [exact IH|done].
Qed.

Lemma costs_grade su m code : costs (grade jk base codePath compliantCode testCmd cfg su m code) 2.
Proof.
  unfold grade. destruct (su_commandFails su !! _); [done|]. case_bool_decide; [done|]. cbn [costs]. intros mstart.
  apply (costs_bind _ _ 1 1).
  - unfold grading_run. by destruct (nameKiller jk cfg).
  - intros [[passed killedBy] err] mend. destruct err as [e|]; [|done]. destruct (timed_out e); [|done]. done.
Qed.

Lemma costs_scoreOne su m : costs (scoreOne jk base codePath compliantCode testCmd cfg su m) (length (su_gate su) + 2).
Proof.
  unfold scoreOne. destruct (Apply m compliantCode) as [code|e]; [|done]. apply costs_bind; [apply costs_runGate|].
  intros [| |o]; [apply costs_grade| |done]. apply (costs_bind _ _ 0 2); [apply costs_grade|done].
Qed.

Lemma costs_repeatGrading code budget o : costs (repeatGrading base codePath compliantCode code budget o) 2.
Proof.
  unfold repeatGrading. apply (costs_bind _ _ 1 1); [apply costs_confirmRun|]. intros [[[] ?]|e]; [done| |done].
  apply (costs_bind _ _ 0 1); [apply costs_confirmRun|done].
Qed.

Lemma costs_confirmKill su passedK m o : costs (confirmKill jk base codePath compliantCode cfg su passedK m o) 4.
Proof.
  unfold confirmKill. destruct (Apply m compliantCode) as [code|e]; [|done].
  assert (∀ pK, costs (let* r := repeatGrading base codePath compliantCode code (capFor cfg su (oc_cmd o)) o in Ret (pK : gset string, r)) 2) as HB.
  { intros pK. apply (costs_bind _ _ 0 2); [apply costs_repeatGrading|done]. }
  destruct (killer_cmd jk cfg o) as [k|]; [|by apply (costs_le _ 2); [lia|]].
  apply (costs_bind _ _ 3 1); [apply costs_confirmRun|]. intros [[mp mto]|e]; [|done].
  destruct (mp || mto); [by apply (costs_le _ 2); [lia|]|]. case_bool_decide; [done|].
  apply (costs_bind _ _ 2 1); [apply costs_confirmRun|]. intros [[cp cto]|e]; [|done]. destruct (cp && negb cto); [done|apply HB].
Qed.

Lemma costs_confirmAll su reps : ∀ passedK outs, costs (confirmAll jk base codePath compliantCode cfg su reps passedK outs) (4 * length reps).
Proof.
  induction reps as [|[i m] rest IH]; intros passedK outs; [done|]. cbn [confirmAll length]. rewrite Nat.mul_succ_r, Nat.add_comm.
  destruct (outs !! i) as [o|]; [|apply (costs_le _ (4 * length rest)); [lia|apply IH]].
  destruct (oc_candidate o); cbn [negb]; [|apply (costs_le _ (4 * length rest)); [lia|apply IH]].
  apply costs_bind; [apply costs_confirmKill|]. intros [pK [o'|e]]; [apply IH|done].
Qed.

Lemma costs_epilogue su graded : costs (epilogue jk base codePath compliantCode mutants cfg su graded) (4 * length (representatives mutants cfg)).
Proof.
  unfold epilogue. cbn [costs]. intros start. rewrite <- (Nat.add_0_r (4 * _)). apply costs_bind.
  - destruct (existsb _ _); [done|apply costs_confirmAll].
  - intros outs. by destruct (0 <? _).
Qed.

Lemma costs_probeGate cmds : costs (probeGate jk base codePath compliantCode cmds) (length cmds).
Proof.
  induction cmds as [|cmd rest IH]; [done|]. cbn [probeGate]. apply (costs_bind _ _ (length rest) 1); [apply costs_runCmdVerbose|].
  intros [[ok out] [e|]]; [done|]. destruct ok; [exact IH|done].
Qed.

Lemma costs_proveCommands perMutant args l : ∀ known, costs (proveCommands jk base codePath compliantCode perMutant args l known) (2 * length l).
Proof.
  induction l as [|[key cmd] rest IH]; intros [[durs fails] never]; [done|]. cbn [proveCommands length costs]. intros pstart.
  rewrite Nat.mul_succ_r, Nat.add_comm. apply (costs_bind _ _ (1 + 2 * length rest) 1); [apply costs_runCmdVerbose|].
  intros [[passed out] perr]. cbn [costs]. intros pend. destruct perr as [e|]; [done|].
  destruct passed; cbn [negb]; [|apply (costs_le _ (2 * length rest)); [lia|apply IH]].
  apply costs_bind; [apply costs_runCmd|]. intros [cpass [e|]]; [destruct (timed_out e); [apply IH|done]|apply IH].
Qed.

(** The narrowed commands a call proves. *)
Definition narrowed_count : nat := match sc_commandFor cfg with Some f => size (narrowed mutants testCmd f) | None => 0 end.
Lemma narrowed_count_le : narrowed_count <= length mutants.
Proof.
  unfold narrowed_count. destruct (sc_commandFor cfg) as [f|]; [|lia]. unfold narrowed. induction mutants as [|m ms IH] using rev_ind; [done|].
  rewrite foldl_app, length_app. cbn [foldl length]. destruct (_ || _); [lia|].
  rewrite map_size_insert. case_match; cbn; lia.
Qed.

Lemma costs_prove rep perMutant args gate gateCap gateProbe :
  costs (prove jk base codePath compliantCode mutants testCmd cfg rangeMap rep perMutant args gate gateCap gateProbe) (2 * narrowed_count).
Proof.
  unfold prove, narrowed_count. destruct (sc_commandFor cfg) as [f|]; [|done].
  rewrite <- (Nat.add_0_r (2 * _)). apply costs_bind; [|done].
  replace (size _) with (length (rangeMap (narrowed mutants testCmd f))); [apply costs_proveCommands|].
  by rewrite rangeMap_perm, length_map_to_list.
Qed.

Local Abbreviation gateLength := (length (sc_mutantCompileCheck cfg)).
Local Abbreviation probed := (probed jk base codePath compliantCode mutants testCmd cfg rangeMap).
Local Abbreviation prologue := (prologue jk base codePath compliantCode mutants testCmd cfg rangeMap).

Lemma costs_probed rep baseDur : costs (probed rep baseDur) (1 + (gateLength + 2 * narrowed_count)).
Proof.
  unfold Score.probed. apply (costs_bind _ _ (gateLength + 2 * narrowed_count) 1).
  - unfold probeFailFast. destruct (sc_failFast cfg) as [ff|], mutants; try done. destruct (ff testCmd) as [args|]; [|done].
    by destruct (_ =? _).
  - intros [args note]. unfold gated. destruct (sc_mutantCompileCheck cfg) as [|c cs] eqn:Ec; [apply costs_prove|].
    cbn [costs]. intros start. apply costs_bind; [rewrite <- Ec; apply costs_probeGate|].
    intros [[n|]|e]; cbn [costs]; [intros ?; apply costs_prove..|done].
Qed.

Lemma costs_prologue : costs prologue (3 + gateLength + 2 * narrowed_count).
Proof.
  unfold Score.prologue. cbn [costs]. intros start.
  apply (costs_bind _ _ (2 + gateLength + 2 * narrowed_count) 1).
  - unfold baselineRun. destruct (jk_Detailed jk); [done|apply costs_runCmdVerbose].
  - intros [[pass out] [e|]]; cbn [costs]; [done|]. intros finish. destruct pass; cbn [negb]; [|done]. destruct mutants as [|m0 ms0] eqn:Em.
    + rewrite <- Em. eapply costs_le; [|apply costs_probed]. lia.
    + rewrite <- Em. apply (costs_bind _ _ (1 + (gateLength + 2 * narrowed_count)) 1); [apply costs_runCmd|].
      intros [cpass [e|]]; [destruct (timed_out e); [apply costs_probed|done]|destruct cpass; [done|apply costs_probed]].
Qed.

(** The gate a mutant meets is the configured one, or none. *)
Definition gate_kept (st : Started) : Prop :=
  match st with Going su => length (su_gate su) <= gateLength | Stopped _ => True end.
Lemma prove_gate rep perMutant args gate gateCap gateProbe h : length gate <= gateLength →
  wp (prove jk base codePath compliantCode mutants testCmd cfg rangeMap rep perMutant args gate gateCap gateProbe) h (λ _ st, gate_kept st).
Proof.
  intros Hg. unfold prove. destruct (sc_commandFor cfg) as [f|]; [|done]. apply wp_bind, wp_incl. intros tr [[[? ?] ?]|e] _; done.
Qed.
Lemma probed_gate rep baseDur h : wp (probed rep baseDur) h (λ _ st, gate_kept st).
Proof.
  unfold Score.probed. apply wp_bind, wp_incl. intros tr [args note] _. unfold gated.
  destruct (sc_mutantCompileCheck cfg) as [|c cs] eqn:Ec; [apply prove_gate; cbn; lia|].
  cbn [wp]. intros start. apply wp_bind, wp_incl. intros tr' [[n|]|e] _; cbn [wp]; [intros ?; apply prove_gate..|done]; [cbn; lia|by rewrite Ec].
Qed.
Lemma prologue_gate : wp prologue [] (λ _ st, gate_kept st).
Proof.
  unfold Score.prologue. cbn [wp]. intros start. apply wp_bind, wp_incl. intros tr [[pass out] [e|]] _; cbn [wp]; intros finish; [done|].
  destruct pass; cbn [negb]; [|done]. destruct mutants as [|m0 ms0] eqn:Em; rewrite <- Em; [apply probed_gate|].
  apply wp_bind, wp_incl. intros tr' [cpass [e|]] _; [destruct (timed_out e); [apply probed_gate|done]|destruct cpass; [done|apply probed_gate]].
Qed.

(** C33. What a call costs. Whatever the jail answers and however the grading is
    scheduled, a call runs at most the baseline, the canary and the probe, each command of the
    compile gate, two runs for each narrowed command, and for each distinct mutant the
    gate, two grading runs and four confirmations. *)
Theorem runs_bounded tr res : Scored tr res →
  runs tr <= 3 + gateLength + 2 * narrowed_count + length (representatives mutants cfg) * (gateLength + 6).
Proof.
  intros (t1 & st & Hp & Hst). pose proof (costs_Runs _ _ _ _ costs_prologue Hp) as H1.
  pose proof (wp_Runs _ [] _ _ _ prologue_gate Hp) as Hgate. destruct st as [r|su].
  { destruct Hst as [-> _]. lia. }
  destruct Hst as (t2 & outs & t3 & Hg & He & ->). rewrite !runs_app.
  pose proof (costs_Runs _ _ _ _ (costs_epilogue su outs) He) as H3. cbn [gate_kept] in Hgate.
  assert (runs t2 <= length (threads jk base codePath compliantCode mutants testCmd cfg su) * (length (su_gate su) + 2)) as H2.
  { assert (Forall (λ p, costs p (length (su_gate su) + 2)) (threads jk base codePath compliantCode mutants testCmd cfg su)) as Hc.
    { unfold threads. apply Forall_map, Forall_true. intros im. apply costs_scoreOne. }
    unfold Graded in Hg. destruct (_ && _).
    - apply Pool_Runs in Hg as (hs & Hall & Hperm & _). rewrite (runs_perm _ _ Hperm). by eapply costs_concat.
    - apply pseq_Runs in Hg as (hs & Hall & ->). by eapply costs_concat. }
  unfold threads in H2. rewrite length_map in H2. nia.
Qed.

Lemma Score_runs (ans : RunReq → RunRes) (clock : nat → Z) :
  let run := exec ans clock 0 (Score jk base codePath compliantCode mutants testCmd cfg rangeMap) in Scored run.1 run.2.
Proof.
  cbn zeta. destruct (proj1 (Runs_bind _ _ _ _) (exec_Runs ans clock (Score jk base codePath compliantCode mutants testCmd cfg rangeMap) 0)) as (t1 & t2 & st & -> & Hp & Hst).
  exists t1, st. split; [exact Hp|]. destruct st as [r|su].
  - destruct Hst as [-> ->]. by rewrite app_nil_r.
  - apply Runs_bind in Hst as (t3 & t4 & outs & -> & Hs & He). exists t3, outs, t4. split_and!; [|done|done].
    unfold Graded. destruct (_ && _) eqn:E; [|done]. apply andb_prop in E as [E%Z.ltb_lt _]. apply pseq_Pool; [lia|done].
Qed.
(** A call always returns: for every jail that answers its runs, every clock, and any
    concurrency, there is a schedule in which the call ends with a report or an error; and
    without concurrency that is the run of the program itself. *)
Theorem Score_total (ans : RunReq → RunRes) (clock : nat → Z) :
  let run := exec ans clock 0 (Score jk base codePath compliantCode mutants testCmd cfg rangeMap) in Scored run.1 run.2.
Proof. apply Score_runs. Qed.
End Promises.
