(* ===== verification/Schedules.v ===== *)
(** * The verdict does not depend on the schedule

    With a jail whose answer to a run is a function of the run (the same files, command
    and cap), the scorer's report is the same whatever the concurrency and the
    interleaving of the workers, the durations it discloses aside
    ([schedule_independent]). [blind] relates two programs that ask the same questions
    whatever the clock says. *)
From S2P Require Import Prelude GoLib GoText Crypto TestMap Float64 Invocations Mutant Jail Score ScoreFacts.
Local Open Scope string_scope.
Local Open Scope list_scope.
Local Open Scope Z_scope.
Local Open Scope prog_scope.

(** ** Programs that do not look at the clock *)

Inductive blind {A : Type} (R : A → A → Prop) : Prog A → Prog A → Prop :=
| blind_Ret a b : R a b → blind R (Ret a) (Ret b)
| blind_Run q k k' : (∀ r, blind R (k r) (k' r)) → blind R (Run q k) (Run q k')
| blind_Now k k' : (∀ t t', blind R (k t) (k' t')) → blind R (Now k) (Now k')
| blind_Ctx k k' : (∀ e, blind R (k e) (k' e)) → blind R (CtxErr k) (CtxErr k').
#[local] Hint Constructors blind : core.

(** Runs are answered by [ans], and the context is not done. *)
Definition steady (ans : RunReq → RunRes) (tr : list Event) : Prop :=
  Forall (λ e, match e with EvRun q r => r = ans q | EvNow _ => True | EvCtx c => c = None end) tr.

Lemma blind_Runs {A} R (p p' : Prog A) : blind R p p' → ∀ ans t t' a a', Runs p t a → Runs p' t' a' → steady ans t → steady ans t' → R a a'.
Proof.
  induction 1 as [a b Hab|q k k' _ IH|k k' _ IH|k k' _ IH]; cbn; intros ans t t' x x'.
  - by intros [_ ->] [_ ->].
  - intros (r & t1 & -> & H1) (r' & t2 & -> & H2) [-> S1]%Forall_cons [-> S2]%Forall_cons. by eapply IH.
  - intros (c & t1 & -> & H1) (c' & t2 & -> & H2) [_ S1]%Forall_cons [_ S2]%Forall_cons. by eapply IH.
  - intros (e & t1 & -> & H1) (e' & t2 & -> & H2) [-> S1]%Forall_cons [-> S2]%Forall_cons. by eapply IH.
Qed.

Lemma blind_bind {A B} R S (p p' : Prog A) (f f' : A → Prog B) : blind R p p' → (∀ a a', R a a' → blind S (f a) (f' a')) → blind S (pbind p f) (pbind p' f').
Proof. induction 1; cbn; eauto. Qed.

Lemma blind_mono {A} (R S : A → A → Prop) (p p' : Prog A) : (∀ a a', R a a' → S a a') → blind R p p' → blind S p p'.
Proof. intros H. induction 1; eauto. Qed.

(** A program that never reads the clock. *)
Fixpoint clockless {A} (p : Prog A) : Prop :=
  match p with
  | Ret _ => True
  | Run _ k => ∀ r, clockless (k r)
  | Now _ => False
  | CtxErr k => ∀ e, clockless (k e)
  end.
Lemma clockless_blind {A} (p : Prog A) : clockless p → blind eq p p.
Proof. induction p; cbn; eauto. done. Qed.

(** ** Outcomes and reports, durations aside *)

Definition undated (o : outcome) : outcome :=
  match o with mkOutcome k c cm gc e i u g s => mkOutcome k c cm gc e i u ((λ g, timed g 0) <$> g) s end.
Definition undated_report (r : Report) : Report :=
  match r with mkReport p ck o f d t ff du fn to k s i ir u ur g pm _ _ _ =>
    mkReport p ck o f d t ff du fn to k s i ir u ur g ((λ g, timed g 0) <$> pm) 0 0 0 end.
Definition undated_result (r : result ScoreErr Report) : result ScoreErr Report :=
  match r with Ok r => Ok (undated_report r) | Err e => Err e end.
Definition same_outcome (o o' : outcome) : Prop := undated o = undated o'.
Definition same_answer (r r' : result ScoreErr outcome) : Prop :=
  match r, r' with Ok o, Ok o' => same_outcome o o' | Err e, Err e' => e = e' | _, _ => False end.

Lemma same_fields o o' : same_outcome o o' → ∃ k c cm gc e i u g g' s,
  o = mkOutcome k c cm gc e i u g s ∧ o' = mkOutcome k c cm gc e i u g' s ∧ (λ g, timed g 0) <$> g = (λ g, timed g 0) <$> g'.
Proof. destruct o, o'. intros E. injection E as <- <- <- <- <- <- <- Hg <-. by do 10 eexists. Qed.

Lemma same_grading (g g' : option MutantGrading) : (λ g, timed g 0) <$> g = (λ g, timed g 0) <$> g' →
  match g, g' with
  | Some a, Some b => mg_KilledBy a = mg_KilledBy b ∧ ∀ k c u, timed (blaming a k c u) 0 = timed (blaming b k c u) 0
      ∧ mg_KillConfirmation a = mg_KillConfirmation b ∧ mg_UnrepeatedKilledBy a = mg_UnrepeatedKilledBy b
  | None, None => True
  | _, _ => False
  end.
Proof. destruct g as [[]|], g' as [[]|]; cbn; try done. intros [= <- <- <- <- <-]. done. Qed.

Section Schedule.
Context {dg : Digest}.
Variable jk : JailKind.
Variable base : gmap string string.
Variables codePath compliantCode : string.
Variable mutants : list Mutant.
Variable testCmd : list string.
Variable cfg : scoreConfig.
Variable su : Setup.

(** ** Grading *)

Lemma clockless_runCmd cap code cmd : clockless (runCmd base codePath cap code cmd).
Proof. done. Qed.
Lemma clockless_bind {A B} (p : Prog A) (f : A → Prog B) : clockless p → (∀ a, clockless (f a)) → clockless (pbind p f).
Proof. induction p; cbn; eauto. Qed.
Lemma clockless_runCmdVerbose cap code cmd : clockless (runCmdVerbose jk base codePath cap code cmd).
Proof. unfold runCmdVerbose. by destruct (jk_Verbose jk). Qed.
Lemma clockless_runGate code cmds : clockless (runGate jk base codePath su code cmds).
Proof.
  induction cmds as [|cmd rest IH]; [done|]. cbn [runGate]. apply clockless_bind; [apply clockless_runCmdVerbose|].
  intros [[ok out] [e|]]; [done|]. by destruct ok.
Qed.
Lemma clockless_grading_run cap code cmd : clockless (grading_run jk base codePath cfg cap code cmd).
Proof. unfold grading_run. by destruct (nameKiller jk cfg). Qed.

Lemma grade_blind m code : blind same_outcome (grade jk base codePath compliantCode testCmd cfg su m code) (grade jk base codePath compliantCode testCmd cfg su m code).
Proof.
  unfold grade. destruct (su_commandFails su !! _); [by constructor|]. case_bool_decide; [by constructor|].
  constructor. intros t1 t1'. eapply blind_bind; [apply clockless_blind, clockless_grading_run|]. intros [[passed killedBy] err] ? <-.
  constructor. intros t2 t2'. destruct err as [e|]; [destruct (timed_out e)|].
  - unfold reprobe. eapply blind_bind; [apply clockless_blind, clockless_runCmd|]. intros [bpassed [be|]] ? <-; constructor; [by destruct (timed_out be)|by destruct bpassed].
  - by constructor.
  - constructor. by destruct passed.
Qed.

Lemma with_skip_same o o' : same_outcome o o' → same_outcome (with_skip true o) (with_skip true o').
Proof. destruct o, o'. unfold same_outcome. cbn. by intros [= <- <- <- <- <- <- <- -> <-]. Qed.

Lemma scoreOne_blind m : blind same_outcome (scoreOne jk base codePath compliantCode testCmd cfg su m) (scoreOne jk base codePath compliantCode testCmd cfg su m).
Proof.
  unfold scoreOne. destruct (Apply m compliantCode) as [code|e]; [|by constructor].
  eapply blind_bind; [apply clockless_blind, clockless_runGate|]. intros v ? <-. destruct v as [| |o]; [apply grade_blind| |by constructor].
  eapply blind_bind; [apply grade_blind|]. intros o o' Ho. constructor. by apply with_skip_same.
Qed.

(** ** Confirming *)

Lemma clockless_confirmRun code cmd budget : clockless (confirmRun base codePath code cmd budget).
Proof. unfold confirmRun. cbn. intros r. by destruct (rr_Err r). Qed.

Lemma rewritten_same o o' : same_outcome o o' →
  (∀ c, same_outcome (killed_as o c) (killed_as o' c)) ∧ same_outcome (refuted o) (refuted o') ∧ same_outcome (doubted o) (doubted o').
Proof.
  intros (k & c & cm & gc & e & i & u & g & g' & s & -> & -> & Hg)%same_fields. apply same_grading in Hg. unfold same_outcome.
  destruct g as [[a b d kb kc uk]|], g' as [[a' b' d' kb' kc' uk']|]; cbn in *; try done. destruct Hg as [<- Hg].
  destruct (Hg "" NotCandidate "") as (E & <- & <-). injection E as <- <-. done.
Qed.

Lemma repeatGrading_blind code budget o o' : same_outcome o o' →
  blind same_answer (repeatGrading base codePath compliantCode code budget o) (repeatGrading base codePath compliantCode code budget o').
Proof.
  intros Ho. pose proof (rewritten_same o o' Ho) as (Hk & Hr & Hd). unfold repeatGrading.
  assert (oc_gradeCmd o = oc_gradeCmd o') as <- by (destruct o, o'; by injection Ho).
  eapply blind_bind; [apply clockless_blind, clockless_confirmRun|]. intros r ? <-. destruct r as [[[] to]|e]; [by constructor| |by constructor].
  eapply blind_bind; [apply clockless_blind, clockless_confirmRun|]. intros r ? <-. constructor. destruct r as [[cp cto]|e]; [|done]. destruct (cp && negb cto); [apply Hk|apply Hd].
Qed.

Definition same_confirm (x x' : gset string * result ScoreErr outcome) : Prop := x.1 = x'.1 ∧ same_answer x.2 x'.2.

Lemma confirmKill_blind passedK m o o' : same_outcome o o' →
  blind same_confirm (confirmKill jk base codePath compliantCode cfg su passedK m o) (confirmKill jk base codePath compliantCode cfg su passedK m o').
Proof.
  intros Ho. pose proof (rewritten_same o o' Ho) as (Hk & _ & _). unfold confirmKill. destruct (Apply m compliantCode) as [code|e]; [|by constructor].
  assert (oc_cmd o = oc_cmd o') as <- by (destruct o, o'; by injection Ho).
  assert (killer_cmd jk cfg o = killer_cmd jk cfg o') as <-.
  { unfold killer_cmd. pose proof Ho as (k & c & cm & gc & e & i & u & g & g' & s & -> & -> & Hg)%same_fields. apply same_grading in Hg.
    cbn. destruct g, g'; try done. by destruct Hg as [-> _]. }
  set (budget := capFor cfg su (oc_cmd o)).
  assert (∀ pK : gset string, blind same_confirm (let* r := repeatGrading base codePath compliantCode code budget o in Ret (pK, r))
    (let* r := repeatGrading base codePath compliantCode code budget o' in Ret (pK, r))) as HB.
  { intros pK. eapply blind_bind; [by apply repeatGrading_blind|]. intros. by constructor. }
  destruct (killer_cmd jk cfg o) as [k|]; [|apply HB].
  eapply blind_bind; [apply clockless_blind, clockless_confirmRun|]. intros r ? <-. destruct r as [[mp mto]|e]; [|by constructor].
  destruct (mp || mto); [apply HB|]. case_bool_decide; [constructor; split; [done|apply Hk]|].
  eapply blind_bind; [apply clockless_blind, clockless_confirmRun|]. intros r ? <-. destruct r as [[cp cto]|e]; [|by constructor].
  destruct (cp && negb cto); [constructor; split; [done|apply Hk]|apply HB].
Qed.

Lemma confirmAll_blind reps : ∀ passedK outs outs', Forall2 same_outcome outs outs' →
  blind (Forall2 same_outcome) (confirmAll jk base codePath compliantCode cfg su reps passedK outs) (confirmAll jk base codePath compliantCode cfg su reps passedK outs').
Proof.
  induction reps as [|[i m] rest IH]; intros passedK outs outs' Hs; cbn [confirmAll]; [by constructor|].
  destruct (outs !! i) as [o|] eqn:Eo.
  - destruct (Forall2_lookup_l _ _ _ _ _ Hs Eo) as (o' & -> & Ho).
    assert (oc_candidate o = oc_candidate o') as <- by (destruct o, o'; by injection Ho).
    destruct (oc_candidate o); cbn [negb]; [|by apply IH].
    eapply blind_bind; [by apply confirmKill_blind|]. intros [pK r] [pK' r'] [E Hr]. cbn in E, Hr. subst pK'.
    destruct r as [o1|e], r' as [o1'|e']; cbn in Hr; try done.
    + apply IH. by apply Forall2_insert.
    + subst e'. constructor. apply Forall2_insert; [done|]. destruct o, o'. unfold same_outcome in *. cbn in *. by injection Ho as <- <- <- <- <- <- <- -> <-.
  - assert (outs' !! i = None) as ->; [|by apply IH]. apply lookup_ge_None. rewrite <- (Forall2_length _ _ _ Hs). by apply lookup_ge_None.
Qed.

(** ** The report *)

Lemma Forall2_existsb {A} (R : A → A → Prop) (f : A → bool) l l' : (∀ x y, R x y → f x = f y) → Forall2 R l l' → existsb f l = existsb f l'.
Proof. intros Hf. induction 1 as [|x y l l' H _ IH]; [done|]. cbn. by rewrite (Hf x y H), IH. Qed.
Lemma Forall2_filter_length {A} (R : A → A → Prop) (f : A → bool) l l' : (∀ x y, R x y → f x = f y) → Forall2 R l l' →
  length (List.filter f l) = length (List.filter f l').
Proof. intros Hf. induction 1 as [|x y l l' H _ IH]; [done|]. cbn. rewrite (Hf x y H). destruct (f y); cbn; by rewrite IH. Qed.
Lemma same_refl o : same_outcome o o.
Proof. done. Qed.

Lemma place_same reps : ∀ graded graded' outs outs', Forall2 same_outcome graded graded' → Forall2 same_outcome outs outs' →
  Forall2 same_outcome (place outs (zip reps graded)) (place outs' (zip reps graded')).
Proof.
  unfold place. induction reps as [|im reps IH]; intros graded graded' outs outs' Hg Ho; [done|]. destruct Hg as [|x y g g' Hxy Hg]; [done|].
  cbn. apply IH; [done|]. by apply Forall2_insert.
Qed.

Lemma same_at outs outs' i : Forall2 same_outcome outs outs' → same_outcome (default no_outcome (outs !! i)) (default no_outcome (outs' !! i)).
Proof.
  intros Ho. destruct (outs !! i) as [o|] eqn:E; cbn.
  - destruct (Forall2_lookup_l _ _ _ _ _ Ho E) as (o' & -> & ?). done.
  - assert (outs' !! i = None) as ->; [|done]. apply lookup_ge_None. rewrite <- (Forall2_length _ _ _ Ho). by apply lookup_ge_None.
Qed.

Lemma report_one_same r r' m o o' : undated_result r = undated_result r' → same_outcome o o' →
  undated_result (report_one r (m, o)) = undated_result (report_one r' (m, o')).
Proof.
  intros Hr (k & c & cm & gc & e & i & u & g & g' & s & -> & -> & Hg)%same_fields.
  destruct r as [[p ck ot f d t ff du fn to kl sl inv ir unm ur gt pm me ma cf]|er], r' as [[p1 ck1 ot1 f1 d1 t1 ff1 du1 fn1 to1 kl1 sl1 inv1 ir1 unm1 ur1 gt1 pm1 me1 ma1 cf1]|er']; cbn in Hr; try done.
  injection Hr as <- <- <- <- <- <- <- <- <- <- <- <- <- <- <- <- <- Hpm. cbn.
  destruct e; [done|]. destruct i; cbn; [by rewrite Hpm|].
  assert (∀ g2 g2' : option MutantGrading, (λ g, timed g 0) <$> g2 = (λ g, timed g 0) <$> g2' →
    (λ g, timed g 0) <$> match g2 with Some gr => <[mt_ID m := gr]> pm | None => pm end =
    (λ g, timed g 0) <$> match g2' with Some gr => <[mt_ID m := gr]> pm1 | None => pm1 end) as Hins.
  { intros [a|] [b|] E; try done. rewrite !fmap_insert, Hpm. cbn in E. injection E as E1 E2 E3 E4 E5. unfold timed. by rewrite E1, E2, E3, E4, E5. }
  destruct u; [|destruct k]; cbn; by rewrite (Hins _ _ Hg).
Qed.

Lemma report_loop_same ms : ∀ os os' r r', Forall2 same_outcome os os' → undated_result r = undated_result r' →
  undated_result (foldl report_one r (zip ms os)) = undated_result (foldl report_one r' (zip ms os')).
Proof.
  induction ms as [|m ms IH]; intros os os' r r' Ho Hr; [done|]. destruct Ho as [|x y os os' Hxy Ho]; [done|]. cbn.
  apply IH; [done|]. by apply report_one_same.
Qed.

Lemma assemble_same outs outs' c c' : Forall2 same_outcome outs outs' →
  undated_result (assemble mutants cfg su outs c) = undated_result (assemble mutants cfg su outs' c').
Proof.
  intros Ho. unfold assemble. assert (Forall2 same_outcome (inherited mutants cfg outs) (inherited mutants cfg outs')) as Hi.
  { unfold inherited. induction (repOf mutants cfg) as [|j l IH]; cbn; constructor; [by apply same_at|done]. }
  assert (∀ n, skipped_note n (inherited mutants cfg outs) = skipped_note n (inherited mutants cfg outs')) as Hn.
  { intros n. unfold skipped_note. rewrite (Forall2_filter_length same_outcome oc_gateSkipped _ _ ltac:(intros [] [] E; by injection E) Hi). done. }
  rewrite Hn. set (r0 := with_gate _ _).
  pose proof (report_loop_same mutants _ _ (Ok (with_run r0 (duplicates mutants cfg) c)) (Ok (with_run r0 (duplicates mutants cfg) c')) Hi) as Hl.
  specialize (Hl ltac:(by destruct r0)).
  destruct (foldl report_one (Ok (with_run r0 (duplicates mutants cfg) c)) _) as [[]|e], (foldl report_one (Ok (with_run r0 (duplicates mutants cfg) c')) _) as [[]|e']; cbn in Hl; try done.
  cbn. injection Hl as <- <- <- <- <- <- <- <- <- <- <- <- <- <- <- <- <- ->. done.
Qed.

Lemma epilogue_blind graded graded' : Forall2 same_outcome graded graded' →
  blind (λ r r', undated_result r = undated_result r') (epilogue jk base codePath compliantCode mutants cfg su graded) (epilogue jk base codePath compliantCode mutants cfg su graded').
Proof.
  intros Hg. unfold epilogue. constructor. intros t t'.
  set (outs := place _ (zip _ graded)). set (outs' := place _ (zip _ graded')).
  assert (Forall2 same_outcome outs outs') as Ho.
  { apply place_same; [done|]. apply Forall2_replicate, same_refl. }
  rewrite <- (Forall2_existsb same_outcome (λ o, bool_decide (is_Some (oc_err o))) outs outs' ltac:(intros [] [] E; by injection E as _ _ _ _ <- _) Ho).
  set (failed := existsb _ outs).
  assert ((if failed then O else length (List.filter (λ im, match outs !! im.1 with Some o => oc_candidate o | None => false end) (representatives mutants cfg))) =
    (if failed then O else length (List.filter (λ im, match outs' !! im.1 with Some o => oc_candidate o | None => false end) (representatives mutants cfg)))) as <-.
  { destruct failed; [done|]. f_equal. apply filter_ext. intros im. destruct (outs !! im.1) as [o|] eqn:E.
    - destruct (Forall2_lookup_l _ _ _ _ _ Ho E) as (o' & -> & E'). destruct o, o'. by injection E'.
    - assert (outs' !! im.1 = None) as ->; [|done]. apply lookup_ge_None. rewrite <- (Forall2_length _ _ _ Ho). by apply lookup_ge_None. }
  eapply blind_bind; [destruct failed; [constructor; exact Ho|by apply confirmAll_blind]|]. intros os os' Hos.
  destruct (0 <? _)%nat; [constructor; intros ? ?|]; constructor; by apply assemble_same.
Qed.
End Schedule.

(** ** Any two schedules *)

Definition with_concurrency (cfg : scoreConfig) (n : Z) : scoreConfig :=
  mkConfig (sc_capFloor cfg) (sc_mutantTimeout cfg) n (sc_mutantCompileCheck cfg) (sc_commandFor cfg) (sc_failureParser cfg)
    (sc_failFast cfg) (sc_killConfirmer cfg).

Section Any.
Context {dg : Digest}.
Variable jk : JailKind.
Variable base : gmap string string.
Variables codePath compliantCode : string.
Variable mutants : list Mutant.
Variable testCmd : list string.
Variable cfg : scoreConfig.

(** Grading and reporting after the prologue, with [n] for the concurrency. *)
Definition graded_run (n : Z) (su : Setup) (tr : list Event) (res : result ScoreErr Report) : Prop :=
  ∃ t2 outs t3, Graded jk base codePath compliantCode mutants testCmd (with_concurrency cfg n) su t2 outs ∧
    Runs (epilogue jk base codePath compliantCode mutants (with_concurrency cfg n) su outs) t3 res ∧ tr = t2 ++ t3.

Lemma Graded_each n su t2 outs : Graded jk base codePath compliantCode mutants testCmd (with_concurrency cfg n) su t2 outs →
  ∃ hs, Forall3 Runs (threads jk base codePath compliantCode mutants testCmd cfg su) hs outs ∧ t2 ≡ₚ concat hs.
Proof.
  unfold Graded. intros Hg. destruct (_ && _).
  - apply Pool_Runs in Hg as (hs & ? & ? & _). by exists hs.
  - apply pseq_Runs in Hg as (hs & ? & ->). by exists hs.
Qed.

Lemma threads_same su ans : ∀ hs outs hs' outs', Forall3 Runs (threads jk base codePath compliantCode mutants testCmd cfg su) hs outs →
  Forall3 Runs (threads jk base codePath compliantCode mutants testCmd cfg su) hs' outs' → steady ans (concat hs) → steady ans (concat hs') →
  Forall2 same_outcome outs outs'.
Proof.
  unfold threads. generalize (representatives mutants cfg) as reps. unfold steady.
  induction reps as [|im reps IH]; intros hs outs hs' outs' H H'; inversion H; inversion H'; subst; [constructor|].
  cbn [concat]. intros [S1 S2]%Forall_app [S1' S2']%Forall_app. constructor; [|by eapply IH].
  eapply blind_Runs; [apply scoreOne_blind|done|done|exact S1|exact S1'].
Qed.

(** One such run for every jail that answers. *)
Lemma graded_run_exec ans clock n su :
  let run := exec ans clock 0 (let* outs := pseq (threads jk base codePath compliantCode mutants testCmd cfg su) in
    epilogue jk base codePath compliantCode mutants cfg su outs) in
  graded_run n su run.1 run.2.
Proof.
  cbn zeta. destruct (proj1 (Runs_bind _ _ _ _) (exec_Runs ans clock (let* outs := pseq (threads jk base codePath compliantCode mutants testCmd cfg su) in
    epilogue jk base codePath compliantCode mutants cfg su outs) 0)) as (t2 & t3 & outs & -> & Hs & He).
  exists t2, outs, t3. split_and!; [|done|done]. unfold Graded. destruct (_ && _) eqn:E; [|done].
  apply andb_prop in E as [E%Z.ltb_lt _]. apply pseq_Pool; [lia|done].
Qed.

(** C19. Concurrency changes the clock and not the answer. Given what the prologue found,
    two calls whose runs are answered alike return the same error or the same report, in
    every list, count, reason and record, the durations alone aside: whatever the
    numbers of workers, and whatever the order their runs fell in. *)
Theorem schedule_independent ans n n' su tr tr' res res' : graded_run n su tr res → graded_run n' su tr' res' → steady ans tr → steady ans tr' →
  undated_result res = undated_result res'.
Proof.
  intros (t2 & outs & t3 & (hs & Hall & Hp)%Graded_each & He & ->) (t2' & outs' & t3' & (hs' & Hall' & Hp')%Graded_each & He' & ->) [S2 S3]%Forall_app [S2' S3']%Forall_app.
  assert (Forall2 same_outcome outs outs') as Ho.
  { eapply threads_same; [exact Hall|exact Hall'|..]; unfold steady; [by rewrite <- Hp|by rewrite <- Hp']. }
  eapply (blind_Runs _ _ _ (epilogue_blind jk base codePath compliantCode mutants cfg su outs outs' Ho)); [exact He|exact He'|exact S3|exact S3'].
Qed.
End Any.
