(* ===== verification/AdequacySamples.v ===== *)
(** * A small suite scored

    Two mutants of one line and a repeated one, a suite that catches the first, and a
    jail that answers by the file's text: the scorer's program evaluated, its theorems
    applied to what it did, and the pool run at two concurrencies. *)
From S2P Require Import Prelude GoLib GoText Crypto TestMap Float64 Invocations Mutant Jail Score ScoreFacts Adequacy Schedules.
Local Open Scope string_scope.
Local Open Scope list_scope.
Local Open Scope Z_scope.

Definition src : string := "return a < b".
Definition m_caught : Mutant := mkMutant "m1" "" (mkLineRange 1 1) "a < b" "a > b".
Definition m_missed : Mutant := mkMutant "m2" "" (mkLineRange 1 1) "a < b" "a <= b".
Definition m_again : Mutant := mkMutant "m3" "" (mkLineRange 1 1) "a < b" "a > b".
Definition m_broken : Mutant := mkMutant "m4" "" (mkLineRange 1 1) "a == b" "a != b".
Definition exam : list Mutant := [m_caught; m_missed; m_again; m_broken].
Definition pytest : list string := ["pytest"].

(** The suite compares with 2 < 1: the mutant of another sign fails it. Its summary names
    the test, and the test alone answers as the suite does. *)
Definition suite (q : RunReq) : RunRes :=
  match rq_Files q !! "a.py" with
  | Some code => if String.eqb code "return a > b" || String.eqb code CanaryCode then mkRunRes false "FAILED t1" None else mkRunRes true "" None
  | None => mkRunRes false "" None
  end.
Definition ticks (n : nat) : Z := Z.of_nat n * second.

Definition options : scoreConfig := mkConfig 0 0 1 [] None
  (Some (mkFailureParser (λ out, if String.eqb out "FAILED t1" then "t1" else "") None)) None
  (Some (λ cmd t, Some (cmd ++ [t]))).
Definition detailed_jail : JailKind := mkJailKind true true.

Definition call (cfg : scoreConfig) : Prog (result ScoreErr Report) :=
  @Score Toy.digest detailed_jail ∅ "a.py" src exam pytest cfg map_to_list.
Definition did : list Event := (exec suite ticks 0 (call options)).1.

Example call_report : (λ r, (rp_Killed r, rp_Survived r, rp_Invalid r, rp_Unmeasured r, rp_Total r, rp_DuplicateMutants r, mg_KillConfirmation <$> rp_PerMutant r !! "m3"))
    <$> match (exec suite ticks 0 (call options)).2 with Ok r => Some r | Err _ => None end =
  Some (["m1"; "m3"], ["m2"], ["m4"], [], 3, 1, Some KillConfirmedAlone).
Proof. vm_compute. reflexivity. Qed.
Example call_runs : runs did = 6%nat.
Proof. vm_compute. reflexivity. Qed.

Definition report_of (r : result ScoreErr Report) : Report :=
  match r with Ok r => r | Err _ => baseline_report false false "" [] 0 end.
Definition the_report : Report := report_of (exec suite ticks 0 (call options)).2.

Lemma did_scored : @Scored Toy.digest detailed_jail ∅ "a.py" src exam pytest options map_to_list did (Ok the_report).
Proof.
  assert ((exec suite ticks 0 (call options)).2 = Ok the_report) as <- by (vm_compute; reflexivity).
  apply (@Score_runs Toy.digest detailed_jail ∅ "a.py" src exam pytest options map_to_list suite ticks).
Qed.
Lemma map_to_list_perm (m : gmap string (list string)) : map_to_list m ≡ₚ map_to_list m.
Proof. reflexivity. Qed.
Lemma exam_ids : NoDup (map mt_ID exam).
Proof. by apply (bool_decide_unpack _). Qed.

Lemma kill_confirmed_witness : "m3" ∈ rp_Killed the_report ∧
  ∃ t1 t2 t3 su m0 m code c, did = t1 ++ t2 ++ t3 ∧ m0 ∈ exam ∧ mt_ID m0 = "m3" ∧ m ∈ exam ∧ key_of options m = key_of options m0 ∧
    @Apply Toy.digest m0 src = Ok code ∧ reaches ∅ "a.py" src pytest options t1 su m ∧
    kill_backed ∅ "a.py" src pytest options su t2 t3 m code c ∧
    (NoDup (map mt_ID exam) → ∃ g, rp_PerMutant the_report !! "m3" = Some g ∧ mg_KillConfirmation g = c).
Proof.
  assert ("m3" ∈ rp_Killed the_report) as Hk by (vm_compute; right; left). split; [exact Hk|].
  exact (@kill_confirmed Toy.digest detailed_jail ∅ "a.py" src exam pytest options map_to_list map_to_list_perm did the_report "m3" did_scored Hk).
Defined.

Lemma survivor_passed_witness : "m2" ∈ rp_Survived the_report ∧
  ∃ t1 t23 su m0 m code, did = t1 ++ t23 ∧ m0 ∈ exam ∧ mt_ID m0 = "m2" ∧ m ∈ exam ∧ key_of options m = key_of options m0 ∧
    @Apply Toy.digest m0 src = Ok code ∧ reaches ∅ "a.py" src pytest options t1 su m ∧ pass_backed ∅ "a.py" pytest options su t23 m code.
Proof.
  assert ("m2" ∈ rp_Survived the_report) as Hk by (vm_compute; left). split; [exact Hk|].
  exact (@survivor_passed Toy.digest detailed_jail ∅ "a.py" src exam pytest options map_to_list map_to_list_perm did the_report "m2" did_scored Hk).
Defined.

Lemma report_accounts_witness : rp_Total the_report = 3 ∧
  rp_Killed the_report ++ rp_Survived the_report ++ rp_Invalid the_report ++ rp_Unmeasured the_report ≡ₚ map mt_ID exam.
Proof.
  split; [vm_compute; reflexivity|].
  exact (proj2 (proj2 (@report_accounts Toy.digest detailed_jail ∅ "a.py" src exam pytest options map_to_list map_to_list_perm did the_report did_scored))).
Defined.

Lemma twins_agree_witness : key_of options m_caught = key_of options m_again ∧ ("m1" ∈ rp_Killed the_report ↔ "m3" ∈ rp_Killed the_report).
Proof.
  split; [reflexivity|].
  refine (proj1 (@twins_agree Toy.digest detailed_jail ∅ "a.py" src exam pytest options map_to_list map_to_list_perm did the_report m_caught m_again did_scored exam_ids _ _ eq_refl));
    [left|right; right; left].
Defined.

Lemma runs_bounded_witness : (runs did = 6 ∧ 6 <= 3 + 0 + 2 * 0 + 3 * (0 + 6))%nat.
Proof.
  split; [vm_compute; reflexivity|].
  exact (@runs_bounded Toy.digest detailed_jail ∅ "a.py" src exam pytest options map_to_list map_to_list_perm did (Ok the_report) did_scored).
Defined.

(** Three programs of one run each in a pool of two permits. *)
Lemma pool_terminates_witness : (0 < 2)%nat ∧
  Acc (λ m' m, pool_step 2 m m') (start (replicate 3 (runCmd ∅ "a.py" None src pytest))).
Proof. split; [lia|]. refine (proj2 (pool_terminates 2 (replicate 3 (runCmd ∅ "a.py" None src pytest)) _)). lia. Defined.

Definition setup_of (st : Started) : Setup :=
  match st with Going su => su | Stopped _ => mkSetup the_report 0 None [] 0 0 ∅ ∅ ∅ end.
Definition the_setup : Setup := setup_of (exec suite ticks 0 (prologue detailed_jail ∅ "a.py" src exam pytest options map_to_list)).2.
Definition rest (clock : nat → Z) : list Event * result ScoreErr Report :=
  exec suite clock 0 (pbind (pseq (@threads Toy.digest detailed_jail ∅ "a.py" src exam pytest options the_setup))
    (λ outs, @epilogue Toy.digest detailed_jail ∅ "a.py" src exam options the_setup outs)).
Definition slow (n : nat) : Z := Z.of_nat n * 7 * second.

Lemma schedule_independent_witness :
  (rest ticks).2 ≠ (rest slow).2 ∧ undated_result (rest ticks).2 = undated_result (rest slow).2.
Proof.
  split; [vm_compute; intros E; discriminate E|].
  refine (@schedule_independent Toy.digest detailed_jail ∅ "a.py" src exam pytest options suite 1 2 the_setup (rest ticks).1 (rest slow).1 _ _ _ _ _ _).
  - apply (@graded_run_exec Toy.digest detailed_jail ∅ "a.py" src exam pytest options suite ticks 1 the_setup).
  - apply (@graded_run_exec Toy.digest detailed_jail ∅ "a.py" src exam pytest options suite slow 2 the_setup).
  - vm_compute. repeat constructor.
  - vm_compute. repeat constructor.
Defined.
