(* ===== verification/Queue.v ===== *)
(** * The task queue: internal/queue

    The store of store.go, supersede.go, findings.go and executions.go. A table is the list of
    its rows in id order, a statement a function of the tables: an UPDATE changes the rows its WHERE
    selects and counts them, an INSERT takes the next rowid and is refused by the UNIQUE
    constraint, a comparison with NULL does not hold. A call is one step: the single connection makes a
    transaction one, and PromoteReady, ReclaimIdle, Reap and RetargetDependents, which read and then write
    row by row, are taken without another call in between; their loops are definitions of their own, on the rows
    read and the rows as they are by then, and QueueSamples.v runs two calls that interleave. The column depends_on
    holds the JSON of the list kept here. Times are doubles and every
    reading of the clock is an argument. A database that fails its statement is not modelled. *)
From S2P Require Import Prelude GoLib Float64.
Local Open Scope string_scope.
Local Open Scope list_scope.
Local Open Scope Z_scope.

(** ** Tables *)

Inductive TaskStatus := StatusPending | StatusReady | StatusClaimed | StatusDone | StatusCancelled | StatusSuperseded.
#[export] Instance TaskStatus_eq_dec : EqDecision TaskStatus.
Proof. solve_decision. Defined.
Definition is_status (s s' : TaskStatus) : bool := bool_decide (s = s').
(** The statuses that leave a mission open. *)
Definition open_status (s : TaskStatus) : bool :=
  match s with StatusPending | StatusReady | StatusClaimed => true | _ => false end.

Record TaskSpec := mkSpec {
  ts_Key : string; ts_Role : string; ts_Title : string; ts_Instruction : string; ts_System : string;
  ts_DependsOn : list string; ts_Verify : string; ts_Model : string }.

(** A row of tasks; the columns of the spec are kept together. *)
Record Task := mkTask {
  tk_ID : Z; tk_MissionID : Z; tk_Spec : TaskSpec; tk_Status : TaskStatus; tk_ClaimedBy : option string;
  tk_ClaimExpires : option double; tk_Result : option string; tk_Created : double; tk_ClaimedTS : option double;
  tk_DoneTS : option double; tk_Supersedes : Z; tk_Instance : string }.
Definition tk_Key (t : Task) : string := ts_Key (tk_Spec t).
Definition tk_Deps (t : Task) : list string := ts_DependsOn (tk_Spec t).

Record Finding := mkFinding {
  fi_ID : Z; fi_MissionID : Z; fi_TaskID : Z; fi_Reporter : string; fi_Model : string; fi_Backend : string;
  fi_Type : string; fi_Severity : string; fi_Target : string; fi_Scope : string; fi_TestFile : string;
  fi_Selector : string; fi_Evidence : string; fi_Action : string; fi_Status : string; fi_Recurring : bool;
  fi_Created : double; fi_Resolved : double }.

Record Execution := mkExecution {
  ex_ID : Z; ex_MissionID : Z; ex_Agent : string; ex_Role : string; ex_Command : string; ex_Exit : Z; ex_OK : bool; ex_TS : Z }.

Record Store := mkStore {
  st_tasks : list Task; st_findings : list Finding; st_executions : list Execution; st_halts : gmap Z string }.
Definition with_tasks (st : Store) (ts : list Task) : Store := mkStore ts (st_findings st) (st_executions st) (st_halts st).
Definition with_findings (st : Store) (fs : list Finding) : Store := mkStore (st_tasks st) fs (st_executions st) (st_halts st).
Definition with_executions (st : Store) (es : list Execution) : Store := mkStore (st_tasks st) (st_findings st) es (st_halts st).
Definition with_halts (st : Store) (hs : gmap Z string) : Store := mkStore (st_tasks st) (st_findings st) (st_executions st) hs.

(** ** Statements *)

(** UPDATE … WHERE, and RowsAffected. *)
Definition update_where {A} (p : A → bool) (f : A → A) (rows : list A) : list A := map (λ x, if p x then f x else x) rows.
Definition affected {A} (p : A → bool) (rows : list A) : nat := length (List.filter p rows).
(** The rowid an INSERT takes. *)
Definition next_id (ids : list Z) : Z := 1 + foldr Z.max 0 ids.
(** ORDER BY … LIMIT 1. *)
Fixpoint first_by {A} (before : A → A → bool) (rows : list A) : option A :=
  match rows with
  | [] => None
  | x :: rest => match first_by before rest with Some y => Some (if before y x then y else x) | None => Some x end
  end.
Definition flt (x y : double) : bool := fgt y x.
Definition null_eq (o : option string) (s : string) : bool := match o with Some x => String.eqb x s | None => false end.
Definition null_lt (o : option double) (t : double) : bool := match o with Some x => flt x t | None => false end.
(** ORDER BY ts, id; a NULL comes first. *)
Definition by_time (time : Task → option double) (a b : Task) : bool :=
  match time a, time b with
  | None, Some _ => true
  | Some _, None => false
  | None, None => tk_ID a <? tk_ID b
  | Some x, Some y => flt x y || (feq x y && (tk_ID a <? tk_ID b))
  end.

Inductive QueueErr := KeyTaken | NoSuchTask | NoUniqueKey (base : string) | TargetMissing (key : string) | WouldCycle | BadFinding (why : string) | BadStatus.

Definition in_mission (m : Z) (t : Task) : bool := tk_MissionID t =? m.
Definition has_status (s : TaskStatus) (t : Task) : bool := is_status (tk_Status t) s.
Definition has_id (id : Z) (t : Task) : bool := tk_ID t =? id.

(** What the UPDATEs set. *)
Definition set_deps (deps : list string) (t : Task) : Task :=
  let s := tk_Spec t in
  mkTask (tk_ID t) (tk_MissionID t) (mkSpec (ts_Key s) (ts_Role s) (ts_Title s) (ts_Instruction s) (ts_System s) deps (ts_Verify s) (ts_Model s))
    (tk_Status t) (tk_ClaimedBy t) (tk_ClaimExpires t) (tk_Result t) (tk_Created t) (tk_ClaimedTS t) (tk_DoneTS t) (tk_Supersedes t) (tk_Instance t).
Definition set_status (s : TaskStatus) (t : Task) : Task :=
  mkTask (tk_ID t) (tk_MissionID t) (tk_Spec t) s (tk_ClaimedBy t) (tk_ClaimExpires t) (tk_Result t) (tk_Created t) (tk_ClaimedTS t)
    (tk_DoneTS t) (tk_Supersedes t) (tk_Instance t).
Definition set_reclaimed (ts exp : double) (instance : string) (t : Task) : Task :=
  mkTask (tk_ID t) (tk_MissionID t) (tk_Spec t) (tk_Status t) (tk_ClaimedBy t) (Some exp) (tk_Result t) (tk_Created t) (Some ts)
    (tk_DoneTS t) (tk_Supersedes t) instance.
Definition set_claimed (bee : string) (ts exp : double) (instance : string) (t : Task) : Task :=
  mkTask (tk_ID t) (tk_MissionID t) (tk_Spec t) StatusClaimed (Some bee) (Some exp) (tk_Result t) (tk_Created t) (Some ts)
    (tk_DoneTS t) (tk_Supersedes t) instance.
Definition set_done (result : string) (ts : double) (t : Task) : Task :=
  mkTask (tk_ID t) (tk_MissionID t) (tk_Spec t) StatusDone (tk_ClaimedBy t) None (Some result) (tk_Created t) (tk_ClaimedTS t)
    (Some ts) (tk_Supersedes t) (tk_Instance t).
Definition set_requeued (t : Task) : Task :=
  mkTask (tk_ID t) (tk_MissionID t) (tk_Spec t) StatusReady None None (tk_Result t) (tk_Created t) None (tk_DoneTS t) (tk_Supersedes t) "".
Definition set_dropped (s : TaskStatus) (t : Task) : Task :=
  mkTask (tk_ID t) (tk_MissionID t) (tk_Spec t) s None None (tk_Result t) (tk_Created t) (tk_ClaimedTS t) (tk_DoneTS t) (tk_Supersedes t) (tk_Instance t).
Definition set_reopened (t : Task) : Task :=
  mkTask (tk_ID t) (tk_MissionID t) (tk_Spec t) StatusReady None (tk_ClaimExpires t) None (tk_Created t) None None (tk_Supersedes t) (tk_Instance t).

(** ** Enqueueing and promotion *)

Definition taken (m : Z) (key : string) (ts : list Task) : bool := existsb (λ t, in_mission m t && String.eqb (tk_Key t) key) ts.
Definition insert_task (m : Z) (sp : TaskSpec) (now : double) (supersedes : Z) (ts : list Task) : option (list Task) :=
  if taken m (ts_Key sp) ts then None
  else Some (ts ++ [mkTask (next_id (map tk_ID ts)) m sp StatusPending None None None now None None supersedes ""]).

(** The INSERTs of a call, each at its own reading of the clock. *)
Fixpoint insert_all (m : Z) (specs : list TaskSpec) (now : nat → double) (i : nat) (ts : list Task) : option (list Task) :=
  match specs with
  | [] => Some ts
  | sp :: rest => match insert_task m sp (now i) 0 ts with Some ts => insert_all m rest now (S i) ts | None => None end
  end.
Definition Enqueue (m : Z) (specs : list TaskSpec) (now : nat → double) (st : Store) : result QueueErr Store :=
  match insert_all m specs now 0 (st_tasks st) with Some ts => Ok (with_tasks st ts) | None => Err KeyTaken end.

Definition keysWithStatus (m : Z) (s : TaskStatus) (ts : list Task) : list string :=
  map tk_Key (List.filter (λ t, in_mission m t && has_status s t) ts).
Definition allDone (deps : list string) (done : list string) : bool := forallb (λ d, bool_decide (d ∈ done)) deps.

(** One pending task of the call: promoted when its dependencies were done. *)
Definition promote_one (done : list string) (acc : Z * list Task) (p : Task) : Z * list Task :=
  if allDone (tk_Deps p) done
  then (acc.1 + 1, update_where (λ t, has_id (tk_ID p) t && has_status StatusPending t) (set_status StatusReady) acc.2)
  else acc.
Definition PromoteReady (m : Z) (st : Store) : Z * Store :=
  let done := keysWithStatus m StatusDone (st_tasks st) in
  let pending := List.filter (λ t, in_mission m t && has_status StatusPending t) (st_tasks st) in
  let '(n, ts) := foldl (promote_one done) (0, st_tasks st) pending in
  (n, with_tasks st ts).

(** ** Claims *)

Definition halted (st : Store) (t : Task) : bool := bool_decide (is_Some (st_halts st !! tk_MissionID t)).
(** role IN (roles…, ''), when roles are named. *)
Definition serves (roles : list string) (t : Task) : bool :=
  match roles with [] => true | _ => bool_decide (ts_Role (tk_Spec t) ∈ roles) || String.eqb (ts_Role (tk_Spec t)) "" end.

(** The columns a claim hands out. *)
Definition handed (bee : string) (t : Task) : Task :=
  let s := tk_Spec t in
  mkTask (tk_ID t) (tk_MissionID t) (mkSpec (ts_Key s) (ts_Role s) (ts_Title s) (ts_Instruction s) (ts_System s) (ts_DependsOn s) "" (ts_Model s))
    StatusClaimed (Some bee) (tk_ClaimExpires t) None (tk_Created t) (tk_ClaimedTS t) None 0 "".

(** A claim of the same bee it may have lost the reply to: its own instance's, or an expired one. *)
Definition orphaned (st : Store) (bee instance : string) (roles : list string) (t0 : double) (t : Task) : bool :=
  has_status StatusClaimed t && null_eq (tk_ClaimedBy t) bee &&
  ((String.eqb (tk_Instance t) instance && negb (String.eqb instance "")) || null_lt (tk_ClaimExpires t) t0) &&
  negb (halted st t) && serves roles t.
Definition claimable (st : Store) (roles : list string) (t : Task) : bool :=
  has_status StatusReady t && negb (halted st t) && serves roles t.

(** The task handed out, whether it was one reissued, and the store. *)
Definition ClaimNextAs (bee instance : string) (roles : list string) (leaseSeconds now0 now1 : double) (st : Store)
    : option (Task * bool) * Store :=
  match first_by (by_time tk_ClaimedTS) (List.filter (orphaned st bee instance roles now0) (st_tasks st)) with
  | Some t =>
      let set := set_reclaimed now0 (fadd now0 leaseSeconds) instance in
      (Some (handed bee (set t), true),
       with_tasks st (update_where (λ r, has_id (tk_ID t) r && has_status StatusClaimed r) set (st_tasks st)))
  | None =>
      match first_by (by_time (λ t, Some (tk_Created t))) (List.filter (claimable st roles) (st_tasks st)) with
      | None => (None, st)
      | Some t =>
          let set := set_claimed bee now1 (fadd now1 leaseSeconds) instance in
          (Some (handed bee (set t), false),
           with_tasks st (update_where (λ r, has_id (tk_ID t) r && has_status StatusReady r) set (st_tasks st)))
      end
  end.
Definition ClaimNext (bee : string) : list string → double → double → double → Store → option (Task * bool) * Store := ClaimNextAs bee "".

Definition held_by (id : Z) (bee : string) (t : Task) : bool := has_id id t && has_status StatusClaimed t && null_eq (tk_ClaimedBy t) bee.
Definition Complete (id : Z) (bee result : string) (now : double) (st : Store) : bool * Store :=
  ((0 <? affected (held_by id bee) (st_tasks st))%nat,
   with_tasks st (update_where (held_by id bee) (set_done result now) (st_tasks st))).

(** ReclaimIdle: the ids reclaimed. *)
Definition idle_claim (bee : string) (cutoff t0 : double) (t : Task) : bool :=
  has_status StatusClaimed t && null_eq (tk_ClaimedBy t) bee && null_lt (tk_ClaimedTS t) cutoff && null_lt (tk_ClaimExpires t) t0.
Definition reclaim_one (bee : string) (acc : list Task * list Task) (t : Task) : list Task * list Task :=
  (if (0 <? affected (held_by (tk_ID t) bee) acc.2)%nat then acc.1 ++ [t] else acc.1,
   update_where (held_by (tk_ID t) bee) set_requeued acc.2).
Definition ReclaimIdle (bee : string) (graceSeconds now : double) (st : Store) : list Task * Store :=
  let stale := List.filter (idle_claim bee (fsub now graceSeconds) now) (st_tasks st) in
  let '(reclaimed, ts) := foldl (reclaim_one bee) ([], st_tasks st) stale in
  (reclaimed, with_tasks st ts).

(** Reap: with a presence set, the tasks of the absent; without one, the expired. *)
Definition gone (present : option (gset string)) (now : double) (t : Task) : bool :=
  match present with
  | Some p => negb (bool_decide (default "" (tk_ClaimedBy t) ∈ p))
  | None => null_lt (tk_ClaimExpires t) now
  end.
Definition reap_one (present : option (gset string)) (now : double) (acc : Z * list Task) (h : Task) : Z * list Task :=
  if gone present now h
  then (acc.1 + 1, update_where (λ t, has_id (tk_ID h) t && has_status StatusClaimed t) set_requeued acc.2)
  else acc.
Definition Reap (present : option (gset string)) (now : double) (st : Store) : Z * Store :=
  let claimed := List.filter (has_status StatusClaimed) (st_tasks st) in
  let '(n, ts) := foldl (reap_one present now) (0, st_tasks st) claimed in
  (n, with_tasks st ts).

(** ** Reads *)

Definition HoldsClaimedTask (agent : string) (st : Store) : bool :=
  existsb (λ t, has_status StatusClaimed t && null_eq (tk_ClaimedBy t) agent) (st_tasks st).
Definition MissionRoles (m : Z) (st : Store) : list string :=
  sort_strings (remove_dups (map (λ t, ts_Role (tk_Spec t)) (List.filter (in_mission m) (st_tasks st)))).
Definition MissionTaskKeys (m : Z) (st : Store) : list string := map tk_Key (List.filter (in_mission m) (st_tasks st)).
Definition MissionDone (m : Z) (st : Store) : bool :=
  (0 <? affected (in_mission m) (st_tasks st))%nat &&
  (affected (λ t, in_mission m t && open_status (tk_Status t)) (st_tasks st) =? 0)%nat.
Definition TaskByID (id : Z) (st : Store) : option Task := List.find (has_id id) (st_tasks st).
Definition MissionOfTask (id : Z) (st : Store) : Z := match TaskByID id st with Some t => tk_MissionID t | None => 0 end.
Definition ListTasks (m : Z) (st : Store) : list Task := List.filter (in_mission m) (st_tasks st).

(** ** Halts and pruning *)

Definition DeleteMissionTasks (m : Z) (st : Store) : Store := with_tasks st (List.filter (λ t, negb (in_mission m t)) (st_tasks st)).
Definition FootprintCounts (m : Z) (st : Store) : nat * nat * nat :=
  (affected (in_mission m) (st_tasks st), affected (λ f, fi_MissionID f =? m) (st_findings st), affected (λ e, ex_MissionID e =? m) (st_executions st)).
Definition PruneMission (m : Z) (st : Store) : Store :=
  mkStore (List.filter (λ t, negb (in_mission m t)) (st_tasks st)) (List.filter (λ f, negb (fi_MissionID f =? m)) (st_findings st))
    (List.filter (λ e, negb (ex_MissionID e =? m)) (st_executions st)) (delete m (st_halts st)).
Definition HaltMission (m : Z) (reason : string) (st : Store) : Store := with_halts st (<[m := reason]> (st_halts st)).
Definition UnhaltMission (m : Z) (st : Store) : Store := with_halts st (delete m (st_halts st)).
Definition MissionHaltReason (m : Z) (st : Store) : string := default "" (st_halts st !! m).

(** ** Re-planning *)

Definition cancellable (id : Z) (t : Task) : bool := has_id id t && open_status (tk_Status t).
Definition CancelTask (id : Z) (st : Store) : bool * Store :=
  ((0 <? affected (cancellable id) (st_tasks st))%nat,
   with_tasks st (update_where (cancellable id) (set_dropped StatusCancelled) (st_tasks st))).
Definition reopenable (id : Z) (t : Task) : bool := has_id id t && has_status StatusDone t.
Definition ReopenTask (id : Z) (st : Store) : bool * Store :=
  ((0 <? affected (reopenable id) (st_tasks st))%nat, with_tasks st (update_where (reopenable id) set_reopened (st_tasks st))).

(** uniqueKeyTx: the base, then base-r2, base-r3, … *)
Fixpoint unique_loop (m : Z) (base : string) (ts : list Task) (rounds : nat) (i : Z) (key : string) : option string :=
  match rounds with
  | O => None
  | S r => if negb (taken m key ts) then Some key else unique_loop m base ts r (i + 1) (base +:+ "-r" +:+ format_int i)
  end.
Definition uniqueKeyTx (m : Z) (base : string) (ts : list Task) : option string := unique_loop m base ts (Z.to_nat 9998) 2 base.

Definition rewritten (oldKey newKey : string) (deps : list string) : list string := map (λ k, if String.eqb k oldKey then newKey else k) deps.
Definition rewrite_one (oldKey newKey : string) (ts : list Task) (d : Task) : list Task :=
  update_where (has_id (tk_ID d)) (set_deps (rewritten oldKey newKey (tk_Deps d))) ts.

Definition rekeyed (spec : TaskSpec) (key verify : string) : TaskSpec :=
  mkSpec key (ts_Role spec) (ts_Title spec) (ts_Instruction spec) (ts_System spec) (ts_DependsOn spec) verify (ts_Model spec).
Definition SupersedeTask (oldID : Z) (spec : TaskSpec) (now : double) (st : Store) : result QueueErr (Z * Store) :=
  let ts := st_tasks st in
  match TaskByID oldID st with
  | None => Err NoSuchTask
  | Some old =>
      let m := tk_MissionID old in
      let base := if String.eqb (ts_Key spec) "" then tk_Key old else ts_Key spec in
      match uniqueKeyTx m base ts with
      | None => Err (NoUniqueKey base)
      | Some key =>
          let verify := if String.eqb (ts_Verify spec) "" then ts_Verify (tk_Spec old) else ts_Verify spec in
          let dependents := List.filter (λ t, in_mission m t && has_status StatusPending t && bool_decide (tk_Key old ∈ tk_Deps t)) ts in
          let ts := update_where (has_id oldID) (set_dropped StatusSuperseded) ts in
          match insert_task m (rekeyed spec key verify) now oldID ts with
          | None => Err KeyTaken
          | Some ts' => Ok (next_id (map tk_ID ts), with_tasks st (foldl (rewrite_one (tk_Key old) key) ts' dependents))
          end
      end
  end.

(** CancelTaskGuarded's walk over the live dependents, breadth first. *)
Definition node : Type := Z * string.
Definition dependentsOf (all : list Task) (key : string) : list Task :=
  List.concat (map (λ x, map (λ _, x) (List.filter (String.eqb key) (tk_Deps x))) all).
Definition visit (acc : gset Z * list node) (x : Task) : gset Z * list node :=
  if bool_decide (tk_ID x ∈ acc.1) || negb (open_status (tk_Status x)) then acc
  else ({[ tk_ID x ]} ∪ acc.1, acc.2 ++ [(tk_ID x, tk_Key x)]).
Fixpoint walk (all : list Task) (fuel : nat) (frontier : list node) (seen : gset Z) (subtree : list node) : option (list node) :=
  match frontier, fuel with
  | [], _ => Some subtree
  | _, O => None
  | cur :: rest, S f =>
      let '(seen', frontier') := foldl visit (seen, rest) (dependentsOf all cur.2) in
      walk all f frontier' seen' (subtree ++ [cur])
  end.
Definition subtree_of (t : Task) (st : Store) : option (list node) :=
  let all := ListTasks (tk_MissionID t) st in
  walk all (S (length all)) [(tk_ID t, tk_Key t)] {[ tk_ID t ]} [].

Definition cancel_one (acc : list Z * Store) (n : node) : list Z * Store :=
  let '(ok, st) := CancelTask n.1 acc.2 in (if ok then acc.1 ++ [n.1] else acc.1, st).
(** The ids cancelled, the keys that blocked it, and the store; None when the walk ran
    out of fuel, which it does not. *)
Definition CancelTaskGuarded (id : Z) (cascade : bool) (st : Store) : option (result QueueErr (list Z * list string * Store)) :=
  match TaskByID id st with
  | None => Some (Err NoSuchTask)
  | Some t =>
      match subtree_of t st with
      | None => None
      | Some subtree =>
          let dependents := drop 1 subtree in
          if negb cascade && (0 <? length dependents)%nat then Some (Ok ([], map snd dependents, st))
          else let '(cancelled, st) := foldl cancel_one ([], st) subtree in Some (Ok (cancelled, [], st))
      end
  end.

(** RetargetDependents: the cycle guard over a snapshot, then one conditional write per task. *)
Definition by_key (ts : list Task) : gmap string Task := foldl (λ acc x, <[tk_Key x := x]> acc) ∅ ts.
Definition deps_at (byKey : gmap string Task) (k : string) : list string := match byKey !! k with Some t => tk_Deps t | None => [] end.
Fixpoint closure_reaches (byKey : gmap string Task) (fromKey : string) (fuel : nat) (stack : list string) (visited : gset string) : option bool :=
  match stack, fuel with
  | [], _ => Some false
  | _, O => None
  | k :: rest, S f =>
      if bool_decide (k ∈ visited) then closure_reaches byKey fromKey f rest visited
      else if String.eqb k fromKey then Some true
      else closure_reaches byKey fromKey f (rev (deps_at byKey k) ++ rest) ({[ k ]} ∪ visited)
  end.
Definition closure_fuel (ts : list Task) : nat := S (S (length (List.concat (map tk_Deps ts)))).

Definition deps_are (deps : list string) (t : Task) : bool := bool_decide (tk_Deps t = deps).
(** One turn of the loop over the snapshot, on the rows as they are by then. *)
Definition retarget_one (fromKey toKey : string) (acc : Z * list Task) (x : Task) : Z * list Task :=
  if negb (open_status (tk_Status x)) || negb (bool_decide (fromKey ∈ tk_Deps x)) then acc
  else
    let hit t := has_id (tk_ID x) t && deps_are (tk_Deps x) t in
    (if (affected hit acc.2 =? 1)%nat then acc.1 + 1 else acc.1,
     update_where hit (set_deps (rewritten fromKey toKey (tk_Deps x))) acc.2).
Definition retarget_plan (m : Z) (fromKey toKey : string) (snapshot : list Task) : option (result QueueErr (list Task)) :=
  match by_key snapshot !! toKey with
  | None => Some (Err (TargetMissing toKey))
  | Some _ =>
      match closure_reaches (by_key snapshot) fromKey (closure_fuel snapshot) [toKey] ∅ with
      | None => None
      | Some true => Some (Err WouldCycle)
      | Some false => Some (Ok snapshot)
      end
  end.
Definition RetargetDependents (m : Z) (fromKey toKey : string) (st : Store) : option (result QueueErr (Z * Store)) :=
  match retarget_plan m fromKey toKey (ListTasks m st) with
  | None => None
  | Some (Err e) => Some (Err e)
  | Some (Ok snapshot) =>
      let '(n, ts) := foldl (retarget_one fromKey toKey) (0, st_tasks st) snapshot in Some (Ok (n, with_tasks st ts))
  end.

(** ** Findings *)

Definition FindingOpen : string := "open".
Definition findingTypes : list string := ["vuln"; "bug"; "design-flaw"; "missing-req"; "regression"; "note"; "change-request"; "ops"].
Definition severityRank (s : string) : option Z :=
  if String.eqb s "low" then Some 0 else if String.eqb s "medium" then Some 1 else if String.eqb s "high" then Some 2
  else if String.eqb s "critical" then Some 3 else None.
Definition SeverityRank (s : string) : Z := default 0 (severityRank s).
Definition findingStatuses : list string := ["open"; "addressed"; "dismissed"].

(** The row stored: open, its recurrence read from the table. *)
Definition stored (f : Finding) (id : Z) (recurring : bool) (now : double) : Finding :=
  mkFinding id (fi_MissionID f) (fi_TaskID f) (fi_Reporter f) (fi_Model f) (fi_Backend f) (fi_Type f) (fi_Severity f) (fi_Target f)
    (fi_Scope f) (fi_TestFile f) (fi_Selector f) (fi_Evidence f) (fi_Action f) FindingOpen recurring now (of_int 0).
Definition AddFinding (f : Finding) (now : double) (st : Store) : result QueueErr (Z * Store) :=
  if fi_MissionID f =? 0 then Err (BadFinding "mission_id required")
  else if String.eqb (fi_Reporter f) "" then Err (BadFinding "reporter required")
  else if negb (bool_decide (fi_Type f ∈ findingTypes)) then Err (BadFinding "invalid finding type")
  else if negb (bool_decide (is_Some (severityRank (fi_Severity f)))) then Err (BadFinding "invalid severity")
  else
    let recurring := negb (String.eqb (fi_Target f) "") &&
      (0 <? affected (λ g, String.eqb (fi_Type g) (fi_Type f) && String.eqb (fi_Target g) (fi_Target f)) (st_findings st))%nat in
    let id := next_id (map fi_ID (st_findings st)) in
    Ok (id, with_findings st (st_findings st ++ [stored f id recurring now])).

(** A mission's findings, newest first; an empty status is all. *)
Definition Findings (m : Z) (status : string) (st : Store) : list Finding :=
  rev (List.filter (λ f, (fi_MissionID f =? m) && (String.eqb status "" || String.eqb (fi_Status f) status)) (st_findings st)).

Definition set_finding (status : string) (now : double) (f : Finding) : Finding :=
  let resolved := if String.eqb status FindingOpen then fi_Resolved f else if feq (fi_Resolved f) (of_int 0) then now else fi_Resolved f in
  mkFinding (fi_ID f) (fi_MissionID f) (fi_TaskID f) (fi_Reporter f) (fi_Model f) (fi_Backend f) (fi_Type f) (fi_Severity f) (fi_Target f)
    (fi_Scope f) (fi_TestFile f) (fi_Selector f) (fi_Evidence f) (fi_Action f) status (fi_Recurring f) (fi_Created f) resolved.
Definition SetFindingStatus (id : Z) (status : string) (now : double) (st : Store) : result QueueErr (bool * Store) :=
  if negb (bool_decide (status ∈ findingStatuses)) then Err BadStatus
  else Ok ((0 <? affected (λ f, Z.eqb (fi_ID f) id) (st_findings st))%nat,
           with_findings st (update_where (λ f, fi_ID f =? id) (set_finding status now) (st_findings st))).

(** ** Executions *)

Definition RecordExecution (e : Execution) (st : Store) : Store :=
  with_executions st (st_executions st ++ [mkExecution (next_id (map ex_ID (st_executions st))) (ex_MissionID e) (ex_Agent e) (ex_Role e)
    (ex_Command e) (ex_Exit e) (ex_OK e) (ex_TS e)]).

(** SQL's LIKE: letters match in either case, [_] any character, [%] any run of them. *)
Definition lower (a : ascii) : ascii := if (65 <=? code a)%nat && (code a <=? 90)%nat then byte (code a + 32) else a.
Definition continuation (a : ascii) : bool := (128 <=? code a)%nat && (code a <? 192)%nat.
(** Past the rest of a character's bytes. *)
Fixpoint skip_continuation (s : string) : string :=
  match s with
  | String a s' => if continuation a then skip_continuation s' else s
  | "" => ""
  end.
Definition char_rest (a : ascii) (s : string) : string := if (192 <=? code a)%nat then skip_continuation s else s.
Fixpoint suffixes (s : string) : list string := match s with "" => [""] | String _ s' => s :: suffixes s' end.
Fixpoint like (p s : string) : bool :=
  match p with
  | "" => String.eqb s ""
  | String c p' =>
      if Ascii.eqb c "%" then existsb (like p') (suffixes s)
      else match s with
           | "" => false
           | String a s' => if Ascii.eqb c "_" then like p' (char_rest a s') else Ascii.eqb (lower c) (lower a) && like p' s'
           end
  end.

Definition by_recency (a b : Execution) : bool := (ex_TS b <? ex_TS a) || ((ex_TS a =? ex_TS b) && (ex_ID b <? ex_ID a)).
Definition MissionPassedVerifySinceBy (m : Z) (verify : string) (sinceTS : Z) (agent : string) (st : Store) : bool :=
  if String.eqb verify "" then true
  else
    let verify := trim_space verify in
    if String.eqb verify "" then true
    else
      let p e := (ex_MissionID e =? m) && (String.eqb agent "" || String.eqb (ex_Agent e) agent) && (sinceTS <=? ex_TS e) &&
                 (String.eqb (ex_Command e) verify || like (verify +:+ " %") (ex_Command e)) in
      match first_by by_recency (List.filter p (st_executions st)) with Some e => ex_OK e | None => false end.
