(* ===== verification/Verdict.v ===== *)
(** * The verdict: internal/killrate, internal/advpool/aggregate.go and exam.go

    How a scored report becomes a certified or needs-review verdict: the Wilson interval of the
    distinct edits in doubles, as the code computes it without fused operations; the sample it is taken over;
    the gate. The verdict the specification starts from (verdictFromSpec: the run's names and
    its disclosures) is an argument, and the clamping of the interval's ends to [0, 1] is the code's.
    Main results: when a verdict is certified ([aggregate_certified]); a small exam never
    is ([small_exam_indicative]); the sample counts edits, not copies ([examSampleOf_spec]). *)
From S2P Require Import Prelude GoLib GoText Crypto TestMap Float64 Queue Invocations Mutant Jail Score ScoreFacts Adequacy.
Local Open Scope string_scope.
Local Open Scope list_scope.
Local Open Scope Z_scope.

(** ** internal/killrate *)

(** The constant z and its square, each rounded once from the exact constant. *)
Definition z95 : double := round53 1959964 1000000.
Definition z95_squared : double := round53 (1959964 * 1959964) (1000000 * 1000000).
Definition one : double := of_int 1.

Definition WilsonInterval (killed graded : Z) : option (double * double) :=
  if (graded <=? 0) || (killed <? 0) || (graded <? killed) then None
  else
    let n := of_int graded in
    let p := fdiv (of_int killed) n in
    let denom := fadd one (fdiv z95_squared n) in
    let centre := fdiv (fadd p (fdiv z95_squared (fmul (of_int 2) n))) denom in
    let half := fdiv (fmul z95 (fsqrt (fadd (fdiv (fmul p (fsub one p)) n) (fdiv z95_squared (fmul (fmul (of_int 4) n) n))))) denom in
    let low := fsub centre half in
    let high := fadd centre half in
    Some (if fgt (of_int 0) low then of_int 0 else low, if fgt high one then one else high).

Definition Killed (graded survivors : Z) : Z := let k := graded - survivors in if 0 <? k then k else 0.
Definition Interval (graded survivors : Z) : option (double * double) := WilsonInterval (Killed graded survivors) graded.

(** ** The sample *)

Record examSample := mkExamSample { es_distinct : Z; es_survived : Z }.

(** [seen[id] = seen[id] || survived]. *)
Fixpoint mark (id : MutantIdentity) (sv : bool) (seen : list (MutantIdentity * bool)) : list (MutantIdentity * bool) :=
  match seen with
  | [] => [(id, sv)]
  | (k, v) :: rest => if bool_decide (id = k) then (k, v || sv) :: rest else (k, v) :: mark id sv rest
  end.

Definition in_list (l : list string) (id : string) : bool := existsb (String.eqb id) l.
Definition sample_step (rep : Report) (seen : list (MutantIdentity * bool)) (m : Mutant) : list (MutantIdentity * bool) :=
  if negb (in_list (rp_Killed rep) (mt_ID m)) && negb (in_list (rp_Survived rep) (mt_ID m)) then seen
  else mark (IdentityOf m) (in_list (rp_Survived rep) (mt_ID m)) seen.

Definition examSampleOf (rep : Report) (mutants : list Mutant) : examSample :=
  let seen := foldl (sample_step rep) [] mutants in
  mkExamSample (Z.of_nat (length seen)) (Z.of_nat (length (List.filter snd seen))).

(** ** The gate *)

Inductive Status := StatusCertified | StatusNeedsReview.
Inductive Indication := NoDistinct | TooWide (distinct : Z) (lo hi width most : double).

(** The fields of a Verdict that aggregate assigns. *)
Record Verdict := mkVerdict {
  vd_DevKillRate : double; vd_MutantsTotal : Z; vd_Survivors : Z; vd_ProvenMissed : Z;
  vd_VacuousFindings : list Finding; vd_ModelsByRole : gmap string string; vd_Status : Status;
  vd_TestWriterFailed : bool; vd_PoolTestUnsound : bool; vd_DevScored : bool; vd_PoolScored : bool;
  vd_ExamIndicative : bool; vd_IndicativeReason : option Indication }.

(** exam.go's constant 0.35. *)
Definition MaxCertifiableIntervalWidth : double := round53 35 100.

Definition gate_status (devKillRate threshold : double) (blockingFindingOpen testWriterFailed poolTestUnsound : bool) : Status :=
  if blockingFindingOpen || fgt threshold devKillRate || testWriterFailed || poolTestUnsound then StatusNeedsReview else StatusCertified.

(** Why an exam is only an indication; None: the rate is a grade. *)
Definition exam_indication (mutantsTotal : Z) (width : double) (exam : examSample) : option Indication :=
  if (0 <? mutantsTotal) && fgt width (of_int 0) then
    if es_distinct exam =? 0 then Some NoDistinct
    else
      match Interval (es_distinct exam) (es_survived exam) with
      | Some (lo, hi) => if fgt (fsub hi lo) width then Some (TooWide (es_distinct exam) lo hi (fsub hi lo) width) else None
      | None => None
      end
  else None.

Definition aggregate (assign : gmap string string) (devKillRate : double) (mutantsTotal survivors provenMissed : Z)
    (vacuousFindings : list Finding) (threshold certifyIntervalWidth : double) (exam : examSample)
    (blockingFindingOpen testWriterFailed poolTestUnsound : bool) : Verdict :=
  let verdict st indicative reason :=
    mkVerdict devKillRate mutantsTotal survivors provenMissed vacuousFindings assign st testWriterFailed poolTestUnsound
      true true indicative reason in
  match gate_status devKillRate threshold blockingFindingOpen testWriterFailed poolTestUnsound with
  | StatusNeedsReview => verdict StatusNeedsReview false None
  | StatusCertified =>
      match exam_indication mutantsTotal certifyIntervalWidth exam with
      | Some why => verdict StatusNeedsReview true (Some why)
      | None => verdict StatusCertified false None
      end
  end.

(** ** The sample counts edits *)

Lemma elem_of_mark id sv seen k v : NoDup seen.*1 → (k, v) ∈ mark id sv seen ↔
  if bool_decide (k = id) then v = sv || bool_decide ((id, true) ∈ seen) else (k, v) ∈ seen.
Proof.
  induction seen as [|[k' v'] seen IH]; cbn [mark fmap list_fmap fst]; intros Hnd.
  - case_bool_decide as E; rewrite list_elem_of_singleton.
    + subst. rewrite (bool_decide_eq_false_2 _ (not_elem_of_nil _)), orb_false_r. naive_solver.
    + rewrite elem_of_nil. naive_solver.
  - apply NoDup_cons in Hnd as [Hk' Hnd].
    assert (∀ x, (k', x) ∉ seen) as Hfresh by (intros x Hx; apply Hk', list_elem_of_fmap; by exists (k', x)).
    assert (∀ v0, k' ≠ id → bool_decide ((id, true) ∈ (k', v0) :: seen) = bool_decide ((id, true) ∈ seen)) as Hskip.
    { intros v0 ?. apply bool_decide_ext. rewrite elem_of_cons. naive_solver. }
    assert (bool_decide ((k', true) ∈ (k', v') :: seen) = v') as Hhere.
    { apply eq_true_iff_eq. rewrite bool_decide_eq_true, elem_of_cons. naive_solver. }
    destruct (bool_decide_reflect (id = k')) as [->|E].
    + rewrite elem_of_cons, Hhere. destruct (bool_decide_reflect (k = k')) as [->|?]; [rewrite orb_comm|rewrite elem_of_cons]; naive_solver.
    + rewrite elem_of_cons, (IH Hnd), (Hskip v') by done. destruct (bool_decide_reflect (k = id)) as [->|?]; [|rewrite elem_of_cons]; naive_solver.
Qed.
Lemma elem_of_mark_keys id sv seen k : k ∈ (mark id sv seen).*1 ↔ k = id ∨ k ∈ seen.*1.
Proof.
  induction seen as [|[k' v'] seen IH]; cbn [mark].
  - cbn. by rewrite list_elem_of_singleton, elem_of_nil; naive_solver.
  - case_bool_decide as E; cbn; rewrite !elem_of_cons; [naive_solver|]. rewrite IH. naive_solver.
Qed.
Lemma NoDup_mark id sv seen : NoDup seen.*1 → NoDup (mark id sv seen).*1.
Proof.
  induction seen as [|[k' v'] seen IH]; cbn [mark]; intros Hnd; [apply NoDup_singleton|].
  cbn in Hnd. apply NoDup_cons in Hnd as [Hk Hnd]. case_bool_decide; cbn; apply NoDup_cons; split; try done; [|by apply IH].
  rewrite elem_of_mark_keys. naive_solver.
Qed.

(** A mutant with an outcome, and a mutant that survived. *)
Definition measured (rep : Report) (m : Mutant) : bool := in_list (rp_Killed rep) (mt_ID m) || in_list (rp_Survived rep) (mt_ID m).
Definition survived (rep : Report) (m : Mutant) : bool := in_list (rp_Survived rep) (mt_ID m).

Lemma survived_measured rep m : survived rep m = true → measured rep m = true.
Proof. unfold survived, measured. intros ->. apply orb_true_r. Qed.

Lemma sample_loop rep ms : let seen := foldl (sample_step rep) [] ms in
  NoDup seen.*1 ∧ (∀ k, k ∈ seen.*1 ↔ k ∈ map IdentityOf (List.filter (measured rep) ms)) ∧
  ∀ k v, (k, v) ∈ seen → v = bool_decide (k ∈ map IdentityOf (List.filter (survived rep) ms)).
Proof.
  induction ms as [|m ms IH] using rev_ind; cbn zeta in *.
  { cbn. split_and!; [constructor|done|by intros ? ? ?%elem_of_nil]. }
  rewrite foldl_app, !List.filter_app, !map_app. cbn [foldl List.filter]. set (seen := foldl _ [] ms) in *. destruct IH as (Hnd & Hk & Hv).
  unfold sample_step. rewrite <- negb_orb. fold (measured rep m). fold (survived rep m). destruct (measured rep m) eqn:Em; cbn [negb map].
  - split_and!; [by apply NoDup_mark| |].
    + intros k. rewrite elem_of_mark_keys, Hk, elem_of_app, list_elem_of_singleton. naive_solver.
    + intros k v. rewrite elem_of_mark by done. case_bool_decide as E.
      * subst k. intros ->. apply eq_true_iff_eq. rewrite orb_true_iff, !bool_decide_eq_true, elem_of_app.
        assert ((IdentityOf m, true) ∈ seen ↔ IdentityOf m ∈ map IdentityOf (List.filter (survived rep) ms)) as ->.
        { split; [intros Hin%Hv; symmetry in Hin; by apply bool_decide_eq_true in Hin|]. intros Hin.
          assert (IdentityOf m ∈ seen.*1) as ([k v] & Ek & Hkv)%list_elem_of_fmap.
          { apply Hk. revert Hin. rewrite !list_elem_of_fmap. intros (x & ? & Hx). exists x. split; [done|].
            rewrite list_elem_of_In, filter_In, <- list_elem_of_In in *. destruct Hx as [? ?]. split; [done|by apply survived_measured]. }
          cbn in Ek. subst k. pose proof (Hv _ _ Hkv) as ->. rewrite bool_decide_eq_true_2 in Hkv; done. }
        destruct (survived rep m); cbn; rewrite ?list_elem_of_singleton, ?elem_of_nil; naive_solver.
      * intros ->%Hv. apply bool_decide_ext. rewrite elem_of_app. destruct (survived rep m); cbn; rewrite ?list_elem_of_singleton, ?elem_of_nil; naive_solver.
  - assert (survived rep m = false) as -> by (destruct (survived rep m) eqn:E; [by rewrite survived_measured in Em|done]).
    cbn. rewrite !app_nil_r. done.
Qed.

Lemma same_length {A} `{EqDecision A} (l1 l2 : list A) : NoDup l1 → (∀ x, x ∈ l1 ↔ x ∈ l2) → length l1 = length (remove_dups l2).
Proof.
  intros Hnd H. apply Permutation_length, NoDup_Permutation; [done|apply NoDup_remove_dups|]. intros x. by rewrite elem_of_remove_dups.
Qed.

(** The sample of the certification interval counts distinct edits, whatever the order of
    the mutants: each edit with a copy that was killed or survived once, and as survived when
    any of its copies did; a mutant without an outcome counts for nothing. *)
Theorem examSampleOf_spec rep mutants :
  es_distinct (examSampleOf rep mutants) = Z.of_nat (length (remove_dups (map IdentityOf (List.filter (measured rep) mutants)))) ∧
  es_survived (examSampleOf rep mutants) = Z.of_nat (length (remove_dups (map IdentityOf (List.filter (survived rep) mutants)))).
Proof.
  pose proof (sample_loop rep mutants) as (Hnd & Hk & Hv). unfold examSampleOf. cbn zeta in *. set (seen := foldl _ _ _) in *. cbn [es_distinct es_survived].
  split; f_equal; [rewrite <- (length_fmap fst); by apply same_length|].
  rewrite <- (length_fmap fst). apply same_length.
  - eapply sublist_NoDup; [exact Hnd|]. apply fmap_sublist, filter_sublist.
  - intros k. rewrite list_elem_of_fmap. split.
    + intros ([k' v] & -> & Hin). rewrite list_elem_of_In, filter_In, <- list_elem_of_In in Hin. destruct Hin as [Hin Ht]. cbn in *. subst v.
      pose proof (Hv _ _ Hin) as E. symmetry in E. by apply bool_decide_eq_true in E.
    + intros Hs. assert (k ∈ seen.*1) as ([k' v] & -> & Hkv)%list_elem_of_fmap.
      { apply Hk. revert Hs. rewrite !list_elem_of_fmap. intros (x & ? & Hx). exists x. split; [done|].
        rewrite list_elem_of_In, filter_In, <- list_elem_of_In in *. destruct Hx. split; [done|by apply survived_measured]. }
      exists (k', v). split; [done|]. rewrite list_elem_of_In, filter_In, <- list_elem_of_In. split; [done|].
      cbn in *. rewrite (Hv _ _ Hkv). by apply bool_decide_eq_true.
Qed.

Lemma examSampleOf_bounds rep mutants : let e := examSampleOf rep mutants in 0 <= es_survived e <= es_distinct e.
Proof. cbn. split; [lia|]. apply inj_le, filter_length_le. Qed.

(** ** When a verdict is certified *)

Section Gate.
Variable assign : gmap string string.
Variables devKillRate threshold width : double.
Variables mutantsTotal survivors provenMissed : Z.
Variable vacuous : list Finding.
Variable exam : examSample.
Variables blocking testWriterFailed poolTestUnsound : bool.

Local Abbreviation verdict :=
  (aggregate assign devKillRate mutantsTotal survivors provenMissed vacuous threshold width exam blocking testWriterFailed poolTestUnsound).

(** C21. A verdict is certified exactly when nothing blocks it, the kill rate is not below the
    threshold, the pool's writer neither failed nor was found unsound, and the exam is a grade: some
    distinct edit was measured and its interval is not wider than allowed, unless there
    was no mutant or no limit. Everything else needs review, and it is marked an
    indication exactly when the exam's size alone refused it. *)
Theorem aggregate_certified :
  (vd_Status verdict = StatusCertified ↔
   blocking = false ∧ fgt threshold devKillRate = false ∧ testWriterFailed = false ∧ poolTestUnsound = false ∧
   (mutantsTotal <= 0 ∨ fgt width (of_int 0) = false ∨
    es_distinct exam ≠ 0 ∧ ∀ lo hi, Interval (es_distinct exam) (es_survived exam) = Some (lo, hi) → fgt (fsub hi lo) width = false)) ∧
  (vd_ExamIndicative verdict = true ↔
   gate_status devKillRate threshold blocking testWriterFailed poolTestUnsound = StatusCertified ∧ vd_Status verdict = StatusNeedsReview).
Proof.
  assert (exam_indication mutantsTotal width exam = None ↔ mutantsTotal <= 0 ∨ fgt width (of_int 0) = false ∨
    es_distinct exam ≠ 0 ∧ ∀ lo hi, Interval (es_distinct exam) (es_survived exam) = Some (lo, hi) → fgt (fsub hi lo) width = false) as <-.
  { unfold exam_indication. destruct (0 <? mutantsTotal) eqn:Em; cbn [andb]; [|by split; [left; lia|]].
    destruct (fgt width (of_int 0)) eqn:Ew; [|by split; [auto|]].
    destruct (Z.eqb_spec (es_distinct exam) 0) as [E|E]; [split; [done|intros [?|[?|[? _]]]; [lia|done|done]]|].
    destruct (Interval _ _) as [[lo hi]|] eqn:Ei; [|split; [intros _; right; right; by split|done]].
    destruct (fgt (fsub hi lo) width) eqn:Ef; split; try done.
    - intros [?|[?|[_ H]]]; [lia|done|]. specialize (H lo hi eq_refl). congruence.
    - intros _. right. right. split; [done|]. intros ? ? [= <- <-]. done. }
  unfold aggregate, gate_status.
  destruct blocking, (fgt threshold devKillRate), testWriterFailed, poolTestUnsound; cbn [orb]; try (split; split; intros H; try done; by destruct_and?; try done).
  destruct (exam_indication _ _ _); split; split; intros H; try done; by destruct_and?.
Qed.
End Gate.

(** ** A small exam is an indication *)

(** The interval of at most seven edits is wider than the limit, whatever survived. *)
Definition too_wide (distinct killed : Z) : bool :=
  match WilsonInterval killed distinct with
  | Some (lo, hi) => fgt (fsub hi lo) MaxCertifiableIntervalWidth
  | None => false
  end.
Lemma seven_too_wide : forallb (λ n, forallb (λ k, too_wide (Z.of_nat n) (Z.of_nat k)) (seq 0 (S n))) (seq 1 7) = true.
Proof. vm_compute. reflexivity. Qed.
Lemma small_too_wide distinct killed : 1 <= distinct <= 7 → 0 <= killed <= distinct → too_wide distinct killed = true.
Proof.
  intros Hd Hk. pose proof seven_too_wide as H. rewrite forallb_forall in H.
  specialize (H (Z.to_nat distinct) ltac:(apply in_seq; lia)). rewrite forallb_forall in H.
  specialize (H (Z.to_nat killed) ltac:(apply in_seq; lia)). by rewrite !Z2Nat.id in H by lia.
Qed.

(** Under the limit the driver is built with, an exam of fewer than eight distinct edits is
    never certified, however many copies of them were graded and whatever the suite killed. *)
Theorem small_exam_indicative assign rate total survivors proven vacuous threshold rep mutants blocking failed unsound :
  0 < total → es_distinct (examSampleOf rep mutants) < 8 →
  vd_Status (aggregate assign rate total survivors proven vacuous threshold MaxCertifiableIntervalWidth (examSampleOf rep mutants) blocking failed unsound) = StatusNeedsReview.
Proof.
  intros Ht Hd. pose proof (examSampleOf_bounds rep mutants) as [Hs0 Hs]. set (e := examSampleOf rep mutants) in *. clearbody e.
  unfold aggregate. destruct (gate_status _ _ _ _ _); [|done].
  assert (∃ why, exam_indication total MaxCertifiableIntervalWidth e = Some why) as [why ->]; [|done].
  unfold exam_indication. assert (0 <? total = true) as -> by lia. change (fgt MaxCertifiableIntervalWidth (of_int 0)) with true. cbn [andb].
  destruct (Z.eqb_spec (es_distinct e) 0) as [|Hne]; [by eexists|].
  pose proof (small_too_wide (es_distinct e) (Killed (es_distinct e) (es_survived e)) ltac:(lia)) as Hw.
  unfold too_wide in Hw. unfold Interval. destruct (WilsonInterval _ _) as [[lo hi]|].
  - rewrite Hw by (unfold Killed; case_match; lia). by eexists.
  - discriminate Hw. unfold Killed. case_match; lia.
Qed.

(** Eight of eight certifies, and so do 32 of 40 and 18 of 20; nine of ten does not. *)
Example exam_sizes : map (λ e, exam_indication 1 MaxCertifiableIntervalWidth e)
  [mkExamSample 8 0; mkExamSample 40 8; mkExamSample 20 2] = [None; None; None] ∧
  exam_indication 1 MaxCertifiableIntervalWidth (mkExamSample 10 1) ≠ None.
Proof. split; [vm_compute; reflexivity|vm_compute; discriminate]. Qed.

(** One more survivor can narrow the interval: at 13 of 26 the exam is refused, at 20 of 26 it
    is a grade. *)
Example survivors_can_narrow : exam_indication 1 MaxCertifiableIntervalWidth (mkExamSample 26 13) ≠ None ∧
  exam_indication 1 MaxCertifiableIntervalWidth (mkExamSample 26 20) = None.
Proof. split; vm_compute; [discriminate|reflexivity]. Qed.

(** Seven edits, all killed. *)
Definition seven : list Mutant := map (λ i, mkMutant (format_int (Z.of_nat i)) "p" (mkLineRange (Z.of_nat i) (Z.of_nat i)) "+" "-") (seq 1 7).
Definition seven_killed : Report :=
  mkReport true true "" [] 0 false false 0 NoNote 7 (map mt_ID seven) [] [] ∅ [] ∅ [] ∅ 0 0 0.
Lemma small_exam_indicative_witness : es_distinct (examSampleOf seven_killed seven) = 7 ∧
  vd_Status (aggregate ∅ one 7 0 0 [] (of_int 0) MaxCertifiableIntervalWidth (examSampleOf seven_killed seven) false false false) = StatusNeedsReview.
Proof.
  split; [vm_compute; reflexivity|]. apply (small_exam_indicative ∅ one 7 0 0 [] (of_int 0) seven_killed seven false false false); [lia|].
  vm_compute. reflexivity.
Defined.
