(* ===== verification/QueueFacts.v ===== *)
(** * What the queue keeps

    Over every history of operations: the rows are well formed ([queue_wf]) and one bee
    holds a claimed task until it completes it, is found gone, or the task is dropped
    ([holder_step], [dealt_once]). Promotion makes ready exactly the pending tasks whose dependencies are
    done ([PromoteReady_exact]). *)
From S2P Require Import Prelude GoLib Float64 Queue.
Local Open Scope string_scope.
Local Open Scope list_scope.
Local Open Scope Z_scope.

(** ** Statements *)

Lemma elem_of_update_where {A} (p : A → bool) (f : A → A) l x : x ∈ update_where p f l ↔ ∃ y, y ∈ l ∧ x = if p y then f y else y.
Proof. unfold update_where. rewrite list_elem_of_fmap. naive_solver. Qed.
Lemma map_update_where {A B} (g : A → B) (p : A → bool) (f : A → A) l : (∀ x, g (f x) = g x) → map g (update_where p f l) = map g l.
Proof. intros H. unfold update_where. rewrite map_map. apply map_ext. intros x. by destruct (p x). Qed.
Lemma update_where_ext {A} (p q : A → bool) (f g : A → A) l : (∀ x, x ∈ l → (if p x then f x else x) = if q x then g x else x) →
  update_where p f l = update_where q g l.
Proof. intros H. apply map_ext_in. intros x Hx. apply H. by apply list_elem_of_In. Qed.
Lemma update_where_none {A} (p : A → bool) (f : A → A) l : (∀ x, x ∈ l → p x = false) → update_where p f l = l.
Proof. intros H. rewrite <- (map_id l) at 2. apply map_ext_in. intros x Hx%list_elem_of_In. by rewrite H. Qed.
Lemma affected_pos {A} (p : A → bool) l : (0 <? affected p l)%nat = existsb p l.
Proof. unfold affected. induction l as [|x l IH]; [done|]. cbn [List.filter existsb]. by destruct (p x). Qed.

(** The updates of a loop over ids, each of rows the update itself takes out of its reach, are one update. *)
Lemma updates_by_id {B} (i : B → Z) (q : Task → bool) (f : Task → Task) (ps : list B) : (∀ t, q (f t) = false) → (∀ t, tk_ID (f t) = tk_ID t) → ∀ ts,
  foldl (λ ts p, update_where (λ t, has_id (i p) t && q t) f ts) ts ps =
  update_where (λ t, existsb (λ p, has_id (i p) t) ps && q t) f ts.
Proof.
  intros Hq Hid. induction ps as [|p ps IH]; intros ts; cbn [foldl existsb]; [by rewrite update_where_none|].
  rewrite IH. unfold update_where. rewrite map_map. apply map_ext. intros t.
  destruct (has_id (i p) t) eqn:E; cbn [orb andb]; [|done]. destruct (q t) eqn:Eq; cbn [andb]; rewrite ?Hq, ?Eq, ?andb_false_r; done.
Qed.

Lemma first_by_elem {A} (before : A → A → bool) l x : first_by before l = Some x → x ∈ l.
Proof.
  revert x. induction l as [|y l IH]; cbn; [done|]. intros x. destruct (first_by before l) as [z|] eqn:E; [|intros [= ->]; left].
  intros [= <-]. destruct (before z y); [right; by apply IH|left].
Qed.
Lemma first_by_None {A} (before : A → A → bool) l : first_by before l = None ↔ l = [].
Proof. destruct l as [|x l]; [done|]. cbn. destruct (first_by before l); done. Qed.

(** ** Well-formed stores *)

(** The claim columns of a row, by its status. *)
Definition row_ok (t : Task) : Prop :=
  match tk_Status t with
  | StatusClaimed => is_Some (tk_ClaimedBy t) ∧ is_Some (tk_ClaimedTS t) ∧ is_Some (tk_ClaimExpires t)
  | StatusDone => is_Some (tk_ClaimedBy t) ∧ is_Some (tk_Result t) ∧ is_Some (tk_DoneTS t)
  | _ => tk_ClaimedBy t = None
  end.
Definition place_of (t : Task) : Z * string := (tk_MissionID t, tk_Key t).

Record wf_tasks (ts : list Task) : Prop := {
  wf_ids : StronglySorted Z.lt (map tk_ID ts);
  wf_keys : NoDup (map place_of ts);
  wf_rows : Forall row_ok ts }.
Definition wf (st : Store) : Prop := wf_tasks (st_tasks st).

(** A change of one row that moves neither its id nor its key. *)
Definition tame (p : Task → bool) (f : Task → Task) : Prop :=
  ∀ t, p t = true → tk_ID (f t) = tk_ID t ∧ place_of (f t) = place_of t ∧ (row_ok t → row_ok (f t)).

Lemma wf_update p f ts : tame p f → wf_tasks ts → wf_tasks (update_where p f ts).
Proof.
  intros Ht [Hi Hk Hr]. assert (∀ t, tk_ID (if p t then f t else t) = tk_ID t ∧ place_of (if p t then f t else t) = place_of t ∧
    (row_ok t → row_ok (if p t then f t else t))) as H.
  { intros t. specialize (Ht t). by destruct (p t); [apply Ht|]. }
  unfold update_where. split; rewrite ?map_map; [by rewrite (map_ext _ tk_ID (λ t, proj1 (H t)))|by rewrite (map_ext _ place_of (λ t, proj1 (proj2 (H t))))|].
  apply Forall_map. eapply Forall_impl; [exact Hr|]. intros t. apply H.
Qed.

Lemma has_status_eq s t : has_status s t = true ↔ tk_Status t = s.
Proof. apply bool_decide_eq_true. Qed.
Lemma has_id_eq id t : has_id id t = true ↔ tk_ID t = id.
Proof. apply Z.eqb_eq. Qed.
Lemma in_mission_eq m t : in_mission m t = true ↔ tk_MissionID t = m.
Proof. apply Z.eqb_eq. Qed.
Create HintDb queue discriminated.

Ltac rows :=
  repeat match goal with
  | H : (_ && _)%bool = true |- _ => apply andb_prop in H as [? ?]
  | H : has_status _ _ = true |- _ => apply has_status_eq in H
  | H : has_id _ _ = true |- _ => apply has_id_eq in H
  | H : in_mission _ _ = true |- _ => apply in_mission_eq in H
  end.
Ltac tame := intros t Ht; rows; split_and!; [done|done|unfold row_ok; destruct t; cbn in *; subst; try (cbn; naive_solver)].

Lemma tame_ready id : tame (λ t, has_id id t && has_status StatusPending t) (set_status StatusReady).
Proof. tame. Qed.
Lemma tame_requeued (p : Task → bool) : tame p set_requeued.
Proof. tame. Qed.
Lemma tame_dropped p s : s = StatusCancelled ∨ s = StatusSuperseded → tame p (set_dropped s).
Proof. intros [-> | ->]; tame. Qed.
Lemma tame_reopened p : tame p set_reopened.
Proof. tame. Qed.
Lemma tame_deps p deps : tame p (set_deps deps).
Proof. tame. Qed.
Lemma tame_done id bee result now : tame (held_by id bee) (set_done result now).
Proof. unfold held_by. tame. Qed.
Lemma tame_claimed id bee ts exp inst : tame (λ r, has_id id r && has_status StatusReady r) (set_claimed bee ts exp inst).
Proof. tame. Qed.
Lemma tame_reclaimed id ts exp inst : tame (λ r, has_id id r && has_status StatusClaimed r) (set_reclaimed ts exp inst).
Proof. tame. Qed.
#[local] Hint Resolve tame_ready tame_requeued tame_dropped tame_reopened tame_deps tame_done tame_claimed tame_reclaimed wf_update : queue.

Lemma max_ge ids : Forall (λ z, z <= foldr Z.max 0 ids) ids.
Proof.
  induction ids as [|z ids IH]; cbn; [constructor|]. constructor; [lia|]. eapply Forall_impl; [exact IH|]. cbn. lia.
Qed.
Lemma next_id_above ids z : z ∈ ids → z < next_id ids.
Proof. intros Hz. pose proof (max_ge ids) as H. rewrite Forall_forall in H. specialize (H z Hz). unfold next_id. cbn in *. lia. Qed.

Lemma StronglySorted_snoc {A} (R : A → A → Prop) l x : StronglySorted R (l ++ [x]) ↔ StronglySorted R l ∧ Forall (λ y, R y x) l.
Proof.
  induction l as [|y l IH]; cbn.
  - split; [intros _; split; constructor|intros _; repeat constructor].
  - split.
    + intros H. apply StronglySorted_inv in H as [Hs Hf]. apply Forall_app in Hf as [? Hx]. apply Forall_cons in Hx as [? _]. apply IH in Hs as [? ?].
      split; [by constructor|by constructor].
    + intros [H1 H2]. apply StronglySorted_inv in H1 as [Hs Hf]. apply Forall_cons in H2 as [? ?]. constructor; [by apply IH|].
      apply Forall_app. split; [done|by apply Forall_singleton].
Qed.

Lemma taken_spec m key ts : taken m key ts = true ↔ (m, key) ∈ map place_of ts.
Proof.
  unfold taken. rewrite existsb_exists, list_elem_of_fmap. split.
  - intros (t & Ht & [? ?]%andb_prop). rows. apply String.eqb_eq in H0. exists t. split; [unfold place_of; congruence|by apply list_elem_of_In].
  - intros (t & Ht & Hin%list_elem_of_In). exists t. split; [done|]. injection Ht as -> ->. unfold in_mission. by rewrite Z.eqb_refl, String.eqb_refl.
Qed.

Lemma wf_insert m sp now sup ts ts' : insert_task m sp now sup ts = Some ts' → wf_tasks ts → wf_tasks ts'.
Proof.
  unfold insert_task. destruct (taken m (ts_Key sp) ts) eqn:Et; [done|]. intros [= <-] [Hi Hk Hr]. split.
  - rewrite map_app. apply StronglySorted_snoc. split; [done|]. apply Forall_forall. intros z. apply next_id_above.
  - rewrite map_app. apply NoDup_app. split_and!; [done| |apply NoDup_singleton].
    intros x Hx ->%list_elem_of_singleton. apply not_true_iff_false in Et. apply Et. by apply taken_spec.
  - apply Forall_snoc. done.
Qed.
Lemma wf_insert_all m specs now : ∀ i ts ts', insert_all m specs now i ts = Some ts' → wf_tasks ts → wf_tasks ts'.
Proof.
  induction specs as [|sp rest IH]; intros i ts ts'; cbn; [by intros [= <-]|]. destruct (insert_task _ _ _ _ _) as [ts1|] eqn:E; [|done].
  intros Hr Hw. eapply IH; [exact Hr|]. by eapply wf_insert.
Qed.

Lemma wf_filter p ts : wf_tasks ts → wf_tasks (List.filter p ts).
Proof.
  intros [Hi Hk Hr]. pose proof (filter_sublist p ts) as Hs. split.
  - clear Hk Hr Hs. induction ts as [|t ts IH]; cbn; [constructor|]. cbn in Hi. apply StronglySorted_inv in Hi as [Hi Hf].
    destruct (p t); [|by apply IH]. cbn. constructor; [by apply IH|]. apply Forall_map. apply Forall_forall. intros x [Hx _]%elem_of_filter_where.
    rewrite Forall_map, Forall_forall in Hf. by apply Hf.
  - eapply sublist_NoDup; [exact Hk|]. by apply fmap_sublist.
  - rewrite Forall_forall in *. intros x [Hx _]%elem_of_filter_where. by apply Hr.
Qed.

Lemma wf_foldl {B} (step : list Task → B → list Task) bs ts : (∀ ts b, wf_tasks ts → wf_tasks (step ts b)) → wf_tasks ts → wf_tasks (foldl step ts bs).
Proof. intros H. revert ts. induction bs; cbn; auto. Qed.

Lemma NoDup_ids ts : wf_tasks ts → NoDup (map tk_ID ts).
Proof.
  intros [Hi _ _]. induction Hi as [|z l _ IH Hf]; constructor; [|done]. intros Hz. rewrite Forall_forall in Hf. specialize (Hf z Hz). lia.
Qed.
Lemma NoDup_map_inj {A B} (f : A → B) l x y : NoDup (map f l) → x ∈ l → y ∈ l → f x = f y → x = y.
Proof.
  induction l as [|z l IH]; cbn; [by intros _ ?%elem_of_nil|]. intros [Hz Hnd]%NoDup_cons [->|Hx]%elem_of_cons [->|Hy]%elem_of_cons E; [done| | |by apply IH].
  - destruct Hz. rewrite E. by apply list_elem_of_fmap_2.
  - destruct Hz. rewrite <- E. by apply list_elem_of_fmap_2.
Qed.
Lemma same_id ts x y : wf_tasks ts → x ∈ ts → y ∈ ts → tk_ID x = tk_ID y → x = y.
Proof. intros Hw. apply NoDup_map_inj. by apply NoDup_ids. Qed.
Lemma same_place ts x y : wf_tasks ts → x ∈ ts → y ∈ ts → tk_MissionID x = tk_MissionID y → tk_Key x = tk_Key y → x = y.
Proof. intros [_ Hk _] Hx Hy Em Ek. eapply NoDup_map_inj; [exact Hk|done|done|]. unfold place_of. by rewrite Em, Ek. Qed.

Lemma TaskByID_Some id st t : wf st → TaskByID id st = Some t ↔ t ∈ st_tasks st ∧ tk_ID t = id.
Proof.
  intros Hw. unfold TaskByID. split.
  - intros [Hin Hid]%find_some. split; [by apply list_elem_of_In|by apply has_id_eq].
  - intros [Hin Hid]. destruct (List.find (has_id id) (st_tasks st)) as [t'|] eqn:E.
    + apply find_some in E as [Hin' Hid']. f_equal. apply has_id_eq in Hid'. eapply same_id; [exact Hw|by apply list_elem_of_In|done|congruence].
    + apply list_elem_of_In in Hin. eapply find_none in E; [|exact Hin]. apply has_id_eq in Hid. congruence.
Qed.

(** ** Histories *)

Inductive Op :=
| OpEnqueue (m : Z) (specs : list TaskSpec) (now : nat → double)
| OpPromote (m : Z)
| OpClaim (bee instance : string) (roles : list string) (lease now0 now1 : double)
| OpComplete (id : Z) (bee result : string) (now : double)
| OpReclaimIdle (bee : string) (grace now : double)
| OpReap (present : option (gset string)) (now : double)
| OpCancel (id : Z)
| OpCancelGuarded (id : Z) (cascade : bool)
| OpReopen (id : Z)
| OpSupersede (id : Z) (spec : TaskSpec) (now : double)
| OpRetarget (m : Z) (fromKey toKey : string)
| OpDelete (m : Z)
| OpPrune (m : Z)
| OpHalt (m : Z) (reason : string)
| OpUnhalt (m : Z)
| OpFinding (f : Finding) (now : double)
| OpFindingStatus (id : Z) (status : string) (now : double)
| OpExecution (e : Execution).

Definition settle {A} (st : Store) (r : result QueueErr A) (f : A → Store) : Store := match r with Ok a => f a | Err _ => st end.
(** The store an operation leaves: the one it found when it is refused. *)
Definition run_op (op : Op) (st : Store) : Store :=
  match op with
  | OpEnqueue m specs now => settle st (Enqueue m specs now st) id
  | OpPromote m => (PromoteReady m st).2
  | OpClaim bee instance roles lease now0 now1 => (ClaimNextAs bee instance roles lease now0 now1 st).2
  | OpComplete id bee result now => (Complete id bee result now st).2
  | OpReclaimIdle bee grace now => (ReclaimIdle bee grace now st).2
  | OpReap present now => (Reap present now st).2
  | OpCancel id => (CancelTask id st).2
  | OpCancelGuarded id cascade => match CancelTaskGuarded id cascade st with Some r => settle st r snd | None => st end
  | OpReopen id => (ReopenTask id st).2
  | OpSupersede id spec now => settle st (SupersedeTask id spec now st) snd
  | OpRetarget m fromKey toKey => match RetargetDependents m fromKey toKey st with Some r => settle st r snd | None => st end
  | OpDelete m => DeleteMissionTasks m st
  | OpPrune m => PruneMission m st
  | OpHalt m reason => HaltMission m reason st
  | OpUnhalt m => UnhaltMission m st
  | OpFinding f now => settle st (AddFinding f now st) snd
  | OpFindingStatus id status now => settle st (SetFindingStatus id status now st) snd
  | OpExecution e => RecordExecution e st
  end.
Definition run_ops (ops : list Op) (st : Store) : Store := foldl (λ st op, run_op op st) st ops.
Definition empty_store : Store := mkStore [] [] [] ∅.

(** ** The loops, as single updates *)

Lemma promote_loop done ps ts n : foldl (promote_one done) (n, ts) ps =
  (n + Z.of_nat (length (List.filter (λ p, allDone (tk_Deps p) done) ps)),
   update_where (λ t, existsb (λ p, has_id (tk_ID p) t) (List.filter (λ p, allDone (tk_Deps p) done) ps) && has_status StatusPending t) (set_status StatusReady) ts).
Proof.
  rewrite <- (updates_by_id tk_ID) by done. revert n ts. induction ps as [|p ps IH]; intros n ts; cbn [foldl List.filter].
  - cbn. f_equal. lia.
  - unfold promote_one at 2. cbn [fst snd]. destruct (allDone (tk_Deps p) done); rewrite IH; [|done]. cbn [length foldl]. f_equal. lia.
Qed.
Lemma reap_loop present now hs ts n : foldl (reap_one present now) (n, ts) hs =
  (n + Z.of_nat (length (List.filter (gone present now) hs)),
   update_where (λ t, existsb (λ p, has_id (tk_ID p) t) (List.filter (gone present now) hs) && has_status StatusClaimed t) set_requeued ts).
Proof.
  rewrite <- (updates_by_id tk_ID) by done. revert n ts. induction hs as [|h hs IH]; intros n ts; cbn [foldl List.filter].
  - cbn. f_equal. lia.
  - unfold reap_one at 2. cbn [fst snd]. destruct (gone present now h); rewrite IH; [|done]. cbn [length foldl]. f_equal. lia.
Qed.
Lemma reclaim_loop bee ps : ∀ acc, (foldl (reclaim_one bee) acc ps).2 =
  update_where (λ t, existsb (λ p, has_id (tk_ID p) t) ps && (has_status StatusClaimed t && null_eq (tk_ClaimedBy t) bee)) set_requeued acc.2.
Proof.
  intros acc. rewrite <- (updates_by_id tk_ID); [|done..]. revert acc. induction ps as [|p ps IH]; intros acc; [done|]. cbn [foldl].
  rewrite IH. cbn [snd]. f_equal. apply update_where_ext. intros t _. unfold held_by. by rewrite andb_assoc.
Qed.

Lemma filter_filter {A} (p q : A → bool) l : List.filter p (List.filter q l) = List.filter (λ x, q x && p x) l.
Proof. induction l as [|x l IH]; [done|]. cbn [List.filter]. destruct (q x); cbn [List.filter andb]; by rewrite IH. Qed.
Lemma selected ts t g : wf_tasks ts → t ∈ ts → existsb (λ p, has_id (tk_ID p) t) (List.filter g ts) = g t.
Proof.
  intros Hw Ht. apply eq_true_iff_eq. rewrite existsb_exists. split.
  - intros (p & Hp%list_elem_of_In & Hid). apply elem_of_filter_where in Hp as [Hp Hg]. rows.
    by rewrite (same_id ts t p).
  - intros Hg. exists t. split; [apply list_elem_of_In, elem_of_filter_where; by split|]. by apply has_id_eq.
Qed.

(** What PromoteReady promotes. *)
Definition promotable (m : Z) (ts : list Task) (t : Task) : bool :=
  in_mission m t && has_status StatusPending t && allDone (tk_Deps t) (keysWithStatus m StatusDone ts).

(** Promotion is exact: the tasks of the mission that were pending with every
    dependency done become ready, no other row changes, and the call returns their number. *)
Lemma PromoteReady_exact m st : wf st →
  PromoteReady m st = (Z.of_nat (affected (promotable m (st_tasks st)) (st_tasks st)),
                       with_tasks st (update_where (promotable m (st_tasks st)) (set_status StatusReady) (st_tasks st))).
Proof.
  intros Hw. unfold PromoteReady. rewrite promote_loop, filter_filter. rewrite Z.add_0_l. unfold affected, promotable.
  f_equal. f_equal. apply update_where_ext. intros t Ht. rewrite (selected (st_tasks st)) by done.
  by destruct (in_mission m t), (has_status StatusPending t), (allDone _ _).
Qed.
Lemma Reap_tasks present now st : wf st →
  st_tasks (Reap present now st).2 = update_where (λ t, has_status StatusClaimed t && gone present now t) set_requeued (st_tasks st).
Proof.
  intros Hw. unfold Reap. rewrite reap_loop, filter_filter. cbn. apply update_where_ext. intros t Ht.
  rewrite (selected (st_tasks st)) by done. by destruct (has_status StatusClaimed t), (gone present now t).
Qed.
Lemma ReclaimIdle_tasks bee grace now st : wf st →
  st_tasks (ReclaimIdle bee grace now st).2 = update_where (idle_claim bee (fsub now grace) now) set_requeued (st_tasks st).
Proof.
  intros Hw. unfold ReclaimIdle. pose proof (reclaim_loop bee (List.filter (idle_claim bee (fsub now grace) now) (st_tasks st)) ([], st_tasks st)) as E.
  destruct (foldl _ _ _) as [l ts]. cbn in *. rewrite E. apply update_where_ext. intros t Ht.
  rewrite (selected (st_tasks st)) by done. unfold idle_claim.
  by destruct (has_status StatusClaimed t), (null_eq (tk_ClaimedBy t) bee), (null_lt (tk_ClaimedTS t) _), (null_lt (tk_ClaimExpires t) _).
Qed.

(** ** Every operation keeps the rows well formed *)

Lemma wf_Cancel id st : wf st → wf (CancelTask id st).2.
Proof. intros. apply wf_update; [|done]. auto with queue. Qed.
Lemma wf_cancels ns : ∀ acc, wf acc.2 → wf (foldl cancel_one acc ns).2.
Proof. induction ns as [|n ns IH]; intros acc Hw; [done|]. cbn [foldl]. apply IH. by apply wf_Cancel. Qed.

Lemma wf_op op st : wf st → wf (run_op op st).
Proof.
  intros Hw. destruct op; cbn [run_op]; try exact Hw; try (by apply wf_filter); try (by apply wf_update; [auto with queue|]).
  - unfold Enqueue. destruct (insert_all _ _ _ _ _) eqn:E; [|done]. by eapply wf_insert_all.
  - rewrite PromoteReady_exact by done. apply wf_update; [|done]. unfold promotable. tame.
  - unfold ClaimNextAs. destruct (first_by _ _); [by apply wf_update; [auto with queue|]|]. destruct (first_by _ _); [|done].
    by apply wf_update; [auto with queue|].
  - unfold wf. rewrite ReclaimIdle_tasks by done. by apply wf_update; [auto with queue|].
  - unfold wf. rewrite Reap_tasks by done. by apply wf_update; [auto with queue|].
  - unfold CancelTaskGuarded. destruct (TaskByID _ _); [|done]. destruct (subtree_of _ _) as [ns|]; [|done]. destruct (negb cascade && _); [done|].
    pose proof (wf_cancels ns ([], st) Hw) as H. destruct (foldl _ _ _). exact H.
  - unfold SupersedeTask. destruct (TaskByID _ _); [|done]. destruct (uniqueKeyTx _ _ _); [|done]. destruct (insert_task _ _ _ _ _) eqn:E; [|done].
    cbn. apply (wf_foldl (rewrite_one _ _)); [intros; apply wf_update; [auto with queue|done]|].
    eapply wf_insert; [exact E|]. by apply wf_update; [auto with queue|].
  - unfold RetargetDependents. destruct (retarget_plan _ _ _ _) as [[snapshot|]|]; [|done..].
    destruct (foldl _ _ _) as [n ts] eqn:E. cbn. change ts with (n, ts).2. rewrite <- E. clear E n ts. unfold wf in Hw.
    assert (∀ acc, wf_tasks acc.2 → wf_tasks (foldl (retarget_one fromKey toKey) acc snapshot).2) as H; [|by apply H].
    induction snapshot as [|x xs IH]; intros acc Ha; [done|]. cbn [foldl]. apply IH. unfold retarget_one.
    destruct (_ || _); [done|]. by apply wf_update; [auto with queue|].
  - unfold AddFinding. by repeat (case_match; [done|]).
  - unfold SetFindingStatus. by case_match.
Qed.

(** C23. Whatever the history of the queue, ids increase, a key names one task of a mission, and the
    claim columns agree with the status: a claimed task has a claimer and a lease, a done one its
    claimer and result, any other no claimer. *)
Theorem queue_wf ops : wf (run_ops ops empty_store).
Proof.
  unfold run_ops. assert (wf empty_store) as H by (split; constructor). revert H. generalize empty_store.
  induction ops as [|op ops IH]; intros st Hw; [done|]. cbn [foldl]. apply IH. by apply wf_op.
Qed.

(** ** Who holds a task *)

Definition held (st : Store) (t : Task) (bee : string) : Prop := t ∈ st_tasks st ∧ tk_Status t = StatusClaimed ∧ tk_ClaimedBy t = Some bee.

(** The operation took the task from the bee that held it: what it was asked, and what it made of the row. *)
Definition took (op : Op) (st : Store) (t : Task) (bee : string) : Prop :=
  let ts := st_tasks (run_op op st) in
  match op with
  | OpComplete id b result now => id = tk_ID t ∧ b = bee ∧ set_done result now t ∈ ts
  | OpReclaimIdle b grace now => b = bee ∧ idle_claim b (fsub now grace) now t = true ∧ set_requeued t ∈ ts
  | OpReap present now => gone present now t = true ∧ set_requeued t ∈ ts
  | OpCancel id => id = tk_ID t ∧ set_dropped StatusCancelled t ∈ ts
  | OpCancelGuarded id cascade => ∃ cancelled st', CancelTaskGuarded id cascade st = Some (Ok (cancelled, [], st')) ∧ tk_ID t ∈ cancelled ∧
      set_dropped StatusCancelled t ∈ ts
  | OpSupersede id _ _ => id = tk_ID t ∧ set_dropped StatusSuperseded t ∈ ts
  | OpDelete m | OpPrune m => m = tk_MissionID t ∧ ∀ x, x ∈ ts → tk_ID x ≠ tk_ID t
  | _ => False
  end.

Lemma null_eq_Some o s : null_eq o s = true ↔ o = Some s.
Proof. destruct o as [x|]; cbn; [rewrite String.eqb_eq|]; naive_solver. Qed.

(** A row an update does not select stays, and a selected one is what the update makes it. *)
Lemma update_row {A} (p : A → bool) (f : A → A) t ts : t ∈ ts → (if p t then f t else t) ∈ update_where p f ts.
Proof. intros H. apply elem_of_update_where. by exists t. Qed.

Definition still (ts : list Task) (t : Task) (bee : string) : Prop :=
  ∃ t', t' ∈ ts ∧ tk_ID t' = tk_ID t ∧ tk_Status t' = StatusClaimed ∧ tk_ClaimedBy t' = Some bee.
Lemma still_refl st t bee : held st t bee → still (st_tasks st) t bee.
Proof. intros (? & ? & ?). by exists t. Qed.
(** An update keeps the holder of a row it does not select, or whose claim it leaves. *)
Lemma still_update (p : Task → bool) (f : Task → Task) ts t bee : (p t = true → tk_ID (f t) = tk_ID t ∧ tk_Status (f t) = StatusClaimed ∧ tk_ClaimedBy (f t) = Some bee) →
  t ∈ ts → tk_Status t = StatusClaimed → tk_ClaimedBy t = Some bee → still (update_where p f ts) t bee.
Proof. intros Hp Ht Hs Hb. exists (if p t then f t else t). split; [by apply update_row|]. destruct (p t); [by apply Hp|done]. Qed.
Lemma still_trans ts ts2 t bee : still ts t bee → (∀ t', t' ∈ ts → tk_ID t' = tk_ID t → tk_Status t' = StatusClaimed → tk_ClaimedBy t' = Some bee → still ts2 t' bee) → still ts2 t bee.
Proof. intros (t' & H1 & E & H2 & H3) Hgo. destruct (Hgo t' H1 E H2 H3) as (t2 & ? & ? & ?). exists t2. by rewrite <- E. Qed.

Lemma insert_keeps m sp now sup ts ts' : insert_task m sp now sup ts = Some ts' → ts ⊆ ts'.
Proof. unfold insert_task. case_match; [done|]. intros [= <-] x Hx. apply elem_of_app. by left. Qed.
Lemma insert_all_keeps m specs now : ∀ i ts ts', insert_all m specs now i ts = Some ts' → ts ⊆ ts'.
Proof.
  induction specs as [|sp rest IH]; intros i ts ts'; cbn; [by intros [= <-]|]. destruct (insert_task _ _ _ _ _) as [ts1|] eqn:E; [|done].
  intros Hr. etrans; [by eapply insert_keeps|by eapply IH].
Qed.
Lemma still_deps {B} (step : list Task → B → list Task) t bee : (∀ ts b, ∃ p deps, step ts b = update_where p (set_deps deps) ts) →
  ∀ bs ts, still ts t bee → still (foldl step ts bs) t bee.
Proof.
  intros H bs. induction bs as [|b bs IH]; intros ts Hs; [done|]. cbn [foldl]. apply IH. destruct (H ts b) as (p & deps & ->).
  eapply still_trans; [exact Hs|]. intros t' ? ? ? ?. by apply still_update.
Qed.

(** A row an update selects is what the update makes it. *)
Lemma update_hit {A} (p : A → bool) (f : A → A) t ts : t ∈ ts → p t = true → f t ∈ update_where p f ts.
Proof. intros H E. pose proof (update_row p f t ts H) as Hr. by rewrite E in Hr. Qed.

(** Cancelling the tasks of a subtree takes the task, and says so, or leaves it with its bee. *)
Lemma cancels_keep_row ns x : open_status (tk_Status x) = false → ∀ acc, x ∈ st_tasks acc.2 →
  x ∈ st_tasks (foldl cancel_one acc ns).2 ∧ acc.1 ⊆ (foldl cancel_one acc ns).1.
Proof.
  intros Hx. induction ns as [|n ns IH]; intros acc Hin; [done|]. cbn [foldl]. destruct (IH (cancel_one acc n)) as [H1 H2].
  - cbn. pose proof (update_row (cancellable n.1) (set_dropped StatusCancelled) x _ Hin) as H. unfold cancellable in H at 1. by rewrite Hx, andb_false_r in H.
  - split; [done|]. etrans; [|exact H2]. unfold cancel_one, CancelTask. cbn [fst snd]. case_match; set_solver.
Qed.
Lemma cancels_took ns t bee : tk_Status t = StatusClaimed → tk_ClaimedBy t = Some bee → ∀ acc, t ∈ st_tasks acc.2 →
  (tk_ID t ∈ (foldl cancel_one acc ns).1 ∧ set_dropped StatusCancelled t ∈ st_tasks (foldl cancel_one acc ns).2) ∨ still (st_tasks (foldl cancel_one acc ns).2) t bee.
Proof.
  intros Hs Hb. induction ns as [|n ns IH]; intros acc Hin; [right; by exists t|]. cbn [foldl].
  destruct (cancellable n.1 t) eqn:Ec.
  - left. pose proof (update_hit _ (set_dropped StatusCancelled) _ _ Hin Ec) as Hd.
    destruct (cancels_keep_row ns (set_dropped StatusCancelled t) eq_refl (cancel_one acc n) Hd) as [H1 H2]. split; [|done]. apply H2. unfold cancel_one, CancelTask. rewrite affected_pos.
    assert (existsb (cancellable n.1) (st_tasks acc.2) = true) as -> by (apply existsb_exists; exists t; split; [by apply list_elem_of_In|done]).
    apply andb_prop in Ec as [Hid%has_id_eq _]. rewrite Hid. set_solver.
  - apply IH. cbn. pose proof (update_row (cancellable n.1) (set_dropped StatusCancelled) t _ Hin) as H. by rewrite Ec in H.
Qed.

Lemma deleted_or_still m st t bee : held st t bee → let ts := List.filter (λ t, negb (in_mission m t)) (st_tasks st) in wf st →
  (m = tk_MissionID t ∧ ∀ x, x ∈ ts → tk_ID x ≠ tk_ID t) ∨ still ts t bee.
Proof.
  intros (Ht & Hs & Hb) ts Hw. destruct (decide (m = tk_MissionID t)) as [->|Hn].
  - left. split; [done|]. intros x [Hx Hm]%elem_of_filter_where Hid. assert (x = t) as -> by (by eapply same_id).
    unfold in_mission in Hm. by rewrite Z.eqb_refl in Hm.
  - right. exists t. split_and!; [|done..]. apply elem_of_filter_where. split; [done|]. apply negb_true_iff, not_true_iff_false. intros ?. rows. congruence.
Qed.

(** A claimed task stays with its bee through every operation but one that takes it: the bee's own
    completion, its idle report past the lease, a reap that finds it gone, or the task being
    cancelled, superseded or deleted. No operation passes it to another bee. *)
Lemma holder_step op st t bee : wf st → held st t bee → took op st t bee ∨ still (st_tasks (run_op op st)) t bee.
Proof.
  intros Hw Hh. pose proof Hh as (Ht & Hs & Hb). assert (tk_ID t = tk_ID t) as Hid by done.
  destruct op; cbn [run_op took]; try (right; exact (still_refl _ _ _ Hh)).
  - right. unfold Enqueue. destruct (insert_all _ _ _ _ _) eqn:E; [|exact (still_refl _ _ _ Hh)]. exists t. split_and!; [|done..]. by eapply insert_all_keeps.
  - right. rewrite PromoteReady_exact by done. apply still_update; [|done..]. unfold promotable. intros ?. rows. congruence.
  - right. unfold ClaimNextAs. destruct (first_by (by_time tk_ClaimedTS) _) as [r|]; [|destruct (first_by (by_time (λ t, Some (tk_Created t))) _) as [r|]; [|exact (still_refl _ _ _ Hh)]];
      (apply still_update; [cbn; intros ?; rows|done..]); [done|congruence].
  - destruct (held_by id bee0 t) eqn:E; [left|right; apply still_update; [by rewrite E|done..]].
    pose proof (update_hit _ (set_done result now) _ _ Ht E). unfold held_by in E. rows. apply null_eq_Some in H1. split_and!; [done|congruence|done].
  - rewrite ReclaimIdle_tasks by done. destruct (idle_claim bee0 (fsub now grace) now t) eqn:E; [left|right; apply still_update; [by rewrite E|done..]].
    split_and!; [|done|by apply update_hit]. unfold idle_claim in E. rows. apply null_eq_Some in H2. congruence.
  - rewrite Reap_tasks by done. destruct (gone present now t) eqn:Eg; [left|right; apply still_update; [|done..]; intros ?; rows; congruence].
    split; [done|]. apply update_hit; [done|]. rewrite Eg. unfold has_status, is_status. by rewrite Hs.
  - destruct (cancellable id t) eqn:E; [left|right; apply still_update; [by rewrite E|done..]]. pose proof (update_hit _ (set_dropped StatusCancelled) _ _ Ht E).
    unfold cancellable in E. rows. done.
  - destruct (CancelTaskGuarded id cascade st) as [[[[cancelled blocked] st']|]|] eqn:E; [|right; exact (still_refl _ _ _ Hh)..]. cbn [settle snd].
    unfold CancelTaskGuarded in E. destruct (TaskByID id st); [|done]. destruct (subtree_of _ st) as [ns|]; [|done].
    destruct (negb cascade && _); [injection E as <- <- <-; right; exact (still_refl _ _ _ Hh)|].
    pose proof (cancels_took ns t bee Hs Hb ([], st) Ht) as Hc. destruct (foldl cancel_one _ ns) as [ids q]. injection E as <- <- <-.
    destruct Hc as [[? ?]|?]; [left; by exists ids, q|by right].
  - right. apply still_update; [|done..]. unfold reopenable. intros ?. rows. congruence.
  - unfold SupersedeTask. destruct (TaskByID _ _) as [old|] eqn:Eo; [|right; exact (still_refl _ _ _ Hh)].
    destruct (uniqueKeyTx _ _ _) as [key|]; [|right; exact (still_refl _ _ _ Hh)]. destruct (insert_task _ _ _ _ _) as [ts'|] eqn:E; [|right; exact (still_refl _ _ _ Hh)].
    cbn. apply insert_keeps in E. destruct (decide (id = tk_ID t)) as [->|Hn].
    + left. split; [done|]. assert (set_dropped StatusSuperseded t ∈ ts') as Hin by (apply E, update_hit; [done|by apply has_id_eq]).
      set (dependents := List.filter _ _). assert (Forall (λ d, tk_ID d ≠ tk_ID t) dependents) as Hd.
      { apply Forall_forall. intros d [Hd Hp]%elem_of_filter_where Eid. rows. assert (d = t) as -> by (by eapply same_id). congruence. }
      clearbody dependents. clear E. revert ts' Hin. induction Hd as [|d ds Hne _ IH]; intros ts' Hin; [done|]. cbn [foldl]. apply IH.
      pose proof (update_row (has_id (tk_ID d)) (set_deps (rewritten (tk_Key old) key (tk_Deps d))) _ _ Hin) as H.
      assert (has_id (tk_ID d) (set_dropped StatusSuperseded t) = false) as Ef by (apply not_true_iff_false; intros ?%has_id_eq; by destruct Hne).
      by rewrite Ef in H.
    + right. apply still_deps; [intros; by do 2 eexists|]. apply (still_trans (update_where (has_id id) (set_dropped StatusSuperseded) (st_tasks st))).
      * apply still_update; [|exact Ht|exact Hs|exact Hb]. intros ?. rows. congruence.
      * intros t' ? ? ? ?. exists t'. split_and!; [|done..]. by apply E.
  - right. unfold RetargetDependents. destruct (retarget_plan _ _ _ _) as [[snapshot|]|]; [|exact (still_refl _ _ _ Hh)..].
    destruct (foldl _ _ _) as [n ts] eqn:E. cbn. change ts with (n, ts).2. rewrite <- E. clear E.
    assert (∀ acc, still acc.2 t bee → still (foldl (retarget_one fromKey toKey) acc snapshot).2 t bee) as H; [|by apply H, still_refl].
    induction snapshot as [|x xs IH]; intros acc Ha; [done|]. cbn [foldl]. apply IH. unfold retarget_one.
    destruct (_ || _); [done|]. eapply still_trans; [exact Ha|]. intros t' ? ? ? ?. by apply still_update.
  - by apply deleted_or_still.
  - by apply deleted_or_still.
  - right. unfold AddFinding. repeat (case_match; [exact (still_refl _ _ _ Hh)|]). exact (still_refl _ _ _ Hh).
  - right. unfold SetFindingStatus. case_match; exact (still_refl _ _ _ Hh).
Qed.

(** What was taken nobody holds. *)
Lemma took_free op st t bee : wf st → held st t bee → took op st t bee →
  ∀ x, x ∈ st_tasks (run_op op st) → tk_ID x = tk_ID t → tk_Status x ≠ StatusClaimed.
Proof.
  intros Hw _ Ht x Hx Hid. pose proof (wf_op op st Hw) as Hw'. assert (∀ y, y ∈ st_tasks (run_op op st) → tk_ID y = tk_ID t → tk_Status y ≠ StatusClaimed → tk_Status x ≠ StatusClaimed) as H.
  { intros y Hy Ey Hs. by assert (x = y) as -> by (eapply same_id; [exact Hw'|done|done|congruence]). }
  destruct op; cbn [took] in Ht; try done; destruct_and?; try (match goal with Hy : _ ∈ _ |- _ => refine (H _ Hy _ _); [reflexivity|discriminate] end).
  - destruct Ht as (? & ? & _ & _ & Hy). refine (H _ Hy _ _); [reflexivity|discriminate].
  - naive_solver.
  - naive_solver.
Qed.

(** ** What a claim hands out *)

(** The bee may run the task: its mission is not halted, its role is one it serves. *)
Definition eligible (st : Store) (roles : list string) (t : Task) : Prop :=
  st_halts st !! tk_MissionID t = None ∧ (roles = [] ∨ ts_Role (tk_Spec t) ∈ roles ∨ ts_Role (tk_Spec t) = "").
Lemma eligible_spec st roles t : negb (halted st t) = true → serves roles t = true → eligible st roles t.
Proof.
  unfold halted, serves. intros Hh%negb_true_iff%bool_decide_eq_false Hs. split; [by apply eq_None_not_Some|].
  destruct roles as [|r rs]; [by left|right]. apply orb_prop in Hs as [Hs%bool_decide_eq_true|Hs%String.eqb_eq]; auto.
Qed.

(** The row the claim changed, as it was and as it is. *)
Definition dealt (bee instance : string) (reissued : bool) (now0 : double) (r : Task) : Prop :=
  if reissued
  then tk_Status r = StatusClaimed ∧ tk_ClaimedBy r = Some bee ∧
       ((tk_Instance r = instance ∧ instance ≠ "") ∨ null_lt (tk_ClaimExpires r) now0 = true)
  else tk_Status r = StatusReady ∧ tk_ClaimedBy r = None.

(** A claim hands out one eligible task: one of the bee's own claims that its instance
    made or whose lease ran out, or a ready one nobody holds. The row is then the bee's, with a new lease, and no
    other row changes. *)
Lemma ClaimNextAs_sound bee instance roles lease now0 now1 st t reissued st' : wf st →
  ClaimNextAs bee instance roles lease now0 now1 st = (Some (t, reissued), st') →
  ∃ r, r ∈ st_tasks st ∧ tk_ID r = tk_ID t ∧ eligible st roles r ∧ dealt bee instance reissued now0 r ∧ held st' (set_claimed bee
      (if reissued then now0 else now1) (fadd (if reissued then now0 else now1) lease) instance r) bee ∧
    ∀ x, tk_ID x ≠ tk_ID t → x ∈ st_tasks st' ↔ x ∈ st_tasks st.
Proof.
  intros Hw. assert (∀ p f (r : Task), (∀ x, tk_ID (f x) = tk_ID x) → (∀ x, p x = true → tk_ID x = tk_ID r) →
    ∀ x, tk_ID x ≠ tk_ID r → x ∈ update_where p f (st_tasks st) ↔ x ∈ st_tasks st) as Hothers.
  { intros p f r Hf Hp x Hx. rewrite elem_of_update_where. split.
    - intros (y & Hy & ->). destruct (p y) eqn:E; [|done]. destruct Hx. rewrite Hf. by apply Hp.
    - intros Hin. exists x. split; [done|]. destruct (p x) eqn:E; [|done]. destruct Hx. by apply Hp. }
  unfold ClaimNextAs. destruct (first_by (by_time tk_ClaimedTS) _) as [r|] eqn:Er.
  - apply first_by_elem, elem_of_filter_where in Er as [Hr Ho]. unfold orphaned in Ho. rewrite !andb_true_iff in Ho.
    destruct Ho as ((((Hs%has_status_eq & Hc%null_eq_Some) & Hl) & Hh) & Hsv). intros [= <- <- <-]. exists r. split_and!; [done|done|by apply eligible_spec| | |].
    + split_and!; [done|done|]. apply orb_prop in Hl as [[?%String.eqb_eq ?%negb_true_iff%String.eqb_neq]%andb_prop|?]; auto.
    + split_and!; [|done|done]. assert (set_claimed bee now0 (fadd now0 lease) instance r = set_reclaimed now0 (fadd now0 lease) instance r) as ->.
      { unfold set_claimed, set_reclaimed. by rewrite Hs, Hc. }
      apply elem_of_update_where. exists r. split; [done|]. unfold has_id, has_status, is_status. by rewrite Z.eqb_refl, Hs.
    + apply Hothers; [done|]. intros x ?. rows. done.
  - destruct (first_by (by_time (λ t, Some (tk_Created t))) _) as [r|] eqn:Er2; [|done].
    apply first_by_elem, elem_of_filter_where in Er2 as [Hr Ho]. unfold claimable in Ho. rewrite !andb_true_iff in Ho. destruct Ho as ((Hs%has_status_eq & Hh) & Hsv).
    intros [= <- <- <-]. exists r. split_and!; [done|done|by apply eligible_spec| | |].
    + split; [done|]. destruct Hw as [_ _ Hrows]. rewrite Forall_forall in Hrows. specialize (Hrows r Hr). unfold row_ok in Hrows. by rewrite Hs in Hrows.
    + split_and!; [|done|done]. apply elem_of_update_where. exists r. split; [done|]. unfold has_id, has_status, is_status. by rewrite Z.eqb_refl, Hs.
    + apply Hothers; [done|]. intros x ?. rows. done.
Qed.

Lemma wf_ops ops : ∀ st, wf st → wf (run_ops ops st).
Proof. unfold run_ops. induction ops as [|op ops IH]; intros st Hw; [done|]. cbn [foldl]. apply IH. by apply wf_op. Qed.

(** C15. One bee per task. On well-formed tables, between the claims that deal one task to two different bees there is an
    operation that took it from the first, which held it until then: its own completion, its idle report past the lease, a reap that found it
    gone, a cancellation of this task (alone, or named among those a guarded cancellation cancelled), its replacement, or the deletion of its
    mission. That operation left the row done, ready, cancelled or superseded, or gone, and held by no bee. *)
Theorem dealt_once b1 i1 r1 l1 n1 n1' st t1 re1 st1 ops b2 i2 r2 l2 n2 n2' t2 re2 st2 : wf st →
  ClaimNextAs b1 i1 r1 l1 n1 n1' st = (Some (t1, re1), st1) →
  ClaimNextAs b2 i2 r2 l2 n2 n2' (run_ops ops st1) = (Some (t2, re2), st2) →
  tk_ID t1 = tk_ID t2 → b1 ≠ b2 →
  ∃ before op after t, ops = before ++ op :: after ∧ held (run_ops before st1) t b1 ∧ tk_ID t = tk_ID t1 ∧ took op (run_ops before st1) t b1 ∧
    ∀ x, x ∈ st_tasks (run_ops (before ++ [op]) st1) → tk_ID x = tk_ID t1 → tk_Status x ≠ StatusClaimed.
Proof.
  intros Hw H1 H2 Hid Hb. pose proof (wf_op (OpClaim b1 i1 r1 l1 n1 n1') st Hw) as Hw1. cbn [run_op] in Hw1. rewrite H1 in Hw1. cbn in Hw1.
  apply ClaimNextAs_sound in H1 as (r & _ & Hr & _ & _ & Hh & _); [|done].
  set (t := set_claimed _ _ _ _ _) in Hh. assert (tk_ID t = tk_ID t1) as Ht by (by rewrite <- Hr). clearbody t. clear Hr Hw st r.
  revert st1 t Hw1 Hh Ht H2. induction ops as [|op ops IH]; intros st1 t Hw1 Hh Ht H2.
  - exfalso. cbn in H2. apply ClaimNextAs_sound in H2 as (r & Hr & Hrid & _ & Hd & _); [|done]. destruct Hh as (Ht1 & Hs & Hc).
    assert (t = r) as <- by (eapply same_id; [exact Hw1|done|done|congruence]). unfold dealt in Hd. destruct re2; destruct_and!; congruence.
  - destruct (holder_step op st1 t b1 Hw1 Hh) as [Htook|(t' & Ht' & Hid' & ? & ?)].
    + exists [], op, ops, t. split_and!; [done..|]. intros x Hx Hxid. eapply took_free; [exact Hw1|exact Hh|exact Htook|exact Hx|congruence].
    + destruct (IH (run_op op st1) t') as (before & op' & after & x & -> & ? & ? & ? & ?); [by apply wf_op|done|congruence|done|].
      exists (op :: before), op', after, x. by split_and!.
Qed.
