(* ===== verification/QueuePlan.v ===== *)
(** * Re-planning keeps a mission able to finish

    A mission's rows are a plan: keys that depend on keys. A plan is sound when every
    dependency names a task, none of a pending task is cancelled or superseded, and there is no cycle.
    A sound plan is never stuck ([plan_progresses]); a guarded cancel cancels what
    waits on the task and nothing else ([CancelTaskGuarded_exact]); the replacement of a
    task takes its place ([SupersedeTask_rows]); the guard of a retargeting refuses exactly the cycles
    ([retarget_guard_exact]) and its writes overwrite no newer one ([retarget_no_clobber]). That the
    operations keep a sound plan sound is in QueueSound.v. *)
From S2P Require Import Prelude GoLib Float64 Queue QueueFacts.
Local Open Scope string_scope.
Local Open Scope list_scope.
Local Open Scope Z_scope.

(** ** Plans *)

Definition edge (ts : list Task) (a b : string) : Prop := ∃ t, t ∈ ts ∧ tk_Key t = a ∧ b ∈ tk_Deps t.
Definition alive (t : Task) : Prop := tk_Status t ≠ StatusCancelled ∧ tk_Status t ≠ StatusSuperseded.

Record sound_plan (ts : list Task) : Prop := {
  sp_named : ∀ t d, t ∈ ts → d ∈ tk_Deps t → ∃ u, u ∈ ts ∧ tk_Key u = d;
  sp_unstranded : ∀ t d, t ∈ ts → tk_Status t = StatusPending → d ∈ tk_Deps t → ∃ u, u ∈ ts ∧ tk_Key u = d ∧ alive u;
  sp_acyclic : ∀ k, Acc (λ b a, edge ts a b) k }.

Lemma elem_of_ListTasks m st t : t ∈ ListTasks m st ↔ t ∈ st_tasks st ∧ tk_MissionID t = m.
Proof. unfold ListTasks. by rewrite elem_of_filter_where, in_mission_eq. Qed.
Lemma keysWithStatus_elem m s ts k : k ∈ keysWithStatus m s ts ↔ ∃ t, t ∈ ts ∧ tk_MissionID t = m ∧ tk_Status t = s ∧ tk_Key t = k.
Proof.
  unfold keysWithStatus. rewrite list_elem_of_fmap. setoid_rewrite elem_of_filter_where. setoid_rewrite andb_true_iff.
  setoid_rewrite in_mission_eq. setoid_rewrite has_status_eq. naive_solver.
Qed.
Lemma allDone_spec deps done : allDone deps done = true ↔ ∀ d, d ∈ deps → d ∈ done.
Proof.
  unfold allDone. rewrite forallb_forall. setoid_rewrite bool_decide_eq_true. setoid_rewrite list_elem_of_In. done.
Qed.
Lemma MissionDone_false m st : MissionDone m st = false ↔
  (∀ t, t ∉ ListTasks m st) ∨ ∃ t, t ∈ ListTasks m st ∧ open_status (tk_Status t) = true.
Proof.
  unfold MissionDone. rewrite affected_pos, andb_false_iff. split.
  - intros [H|H].
    + left. intros t Ht%elem_of_ListTasks. apply not_true_iff_false in H. apply H. apply existsb_exists. exists t. split; [apply list_elem_of_In; tauto|]. apply in_mission_eq; tauto.
    + right. apply Nat.eqb_neq in H. unfold affected in H. destruct (List.filter _ _) as [|t l] eqn:E; [done|].
      assert (t ∈ t :: l) as Ht by left. rewrite <- E in Ht. apply elem_of_filter_where in Ht as [Ht [Hm Ho]%andb_prop]. rows. exists t. by rewrite elem_of_ListTasks.
  - intros [H|(t & Ht%elem_of_ListTasks & Ho)].
    + left. apply not_true_iff_false. intros (t & Ht%list_elem_of_In & Hm)%existsb_exists. rows. apply (H t). by apply elem_of_ListTasks.
    + right. apply Nat.eqb_neq. unfold affected. intros E%length_zero_iff_nil. assert (t ∈ @nil Task) as Hn; [|by apply elem_of_nil in Hn].
      rewrite <- E. apply elem_of_filter_where. split; [tauto|]. apply andb_true_iff. split; [apply in_mission_eq; tauto|done].
Qed.

(** A sound plan is never stuck: while a mission has an open task, a bee can claim or complete one, or
    the next promotion makes some task ready. *)
Lemma plan_progresses m st : wf st → sound_plan (ListTasks m st) → (∃ t, t ∈ ListTasks m st) → MissionDone m st = false →
  (∃ t, t ∈ ListTasks m st ∧ (tk_Status t = StatusReady ∨ tk_Status t = StatusClaimed)) ∨ 0 < (PromoteReady m st).1.
Proof.
  intros Hw [Hn Hu Ha] [t0 Ht0] [H|(t & Ht & Ho)]%MissionDone_false; [by destruct (H t0)|].
  destruct (decide (Exists (λ t, tk_Status t = StatusReady ∨ tk_Status t = StatusClaimed) (ListTasks m st))) as [(x & ? & ?)%Exists_exists|Hno].
  { left. by exists x. }
  right. assert (∀ x, x ∈ ListTasks m st → open_status (tk_Status x) = true → tk_Status x = StatusPending) as Hpend.
  { intros x Hx Hox. destruct (tk_Status x) eqn:E; try done; destruct Hno; apply Exists_exists; exists x; auto. }
  rewrite PromoteReady_exact by done. cbn [fst]. unfold affected.
  assert (∃ x, x ∈ st_tasks st ∧ promotable m (st_tasks st) x = true) as (x & Hx & Hp).
  2:{ assert (x ∈ List.filter (promotable m (st_tasks st)) (st_tasks st)) as Hin by (by apply elem_of_filter_where).
      destruct (List.filter _ _); [by apply elem_of_nil in Hin|cbn; lia]. }
  pose proof (Hpend t Ht Ho) as Hs. clear Ho. remember (tk_Key t) as k eqn:Ek. revert t Ht Hs Ek. induction (Ha k) as [k _ IH]. intros t Ht Hs ->.
  destruct (allDone (tk_Deps t) (keysWithStatus m StatusDone (st_tasks st))) eqn:Ed.
  { apply elem_of_ListTasks in Ht as [Ht Hm]. exists t. split; [done|]. unfold promotable. rewrite Ed, andb_true_r. apply andb_true_iff.
    by rewrite in_mission_eq, has_status_eq. }
  apply not_true_iff_false in Ed. rewrite allDone_spec in Ed.
  assert (∃ d, d ∈ tk_Deps t ∧ d ∉ keysWithStatus m StatusDone (st_tasks st)) as (d & Hd & Hnd).
  { destruct (decide (Forall (λ d, d ∈ keysWithStatus m StatusDone (st_tasks st)) (tk_Deps t))) as [Hf|Hf]; [by rewrite Forall_forall in Hf|].
    apply not_Forall_Exists in Hf; [|intros ?; apply _]. by apply Exists_exists in Hf. }
  destruct (Hu t d Ht Hs Hd) as (u & Huin & <- & [Hc1 Hc2]). apply (IH (tk_Key u)) with u; [by exists t|done| |done].
  apply Hpend; [done|]. destruct (tk_Status u) eqn:E; try done. destruct Hnd. apply keysWithStatus_elem. apply elem_of_ListTasks in Huin as [? ?]. by exists u.
Qed.

(** ** Unique keys *)

Definition variant (base : string) (i : Z) : string := base +:+ "-r" +:+ format_int i.
Lemma app_str_inj_l s t u : s +:+ t = s +:+ u → t = u.
Proof. intros E. by apply app_str_inj_len in E as [_ ?]. Qed.
Lemma variant_inj base i j : variant base i = variant base j → i = j.
Proof. intros E%app_str_inj_l%app_str_inj_l. by apply format_int_inj. Qed.
Lemma variant_base base i : variant base i ≠ base.
Proof. intros E%(f_equal String.length). unfold variant in E. rewrite !length_app_str in E. cbn in E. lia. Qed.

Lemma unique_loop_Some m base ts rounds : ∀ i key k, unique_loop m base ts rounds i key = Some k → taken m k ts = false.
Proof.
  induction rounds as [|r IH]; intros i key k; cbn [unique_loop]; [done|]. destruct (taken m key ts) eqn:E; cbn [negb]; [apply IH|]. by intros [= <-].
Qed.
Lemma unique_loop_None m base ts rounds : ∀ i key, unique_loop m base ts rounds i key = None →
  Forall (λ k, taken m k ts = true) (take rounds (key :: map (λ j, variant base (i + Z.of_nat j)) (seq 0 (pred rounds)))).
Proof.
  induction rounds as [|r IH]; intros i key; cbn [unique_loop]; [constructor|]. destruct (taken m key ts) eqn:E; cbn [negb]; [|done]. intros H%IH.
  cbn [pred take]. constructor; [done|]. destruct r as [|r]; [constructor|]. cbn [pred] in H. cbn [seq map]. rewrite Z.add_0_r.
  rewrite <- seq_shift, map_map. erewrite map_ext; [exact H|]. intros j. cbn. f_equal. lia.
Qed.

(** A key is found while the mission has fewer rows than the loop has rounds. *)
Lemma uniqueKeyTx_total m base ts : Z.of_nat (affected (in_mission m) ts) < 9998 → ∃ k, uniqueKeyTx m base ts = Some k ∧ taken m k ts = false.
Proof.
  intros Hlt. unfold uniqueKeyTx. set (n := Z.to_nat 9998). assert (affected (in_mission m) ts < n)%nat as Hn by lia. clearbody n.
  destruct (unique_loop m base ts n 2 base) as [k|] eqn:E; [exists k; split; [done|by eapply unique_loop_Some]|exfalso].
  apply unique_loop_None in E. destruct n as [|n]; [lia|]. cbn [pred take] in E. rewrite take_ge in E by (by rewrite length_map, length_seq).
  set (l := base :: _) in E. assert (NoDup l) as Hnd.
  { apply NoDup_cons. split; [intros (j & Hj & _)%list_elem_of_fmap; by eapply variant_base|].
    assert (Inj eq eq (λ j : nat, variant base (2 + Z.of_nat j))) by (intros i j E'%variant_inj; lia).
    apply (NoDup_fmap_2 _). apply NoDup_ListNoDup, seq_NoDup. }
  assert (l ⊆ map tk_Key (List.filter (in_mission m) ts)) as Hin.
  { intros k Hk. rewrite Forall_forall in E. apply E, taken_spec, list_elem_of_fmap in Hk as (t & Ht & Hin). injection Ht as -> ->.
    apply list_elem_of_fmap. exists t. split; [done|]. apply elem_of_filter_where. split; [done|by apply in_mission_eq]. }
  pose proof (NoDup_submseteq l _ Hnd Hin) as Hs%submseteq_length. unfold affected in Hn. rewrite length_map in Hs. cbn in Hs. rewrite length_map, length_seq in Hs. lia.
Qed.

(** ** Superseding *)

Definition repointed (oldKey newKey : string) (t : Task) : Task := set_deps (rewritten oldKey newKey (tk_Deps t)) t.

Lemma rewrites_by_id oldKey newKey ds : NoDup (map tk_ID ds) → ∀ ts, (∀ t d, t ∈ ts → d ∈ ds → tk_ID d = tk_ID t → tk_Deps d = tk_Deps t) →
  foldl (rewrite_one oldKey newKey) ts ds = update_where (λ t, existsb (λ d, has_id (tk_ID d) t) ds) (repointed oldKey newKey) ts.
Proof.
  induction ds as [|d ds IH]; cbn [map foldl existsb]; intros Hnd ts Hd; [by rewrite update_where_none|]. apply NoDup_cons in Hnd as [Hfresh Hnd].
  assert (∀ t, has_id (tk_ID d) t = true → existsb (λ d, has_id (tk_ID d) t) ds = false) as Honce.
  { intros t Ht%has_id_eq. apply not_true_iff_false. intros (d' & Hd'%list_elem_of_In & Hid%has_id_eq)%existsb_exists. apply Hfresh.
    apply list_elem_of_fmap. exists d'. split; [congruence|done]. }
  rewrite IH; [|done|].
  - unfold rewrite_one, update_where. rewrite map_map. apply map_ext_in. intros t Ht%list_elem_of_In. destruct (has_id (tk_ID d) t) eqn:E; cbn [orb]; [|done].
    assert (has_id (tk_ID d) (set_deps (rewritten oldKey newKey (tk_Deps d)) t) = true) as E' by done. rewrite (Honce _ E').
    unfold repointed. rewrite (Hd t d); [done|done|left|]. by apply has_id_eq in E.
  - intros t d' Ht Hd' Hid. apply elem_of_update_where in Ht as (t0 & Ht0 & ->). destruct (has_id (tk_ID d) t0) eqn:E.
    + exfalso. apply Hfresh. apply list_elem_of_fmap. exists d'. split; [|done]. apply has_id_eq in E. cbn in Hid. congruence.
    + apply Hd; [done|by right|done].
Qed.

(** What becomes of a row when the task [old] is replaced under [key]. *)
Definition waits_for (old : Task) (t : Task) : bool :=
  in_mission (tk_MissionID old) t && has_status StatusPending t && bool_decide (tk_Key old ∈ tk_Deps t).
Definition superseded_row (old : Task) (key : string) (t : Task) : Task :=
  let t' := if has_id (tk_ID old) t then set_dropped StatusSuperseded t else t in
  if waits_for old t then repointed (tk_Key old) key t' else t'.

(** The new row. *)
Definition replacement (old : Task) (spec : TaskSpec) (key : string) (newID : Z) (now : double) : Task :=
  mkTask newID (tk_MissionID old) (rekeyed spec key (if String.eqb (ts_Verify spec) "" then ts_Verify (tk_Spec old) else ts_Verify spec))
    StatusPending None None None now None None (tk_ID old) "".
Definition base_key (old : Task) (spec : TaskSpec) : string := if String.eqb (ts_Key spec) "" then tk_Key old else ts_Key spec.

Lemma supersede_rows oldID spec now st old key : wf st → TaskByID oldID st = Some old →
  uniqueKeyTx (tk_MissionID old) (base_key old spec) (st_tasks st) = Some key →
  (∀ t, t ∈ ListTasks (tk_MissionID old) st → tk_Key t ≠ key) ∧ ∃ newID, (∀ t, t ∈ st_tasks st → tk_ID t < newID) ∧
  SupersedeTask oldID spec now st = Ok (newID, with_tasks st (map (superseded_row old key) (st_tasks st) ++ [replacement old spec key newID now])).
Proof.
  intros Hw Ho Hkey. pose proof Ho as [Hin Hid]%TaskByID_Some; [|done]. unfold SupersedeTask. rewrite Ho. cbv zeta. set (m := tk_MissionID old) in *.
  fold (base_key old spec). pose proof (unique_loop_Some _ _ _ _ _ _ _ Hkey) as Hfree. rewrite Hkey.
  set (ts1 := update_where (has_id oldID) (set_dropped StatusSuperseded) (st_tasks st)).
  assert (map tk_ID ts1 = map tk_ID (st_tasks st)) as Eids by (by apply map_update_where).
  assert (taken m key ts1 = false) as Hfree1.
  { apply not_true_iff_false. rewrite taken_spec. unfold ts1. rewrite map_update_where by done. apply not_true_iff_false in Hfree. by rewrite <- taken_spec. }
  unfold insert_task. cbn [ts_Key rekeyed]. rewrite Hfree1. unfold replacement. rewrite Hid. set (fresh := mkTask _ _ _ _ _ _ _ _ _ _ _ _).
  split; [|exists (next_id (map tk_ID ts1)); split].
  - intros t [Ht Hm]%elem_of_ListTasks <-. apply not_true_iff_false in Hfree. apply Hfree, taken_spec, list_elem_of_fmap. exists t. split; [|done]. unfold place_of. by rewrite Hm.
  - intros t Ht. rewrite Eids. apply next_id_above. by apply list_elem_of_fmap_2.
  - do 3 f_equal. set (deps := List.filter _ (st_tasks st)).
    assert (∀ t, t ∈ st_tasks st → existsb (λ d, has_id (tk_ID d) t) deps = waits_for old t) as Hsel by (intros t Ht; by apply selected).
    rewrite rewrites_by_id; cycle 1.
    { eapply sublist_NoDup; [by apply NoDup_ids; exact Hw|]. apply fmap_sublist, filter_sublist. }
    { intros t d Ht [Hd _]%elem_of_filter_where E. apply elem_of_app in Ht as [(t0 & Ht0 & ->)%elem_of_update_where|Hn%list_elem_of_singleton].
      - rewrite (same_id (st_tasks st) d t0) by (try done; by destruct (has_id oldID t0)). by destruct (has_id oldID t0).
      - subst t. cbn in E. assert (tk_ID d < next_id (map tk_ID ts1)) as H; [|lia]. rewrite Eids. apply next_id_above. by apply list_elem_of_fmap_2. }
    unfold update_where at 1. rewrite map_app. f_equal.
    + unfold ts1, update_where. rewrite map_map. apply map_ext_in. intros t Ht%list_elem_of_In. unfold superseded_row. rewrite Hid, <- Hsel by done.
      by destruct (has_id oldID t).
    + cbn. assert (existsb (λ d, has_id (tk_ID d) fresh) deps = false) as ->; [|done].
      apply not_true_iff_false. intros (d & Hd%list_elem_of_In & E%has_id_eq)%existsb_exists. apply elem_of_filter_where in Hd as [Hd _]. cbn in E.
      assert (tk_ID d < next_id (map tk_ID ts1)) as H; [|lia]. rewrite Eids. apply next_id_above. by apply list_elem_of_fmap_2.
Qed.

(** Superseding puts one task in another's place. The old row, whatever its status, is superseded; a row with a new
    id and a key no task of the mission had is added, pending, with the old one's lineage and, unless it sets its own, its
    verify command; the pending tasks of the mission that waited on the old task wait on the new one; no
    other row changes. It fails only for a missing task, or when ten thousand keys are taken. *)
Theorem SupersedeTask_rows oldID spec now st old : wf st → TaskByID oldID st = Some old →
  Z.of_nat (affected (in_mission (tk_MissionID old)) (st_tasks st)) < 9998 →
  ∃ key newID, uniqueKeyTx (tk_MissionID old) (base_key old spec) (st_tasks st) = Some key ∧
    (∀ t, t ∈ ListTasks (tk_MissionID old) st → tk_Key t ≠ key) ∧ (∀ t, t ∈ st_tasks st → tk_ID t < newID) ∧
    SupersedeTask oldID spec now st = Ok (newID, with_tasks st (map (superseded_row old key) (st_tasks st) ++ [replacement old spec key newID now])).
Proof.
  intros Hw Ho Hlt. destruct (uniqueKeyTx_total _ (base_key old spec) _ Hlt) as (key & Hkey & _).
  destruct (supersede_rows _ spec now _ _ _ Hw Ho Hkey) as (? & newID & ? & ?). by exists key, newID.
Qed.

(** ** Cancelling what waits *)

(** The task itself and the live tasks that wait on one of these. *)
Inductive waits (all : list Task) (root : Task) : Task → Prop :=
| waits_root : waits all root root
| waits_dep x y : waits all root y → x ∈ all → open_status (tk_Status x) = true → tk_Key y ∈ tk_Deps x → waits all root x.

Section Walk.
Variables (all : list Task) (root : Task).
Hypothesis ids_unique : NoDup (map tk_ID all).
Hypothesis root_in : root ∈ all.

Definition node_of (x : Task) : node := (tk_ID x, tk_Key x).
Lemma elem_of_dependentsOf k x : x ∈ dependentsOf all k ↔ x ∈ all ∧ k ∈ tk_Deps x.
Proof.
  unfold dependentsOf. rewrite list_elem_of_In, in_concat. setoid_rewrite in_map_iff. split.
  - intros (l & (y & <- & Hy) & Hx). apply in_map_iff in Hx as (d & <- & Hd). apply filter_In in Hd as [Hd ->%String.eqb_eq]. by rewrite !list_elem_of_In.
  - intros [Hx Hk]. exists (map (λ _, x) (List.filter (String.eqb k) (tk_Deps x))). split; [exists x; by rewrite <- list_elem_of_In|].
    apply in_map_iff. exists k. split; [done|]. apply filter_In. by rewrite <- list_elem_of_In, String.eqb_refl.
Qed.

Record walked (nodes done : list node) (seen : gset Z) : Prop := {
  wk_seen : ∀ i, i ∈ seen ↔ i ∈ map fst nodes;
  wk_nodup : NoDup (map fst nodes);
  wk_waits : ∀ n, n ∈ nodes → ∃ x, x ∈ all ∧ n = node_of x ∧ waits all root x;
  wk_closed : ∀ n x, n ∈ done → x ∈ all → open_status (tk_Status x) = true → n.2 ∈ tk_Deps x → tk_ID x ∈ seen }.

Lemma visit_all done subtree y deps : ∀ seen frontier, waits all root y → (∀ x, x ∈ deps → x ∈ all ∧ tk_Key y ∈ tk_Deps x) →
  walked (subtree ++ frontier) done seen →
  let '(seen', frontier') := foldl visit (seen, frontier) deps in
  walked (subtree ++ frontier') done seen' ∧ seen ⊆ seen' ∧ (∃ more, frontier' = frontier ++ more) ∧
  ∀ x, x ∈ deps → open_status (tk_Status x) = true → tk_ID x ∈ seen'.
Proof.
  induction deps as [|x deps IH]; intros seen frontier Hy Hdeps Hw; cbn [foldl].
  { split_and!; [done|done|exists []; by rewrite app_nil_r|by intros ? ?%elem_of_nil]. }
  unfold visit at 2. cbn [fst snd]. destruct (Hdeps x ltac:(left)) as [Hx Hk].
  destruct (bool_decide_reflect (tk_ID x ∈ seen)) as [Hs|Hs]; cbn [orb].
  { specialize (IH seen frontier Hy (λ z Hz, Hdeps z ltac:(by right)) Hw). destruct (foldl visit _ deps) as [seen' frontier'].
    destruct IH as (? & Hsub & ? & Hin). split_and!; [done..|]. intros z [->|Hz]%elem_of_cons Ho; [by apply Hsub|by apply Hin]. }
  destruct (open_status (tk_Status x)) eqn:Eo; cbn [negb].
  - specialize (IH ({[tk_ID x]} ∪ seen) (frontier ++ [node_of x]) Hy (λ z Hz, Hdeps z ltac:(by right))).
    unfold node_of at 1 in IH. destruct (foldl visit _ deps) as [seen' frontier']. destruct IH as (? & Hsub & (more & ->) & Hin).
    + destruct Hw as [H1 H2 H3 H4]. rewrite app_assoc. split.
      * intros i. rewrite map_app, elem_of_app, elem_of_union, elem_of_singleton, H1. cbn. rewrite list_elem_of_singleton. tauto.
      * rewrite map_app. apply NoDup_app. split_and!; [done| |apply NoDup_singleton]. intros i Hi ->%list_elem_of_singleton. apply Hs. by apply H1.
      * intros n [Hn| ->%list_elem_of_singleton]%elem_of_app; [by apply H3|]. exists x. split_and!; [done..|]. by eapply waits_dep.
      * intros n z Hn Hz Hoz Hkz. apply elem_of_union_r. by eapply H4.
    + split_and!; [done| |exists ([node_of x] ++ more); by rewrite app_assoc|].
      * intros i Hi. apply Hsub. by apply elem_of_union_r.
      * intros z [->|Hz]%elem_of_cons Ho; [apply Hsub; by apply elem_of_union_l, elem_of_singleton|by apply Hin].
  - specialize (IH seen frontier Hy (λ z Hz, Hdeps z ltac:(by right)) Hw). destruct (foldl visit _ deps) as [seen' frontier'].
    destruct IH as (? & Hsub & ? & Hin). split_and!; [done..|]. intros z [->|Hz]%elem_of_cons Ho; [congruence|by apply Hin].
Qed.

Lemma walk_ok fuel : ∀ frontier seen subtree, walked (subtree ++ frontier) subtree seen → (length all < fuel + length subtree)%nat →
  ∃ out seen', walk all fuel frontier seen subtree = Some out ∧ walked out out seen' ∧ (∃ more, out = subtree ++ more) ∧ (∀ n, n ∈ frontier → n ∈ out).
Proof.
  induction fuel as [|fuel IH]; intros [|cur rest] seen subtree Hw Hf; cbn [walk].
  - exists subtree, seen. split_and!; [done|by rewrite app_nil_r in Hw|exists []; by rewrite app_nil_r|by intros ? ?%elem_of_nil].
  - exfalso. destruct Hw as [H1 H2 H3 _]. assert (map fst (subtree ++ cur :: rest) ⊆ map tk_ID all) as Hsub.
    { intros i (n & -> & (x & ? & -> & _)%H3)%list_elem_of_fmap. cbn. by apply list_elem_of_fmap_2. }
    pose proof (NoDup_submseteq _ _ H2 Hsub) as Hl%submseteq_length. rewrite !length_map, length_app in Hl. lia.
  - exists subtree, seen. split_and!; [done|by rewrite app_nil_r in Hw|exists []; by rewrite app_nil_r|by intros ? ?%elem_of_nil].
  - destruct (wk_waits _ _ _ Hw cur) as (y & Hy & -> & Hyw); [apply elem_of_app; right; left|]. cbn [snd node_of].
    assert (walked ((subtree ++ [node_of y]) ++ rest) subtree seen) as Hw' by (by rewrite <- app_assoc).
    pose proof (visit_all subtree (subtree ++ [node_of y]) y (dependentsOf all (tk_Key y)) seen rest Hyw) as Hv.
    specialize (Hv ltac:(intros x Hx; by apply elem_of_dependentsOf) Hw'). destruct (foldl visit _ _) as [seen' frontier'].
    destruct Hv as (Hw2 & Hsub & (more & ->) & Hin).
    destruct (IH (rest ++ more) seen' (subtree ++ [node_of y])) as (out & seen2 & Hout & Hwk & (more2 & ->) & Hfr).
    + destruct Hw2 as [H1 H2 H3 H4]. split; [done..|]. intros n x [Hn| ->%list_elem_of_singleton]%elem_of_app Hx Ho Hk; [by eapply H4|].
      apply Hin; [|done]. by apply elem_of_dependentsOf.
    + rewrite length_app. cbn. lia.
    + exists ((subtree ++ [node_of y]) ++ more2), seen2. split_and!; [done|done|exists ([node_of y] ++ more2); by rewrite app_assoc|].
      intros n [->|Hn]%elem_of_cons; [apply elem_of_app; left; apply elem_of_app; right; by apply list_elem_of_singleton|].
      apply Hfr, elem_of_app. by left.
Qed.

Lemma walk_spec : ∃ more, walk all (S (length all)) [node_of root] {[ tk_ID root ]} [] = Some (node_of root :: more) ∧
  NoDup (map fst (node_of root :: more)) ∧
  (∀ n, n ∈ node_of root :: more → ∃ x, x ∈ all ∧ n = node_of x ∧ waits all root x) ∧ ∀ x, waits all root x → node_of x ∈ node_of root :: more.
Proof.
  destruct (walk_ok (S (length all)) [node_of root] {[ tk_ID root ]} []) as (out & seen & Hout & Hw & _ & Hfr).
  { split; cbn.
    - intros i. by rewrite elem_of_singleton, list_elem_of_singleton.
    - apply NoDup_singleton.
    - intros n ->%list_elem_of_singleton. exists root. split_and!; [done..|constructor].
    - by intros ? ? ?%elem_of_nil. }
  { cbn. lia. }
  assert (∃ more, out = node_of root :: more) as [more ->].
  { cbn [walk] in Hout. destruct (foldl visit _ _) as [seen' frontier']. clear -Hout. revert Hout. cbn [app].
    generalize (@nil node). generalize (length all) as fuel. intros fuel. 
    assert (∀ fuel frontier seen pre out, walk all fuel frontier seen (node_of root :: pre) = Some out → ∃ more, out = node_of root :: more) as H.
    { clear. induction fuel as [|f IH]; intros [|c rest] seen pre out; cbn [walk]; [intros [= <-]; by eexists|done|intros [= <-]; by eexists|].
      destruct (foldl visit _ _). apply IH. }
    intros l. cbn. intros Ho. by eapply H. }
  exists more. destruct Hw as [H1 H2 H3 H4]. split_and!; [done|done|done|]. intros x Hx.
  assert (x ∈ all) as Hxall by (inversion Hx; subst; done).
  assert (∀ z, waits all root z → z ∈ all → node_of z ∈ node_of root :: more) as Hgo; [|by apply Hgo].
  clear x Hx Hxall. intros z Hz. induction Hz as [|z y Hy IHy Hz Ho Hk]; intros Hzall; [left|].
    assert (y ∈ all) as Hyall by (inversion Hy; subst; done).
    pose proof (H4 _ z (IHy Hyall) Hz Ho Hk) as Hs%H1. apply list_elem_of_fmap in Hs as (n & En & Hn).
    destruct (H3 n Hn) as (w & Hwall & -> & _). cbn in En. by rewrite (NoDup_map_inj tk_ID all z w).
Qed.
End Walk.

Lemma cancel_loop ns : NoDup (map fst ns) → ∀ acc, let '(ids, st') := foldl cancel_one acc ns in
  st' = with_tasks acc.2 (update_where (λ t, existsb (λ n, has_id n.1 t) ns && open_status (tk_Status t)) (set_dropped StatusCancelled) (st_tasks acc.2)) ∧
  ids = acc.1 ++ map fst (List.filter (λ n : node, existsb (cancellable n.1) (st_tasks acc.2)) ns).
Proof.
  induction ns as [|n ns IH]; cbn [map foldl]; intros Hnd acc.
  { destruct acc as [ids st]. cbn. split; [|by rewrite app_nil_r]. rewrite update_where_none by done. by destruct st. }
  apply NoDup_cons in Hnd as [Hn Hnd]. specialize (IH Hnd (cancel_one acc n)). destruct (foldl cancel_one _ ns) as [ids st']. destruct IH as [-> ->].
  unfold cancel_one. destruct (CancelTask n.1 acc.2) as [ok st1] eqn:Ec. unfold CancelTask in Ec. injection Ec as <- <-. cbn [fst snd st_tasks with_tasks]. split.
  - unfold with_tasks. cbn. f_equal. unfold update_where. rewrite map_map. apply map_ext. intros t. unfold cancellable. cbn [existsb].
    destruct (has_id n.1 t) eqn:E; cbn [orb andb]; [|done]. destruct (open_status (tk_Status t)) eqn:Eo; cbn [andb]; rewrite ?Eo, ?andb_false_r; cbn; by rewrite ?andb_false_r.
  - rewrite affected_pos. cbn [List.filter].
    assert (∀ l, (∀ x, x ∈ l → x ∈ ns) → List.filter (λ n0 : node, existsb (cancellable n0.1) (update_where (cancellable n.1) (set_dropped StatusCancelled) (st_tasks acc.2))) l =
      List.filter (λ n0 : node, existsb (cancellable n0.1) (st_tasks acc.2)) l) as ->; [| |done].
    { intros l. induction l as [|n0 l IHl]; intros Hl; [done|]. cbn [List.filter]. rewrite IHl by (intros; apply Hl; by right).
      assert (existsb (cancellable n0.1) (update_where (cancellable n.1) (set_dropped StatusCancelled) (st_tasks acc.2)) = existsb (cancellable n0.1) (st_tasks acc.2)) as ->; [|done].
      generalize (st_tasks acc.2) as ts. induction ts as [|t ts IHt]; [done|]. cbn. rewrite <- IHt. f_equal. destruct (cancellable n.1 t) eqn:E; [|done].
      unfold cancellable in E. apply andb_prop in E as [E _]. unfold cancellable. cbn. rewrite andb_false_r. symmetry. apply andb_false_iff. left.
      apply not_true_iff_false. intros E0. apply has_id_eq in E, E0. apply Hn. rewrite <- E, E0. apply list_elem_of_fmap_2. apply Hl. left. }
    destruct (existsb (cancellable n.1) (st_tasks acc.2)); cbn; by rewrite <- ?app_assoc.
Qed.

Lemma subtree_waits st root : wf st → root ∈ st_tasks st → let all := ListTasks (tk_MissionID root) st in
  ∃ more, subtree_of root st = Some (node_of root :: more) ∧ NoDup (map fst (node_of root :: more)) ∧
    (∀ n, n ∈ more → ∃ x, n = node_of x ∧ waits all root x ∧ x ≠ root) ∧ ∀ x, waits all root x → x ≠ root → node_of x ∈ more.
Proof.
  intros Hw Hin all. assert (NoDup (map tk_ID all)) as Hnd by (eapply sublist_NoDup; [by apply NoDup_ids; exact Hw|]; apply fmap_sublist, filter_sublist).
  assert (root ∈ all) as Hroot by (by apply elem_of_ListTasks).
  destruct (walk_spec all root Hnd Hroot) as (more & Hwalk & Hnn & Hspec & Hspec'). exists more. split_and!; [done|done| |].
  - intros n Hn. destruct (Hspec n ltac:(by right)) as (x & _ & -> & Hx). exists x. split_and!; [done..|]. intros ->.
    apply NoDup_cons in Hnn as [Hfresh _]. apply Hfresh. change (tk_ID root) with (node_of root).1. by apply list_elem_of_fmap_2.
  - intros x Hx Hne. pose proof (Hspec' x Hx) as [E|?]%elem_of_cons; [|done]. destruct Hne. injection E as E _.
    assert (x ∈ all) by (inversion Hx; subst; done). by apply (NoDup_map_inj tk_ID all).
Qed.
(** The rows the cancellations of a walk reach. *)
Lemma subtree_hits st root more x : wf st → root ∈ st_tasks st → let all := ListTasks (tk_MissionID root) st in
  (∀ n, n ∈ more → ∃ x, n = node_of x ∧ waits all root x ∧ x ≠ root) → (∀ x, waits all root x → x ≠ root → node_of x ∈ more) →
  x ∈ st_tasks st → existsb (λ n : node, has_id n.1 x) (node_of root :: more) = true ↔ x = root ∨ waits all root x ∧ x ≠ root.
Proof.
  intros Hw Hin all Hmore Hmore' Hx. rewrite existsb_exists. split.
  - intros (n & Hn%list_elem_of_In & Hi%has_id_eq). apply elem_of_cons in Hn as [->|Hn].
    + left. eapply same_id; [exact Hw|done|done|]. by cbn in Hi.
    + right. apply Hmore in Hn as (y & -> & Hy & Hne). cbn in Hi. assert (x = y) as ->; [|done].
      eapply same_id; [exact Hw|done| |done]. assert (y ∈ all) as H by (inversion Hy; subst; [by apply elem_of_ListTasks|done]).
      by apply elem_of_ListTasks in H as [? _].
  - intros [->|[Hy Hne]]; [exists (node_of root); split; [left; done|by apply has_id_eq]|].
    exists (node_of x). split; [|by apply has_id_eq]. apply list_elem_of_In. right. by apply Hmore'.
Qed.

(** C20. On well-formed tables, cancelling a task that is there with the guard always ends. It refuses, changing nothing and naming exactly the
    live tasks that wait on the task directly or through others, when there are some and it was not told to cascade. Otherwise it
    cancels the task and all of these that are open, and no other row changes. *)
Theorem CancelTaskGuarded_exact id cascade st root : wf st → TaskByID id st = Some root →
  let dependent x := waits (ListTasks (tk_MissionID root) st) root x ∧ x ≠ root in
  ∃ cancelled blocked st', CancelTaskGuarded id cascade st = Some (Ok (cancelled, blocked, st')) ∧
  ((cascade = false ∧ (∃ x, dependent x) ∧ cancelled = [] ∧ st' = st ∧ ∀ k, k ∈ blocked ↔ ∃ x, dependent x ∧ tk_Key x = k) ∨
   ((cascade = true ∨ ∀ x, ¬ dependent x) ∧ blocked = [] ∧
    ∃ hit, (∀ x, x ∈ st_tasks st → hit x = true ↔ (x = root ∨ dependent x) ∧ open_status (tk_Status x) = true) ∧
           st' = with_tasks st (update_where hit (set_dropped StatusCancelled) (st_tasks st)) ∧
           ∀ i, i ∈ cancelled ↔ ∃ x, x ∈ st_tasks st ∧ hit x = true ∧ tk_ID x = i)).
Proof.
  intros Hw Hr. pose proof Hr as [Hin Hid]%TaskByID_Some; [|done]. cbv zeta.
  destruct (subtree_waits st root Hw Hin) as (more & Hwalk & Hnn & Hmore & Hmore'). set (all := ListTasks (tk_MissionID root) st) in *.
  unfold CancelTaskGuarded. rewrite Hr, Hwalk. change (drop 1 (node_of root :: more)) with more.
  destruct (negb cascade && (0 <? length more)%nat) eqn:Eg.
  - apply andb_prop in Eg as [Ec%negb_true_iff Hl%Nat.ltb_lt]. do 3 eexists. split; [reflexivity|]. left. split_and!; try done.
    + destruct more as [|n more']; [cbn in Hl; lia|]. destruct (Hmore n ltac:(left)) as (x & _ & ? & ?). by exists x.
    + intros k. rewrite list_elem_of_fmap. split.
      * intros (n & -> & (x & -> & ? & ?)%Hmore). by exists x.
      * intros (x & [? ?] & <-). exists (node_of x). split; [done|]. by apply Hmore'.
  - pose proof (cancel_loop (node_of root :: more) Hnn ([], st)) as Hc. destruct (foldl cancel_one _ _) as [cancelled st'] eqn:Ef. destruct Hc as [-> ->].
    cbn [fst snd app] in *. do 3 eexists. split; [reflexivity|]. right. split_and!; [|done|].
    { destruct cascade; [by left|right]. apply (Nat.ltb_ge 0 (length more)) in Eg. intros x [Hx Hne]. pose proof (Hmore' x Hx Hne) as Hn.
      destruct more; [by apply elem_of_nil in Hn|cbn in Eg; lia]. }
    eexists. split_and!; [|reflexivity|].
    + intros x Hx. cbn beta. rewrite andb_true_iff. apply and_iff_compat_r. by apply subtree_hits.
    + intros i. rewrite list_elem_of_fmap. split.
      * intros (n & -> & Hn). apply elem_of_filter_where in Hn as [Hn (x & Hx%list_elem_of_In & [Hxi Hxo]%andb_prop)%existsb_exists]. apply has_id_eq in Hxi.
        exists x. split_and!; [done| |done]. apply andb_true_iff. split; [|done]. apply existsb_exists. exists n. split; [by apply list_elem_of_In|by apply has_id_eq].
      * intros (x & Hx & Hh & <-). apply andb_prop in Hh as [(n & Hn%list_elem_of_In & Hi%has_id_eq)%existsb_exists Ho]. exists n. split; [done|].
        apply elem_of_filter_where. split; [done|]. apply existsb_exists. exists x. split; [by apply list_elem_of_In|]. apply andb_true_iff. split; [by apply has_id_eq|done].
Qed.

(** ** Retargeting *)

Lemma by_key_snoc ts x : by_key (ts ++ [x]) = <[tk_Key x := x]> (by_key ts).
Proof. unfold by_key. by rewrite foldl_app. Qed.
Lemma by_key_Some ts k t : NoDup (map tk_Key ts) → by_key ts !! k = Some t ↔ t ∈ ts ∧ tk_Key t = k.
Proof.
  induction ts as [|x ts IH] using rev_ind; [cbn; rewrite lookup_empty, elem_of_nil; naive_solver|].
  rewrite map_app, by_key_snoc, elem_of_app, list_elem_of_singleton. intros (Hnd & Hx & _)%NoDup_app.
  destruct (decide (tk_Key x = k)) as [<-|Hne].
  - rewrite lookup_insert_eq. split; [intros [= ->]; auto|]. intros [[Hin| ->] Hk]; [|done]. exfalso. apply (Hx (tk_Key x)); [|left].
    rewrite <- Hk. by apply list_elem_of_fmap_2.
  - rewrite lookup_insert_ne, IH by done. naive_solver.
Qed.
Lemma by_key_is_Some ts k : is_Some (by_key ts !! k) ↔ ∃ t, t ∈ ts ∧ tk_Key t = k.
Proof.
  induction ts as [|x ts IH] using rev_ind.
  - cbn. rewrite lookup_empty. setoid_rewrite elem_of_nil. split; [intros [? ?]; done|naive_solver].
  - rewrite by_key_snoc. destruct (decide (tk_Key x = k)) as [<-|Hne].
    + rewrite lookup_insert_eq. split; [intros _; exists x; split; [|done]; apply elem_of_app; right; left|intros _; by eexists].
    + rewrite lookup_insert_ne, IH by done. setoid_rewrite elem_of_app. setoid_rewrite list_elem_of_singleton. naive_solver.
Qed.

Lemma closed_rtc {A} (R : A → A → Prop) (P : A → Prop) x y : (∀ a b, P a → R a b → P b) → P x → rtc R x y → P y.
Proof. intros Hc Hx Hr. induction Hr; eauto. Qed.

Section Closure.
Variable ts : list Task.
Hypothesis keys_unique : NoDup (map tk_Key ts).
Variable fromKey : string.

Lemma elem_of_deps_at k d : d ∈ deps_at (by_key ts) k ↔ edge ts k d.
Proof.
  unfold deps_at, edge. destruct (by_key ts !! k) as [t|] eqn:E.
  - apply by_key_Some in E as [Hin Hk]; [|done]. split; [intros Hd; by exists t|]. intros (u & Hu & Hku & Hd). 
    by rewrite (NoDup_map_inj tk_Key ts t u) by (try done; congruence).
  - split; [by intros ?%elem_of_nil|]. intros (u & Hu & Hku & _). assert (by_key ts !! k = Some u) by (by apply by_key_Some). congruence.
Qed.

(** What is left to push: the dependencies of the keys not yet visited. *)
Definition unvisited (visited : gset string) (l : list Task) : nat :=
  length (List.concat (map tk_Deps (List.filter (λ t, negb (bool_decide (tk_Key t ∈ visited))) l))).
Lemma unvisited_empty l : unvisited ∅ l = length (List.concat (map tk_Deps l)).
Proof. unfold unvisited. do 2 f_equal. induction l as [|t l IH]; [done|]. cbn [List.filter map]. rewrite (bool_decide_eq_false_2 _ (not_elem_of_empty (tk_Key t))). cbn. by rewrite IH. Qed.
Lemma unvisited_le visited k l : (unvisited ({[ k ]} ∪ visited) l <= unvisited visited l)%nat.
Proof.
  unfold unvisited. induction l as [|t l IH]; [done|]. cbn [List.filter].
  destruct (bool_decide_reflect (tk_Key t ∈ visited)) as [Hv|Hv]; cbn [negb].
  - rewrite bool_decide_eq_true_2 by set_solver. done.
  - destruct (bool_decide_reflect (tk_Key t ∈ {[k]} ∪ visited)); cbn [negb map List.concat]; rewrite ?length_app; lia.
Qed.
Lemma unvisited_drops visited t l : t ∈ l → NoDup (map tk_Key l) → tk_Key t ∉ visited →
  (unvisited ({[ tk_Key t ]} ∪ visited) l + length (tk_Deps t) <= unvisited visited l)%nat.
Proof.
  induction l as [|x l IH]; [by intros ?%elem_of_nil|]. cbn [map]. intros Hin [Hx Hnd]%NoDup_cons Hv. unfold unvisited in *. cbn [List.filter].
  apply elem_of_cons in Hin as [->|Hin].
  - rewrite (bool_decide_eq_false_2 (tk_Key x ∈ visited)) by done. rewrite (bool_decide_eq_true_2 (tk_Key x ∈ _)) by set_solver. cbn [negb map List.concat].
    rewrite length_app. pose proof (unvisited_le visited (tk_Key x) l). unfold unvisited in *. lia.
  - specialize (IH Hin Hnd Hv). destruct (bool_decide_reflect (tk_Key x ∈ visited)) as [Hxv|Hxv]; cbn [negb].
    + rewrite bool_decide_eq_true_2 by set_solver. done.
    + destruct (bool_decide_reflect (tk_Key x ∈ {[tk_Key t]} ∪ visited)) as [H|H]; cbn [negb map List.concat]; rewrite ?length_app; lia.
Qed.

Lemma closure_ok fuel : ∀ stack visited start, (length stack + unvisited visited ts < fuel)%nat →
  (∀ k, k ∈ visited → k ≠ fromKey ∧ ∀ d, edge ts k d → d ∈ visited ∨ d ∈ stack) → (∀ k, k ∈ stack → rtc (edge ts) start k) →
  ∃ b, closure_reaches (by_key ts) fromKey fuel stack visited = Some b ∧
    (b = true → rtc (edge ts) start fromKey) ∧ (b = false → ∀ k, k ∈ visited ∨ k ∈ stack → ¬ rtc (edge ts) k fromKey).
Proof.
  induction fuel as [|f IH]; intros [|k rest] visited start Hf Hv Hr; cbn [closure_reaches length] in *; try lia.
  - exists false. split_and!; [done..|]. intros _ k [Hk|?%elem_of_nil] Hrtc; [|done].
    destruct (Hv fromKey) as [? _]; [|done]. eapply (closed_rtc (edge ts) (.∈ visited)); [|exact Hk|exact Hrtc].
    intros a d Ha Hd. by destruct (proj2 (Hv a Ha) d Hd) as [?|?%elem_of_nil].
  - destruct (bool_decide_reflect (k ∈ visited)) as [Hk|Hk].
    { destruct (IH rest visited start) as (b & ? & ? & Hb); [lia| |intros; apply Hr; by right|].
      - intros x Hx. destruct (Hv x Hx) as [? Hd]. split; [done|]. intros d [?|[->|?]%elem_of_cons]%Hd; auto.
      - exists b. split_and!; [done..|]. intros E x [?|[->|?]%elem_of_cons]; apply Hb; auto. }
    destruct (String.eqb_spec k fromKey) as [->|Hne]; [exists true; split_and!; [done|intros _; apply Hr; left|done]|].
    destruct (IH (rev (deps_at (by_key ts) k) ++ rest) ({[ k ]} ∪ visited) start) as (b & ? & ? & Hb).
    + rewrite length_app, length_rev. unfold deps_at. destruct (by_key ts !! k) as [t|] eqn:E.
      * apply by_key_Some in E as [Hin <-]; [|done]. pose proof (unvisited_drops visited t ts Hin keys_unique Hk). lia.
      * pose proof (unvisited_le visited k ts). cbn. lia.
    + intros x [->%elem_of_singleton|Hx]%elem_of_union.
      * split; [done|]. intros d Hd. right. apply elem_of_app. left. apply list_elem_of_In. rewrite <- in_rev, <- list_elem_of_In. by apply elem_of_deps_at.
      * destruct (Hv x Hx) as [? Hd]. split; [done|]. intros d [?|[->|?]%elem_of_cons]%Hd; [left; by apply elem_of_union_r|left; by apply elem_of_union_l, elem_of_singleton|].
        right. apply elem_of_app. by right.
    + intros x [Hx|Hx]%elem_of_app; [|apply Hr; by right]. eapply rtc_r; [apply Hr; left|]. apply elem_of_deps_at.
      apply list_elem_of_In. rewrite in_rev. by apply list_elem_of_In.
    + exists b. split_and!; [done..|]. intros E x [Hx|[->|Hx]%elem_of_cons]; apply Hb; try done.
      * left. by apply elem_of_union_r.
      * left. by apply elem_of_union_l, elem_of_singleton.
      * right. apply elem_of_app. by right.
Qed.
End Closure.

Lemma NoDup_keys m st : wf st → NoDup (map tk_Key (ListTasks m st)).
Proof.
  intros [_ Hk _]. unfold ListTasks. induction (st_tasks st) as [|t ts IH]; [constructor|]. cbn [map] in Hk. apply NoDup_cons in Hk as [Hx Hk]. cbn [List.filter].
  destruct (in_mission m t) eqn:E; [|by apply IH]. cbn [map]. apply NoDup_cons. split; [|by apply IH].
  intros (u & Eu & Hu)%list_elem_of_fmap. apply elem_of_filter_where in Hu as [Hu Hm]. rows. apply Hx. apply list_elem_of_fmap. exists u. split; [|done].
  unfold place_of. congruence.
Qed.

(** The guard of a retargeting always answers, and refuses exactly an unknown target and a
    target whose dependencies lead back to the key it replaces. *)
Lemma retarget_guard_exact m fromKey toKey st : wf st → let ts := ListTasks m st in
  retarget_plan m fromKey toKey ts = Some (Err (TargetMissing toKey)) ∧ (¬ ∃ t, t ∈ ts ∧ tk_Key t = toKey) ∨
  (∃ t, t ∈ ts ∧ tk_Key t = toKey) ∧
    (retarget_plan m fromKey toKey ts = Some (Err WouldCycle) ∧ rtc (edge ts) toKey fromKey ∨
     retarget_plan m fromKey toKey ts = Some (Ok ts) ∧ ¬ rtc (edge ts) toKey fromKey).
Proof.
  intros Hw ts. unfold retarget_plan. destruct (by_key ts !! toKey) as [t|] eqn:E.
  - right. split; [apply by_key_is_Some; by eexists|].
    destruct (closure_ok ts (NoDup_keys m st Hw) fromKey (closure_fuel ts) [toKey] ∅ toKey) as (b & -> & Ht & Hf).
    + rewrite unvisited_empty. unfold closure_fuel. cbn [length]. lia.
    + intros k ?%elem_of_empty. done.
    + intros k ->%list_elem_of_singleton. done.
    + destruct b; [left; split; [done|by apply Ht]|right; split; [done|]]. apply Hf; [done|right; by left].
  - left. split; [done|]. rewrite <- by_key_is_Some, E. by intros [? ?].
Qed.

(** What the writes of a plan do to the rows as they are by then. *)
Definition retarget_hits (fromKey : string) (snapshot : list Task) (t : Task) : bool :=
  existsb (λ x, open_status (tk_Status x) && bool_decide (fromKey ∈ tk_Deps x) && (has_id (tk_ID x) t && deps_are (tk_Deps x) t)) snapshot.

Lemma retarget_loop fromKey toKey snapshot : NoDup (map tk_ID snapshot) → ∀ acc,
  (foldl (retarget_one fromKey toKey) acc snapshot).2 = update_where (retarget_hits fromKey snapshot) (repointed fromKey toKey) acc.2.
Proof.
  induction snapshot as [|x xs IH]; cbn [map foldl]; intros Hnd acc; [by rewrite update_where_none|]. apply NoDup_cons in Hnd as [Hx Hnd].
  rewrite IH by done. unfold retarget_one. destruct (open_status (tk_Status x)) eqn:Eo; cbn [negb orb]; [|by apply update_where_ext; intros; unfold retarget_hits; cbn [existsb]; rewrite Eo].
  destruct (bool_decide_reflect (fromKey ∈ tk_Deps x)) as [Ef|Ef]; cbn [negb orb];
    [|by apply update_where_ext; intros; unfold retarget_hits; cbn [existsb]; rewrite (bool_decide_eq_false_2 _ Ef), andb_false_r].
  cbn [snd]. unfold update_where. rewrite map_map. apply map_ext. intros t. unfold retarget_hits. cbn [existsb]. fold (retarget_hits fromKey xs).
  rewrite Eo, (bool_decide_eq_true_2 _ Ef). cbn [andb].
  destruct (has_id (tk_ID x) t) eqn:E; cbn [andb orb]; [|done].
  assert (∀ t', tk_ID t' = tk_ID t → existsb (λ x0, open_status (tk_Status x0) && bool_decide (fromKey ∈ tk_Deps x0) && (has_id (tk_ID x0) t' && deps_are (tk_Deps x0) t')) xs = false) as Honce.
  { intros t' Et. apply not_true_iff_false. intros (y & Hy%list_elem_of_In & Hp)%existsb_exists. rewrite !andb_true_iff in Hp.
    destruct Hp as [_ [Hi%has_id_eq _]]. apply Hx. apply has_id_eq in E. replace (tk_ID x) with (tk_ID y) by congruence. by apply list_elem_of_fmap_2. }
  destruct (deps_are (tk_Deps x) t) eqn:Ed; cbn [orb].
  - rewrite Honce by done. apply bool_decide_eq_true in Ed. unfold repointed. by rewrite Ed.
  - by rewrite Honce.
Qed.

(** A retargeting overwrites no newer write: when other operations ran between its reading of
    the mission and its writing, it changes the dependencies of exactly the rows that
    still have the ones it read, and only from the old key to the new. *)
Theorem retarget_no_clobber m fromKey toKey snap st : wf snap → wf st →
  let ts' := (foldl (retarget_one fromKey toKey) (0, st_tasks st) (ListTasks m snap)).2 in
  Forall2 (λ t t', t' = t ∧ retarget_hits fromKey (ListTasks m snap) t = false ∨
    t' = repointed fromKey toKey t ∧ ∃ x, x ∈ ListTasks m snap ∧ tk_ID x = tk_ID t ∧ tk_Deps x = tk_Deps t ∧ fromKey ∈ tk_Deps t ∧ open_status (tk_Status x) = true)
    (st_tasks st) ts'.
Proof.
  intros Hws Hw. cbv zeta. rewrite retarget_loop.
  2:{ eapply sublist_NoDup; [by apply NoDup_ids; exact Hws|]. apply fmap_sublist, filter_sublist. }
  cbn [snd]. unfold update_where. rewrite Forall2_fmap_r. apply Forall_Forall2_diag, Forall_true. intros t. unfold compose.
  destruct (retarget_hits fromKey (ListTasks m snap) t) eqn:E; [right|left; done]. split; [done|].
  apply existsb_exists in E as (x & Hx%list_elem_of_In & Hp). rewrite !andb_true_iff, bool_decide_eq_true in Hp. destruct Hp as [[? Hf] [Hi%has_id_eq Hd%bool_decide_eq_true]].
  exists x. split_and!; [done|done|done|by rewrite Hd|done].
Qed.
