(* ===== verification/QueueSound.v ===== *)
(** * A mission stays able to finish

    The operations keep a sound plan sound, under the conditions [keeps_plan] writes out: new tasks
    depend on live ones, a flat cancel is of another mission's task, a replacement does not depend on what waits on the task it replaces, and
    dependents are not retargeted to a dead task. Main results: [missions_progress] and
    [RetargetDependents_exact]. QueueSamples.v shows what happens outside the conditions, where the code has no guard. *)
From S2P Require Import Prelude GoLib Float64 Queue QueueFacts QueuePlan.
Local Open Scope string_scope.
Local Open Scope list_scope.
Local Open Scope Z_scope.

(** ** Changes of rows *)

Lemma ListTasks_update m p f st ts : st_tasks ts = update_where p f (st_tasks st) → (∀ t, tk_MissionID (f t) = tk_MissionID t) →
  ListTasks m ts = update_where p f (ListTasks m st).
Proof.
  intros E Hf. unfold ListTasks. rewrite E. clear E. unfold update_where. induction (st_tasks st) as [|t l IH]; [done|]. cbn [map List.filter].
  assert (in_mission m (if p t then f t else t) = in_mission m t) as -> by (unfold in_mission; destruct (p t); by rewrite ?Hf).
  destruct (in_mission m t); cbn [map]; by rewrite IH.
Qed.

(** A change that keeps keys and dependencies, makes no task pending and none dead. *)
Definition calm (g : Task → Task) : Prop :=
  ∀ t, tk_Key (g t) = tk_Key t ∧ tk_Deps (g t) = tk_Deps t ∧ (tk_Status (g t) = StatusPending → tk_Status t = StatusPending) ∧ (alive t → alive (g t)).

Lemma edge_map g ts a b : (∀ t, tk_Key (g t) = tk_Key t ∧ tk_Deps (g t) = tk_Deps t) → edge (map g ts) a b ↔ edge ts a b.
Proof.
  intros Hg. unfold edge. split.
  - intros (t & (u & -> & Hu)%list_elem_of_fmap & Hk & Hd). destruct (Hg u) as [E1 E2]. exists u. by rewrite <- E1, <- E2.
  - intros (t & Ht & Hk & Hd). destruct (Hg t) as [E1 E2]. exists (g t). rewrite E1, E2. split_and!; [|done..]. by apply list_elem_of_fmap_2.
Qed.
Lemma Acc_impl {A} (R R' : A → A → Prop) x : (∀ a b, R' a b → R a b) → Acc R x → Acc R' x.
Proof. intros H. induction 1 as [x _ IH]. constructor. intros y ?. apply IH. by apply H. Qed.

Lemma plan_map g ts : calm g → sound_plan ts → sound_plan (map g ts).
Proof.
  intros Hg [Hn Hu Ha]. split.
  - intros t d (x & -> & Hx)%list_elem_of_fmap Hd. destruct (Hg x) as (_ & E & _). rewrite E in Hd. destruct (Hn x d Hx Hd) as (u & ? & <-).
    exists (g u). split; [by apply list_elem_of_fmap_2|apply Hg].
  - intros t d (x & -> & Hx)%list_elem_of_fmap Hp Hd. destruct (Hg x) as (_ & E & Hpend & _). rewrite E in Hd.
    destruct (Hu x d Hx (Hpend Hp) Hd) as (u & ? & <- & ?). exists (g u). split_and!; [by apply list_elem_of_fmap_2|apply Hg|by apply Hg].
  - intros k. eapply Acc_impl; [|exact (Ha k)]. intros a b. cbn. apply edge_map. intros t. destruct (Hg t) as (? & ? & _). done.
Qed.
Lemma plan_update (p : Task → bool) f ts : (∀ t, p t = true → tk_Key (f t) = tk_Key t ∧ tk_Deps (f t) = tk_Deps t ∧
  (tk_Status (f t) = StatusPending → tk_Status t = StatusPending) ∧ (alive t → alive (f t))) → sound_plan ts → sound_plan (update_where p f ts).
Proof. intros H. apply plan_map. intros t. specialize (H t). destruct (p t); [by apply H|done]. Qed.

Lemma plan_same m st st' : st_tasks st' = st_tasks st → sound_plan (ListTasks m st) → sound_plan (ListTasks m st').
Proof. unfold ListTasks. by intros ->. Qed.
Lemma plan_step m p f st st' : st_tasks st' = update_where p f (st_tasks st) → (∀ t, tk_MissionID (f t) = tk_MissionID t) →
  (∀ t, p t = true → tk_Key (f t) = tk_Key t ∧ tk_Deps (f t) = tk_Deps t ∧ (tk_Status (f t) = StatusPending → tk_Status t = StatusPending) ∧ (alive t → alive (f t))) →
  sound_plan (ListTasks m st) → sound_plan (ListTasks m st').
Proof. intros E Hm Hp Hs. rewrite (ListTasks_update m p f st st' E Hm). by apply plan_update. Qed.

Ltac calm_step := intros ? ?; rows; split_and!; [done|done|by cbn|unfold alive; cbn; intuition congruence].

(** ** Adding tasks *)

Definition live_key (ts : list Task) (k : string) : Prop := ∃ u, u ∈ ts ∧ tk_Key u = k ∧ alive u.
(** Each spec depends on live tasks and on specs before it. *)
Fixpoint ordered (live : string → Prop) (specs : list TaskSpec) : Prop :=
  match specs with
  | [] => True
  | sp :: rest => (∀ d, d ∈ ts_DependsOn sp → live d) ∧ ordered (λ k, k = ts_Key sp ∨ live k) rest
  end.
Lemma ordered_ext (P Q : string → Prop) specs : (∀ k, P k → Q k) → ordered P specs → ordered Q specs.
Proof. revert P Q. induction specs as [|sp rest IH]; cbn; [done|]. intros P Q H [H1 H2]. split; [auto|]. eapply IH; [|exact H2]. naive_solver. Qed.

Lemma plan_insert ts t : (∀ u, u ∈ ts → tk_Key u ≠ tk_Key t) → (∀ d, d ∈ tk_Deps t → live_key ts d) → sound_plan ts → sound_plan (ts ++ [t]).
Proof.
  intros Hfresh Hd [Hn Hu Ha]. assert (∀ a b, edge (ts ++ [t]) a b → edge ts a b ∨ a = tk_Key t ∧ b ∈ tk_Deps t) as He.
  { intros a b (x & [Hx| ->%list_elem_of_singleton]%elem_of_app & Hk & Hb); [left; by exists x|right; by rewrite Hk]. }
  assert (∀ k, k ≠ tk_Key t → Acc (λ b a, edge (ts ++ [t]) a b) k) as Hold.
  { intros k. induction (Ha k) as [k _ IH]. intros Hk. constructor. intros b [Hb|[? _]]%He; [|done]. apply IH; [done|].
    destruct Hb as (x & Hx & _ & Hb). destruct (Hn x b Hx Hb) as (u & Huin & <-). by apply Hfresh. }
  split.
  - intros x d [Hx| ->%list_elem_of_singleton]%elem_of_app Hxd.
    + destruct (Hn x d Hx Hxd) as (u & ? & ?). exists u. split; [apply elem_of_app; by left|done].
    + destruct (Hd d Hxd) as (u & ? & ? & _). exists u. split; [apply elem_of_app; by left|done].
  - intros x d [Hx| ->%list_elem_of_singleton]%elem_of_app Hp Hxd.
    + destruct (Hu x d Hx Hp Hxd) as (u & ? & ? & ?). exists u. split_and!; [apply elem_of_app; by left|done..].
    + destruct (Hd d Hxd) as (u & ? & ? & ?). exists u. split_and!; [apply elem_of_app; by left|done..].
  - intros k. destruct (decide (k = tk_Key t)) as [->|Hk]; [|by apply Hold]. constructor. intros b [(x & Hx & Ek & _)|[_ Hb]]%He.
    + by destruct (Hfresh x Hx).
    + apply Hold. destruct (Hd b Hb) as (u & Huin & <- & _). by apply Hfresh.
Qed.

Lemma filter_mission_app m l t : List.filter (in_mission m) (l ++ [t]) = List.filter (in_mission m) l ++ if in_mission m t then [t] else [].
Proof. rewrite List.filter_app. cbn. by destruct (in_mission m t). Qed.

Lemma plan_insert_all m m' specs now : ∀ i ts ts', insert_all m' specs now i ts = Some ts' →
  (m' = m → ordered (live_key (List.filter (in_mission m) ts)) specs) →
  sound_plan (List.filter (in_mission m) ts) → sound_plan (List.filter (in_mission m) ts').
Proof.
  induction specs as [|sp rest IH]; intros i ts ts'; cbn [insert_all]; [by intros [= <-]|]. destruct (insert_task _ _ _ _ _) as [ts1|] eqn:E; [|done].
  intros Hr Ho Hs. unfold insert_task in E. destruct (taken m' (ts_Key sp) ts) eqn:Et; [done|]. injection E as <-. set (t := mkTask _ _ _ _ _ _ _ _ _ _ _ _) in *.
  eapply IH; [exact Hr| |].
  - intros E. specialize (Ho E). destruct Ho as [_ Ho]. eapply ordered_ext; [|exact Ho]. intros k [->|(u & Hu & ? & ?)]; unfold live_key; setoid_rewrite filter_mission_app; setoid_rewrite elem_of_app.
    + exists t. split_and!; [|done|by split]. right. assert (in_mission m t = true) as -> by (by apply in_mission_eq). left.
    + exists u. split_and!; [by left|done..].
  - rewrite filter_mission_app. destruct (in_mission m t) eqn:Em; [|by rewrite app_nil_r]. apply in_mission_eq in Em. change (m' = m) in Em. subst m'.
    apply plan_insert; [|by apply Ho|done]. intros u [Hu Hum]%elem_of_filter_where Ek. rows. apply not_true_iff_false in Et. apply Et, taken_spec, list_elem_of_fmap.
    exists u. split; [|done]. unfold place_of. by rewrite Hum, Ek.
Qed.

(** ** Replacing a task *)

Lemma plan_supersede ts old key (t : Task) : NoDup (map tk_ID ts) → old ∈ ts → (∀ u, u ∈ ts → tk_Key u ≠ key) → (∀ u, u ∈ ts → tk_MissionID u = tk_MissionID old) →
  (∀ u v, u ∈ ts → v ∈ ts → tk_Key u = tk_Key v → u = v) →
  tk_Key t = key → alive t → (∀ d, d ∈ tk_Deps t → live_key ts d ∧ ¬ rtc (edge ts) d (tk_Key old)) →
  sound_plan ts → sound_plan (map (superseded_row old key) ts ++ [t]).
Proof.
  intros Hids Hold Hfresh Hmis Hkeys Hk Halive Hd [Hn Hu Ha]. set (g := superseded_row old key).
  assert (∀ x, tk_Key (g x) = tk_Key x) as Hgk by (intros x; unfold g, superseded_row; by destruct (has_id _ x), (waits_for _ x)).
  assert (∀ x d, x ∈ ts → d ∈ tk_Deps (g x) → d ∈ tk_Deps x ∨ d = key ∧ tk_Key old ∈ tk_Deps x) as Hgd.
  { intros x d Hx. unfold g, superseded_row. destruct (waits_for old x) eqn:Ew; [|by destruct (has_id _ x); left].
    assert (∀ y, tk_Deps (repointed (tk_Key old) key x) = rewritten (tk_Key old) key (tk_Deps x)) as _ by done.
    destruct (has_id (tk_ID old) x); cbn; unfold rewritten; intros (d0 & -> & Hd0)%list_elem_of_fmap; destruct (String.eqb_spec d0 (tk_Key old)) as [->|]; auto. }
  assert (∀ x, x ∈ ts → x ≠ old → alive x → alive (g x)) as Hga.
  { intros x Hx Hne. unfold g, superseded_row. destruct (has_id (tk_ID old) x) eqn:E; [|by destruct (waits_for old x)].
    apply has_id_eq in E. destruct Hne. by apply (NoDup_map_inj tk_ID ts). }
  assert (∀ x d, x ∈ ts → tk_Status (g x) = StatusPending → d ∈ tk_Deps (g x) → tk_Status x = StatusPending ∧ (d = key ∨ d ∈ tk_Deps x ∧ d ≠ tk_Key old)) as Hgp.
  { intros x d Hx Hp. assert (tk_Status x = StatusPending) as Hp0 by (revert Hp; unfold g, superseded_row; by destruct (has_id _ x), (waits_for _ x)).
    unfold g, superseded_row. destruct (waits_for old x) eqn:Ew.
    - intros Hdd. split; [done|]. assert (d ∈ rewritten (tk_Key old) key (tk_Deps x)) as Hr by (by destruct (has_id (tk_ID old) x)).
      unfold rewritten in Hr. apply list_elem_of_fmap in Hr as (d0 & -> & ?). destruct (String.eqb_spec d0 (tk_Key old)) as [E|E]; [by left|by right].
    - intros Hdd. split; [done|right]. assert (d ∈ tk_Deps x) as Hr by (by destruct (has_id (tk_ID old) x)). split; [done|]. intros ->.
      apply not_true_iff_false in Ew. apply Ew. unfold waits_for. rewrite !andb_true_iff, in_mission_eq, has_status_eq, bool_decide_eq_true. split_and!; [by apply Hmis|done|done]. }
  assert (∀ x, x ∈ ts → g x ∈ map g ts ++ [t]) as Hgin by (intros x Hx; apply elem_of_app; left; by apply list_elem_of_fmap_2).
  assert (t ∈ map g ts ++ [t]) as Htin by (apply elem_of_app; right; left).
  assert (∀ a b, edge (map g ts ++ [t]) a b → (a ≠ key ∧ (edge ts a b ∨ b = key ∧ edge ts a (tk_Key old))) ∨ a = key ∧ b ∈ tk_Deps t) as He.
  { intros a b (x & [(y & -> & Hy)%list_elem_of_fmap| ->%list_elem_of_singleton]%elem_of_app & <- & Hb); [|by right].
    left. rewrite Hgk. split; [by apply Hfresh|]. destruct (Hgd y b Hy Hb) as [|[-> ?]]; [left|right; split; [done|]]; by exists y. }
  assert (∀ a b, edge ts a b → b ≠ key) as Hnk by (intros a b (x & Hx & _ & Hb); destruct (Hn x b Hx Hb) as (u & ? & <-); by apply Hfresh).
  assert (∀ k, k ≠ key → ¬ rtc (edge ts) k (tk_Key old) → Acc (λ b a, edge (map g ts ++ [t]) a b) k) as H1.
  { intros k. induction (Ha k) as [k _ IH]. intros Hne Hr. constructor. intros b [[_ [Hb|[_ Ho]]]|[? _]]%He; [| |done].
    - apply IH; [done|by eapply Hnk|]. intros ?. apply Hr. by eapply rtc_l.
    - destruct Hr. by apply rtc_once. }
  assert (Acc (λ b a, edge (map g ts ++ [t]) a b) key) as H2.
  { constructor. intros b [[? _]|[_ Hb]]%He; [done|]. destruct (Hd b Hb) as [(u & Huin & <- & _) ?]. apply H1; [by apply Hfresh|done]. }
  split.
  - intros x d [(y & -> & Hy)%list_elem_of_fmap| ->%list_elem_of_singleton]%elem_of_app Hxd.
    + destruct (Hgd y d Hy Hxd) as [Hyd|[-> _]]; [|by exists t]. destruct (Hn y d Hy Hyd) as (u & ? & <-). exists (g u). split; [by apply Hgin|apply Hgk].
    + destruct (Hd d Hxd) as [(u & ? & <- & _) _]. exists (g u). split; [by apply Hgin|apply Hgk].
  - intros x d [(y & -> & Hy)%list_elem_of_fmap| ->%list_elem_of_singleton]%elem_of_app Hp Hxd.
    + destruct (Hgp y d Hy Hp Hxd) as [Hp0 [->|[Hyd Hdo]]]; [by exists t|]. destruct (Hu y d Hy Hp0 Hyd) as (u & ? & <- & ?).
      exists (g u). split_and!; [by apply Hgin|apply Hgk|]. apply Hga; [done|congruence|done].
    + destruct (Hd d Hxd) as [(u & ? & <- & ?) Hr]. exists (g u). split_and!; [by apply Hgin|apply Hgk|]. apply Hga; [done| |done]. intros ->. by apply Hr.
  - intros k. induction (Ha k) as [k _ IH]. destruct (decide (k = key)) as [->|Hk0]; [done|]. constructor. intros b [[_ [Hb|[-> _]]]|[? _]]%He; [by apply IH|done|done].
Qed.

(** ** Retargeting and cancelling *)

Lemma plan_retarget ts fromKey toKey : NoDup (map tk_ID ts) → live_key ts toKey → ¬ rtc (edge ts) toKey fromKey → sound_plan ts →
  sound_plan (update_where (retarget_hits fromKey ts) (repointed fromKey toKey) ts).
Proof.
  intros Hids (u0 & Hu0 & Hk0 & Ha0) Hr [Hn Hu Ha]. set (g := λ t, if retarget_hits fromKey ts t then repointed fromKey toKey t else t).
  change (sound_plan (map g ts)).
  assert (∀ x, tk_Key (g x) = tk_Key x ∧ tk_Status (g x) = tk_Status x) as Hg by (intros x; unfold g; by destruct (retarget_hits _ _ x)).
  assert (∀ x d, d ∈ tk_Deps (g x) → d ∈ tk_Deps x ∨ d = toKey ∧ fromKey ∈ tk_Deps x) as Hgd.
  { intros x d. unfold g. destruct (retarget_hits fromKey ts x) eqn:E; [|by left]. cbn. unfold rewritten. intros (d0 & -> & ?)%list_elem_of_fmap.
    destruct (String.eqb_spec d0 fromKey) as [->|]; auto. }
  assert (∀ a b, edge (map g ts) a b → edge ts a b ∨ b = toKey ∧ edge ts a fromKey) as He.
  { intros a b (x & (y & -> & Hy)%list_elem_of_fmap & <- & Hb). rewrite (proj1 (Hg y)). destruct (Hgd y b Hb) as [|[-> ?]]; [left|right; split; [done|]]; by exists y. }
  assert (∀ k, rtc (edge ts) toKey k → Acc (λ b a, edge (map g ts) a b) k) as H1.
  { intros k. induction (Ha k) as [k _ IH]. intros Hk. constructor. intros b [Hb|[_ Ho]]%He.
    - apply IH; [done|]. by eapply rtc_r.
    - destruct Hr. by eapply rtc_r. }
  split.
  - intros x d (y & -> & Hy)%list_elem_of_fmap Hd. destruct (Hgd y d Hd) as [Hyd|[-> _]].
    + destruct (Hn y d Hy Hyd) as (u & ? & <-). exists (g u). split; [by apply list_elem_of_fmap_2|apply Hg].
    + exists (g u0). split; [by apply list_elem_of_fmap_2|]. by rewrite (proj1 (Hg u0)).
  - intros x d (y & -> & Hy)%list_elem_of_fmap Hp Hd. rewrite (proj2 (Hg y)) in Hp. destruct (Hgd y d Hd) as [Hyd|[-> _]].
    + destruct (Hu y d Hy Hp Hyd) as (u & ? & <- & [? ?]). exists (g u). split_and!; [by apply list_elem_of_fmap_2|apply Hg|]. unfold alive. by rewrite (proj2 (Hg u)).
    + exists (g u0). split_and!; [by apply list_elem_of_fmap_2|by rewrite (proj1 (Hg u0))|]. destruct Ha0. unfold alive. by rewrite (proj2 (Hg u0)).
  - intros k. induction (Ha k) as [k _ IH]. constructor. intros b [Hb|[-> _]]%He; [by apply IH|by apply H1].
Qed.

Lemma plan_cancel ts hit : (∀ t d u, t ∈ ts → tk_Status t = StatusPending → d ∈ tk_Deps t → u ∈ ts → tk_Key u = d → hit u = true → hit t = true) →
  sound_plan ts → sound_plan (update_where hit (set_dropped StatusCancelled) ts).
Proof.
  intros Hh [Hn Hu Ha]. set (g := λ t, if hit t then set_dropped StatusCancelled t else t). change (sound_plan (map g ts)).
  assert (∀ x, tk_Key (g x) = tk_Key x ∧ tk_Deps (g x) = tk_Deps x) as Hg by (intros x; unfold g; by destruct (hit x)).
  split.
  - intros x d (y & -> & Hy)%list_elem_of_fmap Hd. rewrite (proj2 (Hg y)) in Hd. destruct (Hn y d Hy Hd) as (u & ? & <-).
    exists (g u). split; [by apply list_elem_of_fmap_2|apply Hg].
  - intros x d (y & -> & Hy)%list_elem_of_fmap Hp Hd. rewrite (proj2 (Hg y)) in Hd.
    assert (hit y = false ∧ tk_Status y = StatusPending) as [Hy0 Hp0] by (revert Hp; unfold g; by destruct (hit y)).
    destruct (Hu y d Hy Hp0 Hd) as (u & Huin & Hku & ?). exists (g u). split_and!; [by apply list_elem_of_fmap_2|by rewrite (proj1 (Hg u))|].
    unfold g. destruct (hit u) eqn:E; [|done]. by rewrite (Hh y d u) in Hy0.
  - intros k. eapply Acc_impl; [|exact (Ha k)]. intros a b. cbn. by apply edge_map.
Qed.

(** ** Every operation *)

(** What an operation must respect to keep the plan of mission [m] sound. *)
Definition keeps_plan (m : Z) (op : Op) (st : Store) : Prop :=
  match op with
  | OpEnqueue m' specs _ => m' = m → ordered (live_key (ListTasks m st)) specs
  | OpCancel id => ∀ t, TaskByID id st = Some t → tk_MissionID t ≠ m
  | OpSupersede id spec _ => ∀ old, TaskByID id st = Some old → tk_MissionID old = m →
      ∀ d, d ∈ ts_DependsOn spec → live_key (ListTasks m st) d ∧ ¬ rtc (edge (ListTasks m st)) d (tk_Key old)
  | OpRetarget m' _ toKey => m' = m → ∀ t, t ∈ ListTasks m st → tk_Key t = toKey → alive t
  | _ => True
  end.

Lemma ids_nodup m st : wf st → NoDup (map tk_ID (ListTasks m st)).
Proof. intros Hw. eapply sublist_NoDup; [by apply NoDup_ids; exact Hw|]. apply fmap_sublist, filter_sublist. Qed.
Lemma ListTasks_untouched m p f st st' : st_tasks st' = update_where p f (st_tasks st) → (∀ t, tk_MissionID (f t) = tk_MissionID t) →
  (∀ t, t ∈ ListTasks m st → p t = false) → ListTasks m st' = ListTasks m st.
Proof. intros E Hm Hp. rewrite (ListTasks_update m p f st st' E Hm). by apply update_where_none. Qed.

Lemma plan_op_cancel m id cascade st : wf st → sound_plan (ListTasks m st) → sound_plan (ListTasks m (run_op (OpCancelGuarded id cascade) st)).
Proof.
  intros Hw Hs. cbn [run_op]. destruct (CancelTaskGuarded id cascade st) as [r|] eqn:E; [|done]. unfold CancelTaskGuarded in E.
  destruct (TaskByID id st) as [root|] eqn:Hr; [|by injection E as <-]. apply TaskByID_Some in Hr as [Hin _]; [|done].
  destruct (subtree_waits st root Hw Hin) as (more & Hwalk & Hnn & Hm1 & Hm2). rewrite Hwalk in E.
  destruct (negb cascade && _); [by injection E as <-|].
  pose proof (cancel_loop (node_of root :: more) Hnn ([], st)) as Hc. destruct (foldl cancel_one _ _) as [ids st']. destruct Hc as [-> _]. injection E as <-. cbn [settle snd].
  set (hit := λ t, existsb (λ n : node, has_id n.1 t) (node_of root :: more) && open_status (tk_Status t)).
  assert (∀ x, x ∈ st_tasks st → hit x = true ↔ waits (ListTasks (tk_MissionID root) st) root x ∧ open_status (tk_Status x) = true) as Hhit.
  { intros x Hx. unfold hit. rewrite andb_true_iff. apply and_iff_compat_r. rewrite subtree_hits by done.
    destruct (decide (tk_ID x = tk_ID root)) as [Ei|Ei].
    - rewrite (same_id _ x root Hw Hx Hin Ei). split; [constructor|by left].
    - assert (x ≠ root) as Hne by congruence. naive_solver. }
  rewrite (ListTasks_update m hit (set_dropped StatusCancelled) st) by done. apply plan_cancel; [|done].
  intros t d u Ht Hp Hd Hu Hk Hhu. apply elem_of_ListTasks in Ht as [Ht Hmt], Hu as [Hu Hmu]. apply Hhit; [done|]. rewrite Hp. split; [|done].
  apply Hhit in Hhu as [Hwu _]; [|done]. assert (tk_MissionID root = m) as Hmr.
  { inversion Hwu as [|? ? ? Hxa]; subst; [done|]. apply elem_of_ListTasks in Hxa as [_ Hxa]. congruence. }
  eapply waits_dep; [exact Hwu|by apply elem_of_ListTasks; rewrite Hmr|by rewrite Hp|by rewrite Hk].
Qed.

Lemma plan_op_supersede m id spec now st : wf st → keeps_plan m (OpSupersede id spec now) st → sound_plan (ListTasks m st) →
  sound_plan (ListTasks m (run_op (OpSupersede id spec now) st)).
Proof.
  intros Hw Hk Hs. cbn [run_op]. destruct (TaskByID id st) as [old|] eqn:Ho; [|by unfold SupersedeTask; rewrite Ho].
  destruct (uniqueKeyTx (tk_MissionID old) (base_key old spec) (st_tasks st)) as [key|] eqn:Eu.
  2:{ unfold SupersedeTask. rewrite Ho. cbv zeta. fold (base_key old spec). by rewrite Eu. }
  destruct (supersede_rows id spec now st old key Hw Ho Eu) as (Hfresh & newID & Hnew & ->). cbn [settle snd]. pose proof Ho as [Hin _]%TaskByID_Some; [|done].
  set (t := replacement old spec key newID now). unfold ListTasks. cbn [st_tasks with_tasks]. rewrite List.filter_app.
  assert (∀ l, List.filter (in_mission m) (map (superseded_row old key) l) = map (superseded_row old key) (List.filter (in_mission m) l)) as ->.
  { intros l. induction l as [|x l IH]; [done|]. cbn [map List.filter]. assert (in_mission m (superseded_row old key x) = in_mission m x) as ->
      by (unfold superseded_row; by destruct (has_id _ x), (waits_for _ x)). destruct (in_mission m x); cbn [map]; by rewrite IH. }
  fold (ListTasks m st). cbn [List.filter]. assert (in_mission m t = in_mission m old) as -> by done. destruct (in_mission m old) eqn:Em.
  - apply in_mission_eq in Em. subst m. apply plan_supersede; try done.
    + by apply ids_nodup.
    + by apply elem_of_ListTasks.
    + by intros u [_ ?]%elem_of_ListTasks.
    + intros u v [Hu Hmu]%elem_of_ListTasks [Hv Hmv]%elem_of_ListTasks E. apply (same_place (st_tasks st)); [done..|congruence|done].
    + intros d Hd. by apply (Hk old).
  - rewrite app_nil_r. rewrite (map_ext_in _ (λ x, x)), map_id; [done|]. intros x [Hx Hmx]%list_elem_of_In%elem_of_ListTasks.
    unfold superseded_row, waits_for. assert (tk_MissionID old ≠ m) as Hne by (by apply Z.eqb_neq in Em).
    assert (has_id (tk_ID old) x = false) as ->. { apply not_true_iff_false. intros E%has_id_eq. apply Hne. rewrite <- Hmx. f_equal. by apply (same_id (st_tasks st)). }
    assert (in_mission (tk_MissionID old) x = false) as ->; [|done]. apply not_true_iff_false. intros E%in_mission_eq. congruence.
Qed.

Lemma retarget_run m fromKey toKey st : wf st → ∃ r, RetargetDependents m fromKey toKey st = Some r ∧
  match r with
  | Err e => (e = TargetMissing toKey ∧ ¬ ∃ t, t ∈ ListTasks m st ∧ tk_Key t = toKey) ∨ (e = WouldCycle ∧ rtc (edge (ListTasks m st)) toKey fromKey)
  | Ok (_, st') => (∃ t, t ∈ ListTasks m st ∧ tk_Key t = toKey) ∧ ¬ rtc (edge (ListTasks m st)) toKey fromKey ∧
      st' = with_tasks st (update_where (retarget_hits fromKey (ListTasks m st)) (repointed fromKey toKey) (st_tasks st))
  end.
Proof.
  intros Hw. unfold RetargetDependents. destruct (retarget_guard_exact m fromKey toKey st Hw) as [[-> ?]|[Ht [[-> ?]|[-> Hc]]]]; [eexists; split; [done|]; by left|eexists; split; [done|]; by right|].
  pose proof (retarget_loop fromKey toKey (ListTasks m st) (ids_nodup m st Hw) (0, st_tasks st)) as E. destruct (foldl _ _ _) as [n ts]. cbn [snd] in E. subst ts.
  eexists. split; [reflexivity|]. done.
Qed.
(** A plan's own rows are hit when they are open and wait on the key. *)
Lemma retarget_hits_own m fromKey st t : wf st → t ∈ st_tasks st →
  retarget_hits fromKey (ListTasks m st) t = true ↔ tk_MissionID t = m ∧ open_status (tk_Status t) = true ∧ fromKey ∈ tk_Deps t.
Proof.
  intros Hw Ht. unfold retarget_hits. rewrite existsb_exists. split.
  - intros (x & [Hx Hm]%list_elem_of_In%elem_of_ListTasks & Hp). rewrite !andb_true_iff, bool_decide_eq_true in Hp. destruct Hp as [[Ho Hf] [Hi%has_id_eq Hd]].
    by rewrite (same_id _ t x Hw Ht Hx Hi).
  - intros (Hm & Ho & Hf). exists t. split; [by apply list_elem_of_In, elem_of_ListTasks|]. rewrite Ho, (bool_decide_eq_true_2 _ Hf). cbn.
    apply andb_true_iff. split; [by apply has_id_eq|]. by apply bool_decide_eq_true.
Qed.

Lemma plan_op_retarget m m' fromKey toKey st : wf st → keeps_plan m (OpRetarget m' fromKey toKey) st → sound_plan (ListTasks m st) →
  sound_plan (ListTasks m (run_op (OpRetarget m' fromKey toKey) st)).
Proof.
  intros Hw Hk Hs. cbn [run_op]. destruct (retarget_run m' fromKey toKey st Hw) as (r & -> & Hr). destruct r as [[n st']|e]; [|done]. cbn [settle snd].
  destruct Hr as ([u [Hu Eu]] & Hc & ->). destruct (decide (m' = m)) as [->|Hne].
  - rewrite (ListTasks_update m (retarget_hits fromKey (ListTasks m st)) (repointed fromKey toKey) st) by done.
    apply plan_retarget; [by apply ids_nodup| |done|done]. exists u. split_and!; [done..|]. by apply (Hk eq_refl).
  - erewrite (ListTasks_untouched m _ _ st); [exact Hs|reflexivity|done|]. intros t [Ht Hm]%elem_of_ListTasks. apply not_true_iff_false.
    rewrite retarget_hits_own by done. intros [? _]. congruence.
Qed.

Lemma plan_delete m m' st : sound_plan (ListTasks m st) → sound_plan (List.filter (in_mission m) (List.filter (λ t, negb (in_mission m' t)) (st_tasks st))).
Proof.
  intros Hs. destruct (decide (m' = m)) as [->|Hne].
  - assert (List.filter (in_mission m) (List.filter (λ t, negb (in_mission m t)) (st_tasks st)) = []) as ->.
    { rewrite filter_filter. induction (st_tasks st) as [|t l IH]; [done|]. cbn [List.filter]. by destruct (in_mission m t). }
    split; [by intros ? ? ?%elem_of_nil|by intros ? ? ?%elem_of_nil|]. intros k. constructor. by intros b (t & ?%elem_of_nil & _).
  - assert (List.filter (in_mission m) (List.filter (λ t, negb (in_mission m' t)) (st_tasks st)) = ListTasks m st) as ->; [|done].
    unfold ListTasks. rewrite filter_filter. apply filter_ext. intros t. unfold in_mission. destruct (Z.eqb_spec (tk_MissionID t) m), (Z.eqb_spec (tk_MissionID t) m'); subst; done.
Qed.

(** Soundness is preserved by every operation that respects [keeps_plan]. *)
Lemma plan_op m op st : wf st → keeps_plan m op st → sound_plan (ListTasks m st) → sound_plan (ListTasks m (run_op op st)).
Proof.
  intros Hw Hk Hs. destruct op; try exact Hs; try (by apply plan_op_cancel); try (by apply plan_op_supersede); try (by apply plan_op_retarget); try (by apply plan_delete); cbn [run_op].
  - unfold Enqueue. destruct (insert_all _ _ _ _ _) as [ts|] eqn:E; [|done]. eapply plan_insert_all; [exact E|exact Hk|exact Hs].
  - rewrite PromoteReady_exact by done. eapply plan_step; [reflexivity|done| |exact Hs]. unfold promotable. calm_step.
  - unfold ClaimNextAs. destruct (first_by _ _); [|destruct (first_by _ _); [|done]]; (eapply plan_step; [reflexivity|done| |exact Hs]); calm_step.
  - eapply plan_step; [reflexivity|done| |exact Hs]. unfold held_by. calm_step.
  - eapply plan_step; [by apply ReclaimIdle_tasks|done| |exact Hs]. unfold idle_claim. calm_step.
  - eapply plan_step; [by apply Reap_tasks|done| |exact Hs]. calm_step.
  - erewrite (ListTasks_untouched m _ _ st); [exact Hs|reflexivity|done|]. intros t [Ht Hm]%elem_of_ListTasks. apply not_true_iff_false.
    intros [Hi _]%andb_prop. apply has_id_eq in Hi. apply (Hk t); [|done]. by apply TaskByID_Some.
  - eapply plan_step; [reflexivity|done| |exact Hs]. unfold reopenable. calm_step.
  - unfold AddFinding. by repeat (case_match; [exact Hs|]).
  - unfold SetFindingStatus. by case_match.
Qed.

(** Every operation of a history keeps the plan of [m]. *)
Fixpoint kept (m : Z) (ops : list Op) (st : Store) : Prop :=
  match ops with
  | [] => True
  | op :: rest => keeps_plan m op st ∧ kept m rest (run_op op st)
  end.

(** C13. A mission whose tables are well formed and whose plan is sound cannot hang. After any history that keeps its plan, while the mission is
    not done some task of it is ready or claimed, or the next promotion makes one ready. *)
Theorem missions_progress m ops st : wf st → sound_plan (ListTasks m st) → kept m ops st →
  let st' := run_ops ops st in
  (∃ t, t ∈ ListTasks m st') → MissionDone m st' = false →
  (∃ t, t ∈ ListTasks m st' ∧ (tk_Status t = StatusReady ∨ tk_Status t = StatusClaimed)) ∨ 0 < (PromoteReady m st').1.
Proof.
  intros Hw Hs Hk st' Hsome Hd. assert (wf st' ∧ sound_plan (ListTasks m st')) as [? ?]; [|by apply plan_progresses].
  subst st'. clear Hsome Hd. revert st Hw Hs Hk. induction ops as [|op ops IH]; intros st Hw Hs Hk; [done|]. destruct Hk as [Hk1 Hk2].
  apply IH; [by apply wf_op|by apply plan_op|done].
Qed.

(** C22. On well-formed tables, retargeting always answers. It refuses exactly a missing target and a target that already waits
    on the old key, directly or through others; else the open tasks of the
    mission that waited on the old key wait on the new one, and nothing else changes. *)
Theorem RetargetDependents_exact m fromKey toKey st : wf st → let ts := ListTasks m st in
  ∃ r, RetargetDependents m fromKey toKey st = Some r ∧
  match r with
  | Err e => (e = TargetMissing toKey ∧ ¬ ∃ t, t ∈ ts ∧ tk_Key t = toKey) ∨ (e = WouldCycle ∧ rtc (edge ts) toKey fromKey)
  | Ok (_, st') => (∃ t, t ∈ ts ∧ tk_Key t = toKey) ∧ ¬ rtc (edge ts) toKey fromKey ∧
      st' = with_tasks st (update_where (λ t, in_mission m t && open_status (tk_Status t) && bool_decide (fromKey ∈ tk_Deps t)) (repointed fromKey toKey) (st_tasks st))
  end.
Proof.
  intros Hw ts. destruct (retarget_run m fromKey toKey st Hw) as (r & Hr & H). exists r. split; [done|]. destruct r as [[n st']|e]; [|done].
  destruct H as (? & ? & ->). split_and!; [done..|]. f_equal. apply update_where_ext. intros t Ht.
  assert (retarget_hits fromKey (ListTasks m st) t = in_mission m t && open_status (tk_Status t) && bool_decide (fromKey ∈ tk_Deps t)) as ->; [|done].
  apply eq_true_iff_eq. rewrite retarget_hits_own, !andb_true_iff, in_mission_eq, bool_decide_eq_true by done. tauto.
Qed.
