(* ===== verification/QueueSamples.v ===== *)
(** * The queue, run

    A mission of four tasks taken through the operations; the theorems of the queue at this
    history, and the cases in which the code has no guard: a replacement that depends on what waits on the task it
    replaces, two retargetings that read the same rows, a dead target, a verify command
    with a wildcard. *)
From S2P Require Import Prelude GoLib Float64 Queue QueueFacts QueuePlan QueueSound.
Local Open Scope string_scope.
Local Open Scope list_scope.
Local Open Scope Z_scope.

Definition spec (key : string) (deps : list string) : TaskSpec := mkSpec key "builder" key "" "" deps "" "".
Definition clock (i : nat) : double := of_int (Z.of_nat i).
Definition at_ (n : Z) : double := of_int n.

(** ** A mission *)

Definition plan : list TaskSpec := [spec "design" []; spec "build" ["design"]; spec "test" ["build"]; spec "docs" ["design"]].
Definition enqueued : Store := run_ops [OpEnqueue 1 plan clock] empty_store.
Definition started : Store := run_ops [OpPromote 1; OpClaim "ann" "i1" [] (at_ 60) (at_ 10) (at_ 10); OpComplete 1 "ann" "ok" (at_ 20)] enqueued.

Example design_done : map tk_Status (st_tasks started) = [StatusDone; StatusPending; StatusPending; StatusPending].
Proof. vm_compute. reflexivity. Qed.

Lemma wf_enqueued : wf enqueued.
Proof. apply wf_ops. split; constructor. Qed.
Lemma wf_started : wf started.
Proof. apply wf_ops, wf_enqueued. Qed.
Lemma sound_nil : sound_plan [].
Proof. split; [by intros ? ? ?%elem_of_nil..|]. intros k. constructor. by intros b (t & ?%elem_of_nil & _). Qed.
Ltac live := unfold live_key; eexists; split; [vm_compute; repeat (first [left | right])|split; [reflexivity|by split]].

Lemma sound_enqueued : sound_plan (ListTasks 1 enqueued).
Proof.
  apply (plan_op 1 (OpEnqueue 1 plan clock) empty_store); [split; constructor| |exact sound_nil].
  intros _. cbn. split_and!; [by intros ? ?%elem_of_nil| | | |done]; intros d ->%list_elem_of_singleton; auto.
Qed.

(** ** The theorems at this mission *)

Definition ready : Store := run_ops [OpPromote 1] enqueued.
Definition ann (st : Store) : option (Task * bool) * Store := ClaimNextAs "ann" "i1" [] (at_ 60) (at_ 10) (at_ 10) st.
Definition dealt_row (bee : string) (ts : Z) : Task :=
  mkTask 1 1 (spec "design" []) StatusClaimed (Some bee) (Some (at_ (ts + 60))) None (clock 0) (Some (at_ ts)) None 0 "".

Lemma dealt_once_witness : tk_ID (dealt_row "ann" 10) = tk_ID (dealt_row "bob" 110) ∧
  ∃ before op after t, [OpReap None (at_ 100)] = before ++ op :: after ∧ held (run_ops before (ann ready).2) t "ann" ∧ tk_ID t = 1 ∧ took op (run_ops before (ann ready).2) t "ann" ∧
    ∀ x, x ∈ st_tasks (run_ops (before ++ [op]) (ann ready).2) → tk_ID x = 1 → tk_Status x ≠ StatusClaimed.
Proof.
  split; [reflexivity|].
  apply (dealt_once "ann" "i1" [] (at_ 60) (at_ 10) (at_ 10) ready (dealt_row "ann" 10) false (ann ready).2 [OpReap None (at_ 100)]
    "bob" "i2" [] (at_ 60) (at_ 110) (at_ 110) (dealt_row "bob" 110) false (ClaimNextAs "bob" "i2" [] (at_ 60) (at_ 110) (at_ 110) (run_ops [OpReap None (at_ 100)] (ann ready).2)).2);
    [apply wf_ops, wf_enqueued|vm_compute; reflexivity|vm_compute; reflexivity|reflexivity|done].
Defined.

Lemma missions_progress_witness : let ops := [OpPromote 1; OpClaim "ann" "i1" [] (at_ 60) (at_ 10) (at_ 10); OpComplete 1 "ann" "ok" (at_ 20);
    OpSupersede 2 (spec "build2" ["design"]) (at_ 30); OpRetarget 1 "docs" "build2"] in
  MissionDone 1 (run_ops ops enqueued) = false ∧
  ((∃ t, t ∈ ListTasks 1 (run_ops ops enqueued) ∧ (tk_Status t = StatusReady ∨ tk_Status t = StatusClaimed)) ∨ 0 < (PromoteReady 1 (run_ops ops enqueued)).1).
Proof.
  intros ops. assert (MissionDone 1 (run_ops ops enqueued) = false) as Hd by (vm_compute; reflexivity). split; [exact Hd|].
  apply (missions_progress 1 ops enqueued wf_enqueued sound_enqueued); [|eexists; vm_compute; left|exact Hd].
  refine (conj I (conj I (conj I (conj _ (conj _ I))))).
  - intros old Ho _ d ->%list_elem_of_singleton. split.
    + eexists. split; [vm_compute; left|]. by split.
    + intros H. vm_compute in Ho. injection Ho as <-. apply rtc_inv in H as [H|(b & (t & Ht & Hk & Hb) & _)]; [done|]. vm_compute in Ht.
      repeat (apply elem_of_cons in Ht as [->|Ht]; [by first [by apply elem_of_nil in Hb|discriminate Hk]|]). by apply elem_of_nil in Ht.
  - intros _ t Ht Hk. vm_compute in Ht. repeat (apply elem_of_cons in Ht as [->|Ht]; [first [discriminate Hk|by split]|]). by apply elem_of_nil in Ht.
Defined.

(** What waits on [build]: [test], not [docs]. *)
Lemma CancelTaskGuarded_exact_witness : ∃ root, TaskByID 2 started = Some root ∧
  let dependent x := waits (ListTasks (tk_MissionID root) started) root x ∧ x ≠ root in
  ∃ cancelled blocked st', CancelTaskGuarded 2 false started = Some (Ok (cancelled, blocked, st')) ∧ blocked = ["test"] ∧
  ((false = false ∧ (∃ x, dependent x) ∧ cancelled = [] ∧ st' = started ∧ ∀ k, k ∈ blocked ↔ ∃ x, dependent x ∧ tk_Key x = k) ∨
   ((false = true ∨ ∀ x, ¬ dependent x) ∧ blocked = [] ∧
    ∃ hit, (∀ x, x ∈ st_tasks started → hit x = true ↔ (x = root ∨ dependent x) ∧ open_status (tk_Status x) = true) ∧
           st' = with_tasks started (update_where hit (set_dropped StatusCancelled) (st_tasks started)) ∧
           ∀ i, i ∈ cancelled ↔ ∃ x, x ∈ st_tasks started ∧ hit x = true ∧ tk_ID x = i)).
Proof.
  assert (∃ root, TaskByID 2 started = Some root) as [root Hr] by (eexists; vm_compute; reflexivity). exists root. split; [exact Hr|].
  destruct (CancelTaskGuarded_exact 2 false started root wf_started Hr) as (c & b & st' & E & H). exists c, b, st'. split; [exact E|]. split; [|exact H].
  vm_compute in E. by injection E as _ <- _.
Defined.

Lemma RetargetDependents_exact_witness : ∃ r, RetargetDependents 1 "design" "docs" started = Some r ∧ r = Err WouldCycle ∧
  match r with
  | Err e => (e = TargetMissing "docs" ∧ ¬ ∃ t, t ∈ ListTasks 1 started ∧ tk_Key t = "docs") ∨ (e = WouldCycle ∧ rtc (edge (ListTasks 1 started)) "docs" "design")
  | Ok (_, st') => (∃ t, t ∈ ListTasks 1 started ∧ tk_Key t = "docs") ∧ ¬ rtc (edge (ListTasks 1 started)) "docs" "design" ∧
      st' = with_tasks started (update_where (λ t, in_mission 1 t && open_status (tk_Status t) && bool_decide ("design" ∈ tk_Deps t)) (repointed "design" "docs") (st_tasks started))
  end.
Proof.
  destruct (RetargetDependents_exact 1 "design" "docs" started wf_started) as (r & E & H). exists r. split; [exact E|]. split; [|exact H].
  vm_compute in E. by injection E as <-.
Defined.

Lemma SupersedeTask_rows_witness : ∃ old, TaskByID 2 started = Some old ∧
  ∃ key newID, uniqueKeyTx (tk_MissionID old) (base_key old (spec "" [])) (st_tasks started) = Some key ∧ key = "build-r2" ∧
    (∀ t, t ∈ ListTasks (tk_MissionID old) started → tk_Key t ≠ key) ∧ (∀ t, t ∈ st_tasks started → tk_ID t < newID) ∧
    SupersedeTask 2 (spec "" []) (at_ 30) started =
      Ok (newID, with_tasks started (map (superseded_row old key) (st_tasks started) ++ [replacement old (spec "" []) key newID (at_ 30)])).
Proof.
  assert (∃ old, TaskByID 2 started = Some old) as [old Ho] by (eexists; vm_compute; reflexivity). exists old. split; [exact Ho|].
  destruct (SupersedeTask_rows 2 (spec "" []) (at_ 30) started old wf_started Ho) as (key & newID & E & H).
  { vm_compute in Ho. injection Ho as <-. vm_compute. reflexivity. }
  exists key, newID. split; [exact E|]. split; [|exact H]. vm_compute in Ho. injection Ho as <-. vm_compute in E. by injection E as <-.
Defined.

(** Between the reading and the writing, [docs] got new dependencies: it keeps them. *)
Definition newer : Store := with_tasks started (update_where (has_id 4) (set_deps ["test"]) (st_tasks started)).
Lemma retarget_no_clobber_witness :
  let ts' := (foldl (retarget_one "design" "build") (0, st_tasks newer) (ListTasks 1 started)).2 in
  map tk_Deps ts' = [[]; ["build"]; ["build"]; ["test"]] ∧
  Forall2 (λ t t', t' = t ∧ retarget_hits "design" (ListTasks 1 started) t = false ∨
    t' = repointed "design" "build" t ∧ ∃ x, x ∈ ListTasks 1 started ∧ tk_ID x = tk_ID t ∧ tk_Deps x = tk_Deps t ∧ "design" ∈ tk_Deps t ∧ open_status (tk_Status x) = true)
    (st_tasks newer) ts'.
Proof.
  intros ts'. split; [vm_compute; reflexivity|]. apply (retarget_no_clobber 1 "design" "build" started newer wf_started).
  apply (wf_update (has_id 4) (set_deps ["test"])); [by intros t Ht; split_and!|exact wf_started].
Defined.

(** ** Without a guard *)

Definition stuck (m : Z) (st : Store) : bool :=
  negb (MissionDone m st) && (0 <? affected (in_mission m) (st_tasks st))%nat && ((PromoteReady m st).1 =? 0) &&
  negb (existsb (λ t, in_mission m t && (has_status StatusReady t || has_status StatusClaimed t)) (st_tasks st)).

(** Replacing [design] by a task that depends on [build], which waits on [design]: accepted, and the mission hangs. *)
Example supersede_can_cycle : stuck 1 enqueued = false ∧ stuck 1 (run_ops [OpSupersede 1 (spec "design" ["build"]) (at_ 30)] enqueued) = true.
Proof. vm_compute. by split. Qed.

(** Two retargetings, each without a cycle in the rows it read: one after the other the second is refused, but
    when both read before either writes the mission hangs. *)
Definition pair : Store := run_ops [OpEnqueue 1 [spec "u" []; spec "v" []; spec "p" ["u"]; spec "q" ["v"]] clock; OpPromote 1;
  OpClaim "ann" "i1" [] (at_ 60) (at_ 10) (at_ 10); OpComplete 1 "ann" "" (at_ 20); OpClaim "ann" "i1" [] (at_ 60) (at_ 10) (at_ 10); OpComplete 2 "ann" "" (at_ 20)] empty_store.
Definition guarded (fromKey toKey : string) (st : Store) : bool := match retarget_plan 1 fromKey toKey (ListTasks 1 st) with Some (Ok _) => true | _ => false end.
Definition written (fromKey toKey : string) (snap st : Store) : Store :=
  with_tasks st (foldl (retarget_one fromKey toKey) (0, st_tasks st) (ListTasks 1 snap)).2.
Example retargets_race : guarded "u" "q" pair = true ∧ guarded "v" "p" pair = true ∧
  guarded "v" "p" (run_ops [OpRetarget 1 "u" "q"] pair) = false ∧
  stuck 1 (written "v" "p" pair (written "u" "q" pair pair)) = true.
Proof. vm_compute. done. Qed.

(** Reap judges the claims it read. A bee that is absent then, and back before the write, hands its task in as idle;
    another bee claims it, and the write takes it from that one, present or not. *)
Definition reaped_late (present : gset string) (now : double) (snap st : Store) : Store :=
  with_tasks st (foldl (reap_one (Some present) now) (0, st_tasks st) (List.filter (has_status StatusClaimed) (st_tasks snap))).2.
Definition bob_working : Store := run_ops [OpReclaimIdle "ann" (at_ 30) (at_ 100); OpClaim "bob" "i2" [] (at_ 60) (at_ 110) (at_ 110)] (ann ready).2.
Example reap_race : HoldsClaimedTask "bob" bob_working = true ∧
  HoldsClaimedTask "bob" (Reap (Some {[ "bob" ]}) (at_ 111) bob_working).2 = true ∧
  HoldsClaimedTask "bob" (reaped_late {[ "bob" ]} (at_ 100) (ann ready).2 bob_working) = false.
Proof. vm_compute. done. Qed.

(** A cancelled task is a target like any other: what is pointed at it never runs. *)
Definition spare : Store := run_ops [OpEnqueue 1 [spec "old" []; spec "new" []; spec "x" ["old"]] clock; OpPromote 1; OpCancel 2] empty_store.
Definition finish_old : list Op := [OpClaim "ann" "i1" [] (at_ 60) (at_ 10) (at_ 10); OpComplete 1 "ann" "" (at_ 20)].
Example retarget_to_dead : stuck 1 (run_ops finish_old spare) = false ∧ stuck 1 (run_ops (OpRetarget 1 "old" "new" :: finish_old) spare) = true.
Proof. vm_compute. by split. Qed.

(** A verify command with an underscore is satisfied by another command. *)
Example like_is_loose :
  MissionPassedVerifySinceBy 1 "make check_all" 0 "" (RecordExecution (mkExecution 0 1 "ann" "builder" "MAKE check-all -n" 0 true 5) empty_store) = true.
Proof. vm_compute. reflexivity. Qed.
