(* ===== verification/Mission.v ===== *)
(** * Missions: internal/mission/store.go and engine.go

    The table of missions with its phases, the plan that becomes a mission's tasks, the operator's steering,
    and the engine that ticks the running missions over the task queue of Queue.v. Tables are as there;
    both tables number rows with AUTOINCREMENT, so an id is never used again. The status of a mission is the text
    the code stores. A tick reads the clock as often as the code does: the readings are a stream [clock], their number part of the
    state. A failing database, the log, the parts of the engine no caller sets (Repo, Verify, Egress, Index) and
    the herd's JSON columns are not modelled. *)
From S2P Require Import Prelude GoLib GoText Float64 Queue.
Local Open Scope string_scope.
Local Open Scope list_scope.
Local Open Scope Z_scope.

(** ** Tables *)

Record Mission := mkMission {
  mi_ID : Z; mi_Directive : string; mi_Status : string; mi_Sprint : Z; mi_RequiresReview : bool; mi_Created : double; mi_Updated : double;
  mi_Repo : string; mi_Base : string; mi_Branch : string; mi_PRURL : string; mi_ReviewRounds : Z; mi_ReviewWatermark : string;
  mi_ReviewParked : bool; mi_RecordStory : bool }.
Record Phase := mkPhase {
  ph_ID : Z; ph_MissionID : Z; ph_Name : string; ph_Role : string; ph_Program : string; ph_Instruction : string; ph_DependsOn : string;
  ph_Count : Z; ph_Position : Z }.
Record PhaseSpec := mkPhaseSpec {
  ps_Name : string; ps_Role : string; ps_Program : string; ps_Instruction : string; ps_DependsOn : list string; ps_Count : Z; ps_Verify : string }.
(** The tables and the last ids their sequences gave. *)
Record MStore := mkMStore { ms_missions : list Mission; ms_phases : list Phase; ms_lastMission : Z; ms_lastPhase : Z }.

Definition with_missions (ms : MStore) (l : list Mission) : MStore := mkMStore l (ms_phases ms) (ms_lastMission ms) (ms_lastPhase ms).
Definition has_mid (id : Z) (m : Mission) : bool := mi_ID m =? id.
Definition status_is (s : string) (m : Mission) : bool := String.eqb (mi_Status m) s.

Definition FindMission (id : Z) (ms : MStore) : option Mission := List.find (has_mid id) (ms_missions ms).
Definition RunningMissions (ms : MStore) : list Mission := List.filter (status_is "running") (ms_missions ms).
Definition MissionsPendingPR (ms : MStore) : list Mission :=
  List.filter (λ m, status_is "done" m && negb (String.eqb (mi_Repo m) "") && String.eqb (mi_PRURL m) "") (ms_missions ms).
Definition MissionsWithOpenPR (ms : MStore) : list Mission :=
  List.filter (λ m, status_is "done" m && negb (String.eqb (mi_Repo m) "") && negb (String.eqb (mi_PRURL m) "") && negb (mi_ReviewParked m)) (ms_missions ms).

(** ** Setters *)

Definition set_mission_status (s : string) (now : double) (m : Mission) : Mission :=
  mkMission (mi_ID m) (mi_Directive m) s (mi_Sprint m) (mi_RequiresReview m) (mi_Created m) now (mi_Repo m) (mi_Base m) (mi_Branch m) (mi_PRURL m)
    (mi_ReviewRounds m) (mi_ReviewWatermark m) (mi_ReviewParked m) (mi_RecordStory m).
Definition set_repo (repo base branch : string) (now : double) (m : Mission) : Mission :=
  mkMission (mi_ID m) (mi_Directive m) (mi_Status m) (mi_Sprint m) (mi_RequiresReview m) (mi_Created m) now repo base branch (mi_PRURL m)
    (mi_ReviewRounds m) (mi_ReviewWatermark m) (mi_ReviewParked m) (mi_RecordStory m).
Definition set_pr_url (url : string) (now : double) (m : Mission) : Mission :=
  mkMission (mi_ID m) (mi_Directive m) (mi_Status m) (mi_Sprint m) (mi_RequiresReview m) (mi_Created m) now (mi_Repo m) (mi_Base m) (mi_Branch m) url
    (mi_ReviewRounds m) (mi_ReviewWatermark m) (mi_ReviewParked m) (mi_RecordStory m).
Definition set_review (rounds : Z) (watermark : string) (parked : bool) (now : double) (m : Mission) : Mission :=
  mkMission (mi_ID m) (mi_Directive m) (mi_Status m) (mi_Sprint m) (mi_RequiresReview m) (mi_Created m) now (mi_Repo m) (mi_Base m) (mi_Branch m) (mi_PRURL m)
    rounds watermark parked (mi_RecordStory m).
Definition set_story (on : bool) (now : double) (m : Mission) : Mission :=
  mkMission (mi_ID m) (mi_Directive m) (mi_Status m) (mi_Sprint m) (mi_RequiresReview m) (mi_Created m) now (mi_Repo m) (mi_Base m) (mi_Branch m) (mi_PRURL m)
    (mi_ReviewRounds m) (mi_ReviewWatermark m) (mi_ReviewParked m) on.

Definition update_mission (id : Z) (f : Mission → Mission) (ms : MStore) : MStore := with_missions ms (update_where (has_mid id) f (ms_missions ms)).
Definition SetMissionStatus (id : Z) (s : string) (now : double) : MStore → MStore := update_mission id (set_mission_status s now).
Definition SetRepo (id : Z) (repo base branch : string) (now : double) : MStore → MStore := update_mission id (set_repo repo base branch now).
Definition SetPRURL (id : Z) (url : string) (now : double) : MStore → MStore := update_mission id (set_pr_url url now).
Definition SetReviewState (id rounds : Z) (watermark : string) (parked : bool) (now : double) : MStore → MStore :=
  update_mission id (set_review rounds watermark parked now).
Definition SetRecordStory (id : Z) (on : bool) (now : double) : MStore → MStore := update_mission id (set_story on now).
Definition DeleteMission (id : Z) (ms : MStore) : MStore :=
  mkMStore (List.filter (λ m, negb (has_mid id m)) (ms_missions ms)) (List.filter (λ p, negb (ph_MissionID p =? id)) (ms_phases ms))
    (ms_lastMission ms) (ms_lastPhase ms).

(** ** Plans *)

Definition phase_count (p : PhaseSpec) : Z := if ps_Count p <=? 0 then 1 else ps_Count p.
Definition taskKey (name : string) (i : Z) : string := name +:+ "#" +:+ format_int i.
(** [1 … count]. *)
Definition upto (n : Z) : list Z := map (λ i, Z.of_nat i) (seq 1 (Z.to_nat n)).
Definition phase_keys (p : PhaseSpec) : list string := map (taskKey (ps_Name p)) (upto (phase_count p)).
(** The map from a phase's name to its keys, and reading it. *)
Definition keysByPhase (plan : list PhaseSpec) (name : string) : list string :=
  List.concat (map phase_keys (List.filter (λ p, String.eqb (ps_Name p) name) plan)).
Definition phase_tasks (plan : list PhaseSpec) (p : PhaseSpec) : list TaskSpec :=
  let deps := List.concat (map (keysByPhase plan) (ps_DependsOn p)) in
  map (λ key, mkSpec key (ps_Role p) (ps_Name p) (ps_Instruction p) "" deps (ps_Verify p) "") (phase_keys p).
Definition planToTasks (plan : list PhaseSpec) : list TaskSpec := List.concat (map (phase_tasks plan) plan).

Definition phase_row (id mid position : Z) (p : PhaseSpec) : Phase :=
  mkPhase id mid (ps_Name p) (ps_Role p) (ps_Program p) (ps_Instruction p) (String.concat "," (ps_DependsOn p)) (phase_count p) position.
(** The phases of a plan, in order from a position. *)
Fixpoint insert_phases (mid position : Z) (plan : list PhaseSpec) (ms : MStore) : MStore :=
  match plan with
  | [] => ms
  | p :: rest =>
      let id := ms_lastPhase ms + 1 in
      insert_phases mid (position + 1) rest (mkMStore (ms_missions ms) (ms_phases ms ++ [phase_row id mid position p]) (ms_lastMission ms) id)
  end.

Inductive MissionErr := EmptyPlan | QueueRefused (e : QueueErr) | NoMission (id : Z) | WrongStatus (status : string) | StillOpen (n : Z).

(** The id, the error of the queue if it refused the tasks (the rows are kept), and the stores. *)
Definition CreateMission (directive : string) (plan : list PhaseSpec) (requiresReview withQueue : bool) (now : double) (taskNow : nat → double)
    (ms : MStore) (q : Store) : result MissionErr (Z * option MissionErr * MStore * Store) :=
  match plan with
  | [] => Err EmptyPlan
  | _ =>
      let mid := ms_lastMission ms + 1 in
      let row := mkMission mid directive "running" 1 requiresReview now now "" "" "" "" 0 "" false false in
      let ms := insert_phases mid 0 plan (mkMStore (ms_missions ms ++ [row]) (ms_phases ms) mid (ms_lastPhase ms)) in
      if withQueue then
        match Enqueue mid (planToTasks plan) taskNow q with
        | Ok q => Ok (mid, None, ms, q)
        | Err e => Ok (mid, Some (QueueRefused e), ms, q)
        end
      else Ok (mid, None, ms, q)
  end.

(** ReopenForReview: the rows in a transaction, then the tasks. *)
Definition reopened (watermark : string) (now : double) (m : Mission) : Mission :=
  set_review (mi_ReviewRounds m + 1) watermark (mi_ReviewParked m) now (set_mission_status "running" now m).
Definition max_position (mid : Z) (ms : MStore) : Z :=
  match List.filter (λ p, ph_MissionID p =? mid) (ms_phases ms) with
  | [] => 0
  | p :: rest => foldl (λ acc p, Z.max acc (ph_Position p)) (ph_Position p) rest
  end.
Definition ReopenForReview (id : Z) (phases : list PhaseSpec) (watermark : string) (now : double) (taskNow : nat → double) (ms : MStore) (q : Store)
    : result MissionErr (MStore * result MissionErr Store) :=
  let ms' := insert_phases id (max_position id ms + 1) phases ms in
  match FindMission id ms' with
  | None => Err (NoMission id)
  | Some _ =>
      let ms' := update_mission id (reopened watermark now) ms' in
      Ok (ms', match Enqueue id (planToTasks phases) taskNow q with Ok q => Ok q | Err e => Err (QueueRefused e) end)
  end.

(** splitDeps reads the column back. *)
Definition splitDeps (s : string) : list string := if String.eqb s "" then [] else split_on "," s.

(** ** Steering *)

Definition guard_status (ok : Mission → bool) (id : Z) (ms : MStore) : result MissionErr Mission :=
  match FindMission id ms with
  | None => Err (NoMission id)
  | Some m => if ok m then Ok m else Err (WrongStatus (mi_Status m))
  end.
Definition PauseMission (id : Z) (now : double) (ms : MStore) (q : Store) : result MissionErr (MStore * Store) :=
  match guard_status (status_is "running") id ms with
  | Err e => Err e
  | Ok _ => Ok (SetMissionStatus id "paused" now ms, HaltMission id "paused" q)
  end.
Definition ResumeMission (id : Z) (now : double) (ms : MStore) (q : Store) : result MissionErr (MStore * Store) :=
  match guard_status (status_is "paused") id ms with
  | Err e => Err e
  | Ok _ => Ok (SetMissionStatus id "running" now ms, UnhaltMission id q)
  end.
Definition CancelMission (id : Z) (now : double) (ms : MStore) (q : Store) : result MissionErr (MStore * Store) :=
  match guard_status (λ m, negb (status_is "done" m || status_is "cancelled" m)) id ms with
  | Err e => Err e
  | Ok _ => Ok (SetMissionStatus id "cancelled" now ms, HaltMission id "cancelled" q)
  end.

Definition blocking (blockSeverity : string) (f : Finding) : bool := SeverityRank blockSeverity <=? SeverityRank (fi_Severity f).
Definition ResolveNeedsReview (id : Z) (blockSeverity : string) (withQueue : bool) (now : double) (ms : MStore) (q : Store) : result MissionErr MStore :=
  match guard_status (status_is "needs-review") id ms with
  | Err e => Err e
  | Ok _ =>
      let open := affected (blocking blockSeverity) (Findings id FindingOpen q) in
      if negb (String.eqb blockSeverity "") && withQueue && (0 <? open)%nat then Err (StillOpen (Z.of_nat open))
      else Ok (SetMissionStatus id "done" now ms)
  end.

(** ** Views *)

Record PhaseView := mkPhaseView {
  pv_Name : string; pv_Role : string; pv_Program : string; pv_Status : string; pv_Count : Z; pv_DependsOn : list string; pv_DoneTasks : Z;
  pv_Agents : list string }.
Record MissionView := mkMissionView {
  mv_ID : Z; mv_Directive : string; mv_Status : string; mv_Sprint : Z; mv_Created : double; mv_Phases : list PhaseView }.

Definition by_position (a b : Phase) : bool := ph_Position a <? ph_Position b.
Definition Phases (mid : Z) (ms : MStore) : list Phase := sort_stable by_position (List.filter (λ p, ph_MissionID p =? mid) (ms_phases ms)).
Definition agents_of (ts : list Task) : list string :=
  foldl (λ acc t, let by_ := default "" (tk_ClaimedBy t) in if String.eqb by_ "" || bool_decide (by_ ∈ acc) then acc else acc ++ [by_]) [] ts.
Definition phase_view (tasks : list Task) (p : Phase) : PhaseView :=
  let ts := List.filter (λ t, String.eqb (ts_Title (tk_Spec t)) (ph_Name p)) tasks in
  let done := affected (has_status StatusDone) ts in
  let status :=
    if (0 <? length ts)%nat && (done =? length ts)%nat then "done"
    else if forallb (has_status StatusPending) ts then "pending" else "running" in
  mkPhaseView (ph_Name p) (ph_Role p) (ph_Program p) status (ph_Count p) (splitDeps (ph_DependsOn p)) (Z.of_nat done) (agents_of ts).
Definition View (mid : Z) (withQueue : bool) (ms : MStore) (q : Store) : option MissionView :=
  m ← FindMission mid ms;
  let tasks := if withQueue then ListTasks mid q else [] in
  Some (mkMissionView (mi_ID m) (mi_Directive m) (mi_Status m) (mi_Sprint m) (mi_Created m) (map (phase_view tasks) (Phases mid ms))).

(** ** The engine *)

(** What the completion hook was told: the mission, the status, the review rounds. *)
Definition Completed : Type := Z * string * Z.
Record Engine := mkEngine {
  en_ConvergeBlockSeverity : string; en_NoProgressTicks : Z; en_noProgress : gmap Z Z; en_lastFingerprint : gmap Z string; en_completed : list Completed }.
Definition NewEngine : Engine := mkEngine "high" 240 ∅ ∅ [].

(** The stores, the engine, and how often the clock was read. *)
Record World := mkWorld { w_m : MStore; w_q : Store; w_e : Engine; w_reads : nat }.
Definition with_engine (w : World) (e : Engine) : World := mkWorld (w_m w) (w_q w) e (w_reads w).
Definition with_queue (w : World) (q : Store) : World := mkWorld (w_m w) q (w_e w) (w_reads w).

Definition with_progress (e : Engine) (n : gmap Z Z) (l : gmap Z string) : Engine :=
  mkEngine (en_ConvergeBlockSeverity e) (en_NoProgressTicks e) n l (en_completed e).
Definition completed (e : Engine) (c : Completed) : Engine :=
  mkEngine (en_ConvergeBlockSeverity e) (en_NoProgressTicks e) (en_noProgress e) (en_lastFingerprint e) (en_completed e ++ [c]).

Section Engine.
Variable clock : nat → double.

Definition set_status_now (id : Z) (s : string) (w : World) : World :=
  mkWorld (SetMissionStatus id s (clock (w_reads w)) (w_m w)) (w_q w) (w_e w) (S (w_reads w)).
Definition complete (m : Mission) (s : string) (w : World) : World := with_engine w (completed (w_e w) (mi_ID m, s, mi_ReviewRounds m)).

Definition blockingFindingOpen (mid : Z) (w : World) : bool :=
  if String.eqb (en_ConvergeBlockSeverity (w_e w)) "" then false
  else existsb (blocking (en_ConvergeBlockSeverity (w_e w))) (Findings mid FindingOpen (w_q w)).

Definition progressFingerprint (mid : Z) (q : Store) : string * Z :=
  let tasks := ListTasks mid q in
  let terminal := affected (λ t, negb (open_status (tk_Status t))) tasks in
  let claimed := affected (has_status StatusClaimed) tasks in
  (format_int (Z.of_nat terminal) +:+ "/" +:+ format_int (Z.of_nat (length tasks)) +:+ "/" +:+
   format_int (Z.of_nat (length (Findings mid FindingOpen q))), Z.of_nat claimed).

Definition failMission (m : Mission) (reason : string) (w : World) : World :=
  let w := set_status_now (mi_ID m) "failed" w in
  let w := with_queue w (HaltMission (mi_ID m) ("failed: " +:+ reason) (w_q w)) in
  let w := complete m "failed" w in
  with_engine w (with_progress (w_e w) (delete (mi_ID m) (en_noProgress (w_e w))) (delete (mi_ID m) (en_lastFingerprint (w_e w)))).

Definition checkNoProgress (m : Mission) (w : World) : World :=
  let e := w_e w in
  if en_NoProgressTicks e <=? 0 then w
  else
    let '(fp, claimed) := progressFingerprint (mi_ID m) (w_q w) in
    if negb (String.eqb fp (default "" (en_lastFingerprint e !! mi_ID m)))
    then with_engine w (with_progress e (<[mi_ID m := 0]> (en_noProgress e)) (<[mi_ID m := fp]> (en_lastFingerprint e)))
    else if 0 <? claimed then w
    else
      let n := default 0 (en_noProgress e !! mi_ID m) + 1 in
      let w := with_engine w (with_progress e (<[mi_ID m := n]> (en_noProgress e)) (en_lastFingerprint e)) in
      if en_NoProgressTicks e <=? n then failMission m "no forward progress and nothing claimable" w else w.

Definition blocked_finding (mid : Z) (taskKey dep : string) (depExists : bool) : Finding :=
  let why := if depExists then "was cancelled or superseded" else "does not exist in the mission" in
  mkFinding 0 mid 0 "dep-sweep" "" "" "missing-req" "high" ("blocked-dep:" +:+ taskKey) "" "" ""
    ("task '" +:+ taskKey +:+ "' depends on '" +:+ dep +:+ "', which " +:+ why +:+ " — it can never run, so it was cancelled")
    ("re-plan without the dead dependency, or restore/replace '" +:+ dep +:+ "'") "" false (of_int 0) (of_int 0).
Definition fileBlockedDepFinding (mid : Z) (taskKey dep : string) (depExists : bool) (w : World) : World :=
  let f := blocked_finding mid taskKey dep depExists in
  if existsb (λ g, String.eqb (fi_Reporter g) "dep-sweep" && String.eqb (fi_Target g) (fi_Target f)) (Findings mid FindingOpen (w_q w)) then w
  else match AddFinding f (clock (w_reads w)) (w_q w) with
       | Ok (_, q) => mkWorld (w_m w) q (w_e w) (S (w_reads w))
       | Err _ => w
       end.

Definition status_map (ts : list Task) : gmap string TaskStatus := foldl (λ acc t, <[tk_Key t := tk_Status t]> acc) ∅ ts.
(** A dependency that can never be satisfied: absent, or ended without being done. *)
Definition dead_dep (status : gmap string TaskStatus) (dep : string) : bool :=
  match status !! dep with None => true | Some s => is_status s StatusCancelled || is_status s StatusSuperseded end.
Definition sweep_one (mid : Z) (status : gmap string TaskStatus) (w : World) (t : Task) : World :=
  if negb (has_status StatusPending t) then w
  else match List.find (dead_dep status) (tk_Deps t) with
       | None => w
       | Some dep =>
           let w := fileBlockedDepFinding mid (tk_Key t) dep (bool_decide (is_Some (status !! dep))) w in
           with_queue w (CancelTask (tk_ID t) (w_q w)).2
       end.
Definition sweepBlockedDeps (mid : Z) (w : World) : World :=
  let tasks := ListTasks mid (w_q w) in foldl (sweep_one mid (status_map tasks)) w tasks.

(** One turn of a tick's loop, for a mission as it was read. *)
Definition tick_one (w : World) (m : Mission) : World :=
  let w := with_queue w (PromoteReady (mi_ID m) (w_q w)).2 in
  let w := sweepBlockedDeps (mi_ID m) w in
  if negb (MissionDone (mi_ID m) (w_q w)) then checkNoProgress m w
  else if blockingFindingOpen (mi_ID m) w then complete m "needs-review" (set_status_now (mi_ID m) "needs-review" w)
  else complete m "done" (set_status_now (mi_ID m) "done" w).
Definition Tick (w : World) : World := foldl tick_one w (RunningMissions (w_m w)).
End Engine.
