(* ===== verification/MissionFacts.v ===== *)
(** * What a tick does, and that missions end

    A tick treats each running mission by itself ([tick_frame]): it promotes what is ready, cancels what can
    never run, and ends a mission whose queue is drained ([Tick_outcome]). A mission nobody
    works on leaves "running" within a bound ([quiet_missions_end]), so none hangs. *)
From S2P Require Import Prelude GoLib GoText Float64 Queue QueueFacts QueuePlan QueueSound Mission.
Local Open Scope string_scope.
Local Open Scope list_scope.
Local Open Scope Z_scope.

(** ** Counting rows *)

Lemma affected_update_same {A} (q p : A → bool) f l : (∀ x, x ∈ l → p x = true → q (f x) = q x) → affected q (update_where p f l) = affected q l.
Proof.
  intros H. unfold affected, update_where. induction l as [|x l IH]; [done|]. cbn [map List.filter].
  assert (q (if p x then f x else x) = q x) as -> by (destruct (p x) eqn:E; [apply H; [left|done]|done]).
  specialize (IH (λ y Hy, H y ltac:(by right))). destruct (q x); cbn; by rewrite IH.
Qed.
Lemma affected_update_le {A} (q p : A → bool) f l : (∀ x, p x = true → q (f x) = false) → (affected q (update_where p f l) <= affected q l)%nat.
Proof.
  intros H. unfold affected, update_where. induction l as [|x l IH]; [done|]. cbn [map List.filter]. destruct (p x) eqn:E.
  - rewrite H by done. destruct (q x); cbn; lia.
  - destruct (q x); cbn; lia.
Qed.
Lemma affected_update_lt {A} (q p : A → bool) f l x : (∀ x, p x = true → q (f x) = false) → x ∈ l → p x = true → q x = true →
  (affected q (update_where p f l) < affected q l)%nat.
Proof.
  intros H Hx Hp Hq. induction l as [|y l IH]; [by apply elem_of_nil in Hx|]. unfold affected, update_where in *. cbn [map List.filter].
  pose proof (affected_update_le q p f l H) as Hle. unfold affected, update_where in Hle. apply elem_of_cons in Hx as [<-|Hx].
  - rewrite Hp, H, Hq by done. cbn. lia.
  - specialize (IH Hx). destruct (p y) eqn:E; [rewrite H by done; destruct (q y); cbn; lia|destruct (q y); cbn; lia].
Qed.
Lemma length_update {A} (p : A → bool) f l : length (update_where p f l) = length l.
Proof. apply length_map. Qed.

(** ** What a world shows of one mission *)

Definition seen (a : Z) (w : World) :=
  (FindMission a (w_m w), ListTasks a (w_q w), Findings a FindingOpen (w_q w), st_halts (w_q w) !! a, en_noProgress (w_e w) !! a, en_lastFingerprint (w_e w) !! a).
Definition config (w : World) := (en_ConvergeBlockSeverity (w_e w), en_NoProgressTicks (w_e w)).

Lemma seen_eq a w w' : FindMission a (w_m w') = FindMission a (w_m w) → ListTasks a (w_q w') = ListTasks a (w_q w) → Findings a FindingOpen (w_q w') = Findings a FindingOpen (w_q w) →
  st_halts (w_q w') !! a = st_halts (w_q w) !! a → (en_noProgress (w_e w') !! a, en_lastFingerprint (w_e w') !! a) = (en_noProgress (w_e w) !! a, en_lastFingerprint (w_e w) !! a) →
  seen a w' = seen a w.
Proof. unfold seen. intros -> -> -> -> [= -> ->]. done. Qed.

Definition drained (ts : list Task) : bool := (0 <? length ts)%nat && negb (existsb (λ t, open_status (tk_Status t)) ts).
Lemma MissionDone_drained a q : MissionDone a q = drained (ListTasks a q).
Proof.
  unfold MissionDone, drained, affected, ListTasks. f_equal. rewrite <- filter_filter.
  induction (List.filter (in_mission a) (st_tasks q)) as [|t l IH]; [done|]. cbn [List.filter existsb]. destruct (open_status (tk_Status t)); done.
Qed.

Lemma FindMission_update a id f ms : (∀ m, mi_ID (f m) = mi_ID m) → FindMission a (update_mission id f ms) =
  if id =? a then f <$> FindMission a ms else FindMission a ms.
Proof.
  intros Hf. unfold FindMission, update_mission. cbn [ms_missions with_missions]. induction (ms_missions ms) as [|m l IH]; [by destruct (id =? a)|].
  cbn [update_where map List.find]. fold (update_where (has_mid id) f l).
  assert (has_mid a (if has_mid id m then f m else m) = has_mid a m) as -> by (unfold has_mid; destruct (mi_ID m =? id); by rewrite ?Hf).
  destruct (has_mid a m) eqn:Ea; [|exact IH]. apply Z.eqb_eq in Ea. unfold has_mid. rewrite Ea, (Z.eqb_sym a id). by destruct (id =? a).
Qed.
Lemma FindMission_status a id s now ms : FindMission a (SetMissionStatus id s now ms) =
  if id =? a then set_mission_status s now <$> FindMission a ms else FindMission a ms.
Proof. by apply FindMission_update. Qed.
Lemma FindMission_status_ne a id s now ms : a ≠ id → FindMission a (SetMissionStatus id s now ms) = FindMission a ms.
Proof. intros Hne. rewrite FindMission_status. by destruct (Z.eqb_spec id a). Qed.
Lemma ids_update id f ms : (∀ m, mi_ID (f m) = mi_ID m) → map mi_ID (ms_missions (update_mission id f ms)) = map mi_ID (ms_missions ms).
Proof. intros H. by apply map_update_where. Qed.
Lemma Findings_app a s q q' new : st_findings q' = st_findings q ++ new → Forall (λ f, fi_MissionID f ≠ a) new → Findings a s q' = Findings a s q.
Proof.
  intros Hf Hnew. unfold Findings. rewrite Hf, List.filter_app.
  assert (List.filter (λ f, (fi_MissionID f =? a) && (String.eqb s "" || String.eqb (fi_Status f) s)) new = []) as ->; [|by rewrite app_nil_r].
  clear Hf. induction Hnew as [|f l Hfl _ IH]; [done|]. cbn [List.filter].
  assert ((fi_MissionID f =? a) = false) as -> by (by apply Z.eqb_neq). exact IH.
Qed.

(** ** The sweep *)

Definition blocked (status : gmap string TaskStatus) (t : Task) : bool := has_status StatusPending t && existsb (dead_dep status) (tk_Deps t).
Lemma find_existsb {A} (p : A → bool) l : is_Some (List.find p l) ↔ existsb p l = true.
Proof. induction l as [|x l IH]; cbn; [split; [by intros [? ?]|done]|]. destruct (p x); cbn; [split; [done|by eexists]|done]. Qed.

Definition swept_finding (key : string) (f : Finding) : Prop := fi_Reporter f = "dep-sweep" ∧ fi_Target f = "blocked-dep:" +:+ key.

Lemma file_finding clock mid key dep ex w : let w' := fileBlockedDepFinding clock mid key dep ex w in
  ∃ new, w_m w' = w_m w ∧ w_e w' = w_e w ∧ w_q w' = with_findings (w_q w) (st_findings (w_q w) ++ new) ∧ Forall (λ f, fi_MissionID f = mid) new ∧
  (mid ≠ 0 → ∃ f, f ∈ Findings mid FindingOpen (w_q w') ∧ swept_finding key f).
Proof.
  intros w'. subst w'. unfold fileBlockedDepFinding. destruct (existsb _ _) eqn:E.
  { exists []. rewrite app_nil_r. split_and!; [done|done|by destruct (w_q w)|constructor|]. intros _.
    apply existsb_exists in E as (f & Hf%list_elem_of_In & [?%String.eqb_eq ?%String.eqb_eq]%andb_prop). exists f. by split. }
  unfold AddFinding. destruct (Z.eqb_spec (fi_MissionID (blocked_finding mid key dep ex)) 0) as [Em|Em].
  { exists []. rewrite app_nil_r. split_and!; [done|done|by destruct (w_q w)|constructor|]. done. }
  cbn [fi_Reporter blocked_finding fi_Type fi_Severity String.eqb]. rewrite bool_decide_eq_true_2 by set_solver. cbn [negb].
  set (f := stored _ _ _ _). exists [f]. split_and!; [done|done|done|by repeat constructor|]. intros _. exists f. split; [|done].
  unfold Findings. apply list_elem_of_In. rewrite <- in_rev. apply list_elem_of_In, elem_of_filter_where. cbn [st_findings with_findings w_q]. split; [apply elem_of_app; right; by left|].
  cbn. by rewrite Z.eqb_refl.
Qed.

Lemma Findings_mono a s q q' new f : st_findings q' = st_findings q ++ new → f ∈ Findings a s q → f ∈ Findings a s q'.
Proof.
  unfold Findings. intros ->. rewrite !list_elem_of_In, <- !in_rev, <- !list_elem_of_In, !elem_of_filter_where, elem_of_app. tauto.
Qed.

Record swept (mid : Z) (status : gmap string TaskStatus) (l : list Task) (w w' : World) : Prop := {
  sw_m : w_m w' = w_m w;
  sw_e : w_e w' = w_e w;
  sw_halts : st_halts (w_q w') = st_halts (w_q w);
  sw_tasks : st_tasks (w_q w') = update_where (λ t, existsb (λ x, has_id (tk_ID x) t) (List.filter (blocked status) l) && open_status (tk_Status t))
    (set_dropped StatusCancelled) (st_tasks (w_q w));
  sw_findings : ∃ new, st_findings (w_q w') = st_findings (w_q w) ++ new ∧ Forall (λ f, fi_MissionID f = mid) new ∧ (List.filter (blocked status) l = [] → new = []);
  sw_told : mid ≠ 0 → ∀ x, x ∈ l → blocked status x = true → ∃ f, f ∈ Findings mid FindingOpen (w_q w') ∧ swept_finding (tk_Key x) f }.

Lemma sweep_one_spec clock mid status w t : let w' := sweep_one clock mid status w t in
  if blocked status t then
    ∃ new, w_m w' = w_m w ∧ w_e w' = w_e w ∧ st_halts (w_q w') = st_halts (w_q w) ∧
      st_tasks (w_q w') = update_where (λ x, has_id (tk_ID t) x && open_status (tk_Status x)) (set_dropped StatusCancelled) (st_tasks (w_q w)) ∧
      st_findings (w_q w') = st_findings (w_q w) ++ new ∧ Forall (λ f, fi_MissionID f = mid) new ∧
      (mid ≠ 0 → ∃ f, f ∈ Findings mid FindingOpen (w_q w') ∧ swept_finding (tk_Key t) f)
  else w' = w.
Proof.
  unfold sweep_one, blocked. destruct (has_status StatusPending t); cbn [negb andb]; [|done].
  destruct (List.find (dead_dep status) (tk_Deps t)) as [dep|] eqn:E.
  - assert (existsb (dead_dep status) (tk_Deps t) = true) as -> by (apply find_existsb; by eexists).
    destruct (file_finding clock mid (tk_Key t) dep (bool_decide (is_Some (status !! dep))) w) as (new & Em & Ee & Eq & Hnew & Htold).
    set (w1 := fileBlockedDepFinding _ _ _ _ _ _) in *. exists new. cbn [with_queue w_m w_q w_e]. rewrite Em, Ee. cbn.
    split_and!; [done|done|by rewrite Eq|by rewrite Eq|by rewrite Eq|done|]. intros H. destruct (Htold H) as (f & Hf & ?). by exists f.
  - assert (existsb (dead_dep status) (tk_Deps t) = false) as ->; [|done]. apply not_true_iff_false. intros [? ?]%find_existsb. congruence.
Qed.

Lemma sweep_loop clock mid status l : ∀ w, swept mid status l w (foldl (sweep_one clock mid status) w l).
Proof.
  induction l as [|t l IH]; intros w; cbn [foldl].
  { split; try done; [by rewrite update_where_none|exists []; by rewrite app_nil_r|by intros _ ? ?%elem_of_nil]. }
  pose proof (sweep_one_spec clock mid status w t) as H1. cbv zeta in H1. specialize (IH (sweep_one clock mid status w t)). set (w1 := sweep_one clock mid status w t) in *.
  destruct IH as [Hm He Hh Ht (new2 & Hf & Hfm & Hnil) Htold]. cbn [List.filter]. destruct (blocked status t) eqn:Eb.
  - destruct H1 as (new & Em & Ee & Eh & Et & Ef & Hfm1 & Htold1). split; [by rewrite Hm|by rewrite He|by rewrite Hh| | |].
    + rewrite Ht, Et. unfold update_where. rewrite map_map. apply map_ext. intros x. cbn [List.filter]. rewrite Eb. cbn [existsb].
      destruct (has_id (tk_ID t) x) eqn:Ei; cbn [andb orb]; [|done]. destruct (open_status (tk_Status x)) eqn:Eo; cbn [andb]; by rewrite ?Eo, ?andb_false_r.
    + exists (new ++ new2). cbn [List.filter]. rewrite Eb. split_and!; [by rewrite Hf, Ef, app_assoc|by apply Forall_app|done].
    + intros H x [->|Hx]%elem_of_cons Hbx; [|by apply Htold]. destruct (Htold1 H) as (f & Hin & ?). exists f. split; [|done]. by eapply Findings_mono.
  - rewrite H1 in *. split; [done|done|done| | |].
    + rewrite Ht. cbn [List.filter]. by rewrite Eb.
    + exists new2. cbn [List.filter]. by rewrite Eb.
    + intros H x [->|Hx]%elem_of_cons Hbx; [congruence|by apply Htold].
Qed.

Lemma tame_cancelled (p : Task → bool) : tame p (set_dropped StatusCancelled).
Proof. apply tame_dropped. by left. Qed.
Lemma sweep_wf clock mid w : wf (w_q w) → wf (w_q (sweepBlockedDeps clock mid w)).
Proof.
  intros Hw. unfold sweepBlockedDeps. destruct (sweep_loop clock mid (status_map (ListTasks mid (w_q w))) (ListTasks mid (w_q w)) w) as [_ _ _ Ht _ _].
  unfold wf. rewrite Ht. apply wf_update; [apply tame_cancelled|done].
Qed.
Lemma sweep_own clock mid w : wf (w_q w) → let ts := ListTasks mid (w_q w) in
  ListTasks mid (w_q (sweepBlockedDeps clock mid w)) = update_where (blocked (status_map ts)) (set_dropped StatusCancelled) ts.
Proof.
  intros Hw ts. unfold sweepBlockedDeps. destruct (sweep_loop clock mid (status_map ts) ts w) as [_ _ _ Ht _ _]. fold ts.
  rewrite (ListTasks_update mid _ _ (w_q w) _ Ht) by done. fold ts. apply update_where_ext. intros t Hin. pose proof Hin as [Hall Hm]%elem_of_ListTasks.
  assert (existsb (λ x, has_id (tk_ID x) t) (List.filter (blocked (status_map ts)) ts) = blocked (status_map ts) t) as ->.
  { apply eq_true_iff_eq. rewrite existsb_exists. split.
    - intros (x & Hx%list_elem_of_In & Hi%has_id_eq). apply elem_of_filter_where in Hx as [Hx Hb]. apply elem_of_ListTasks in Hx as [Hx _].
      by rewrite (same_id _ t x Hw Hall Hx).
    - intros Hb. exists t. split; [by apply list_elem_of_In, elem_of_filter_where|by apply has_id_eq]. }
  unfold blocked. destruct (has_status StatusPending t) eqn:E; cbn [andb]; [|done]. apply has_status_eq in E. rewrite E. by rewrite andb_true_r.
Qed.
Lemma sweep_other clock mid a w : wf (w_q w) → a ≠ mid → seen a (sweepBlockedDeps clock mid w) = seen a w.
Proof.
  intros Hw Hne. unfold sweepBlockedDeps. set (ts := ListTasks mid (w_q w)). destruct (sweep_loop clock mid (status_map ts) ts w) as [Em Ee Eh Ht (new & Hf & Hfm & _) _].
  apply seen_eq; [by rewrite Em| | |by rewrite Eh|by rewrite Ee].
  - apply (ListTasks_untouched a _ _ _ _ Ht); [done|]. intros t [Hin Hm]%elem_of_ListTasks. apply andb_false_iff. left. apply not_true_iff_false.
    intros (x & Hx%list_elem_of_In & Hi%has_id_eq)%existsb_exists. apply elem_of_filter_where in Hx as [Hx _]. apply elem_of_ListTasks in Hx as [Hx Hmx].
    rewrite (same_id _ t x Hw Hin Hx Hi) in Hm. congruence.
  - eapply Findings_app; [exact Hf|]. eapply Forall_impl; [exact Hfm|]. cbn. congruence.
Qed.

(** ** One mission of a tick *)

Lemma promote_own m q : wf q → ListTasks m (PromoteReady m q).2 =
  update_where (λ t, has_status StatusPending t && allDone (tk_Deps t) (keysWithStatus m StatusDone (st_tasks q))) (set_status StatusReady) (ListTasks m q).
Proof.
  intros Hw. rewrite PromoteReady_exact by done. cbn [snd]. rewrite (ListTasks_update m (promotable m (st_tasks q)) (set_status StatusReady) q) by done.
  apply update_where_ext. intros t [_ Hm]%elem_of_ListTasks. unfold promotable. assert (in_mission m t = true) as -> by (by apply in_mission_eq). done.
Qed.
Lemma promote_other m a q : wf q → a ≠ m → ListTasks a (PromoteReady m q).2 = ListTasks a q.
Proof.
  intros Hw Hne. rewrite PromoteReady_exact by done. eapply ListTasks_untouched; [reflexivity|done|]. intros t [_ Hm]%elem_of_ListTasks.
  unfold promotable. assert (in_mission m t = false) as ->; [|done]. apply Z.eqb_neq. congruence.
Qed.
Lemma promote_store m q : wf q → wf (PromoteReady m q).2 ∧ st_findings (PromoteReady m q).2 = st_findings q ∧ st_halts (PromoteReady m q).2 = st_halts q.
Proof. intros Hw. split; [by apply (wf_op (OpPromote m) q)|]. by rewrite PromoteReady_exact. Qed.

Section Tick.
Variable clock : nat → double.

(** The world once a mission's tasks are promoted and swept. *)
Definition advanced (a : Z) (w : World) : World := sweepBlockedDeps clock a (with_queue w (PromoteReady a (w_q w)).2).
Definition promoted_tasks (a : Z) (w : World) : list Task := ListTasks a (PromoteReady a (w_q w)).2.

Lemma advanced_same a w : wf (w_q w) → w_m (advanced a w) = w_m w ∧ w_e (advanced a w) = w_e w ∧ st_halts (w_q (advanced a w)) = st_halts (w_q w) ∧ wf (w_q (advanced a w)).
Proof.
  intros Hw. destruct (promote_store a (w_q w) Hw) as (Hw1 & _ & Eh). unfold advanced. split_and!; [| | |by apply sweep_wf];
    unfold sweepBlockedDeps; destruct (sweep_loop clock a (status_map (ListTasks a (w_q (with_queue w (PromoteReady a (w_q w)).2))))
      (ListTasks a (w_q (with_queue w (PromoteReady a (w_q w)).2))) (with_queue w (PromoteReady a (w_q w)).2)) as [Em Ee Eh2 _ _ _]; [by rewrite Em|by rewrite Ee|].
  rewrite Eh2. exact Eh.
Qed.
Lemma advanced_other a b w : wf (w_q w) → b ≠ a → seen b (advanced a w) = seen b w.
Proof.
  intros Hw Hne. unfold advanced. destruct (promote_store a (w_q w) Hw) as (Hw1 & Ef & Eh). rewrite sweep_other by done.
  apply seen_eq; cbn; [done|by apply promote_other|unfold Findings; by rewrite Ef|by rewrite Eh|done].
Qed.

Lemma set_status_seen a id s w : a ≠ id → seen a (set_status_now clock id s w) = seen a w.
Proof. intros Hne. apply seen_eq; [|done..]. by apply FindMission_status_ne. Qed.

(** The three ways a turn ends. *)
Lemma tick_one_cases w m : let w1 := advanced (mi_ID m) w in
  tick_one clock w m = if negb (MissionDone (mi_ID m) (w_q w1)) then checkNoProgress clock m w1
  else if blockingFindingOpen (mi_ID m) w1 then complete m "needs-review" (set_status_now clock (mi_ID m) "needs-review" w1)
  else complete m "done" (set_status_now clock (mi_ID m) "done" w1).
Proof. done. Qed.

Lemma failMission_seen a m why w : a ≠ mi_ID m → seen a (failMission clock m why w) = seen a w.
Proof.
  intros Hne. apply seen_eq; [by apply FindMission_status_ne|done|done|by apply lookup_insert_ne|]. cbn. by rewrite !lookup_delete_ne.
Qed.
Lemma checkNoProgress_other a m w : a ≠ mi_ID m → seen a (checkNoProgress clock m w) = seen a w ∧ config (checkNoProgress clock m w) = config w ∧
  (wf (w_q w) → wf (w_q (checkNoProgress clock m w))) ∧ map mi_ID (ms_missions (w_m (checkNoProgress clock m w))) = map mi_ID (ms_missions (w_m w)).
Proof.
  intros Hne. unfold checkNoProgress. destruct (_ <=? 0); [done|]. destruct (progressFingerprint _ _) as [fp claimed].
  destruct (negb _); [split; [apply seen_eq; try done; cbn; by rewrite !lookup_insert_ne|done]|]. destruct (0 <? claimed); [done|].
  destruct (_ <=? _); [|split; [apply seen_eq; try done; cbn; by rewrite !lookup_insert_ne|done]].
  split; [rewrite failMission_seen by done; apply seen_eq; try done; cbn; by rewrite !lookup_insert_ne|]. split_and!; [done|done|]. by apply ids_update.
Qed.
Lemma checkNoProgress_keeps m w : config (checkNoProgress clock m w) = config w ∧ w_q (checkNoProgress clock m w) = with_halts (w_q w) (st_halts (w_q (checkNoProgress clock m w))) ∧
  map mi_ID (ms_missions (w_m (checkNoProgress clock m w))) = map mi_ID (ms_missions (w_m w)).
Proof.
  assert (w_q w = with_halts (w_q w) (st_halts (w_q w))) as E by (by destruct (w_q w)).
  unfold checkNoProgress. destruct (_ <=? 0); [done|]. destruct (progressFingerprint _ _) as [fp claimed]. destruct (negb _); [done|]. destruct (0 <? claimed); [done|].
  destruct (_ <=? _); [|done]. split_and!; [done|done|]. by apply ids_update.
Qed.

Lemma tick_one_keeps w m : wf (w_q w) → config (tick_one clock w m) = config w ∧ wf (w_q (tick_one clock w m)) ∧
  map mi_ID (ms_missions (w_m (tick_one clock w m))) = map mi_ID (ms_missions (w_m w)).
Proof.
  intros Hw. rewrite tick_one_cases. destruct (advanced_same (mi_ID m) w Hw) as (Em & Ee & _ & Hw1). set (w1 := advanced (mi_ID m) w) in *.
  assert (config w1 = config w) as Ec by (unfold config; by rewrite Ee). rewrite <- Ec, <- Em. destruct (negb _).
  - destruct (checkNoProgress_keeps m w1) as (? & Eq & ?). split_and!; [done| |done]. unfold wf. rewrite Eq. exact Hw1.
  - destruct (blockingFindingOpen _ _); (split_and!; [done|exact Hw1|by apply ids_update]).
Qed.
Lemma tick_one_frame a w m : wf (w_q w) → a ≠ mi_ID m → seen a (tick_one clock w m) = seen a w.
Proof.
  intros Hw Hne. rewrite tick_one_cases. rewrite <- (advanced_other (mi_ID m) a w Hw Hne). set (w1 := advanced (mi_ID m) w) in *. destruct (negb _).
  - by apply checkNoProgress_other.
  - destruct (blockingFindingOpen _ _); by apply (set_status_seen a (mi_ID m)).
Qed.
End Tick.

(** ** A tick, mission by mission *)

Definition done_key (ts : list Task) (d : string) : bool := existsb (λ u, String.eqb (tk_Key u) d && has_status StatusDone u) ts.
(** No task of the key, or only cancelled and superseded ones. *)
Definition dead_key (ts : list Task) (d : string) : bool :=
  forallb (λ u, negb (String.eqb (tk_Key u) d) || has_status StatusCancelled u || has_status StatusSuperseded u) ts.
(** What a tick makes of a task, given the mission's tasks. *)
Definition next_row (ts : list Task) (t : Task) : Task :=
  if has_status StatusPending t && forallb (done_key ts) (tk_Deps t) then set_status StatusReady t
  else if has_status StatusPending t && existsb (dead_key ts) (tk_Deps t) then set_dropped StatusCancelled t
  else t.

Lemma status_map_by_key ts : status_map ts = tk_Status <$> by_key ts.
Proof.
  unfold status_map, by_key. induction ts as [|t ts IH] using rev_ind; [done|]. rewrite !foldl_app. cbn [foldl]. by rewrite IH, fmap_insert.
Qed.
Lemma dead_dep_spec ts d : NoDup (map tk_Key ts) → dead_dep (status_map ts) d = dead_key ts d.
Proof.
  intros Hnd. unfold dead_dep. rewrite status_map_by_key, lookup_fmap. destruct (by_key ts !! d) as [t|] eqn:E; cbn [fmap option_fmap option_map].
  - apply by_key_Some in E as [Hin Hk]; [|done]. apply eq_true_iff_eq. unfold dead_key. rewrite forallb_forall. split.
    + intros Hs u Hu%list_elem_of_In. destruct (String.eqb_spec (tk_Key u) d) as [Eu|]; [|done].
      rewrite (NoDup_map_inj tk_Key ts u t Hnd Hu Hin) by congruence. exact Hs.
    + intros H. specialize (H t). rewrite <- list_elem_of_In in H. specialize (H Hin). rewrite Hk, String.eqb_refl in H. exact H.
  - symmetry. unfold dead_key. apply forallb_forall. intros u Hu%list_elem_of_In. destruct (String.eqb_spec (tk_Key u) d) as [Eu|]; [|done].
    exfalso. assert (by_key ts !! d = Some u) by (by apply by_key_Some). congruence.
Qed.
Lemma allDone_own a q deps : allDone deps (keysWithStatus a StatusDone (st_tasks q)) = forallb (done_key (ListTasks a q)) deps.
Proof.
  apply eq_true_iff_eq. rewrite allDone_spec, forallb_forall. setoid_rewrite <- list_elem_of_In. apply forall_proper. intros d. apply forall_proper. intros _.
  rewrite keysWithStatus_elem. unfold done_key. rewrite existsb_exists. setoid_rewrite andb_true_iff. setoid_rewrite String.eqb_eq. setoid_rewrite has_status_eq.
  setoid_rewrite <- list_elem_of_In. setoid_rewrite elem_of_ListTasks. naive_solver.
Qed.

Lemma forallb_map {A B} (p : B → bool) (f : A → B) l : forallb p (map f l) = forallb (λ x, p (f x)) l.
Proof. induction l as [|x l IH]; [done|]. cbn. by rewrite IH. Qed.
Lemma forallb_ext_in {A} (p q : A → bool) l : (∀ x, p x = q x) → forallb p l = forallb q l.
Proof. intros H. induction l as [|x l IH]; [done|]. cbn. by rewrite H, IH. Qed.
Lemma existsb_ext_in {A} (p q : A → bool) l : (∀ x, p x = q x) → existsb p l = existsb q l.
Proof. intros H. induction l as [|x l IH]; [done|]. cbn. by rewrite H, IH. Qed.

Definition promoting (a : Z) (w : World) (t : Task) : bool := has_status StatusPending t && allDone (tk_Deps t) (keysWithStatus a StatusDone (st_tasks (w_q w))).
(** Promotion kills no dependency. *)
Lemma dead_promoted a w d : wf (w_q w) → dead_dep (status_map (promoted_tasks a w)) d = dead_key (ListTasks a (w_q w)) d.
Proof.
  intros Hw. destruct (promote_store a (w_q w) Hw) as (Hw1 & _ & _). rewrite dead_dep_spec by (by apply NoDup_keys). unfold promoted_tasks. rewrite promote_own by done.
  unfold dead_key, update_where. rewrite forallb_map. apply forallb_ext_in. intros u. fold (promoting a w u). destruct (promoting a w u) eqn:E; [|done].
  unfold promoting in E. apply andb_prop in E as [E%has_status_eq _]. unfold has_status. cbn. by rewrite E.
Qed.
Lemma promoting_own a w t : promoting a w t = has_status StatusPending t && forallb (done_key (ListTasks a (w_q w))) (tk_Deps t).
Proof. unfold promoting. by rewrite allDone_own. Qed.

Section Ticks.
Variable clock : nat → double.

Lemma advanced_tasks a w : wf (w_q w) → let ts := ListTasks a (w_q w) in ListTasks a (w_q (advanced clock a w)) = map (next_row ts) ts.
Proof.
  intros Hw ts. unfold advanced. destruct (promote_store a (w_q w) Hw) as (Hw1 & _). rewrite sweep_own by done. cbn [with_queue w_q].
  fold (promoted_tasks a w). unfold promoted_tasks at 2. rewrite promote_own by done. fold ts. unfold update_where. rewrite map_map. apply map_ext. intros t.
  fold (promoting a w t). unfold next_row, blocked. pose proof (promoting_own a w t) as E. fold ts in E. rewrite <- E. clear E. destruct (promoting a w t); [done|].
  by rewrite (existsb_ext_in _ _ _ (λ d, dead_promoted a w d Hw)).
Qed.

Definition open_count (ts : list Task) : nat := affected (λ t, open_status (tk_Status t)) ts.

Lemma tick_frames a l : ∀ w, wf (w_q w) → (∀ m, m ∈ l → mi_ID m ≠ a) → let w' := foldl (tick_one clock) w l in
  seen a w' = seen a w ∧ config w' = config w ∧ wf (w_q w') ∧ map mi_ID (ms_missions (w_m w')) = map mi_ID (ms_missions (w_m w)).
Proof.
  induction l as [|m l IH]; intros w Hw Hne; [done|]. cbn [foldl]. destruct (tick_one_keeps clock w m Hw) as (Hc & Hw1 & Hi).
  destruct (IH (tick_one clock w m) Hw1) as (-> & -> & ? & ->); [intros; apply Hne; by right|]. rewrite tick_one_frame by (first [done|intros ->; by apply (Hne m); [left|]]). done.
Qed.
Lemma FindMission_Some a ms m : FindMission a ms = Some m → m ∈ ms_missions ms ∧ mi_ID m = a.
Proof. intros [? ?%Z.eqb_eq]%find_some. by rewrite list_elem_of_In. Qed.

(** A running mission's turn, with nothing of it changed before or after. *)
Lemma Tick_at a m w : wf (w_q w) → NoDup (map mi_ID (ms_missions (w_m w))) → FindMission a (w_m w) = Some m → mi_Status m = "running" →
  ∃ w1, seen a w1 = seen a w ∧ config w1 = config w ∧ wf (w_q w1) ∧ seen a (Tick clock w) = seen a (tick_one clock w1 m) ∧
    config (Tick clock w) = config w ∧ wf (w_q (Tick clock w)) ∧ map mi_ID (ms_missions (w_m (Tick clock w))) = map mi_ID (ms_missions (w_m w)).
Proof.
  intros Hw Hnd Hm Hr. apply FindMission_Some in Hm as [Hin Hid]. unfold Tick.
  assert (m ∈ RunningMissions (w_m w)) as (l1 & l2 & E)%list_elem_of_split by (apply elem_of_filter_where; split; [done|by apply String.eqb_eq]).
  assert (NoDup (map mi_ID (RunningMissions (w_m w)))) as Hnd2 by (eapply sublist_NoDup; [exact Hnd|]; apply fmap_sublist, filter_sublist).
  rewrite E in Hnd2 |- *. rewrite map_app in Hnd2. cbn [map] in Hnd2. apply NoDup_app in Hnd2 as (_ & H1 & H2%NoDup_cons). destruct H2 as [H2 _].
  rewrite foldl_app. cbn [foldl]. set (w1 := foldl (tick_one clock) w l1).
  destruct (tick_frames a l1 w Hw) as (Hs & Hc & Hw1 & Hi).
  { intros x Hx Ex. apply (H1 (mi_ID x)); [by apply list_elem_of_fmap_2|]. rewrite Ex, Hid. left. }
  fold w1 in Hs, Hc, Hw1, Hi. destruct (tick_one_keeps clock w1 m Hw1) as (Hc2 & Hw2 & Hi2).
  destruct (tick_frames a l2 (tick_one clock w1 m) Hw2) as (Hs3 & Hc3 & Hw3 & Hi3).
  { intros x Hx Ex. apply H2. rewrite Hid, <- Ex. by apply list_elem_of_fmap_2. }
  exists w1. split_and!; [done|done|done|done|congruence|done|congruence].
Qed.
Lemma Tick_idle a w : wf (w_q w) → (∀ m, FindMission a (w_m w) = Some m → mi_Status m ≠ "running") → NoDup (map mi_ID (ms_missions (w_m w))) → seen a (Tick clock w) = seen a w.
Proof.
  intros Hw Hr Hnd. apply tick_frames; [done|]. intros m Hm Ha. apply elem_of_filter_where in Hm as [Hm Hs%String.eqb_eq]. apply (Hr m); [|done].
  unfold FindMission. destruct (List.find (has_mid a) (ms_missions (w_m w))) as [x|] eqn:E.
  - apply find_some in E as [Hx%list_elem_of_In Ex%Z.eqb_eq]. f_equal. eapply NoDup_map_inj; [exact Hnd|done|done|congruence].
  - apply list_elem_of_In in Hm. eapply find_none in E; [|exact Hm]. unfold has_mid in E. by apply Z.eqb_neq in E.
Qed.
End Ticks.

(** ** How a mission ends *)

Definition fp_of (ts : list Task) (fs : list Finding) : string :=
  format_int (Z.of_nat (affected (λ t, negb (open_status (tk_Status t))) ts)) +:+ "/" +:+ format_int (Z.of_nat (length ts)) +:+ "/" +:+ format_int (Z.of_nat (length fs)).
Definition is_claimed (ts : list Task) : bool := existsb (has_status StatusClaimed) ts.
Definition blocks (block : string) (fs : list Finding) : bool := negb (String.eqb block "") && existsb (blocking block) fs.

Definition status_of (a : Z) (w : World) : option string := mi_Status <$> FindMission a (w_m w).
Definition idle_ticks (a : Z) (w : World) : Z := default 0 (en_noProgress (w_e w) !! a).
Definition last_print (a : Z) (w : World) : string := default "" (en_lastFingerprint (w_e w) !! a).

(** What the backstop does with a mission that is not drained. *)
Inductive backstop (a : Z) (w w' : World) (fp : string) (claimed : bool) : Prop :=
| bs_off : en_NoProgressTicks (w_e w) <= 0 → status_of a w' = status_of a w → backstop a w w' fp claimed
| bs_moved : fp ≠ last_print a w → status_of a w' = status_of a w → idle_ticks a w' = 0 → last_print a w' = fp → backstop a w w' fp claimed
| bs_worked : fp = last_print a w → claimed = true → status_of a w' = status_of a w → idle_ticks a w' = idle_ticks a w → last_print a w' = last_print a w →
    backstop a w w' fp claimed
| bs_idle : fp = last_print a w → claimed = false → idle_ticks a w + 1 < en_NoProgressTicks (w_e w) → status_of a w' = status_of a w →
    idle_ticks a w' = idle_ticks a w + 1 → last_print a w' = last_print a w → backstop a w w' fp claimed
| bs_failed : fp = last_print a w → claimed = false → en_NoProgressTicks (w_e w) <= idle_ticks a w + 1 → status_of a w' = Some "failed" →
    is_Some (st_halts (w_q w') !! a) → backstop a w w' fp claimed.

Section Ends.
Variable clock : nat → double.

Lemma check_backstop a m w : mi_ID m = a → FindMission a (w_m w) = Some m →
  backstop a w (checkNoProgress clock m w) (fp_of (ListTasks a (w_q w)) (Findings a FindingOpen (w_q w))) (is_claimed (ListTasks a (w_q w))).
Proof.
  intros Hid Hm. set (ts := ListTasks a (w_q w)). set (fs := Findings a FindingOpen (w_q w)). unfold checkNoProgress.
  destruct (Z.leb_spec (en_NoProgressTicks (w_e w)) 0) as [HK|HK]; [by apply bs_off|].
  assert (progressFingerprint (mi_ID m) (w_q w) = (fp_of ts fs, Z.of_nat (affected (has_status StatusClaimed) ts))) as -> by (by rewrite Hid).
  rewrite Hid. fold (last_print a w). assert (0 <? Z.of_nat (affected (has_status StatusClaimed) ts) = is_claimed ts) as ->.
  { unfold is_claimed. rewrite <- affected_pos. destruct (affected _ ts); [done|]. cbn. lia. }
  destruct (String.eqb_spec (fp_of ts fs) (last_print a w)) as [Ef|Ef]; cbn [negb].
  2:{ apply bs_moved; [done|done|unfold idle_ticks; cbn; by rewrite lookup_insert_eq|unfold last_print; cbn; by rewrite lookup_insert_eq]. }
  destruct (is_claimed ts) eqn:Ec; [by apply bs_worked|]. fold (idle_ticks a w).
  destruct (Z.leb_spec (en_NoProgressTicks (w_e w)) (idle_ticks a w + 1)) as [Hn|Hn].
  - apply bs_failed; [done|done|done| |].
    + unfold status_of, failMission. cbn [w_m complete with_engine with_queue set_status_now]. rewrite Hid, FindMission_status, Z.eqb_refl. cbn. by rewrite Hm.
    + cbn. rewrite Hid, lookup_insert_eq. by eexists.
  - apply bs_idle; [done|done|done|done|unfold idle_ticks; cbn; by rewrite lookup_insert_eq|done].
Qed.

Lemma check_halts a m w : mi_ID m = a → FindMission a (w_m w) = Some m →
  status_of a (checkNoProgress clock m w) = Some "failed" ∨ st_halts (w_q (checkNoProgress clock m w)) !! a = st_halts (w_q w) !! a.
Proof.
  intros Hid Hm. unfold checkNoProgress. destruct (_ <=? 0); [by right|]. destruct (progressFingerprint _ _). destruct (negb _); [by right|]. destruct (0 <? _); [by right|].
  destruct (_ <=? _); [left|by right]. unfold status_of, failMission. cbn [w_m complete with_engine with_queue set_status_now]. by rewrite Hid, FindMission_status, Z.eqb_refl, Hm.
Qed.

Definition end_status (block : string) (fs : list Finding) : string := if blocks block fs then "needs-review" else "done".

(** A running mission's tick. *)
Record ticked (a : Z) (w w' : World) : Prop := {
  td_rows : ListTasks a (w_q w') = map (next_row (ListTasks a (w_q w))) (ListTasks a (w_q w));
  td_quiet : (∀ t, t ∈ ListTasks a (w_q w) → tk_Status t = StatusPending → tk_Status (next_row (ListTasks a (w_q w)) t) ≠ StatusCancelled) →
    Findings a FindingOpen (w_q w') = Findings a FindingOpen (w_q w);
  td_ended : drained (ListTasks a (w_q w')) = true → status_of a w' = Some (end_status (en_ConvergeBlockSeverity (w_e w)) (Findings a FindingOpen (w_q w')));
  td_open : drained (ListTasks a (w_q w')) = false →
    backstop a w w' (fp_of (ListTasks a (w_q w')) (Findings a FindingOpen (w_q w'))) (is_claimed (ListTasks a (w_q w')));
  td_halts : status_of a w' = Some "failed" ∨ st_halts (w_q w') !! a = st_halts (w_q w) !! a;
  td_told : a ≠ 0 → ∀ t, t ∈ ListTasks a (w_q w) → tk_Status t = StatusPending → forallb (done_key (ListTasks a (w_q w))) (tk_Deps t) = false →
    existsb (dead_key (ListTasks a (w_q w))) (tk_Deps t) = true → ∃ f, f ∈ Findings a FindingOpen (w_q w') ∧ swept_finding (tk_Key t) f }.

Lemma advanced_findings a w : wf (w_q w) → let ts := ListTasks a (w_q w) in let fs' := Findings a FindingOpen (w_q (advanced clock a w)) in
  ((∀ t, t ∈ ts → tk_Status t = StatusPending → tk_Status (next_row ts t) ≠ StatusCancelled) → fs' = Findings a FindingOpen (w_q w)) ∧
  (a ≠ 0 → ∀ t, t ∈ ts → tk_Status t = StatusPending → forallb (done_key ts) (tk_Deps t) = false → existsb (dead_key ts) (tk_Deps t) = true →
    ∃ f, f ∈ fs' ∧ swept_finding (tk_Key t) f).
Proof.
  intros Hw ts fs'. destruct (promote_store a (w_q w) Hw) as (Hw1 & Ef & _).
  pose proof (sweep_loop clock a (status_map (promoted_tasks a w)) (promoted_tasks a w) (with_queue w (PromoteReady a (w_q w)).2)) as [_ _ _ _ (new & Hf & _ & Hnil) Htold].
  change (foldl _ _ _) with (advanced clock a w) in Hf, Htold. cbn [with_queue w_q] in Hf. rewrite Ef in Hf.
  assert (promoted_tasks a w = update_where (promoting a w) (set_status StatusReady) ts) as Hp by (by apply promote_own). split.
  - intros Hno. unfold fs', Findings. rewrite Hf, Hnil; [by rewrite app_nil_r|].
    destruct (List.filter (blocked (status_map (promoted_tasks a w))) (promoted_tasks a w)) as [|x l] eqn:E; [done|]. assert (x ∈ x :: l) as Hx by left. rewrite <- E in Hx.
    apply elem_of_filter_where in Hx as [Hx Hb]. rewrite Hp in Hx. apply elem_of_update_where in Hx as (t & Ht & ->).
    unfold blocked in Hb. rewrite (existsb_ext_in _ _ _ (λ d, dead_promoted a w d Hw)) in Hb. destruct (promoting a w t) eqn:Et; [done|].
    pose proof Hb as [Hpend _]%andb_prop. apply has_status_eq in Hpend. destruct (Hno t Ht Hpend). unfold next_row. pose proof (promoting_own a w t) as Ep. fold ts in Ep, Hb. by rewrite <- Ep, Et, Hb.
  - intros Ha t Ht Hs Hd Hk. apply Htold; [done| |].
    + rewrite Hp. apply elem_of_update_where. exists t. split; [done|]. rewrite promoting_own. fold ts. by rewrite Hd, andb_false_r.
    + unfold blocked. rewrite (existsb_ext_in _ _ _ (λ d, dead_promoted a w d Hw)). fold ts. rewrite Hk, andb_true_r. by apply has_status_eq.
Qed.
Lemma own_turn a m w : wf (w_q w) → mi_ID m = a → FindMission a (w_m w) = Some m → ticked a w (tick_one clock w m).
Proof.
  intros Hw Hid Hm. pose proof (advanced_tasks clock a w Hw) as Hts. destruct (advanced_findings a w Hw) as [Hq Ht].
  destruct (advanced_same clock a w Hw) as (Em & Ee & Eh & Hw1). pose proof (tick_one_cases clock w m) as E. cbv zeta in *. rewrite Hid in E.
  set (w1 := advanced clock a w) in *. rewrite MissionDone_drained in E. set (w2 := tick_one clock w m) in *.
  assert (ListTasks a (w_q w2) = ListTasks a (w_q w1) ∧ Findings a FindingOpen (w_q w2) = Findings a FindingOpen (w_q w1)) as [E1 E2].
  { rewrite E. destruct (negb _); [|by destruct (blockingFindingOpen _ _)]. destruct (checkNoProgress_keeps clock m w1) as (_ & Eq & _).
    unfold ListTasks, Findings. by rewrite Eq. }
  split; rewrite ?E1, ?E2; try done; [intros Hd; rewrite Hd in E; cbn [negb] in E..|].
  - unfold status_of, end_status, blocks. unfold blockingFindingOpen in E. rewrite Ee in E. set (fs := Findings a FindingOpen (w_q w1)) in *.
    destruct (String.eqb (en_ConvergeBlockSeverity (w_e w)) ""); cbn [negb andb] in *; [|destruct (existsb _ fs)];
      rewrite E; cbn [w_m complete with_engine set_status_now]; rewrite FindMission_status, Z.eqb_refl, Em, Hm; done.
  - rewrite E. pose proof (check_backstop a m w1 Hid) as Hb. rewrite Em in Hb. specialize (Hb Hm).
    assert (status_of a w1 = status_of a w ∧ idle_ticks a w1 = idle_ticks a w ∧ last_print a w1 = last_print a w ∧ en_NoProgressTicks (w_e w1) = en_NoProgressTicks (w_e w)) as (F1 & F2 & F3 & F4).
    { unfold status_of, idle_ticks, last_print. by rewrite Em, Ee. }
    destruct Hb; rewrite ?F1, ?F2, ?F3, ?F4 in *; [by apply bs_off|by apply bs_moved|by apply bs_worked|by apply bs_idle|by apply bs_failed].
  - rewrite E, <- Eh. destruct (negb _); [|right; by destruct (blockingFindingOpen _ _)]. apply check_halts; [done|]. by rewrite Em.
Qed.

Lemma seen_fields a w w' : seen a w' = seen a w → FindMission a (w_m w') = FindMission a (w_m w) ∧ ListTasks a (w_q w') = ListTasks a (w_q w) ∧
  Findings a FindingOpen (w_q w') = Findings a FindingOpen (w_q w) ∧ st_halts (w_q w') !! a = st_halts (w_q w) !! a ∧
  idle_ticks a w' = idle_ticks a w ∧ last_print a w' = last_print a w.
Proof. unfold seen, idle_ticks, last_print. intros [= -> -> -> -> -> ->]. done. Qed.

Lemma backstop_seen a w w1 w2 w' fp c : seen a w1 = seen a w → config w1 = config w → seen a w' = seen a w2 → backstop a w1 w2 fp c → backstop a w w' fp c.
Proof.
  intros (F1 & _ & _ & F4 & F5 & F6)%seen_fields [= _ C] (G1 & _ & _ & G4 & G5 & G6)%seen_fields Hb.
  assert (status_of a w1 = status_of a w) as F by (unfold status_of; by rewrite F1). assert (status_of a w' = status_of a w2) as G by (unfold status_of; by rewrite G1).
  destruct Hb; [apply bs_off|apply bs_moved|apply bs_worked|apply bs_idle|apply bs_failed]; rewrite ?G, ?G4, ?G5, ?G6, <- ?F, <- ?F5, <- ?F6, <- ?C; done.
Qed.

Lemma Tick_ticked w a m : wf (w_q w) → NoDup (map mi_ID (ms_missions (w_m w))) → FindMission a (w_m w) = Some m → mi_Status m = "running" →
  ticked a w (Tick clock w).
Proof.
  intros Hw Hnd Hm Hr. destruct (Tick_at clock a m w Hw Hnd Hm Hr) as (w1 & Hs & Hc & Hw1 & Hs' & _).
  pose proof Hs as Hs0. pose proof Hs' as Hs0'. apply seen_fields in Hs as (F1 & F2 & F3 & F4 & _). apply seen_fields in Hs' as (G1 & G2 & G3 & G4 & _).
  unfold config in Hc. injection Hc as C1 C2.
  assert (ticked a w1 (tick_one clock w1 m)) as [H1 H2 H3 H4 H5 H6].
  { apply own_turn; [done|by apply FindMission_Some in Hm as [_ ?]|congruence]. }
  split; rewrite ?G2, ?G3, <- ?F2, <- ?F3; try done.
  - intros Hd. unfold status_of in *. rewrite G1, <- C1. by apply H3.
  - intros Hd. eapply backstop_seen; [exact Hs0|by unfold config; rewrite C1, C2|exact Hs0'|]. by apply H4.
  - unfold status_of in *. by rewrite G1, G4, <- F4.
Qed.

(** C18. What a tick does with a running mission, whatever the other missions, when the tables are well formed and the missions have ids of their own. Its pending tasks whose dependencies
    are all done become ready; those with a dependency that no task has, or that was cancelled or superseded, are cancelled and
    an open finding names each. When no task is open then, the mission is done, or needs review if
    a finding at or above the threshold is open; else it runs on, or fails, by the backstop, and only a failed mission is halted. *)
Theorem Tick_outcome w a m : wf (w_q w) → NoDup (map mi_ID (ms_missions (w_m w))) → FindMission a (w_m w) = Some m → mi_Status m = "running" →
  ticked a w (Tick clock w).
Proof. apply Tick_ticked. Qed.

(** *** No mission runs for ever *)

Lemma affected_map_le {A} (q : A → bool) (g : A → A) l : (∀ x, x ∈ l → q (g x) = true → q x = true) → (affected q (map g l) <= affected q l)%nat.
Proof.
  intros H. unfold affected. induction l as [|x l IH]; [done|]. cbn [map List.filter]. specialize (IH (λ y Hy, H y ltac:(by right))). specialize (H x ltac:(left)).
  destruct (q (g x)), (q x); cbn; try lia; by specialize (H eq_refl).
Qed.
Lemma affected_map_lt {A} (q : A → bool) (g : A → A) l x : (∀ x, x ∈ l → q (g x) = true → q x = true) → x ∈ l → q x = true → q (g x) = false → (affected q (map g l) < affected q l)%nat.
Proof.
  intros H Hx Hq Hg. apply list_elem_of_split in Hx as (l1 & l2 & ->). unfold affected in *. rewrite map_app, !List.filter_app, !length_app. cbn [map List.filter].
  rewrite Hq, Hg. cbn. pose proof (affected_map_le q g l1) as H1. pose proof (affected_map_le q g l2) as H2. unfold affected in *.
  specialize (H1 (λ y Hy, H y ltac:(apply elem_of_app; by left))). specialize (H2 (λ y Hy, H y ltac:(apply elem_of_app; right; by right))). lia.
Qed.
Lemma affected_map_same {A} (q : A → bool) (g : A → A) l : (∀ x, x ∈ l → q (g x) = q x) → affected q (map g l) = affected q l.
Proof.
  intros H. unfold affected. induction l as [|x l IH]; [done|]. cbn [map List.filter]. specialize (IH (λ y Hy, H y ltac:(by right))). rewrite (H x) by left.
  destruct (q x); cbn; by rewrite IH.
Qed.

Lemma next_row_status ts t : tk_Status (next_row ts t) = tk_Status t ∨ tk_Status t = StatusPending ∧ (tk_Status (next_row ts t) = StatusReady ∨ tk_Status (next_row ts t) = StatusCancelled).
Proof.
  unfold next_row. destruct (has_status StatusPending t) eqn:E; cbn [andb]; [apply has_status_eq in E|by left].
  destruct (forallb _ _); [right; by auto|]. destruct (existsb _ _); [right; by auto|by left].
Qed.
Lemma next_unclaimed ts l : is_claimed l = false → is_claimed (map (next_row ts) l) = false.
Proof.
  unfold is_claimed. intros H. apply not_true_iff_false. intros (t & Ht & Hc%has_status_eq)%existsb_exists. apply in_map_iff in Ht as (u & <- & Hu).
  apply not_true_iff_false in H. apply H, existsb_exists. exists u. split; [done|]. apply has_status_eq. destruct (next_row_status ts u) as [|[? [|]]]; congruence.
Qed.

(** How many more ticks a mission nobody works on can run. *)
Definition patience (a : Z) (w : World) : Z :=
  let ts := ListTasks a (w_q w) in let K := en_NoProgressTicks (w_e w) in
  Z.of_nat (open_count ts) * (K + 1) + (if String.eqb (fp_of ts (Findings a FindingOpen (w_q w))) (last_print a w) then Z.max 1 (K - idle_ticks a w) else K + 1).

Lemma tick_patience a w w' : ticked a w w' → config w' = config w → 0 < en_NoProgressTicks (w_e w) → 0 <= idle_ticks a w → is_claimed (ListTasks a (w_q w)) = false →
  status_of a w = Some "running" → status_of a w' = Some "running" →
  patience a w' < patience a w ∧ 0 < patience a w' ∧ 0 <= idle_ticks a w' ∧ is_claimed (ListTasks a (w_q w')) = false.
Proof.
  intros [Hr Hq He Ho _ _] [= _ HK] Hpos Hi Hc Hs Hs'. destruct (drained (ListTasks a (w_q w'))) eqn:Ed.
  { specialize (He eq_refl). rewrite Hs' in He. unfold end_status in He. by destruct (blocks _ _). }
  specialize (Ho eq_refl). unfold patience. rewrite HK. set (ts := ListTasks a (w_q w)) in *. set (ts' := ListTasks a (w_q w')) in *. set (K := en_NoProgressTicks (w_e w)) in *.
  set (fp' := fp_of ts' _) in *. assert (is_claimed ts' = false) as Hc' by (rewrite Hr; by apply next_unclaimed).
  assert ((if String.eqb fp' (last_print a w') then Z.max 1 (K - idle_ticks a w') else K + 1) = K - idle_ticks a w' ∧ 0 <= idle_ticks a w' ∧ idle_ticks a w' < K ∧
    (idle_ticks a w' = 0 ∧ fp' ≠ last_print a w ∨ idle_ticks a w' = idle_ticks a w + 1 ∧ fp' = last_print a w)) as (-> & Hi' & HiK & Hor).
  { destruct Ho as [?|? _ E1 E2|? E|E1 _ ? _ E2 E3|_ _ _ E]; [lia| |congruence| |congruence].
    - rewrite E2, String.eqb_refl, E1. split_and!; [lia|lia|lia|by left].
    - rewrite E3, <- E1, String.eqb_refl, E2. split_and!; [lia|lia|lia|by right]. }
  split; [|split; [nia|done]]. assert (∀ x, x ∈ ts → open_status (tk_Status (next_row ts x)) = true → open_status (tk_Status x) = true) as Hle.
  { intros x _. destruct (next_row_status ts x) as [->|[-> _]]; done. }
  destruct (decide (Exists (λ t, tk_Status t = StatusPending ∧ tk_Status (next_row ts t) = StatusCancelled) ts)) as [(t & Ht & Hp & Hx)%Exists_exists|Hno].
  - assert (open_count ts' < open_count ts)%nat as Hlt by (rewrite Hr; eapply affected_map_lt; [exact Hle|exact Ht|by rewrite Hp|by rewrite Hx]).
    destruct (String.eqb _ (last_print a w)) eqn:E; nia.
  - assert (∀ t, t ∈ ts → tk_Status t = StatusPending → tk_Status (next_row ts t) ≠ StatusCancelled) as Hno'.
    { intros t Ht Hp Hx. apply Hno. apply Exists_exists. by exists t. }
    assert (∀ x, x ∈ ts → open_status (tk_Status (next_row ts x)) = open_status (tk_Status x)) as Hsame.
    { intros x Hx. destruct (next_row_status ts x) as [->|[Hp [->|Hb]]]; [done|by rewrite Hp|by destruct (Hno' x Hx Hp)]. }
    assert (open_count ts' = open_count ts) as -> by (rewrite Hr; by apply affected_map_same).
    assert (fp_of ts (Findings a FindingOpen (w_q w)) = fp') as ->.
    { unfold fp', fp_of. rewrite Hq by done. rewrite Hr at 1. rewrite Hr, length_map. f_equal. f_equal. f_equal. symmetry. apply affected_map_same. intros x Hx. by rewrite Hsame. }
    destruct (String.eqb_spec fp' (last_print a w)) as [E|E]; destruct Hor as [[? ?]|[? ?]]; try done; lia.
Qed.

Definition ended (s : string) : Prop := s = "done" ∨ s = "needs-review" ∨ s = "failed".
Fixpoint ticks (n : nat) (w : World) : World := match n with O => w | S n => ticks n (Tick clock w) end.

(** C16. With the backstop on, no mission that nobody works on stays running for ever. If the backstop allows K > 0 ticks without progress (with 0 it is
    off, and a stuck mission may run for ever), the tables are well formed and no task of the mission is claimed, then a running mission of n open tasks is, after
    at most (K + 1)(n + 1) ticks and nothing but ticks, done, in need of review, or failed. *)
Theorem quiet_missions_end w a m : wf (w_q w) → NoDup (map mi_ID (ms_missions (w_m w))) → FindMission a (w_m w) = Some m → mi_Status m = "running" →
  0 < en_NoProgressTicks (w_e w) → 0 <= idle_ticks a w → is_claimed (ListTasks a (w_q w)) = false →
  ∃ n s, Z.of_nat n <= (Z.of_nat (open_count (ListTasks a (w_q w))) + 1) * (en_NoProgressTicks (w_e w) + 1) ∧ status_of a (ticks n w) = Some s ∧ ended s.
Proof.
  intros Hw Hnd Hm Hs HK Hi Hc.
  assert (∀ k w m, wf (w_q w) → NoDup (map mi_ID (ms_missions (w_m w))) → FindMission a (w_m w) = Some m → mi_Status m = "running" →
    0 < en_NoProgressTicks (w_e w) → 0 <= idle_ticks a w → is_claimed (ListTasks a (w_q w)) = false → patience a w <= Z.of_nat k →
    ∃ n s, Z.of_nat n <= Z.max 1 (Z.of_nat k) ∧ status_of a (ticks n w) = Some s ∧ ended s) as H.
  { clear. induction k as [|k IH]; intros w m Hw Hnd Hm Hs HK Hi Hc Hp;
      pose proof (Tick_ticked w a m Hw Hnd Hm Hs) as Ht; destruct (Tick_at clock a m w Hw Hnd Hm Hs) as (_ & _ & _ & _ & _ & Hc' & Hw' & Hids).
    all: assert (status_of a w = Some "running") as Hr by (unfold status_of; by rewrite Hm, <- Hs).
    all: assert (status_of a (Tick clock w) = Some "running" ∨ ∃ s, status_of a (Tick clock w) = Some s ∧ ended s) as [Hr'|(s & ? & ?)];
      [|destruct (tick_patience _ _ _ Ht Hc' HK Hi Hc Hr Hr') as (Hlt & Hpos & Hi' & Hcl)|exists 1%nat, s; split_and!; [lia|done|done]].
    all: try (destruct (drained (ListTasks a (w_q (Tick clock w)))) eqn:Ed;
      [right; eexists; split; [by apply (td_ended _ _ _ Ht)|]; unfold ended, end_status; destruct (blocks _ _); auto
      |destruct (td_open _ _ _ Ht Ed) as [|? E|? ? E|? ? ? E|? ? ? E]; [lia|rewrite E; by left..|right; eexists; split; [exact E|]; unfold ended; auto]]).
    - lia.
    - unfold status_of in Hr'. destruct (FindMission a (w_m (Tick clock w))) as [m'|] eqn:Hm'; [|done]. injection Hr' as Hr'.
      destruct (IH (Tick clock w) m') as (n & s & ? & ? & ?); try done; [by rewrite Hids|by injection Hc' as _ ->|lia|].
      exists (S n), s. split_and!; [lia|done|done]. }
  destruct (H (Z.to_nat (patience a w)) w m Hw Hnd Hm Hs HK Hi Hc) as (n & s & ? & ? & ?); [lia|]. exists n, s. split_and!; [|done|done].
  unfold patience in *. destruct (String.eqb _ _); nia.
Qed.
End Ends.
