(* ===== verification/MissionPlan.v ===== *)
(** * From a plan to a mission, and steering it

    A plan whose phases depend on earlier phases becomes a sound plan of tasks, so a mission created from it cannot
    hang ([created_plan_sound]); and whatever steering, ticks and queue operations happen, no
    task of a paused, cancelled or failed mission is handed out ([no_work_while_halted]). *)
From S2P Require Import Prelude GoLib GoText JsonText Float64 Queue QueueFacts QueuePlan QueueSound Mission MissionFacts.
Local Open Scope string_scope.
Local Open Scope list_scope.
Local Open Scope Z_scope.

(** ** Keys *)

Lemma last_sep_inj c n a n' b : mem_ascii c a = false → mem_ascii c b = false → n +:+ String c a = n' +:+ String c b → n = n' ∧ a = b.
Proof.
  intros Ha Hb. revert n'. induction n as [|x n IH]; intros [|y n']; autorewrite with str.
  - by intros [= ->].
  - intros [= <- E]. exfalso. rewrite E, mem_ascii_app in Ha. cbn in Ha. by rewrite Ascii.eqb_refl, orb_true_r in Ha.
  - intros [= -> E]. exfalso. rewrite <- E, mem_ascii_app in Hb. cbn in Hb. by rewrite Ascii.eqb_refl, orb_true_r in Hb.
  - intros [= -> E]. apply IH in E as [-> ->]. done.
Qed.
Lemma taskKey_inj n i n' j : taskKey n i = taskKey n' j → n = n' ∧ i = j.
Proof.
  assert (∀ z, mem_ascii "#" (format_int z) = false) as H by (intros z; apply format_int_no_char; by intros []).
  unfold taskKey. cbn [String.append]. intros [-> E]%last_sep_inj; [|apply H..]. split; [done|]. by apply format_int_inj.
Qed.
Lemma elem_of_phase_keys p k : k ∈ phase_keys p ↔ ∃ i, i ∈ upto (phase_count p) ∧ k = taskKey (ps_Name p) i.
Proof. unfold phase_keys. rewrite list_elem_of_fmap. naive_solver. Qed.
Lemma NoDup_phase_keys p : NoDup (phase_keys p).
Proof.
  unfold phase_keys, upto. assert (Inj eq eq (taskKey (ps_Name p))) by (by intros i j [_ ?]%taskKey_inj).
  apply (NoDup_fmap_2 _). assert (Inj eq eq Z.of_nat) by (intros ? ? ?; lia). apply (NoDup_fmap_2 _). apply NoDup_ListNoDup, seq_NoDup.
Qed.
Lemma NoDup_plan_keys plan : NoDup (map ps_Name plan) → NoDup (List.concat (map phase_keys plan)).
Proof.
  induction plan as [|p plan IH]; [constructor|]. cbn [map List.concat]. intros [Hp Hnd]%NoDup_cons. apply NoDup_app. split_and!; [apply NoDup_phase_keys| |by apply IH].
  intros k (i & _ & ->)%elem_of_phase_keys Hk. apply list_elem_of_In, in_concat in Hk as (l & Hl & Hk). apply in_map_iff in Hl as (q & <- & Hq).
  apply list_elem_of_In, elem_of_phase_keys in Hk as (j & _ & [E _]%taskKey_inj). apply Hp. rewrite E. apply list_elem_of_fmap_2. by apply list_elem_of_In.
Qed.

(** ** Plans in order *)

(** Names are distinct and a phase depends on phases before it. *)
Definition well_ordered (plan : list PhaseSpec) : Prop :=
  NoDup (map ps_Name plan) ∧ ∀ pre p rest d, plan = pre ++ p :: rest → d ∈ ps_DependsOn p → d ∈ map ps_Name pre.

Lemma ordered_app (P : string → Prop) l1 l2 : ordered P l1 → ordered (λ k, P k ∨ k ∈ map ts_Key l1) l2 → ordered P (l1 ++ l2).
Proof.
  revert P. induction l1 as [|sp l1 IH]; intros P; cbn [app map].
  - intros _. apply ordered_ext. intros k [?|?%elem_of_nil]; done.
  - cbn [ordered]. intros [H1 H2] H3. split; [done|]. apply IH; [done|]. eapply ordered_ext; [|exact H3]. intros k. cbn beta. rewrite elem_of_cons. tauto.
Qed.
Lemma ordered_all (P : string → Prop) specs : (∀ sp d, sp ∈ specs → d ∈ ts_DependsOn sp → P d) → ordered P specs.
Proof.
  revert P. induction specs as [|sp specs IH]; intros P H; [done|]. split; [intros d Hd; apply (H sp d); [left|done]|]. apply IH. intros sp' d Hsp Hd.
  right. apply (H sp' d); [by right|done].
Qed.
Lemma phase_tasks_keys plan p : map ts_Key (phase_tasks plan p) = phase_keys p.
Proof. unfold phase_tasks. rewrite map_map. cbn. apply map_id. Qed.
Lemma planToTasks_keys plan : map ts_Key (planToTasks plan) = List.concat (map phase_keys plan).
Proof. unfold planToTasks. rewrite concat_map, map_map. f_equal. apply map_ext. apply phase_tasks_keys. Qed.

Lemma planToTasks_ordered plan : well_ordered plan → ordered (λ _, False) (planToTasks plan).
Proof.
  intros [Hnd Hord]. assert (∀ l pre, plan = pre ++ l → ordered (λ k, k ∈ List.concat (map phase_keys pre)) (List.concat (map (phase_tasks plan) l))) as H.
  { induction l as [|p l IH]; intros pre E; [done|]. cbn [map List.concat]. apply ordered_app.
    - apply ordered_all. intros sp d Hsp Hd. unfold phase_tasks in Hsp. apply list_elem_of_fmap in Hsp as (key & -> & _). cbn [ts_DependsOn] in Hd.
      apply list_elem_of_In, in_concat in Hd as (ks & Hks & Hd). apply in_map_iff in Hks as (dn & <- & Hdn%list_elem_of_In).
      pose proof (Hord pre p l dn E Hdn) as Hn. apply list_elem_of_fmap in Hn as (q0 & -> & Hq0).
      unfold keysByPhase in Hd. apply in_concat in Hd as (ks & Hks & Hd). apply in_map_iff in Hks as (q & <- & Hq). apply filter_In in Hq as [Hq%list_elem_of_In Eq%String.eqb_eq].
      assert (q = q0) as ->. { eapply NoDup_map_inj; [exact Hnd|done| |done]. rewrite E. apply elem_of_app. by left. }
      apply list_elem_of_In, in_concat. exists (phase_keys q0). split; [|done]. apply in_map. by apply list_elem_of_In.
    - eapply ordered_ext; [|apply (IH (pre ++ [p])); by rewrite E, <- app_assoc]. intros k. cbn beta. rewrite map_app, concat_app, elem_of_app. cbn [map List.concat].
      rewrite app_nil_r. rewrite phase_tasks_keys. tauto. }
  eapply ordered_ext; [|exact (H plan [] eq_refl)]. by intros k ?%elem_of_nil.
Qed.

Lemma insert_all_ok m specs now : ∀ i ts, NoDup (map ts_Key specs) → (∀ k, k ∈ map ts_Key specs → taken m k ts = false) →
  ∃ ts', insert_all m specs now i ts = Some ts' ∧ map tk_Key (List.filter (in_mission m) ts') = map tk_Key (List.filter (in_mission m) ts) ++ map ts_Key specs.
Proof.
  induction specs as [|sp rest IH]; intros i ts; cbn [map insert_all].
  { intros _ _. exists ts. split; [done|]. by rewrite app_nil_r. }
  intros [Hn Hnd]%NoDup_cons Ht. unfold insert_task. rewrite (Ht (ts_Key sp)) by left. set (t := mkTask _ _ _ _ _ _ _ _ _ _ _ _).
  destruct (IH (S i) (ts ++ [t])) as (ts' & -> & E); [done| |].
  { intros k Hk. specialize (Ht k ltac:(by right)). apply not_true_iff_false in Ht. apply not_true_iff_false. intros H. apply Ht. rewrite taken_spec in *.
    rewrite map_app, elem_of_app in H. destruct H as [H|H%list_elem_of_singleton]; [done|]. injection H as ->. done. }
  exists ts'. split; [done|]. rewrite E, filter_mission_app, map_app. assert (in_mission m t = true) as -> by (by apply in_mission_eq). cbn. by rewrite <- app_assoc.
Qed.

Lemma insert_phases_missions mid plan : ∀ pos ms, ms_missions (insert_phases mid pos plan ms) = ms_missions ms ∧
  ms_lastMission (insert_phases mid pos plan ms) = ms_lastMission ms.
Proof. induction plan as [|p plan IH]; intros pos ms; cbn; [done|]. by destruct (IH (pos + 1) (mkMStore (ms_missions ms) (ms_phases ms ++ [phase_row (ms_lastPhase ms + 1) mid pos p]) (ms_lastMission ms) (ms_lastPhase ms + 1))) as [-> ->]. Qed.

(** A mission created from a plan in order is sound from the start. Creating it succeeds, its row is running, its tasks are
    the plan's, one for each count of each phase, and they form a sound plan: with [missions_progress], it cannot hang. *)
Theorem created_plan_sound directive plan rr now tnow ms q : wf q → well_ordered plan → plan ≠ [] → (∀ t, t ∉ ListTasks (ms_lastMission ms + 1) q) →
  ∃ ms' q', CreateMission directive plan rr true now tnow ms q = Ok (ms_lastMission ms + 1, None, ms', q') ∧ wf q' ∧
    sound_plan (ListTasks (ms_lastMission ms + 1) q') ∧ map tk_Key (ListTasks (ms_lastMission ms + 1) q') = List.concat (map phase_keys plan) ∧
    ∀ m, m ∈ ms_missions ms' ↔ m ∈ ms_missions ms ∨ m = mkMission (ms_lastMission ms + 1) directive "running" 1 rr now now "" "" "" "" 0 "" false false.
Proof.
  intros Hw Hord Hne Hfree. set (mid := ms_lastMission ms + 1) in *. pose proof Hord as [Hnd _].
  assert (ListTasks mid q = []) as Hnil by (destruct (ListTasks mid q) as [|t l]; [done|by destruct (Hfree t); left]).
  destruct (insert_all_ok mid (planToTasks plan) tnow 0 (st_tasks q)) as (ts & Hins & Hkeys).
  { rewrite planToTasks_keys. by apply NoDup_plan_keys. }
  { intros k _. apply not_true_iff_false. intros (t & Ht & Hin)%taken_spec%list_elem_of_fmap. injection Ht as Em _. apply (Hfree t). by apply elem_of_ListTasks. }
  unfold CreateMission. destruct plan as [|p plan]; [done|]. set (pl := p :: plan) in *. fold mid. unfold Enqueue. rewrite Hins. do 2 eexists. split; [reflexivity|]. split_and!.
  - eapply (wf_insert_all mid); [exact Hins|exact Hw].
  - eapply plan_insert_all; [exact Hins| |].
    + intros _. fold (ListTasks mid q). rewrite Hnil. eapply ordered_ext; [|by apply planToTasks_ordered]. done.
    + fold (ListTasks mid q). rewrite Hnil. split; [by intros ? ? ?%elem_of_nil|by intros ? ? ?%elem_of_nil|]. intros k. constructor. by intros b (t & ?%elem_of_nil & _).
  - unfold ListTasks at 1. cbn [st_tasks with_tasks]. rewrite Hkeys. fold (ListTasks mid q). by rewrite Hnil, planToTasks_keys.
  - intros m. rewrite (proj1 (insert_phases_missions _ _ _ _)). cbn. rewrite elem_of_app, list_elem_of_singleton. done.
Qed.

(** ** Steering *)

Definition halted_status (s : string) : Prop := s = "paused" ∨ s = "cancelled" ∨ s = "failed".

(** The row a mission has is of a halted status exactly when the queue halts it; ids are distinct and were given out. *)
Record steered (w : World) : Prop := {
  st_wf : wf (w_q w);
  st_ids : NoDup (map mi_ID (ms_missions (w_m w)));
  st_given : ∀ m, m ∈ ms_missions (w_m w) → mi_ID m <= ms_lastMission (w_m w);
  st_known : ∀ a, is_Some (st_halts (w_q w) !! a) → a <= ms_lastMission (w_m w);
  st_agree : ∀ a s, status_of a w = Some s → halted_status s ↔ is_Some (st_halts (w_q w) !! a) }.

Inductive MOp :=
| MCreate (directive : string) (plan : list PhaseSpec) (rr withQueue : bool) (now : double) (tnow : nat → double)
| MPause (id : Z) (now : double)
| MResume (id : Z) (now : double)
| MCancel (id : Z) (now : double)
| MResolve (id : Z) (block : string) (withQueue : bool) (now : double)
| MTick
| MDelete (id : Z)
| MQueue (op : Op).

Definition steer (w : World) (r : result MissionErr (MStore * Store)) : World :=
  match r with Ok (ms, q) => mkWorld ms q (w_e w) (w_reads w) | Err _ => w end.
Definition run_mop (clock : nat → double) (op : MOp) (w : World) : World :=
  match op with
  | MCreate d plan rr wq now tnow =>
      match CreateMission d plan rr wq now tnow (w_m w) (w_q w) with Ok (_, _, ms, q) => mkWorld ms q (w_e w) (w_reads w) | Err _ => w end
  | MPause id now => steer w (PauseMission id now (w_m w) (w_q w))
  | MResume id now => steer w (ResumeMission id now (w_m w) (w_q w))
  | MCancel id now => steer w (CancelMission id now (w_m w) (w_q w))
  | MResolve id block wq now => steer w (match ResolveNeedsReview id block wq now (w_m w) (w_q w) with Ok ms => Ok (ms, w_q w) | Err e => Err e end)
  | MTick => Tick clock w
  | MDelete id => mkWorld (DeleteMission id (w_m w)) (w_q w) (w_e w) (w_reads w)
  | MQueue op => with_queue w (run_op op (w_q w))
  end.
Definition run_mops (clock : nat → double) (ops : list MOp) (w : World) : World := foldl (λ w op, run_mop clock op w) w ops.

(** The calls of the queue that halt, release or prune a mission are the steering's own. *)
Definition leaves_halts (op : MOp) : Prop := match op with MQueue (OpHalt _ _) | MQueue (OpUnhalt _) | MQueue (OpPrune _) => False | _ => True end.

Lemma op_halts op st : match op with OpHalt _ _ | OpUnhalt _ | OpPrune _ => False | _ => True end → st_halts (run_op op st) = st_halts st.
Proof.
  intros Ho. destruct op; try done; cbn [run_op].
  - unfold Enqueue. by destruct (insert_all _ _ _ _ _).
  - unfold PromoteReady. by destruct (foldl _ _ _).
  - unfold ClaimNextAs. destruct (first_by _ _); [done|]. by destruct (first_by _ _).
  - unfold ReclaimIdle. by destruct (foldl _ _ _).
  - unfold Reap. by destruct (foldl _ _ _).
  - unfold CancelTaskGuarded. destruct (TaskByID _ _); [|done]. destruct (subtree_of _ _) as [ns|]; [|done]. destruct (negb _ && _); [done|].
    assert (∀ acc : list Z * Store, st_halts (foldl cancel_one acc ns).2 = st_halts acc.2) as H.
    { induction ns as [|n ns IH]; intros acc; [done|]. cbn [foldl]. rewrite IH. done. }
    specialize (H ([], st)). by destruct (foldl _ _ _).
  - unfold SupersedeTask. destruct (TaskByID _ _); [|done]. destruct (uniqueKeyTx _ _ _); [|done]. by destruct (insert_task _ _ _ _ _).
  - unfold RetargetDependents. destruct (retarget_plan _ _ _ _) as [[]|]; [|done..]. by destruct (foldl _ _ _).
  - unfold AddFinding. by repeat (case_match; [done|]).
  - unfold SetFindingStatus. by case_match.
Qed.

(** A change of one mission's status with the halt that goes with it. *)
Lemma steered_set w w' a s : steered w → wf (w_q w') → map mi_ID (ms_missions (w_m w')) = map mi_ID (ms_missions (w_m w)) → ms_lastMission (w_m w') = ms_lastMission (w_m w) →
  (∀ b, b ≠ a → status_of b w' = status_of b w ∧ (is_Some (st_halts (w_q w') !! b) ↔ is_Some (st_halts (w_q w) !! b))) →
  status_of a w' = Some s → (halted_status s ↔ is_Some (st_halts (w_q w') !! a)) → steered w'.
Proof.
  intros [Hw Hnd Hg Hk Ha] Hw' Hids Hlast Ho Hs Hh. assert (∀ b, b ∈ map mi_ID (ms_missions (w_m w')) → b <= ms_lastMission (w_m w)) as Hle.
  { rewrite Hids. intros b (m & -> & Hm)%list_elem_of_fmap. by apply Hg. }
  split; [done|by rewrite Hids| | |].
  - intros m Hm. rewrite Hlast. apply Hle. by apply list_elem_of_fmap_2.
  - intros b Hb. rewrite Hlast. destruct (decide (b = a)) as [->|Hne]; [|apply Hk; by apply Ho].
    apply Hle. unfold status_of in Hs. destruct (FindMission a (w_m w')) as [m|] eqn:E; [|done]. apply FindMission_Some in E as [Hm <-]. by apply list_elem_of_fmap_2.
  - intros b t Hb. destruct (decide (b = a)) as [->|Hne]; [rewrite Hs in Hb; by injection Hb as <-|]. destruct (Ho b Hne) as [E1 ->]. apply Ha. by rewrite <- E1.
Qed.

Lemma guard_status_Ok ok id ms m : guard_status ok id ms = Ok m → FindMission id ms = Some m ∧ ok m = true.
Proof. unfold guard_status. destruct (FindMission id ms) as [x|]; [|done]. destruct (ok x) eqn:E; [|done]. by intros [= <-]. Qed.

Section Steered.
Variable clock : nat → double.

Lemma steer_change w a s now q' : steered w → is_Some (FindMission a (w_m w)) → st_tasks q' = st_tasks (w_q w) →
  (∀ b, b ≠ a → st_halts q' !! b = st_halts (w_q w) !! b) → (halted_status s ↔ is_Some (st_halts q' !! a)) →
  steered (mkWorld (SetMissionStatus a s now (w_m w)) q' (w_e w) (w_reads w)).
Proof.
  intros Hst [m Hm] Ht Hb Hh. eapply (steered_set w _ a s); [done|unfold wf; cbn; rewrite Ht; apply Hst|by apply ids_update|done| | |done].
  - intros b Hne. split; [|by rewrite <- Hb]. unfold status_of. cbn [w_m]. by rewrite FindMission_status_ne.
  - unfold status_of. cbn [w_m]. by rewrite FindMission_status, Z.eqb_refl, Hm.
Qed.

Lemma ticked_steered w : steered w → steered (Tick clock w).
Proof.
  intros Hst. pose proof Hst as [Hw Hnd Hg Hk Ha].
  assert (map mi_ID (ms_missions (w_m (Tick clock w))) = map mi_ID (ms_missions (w_m w)) ∧ wf (w_q (Tick clock w)) ∧ ms_lastMission (w_m (Tick clock w)) = ms_lastMission (w_m w)) as (Hids & Hw' & Hlast).
  { unfold Tick. generalize (RunningMissions (w_m w)) as l. intros l. clear -Hw. revert w Hw. induction l as [|m l IH]; intros w Hw; [done|]. cbn [foldl].
    destruct (tick_one_keeps clock w m Hw) as (_ & Hw1 & Hi). destruct (IH _ Hw1) as (-> & ? & ->). split_and!; [done|done|].
    rewrite tick_one_cases. destruct (advanced_same clock (mi_ID m) w Hw) as (Em & _). set (w1 := advanced clock (mi_ID m) w) in *. rewrite <- Em.
    destruct (negb _); [|by destruct (blockingFindingOpen _ _)]. unfold checkNoProgress. destruct (_ <=? 0); [done|]. destruct (progressFingerprint _ _).
    destruct (negb _); [done|]. destruct (0 <? _); [done|]. by destruct (_ <=? _). }
  split; [done|by rewrite Hids| | |].
  - intros m Hm. rewrite Hlast. assert (mi_ID m ∈ map mi_ID (ms_missions (w_m w))) as (x & -> & Hx)%list_elem_of_fmap; [|by apply Hg].
    rewrite <- Hids. by apply list_elem_of_fmap_2.
  - intros a Hh. rewrite Hlast. destruct (FindMission a (w_m w)) as [m|] eqn:E; [apply FindMission_Some in E as [Hm <-]; by apply Hg|].
    apply Hk. assert (seen a (Tick clock w) = seen a w) as (_ & _ & _ & <- & _)%seen_fields; [|done]. apply Tick_idle; [done| |done]. intros m Em. congruence.
  - intros a s Hs. destruct (FindMission a (w_m w)) as [m|] eqn:Hm.
    2:{ exfalso. assert (seen a (Tick clock w) = seen a w) as (Ef & _)%seen_fields; [apply Tick_idle; [done|intros; congruence|done]|].
        unfold status_of in Hs. by rewrite Ef, Hm in Hs. }
    destruct (decide (mi_Status m = "running")) as [Hr|Hr].
    2:{ assert (seen a (Tick clock w) = seen a w) as (Ef & _ & _ & Eh & _)%seen_fields; [apply Tick_idle; [done|intros; congruence|done]|].
        rewrite Eh. apply Ha. unfold status_of in *. by rewrite Ef in Hs. }
    destruct (Tick_outcome clock w a m Hw Hnd Hm Hr) as [_ _ He Ho Hh _].
    assert (st_halts (w_q w) !! a = None) as Hun.
    { apply eq_None_not_Some. intros Hi. apply (Ha a "running") in Hi; [by destruct Hi as [?|[?|?]]|]. unfold status_of. by rewrite Hm, <- Hr. }
    assert (s ≠ "failed" → ¬ halted_status s → halted_status s ↔ is_Some (st_halts (w_q (Tick clock w)) !! a)) as Hlive.
    { intros Hne Hns. destruct Hh as [Hh| ->]; [congruence|]. rewrite Hun. split; [done|by intros [? ?]]. }
    destruct (drained _); [specialize (He eq_refl)|specialize (Ho eq_refl)].
    + rewrite Hs in He. injection He as ->. unfold end_status in *. apply Hlive; destruct (blocks _ _); try done; by intros [?|[?|?]].
    + assert (status_of a w = Some "running") as Hr0 by (unfold status_of; by rewrite Hm, <- Hr).
      destruct Ho as [? E|? E|? ? E|? ? ? E|? ? ? E Hi]; rewrite E in Hs; rewrite ?Hr0 in Hs; injection Hs as <-; [by apply Hlive; [done|intros [?|[?|?]]]..|].
      split; [done|]. intros _. right. by right.
Qed.

Lemma FindMission_app a ms row : (∀ m, m ∈ ms_missions ms → mi_ID m ≠ mi_ID row) → ∀ ms', ms_missions ms' = ms_missions ms ++ [row] →
  FindMission a ms' = if mi_ID row =? a then Some row else FindMission a ms.
Proof.
  unfold FindMission. intros Hf ms' ->. induction (ms_missions ms) as [|m l IH]; [done|]. cbn [app List.find].
  specialize (IH (λ x Hx, Hf x ltac:(by right))). destruct (has_mid a m) eqn:E; [|exact IH]. apply Z.eqb_eq in E.
  destruct (Z.eqb_spec (mi_ID row) a) as [Er|]; [|done]. destruct (Hf m); [left|congruence].
Qed.
Lemma FindMission_delete a id ms : FindMission a (DeleteMission id ms) = if id =? a then None else FindMission a ms.
Proof.
  unfold FindMission, DeleteMission. cbn [ms_missions]. induction (ms_missions ms) as [|m l IH]; [by destruct (id =? a)|]. cbn [List.filter List.find].
  unfold has_mid in *. destruct (Z.eqb_spec (mi_ID m) id) as [E|E]; cbn [negb List.find]; [rewrite IH; destruct (Z.eqb_spec id a), (Z.eqb_spec (mi_ID m) a); congruence|].
  destruct (Z.eqb_spec (mi_ID m) a); [|exact IH]. destruct (Z.eqb_spec id a); congruence.
Qed.

Lemma created_steered d plan rr wq now tnow w : steered w → steered (run_mop clock (MCreate d plan rr wq now tnow) w).
Proof.
  intros [Hw Hnd Hg Hk Ha]. cbn [run_mop]. unfold CreateMission. destruct plan as [|p plan]; [done|]. set (mid := ms_lastMission (w_m w) + 1). set (row := mkMission mid _ _ _ _ _ _ _ _ _ _ _ _ _ _).
  set (ms0 := mkMStore (ms_missions (w_m w) ++ [row]) _ mid _). set (ms1 := insert_phases mid 0 (p :: plan) ms0).
  destruct (insert_phases_missions mid (p :: plan) 0 ms0) as [E1 E2]. fold ms1 in E1, E2. cbn [ms0 ms_missions ms_lastMission] in E1, E2.
  assert (∀ q, wf q → st_halts q = st_halts (w_q w) → steered (mkWorld ms1 q (w_e w) (w_reads w))) as H.
  { intros q Hwq Eh. split; cbn [w_m w_q]; rewrite ?E1, ?E2, ?Eh.
    - done.
    - rewrite map_app. apply NoDup_app. split_and!; [done| |apply NoDup_singleton]. intros a (m & -> & Hm)%list_elem_of_fmap Hin%list_elem_of_singleton.
      specialize (Hg m Hm). rewrite Hin in Hg. cbn in Hg. lia.
    - intros m [Hm| ->%list_elem_of_singleton]%elem_of_app; [specialize (Hg m Hm); lia|done].
    - intros a Hh. specialize (Hk a Hh). lia.
    - intros a s. unfold status_of. cbn [w_m]. rewrite (FindMission_app a (w_m w) row) with (ms' := ms1); [|intros m Hm E; specialize (Hg m Hm); cbn in E; lia|exact E1].
      cbn [mi_ID row]. destruct (Z.eqb_spec mid a) as [<-|]; [|by apply Ha]. intros [= <-]. split; [by intros [?|[?|?]]|]. intros Hh%Hk. lia. }
  destruct wq; [|by apply H]. destruct (Enqueue mid (planToTasks (p :: plan)) tnow (w_q w)) as [q|e] eqn:E; [|by apply H]. apply H.
  - pose proof (wf_op (OpEnqueue mid (planToTasks (p :: plan)) tnow) (w_q w) Hw) as H0. cbn [run_op] in H0. by rewrite E in H0.
  - pose proof (op_halts (OpEnqueue mid (planToTasks (p :: plan)) tnow) (w_q w) I) as H0. cbn [run_op] in H0. by rewrite E in H0.
Qed.

Lemma mop_steered op w : leaves_halts op → steered w → steered (run_mop clock op w).
Proof.
  intros Hl Hst. pose proof Hst as [Hw Hnd Hg Hk Ha]. destruct op; cbn [run_mop]; [by apply created_steered| | | | |by apply ticked_steered| |].
  - unfold PauseMission. destruct (guard_status _ _ _) as [m|] eqn:E; [|done]. apply guard_status_Ok in E as [E _]. apply steer_change; [done|by eexists|done|intros; by apply lookup_insert_ne|].
    cbn. rewrite lookup_insert_eq. split; [by eexists|by left].
  - unfold ResumeMission. destruct (guard_status _ _ _) as [m|] eqn:E; [|done]. apply guard_status_Ok in E as [E _]. apply steer_change; [done|by eexists|done|intros; by apply lookup_delete_ne|].
    cbn. rewrite lookup_delete_eq. split; [by intros [?|[?|?]]|by intros [? ?]].
  - unfold CancelMission. destruct (guard_status _ _ _) as [m|] eqn:E; [|done]. apply guard_status_Ok in E as [E _]. apply steer_change; [done|by eexists|done|intros; by apply lookup_insert_ne|].
    cbn. rewrite lookup_insert_eq. split; [by eexists|]. intros _. right. by left.
  - unfold ResolveNeedsReview. destruct (guard_status _ _ _) as [m|] eqn:E; [|done]. apply guard_status_Ok in E as [E Es%String.eqb_eq]. destruct (_ && _); [done|].
    apply steer_change; [done|by eexists|done|done|]. cbn [w_q]. rewrite <- (Ha id (mi_Status m)) by (unfold status_of; by rewrite E). rewrite Es.
    split; by intros [?|[?|?]].
  - split; cbn [w_m w_q]; try done.
    + eapply sublist_NoDup; [exact Hnd|]. apply fmap_sublist, filter_sublist.
    + intros m [Hm _]%elem_of_filter_where. by apply Hg.
    + intros a s. unfold status_of. cbn [w_m]. rewrite FindMission_delete. destruct (id =? a); [done|]. apply Ha.
  - destruct (decide (st_halts (run_op op (w_q w)) = st_halts (w_q w))) as [E|Hne].
    + split; cbn [w_m w_q with_queue]; [by apply wf_op|done|done|by rewrite E|by rewrite E].
    + destruct Hne. apply op_halts. by destruct op.
Qed.
End Steered.

Lemma claim_not_halted bee instance roles lease now0 now1 q t re q' : ClaimNextAs bee instance roles lease now0 now1 q = (Some (t, re), q') → st_halts q !! tk_MissionID t = None.
Proof.
  unfold ClaimNextAs. intros H. assert (∀ r, negb (halted q r) = true → st_halts q !! tk_MissionID r = None) as Hh.
  { intros r Hr%negb_true_iff%bool_decide_eq_false. by apply eq_None_not_Some. }
  destruct (first_by _ _) as [r|] eqn:E; [|destruct (first_by _ (List.filter (claimable q roles) _)) as [r|] eqn:E2; [|done]].
  - injection H as <- <- <-. apply first_by_elem, elem_of_filter_where in E as [_ E]. unfold orphaned in E. rewrite !andb_true_iff in E. apply Hh. tauto.
  - injection H as <- <- <-. apply first_by_elem, elem_of_filter_where in E2 as [_ E2]. unfold claimable in E2. rewrite !andb_true_iff in E2. apply Hh. tauto.
Qed.

Lemma mops_steered clock ops w : Forall leaves_halts ops → steered w → steered (run_mops clock ops w).
Proof.
  intros Hops. revert w. unfold run_mops. induction Hops as [|op ops Ho _ IH]; intros w Hst; [done|]. cbn [foldl]. apply IH. by apply mop_steered.
Qed.

(** C17. Steering holds. Whatever missions are created, paused, resumed, cancelled, resolved, deleted and ticked, and whatever
    calls the queue answers in between except the three that change a halt (the halting and unhalting that steering itself makes, and the
    pruning of a mission's rows, which forgets its halt and is told nothing of its status), no bee is handed a task of a mission that is paused, cancelled or failed. *)
Theorem no_work_while_halted clock ops w bee instance roles lease now0 now1 t re q' s : steered w → Forall leaves_halts ops →
  ClaimNextAs bee instance roles lease now0 now1 (w_q (run_mops clock ops w)) = (Some (t, re), q') →
  status_of (tk_MissionID t) (run_mops clock ops w) = Some s → s ≠ "paused" ∧ s ≠ "cancelled" ∧ s ≠ "failed".
Proof.
  intros Hst Hops Hc Hs. destruct (mops_steered clock ops w Hops Hst) as [_ _ _ _ Ha].
  apply claim_not_halted in Hc. specialize (Ha _ _ Hs). rewrite Hc in Ha.
  split_and!; intros ->; (assert (is_Some (@None string)) as [? ?]; [apply Ha; unfold halted_status; auto|done]).
Qed.
