(* ===== verification/MissionSamples.v ===== *)
(** * Missions, run

    A mission of three phases taken through the engine and the operator's steering; the theorems of the missions at
    this history, and the cases in which the code has no guard: the backstop's count over work done in between, a
    status written from a row read before the operator's, a phase no other phase names. *)
From S2P Require Import Prelude GoLib Float64 Queue QueueFacts QueuePlan QueueSound Mission MissionFacts MissionPlan.
Local Open Scope string_scope.
Local Open Scope list_scope.
Local Open Scope Z_scope.

Definition step_of (name : string) (deps : list string) (count : Z) : PhaseSpec := mkPhaseSpec name "builder" "" name deps count "".
Definition time (i : nat) : double := of_int (Z.of_nat i).
Definition noon (n : Z) : double := of_int n.
Definition team_plan : list PhaseSpec := [step_of "design" [] 0; step_of "build" ["design"] 2; step_of "test" ["build"] 1].
Definition no_missions : World := mkWorld (mkMStore [] [] 0 0) (mkStore [] [] [] ∅) (mkEngine "high" 2 ∅ ∅ []) 0.
Definition created : World := run_mops time [MCreate "ship it" team_plan false true (noon 1) time] no_missions.
Definition runs (ops : list MOp) : World → World := run_mops time ops.
Definition claim (bee : string) (n : Z) : MOp := MQueue (OpClaim bee "i" [] (noon 60) (noon n) (noon n)).
Definition finish (id : Z) (bee : string) (n : Z) : MOp := MQueue (OpComplete id bee "ok" (noon n)).
Definition keys_of (w : World) : list string := map tk_Key (ListTasks 1 (w_q w)).
Definition marks (w : World) : list TaskStatus := map tk_Status (ListTasks 1 (w_q w)).

Example plan_tasks : map (λ sp, (ts_Key sp, ts_DependsOn sp)) (planToTasks team_plan) =
  [("design#1", []); ("build#1", ["design#1"]); ("build#2", ["design#1"]); ("test#1", ["build#1"; "build#2"])].
Proof. vm_compute. reflexivity. Qed.

(** Worked to the end, the mission is done; a tick in between lets the next phase go. *)
Definition worked : World := runs [MTick; claim "ann" 10; finish 1 "ann" 11; MTick; claim "ann" 12; claim "bob" 12; finish 2 "ann" 13; finish 3 "bob" 13;
  MTick; claim "bob" 14; finish 4 "bob" 15; MTick] created.
Example worked_done : status_of 1 worked = Some "done" ∧ en_completed (w_e worked) = [(1, "done", 0)] ∧
  (mv_Phases <$> View 1 true (w_m worked) (w_q worked)) =
    Some [mkPhaseView "design" "builder" "" "done" 1 [] 1 ["ann"]; mkPhaseView "build" "builder" "" "done" 2 ["design"] 2 ["ann"; "bob"];
          mkPhaseView "test" "builder" "" "done" 1 ["build"] 1 ["bob"]].
Proof. vm_compute. by split_and!. Qed.

(** ** The theorems at this mission *)

Lemma steered_empty : steered no_missions.
Proof.
  split; cbn; try by (intros; exfalso; eauto using elem_of_nil).
  - split; constructor.
  - constructor.
  - intros m H. by apply elem_of_nil in H.
  - intros a [? H]. by rewrite lookup_empty in H.
Qed.
Lemma steered_created : steered created.
Proof. apply mop_steered; [done|exact steered_empty]. Qed.
Lemma wf_created : wf (w_q created).
Proof. by destruct steered_created. Qed.
Lemma ids_created : NoDup (map mi_ID (ms_missions (w_m created))).
Proof. by destruct steered_created. Qed.
Definition row (w : World) : Mission := default (mkMission 0 "" "" 0 false (noon 0) (noon 0) "" "" "" "" 0 "" false false) (FindMission 1 (w_m w)).

(** The plan's second phase is cancelled by hand: the third can never run, and a tick ends the mission with a finding. *)
Definition cut : World := runs [MTick; claim "ann" 10; finish 1 "ann" 11; MQueue (OpCancel 2); MTick; claim "ann" 12; finish 3 "ann" 13] created.
Lemma cut_ready : wf (w_q cut) ∧ NoDup (map mi_ID (ms_missions (w_m cut))) ∧ FindMission 1 (w_m cut) = Some (row cut).
Proof.
  assert (steered cut) as [? ? _ _ _] by (apply mops_steered; [by repeat constructor|exact steered_created]).
  split_and!; [done|done|vm_compute; reflexivity].
Qed.
Lemma Tick_outcome_witness : marks (Tick time cut) = [StatusDone; StatusCancelled; StatusDone; StatusCancelled] ∧ status_of 1 (Tick time cut) = Some "needs-review" ∧
  ticked 1 cut (Tick time cut).
Proof.
  destruct cut_ready as (Hw & Hnd & Hm). split; [vm_compute; reflexivity|]. split; [vm_compute; reflexivity|].
  apply (Tick_outcome time cut 1 (row cut)); [exact Hw|exact Hnd|exact Hm|vm_compute; reflexivity].
Defined.

(** Nobody comes for the mission: the backstop fails it on the third tick, in the fifteen the theorem allows. *)
Lemma quiet_missions_end_witness : status_of 1 (ticks time 2 created) = Some "running" ∧ status_of 1 (ticks time 3 created) = Some "failed" ∧
  ∃ n s, Z.of_nat n <= (Z.of_nat (open_count (ListTasks 1 (w_q created))) + 1) * (2 + 1) ∧ status_of 1 (ticks time n created) = Some s ∧ ended s.
Proof.
  split; [vm_compute; reflexivity|]. split; [vm_compute; reflexivity|].
  apply (quiet_missions_end time created 1 (row created)); [exact wf_created|exact ids_created|vm_compute; reflexivity|vm_compute; reflexivity|done|done|vm_compute; reflexivity].
Defined.

Lemma team_ordered : well_ordered team_plan.
Proof.
  split; [apply (bool_decide_unpack _); vm_compute; exact I|]. intros pre p rest d E Hd.
  destruct pre as [|? pre]; [injection E as <- _; by apply elem_of_nil in Hd|].
  destruct pre as [|? pre]; [injection E as <- <- _; apply list_elem_of_singleton in Hd as ->; left|].
  destruct pre as [|? pre]; [injection E as <- <- <- _; apply list_elem_of_singleton in Hd as ->; right; left|].
  destruct pre; discriminate E.
Qed.
Lemma created_plan_sound_witness : keys_of created = ["design#1"; "build#1"; "build#2"; "test#1"] ∧
  ∃ ms' q', CreateMission "ship it" team_plan false true (noon 1) time (w_m no_missions) (w_q no_missions) = Ok (1, None, ms', q') ∧ wf q' ∧
    sound_plan (ListTasks 1 q') ∧ map tk_Key (ListTasks 1 q') = List.concat (map phase_keys team_plan) ∧
    ∀ m, m ∈ ms_missions ms' ↔ m ∈ [] ∨ m = mkMission 1 "ship it" "running" 1 false (noon 1) (noon 1) "" "" "" "" 0 "" false false.
Proof.
  split; [vm_compute; reflexivity|].
  apply (created_plan_sound "ship it" team_plan false (noon 1) time (w_m no_missions) (w_q no_missions));
    [split; constructor|exact team_ordered|done|by intros t ?%elem_of_nil].
Defined.

(** Two missions, the first paused: the bee is handed the second's task, and its status is told. *)
Definition paused_one : list MOp := [MCreate "next" team_plan false true (noon 2) time; MTick; MPause 1 (noon 3)].
Lemma no_work_while_halted_witness : status_of 1 (runs paused_one created) = Some "paused" ∧ "running" ≠ "paused" ∧ "running" ≠ "cancelled" ∧ "running" ≠ "failed".
Proof.
  split; [vm_compute; reflexivity|].
  destruct (ClaimNextAs "ann" "i" [] (noon 60) (noon 10) (noon 10) (w_q (runs paused_one created))) as [[[t re]|] q'] eqn:E; [|vm_compute in E; discriminate E].
  apply (no_work_while_halted time paused_one created "ann" "i" [] (noon 60) (noon 10) (noon 10) t re q'); [exact steered_created|by repeat constructor|exact E|].
  assert (tk_MissionID t = 2) as -> by (vm_compute in E; by injection E as <- _). vm_compute. reflexivity.
Defined.

(** ** Without a guard *)

(** Two ticks without progress fail a mission here. Between the two a bee took a task, and gave it up: the count went on. *)
Definition one_idle : World := runs [MTick; MTick] created.
Example backstop_counts_over_work : idle_ticks 1 one_idle = 1 ∧
  status_of 1 (runs [MTick] (runs [claim "ann" 10; MTick; MTick; MTick] one_idle)) = Some "running" ∧
  status_of 1 (runs [claim "ann" 10; MTick; MTick; MTick; MQueue (OpReap None (noon 100)); MTick] one_idle) = Some "failed".
Proof. vm_compute. by split_and!. Qed.

(** A paused mission's rows are pruned, and its halt with them: its status is still "paused", and a task enqueued and promoted after it is handed out. *)
Definition pruned : World := runs [MPause 1 (noon 3); MQueue (OpPrune 1); MQueue (OpEnqueue 1 [mkSpec "again" "builder" "again" "" "" [] "" ""] time); MQueue (OpPromote 1)] created.
Example prune_forgets_halt : status_of 1 pruned = Some "paused" ∧ MissionHaltReason 1 (w_q (runs [MPause 1 (noon 3)] created)) = "paused" ∧ MissionHaltReason 1 (w_q pruned) = "" ∧
  (λ r, tk_MissionID r.1) <$> (ClaimNextAs "ann" "i" [] (noon 60) (noon 10) (noon 10) (w_q pruned)).1 = Some 1.
Proof. vm_compute. by split_and!. Qed.

(** The last task is done and a tick has read the row; the operator cancels; the tick's write makes the mission done. *)
Definition finished : World := runs [MTick; claim "ann" 10; finish 1 "ann" 11] (runs [MCreate "small" [step_of "only" [] 1] false true (noon 1) time] no_missions).
Example tick_overwrites_cancel : status_of 1 (runs [MCancel 1 (noon 12)] finished) = Some "cancelled" ∧
  status_of 1 (tick_one time (runs [MCancel 1 (noon 12)] finished) (row finished)) = Some "done" ∧
  MissionHaltReason 1 (w_q (tick_one time (runs [MCancel 1 (noon 12)] finished) (row finished))) = "cancelled".
Proof. vm_compute. by split_and!. Qed.

(** A status written without a look at the present one: a cancelled mission that is set to "needs-review" is resolved to "done". *)
Example verdict_overwrites_cancel :
  let w := runs [MCancel 1 (noon 12)] finished in
  let w := mkWorld (SetMissionStatus 1 "needs-review" (noon 13) (w_m w)) (w_q w) (w_e w) (w_reads w) in
  status_of 1 (runs [MResolve 1 "high" true (noon 14)] w) = Some "done" ∧ MissionHaltReason 1 (w_q w) = "cancelled".
Proof. vm_compute. by split_and!. Qed.

(** A mission that failed, or waits for review, can be cancelled. *)
Example failed_is_cancelled : status_of 1 (ticks time 3 created) = Some "failed" ∧ status_of 1 (runs [MCancel 1 (noon 12)] (ticks time 3 created)) = Some "cancelled" ∧
  status_of 1 (Tick time cut) = Some "needs-review" ∧ status_of 1 (runs [MCancel 1 (noon 14)] (Tick time cut)) = Some "cancelled".
Proof. vm_compute. by split_and!. Qed.

(** A phase that names a phase the plan has not starts at once. *)
Example unknown_phase_ignored : map (λ sp, (ts_Key sp, ts_DependsOn sp)) (planToTasks [step_of "build" ["desing"] 1; step_of "design" [] 1]) =
  [("build#1", []); ("design#1", [])].
Proof. vm_compute. reflexivity. Qed.

(** A replacement that depends on what waits on it: no task can run, and the backstop fails the mission. *)
Definition knotted : World := runs [MQueue (OpSupersede 1 (mkSpec "design#1" "builder" "design" "" "" ["test#1"] "" "") (noon 5))] created.
Example knot_fails : marks (runs [MTick; MTick] knotted) = [StatusSuperseded; StatusPending; StatusPending; StatusPending; StatusPending] ∧
  status_of 1 (runs [MTick; MTick] knotted) = Some "running" ∧ status_of 1 (runs [MTick; MTick; MTick] knotted) = Some "failed".
Proof. vm_compute. by split_and!. Qed.
