(* ===== verification/Paths.v ===== *)
(** * path/filepath on Unix

    The functions of [path] and [path/filepath] that decide where a test is: Dir, Ext, Join and Rel, beside the Clean and Base
    of GoText. On Unix the two packages agree and ToSlash changes nothing. A clean relative path is its segments
    ([joined]); what the functions do to one, they do to the list ([path_clean_joined], [path_dir_joined], [path_join_joined]). *)
From S2P Require Import Prelude GoLib GoText.
Local Open Scope string_scope.
Local Open Scope list_scope.

Abbreviation slash := "/"%char (only parsing).

(** What is before the last occurrence of a byte, and after it. *)
Fixpoint cut_last (c : ascii) (s : string) : option (string * string) :=
  match s with
  | "" => None
  | String a s' =>
      match cut_last c s' with
      | Some (h, t) => Some (String a h, t)
      | None => if Ascii.eqb a c then Some ("", s') else None
      end
  end.

Definition path_dir (p : string) : string :=
  match cut_last slash p with Some (h, _) => path_clean (h +:+ "/") | None => "." end.
Definition path_ext (p : string) : string :=
  let file := match cut_last slash p with Some (_, t) => t | None => p end in
  match cut_last "."%char file with Some (_, e) => "." +:+ e | None => "" end.
(** The elements before the first that is not empty are dropped. *)
Fixpoint path_join (elems : list string) : string :=
  match elems with
  | [] => ""
  | "" :: rest => path_join rest
  | _ => path_clean (String.concat "/" elems)
  end.
Definition is_abs (p : string) : bool := has_prefix "/" p.

(** [filepath.Rel] of two absolute clean paths, as segments: how far up, and what is left. *)
Fixpoint strip_common (l1 l2 : list string) : list string * list string :=
  match l1, l2 with
  | x :: l1', y :: l2' => if String.eqb x y then strip_common l1' l2' else (l1, l2)
  | _, _ => (l1, l2)
  end.
Definition abs_segments (p : string) : list string := if String.eqb p "/" then [""] else split_on slash p.
Definition path_rel (base targ : string) : string :=
  if String.eqb base targ then "."
  else
    let '(up, rest) := strip_common (abs_segments base) (abs_segments targ) in
    String.concat "/" (map (λ _, "..") up ++ rest).

(** ** Splitting and joining at slashes *)

Definition joined (segs : list string) : string := String.concat "/" segs.
Definition no_slash (s : string) : Prop := mem_ascii slash s = false.
(** A segment of a clean path. *)
Definition good_seg (s : string) : bool :=
  negb (String.eqb s "") && negb (String.eqb s ".") && negb (String.eqb s "..") && negb (mem_ascii slash s).
Definition good (segs : list string) : Prop := Forall (λ s, good_seg s = true) segs.

Lemma good_seg_no_slash s : good_seg s = true → no_slash s.
Proof. unfold good_seg, no_slash. intros ?. by bools. Qed.
Lemma good_no_slash segs : good segs → Forall no_slash segs.
Proof. intros H. eapply Forall_impl; [done|]. apply good_seg_no_slash. Qed.
#[export] Hint Resolve good_seg_no_slash good_no_slash : corral.

Lemma joined_cons s segs : segs ≠ [] → joined (s :: segs) = s +:+ "/" +:+ joined segs.
Proof. by destruct segs. Qed.
Lemma joined_snoc segs s : segs ≠ [] → joined (segs ++ [s]) = joined segs +:+ "/" +:+ s.
Proof.
  induction segs as [|x [|y l] IH]; [done|done|]. intros _. change ((x :: y :: l) ++ [s]) with (x :: ((y :: l) ++ [s])).
  rewrite (joined_cons x ((y :: l) ++ [s])) by done. rewrite IH by done. by rewrite (joined_cons x (y :: l)), !app_str_assoc.
Qed.
Lemma joined_app l1 l2 : l1 ≠ [] → l2 ≠ [] → joined (l1 ++ l2) = joined l1 +:+ "/" +:+ joined l2.
Proof.
  intros H1 H2. induction l1 as [|x [|y l] IH]; [done| |].
  - cbn [app]. by rewrite joined_cons.
  - change ((x :: y :: l) ++ l2) with (x :: ((y :: l) ++ l2)). rewrite (joined_cons x ((y :: l) ++ l2)) by done.
    rewrite IH by done. by rewrite (joined_cons x (y :: l)), !app_str_assoc.
Qed.

Lemma split_on_one s : no_slash s → split_on slash s = [s].
Proof.
  unfold no_slash. induction s as [|a s IH]; [done|]. cbn. intros [Ha Hs]%orb_false_elim. by rewrite Ha, (IH Hs).
Qed.
Lemma split_on_app s t : no_slash s → split_on slash (s +:+ "/" +:+ t) = s :: split_on slash t.
Proof.
  unfold no_slash. induction s as [|a s IH]; [done|]. rewrite app_str_cons. cbn [mem_ascii split_on]. intros [Ha Hs]%orb_false_elim. by rewrite Ha, (IH Hs).
Qed.
Lemma split_joined segs : segs ≠ [] → Forall no_slash segs → split_on slash (joined segs) = segs.
Proof.
  induction segs as [|s [|t l] IH]; [done| |].
  - intros _ [? _]%Forall_cons. by apply split_on_one.
  - intros _ [? ?]%Forall_cons. rewrite joined_cons, split_on_app by done. by rewrite IH.
Qed.
Lemma joined_inj l1 l2 : l1 ≠ [] → l2 ≠ [] → Forall no_slash l1 → Forall no_slash l2 → joined l1 = joined l2 → l1 = l2.
Proof. intros. rewrite <- (split_joined l1), <- (split_joined l2) by done. by f_equal. Qed.

(** ** The functions on a clean relative path *)

Lemma clean_good rooted segs : good segs → ∀ out, foldl (clean_step rooted) out segs = rev segs ++ out.
Proof.
  induction segs as [|s segs IH]; [done|]. intros [Hs Hl]%Forall_cons out. cbn. rewrite IH by done. unfold clean_step at 1.
  unfold good_seg in Hs. bools. destruct (String.eqb_spec s ""); [done|]. destruct (String.eqb_spec s "."); [done|].
  destruct (String.eqb_spec s ".."); [done|]. cbn. by rewrite <- (assoc_L (++)).
Qed.
Lemma joined_head segs : good segs → segs ≠ [] → ∃ a t, joined segs = String a t ∧ Ascii.eqb "/" a = false.
Proof.
  intros Hg Hn. destruct segs as [|s l]; [done|]. apply Forall_cons in Hg as [Hs _].
  assert (∃ a s', s = String a s' ∧ Ascii.eqb a "/" = false) as (a & s' & -> & Ha).
  { unfold good_seg in Hs. bools. destruct s as [|a s']; [done|]. exists a, s'. split; [done|]. cbn [mem_ascii] in *. by bools. }
  exists a. destruct l; cbn [joined String.concat]; rewrite ?app_str_cons; eexists; (split; [done|]); by rewrite Ascii.eqb_sym.
Qed.
Lemma joined_nonempty segs : good segs → segs ≠ [] → joined segs ≠ "".
Proof. intros Hg Hn. by destruct (joined_head _ Hg Hn) as (a & t & -> & _). Qed.
Lemma joined_not_rooted segs : good segs → has_prefix "/" (joined segs) = false.
Proof. intros Hg. destruct segs as [|s l]; [done|]. destruct (joined_head _ Hg) as (a & t & -> & Ha); [done|]. cbn [has_prefix]. by rewrite Ha. Qed.
Lemma path_clean_joined segs : good segs → segs ≠ [] → path_clean (joined segs) = joined segs.
Proof.
  intros Hg Hn. unfold path_clean. destruct (String.eqb_spec (joined segs) "") as [E|_]; [by apply joined_nonempty in E|].
  rewrite joined_not_rooted, (split_joined _ Hn), clean_good, app_nil_r, rev_involutive by auto with corral.
  change (String.concat "/" segs) with (joined segs). destruct (String.eqb_spec (joined segs) ""); [by apply joined_nonempty in Hn|done].
Qed.

Lemma cut_last_none c s : mem_ascii c s = false → cut_last c s = None.
Proof. induction s as [|a s IH]; [done|]. cbn. intros [Ha Hs]%orb_false_elim. by rewrite (IH Hs), Ha. Qed.
Lemma cut_last_app c s t : mem_ascii c t = false → cut_last c (s +:+ String c t) = Some (s, t).
Proof.
  intros Ht. induction s as [|a s IH].
  - change ("" +:+ String c t) with (String c t). cbn [cut_last]. by rewrite (cut_last_none _ _ Ht), Ascii.eqb_refl.
  - rewrite app_str_cons. cbn [cut_last]. by rewrite IH.
Qed.
Lemma cut_last_joined dirs file : no_slash file → cut_last slash (joined (dirs ++ [file])) = match dirs with [] => None | _ => Some (joined dirs, file) end.
Proof.
  intros Hf. destruct dirs as [|d dirs]; [by apply cut_last_none|]. rewrite joined_snoc by done. by apply (cut_last_app slash (joined (d :: dirs))).
Qed.
Lemma path_dir_joined dirs file : good dirs → no_slash file → path_dir (joined (dirs ++ [file])) = match dirs with [] => "." | _ => joined dirs end.
Proof.
  intros Hg Hf. unfold path_dir. rewrite cut_last_joined by done. destruct dirs as [|d dirs]; [done|].
  assert (joined (d :: dirs) +:+ "/" = joined ((d :: dirs) ++ [""])) as -> by (rewrite joined_snoc by done; by rewrite app_str_nil_r).
  unfold path_clean. set (l := (d :: dirs) ++ [""]). assert (∃ a t, joined l = String a t ∧ Ascii.eqb "/" a = false) as (a & t & El & Ha).
  { destruct (joined_head _ Hg) as (a & t & E & Ha); [done|]. unfold l. rewrite joined_snoc, E by done. by exists a, (t +:+ "/" +:+ ""). }
  destruct (String.eqb_spec (joined l) "") as [E|_]; [by rewrite El in E|]. assert (has_prefix "/" (joined l) = false) as -> by (rewrite El; cbn [has_prefix]; by rewrite Ha).
  assert (Forall no_slash l) as Hs by (apply Forall_app; split; [by apply good_no_slash|by repeat constructor]).
  rewrite split_joined; [|discriminate|exact Hs]. unfold l. rewrite foldl_app, (clean_good _ _ Hg), app_nil_r. cbn [foldl]. unfold clean_step. cbn [String.eqb orb].
  rewrite rev_involutive. change (String.concat "/" (d :: dirs)) with (joined (d :: dirs)). by destruct (String.eqb_spec (joined (d :: dirs)) ""); [apply joined_nonempty in Hg|].
Qed.
Lemma path_ext_joined dirs file : no_slash file → path_ext (joined (dirs ++ [file])) = path_ext file.
Proof.
  intros Hf. unfold path_ext. rewrite cut_last_joined by done. destruct dirs; [by rewrite (cut_last_none slash)|]. by rewrite (cut_last_none slash file).
Qed.
Lemma trim_slashes_end s : s ≠ "" → no_slash s → trim_slashes s = s.
Proof.
  unfold no_slash. intros _. induction s as [|a s IH]; [done|]. cbn. intros [Ha Hs]%orb_false_elim. by rewrite (IH Hs), Ha.
Qed.
Lemma trim_slashes_app s t : t ≠ "" → no_slash t → trim_slashes (s +:+ t) = s +:+ t.
Proof.
  intros Ht Hn. induction s as [|a s IH]; [by apply trim_slashes_end|]. rewrite app_str_cons. cbn. rewrite IH. destruct (s +:+ t) eqn:E; [by destruct s|]. by rewrite andb_false_r.
Qed.
Lemma path_base_joined dirs file : good dirs → good_seg file = true → path_base (joined (dirs ++ [file])) = file.
Proof.
  intros Hg Hf. assert (Forall no_slash (dirs ++ [file])) as Hs by (apply Forall_app; split; [by apply good_no_slash|repeat constructor; by apply good_seg_no_slash]).
  assert (good (dirs ++ [file])) as Hg' by (apply Forall_app; split; [done|by repeat constructor]).
  assert (dirs ++ [file] ≠ []) as Hn by by destruct dirs. unfold path_base. destruct (String.eqb_spec (joined (dirs ++ [file])) "") as [E|_]; [by apply joined_nonempty in E|].
  assert (trim_slashes (joined (dirs ++ [file])) = joined (dirs ++ [file])) as ->.
  { assert (file ≠ "") by (unfold good_seg in Hf; by bools). destruct dirs as [|d dirs]; [by apply trim_slashes_end; auto with corral|].
    rewrite joined_snoc by done. rewrite <- app_str_assoc. apply trim_slashes_app; auto with corral. }
  destruct (String.eqb_spec (joined (dirs ++ [file])) "") as [E|_]; [by apply joined_nonempty in E|]. rewrite split_joined by done. by rewrite last_last.
Qed.

(** A directory that is empty is dropped where paths are joined. *)
Definition padded (l : list string) : list string := match l with [] => [""] | _ => l end.
Lemma split_joins ls : ls ≠ [] → Forall good ls → split_on slash (joined (map joined ls)) = concat (map padded ls).
Proof.
  assert (∀ l, good l → split_on slash (joined l) = padded l) as H1.
  { intros l Hl. destruct l as [|s l]; [done|]. apply split_joined; auto with corral. }
  assert (∀ l t, good l → split_on slash (joined l +:+ "/" +:+ t) = padded l ++ split_on slash t) as H2.
  { intros l t Hl. induction l as [|s [|s' l] IH]; [done| |].
    - apply Forall_cons in Hl as [? _]. apply split_on_app. auto with corral.
    - apply Forall_cons in Hl as [? Hl]. rewrite joined_cons, !app_str_assoc by done. rewrite split_on_app by auto with corral. by rewrite IH. }
  induction ls as [|l [|l' ls] IH]; [done| |].
  - intros _ [Hl _]%Forall_cons. cbn. rewrite app_nil_r. by apply H1.
  - intros _ [Hl Hls]%Forall_cons. cbn [map]. rewrite joined_cons, H2 by done. cbn [concat]. f_equal. by apply IH.
Qed.
Lemma clean_padded rooted ls : Forall good ls → ∀ out, foldl (clean_step rooted) out (concat (map padded ls)) = rev (concat ls) ++ out.
Proof.
  induction ls as [|l ls IH]; [done|]. intros [Hl Hls]%Forall_cons out. cbn [map concat]. rewrite foldl_app, IH, rev_app_distr by done.
  rewrite <- (assoc_L (++)). f_equal. destruct l as [|s l]; [done|]. by apply clean_good.
Qed.
Lemma path_join_joined ls : Forall good ls → path_join (map joined ls) = joined (concat ls).
Proof.
  induction ls as [|l ls IH]; [done|]. intros Hall. apply Forall_cons in Hall as [Hl Hls]. destruct l as [|s l]; [by cbn; apply IH|].
  assert (Forall good ((s :: l) :: ls)) as Hall by by constructor. assert (joined (s :: l) ≠ "") as Hne by by apply joined_nonempty.
  assert (path_join (map joined ((s :: l) :: ls)) = path_clean (joined (map joined ((s :: l) :: ls)))) as ->.
  { cbn [map path_join]. by destruct (joined (s :: l)). }
  assert (good (concat ((s :: l) :: ls))) as Hg by (apply Forall_concat; done). assert (concat ((s :: l) :: ls) ≠ []) as Hn by done.
  unfold path_clean. set (text := joined (map joined ((s :: l) :: ls))).
  assert (∃ a t, text = String a t ∧ Ascii.eqb "/" a = false) as (a & t & Et & Ha).
  { destruct (joined_head _ Hl) as (a & t & E & Ha); [done|]. unfold text. cbn [map]. destruct (map joined ls) as [|x xs]; [by exists a, t|].
    rewrite joined_cons, E by done. by exists a, (t +:+ "/" +:+ joined (x :: xs)). }
  destruct (String.eqb_spec text "") as [E|_]; [by rewrite Et in E|]. assert (has_prefix "/" text = false) as -> by (rewrite Et; cbn [has_prefix]; by rewrite Ha).
  unfold text. rewrite split_joins, clean_padded, app_nil_r, rev_involutive by done. change (String.concat "/" ?x) with (joined x).
  destruct (String.eqb_spec (joined (concat ((s :: l) :: ls))) ""); [by apply joined_nonempty in Hg|done].
Qed.
