(* ===== verification/Pairing.v ===== *)
(** * Where a source's test is: internal/pairing, and the collisions of internal/reposcan/candidate.go

    A language declares its conventions as rules; everything else is derived: the candidates of a source and their ranks,
    the roots of a search, whether a file is a test, the test a source resolves to, where an authored test lands, and which of
    several sources keeps a contested test. What the code knows of a repository is a record of functions ([Sources]).
    PairingFacts proves the properties. *)
From S2P Require Import Prelude GoLib GoText Paths TestMap Mutant Queue.
Local Open Scope string_scope.
Local Open Scope list_scope.
Local Open Scope Z_scope.
Local Open Scope corral_scope.

(** ** Shapes and rules (pairing.go) *)

Inductive Shape := Sibling | BesideDir | ParallelTree | FlatRoot | Recognize | Inline | Declared | TestDir.
#[export] Instance Shape_eq_dec : EqDecision Shape.
Proof. solve_decision. Defined.
Definition shape_text (s : Shape) : string :=
  match s with
  | Sibling => "sibling" | BesideDir => "beside-dir" | ParallelTree => "parallel-tree" | FlatRoot => "flat-root"
  | Recognize => "recognize" | Inline => "inline" | Declared => "declared" | TestDir => "test-dir"
  end.

Record Rule := mkRule {
  ru_Shape : Shape; ru_Name : string; ru_Dir : string; ru_KeepLeading : bool; ru_MaxDepth : Z; ru_Rank : Z }.
Record TestModule := mkModule { tmod_Name : string; tmod_Inline : bool; tmod_PathAttr : string; tmod_CfgTest : bool }.

(** The directory ("" at the top), the name without its extension, and the extension. *)
Definition splitPath (codePath : string) : string * string * string :=
  let ext := path_ext codePath in
  let base := trim_suffix ext (path_base codePath) in
  let dir := path_dir codePath in
  (if String.eqb dir "." then "" else dir, base, ext).
Definition joinDir (dir name : string) : string := if String.eqb dir "" then name else path_join [dir; name].
Definition stripFirstSegment (dir : string) : string :=
  if String.eqb dir "" then "" else let '(_, rest, found) := cut slash dir in if found then rest else "".
Definition dirDepth (dir : string) : Z := if String.eqb dir "" then 0 else Z.of_nat (length (split_on slash dir)).

(** The candidate of a rule; None: the shape has none, or not for this source. *)
Definition candidate (r : Rule) (src dir name : string) : option string :=
  match ru_Shape r with
  | Sibling => Some (joinDir dir name)
  | BesideDir => Some (path_join [dir; ru_Dir r; name])
  | ParallelTree => Some (path_join [ru_Dir r; if ru_KeepLeading r then dir else stripFirstSegment dir; name])
  | FlatRoot => if ru_MaxDepth r <? dirDepth dir then None else Some (path_join [ru_Dir r; name])
  | Inline => Some src
  | Recognize | Declared | TestDir => None
  end.
Definition searchRoot (s : Shape) : bool := match s with BesideDir | ParallelTree | FlatRoot | TestDir => true | _ => false end.
Definition testDir (s : Shape) : bool := match s with BesideDir | ParallelTree | FlatRoot | Recognize | TestDir => true | _ => false end.
Definition nameMarksTest (s : Shape) : bool := match s with Sibling | BesideDir | ParallelTree | FlatRoot | Recognize => true | _ => false end.
Definition sameDir (s : Shape) : bool := bool_decide (s = Sibling).
Definition content (s : Shape) : bool := match s with Inline | Declared => true | _ => false end.
Definition dirMarksTest (s : Shape) : bool := bool_decide (s = TestDir).
Definition confined (s : Shape) : bool := bool_decide (s = Declared).
Definition moduleDepth (s : Shape) : Z := match s with Declared => 1 | _ => 0 end.

(** ** The modules a source declares *)

Definition inlineModule (src : string) (mods : list TestModule) : list (string * string) :=
  if existsb tmod_Inline mods then [(src, "inline")] else [].
Definition declared_paths (dir modDir : string) (m : TestModule) : list (string * string) :=
  if tmod_Inline m then []
  else if negb (String.eqb (tmod_PathAttr m) "") then [(path_clean (path_join [dir; tmod_PathAttr m]), "path-attr")]
  else [(path_clean (path_join [modDir; tmod_Name m +:+ ".rs"]), "default-module");
        (path_clean (path_join [modDir; tmod_Name m; "mod.rs"]), "default-module")].
Definition declaredModule (src : string) (mods : list TestModule) : list (string * string) :=
  let dir := path_dir src in
  let stem := trim_suffix (path_ext src) (path_base src) in
  let modDir := if bool_decide (path_base src ∈ ["mod.rs"; "lib.rs"; "main.rs"]) then dir else path_join [dir; stem] in
  flat_map (declared_paths dir modDir) mods.
Definition fromModules (s : Shape) (src : string) (mods : list TestModule) : list (string * string) :=
  match s with Inline => inlineModule src mods | Declared => declaredModule src mods | _ => [] end.

(** ** Candidates (dedupe.go) *)

Record Candidate := mkCandidate { ca_Path : string; ca_Rank : Z; ca_Shape : Shape }.

(** The maps of the code, a row a path: the shape of its first candidate, its highest rank, whether a sibling names it. *)
Record Merged := mkMerged { mg_Path : string; mg_MaxRank : Z; mg_Shape : Shape; mg_Sibling : bool }.
Definition merge_into (c : Candidate) (m : Merged) : Merged :=
  mkMerged (mg_Path m) (if mg_MaxRank m <? ca_Rank c then ca_Rank c else mg_MaxRank m) (mg_Shape m) (mg_Sibling m || sameDir (ca_Shape c)).
Fixpoint merge_one (rows : list Merged) (c : Candidate) : list Merged :=
  match rows with
  | [] => [mkMerged (ca_Path c) (ca_Rank c) (ca_Shape c) (sameDir (ca_Shape c))]
  | m :: rest => if String.eqb (mg_Path m) (ca_Path c) then merge_into c m :: rest else m :: merge_one rest c
  end.
Definition settled (m : Merged) : Candidate := mkCandidate (mg_Path m) (if mg_Sibling m then 0 else mg_MaxRank m) (mg_Shape m).
Definition Dedupe (cands : list Candidate) : list Candidate := map settled (foldl merge_one [] cands).

(** [strings.Replace] of the first occurrence. *)
Definition replace_first (old new s : string) : string :=
  match str_index old s with
  | Some i => take_str i s +:+ new +:+ drop_str (i + String.length old) s
  | None => s
  end.
Definition raw_candidate (codePath : string) (r : Rule) : option Candidate :=
  let '(dir, base, _) := splitPath codePath in
  (λ p, mkCandidate p (ru_Rank r) (ru_Shape r)) <$> candidate r codePath dir (replace_first "{base}" base (ru_Name r)).
Definition Candidates (rules : list Rule) (codePath : string) : list Candidate := Dedupe (omap (raw_candidate codePath) rules).
Definition Primary (rules : list Rule) (codePath : string) : option Candidate := head (Candidates rules codePath).

(** [strings.Trim] of slashes. *)
Fixpoint trim_left_slashes (s : string) : string :=
  match s with String a s' => if Ascii.eqb a slash then trim_left_slashes s' else s | "" => "" end.
Definition trimmed_dir (r : Rule) : string := trim_slashes (trim_left_slashes (ru_Dir r)).
Definition DefaultRoot : string := "tests".
Definition add_root (out : list string) (r : Rule) : list string :=
  let d := trimmed_dir r in
  if negb (searchRoot (ru_Shape r)) || String.eqb d "" || bool_decide (d ∈ out) then out else out ++ [d].
Definition Roots (rules : list Rule) : list string := foldl add_root [DefaultRoot] rules.

(** ** Is a file a test? *)

Definition recognized (name dir : string) : Rule := mkRule Recognize name dir false 0 0.
Definition Generic : list Rule := [
  recognized "{base}_test{ext}" ""; recognized "test_{base}" ""; recognized "{base}_spec{ext}" ""; recognized "{base}.test{ext}" "";
  recognized "{base}.spec{ext}" ""; recognized "" "test"; recognized "" "tests"; recognized "" "spec"; recognized "" "specs";
  recognized "" "__tests__"; recognized "" "testing"].

Definition special (a : ascii) : bool := mem_ascii a "*?[]\".
Fixpoint pattern_fuel (fuel : nat) (name : string) : string :=
  match fuel, name with
  | S n, String a rest =>
      if has_prefix "{base}" name then "*" +:+ pattern_fuel n (drop_str 6 name)
      else if has_prefix "{ext}" name then ".*" +:+ pattern_fuel n (drop_str 5 name)
      else (if special a then "\" else "") +:+ String a (pattern_fuel n rest)
  | _, _ => ""
  end.
Definition namePattern (name : string) : string := pattern_fuel (String.length name) name.
(** [path.Match], of what [namePattern] writes: stars, escaped bytes and bytes. *)
Fixpoint path_match (p s : string) {struct p} : bool :=
  match p with
  | "" => String.eqb s ""
  | String a p' =>
      if Ascii.eqb a "*" then
        (fix star (s : string) : bool :=
           path_match p' s || match s with "" => false | String c s' => negb (Ascii.eqb c slash) && star s' end) s
      else if Ascii.eqb a "\" then
        match p', s with
        | String b p'', String c s' => Ascii.eqb b c && path_match p'' s'
        | _, _ => false
        end
      else match s with String c s' => Ascii.eqb a c && path_match p' s' | "" => false end
  end.

Section Lowercase.
(** Unicode's case tables, on a run of bytes that are not ASCII. *)
Variable lower_run : string → string.
Definition is_ascii (a : ascii) : bool := (code a <? 128)%nat.
Definition flush (run : string) : string := if String.eqb run "" then "" else lower_run run.
Fixpoint lower_from (run s : string) : string :=
  match s with
  | "" => flush run
  | String a s' => if is_ascii a then flush run +:+ String (lower a) (lower_from "" s') else lower_from (run +:+ String a "") s'
  end.
(** [strings.ToLower]. *)
Definition to_lower (s : string) : string := lower_from "" s.

Definition nameMatches (rules : list Rule) (base : string) (fold : bool) : bool :=
  existsb (λ r, nameMarksTest (ru_Shape r) && negb (String.eqb (ru_Name r) "") &&
                path_match (namePattern (if fold then to_lower (ru_Name r) else ru_Name r)) base) rules.
Definition DirMarksTest (rules : list Rule) (rel : string) : bool :=
  existsb (λ r, dirMarksTest (ru_Shape r) && negb (String.eqb (trimmed_dir r) "") &&
                existsb (String.eqb (trimmed_dir r)) (split_on slash (path_dir rel))) rules.
Definition IsTest (rules : list Rule) (rel : string) : bool :=
  nameMatches rules (path_base rel) false || nameMatches Generic (path_base rel) false || DirMarksTest rules rel.
Definition marked_dir (r : Rule) (seg : string) : bool :=
  testDir (ru_Shape r) && negb (String.eqb (trimmed_dir r) "") && String.eqb (trimmed_dir r) seg.
Definition InTestTree (all : list (list Rule)) (rel : string) : bool :=
  existsb (λ seg, existsb (existsb (λ r, marked_dir r seg)) (Generic :: all)) (split_on slash (path_dir rel)).
Definition MightBeTest (all : list (list Rule)) (rel : string) : bool :=
  InTestTree all rel || existsb (λ rules, nameMatches rules (to_lower (path_base rel)) true) (Generic :: all).
End Lowercase.

(** ** The search (search.go) *)

Definition SearchRank : Z := 100.
(** The index of the lowest rank, if no other shares it. *)
Definition claim_step (acc : option (nat * Z) * bool) (ir : nat * Z) : option (nat * Z) * bool :=
  let '(winner, ok) := acc in
  match winner with
  | None => (Some ir, true)
  | Some (_, least) => if ir.2 <? least then (Some ir, true) else if ir.2 =? least then (winner, false) else acc
  end.
Definition BestClaim (ranks : list Z) : option nat :=
  let '(winner, ok) := foldl claim_step (None, false) (imap pair ranks) in if (ok : bool) then fst <$> winner else None.

Definition segments (dir : string) : list string := if String.eqb dir "" || String.eqb dir "." then [] else split_on slash dir.
Definition strip_prefix (s pre : string) : option string :=
  if has_prefix pre s && negb (String.eqb s pre) then Some (drop_str (String.length pre) s) else None.
Definition strip_suffix (s suf : string) : option string :=
  if has_suffix suf s && negb (String.eqb s suf) then Some (take_str (String.length s - String.length suf) s) else None.
Definition normalizeSeg (s : string) : string :=
  match head (omap (strip_prefix s) ["test_"; "spec_"] ++ omap (strip_suffix s) ["_test"; "_spec"]) with Some t => t | None => s end.
Fixpoint common_len (a b : list string) : nat :=
  match a, b with x :: a', y :: b' => if String.eqb x y then S (common_len a' b') else O | _, _ => O end.
Definition pathStemScore (a b : list string) : nat := common_len (rev a) (rev b).
Definition UnderRoots (rel : string) (roots : list string) : bool :=
  let '(first, _, found) := cut slash rel in found && existsb (String.eqb first) roots.
Definition searchBasenames (cands : list Candidate) : list string :=
  omap (λ c, if String.eqb (ca_Path c) "" then None else Some (path_base (ca_Path c))) cands.

Definition dir_segments (f : string) : list string := map normalizeSeg (segments (path_dir f)).
(** A file in the running, with its score and its normalized segments. *)
Definition Match : Type := string * nat * list string.
Definition better (new old : Match) : bool :=
  let '(f, score, segs) := new in
  let '(best, bestScore, bestSegs) := old in
  (bestScore <? score)%nat ||
  (score =? bestScore)%nat && ((length segs <? length bestSegs)%nat || (length segs =? length bestSegs)%nat && str_ltb f best).
Definition match_step (srcSegs : list string) (roots basenames : list string) (best : option Match) (f : string) : option Match :=
  if negb (UnderRoots f roots) || negb (bool_decide (path_base f ∈ basenames)) then best
  else
    let segs := dir_segments f in
    let new := (f, pathStemScore segs srcSegs, segs) in
    if (new.1.2 =? 0)%nat then best
    else match best with None => Some new | Some old => if better new old then Some new else best end.
Definition bestSearchMatch (codePath : string) (roots basenames universe : list string) : option string :=
  (λ m, m.1.1) <$> foldl (match_step (dir_segments codePath) roots basenames) None universe.

(** ** What a caller knows of the repository *)

(** The working directory and the links of the disk (confine.go). *)
Record Disk := mkDisk { dk_Getwd : option string; dk_EvalSymlinks : string → option string }.
Definition path_abs (dk : Disk) (p : string) : option string :=
  if is_abs p then Some (path_clean p) else (λ wd, path_join [wd; p]) <$> dk_Getwd dk.
Definition within (root p : string) : bool :=
  let rel := path_rel root p in negb (String.eqb rel "..") && negb (has_prefix "../" rel) && negb (is_abs rel).
Definition inside_disk (dk : Disk) (root disk : string) : bool :=
  match path_abs dk root, path_abs dk disk with
  | Some absRoot, Some absP =>
      within absRoot absP &&
      let realRoot := default absRoot (dk_EvalSymlinks dk absRoot) in
      match dk_EvalSymlinks dk absP with Some realP => within realRoot realP | None => true end
  | _, _ => false
  end.
Definition insideRoot (dk : Disk) (root p : string) : bool :=
  if negb (is_abs p) then
    let c := path_clean p in
    if String.eqb c ".." || has_prefix "../" c then false
    else if String.eqb root "" then true
    else inside_disk dk root (path_join [root; c])
  else if String.eqb root "" then false
  else inside_disk dk root p.

(** A read that failed: the build cannot read declarations at all, or the text of the error. *)
Inductive ReadErr := DeclarationsUnreadable | ReadFailed (text : string).
Record Sources := mkSources {
  so_Root : string;
  so_Disk : Disk;
  so_Exists : string → bool;
  so_Universe : result string (list string);
  so_TestModules : option (string → result ReadErr (list TestModule)) }.

Record Resolution := mkResolution {
  re_Path : string; re_Rank : Z; re_Shape : option Shape; re_Label : string; re_ViaSearch : bool; re_Tried : list string;
  re_Refused : list string; re_Roots : list string; re_Unreadable : bool; re_Found : bool }.
Definition unresolved : Resolution := mkResolution "" 0 None "" false [] [] [] false false.
Definition with_tried (r : Resolution) (p : string) : Resolution :=
  mkResolution (re_Path r) (re_Rank r) (re_Shape r) (re_Label r) (re_ViaSearch r) (re_Tried r ++ [p]) (re_Refused r) (re_Roots r) (re_Unreadable r) (re_Found r).
Definition with_refused (r : Resolution) (p : string) : Resolution :=
  mkResolution (re_Path r) (re_Rank r) (re_Shape r) (re_Label r) (re_ViaSearch r) (re_Tried r) (re_Refused r ++ [p]) (re_Roots r) (re_Unreadable r) (re_Found r).
Definition with_roots (r : Resolution) (roots : list string) : Resolution :=
  mkResolution (re_Path r) (re_Rank r) (re_Shape r) (re_Label r) (re_ViaSearch r) (re_Tried r) (re_Refused r) roots (re_Unreadable r) (re_Found r).
Definition found_at (r : Resolution) (path : string) (rank : Z) (shape : option Shape) (label : string) (viaSearch : bool) : Resolution :=
  mkResolution path rank shape label viaSearch (re_Tried r) (re_Refused r) (re_Roots r) (re_Unreadable r) true.
Definition unreadable : Resolution := mkResolution "" 0 None "" false [] [] [] true false.

(** ** Resolve (search.go) and Land (landing.go) *)

Inductive ResolveErr := NoReader (codePath : string) (shape : Shape) | CannotRead (codePath text : string) | CannotList (text : string).

Section Resolve.
Variable src : Sources.

Definition contentRules (rules : list Rule) : list Rule := List.filter (λ r, content (ru_Shape r)) rules.
(** The paths a rule's declarations name, with their labels, in order. *)
Definition declared_of (codePath : string) (mods : list TestModule) (content_ : list Rule) : list (Rule * (string * string)) :=
  flat_map (λ r, map (pair r) (fromModules (ru_Shape r) codePath mods)) content_.
Fixpoint try_declared (res : Resolution) (l : list (Rule * (string * string))) : Resolution :=
  match l with
  | [] => res
  | (r, (path, label)) :: rest =>
      if confined (ru_Shape r) && negb (insideRoot (so_Disk src) (so_Root src) path) then try_declared (with_refused res path) rest
      else
        let res := with_tried res path in
        if so_Exists src path then found_at res path (ru_Rank r) (Some (ru_Shape r)) label false else try_declared res rest
  end.
Definition resolveDeclared (content_ : list Rule) (codePath : string) (modules : string → result ReadErr (list TestModule)) : result ResolveErr Resolution :=
  match content_ with
  | [] => Ok unresolved
  | _ =>
      match modules codePath with
      | Err DeclarationsUnreadable => Ok unreadable
      | Err (ReadFailed text) => Err (CannotRead codePath text)
      | Ok mods => Ok (try_declared unresolved (declared_of codePath mods content_))
      end
  end.
Fixpoint try_candidates (res : Resolution) (cands : list Candidate) : Resolution :=
  match cands with
  | [] => res
  | c :: rest =>
      if String.eqb (ca_Path c) "" then try_candidates res rest
      else
        let res := with_tried res (ca_Path c) in
        if so_Exists src (ca_Path c) then found_at res (ca_Path c) (ca_Rank c) (Some (ca_Shape c)) (shape_text (ca_Shape c)) false
        else try_candidates res rest
  end.
Definition pure_candidates (rules : list Rule) (codePath : string) : list Candidate :=
  List.filter (λ c, negb (content (ca_Shape c))) (Candidates rules codePath).
Definition resolve_search (rules : list Rule) (codePath : string) (basenames : list string) (res : Resolution) : result ResolveErr Resolution :=
  let res := with_roots res (Roots rules) in
  match so_Universe src with
  | Err text => Err (CannotList text)
  | Ok universe =>
      Ok match bestSearchMatch codePath (re_Roots res) basenames universe with
         | Some f => found_at res f SearchRank (re_Shape res) (re_Label res) true
         | None => res
         end
  end.
Definition Resolve (rules : list Rule) (codePath : string) : result ResolveErr Resolution :=
  let content_ := contentRules rules in
  match content_, so_TestModules src with
  | r :: _, None => Err (NoReader codePath (ru_Shape r))
  | _, _ =>
      let! res := resolveDeclared content_ codePath (default (λ _, Ok []) (so_TestModules src)) in
      if re_Found res then Ok res
      else
        let cands := pure_candidates rules codePath in
        let res := try_candidates res cands in
        if re_Found res then Ok res
        else match searchBasenames cands with [] => Ok res | basenames => resolve_search rules codePath basenames res end
  end.

Record Landing := mkLanding {
  la_Path : string; la_Shape : option Shape; la_Label : string; la_Into : bool; la_Depth : Z; la_Read : bool; la_Unreadable : bool; la_Refused : list string }.
Definition landPrimary (read unreadable_ : bool) (refused : list string) (rules : list Rule) (codePath : string) : Landing :=
  match Primary rules codePath with
  | None => mkLanding "" None "" false 0 read unreadable_ refused
  | Some c => mkLanding (ca_Path c) (Some (ca_Shape c)) (shape_text (ca_Shape c)) (content (ca_Shape c)) (moduleDepth (ca_Shape c)) read unreadable_ refused
  end.
Definition Land (rules : list Rule) (codePath : string) : result ResolveErr Landing :=
  let content_ := contentRules rules in
  match content_, so_TestModules src with
  | _ :: _, Some modules =>
      let! res := resolveDeclared content_ codePath modules in
      if re_Unreadable res then Ok (landPrimary false true [] rules codePath)
      else
        match re_Found res, re_Shape res with
        | true, Some s => Ok (mkLanding (re_Path res) (Some s) (re_Label res) true (moduleDepth s) true false (re_Refused res))
        | _, _ => Ok (landPrimary true false (re_Refused res) rules codePath)
        end
  | _, _ => Ok (landPrimary false false [] rules codePath)
  end.
End Resolve.

(** ** One test, one source (internal/reposcan/candidate.go) *)

(** A source paired to a test, with the rank of the pairing and whether the operator wrote it down. *)
Record Paired := mkPaired { pr_Path : string; pr_TestPath : string; pr_Rank : Z; pr_Explicit : bool }.
(** The index in the group of a test's claimants that keeps it. *)
Definition loses (all : list Paired) (i : nat) (c : Paired) : bool :=
  let idxs := List.filter (λ p, String.eqb (pr_TestPath p.2) (pr_TestPath c)) (imap pair all) in
  if (length idxs <? 2)%nat then false
  else if existsb (λ p, pr_Explicit p.2) idxs then negb (pr_Explicit c)
  else match BestClaim (map (λ p, pr_Rank p.2) idxs) with
       | Some w => negb (bool_decide (fst <$> idxs !! w = Some i))
       | None => true
       end.
(** The sources that keep their test, and the paths of those that do not. *)
Definition demoteAmbiguousPairings (all : list Paired) : list Paired * list string :=
  let judged := imap (λ i c, (loses all i c, c)) all in
  (map snd (List.filter (λ x, negb x.1) judged), map (λ x, pr_Path x.2) (List.filter fst judged)).
