(* ===== verification/PairingFacts.v ===== *)
(** * Pairing is right

    Merged candidates are the reference merge of each path's claims ([Dedupe_exact]); a contested test goes to the strictly most
    specific claimant ([BestClaim_exact]) and then grades one source only ([demote_one_source]); a resolution is the first
    thing that exists in the order the rules give, or the best match of the search ([Resolve_exact]); an authored test lands where the
    declared test was found ([Land_follows_Resolve]); and a test by the strict question is one by the generous question ([IsTest_MightBeTest]). *)
From S2P Require Import Prelude GoLib GoText Paths TestMap Mutant Queue Pairing.
Local Open Scope string_scope.
Local Open Scope list_scope.
Local Open Scope Z_scope.
Local Open Scope corral_scope.

(** ** Merging *)

(** What a path's claims come to: the shape of the first, rank 0 if a sibling is among them and else the highest. *)
Definition claims_on (cands : list Candidate) (p : string) : list Candidate := List.filter (λ c, String.eqb (ca_Path c) p) cands.
Definition is_sibling (c : Candidate) : bool := sameDir (ca_Shape c).
Definition highest (l : list Candidate) : Z := match map ca_Rank l with [] => 0 | r :: rs => foldr Z.max r rs end.
Definition reference (cands : list Candidate) (p : string) : Candidate :=
  let l := claims_on cands p in
  mkCandidate p (if existsb is_sibling l then 0 else highest l) (match l with c :: _ => ca_Shape c | [] => Recognize end).
(** The paths in the order of their first claims. *)
Fixpoint firsts (ps : list string) : list string :=
  match ps with [] => [] | p :: rest => p :: List.filter (λ q, negb (String.eqb q p)) (firsts rest) end.

Lemma elem_of_firsts ps p : p ∈ firsts ps ↔ p ∈ ps.
Proof.
  induction ps as [|q ps IH]; [done|]. cbn. rewrite !elem_of_cons, elem_of_filter_where, IH.
  destruct (String.eqb_spec p q) as [->|]; [naive_solver|]. cbn. naive_solver.
Qed.
Lemma NoDup_filter_where {A} (f : A → bool) l : NoDup l → NoDup (List.filter f l).
Proof.
  induction 1 as [|x l Hx _ IH]; [constructor|]. cbn. destruct (f x); [|done]. constructor; [|done]. rewrite elem_of_filter_where. tauto.
Qed.
Lemma NoDup_firsts ps : NoDup (firsts ps).
Proof.
  induction ps as [|q ps IH]; [constructor|]. cbn. constructor; [|by apply NoDup_filter_where].
  rewrite elem_of_filter_where, String.eqb_refl. cbn. naive_solver.
Qed.
Lemma filter_filter_where {A} (f g : A → bool) l : List.filter f (List.filter g l) = List.filter (λ x, g x && f x) l.
Proof. induction l as [|x l IH]; [done|]. cbn. destruct (g x); cbn; [destruct (f x)|]; by rewrite IH. Qed.
Lemma firsts_snoc ps p : firsts (ps ++ [p]) = if bool_decide (p ∈ ps) then firsts ps else firsts ps ++ [p].
Proof.
  induction ps as [|q ps IH]; [done|]. cbn. rewrite IH. destruct (String.eqb_spec p q) as [->|Hne].
  - rewrite (bool_decide_true (q ∈ q :: ps)) by by left. destruct (bool_decide (q ∈ ps)); [done|]. rewrite List.filter_app. cbn. rewrite String.eqb_refl. cbn. by rewrite app_nil_r.
  - destruct (bool_decide_reflect (p ∈ ps)) as [Hin|Hin].
    + rewrite bool_decide_true by by right. done.
    + rewrite bool_decide_false by (rewrite elem_of_cons; tauto). rewrite List.filter_app. cbn. by rewrite (proj2 (String.eqb_neq p q) Hne).
Qed.

(** The rows after some claims. *)
Definition row_of (cands : list Candidate) (p : string) : Merged :=
  let l := claims_on cands p in
  mkMerged p (highest l) (match l with c :: _ => ca_Shape c | [] => Recognize end) (existsb is_sibling l).
Lemma foldr_max_snoc r rs x : foldr Z.max r (rs ++ [x]) = Z.max (foldr Z.max r rs) x.
Proof. induction rs as [|y rs IH]; cbn; [lia|]. rewrite IH. lia. Qed.
Lemma merge_into_snoc cands c : claims_on cands (ca_Path c) ≠ [] → merge_into c (row_of cands (ca_Path c)) = row_of (cands ++ [c]) (ca_Path c).
Proof.
  intros Hne. unfold merge_into, row_of, claims_on in *. rewrite List.filter_app. cbn [List.filter]. rewrite String.eqb_refl.
  cbn [mg_Path mg_MaxRank mg_Shape mg_Sibling]. rewrite existsb_app. cbn [existsb]. rewrite orb_false_r. destruct (List.filter _ cands) as [|d l]; [done|].
  cbn [app]. f_equal. unfold highest. cbn [map]. rewrite map_app. cbn [map]. rewrite foldr_max_snoc. destruct (Z.ltb_spec (foldr Z.max (ca_Rank d) (map ca_Rank l)) (ca_Rank c)); lia.
Qed.
Lemma row_of_other cands c p : p ≠ ca_Path c → row_of (cands ++ [c]) p = row_of cands p.
Proof. intros H. unfold row_of, claims_on. rewrite List.filter_app. cbn. by rewrite (proj2 (String.eqb_neq (ca_Path c) p) (not_eq_sym H)), app_nil_r. Qed.
Lemma claims_on_nil cands p : claims_on cands p = [] ↔ p ∉ map ca_Path cands.
Proof.
  unfold claims_on. induction cands as [|c l IH]; cbn; [split; [intros _ []%elem_of_nil|done]|].
  rewrite elem_of_cons. destruct (String.eqb_spec (ca_Path c) p) as [->|Hne]; [split; [done|tauto]|]. rewrite IH. split; [intros H [->|]; done|tauto].
Qed.
Lemma merge_one_rows cands c ps : NoDup ps → merge_one (map (row_of cands) ps) c =
  if bool_decide (ca_Path c ∈ ps) then map (λ p, if String.eqb p (ca_Path c) then merge_into c (row_of cands p) else row_of cands p) ps
  else map (row_of cands) ps ++ [mkMerged (ca_Path c) (ca_Rank c) (ca_Shape c) (sameDir (ca_Shape c))].
Proof.
  induction ps as [|p ps IH]; [done|]. intros [Hp Hps]%NoDup_cons. cbn. destruct (String.eqb_spec p (ca_Path c)) as [->|Hne].
  - rewrite bool_decide_true by by left. f_equal. apply map_ext_in. intros q Hq%list_elem_of_In. destruct (String.eqb_spec q (ca_Path c)) as [->|]; [done|done].
  - rewrite IH by done. destruct (bool_decide_reflect (ca_Path c ∈ ps)) as [Hin|Hin].
    + rewrite bool_decide_true by by right. done.
    + rewrite bool_decide_false by (rewrite elem_of_cons; intros [E|]; [by rewrite E in Hne|done]). done.
Qed.
Lemma merged_rows cands : foldl merge_one [] cands = map (row_of cands) (firsts (map ca_Path cands)).
Proof.
  induction cands as [|c cands IH] using rev_ind; [done|]. rewrite foldl_app, IH, map_app. cbn [foldl map]. rewrite firsts_snoc.
  rewrite merge_one_rows by apply NoDup_firsts. rewrite (bool_decide_ext _ (ca_Path c ∈ map ca_Path cands)) by apply elem_of_firsts.
  destruct (bool_decide_reflect (ca_Path c ∈ map ca_Path cands)) as [Hin|Hin].
  - apply map_ext. intros p. destruct (String.eqb_spec p (ca_Path c)) as [->|Hne]; [|by rewrite row_of_other].
    apply merge_into_snoc. rewrite claims_on_nil. tauto.
  - rewrite map_app. cbn [map]. f_equal.
    + apply map_ext_in. intros p Hp%list_elem_of_In. rewrite elem_of_firsts in Hp. symmetry. apply row_of_other. by intros ->.
    + unfold row_of, claims_on. rewrite List.filter_app. cbn [List.filter]. rewrite String.eqb_refl. apply claims_on_nil in Hin. unfold claims_on in Hin. rewrite Hin. cbn. by rewrite orb_false_r.
Qed.

Lemma Dedupe_reference cands : Dedupe cands = map (reference cands) (firsts (map ca_Path cands)).
Proof. unfold Dedupe. rewrite merged_rows, map_map. apply map_ext. done. Qed.
Lemma Dedupe_from cands c : c ∈ Dedupe cands → ∃ c', c' ∈ cands ∧ ca_Path c' = ca_Path c ∧ ca_Shape c' = ca_Shape c.
Proof.
  rewrite Dedupe_reference. intros (p & -> & Hp)%list_elem_of_fmap. rewrite elem_of_firsts in Hp. cbn [ca_Path ca_Shape reference].
  destruct (claims_on cands p) as [|c' l] eqn:E; [by apply claims_on_nil in E|]. exists c'. assert (c' ∈ claims_on cands p) as Hc by (rewrite E; by left).
  unfold claims_on in Hc. rewrite elem_of_filter_where in Hc. destruct Hc as [Hc Hpath]. bools. done.
Qed.

(** The merge is the reference merge. The candidates left are one a path, in the order the paths were first named; each keeps the shape of the first
    claim on its path; its rank is that of a sibling if a sibling names the path and otherwise the least specific of the ranks that claimed it. *)
Theorem Dedupe_exact cands : Dedupe cands = map (reference cands) (firsts (map ca_Path cands)) ∧ NoDup (map ca_Path (Dedupe cands)) ∧
  ∀ p, p ∈ map ca_Path (Dedupe cands) ↔ p ∈ map ca_Path cands.
Proof.
  split; [apply Dedupe_reference|]. rewrite Dedupe_reference, map_map. cbn. rewrite map_id. split; [apply NoDup_firsts|]. intros p. apply elem_of_firsts.
Qed.

(** ** Contested tests *)

Lemma imap_snoc {A B} (f : nat → A → B) l x : imap f (l ++ [x]) = imap f l ++ [f (length l) x].
Proof. rewrite imap_app. cbn. by rewrite Nat.add_0_r. Qed.
(** The least rank so far, where it is, and whether it is the only one. *)
Definition claim_inv (ranks : list Z) (st : option (nat * Z) * bool) : Prop :=
  match st.1 with
  | None => ranks = [] ∧ st.2 = false
  | Some (i, r) => ranks !! i = Some r ∧ (∀ j r', ranks !! j = Some r' → r <= r') ∧
      (st.2 = true ↔ ∀ j r', j ≠ i → ranks !! j = Some r' → r < r')
  end.
Lemma claim_snoc ranks st x : claim_inv ranks st → claim_inv (ranks ++ [x]) (claim_step st (length ranks, x)).
Proof.
  assert (∀ j r', (ranks ++ [x]) !! j = Some r' → ranks !! j = Some r' ∨ j = length ranks ∧ r' = x) as Hl.
  { intros j r'. rewrite lookup_snoc_Some. naive_solver. }
  destruct st as [[[i r]|] ok]; cbn.
  - intros (Hi & Hmin & Hok). assert (i ≠ length ranks) as Hne by (intros ->; rewrite lookup_ge_None_2 in Hi; [done|lia]).
    destruct (Z.ltb_spec x r) as [Hlt|Hge]; [|destruct (Z.eqb_spec x r) as [->|Hxr]]; cbn.
    + split; [apply list_lookup_middle; done|]. split; [|split; [|done]].
      * intros j r' [Hj|[_ ->]]%Hl; [|lia]. specialize (Hmin _ _ Hj). lia.
      * intros _ j r' Hj [Hj'|[-> _]]%Hl; [|done]. specialize (Hmin _ _ Hj'). lia.
    + split; [by apply lookup_app_l_Some|]. split; [|split; [done|]].
      * intros j r' [Hj|[_ ->]]%Hl; [by eapply Hmin|lia].
      * intros H. specialize (H (length ranks) r (not_eq_sym Hne) (list_lookup_middle _ _ _ _ eq_refl)). lia.
    + split; [by apply lookup_app_l_Some|]. split.
      * intros j r' [Hj|[_ ->]]%Hl; [by eapply Hmin|lia].
      * rewrite Hok. split.
        -- intros H j r' Hj [Hj'|[-> ->]]%Hl; [by eapply H|lia].
        -- intros H j r' Hj Hj'. apply (H j); [done|]. by apply lookup_app_l_Some.
  - intros [-> ->]. cbn. split; [done|]. split; [|split; [|done]].
    + intros [|j] r'; cbn; [intros [= ->]; lia|done].
    + intros _ [|j] r'; cbn; done.
Qed.
Lemma claims_inv ranks : claim_inv ranks (foldl claim_step (None, false) (imap pair ranks)).
Proof. induction ranks as [|x ranks IH] using rev_ind; [done|]. rewrite imap_snoc, foldl_app. by apply claim_snoc. Qed.

Lemma BestClaim_iff ranks i : BestClaim ranks = Some i ↔ ∃ r, ranks !! i = Some r ∧ ∀ j r', j ≠ i → ranks !! j = Some r' → r < r'.
Proof.
  unfold BestClaim. pose proof (claims_inv ranks) as H. destruct (foldl _ _ _) as [[[k r]|] ok]; cbn in H.
  - destruct H as (Hk & Hmin & Hok). destruct ok; cbn.
    + assert (∀ j r', j ≠ k → ranks !! j = Some r' → r < r') as Hlt by by apply Hok. split.
      * intros [= <-]. by exists r.
      * intros (r' & Hi & Hi'). f_equal. destruct (decide (i = k)) as [|Hne]; [done|]. specialize (Hlt _ _ Hne Hi). specialize (Hi' k r (not_eq_sym Hne) Hk). lia.
    + split; [done|]. intros (r' & Hi & Hi'). exfalso. assert (i = k) as ->.
      { destruct (decide (i = k)) as [|Hne]; [done|]. specialize (Hmin _ _ Hi). specialize (Hi' k r (not_eq_sym Hne) Hk). lia. }
      assert (r' = r) as -> by congruence. by apply Hok in Hi'.
  - destruct H as [-> ->]. split; [done|]. by intros (r & ? & _).
Qed.
(** A contested test goes to the claimant that is strictly more specific than every other one, and to nobody when the least rank is shared or there
    is no claimant: the result names an index exactly when the rank there is below each of the others. *)
Theorem BestClaim_exact ranks : match BestClaim ranks with
  | Some i => ∃ r, ranks !! i = Some r ∧ ∀ j r', j ≠ i → ranks !! j = Some r' → r < r'
  | None => ∀ i r, ranks !! i = Some r → ∃ j r', j ≠ i ∧ ranks !! j = Some r' ∧ r' <= r
  end.
Proof.
  destruct (BestClaim ranks) as [i|] eqn:E; [by apply BestClaim_iff|]. intros i r Hi.
  destruct (decide (Exists (λ jr, jr.1 ≠ i ∧ jr.2 <= r) (imap pair ranks))) as [(jr & Hin & Hne & Hle)%Exists_exists|Hno].
  - apply elem_of_lookup_imap in Hin as (j & r' & -> & Hj). exists j, r'. done.
  - exfalso. assert (BestClaim ranks = Some i) as E'; [|congruence]. apply BestClaim_iff. exists r. split; [done|].
    intros j r' Hne Hj. destruct (Z.lt_ge_cases r r') as [|Hge]; [done|]. exfalso. apply Hno, Exists_exists. exists (j, r'). split; [|done].
    apply elem_of_lookup_imap. by exists j, r'.
Qed.

(** Another source on the same test; and when a source keeps its own. *)
Definition rival (all : list Paired) (i : nat) (c : Paired) (j : nat) (d : Paired) : Prop :=
  j ≠ i ∧ all !! j = Some d ∧ pr_TestPath d = pr_TestPath c.
Definition keeps (all : list Paired) (i : nat) (c : Paired) : Prop :=
  pr_Explicit c = true ∨ ∀ j d, rival all i c j d → pr_Explicit d = false ∧ pr_Rank c < pr_Rank d.

Definition group (all : list Paired) (c : Paired) : list (nat * Paired) :=
  List.filter (λ p, String.eqb (pr_TestPath p.2) (pr_TestPath c)) (imap pair all).
Lemma elem_of_group all c j d : (j, d) ∈ group all c ↔ all !! j = Some d ∧ pr_TestPath d = pr_TestPath c.
Proof.
  unfold group. rewrite elem_of_filter_where. cbn. rewrite String.eqb_eq. rewrite elem_of_lookup_imap. split.
  - intros [(k & x & [= -> ->] & Hk) ?]. done.
  - intros [Hj ?]. split; [by exists j, d|done].
Qed.
Lemma NoDup_group all c : NoDup (map fst (group all c)).
Proof.
  assert (NoDup (map fst (imap pair all))) as H.
  { assert (map fst (imap pair all) = seq 0 (length all)) as ->; [|apply NoDup_seq]. generalize all. clear.
    induction all as [|x l IH] using rev_ind; [done|]. rewrite imap_snoc, map_app, IH, length_app. cbn. rewrite Nat.add_1_r. by rewrite seq_S. }
  unfold group. generalize dependent (imap pair all). induction l as [|[k d] l IH]; [done|]. cbn. intros [Hk Hl]%NoDup_cons.
  destruct (String.eqb _ _); [|by apply IH]. cbn. constructor; [|by apply IH].
  intros ([k' d'] & E & Hin)%list_elem_of_fmap. cbn in E. subst k'. rewrite elem_of_filter_where in Hin. apply Hk, list_elem_of_fmap. exists (k, d'). split; [done|apply Hin].
Qed.
Lemma group_at all c k j d k' d' : group all c !! k = Some (j, d) → group all c !! k' = Some (j, d') → k = k'.
Proof.
  intros H1 H2. apply (NoDup_lookup (map fst (group all c)) k k' j); [apply NoDup_group|..]; by rewrite list_lookup_fmap, ?H1, ?H2.
Qed.
Lemma loses_keeps all i c : all !! i = Some c → loses all i c = false ↔ keeps all i c.
Proof.
  intros Hi. unfold loses. fold (group all c). assert ((i, c) ∈ group all c) as Hin by by apply elem_of_group.
  destruct (Nat.ltb_spec (length (group all c)) 2) as [Hlen|Hlen].
  - split; [|done]. intros _. right. intros j d (Hne & Hj & Ht). exfalso. assert ((j, d) ∈ group all c) as Hin' by by apply elem_of_group.
    destruct (group all c) as [|x [|y l]]; [by apply elem_of_nil in Hin| |cbn in Hlen; lia]. apply list_elem_of_singleton in Hin, Hin'. congruence.
  - destruct (existsb (λ p, pr_Explicit p.2) (group all c)) eqn:Ex.
    + apply existsb_exists in Ex as ([j d] & [Hj Ht]%list_elem_of_In%elem_of_group & Hd). cbn in Hd. rewrite negb_false_iff. split; [by left|].
      intros [|Hk]; [done|]. destruct (decide (j = i)) as [->|Hne]; [congruence|]. destruct (Hk j d) as [? _]; [done|congruence].
    + assert (∀ j d, (j, d) ∈ group all c → pr_Explicit d = false) as Hno.
      { intros j d Hjd. apply not_true_iff_false. intros Hd. apply not_true_iff_false in Ex. apply Ex, existsb_exists. exists (j, d). split; [by apply list_elem_of_In|done]. }
      apply list_elem_of_lookup in Hin as Hk. destruct Hk as [k Hk].
      assert (BestClaim (map (λ p, pr_Rank p.2) (group all c)) = Some k ↔ ∀ j d, rival all i c j d → pr_Rank c < pr_Rank d) as Hbest.
      { rewrite BestClaim_iff. split.
        - intros (r & Hr & Hlt) j d (Hne & Hj & Ht). change (map ?f ?l) with (f <$> l) in *. rewrite list_lookup_fmap, Hk in Hr. injection Hr as <-.
          assert ((j, d) ∈ group all c) as [k' Hk']%list_elem_of_lookup by by apply elem_of_group.
          apply (Hlt k'); [|by rewrite list_lookup_fmap, Hk']. intros ->. congruence.
        - intros Hlt. exists (pr_Rank c). change (map ?f ?l) with (f <$> l) in *. rewrite list_lookup_fmap, Hk. split; [done|]. intros k' r' Hne. rewrite list_lookup_fmap.
          destruct (group all c !! k') as [[j d]|] eqn:Hk'; [|done]. intros [= <-]. assert ((j, d) ∈ group all c) as [Hj Ht]%elem_of_group by by eapply list_elem_of_lookup_2.
          apply (Hlt j). split; [|done]. intros ->. by apply Hne, (group_at all c k' i d k c). }
      assert (match BestClaim (map (λ p, pr_Rank p.2) (group all c)) with Some w => negb (bool_decide (fst <$> group all c !! w = Some i)) | None => true end = false
              ↔ BestClaim (map (λ p, pr_Rank p.2) (group all c)) = Some k) as ->.
      { destruct (BestClaim _) as [w|]; [|done]. rewrite negb_false_iff, bool_decide_eq_true. split.
        - destruct (group all c !! w) as [[j d]|] eqn:Hw; [|done]. intros [= ->]. f_equal. by apply (group_at all c w i d k c).
        - intros [= ->]. by rewrite Hk. }
      rewrite Hbest. split.
      * intros H. right. intros j d Hr. split; [|by eapply H]. destruct Hr as (_ & Hj & Ht). apply (Hno j). by apply elem_of_group.
      * intros [He|H] j d Hr; [|by eapply H]. apply list_elem_of_lookup_2, Hno in Hk. congruence.
Qed.

(** C25. One test grades one source. A source keeps its test exactly when the operator wrote the pairing down, or when nobody wrote down another source
    for that test and its own rank is strictly below that of every other claimant; the others are listed as ambiguous; so two sources that keep one test
    were both written down. *)
Theorem demote_one_source all kept lost : demoteAmbiguousPairings all = (kept, lost) →
  (∀ c, c ∈ kept ↔ ∃ i, all !! i = Some c ∧ keeps all i c) ∧
  (∀ p, p ∈ lost ↔ ∃ i c, all !! i = Some c ∧ ¬ keeps all i c ∧ pr_Path c = p) ∧
  (length kept + length lost = length all)%nat ∧
  ∀ i j c d, i ≠ j → all !! i = Some c → all !! j = Some d → pr_TestPath c = pr_TestPath d → keeps all i c → keeps all j d →
    pr_Explicit c = true ∧ pr_Explicit d = true.
Proof.
  unfold demoteAmbiguousPairings. intros [= <- <-]. split_and!.
  - intros c. rewrite list_elem_of_fmap. setoid_rewrite elem_of_filter_where. setoid_rewrite elem_of_lookup_imap. split.
    + intros ([b c'] & -> & (i & x & [= -> ->] & Hi) & Hl). cbn in *. exists i. split; [done|]. apply loses_keeps; [done|]. by destruct (loses all i x).
    + intros (i & Hi & Hk). exists (loses all i c, c). split; [done|]. split; [by exists i, c|]. cbn. by rewrite (proj2 (loses_keeps _ _ _ Hi) Hk).
  - intros p. rewrite list_elem_of_fmap. setoid_rewrite elem_of_filter_where. setoid_rewrite elem_of_lookup_imap. split.
    + intros ([b c'] & -> & (i & x & [= -> ->] & Hi) & Hl). cbn in *. exists i, x. split_and!; [done| |done]. intros Hk%loses_keeps; [congruence|done].
    + intros (i & c & Hi & Hk & <-). exists (loses all i c, c). split; [done|]. split; [by exists i, c|]. cbn. apply not_false_iff_true. intros ?%loses_keeps; done.
  - rewrite !length_map. rewrite <- (length_imap (λ i c, (loses all i c, c)) all). generalize (imap (λ i c, (loses all i c, c)) all).
    intros l. induction l as [|[[] c] l IH]; cbn in *; lia.
  - intros i j c d Hne Hi Hj Ht [Hc|Hc] [Hd|Hd]; [done|exfalso..].
    + destruct (Hd i c) as [? _]; [done|congruence].
    + destruct (Hc j d) as [? _]; [done|congruence].
    + destruct (Hc j d), (Hd i c); [done..|lia].
Qed.

(** ** The search *)

Definition eligible (srcSegs roots basenames : list string) (f : string) : bool :=
  UnderRoots f roots && bool_decide (path_base f ∈ basenames) && negb (pathStemScore (dir_segments f) srcSegs =? 0)%nat.
Definition as_match (srcSegs : list string) (f : string) : Match := (f, pathStemScore (dir_segments f) srcSegs, dir_segments f).

Lemma match_step_eligible srcSegs roots basenames best f : match_step srcSegs roots basenames best f =
  if eligible srcSegs roots basenames f
  then match best with None => Some (as_match srcSegs f) | Some old => if better (as_match srcSegs f) old then Some (as_match srcSegs f) else best end
  else best.
Proof.
  unfold match_step, eligible, as_match. destruct (UnderRoots f roots); [|done]. destruct (bool_decide (path_base f ∈ basenames)); [|done].
  cbn [negb orb andb fst snd]. by destruct (_ =? 0)%nat.
Qed.
(** Of two files one is better; and better is transitive. *)
Lemma better_total s f g : f ≠ g → better (as_match s f) (as_match s g) = false → better (as_match s g) (as_match s f) = true.
Proof.
  unfold better, as_match. intros Hne H. apply orb_false_elim in H as [H1 H2]. apply Nat.ltb_ge in H1.
  destruct (Nat.eqb_spec (pathStemScore (dir_segments f) s) (pathStemScore (dir_segments g) s)) as [E|E].
  - rewrite E, Nat.ltb_irrefl, Nat.eqb_refl. cbn [orb andb] in *. apply orb_false_elim in H2 as [H2 H3]. apply Nat.ltb_ge in H2.
    destruct (Nat.eqb_spec (length (dir_segments f)) (length (dir_segments g))) as [El|El].
    + rewrite El, Nat.ltb_irrefl, Nat.eqb_refl in *. cbn [orb andb] in *. apply not_false_iff_true. intros H4. apply Hne. by apply str_ltb_total.
    + apply orb_true_intro. left. apply Nat.ltb_lt. lia.
  - apply orb_true_intro. left. apply Nat.ltb_lt. lia.
Qed.
Lemma better_trans s f g h : better (as_match s f) (as_match s g) = true → better (as_match s g) (as_match s h) = true → better (as_match s f) (as_match s h) = true.
Proof.
  unfold better, as_match. rewrite !orb_true_iff, !andb_true_iff, !orb_true_iff, !andb_true_iff, !Nat.ltb_lt, !Nat.eqb_eq.
  intros H1 H2. destruct H1 as [H1|[E1 H1]], H2 as [H2|[E2 H2]]; [left; lia..|]. right. split; [lia|].
  destruct H1 as [H1|[L1 S1]], H2 as [H2|[L2 S2]]; [left; lia..|]. right. split; [lia|].
  apply not_false_iff_true. intros H. pose proof (less_cotrans str_ltb _ _ _ (less_asym str_ltb _ _ S2) H) as H'. congruence.
Qed.
Lemma better_irrefl s f : better (as_match s f) (as_match s f) = false.
Proof. unfold better, as_match. rewrite Nat.ltb_irrefl, Nat.eqb_refl, Nat.ltb_irrefl, Nat.eqb_refl. cbn [orb andb]. destruct (str_ltb f f) eqn:E; [|done]. by rewrite (less_asym str_ltb _ _ E) in E. Qed.

Lemma matches_best srcSegs roots basenames universe :
  match foldl (match_step srcSegs roots basenames) None universe with
  | Some m => ∃ f, m = as_match srcSegs f ∧ f ∈ universe ∧ eligible srcSegs roots basenames f = true ∧
      ∀ g, g ∈ universe → eligible srcSegs roots basenames g = true → g ≠ f → better (as_match srcSegs f) (as_match srcSegs g) = true
  | None => ∀ g, g ∈ universe → eligible srcSegs roots basenames g = false
  end.
Proof.
  induction universe as [|x us IH] using rev_ind; [by intros g ?%elem_of_nil|]. rewrite foldl_app. cbn [foldl]. rewrite match_step_eligible.
  destruct (eligible srcSegs roots basenames x) eqn:Ex.
  - destruct (foldl _ None us) as [m|].
    + destruct IH as (f & -> & Hf & He & Hb). destruct (better (as_match srcSegs x) (as_match srcSegs f)) eqn:Eb.
      * exists x. split_and!; [done|apply elem_of_app; right; by left|done|]. intros g [Hg| ->%list_elem_of_singleton]%elem_of_app Hge Hne; [|done].
        destruct (decide (g = f)) as [->|]; [done|]. eapply better_trans; [done|]. by apply Hb.
      * exists f. split_and!; [done|apply elem_of_app; by left|done|]. intros g [Hg| ->%list_elem_of_singleton]%elem_of_app Hge Hne; [by apply Hb|].
        by apply better_total.
    + exists x. split_and!; [done|apply elem_of_app; right; by left|done|]. intros g [Hg| ->%list_elem_of_singleton]%elem_of_app Hge Hne; [|done]. by rewrite (IH g Hg) in Hge.
  - destruct (foldl _ None us) as [m|].
    + destruct IH as (f & -> & Hf & He & Hb). exists f. split_and!; [done|apply elem_of_app; by left|done|].
      intros g [Hg| ->%list_elem_of_singleton]%elem_of_app Hge Hne; [by apply Hb|congruence].
    + intros g [Hg| ->%list_elem_of_singleton]%elem_of_app; [by apply IH|done].
Qed.
(** The search finds the one best match. What it returns is a file of the listing under one of the roots, with one of the names, and sharing at
    least one trailing directory with the source once test affixes are dropped; every other such file is worse: it shares fewer, or lies deeper, or comes
    later in byte order; nothing is returned only when there is no such file. So the order of the listing does not matter. *)
Theorem bestSearchMatch_exact codePath roots basenames universe :
  match bestSearchMatch codePath roots basenames universe with
  | Some f => f ∈ universe ∧ eligible (dir_segments codePath) roots basenames f = true ∧
      ∀ g, g ∈ universe → eligible (dir_segments codePath) roots basenames g = true → g ≠ f →
        better (as_match (dir_segments codePath) f) (as_match (dir_segments codePath) g) = true
  | None => ∀ g, g ∈ universe → eligible (dir_segments codePath) roots basenames g = false
  end ∧
  ∀ universe', universe ≡ₚ universe' → bestSearchMatch codePath roots basenames universe' = bestSearchMatch codePath roots basenames universe.
Proof.
  assert (∀ us, match bestSearchMatch codePath roots basenames us with
    | Some f => f ∈ us ∧ eligible (dir_segments codePath) roots basenames f = true ∧
        ∀ g, g ∈ us → eligible (dir_segments codePath) roots basenames g = true → g ≠ f → better (as_match (dir_segments codePath) f) (as_match (dir_segments codePath) g) = true
    | None => ∀ g, g ∈ us → eligible (dir_segments codePath) roots basenames g = false end) as H.
  { intros us. unfold bestSearchMatch. pose proof (matches_best (dir_segments codePath) roots basenames us) as H. destruct (foldl _ _ _) as [m|]; [|done].
    destruct H as (f & -> & H). done. }
  split; [apply H|]. intros us' Hp. pose proof (H universe) as H1. pose proof (H us') as H2.
  assert (∀ g, g ∈ us' ↔ g ∈ universe) as Hin by (intros g; by rewrite Hp).
  destruct (bestSearchMatch _ _ _ us') as [f'|], (bestSearchMatch _ _ _ universe) as [f|]; setoid_rewrite Hin in H2.
  - destruct H1 as (Hf & He & Hb), H2 as (Hf' & He' & Hb'). f_equal. destruct (decide (f' = f)) as [|Hne]; [done|]. exfalso.
    pose proof (better_trans _ _ _ _ (Hb f' Hf' He' Hne) (Hb' f Hf He (not_eq_sym Hne))) as E. by rewrite better_irrefl in E.
  - destruct H2 as (Hf & He & _). by rewrite H1 in He.
  - destruct H1 as (Hf & He & _). by rewrite H2 in He.
  - done.
Qed.

(** ** Resolving *)

Section Resolving.
Variable src : Sources.

(** What a source declares under the rules: each path with its rule and label, in order. *)
Definition declarations (rules : list Rule) (codePath : string) : list (Rule * (string * string)) :=
  match contentRules rules, so_TestModules src with
  | _ :: _, Some modules => match modules codePath with Ok mods => declared_of codePath mods (contentRules rules) | Err _ => [] end
  | _, _ => []
  end.
(** A declared path that is looked for: it stays inside the repository if its shape is confined. *)
Definition looked_for (d : Rule * (string * string)) : bool := negb (confined (ru_Shape d.1) && negb (insideRoot (so_Disk src) (so_Root src) d.2.1)).
Definition named_candidates (rules : list Rule) (codePath : string) : list Candidate :=
  List.filter (λ c, negb (String.eqb (ca_Path c) "")) (pure_candidates rules codePath).

(** The four ways a resolution ends, in their order. *)
Inductive Resolves (rules : list Rule) (codePath : string) (res : Resolution) : Prop :=
| by_declaration before d after : declarations rules codePath = before ++ d :: after → looked_for d = true → so_Exists src d.2.1 = true →
    (∀ x, x ∈ before → looked_for x = true → so_Exists src x.2.1 = false) →
    re_Found res = true → re_ViaSearch res = false → re_Path res = d.2.1 → re_Rank res = ru_Rank d.1 → re_Shape res = Some (ru_Shape d.1) →
    re_Label res = d.2.2 → re_Refused res = map (λ x, x.2.1) (List.filter (λ x, negb (looked_for x)) before) → Resolves rules codePath res
| by_convention before c after : (∀ x, x ∈ declarations rules codePath → looked_for x = true → so_Exists src x.2.1 = false) →
    named_candidates rules codePath = before ++ c :: after → so_Exists src (ca_Path c) = true → (∀ x, x ∈ before → so_Exists src (ca_Path x) = false) →
    re_Found res = true → re_ViaSearch res = false → re_Path res = ca_Path c → re_Rank res = ca_Rank c → re_Shape res = Some (ca_Shape c) → Resolves rules codePath res
| by_search f universe : (∀ x, x ∈ declarations rules codePath → looked_for x = true → so_Exists src x.2.1 = false) →
    (∀ x, x ∈ named_candidates rules codePath → so_Exists src (ca_Path x) = false) →
    so_Universe src = Ok universe → bestSearchMatch codePath (Roots rules) (searchBasenames (pure_candidates rules codePath)) universe = Some f →
    re_Found res = true → re_ViaSearch res = true → re_Path res = f → re_Rank res = SearchRank → re_Shape res = None → Resolves rules codePath res
| not_found : (∀ x, x ∈ declarations rules codePath → looked_for x = true → so_Exists src x.2.1 = false) →
    (∀ x, x ∈ named_candidates rules codePath → so_Exists src (ca_Path x) = false) →
    (searchBasenames (pure_candidates rules codePath) = [] ∨
     ∃ universe, so_Universe src = Ok universe ∧ bestSearchMatch codePath (Roots rules) (searchBasenames (pure_candidates rules codePath)) universe = None) →
    re_Found res = false → re_Path res = "" → re_Shape res = None →
    re_Tried res = map (λ x, x.2.1) (List.filter looked_for (declarations rules codePath)) ++ map ca_Path (named_candidates rules codePath) →
    re_Refused res = map (λ x, x.2.1) (List.filter (λ x, negb (looked_for x)) (declarations rules codePath)) → Resolves rules codePath res.

(** The state of a resolution that has found nothing yet. *)
Record pending (res : Resolution) (tried refused : list string) : Prop := {
  pe_found : re_Found res = false; pe_path : re_Path res = ""; pe_shape : re_Shape res = None; pe_tried : re_Tried res = tried; pe_refused : re_Refused res = refused }.

Lemma try_declared_exact l : ∀ res tried refused, pending res tried refused → let r := try_declared src res l in
  (∃ before d after, l = before ++ d :: after ∧ looked_for d = true ∧ so_Exists src d.2.1 = true ∧
     (∀ x, x ∈ before → looked_for x = true → so_Exists src x.2.1 = false) ∧ re_Found r = true ∧ re_ViaSearch r = false ∧ re_Path r = d.2.1 ∧
     re_Rank r = ru_Rank d.1 ∧ re_Shape r = Some (ru_Shape d.1) ∧ re_Label r = d.2.2 ∧ re_Unreadable r = re_Unreadable res ∧
     re_Refused r = refused ++ map (λ x, x.2.1) (List.filter (λ x, negb (looked_for x)) before)) ∨
  (∀ x, x ∈ l → looked_for x = true → so_Exists src x.2.1 = false) ∧ re_Unreadable r = re_Unreadable res ∧
  pending r (tried ++ map (λ x, x.2.1) (List.filter looked_for l)) (refused ++ map (λ x, x.2.1) (List.filter (λ x, negb (looked_for x)) l)).
Proof.
  induction l as [|[rule [path label]] l IH]; intros res tried refused Hp; cbn.
  - right. split; [by intros ? ?%elem_of_nil|]. split; [done|]. by rewrite !app_nil_r.
  - assert (looked_for (rule, (path, label)) = negb (confined (ru_Shape rule) && negb (insideRoot (so_Disk src) (so_Root src) path))) as El by done. rewrite El.
    destruct (confined (ru_Shape rule) && negb (insideRoot (so_Disk src) (so_Root src) path)); cbn [negb] in *.
    + assert (pending (with_refused res path) tried (refused ++ [path])) as Hp' by (destruct Hp; split; try done; cbn; by f_equal).
      destruct (IH _ _ _ Hp') as [(before & d & after & -> & Hd & He & Hb & H)|(Hno & Hu & H)].
      * left. exists ((rule, (path, label)) :: before), d, after. split_and!; [done|done|done| |apply H..| |].
        -- intros x [-> |Hx]%elem_of_cons; [by rewrite El|by apply Hb].
        -- apply H.
        -- destruct H as (_ & _ & _ & _ & _ & _ & _ & ->). cbn. rewrite El. cbn. by rewrite <- app_assoc.
      * right. split; [intros x [-> |Hx]%elem_of_cons; [by rewrite El|by apply Hno]|]. split; [done|]. cbn. by rewrite <- app_assoc in H.
    + destruct (so_Exists src path) eqn:Ee.
      * left. exists [], (rule, (path, label)), l. destruct Hp. split_and!; try done; [by intros ? ?%elem_of_nil|]. cbn. by rewrite app_nil_r.
      * assert (pending (with_tried res path) (tried ++ [path]) refused) as Hp' by (destruct Hp; split; try done; cbn; by f_equal).
        destruct (IH _ _ _ Hp') as [(before & d & after & -> & Hd & He & Hb & H)|(Hno & Hu & H)].
        -- left. exists ((rule, (path, label)) :: before), d, after. split_and!; [done|done|done| |apply H..| |].
           ++ intros x [-> |Hx]%elem_of_cons; [done|by apply Hb].
           ++ apply H.
           ++ destruct H as (_ & _ & _ & _ & _ & _ & _ & ->). cbn. by rewrite El.
        -- right. split; [intros x [-> |Hx]%elem_of_cons; [done|by apply Hno]|]. split; [done|]. cbn. by rewrite <- app_assoc in H.
Qed.
Lemma try_candidates_exact cands : ∀ res tried refused, pending res tried refused → let r := try_candidates src res cands in
  let named := List.filter (λ c, negb (String.eqb (ca_Path c) "")) cands in
  (∃ before c after, named = before ++ c :: after ∧ so_Exists src (ca_Path c) = true ∧ (∀ x, x ∈ before → so_Exists src (ca_Path x) = false) ∧
     re_Found r = true ∧ re_ViaSearch r = false ∧ re_Path r = ca_Path c ∧ re_Rank r = ca_Rank c ∧ re_Shape r = Some (ca_Shape c)) ∨
  (∀ x, x ∈ named → so_Exists src (ca_Path x) = false) ∧ pending r (tried ++ map ca_Path named) refused.
Proof.
  induction cands as [|c cands IH]; intros res tried refused Hp; cbn.
  - right. split; [by intros ? ?%elem_of_nil|]. by rewrite app_nil_r.
  - destruct (String.eqb (ca_Path c) ""); cbn [negb]; [by apply IH|].
    destruct (so_Exists src (ca_Path c)) eqn:Ee.
    + left. exists [], c, (List.filter (λ c, negb (String.eqb (ca_Path c) "")) cands). split_and!; try done. by intros ? ?%elem_of_nil.
    + assert (pending (with_tried res (ca_Path c)) (tried ++ [ca_Path c]) refused) as Hp' by (destruct Hp; split; try done; cbn; by f_equal).
      destruct (IH _ _ _ Hp') as [(before & d & after & E & He & Hb & H)|(Hno & H)].
      * left. exists (c :: before), d, after. rewrite E. split_and!; [done|done| |apply H..]. intros x [-> |Hx]%elem_of_cons; [done|by apply Hb].
      * right. split; [intros x [-> |Hx]%elem_of_cons; [done|by apply Hno]|]. cbn. by rewrite <- app_assoc in H.
Qed.

(** The declared stage, as both Resolve and Land run it. *)
Lemma resolveDeclared_exact rules codePath res : (contentRules rules = [] ∨ is_Some (so_TestModules src)) →
  resolveDeclared src (contentRules rules) codePath (default (λ _, Ok []) (so_TestModules src)) = Ok res →
  (∃ before d after, declarations rules codePath = before ++ d :: after ∧ looked_for d = true ∧ so_Exists src d.2.1 = true ∧
     (∀ x, x ∈ before → looked_for x = true → so_Exists src x.2.1 = false) ∧ re_Found res = true ∧ re_ViaSearch res = false ∧ re_Path res = d.2.1 ∧
     re_Rank res = ru_Rank d.1 ∧ re_Shape res = Some (ru_Shape d.1) ∧ re_Label res = d.2.2 ∧ re_Unreadable res = false ∧
     re_Refused res = map (λ x, x.2.1) (List.filter (λ x, negb (looked_for x)) before)) ∨
  (∀ x, x ∈ declarations rules codePath → looked_for x = true → so_Exists src x.2.1 = false) ∧
  pending res (map (λ x, x.2.1) (List.filter looked_for (declarations rules codePath)))
    (map (λ x, x.2.1) (List.filter (λ x, negb (looked_for x)) (declarations rules codePath))).
Proof.
  unfold resolveDeclared, declarations. assert (pending unresolved [] []) as Hp by done. assert (pending unreadable [] []) as Hu by done.
  destruct (contentRules rules) as [|r l] eqn:Ec.
  - intros _ [= <-]. right. split; [by intros ? ?%elem_of_nil|]. done.
  - intros [|[modules Em]]; [done|]. rewrite Em. cbn [default from_option id]. destruct (modules codePath) as [mods|[|text]]; [| |done].
    + intros [= <-]. destruct (try_declared_exact (declared_of codePath mods (r :: l)) unresolved [] [] Hp) as [H|(Hno & _ & H)]; [by left|by right].
    + intros [= <-]. right. split; [by intros ? ?%elem_of_nil|]. done.
Qed.

Lemma Resolution_cases rules codePath res : Resolve src rules codePath = Ok res → Resolves rules codePath res.
Proof.
  unfold Resolve. intros H. assert ((contentRules rules = [] ∨ is_Some (so_TestModules src)) ∧
    (let! res := resolveDeclared src (contentRules rules) codePath (default (λ _, Ok []) (so_TestModules src)) in
     if re_Found res then Ok res
     else let res := try_candidates src res (pure_candidates rules codePath) in
       if re_Found res then Ok res
       else match searchBasenames (pure_candidates rules codePath) with [] => Ok res | b => resolve_search src rules codePath b res end) = Ok res) as [Hc E].
  { destruct (contentRules rules); [by split; [left|]|]. destruct (so_TestModules src); [|done]. split; [by right|done]. }
  clear H. apply rbind_Ok in E as (r & Hr & E). destruct (resolveDeclared_exact _ _ _ Hc Hr) as [(before & d & after & Hd & Hl & He & Hb & Hf & Hv & Hp & Hrk & Hs & Hlab & _ & Href)|[Hno Hpend]].
  - rewrite Hf in E. injection E as <-. by eapply by_declaration.
  - rewrite (pe_found _ _ _ Hpend) in E. cbv zeta in E. destruct (try_candidates_exact (pure_candidates rules codePath) _ _ _ Hpend) as [(before & c & after & Hn & He & Hb & Hf & Hv & Hp & Hrk & Hs)|[Hno' Hpend']].
    + rewrite Hf in E. injection E as <-. by eapply by_convention.
    + rewrite (pe_found _ _ _ Hpend') in E. destruct (searchBasenames (pure_candidates rules codePath)) as [|b bs] eqn:Eb.
      * injection E as <-. destruct Hpend'. apply not_found; try done. by left.
      * unfold resolve_search in E. destruct (so_Universe src) as [universe|] eqn:Eu; [|done]. injection E as <-. cbn [re_Roots with_roots].
        destruct (bestSearchMatch codePath (Roots rules) (b :: bs) universe) as [f|] eqn:Ef.
        -- eapply by_search; try done; [by rewrite Eb|]. cbn. apply (pe_shape _ _ _ Hpend').
        -- destruct Hpend'. apply not_found; try done. right. exists universe. by rewrite Eb.
Qed.
(** C26. A resolution is the first thing that is there. Whatever is returned without error was reached in this order: the first path the source declares
    that stays inside the repository (where its shape must) and exists; then, if none does, the first candidate of the conventions that exists; then the
    best match of the search; and nothing is reported missing before all of these were looked for, each path by name. *)
Theorem Resolve_exact rules codePath res : Resolve src rules codePath = Ok res → Resolves rules codePath res.
Proof. apply Resolution_cases. Qed.

(** A path outside the repository is never the answer of a confined shape. *)
Lemma declared_content rules codePath d : d ∈ declarations rules codePath → content (ru_Shape d.1) = true.
Proof.
  unfold declarations. destruct (contentRules rules) as [|r l] eqn:Ec; [by intros ?%elem_of_nil|]. destruct (so_TestModules src) as [modules|]; [|by intros ?%elem_of_nil].
  destruct (modules codePath) as [mods|]; [|by intros ?%elem_of_nil]. rewrite <- Ec. unfold declared_of. intros Hd%list_elem_of_In. apply in_flat_map in Hd as (x & Hx & Hd).
  apply in_map_iff in Hd as (y & <- & _). unfold contentRules in Hx. by apply filter_In in Hx as [_ Hx].
Qed.
Lemma pure_candidate rules codePath before c after : named_candidates rules codePath = before ++ c :: after → content (ca_Shape c) = false.
Proof.
  intros E. assert (c ∈ named_candidates rules codePath) as H by (rewrite E; apply elem_of_app; right; by left).
  unfold named_candidates, pure_candidates in H. rewrite !elem_of_filter_where in H. destruct H as [[_ H] _]. by apply negb_true_iff.
Qed.

(** An authored test goes where the source's own test was found. When the source is resolved through what it declares, its landing is that very
    file, to be appended to, at the depth of the shape that named it; when it is resolved any other way, or not at all, the landing is the name a new
    test would be given, appended to only if that name is the source itself. *)
Theorem Land_follows_Resolve rules codePath res l : Resolve src rules codePath = Ok res → Land src rules codePath = Ok l →
  match re_Shape res with
  | Some s =>
      if content s then la_Path l = re_Path res ∧ la_Shape l = Some s ∧ la_Label l = re_Label res ∧ la_Into l = true ∧ la_Depth l = moduleDepth s ∧
        la_Refused l = re_Refused res
      else la_Path l = default "" (ca_Path <$> Primary rules codePath) ∧ la_Into l = default false ((λ c, content (ca_Shape c)) <$> Primary rules codePath)
  | None => la_Path l = default "" (ca_Path <$> Primary rules codePath) ∧ la_Into l = default false ((λ c, content (ca_Shape c)) <$> Primary rules codePath)
  end.
Proof.
  intros HR HL. assert (∀ a b c, let p := landPrimary a b c rules codePath in
    la_Path p = default "" (ca_Path <$> Primary rules codePath) ∧ la_Into p = default false ((λ c, content (ca_Shape c)) <$> Primary rules codePath)) as Hprim.
  { intros a b c. unfold landPrimary. by destruct (Primary rules codePath). }
  assert ((∀ d, d ∈ declarations rules codePath → looked_for d = true → so_Exists src d.2.1 = false) → match re_Shape res with Some s => content s = false | None => True end) as Hpure.
  { intros Hno. apply Resolution_cases in HR. destruct HR as [before d after Hd Hl He|before c after _ Hn _ _ _ _ _ _ -> |f us _ _ _ _ _ _ _ _ -> |_ _ _ _ _ ->]; [|by eapply pure_candidate|done|done].
    rewrite Hno in He; [done| |done]. rewrite Hd. apply elem_of_app. right. by left. }
  assert (∀ p, (match re_Shape res with Some s => content s = false | None => True end) →
    la_Path p = default "" (ca_Path <$> Primary rules codePath) ∧ la_Into p = default false ((λ c, content (ca_Shape c)) <$> Primary rules codePath) →
    match re_Shape res with
    | Some s => if content s then la_Path p = re_Path res ∧ la_Shape p = Some s ∧ la_Label p = re_Label res ∧ la_Into p = true ∧ la_Depth p = moduleDepth s ∧ la_Refused p = re_Refused res
        else la_Path p = default "" (ca_Path <$> Primary rules codePath) ∧ la_Into p = default false ((λ c, content (ca_Shape c)) <$> Primary rules codePath)
    | None => la_Path p = default "" (ca_Path <$> Primary rules codePath) ∧ la_Into p = default false ((λ c, content (ca_Shape c)) <$> Primary rules codePath)
    end) as Hgo by (intros p Hs Hp; destruct (re_Shape res) as [s|]; [by rewrite Hs|done]).
  unfold Land in HL. unfold Resolve in HR. destruct (contentRules rules) as [|r0 l0] eqn:Ec.
  { injection HL as <-. apply Hgo; [|apply Hprim]. apply Hpure. unfold declarations. rewrite Ec. by intros ? ?%elem_of_nil. }
  destruct (so_TestModules src) as [modules|] eqn:Em; [|done]. cbn [default from_option id] in HR.
  apply rbind_Ok in HL as (r & Hr & HL). apply rbind_Ok in HR as (r' & Hr' & HR). assert (r' = r) as -> by congruence. clear Hr'.
  pose proof (resolveDeclared_exact rules codePath r) as Hx. rewrite Ec, Em in Hx. cbn [default from_option id] in Hx.
  destruct Hx as [(before & d & after & Hd & _ & _ & _ & Hf & _ & _ & _ & Hs & _ & Hu & _)|[Hno Hpend]]; [right; by eexists|done| |].
  - rewrite Hf in HR. injection HR as <-. rewrite Hu, Hf, Hs in HL. injection HL as <-. rewrite Hs.
    rewrite (declared_content rules codePath d); [done|]. rewrite Hd. apply elem_of_app. right. by left.
  - apply Hgo; [by apply Hpure|]. destruct (re_Unreadable r); [injection HL as <-; apply Hprim|]. rewrite (pe_found _ _ _ Hpend) in HL. injection HL as <-. apply Hprim.
Qed.

(** A path outside the repository is not read: the test a confined shape resolves to stays inside. *)
Lemma Resolve_confined rules codePath res s : Resolve src rules codePath = Ok res → re_Shape res = Some s → confined s = true →
  insideRoot (so_Disk src) (so_Root src) (re_Path res) = true.
Proof.
  intros HR Hs Hc. apply Resolution_cases in HR. destruct HR as [before d after _ Hl _ _ _ _ -> _ E|before c after _ Hn _ _ _ _ _ _ E|f us _ _ _ _ _ _ _ _ E|_ _ _ _ _ E]; rewrite Hs in E; [| |done|done].
  - injection E as ->. unfold looked_for in Hl. rewrite Hc in Hl. by destruct (insideRoot _ _ _).
  - injection E as ->. apply pure_candidate in Hn. by destruct (ca_Shape c).
Qed.
End Resolving.

(** ** The strict and the generous question *)

Section Patterns.

Lemma star_match p s : path_match (String "*" p) s = true ↔ ∃ w s', s = w +:+ s' ∧ no_slash w ∧ path_match p s' = true.
Proof.
  assert (∀ s, path_match (String "*" p) s = path_match p s || match s with "" => false | String c s' => negb (Ascii.eqb c slash) && path_match (String "*" p) s' end) as Hstep
    by by intros [|c t].
  revert s. induction s as [|c s IH]; rewrite Hstep, orb_true_iff.
  - split; [intros [H|H]; [by exists "", ""|done]|]. intros (w & s' & E & _ & H). destruct w; [|done]. left. by rewrite E.
  - rewrite andb_true_iff, IH. split.
    + intros [H|[Hc (w & s' & -> & Hw & H)]]; [by exists "", (String c s)|]. exists (String c w), s'. split_and!; [done| |done]. unfold no_slash in *. cbn [mem_ascii]. apply negb_true_iff in Hc. by rewrite Hc.
    + intros ([|d w] & s' & E & Hw & H); [left; by rewrite E|]. injection E as <- ->. right. unfold no_slash in Hw. cbn [mem_ascii] in Hw. apply orb_false_elim in Hw as [-> Hw]. split; [done|]. by exists w, s'.
Qed.
Definition lit (a : ascii) (p : string) : string := (if special a then "\" else "") +:+ String a p.
Lemma lit_match a p s : path_match (lit a p) s = true ↔ ∃ s', s = String a s' ∧ path_match p s' = true.
Proof.
  unfold lit. destruct (special a) eqn:E.
  - change ("\" +:+ String a p) with (String "\" (String a p)). cbn [path_match]. change (Ascii.eqb "\" "*") with false. change (Ascii.eqb "\" "\") with true. cbv iota.
    destruct s as [|c s]; [split; [done|by intros (? & ? & _)]|]. rewrite andb_true_iff, Ascii.eqb_eq. split; [intros [<- H]; by exists s|]. by intros (? & [= <- <-] & ?).
  - change ("" +:+ String a p) with (String a p). cbn [path_match]. assert (Ascii.eqb a "*" = false ∧ Ascii.eqb a "\" = false) as [-> ->].
    { unfold special in E. cbn [mem_ascii] in E. rewrite !(Ascii.eqb_sym a), !orb_false_iff in *. tauto. }
    destruct s as [|c s]; [split; [done|by intros (? & ? & _)]|]. rewrite andb_true_iff, Ascii.eqb_eq. split; [intros [<- H]; by exists s|]. by intros (? & [= <- <-] & ?).
Qed.
Lemma pattern_enough name : ∀ n m, (String.length name ≤ n)%nat → (String.length name ≤ m)%nat → pattern_fuel n name = pattern_fuel m name.
Proof.
  assert (∀ k n m name, (String.length name ≤ k)%nat → (String.length name ≤ n)%nat → (String.length name ≤ m)%nat → pattern_fuel n name = pattern_fuel m name) as H.
  { induction k as [|k IH]; intros n m s; [destruct s; [by destruct n, m|cbn; lia]|]. destruct s as [|a s]; [by destruct n, m|]. cbn [String.length]. intros Hk Hn Hm.
    destruct n as [|n]; [lia|]. destruct m as [|m]; [lia|]. cbn [pattern_fuel].
    assert (∀ i, (0 < i)%nat → String.length (drop_str i (String a s)) ≤ String.length s)%nat as Hd by (intros i Hi; rewrite length_drop_str; cbn [String.length]; lia).
    pose proof (Hd 6%nat ltac:(lia)). pose proof (Hd 5%nat ltac:(lia)).
    destruct (has_prefix "{base}" _); [f_equal; apply IH; lia|]. destruct (has_prefix "{ext}" _); [f_equal; apply IH; lia|]. do 2 f_equal. apply IH; lia. }
  intros n m. by apply (H (String.length name)).
Qed.
Lemma pattern_cons a rest : namePattern (String a rest) =
  if has_prefix "{base}" (String a rest) then String "*" (namePattern (drop_str 6 (String a rest)))
  else if has_prefix "{ext}" (String a rest) then lit "." (String "*" (namePattern (drop_str 5 (String a rest))))
  else lit a (namePattern rest).
Proof.
  unfold namePattern at 1. cbn [String.length pattern_fuel].
  assert (∀ i, (0 < i)%nat → pattern_fuel (String.length rest) (drop_str i (String a rest)) = namePattern (drop_str i (String a rest))) as Hd.
  { intros i Hi. unfold namePattern. apply pattern_enough; [|done]. rewrite length_drop_str. cbn [String.length]. lia. }
  destruct (has_prefix "{base}" _); [by rewrite Hd by lia|]. destruct (has_prefix "{ext}" _); [by rewrite Hd by lia|]. unfold lit, namePattern. done.
Qed.
End Patterns.

Section Lowering.
Variable lower_run : string → string.
Fixpoint all_ascii (s : string) : bool := match s with "" => true | String a s' => is_ascii a && all_ascii s' end.
Fixpoint low (s : string) : string := match s with "" => "" | String a s' => String (lower a) (low s') end.
Fixpoint no_ascii (s : string) : bool := match s with "" => true | String a s' => negb (is_ascii a) && no_ascii s' end.

Lemma lower_from_ascii x : ∀ run a y, is_ascii a = true → lower_from lower_run run (x +:+ String a y) = lower_from lower_run run x +:+ String (lower a) (lower_from lower_run "" y).
Proof.
  induction x as [|c x IH]; intros run a y Ha.
  - change ("" +:+ String a y) with (String a y). cbn [lower_from]. by rewrite Ha.
  - rewrite app_str_cons. cbn [lower_from]. destruct (is_ascii c); [|by apply IH]. rewrite IH by done. by rewrite app_str_assoc, app_str_cons.
Qed.
Lemma to_lower_ascii x y : all_ascii x = true → to_lower lower_run (x +:+ y) = low x +:+ to_lower lower_run y.
Proof.
  induction x as [|a x IH]; [done|]. cbn [all_ascii low]. intros [Ha Hx]%andb_prop. rewrite !app_str_cons. unfold to_lower in *. cbn [lower_from]. rewrite Ha, IH by done. done.
Qed.
Lemma to_lower_low x : all_ascii x = true → to_lower lower_run x = low x.
Proof. intros Hx. rewrite <- (app_str_nil_r x) at 1. rewrite to_lower_ascii by done. apply app_str_nil_r. Qed.

(** No rune is lowered to a slash. *)
Hypothesis runs_no_slash : ∀ run, no_ascii run = true → no_slash (lower_run run).
Lemma lower_no_slash a : Ascii.eqb a slash = false → Ascii.eqb (lower a) slash = false.
Proof. unfold lower. destruct a as [[] [] [] [] [] [] [] []]; done. Qed.
Lemma no_ascii_app x y : no_ascii (x +:+ y) = no_ascii x && no_ascii y.
Proof. induction x as [|a x IH]; [done|]. rewrite app_str_cons. cbn [no_ascii]. by rewrite IH, andb_assoc. Qed.
Lemma to_lower_no_slash s : no_slash s → no_slash (to_lower lower_run s).
Proof.
  unfold to_lower. assert (∀ run, no_ascii run = true → no_slash s → no_slash (lower_from lower_run run s)) as H; [|by apply H].
  induction s as [|a s IH]; intros run Hrun Hs; cbn [lower_from].
  - unfold flush. destruct (String.eqb run ""); [done|]. by apply runs_no_slash.
  - unfold no_slash in *. cbn [mem_ascii] in Hs. apply orb_false_elim in Hs as [Ha Hs]. destruct (is_ascii a) eqn:Ea.
    + rewrite mem_ascii_app. cbn [mem_ascii]. rewrite lower_no_slash, IH by done. rewrite orb_false_r. unfold flush. destruct (String.eqb run ""); [done|]. by apply runs_no_slash.
    + apply IH; [|done]. rewrite no_ascii_app, Hrun. cbn [no_ascii]. by rewrite Ea.
Qed.

(** A name template: ASCII, and its braces open placeholders. *)
Fixpoint well_named (s : string) : bool :=
  match s with
  | "" => true
  | String a s' => is_ascii a && (negb (Ascii.eqb a "{") || has_prefix "{base}" s || has_prefix "{ext}" s) && well_named s'
  end.
Lemma well_named_ascii s : well_named s = true → all_ascii s = true.
Proof. induction s as [|a s IH]; [done|]. cbn [well_named all_ascii]. intros [[Ha _]%andb_prop Hs]%andb_prop. by rewrite Ha, IH. Qed.
Lemma well_named_drop n : ∀ s, well_named s = true → well_named (drop_str n s) = true.
Proof. induction n as [|n IH]; intros [|a s]; [done..|]. cbn [well_named drop_str]. intros [_ Hs]%andb_prop. by apply IH. Qed.
Lemma low_drop n : ∀ s, low (drop_str n s) = drop_str n (low s).
Proof. induction n as [|n IH]; intros [|a s]; [done..|]. cbn [low drop_str]. apply IH. Qed.
Lemma low_app x y : low (x +:+ y) = low x +:+ low y.
Proof. induction x as [|a x IH]; [done|]. rewrite !app_str_cons. cbn [low]. by rewrite IH, app_str_cons. Qed.
Lemma low_prefix p s : low p = p → has_prefix p s = true → has_prefix p (low s) = true.
Proof. intros Hp [t ->]%has_prefix_iff. rewrite low_app, Hp. apply has_prefix_app. Qed.
Lemma lower_brace a : Ascii.eqb a "{" = false → Ascii.eqb (lower a) "{" = false.
Proof. unfold lower. destruct a as [[] [] [] [] [] [] [] []]; done. Qed.
Lemma no_slash_app x y : no_slash x → no_slash y → no_slash (x +:+ y).
Proof. unfold no_slash. rewrite mem_ascii_app. intros -> ->. done. Qed.
Lemma has_prefix_head a p b s : Ascii.eqb b a = false → has_prefix (String a p) (String b s) = false.
Proof. intros H. cbn [has_prefix]. by rewrite Ascii.eqb_sym, H. Qed.

Lemma lower_match name : well_named name = true → ∀ s, path_match (namePattern name) s = true →
  path_match (namePattern (low name)) (to_lower lower_run s) = true ∧
  ∀ w, no_slash w → path_match (String "*" (namePattern (low name))) (to_lower lower_run (w +:+ s)) = true.
Proof.
  assert (∀ p s, path_match p s = true → path_match (String "*" p) s = true) as Hstar by (intros p t H; apply star_match; by exists "", t).
  assert (∀ w a p s, is_ascii a = true → no_slash w → path_match (lit (lower a) p) (String (lower a) (to_lower lower_run s)) = true →
    path_match (String "*" (lit (lower a) p)) (to_lower lower_run (w +:+ String a s)) = true) as Hlit.
  { intros w a p t Ha Hw H. unfold to_lower at 1. rewrite lower_from_ascii by done. apply star_match. eexists _, _. split; [done|]. split; [by apply to_lower_no_slash|done]. }
  remember (String.length name) as k eqn:Hk. revert name Hk. induction (lt_wf k) as [k _ IH]. intros name -> Hn s Hs. destruct name as [|a rest].
  { cbn [namePattern low] in *. apply String.eqb_eq in Hs. subst s. split; [done|]. intros w Hw. rewrite app_str_nil_r. apply star_match. exists (to_lower lower_run w), "".
    rewrite app_str_nil_r. split_and!; [done|by apply to_lower_no_slash|done]. }
  assert (is_ascii a = true) as Ha by (cbn [well_named] in Hn; by bools). rewrite pattern_cons in Hs.
  assert (∀ n, (0 < n)%nat → let r := drop_str n (String a rest) in ∀ s, path_match (namePattern r) s = true →
    path_match (namePattern (low r)) (to_lower lower_run s) = true ∧ ∀ w, no_slash w → path_match (String "*" (namePattern (low r))) (to_lower lower_run (w +:+ s)) = true) as IH'.
  { intros n Hpos r. apply (IH (String.length r)); [unfold r; rewrite length_drop_str; cbn [String.length]; lia|done|]. by apply well_named_drop. }
  destruct (has_prefix "{base}" (String a rest)) eqn:Eb; [|destruct (has_prefix "{ext}" (String a rest)) eqn:Ee].
  - assert (namePattern (low (String a rest)) = String "*" (namePattern (low (drop_str 6 (String a rest))))) as ->.
    { rewrite low_drop. pose proof (low_prefix "{base}" (String a rest) eq_refl Eb) as H. cbn [low] in *. by rewrite pattern_cons, H. }
    apply star_match in Hs as (u & s' & -> & Hu & Hs'). destruct (IH' 6%nat ltac:(lia) s' Hs') as [_ H2]. split; [by apply H2|].
    intros w Hw. apply Hstar. rewrite <- app_str_assoc. apply H2. by apply no_slash_app.
  - assert (namePattern (low (String a rest)) = lit (lower ".") (String "*" (namePattern (low (drop_str 5 (String a rest)))))) as ->.
    { rewrite low_drop. pose proof (low_prefix "{ext}" (String a rest) eq_refl Ee) as H. apply has_prefix_iff in Ee as [t Et].
      assert (has_prefix "{base}" (low (String a rest)) = false) as Hb by (rewrite Et; done). cbn [low] in *. by rewrite pattern_cons, Hb, H. }
    apply lit_match in Hs as (s1 & -> & (u & s' & -> & Hu & Hs')%star_match). destruct (IH' 5%nat ltac:(lia) s' Hs') as [_ H2].
    assert (path_match (lit (lower ".") (String "*" (namePattern (low (drop_str 5 (String a rest)))))) (String (lower ".") (to_lower lower_run (u +:+ s'))) = true) as H.
    { apply lit_match. eexists. split; [done|]. by apply H2. }
    split; [by apply H|]. intros w Hw. by apply Hlit.
  - assert (Ascii.eqb a "{" = false) as Hbrace by (cbn [well_named] in Hn; rewrite Eb, Ee in Hn; bools; by destruct (Ascii.eqb a "{")).
    assert (namePattern (low (String a rest)) = lit (lower a) (namePattern (low rest))) as ->.
    { cbn [low]. rewrite pattern_cons, !has_prefix_head by by apply lower_brace. done. }
    apply lit_match in Hs as (s' & -> & Hs'). destruct (IH' 1%nat ltac:(lia) s' Hs') as [H1 _].
    assert (path_match (lit (lower a) (namePattern (low rest))) (String (lower a) (to_lower lower_run s')) = true) as H by (apply lit_match; by eexists).
    split; [|intros w Hw; by apply Hlit]. unfold to_lower. cbn [lower_from]. rewrite Ha. by apply H.
Qed.

(** A test by the strict question is a test by the generous one. Whatever file a language's rules call a test, the question asked of a changed
    file, over all languages, calls a possible test too; for names that are ASCII with every brace opening a placeholder, as the registered rules' are. *)
Theorem IsTest_MightBeTest rules all rel : rules ∈ all → Forall (λ r, well_named (ru_Name r) = true) rules →
  IsTest lower_run rules rel = true → MightBeTest lower_run all rel = true.
Proof.
  intros Hin Hw. assert (∀ rs, Forall (λ r, well_named (ru_Name r) = true) rs → nameMatches lower_run rs (path_base rel) false = true →
    nameMatches lower_run rs (to_lower lower_run (path_base rel)) true = true) as Hname.
  { intros rs Hrs (r & Hr & H)%existsb_exists. apply existsb_exists. exists r. split; [done|]. apply list_elem_of_In in Hr. rewrite Forall_forall in Hrs. specialize (Hrs _ Hr).
    apply andb_prop in H as [H Hm]. rewrite H. cbn [andb]. rewrite to_lower_low by by apply well_named_ascii. by apply lower_match. }
  unfold IsTest, MightBeTest. rewrite !orb_true_iff, existsb_exists. intros [[H|H]|H].
  - right. exists rules. split; [right; by apply list_elem_of_In|]. by apply Hname.
  - right. exists Generic. split; [by left|]. apply Hname; [|done]. apply Forall_forall. intros r Hr. by repeat (apply elem_of_cons in Hr as [->|Hr]; [done|]); apply elem_of_nil in Hr.
  - left. unfold DirMarksTest in H. apply existsb_exists in H as (r & Hr & H). apply andb_prop in H as [[Hd Hne]%andb_prop H]. apply existsb_exists in H as (seg & Hseg & Heq).
    unfold InTestTree. apply existsb_exists. exists seg. split; [done|]. apply existsb_exists. exists rules. split; [right; by apply list_elem_of_In|].
    apply existsb_exists. exists r. split; [done|]. unfold marked_dir. rewrite Hne, Heq. unfold dirMarksTest in Hd. apply bool_decide_eq_true in Hd. by rewrite Hd.
Qed.
End Lowering.

(** ** Confinement *)

Lemma strip_common_app l1 : ∀ l2 up rest, strip_common l1 l2 = (up, rest) → ∃ pre, l1 = pre ++ up ∧ l2 = pre ++ rest.
Proof.
  induction l1 as [|x l1 IH]; intros [|y l2] up rest; cbn; [intros [= <- <-]; by exists []..|].
  destruct (String.eqb_spec x y) as [->|]; [|intros [= <- <-]; by exists []]. intros (pre & -> & ->)%IH. by exists (y :: pre).
Qed.
Lemma dots_first (up : list string) rest : up ≠ [] → let rel := String.concat "/" (map (λ _, "..") up ++ rest) in rel = ".." ∨ has_prefix "../" rel = true.
Proof.
  destruct up as [|u up]; [done|]. intros _. cbn [map app]. destruct (map (λ _, "..") up ++ rest) as [|x xs] eqn:E; [by left|].
  right. change (has_prefix "../" (joined (".." :: x :: xs)) = true). rewrite joined_cons by done. apply has_prefix_iff. by exists (joined (x :: xs)).
Qed.
(** A path is under a root: its segments begin with the root's. *)
Definition beneath (root p : string) : Prop := ∃ rest, abs_segments p = abs_segments root ++ rest.
Lemma within_beneath root p : within root p = true → beneath root p.
Proof.
  unfold within, path_rel, beneath. destruct (String.eqb_spec root p) as [->|_]; [exists []; by rewrite app_nil_r|].
  destruct (strip_common (abs_segments root) (abs_segments p)) as [up rest] eqn:E. destruct (strip_common_app _ _ _ _ E) as (pre & -> & ->).
  destruct (decide (up = [])) as [->|Hne]; [exists rest; by rewrite app_nil_r|]. intros H. bools.
  destruct (dots_first up rest Hne) as [Hd|Hd]; [by rewrite Hd in *|congruence].
Qed.

(** C24. A path a source names is read only inside the repository. If a declared path is accepted, then with no root known it is relative and does not
    climb out of the place it starts from; and with a root its absolute form lies under the root's, and so does what its links lead to under what the root's
    links lead to, whenever the path exists. *)
Theorem insideRoot_sound dk root p : insideRoot dk root p = true →
  (root = "" → is_abs p = false ∧ path_clean p ≠ ".." ∧ has_prefix "../" (path_clean p) = false) ∧
  (root ≠ "" → ∃ absRoot absP, path_abs dk root = Some absRoot ∧ path_abs dk (if is_abs p then p else path_join [root; path_clean p]) = Some absP ∧
    beneath absRoot absP ∧ ∀ realP, dk_EvalSymlinks dk absP = Some realP → beneath (default absRoot (dk_EvalSymlinks dk absRoot)) realP).
Proof.
  assert (∀ disk, inside_disk dk root disk = true → ∃ absRoot absP, path_abs dk root = Some absRoot ∧ path_abs dk disk = Some absP ∧ beneath absRoot absP ∧
    ∀ realP, dk_EvalSymlinks dk absP = Some realP → beneath (default absRoot (dk_EvalSymlinks dk absRoot)) realP) as Hdisk.
  { unfold inside_disk. intros disk H. destruct (path_abs dk root) as [absRoot|]; [|done]. destruct (path_abs dk disk) as [absP|]; [|done].
    apply andb_prop in H as [H1 H2]. exists absRoot, absP. split_and!; [done|done|by apply within_beneath|]. intros realP Hr. rewrite Hr in H2. by apply within_beneath. }
  unfold insideRoot. destruct (is_abs p); cbn [negb].
  - destruct (String.eqb_spec root "") as [->|Hne]; [done|]. intros H. split; [done|]. intros _. by apply Hdisk.
  - destruct (String.eqb_spec (path_clean p) "..") as [|Hd]; [done|]. destruct (has_prefix "../" (path_clean p)) eqn:Hp; [done|]. cbn [orb].
    destruct (String.eqb_spec root "") as [->|Hne]; [done|]. intros H. split; [done|]. intros _. by apply Hdisk.
Qed.
