(* ===== verification/Languages.v ===== *)
(** * The registered languages: their conventions (internal/lang) and where an authored test lands (landing.go)

    Each language's test rules as it declares them. Two claims of the code about all of them are proved here for every source, where its tests sample
    some: the merge of candidates agrees with the merge of their evidence ([Candidates_principled]), but for one Ruby name, where it does not
    ([ruby_merge_differs]); and every file a test would be looked for at is called a test ([candidates_are_tests]). A run is admitted
    only with a landing that is not the source ([CheckTestLanding_safe]). *)
From S2P Require Import Prelude GoLib GoText Paths TestMap Mutant Pairing PairingFacts.
Local Open Scope string_scope.
Local Open Scope list_scope.
Local Open Scope Z_scope.
Local Open Scope corral_scope.

(** ** The registry *)

Inductive Lang := LangGo | LangJavaScript | LangPHP | LangPython | LangRuby | LangRust | LangTypeScript.
#[export] Instance Lang_eq_dec : EqDecision Lang.
Proof. solve_decision. Defined.
(** In the order of their names. *)
Definition registry : list Lang := [LangGo; LangJavaScript; LangPHP; LangPython; LangRuby; LangRust; LangTypeScript].
Definition lang_name (l : Lang) : string :=
  match l with
  | LangGo => "go" | LangJavaScript => "javascript" | LangPHP => "php" | LangPython => "python" | LangRuby => "ruby" | LangRust => "rust"
  | LangTypeScript => "typescript"
  end.
Definition PromptLang (l : Lang) : string :=
  match l with
  | LangGo => "Go" | LangJavaScript => "JavaScript" | LangPHP => "PHP" | LangPython => "Python" | LangRuby => "Ruby" | LangRust => "Rust"
  | LangTypeScript => "TypeScript"
  end.
Definition extensions (l : Lang) : list string :=
  match l with
  | LangGo => [".go"] | LangJavaScript => [".js"; ".mjs"; ".cjs"] | LangPHP => [".php"] | LangPython => [".py"] | LangRuby => [".rb"] | LangRust => [".rs"]
  | LangTypeScript => [".ts"]
  end.
Definition detects (l : Lang) (codePath : string) : bool := bool_decide (path_ext codePath ∈ extensions l).
(** The registry is ranged over in an order of its own. *)
Definition Detect (order : list Lang) (codePath : string) : option Lang := find (λ l, detects l codePath) order.
Definition ByName (name : string) : option Lang := find (λ l, String.eqb (lang_name l) name) registry.

Definition sibling (name : string) : Rule := mkRule Sibling name "" false 0 0.
Definition parallel (name dir : string) (keep : bool) (rank : Z) : Rule := mkRule ParallelTree name dir keep 0 rank.
Definition jsFamilyRules (ext : string) : list Rule := [
  sibling ("{base}.test" +:+ ext); sibling ("{base}.spec" +:+ ext); mkRule BesideDir ("{base}.test" +:+ ext) "__tests__" false 0 1;
  parallel ("{base}.test" +:+ ext) "test" false 2; parallel ("{base}.test" +:+ ext) "tests" false 2].
Definition goRules : list Rule := [sibling "{base}_test.go"].
Definition phpRules : list Rule := [
  sibling "{base}Test.php"; parallel "{base}Test.php" "tests" false 1; parallel "{base}Test.php" "test" false 1].
Definition pyRules : list Rule := [
  sibling "test_{base}.py"; sibling "{base}_test.py"; parallel "test_{base}.py" "tests" true 1; parallel "test_{base}.py" "tests" false 2;
  mkRule FlatRoot "test_{base}.py" "tests" false 2 3].
Definition rubyRules : list Rule := [
  sibling "{base}_test.rb"; parallel "{base}_test.rb" "test" false 1; parallel "{base}_spec.rb" "spec" false 1;
  parallel "test_{base}.rb" "test" false 2; recognized "spec_{base}.rb" ""].
Definition rustRules : list Rule := [
  mkRule Declared "" "" false 0 0; mkRule Inline "" "" false 0 0; recognized "{base}_tests.rs" ""; recognized "tests.rs" ""; mkRule TestDir "" "tests" false 0 0].
Definition TestRules (l : Lang) : list Rule :=
  match l with
  | LangGo => goRules | LangPHP => phpRules | LangPython => pyRules | LangRuby => rubyRules | LangRust => rustRules
  | LangJavaScript => jsFamilyRules ".js" | LangTypeScript => jsFamilyRules ".ts"
  end.
Definition AllTestRules : list (list Rule) := map TestRules registry.

(** The files a runner reads before any test. *)
Definition pyHarness : list string := ["conftest.py"; "pytest.ini"; "tox.ini"; "setup.cfg"; "pyproject.toml"].
Definition rubyHarness : list string := ["spec_helper.rb"; "rails_helper.rb"; ".rspec"; "test_helper.rb"; "Rakefile"].
Definition jsHarness : list string := ["jest.config."; "jest.setup."; "vitest.config."; "vitest.setup."; ".mocharc."; "package.json"].
Definition phpHarness : list string := ["phpunit.xml"; "phpunit.xml.dist"; "phpunit.dist.xml"; "bootstrap.php"].
Definition rustHarness : list string := ["nextest.toml"].
Definition HarnessFiles (l : Lang) : list string :=
  match l with
  | LangGo => [] | LangPython => pyHarness | LangRuby => rubyHarness | LangJavaScript | LangTypeScript => jsHarness | LangPHP => phpHarness
  | LangRust => rustHarness
  end.
(** What follows the last slash or backslash. *)
Fixpoint after_separators (s : string) : string :=
  match s with
  | "" => ""
  | String a s' => if contains_any s "/\" then (if (Ascii.eqb a slash || Ascii.eqb a "\") && negb (contains_any s' "/\") then s' else after_separators s') else s
  end.
Definition IsHarnessFile (rel : string) : bool :=
  let base := after_separators rel in
  existsb (λ l, existsb (λ name, String.eqb name base || has_suffix "." name && has_prefix name base) (HarnessFiles l)) registry.

(** ** Where an authored test lands (landing.go) *)

Inductive LandingErr :=
| NoAppender (codePath path : string) | CannotAppend (codePath path : string) (lang other : string)
| OutsideRepository (codePath : string) (refused : list string) | CannotReadDeclarations (codePath : string) | NotRead (codePath : string) | LandsOnItself (codePath : string)
| LandFailed (e : ResolveErr).

Section Landing.
Variable order : list Lang.
(** The wrapping of a test for the file it is appended to; only Rust has one. *)
Variable LandTest : string → Z → string → string.
Definition has_lander (l : Lang) : bool := bool_decide (l = LangRust).

Definition landingRules (codePath : string) : list Rule := TestRules (default LangGo (Detect order codePath)).
(** A caller with no repository to read. *)
Definition no_sources : Sources := mkSources "" (mkDisk None (λ _, None)) (λ _, false) (Ok []) None.
Definition TestLanding (codePath : string) (src : Sources) : result ResolveErr Landing := Land src (landingRules codePath) codePath.
Definition sameFile (a b : string) : bool := String.eqb (path_clean a) (path_clean b).
Definition check_landing (codePath : string) (l : Landing) : result LandingErr () :=
  if negb (sameFile (la_Path l) codePath) then
    if la_Into l then
      match Detect order (la_Path l) with
      | None => Err (NoAppender codePath (la_Path l))
      | Some p => if has_lander p then Ok () else Err (CannotAppend codePath (la_Path l) (default "this language's" ((λ p, "corral's " +:+ PromptLang p) <$> Detect order codePath)) (PromptLang p))
      end
    else Ok ()
  else match la_Refused l with
       | _ :: _ => Err (OutsideRepository codePath (la_Refused l))
       | [] => Err (if la_Unreadable l then CannotReadDeclarations codePath else if negb (la_Read l) then NotRead codePath else LandsOnItself codePath)
       end.
Definition CheckTestLanding (codePath : string) (l : Landing) : result LandingErr () :=
  if String.eqb (la_Path l) "" then
    match TestLanding codePath no_sources with Err e => Err (LandFailed e) | Ok l => check_landing codePath l end
  else check_landing codePath l.
Definition LandBody (l : Landing) (target body : string) : string :=
  if negb (la_Into l) then body
  else match Detect order (la_Path l) with
       | Some p => if has_lander p then LandTest body (la_Depth l) target else body
       | None => body
       end.
Definition ComposeLanding (l : Landing) (target landed : string) : string :=
  if negb (la_Into l) then landed
  else let nl := String newline "" in
       let sep := if String.eqb target "" || has_suffix nl target then "" else nl in
       target +:+ sep +:+ nl +:+ landed.
End Landing.

(** ** The merge of the evidence (pairing/pairingtest) *)

(** A rule's candidate, and whether its directory says nothing. *)
Record RawForm := mkForm { rf_Path : string; rf_Rank : Z; rf_Shape : Shape; rf_Vacuous : bool }.
Definition raw_form (codePath : string) (r : Rule) : list RawForm :=
  map (λ c, mkForm (ca_Path c) (ca_Rank c) (ru_Shape r)
    (negb (bool_decide (ru_Shape r = Sibling)) && String.eqb (ca_Path c) (path_join [ru_Dir r; path_base (ca_Path c)]))) (Candidates [r] codePath).
Definition RawForms (rules : list Rule) (codePath : string) : list RawForm := flat_map (raw_form codePath) rules.
Definition least (l : list Z) : Z := match l with [] => 0 | r :: rs => foldr Z.min r rs end.
Definition greatest (l : list Z) : Z := match l with [] => 0 | r :: rs => foldr Z.max r rs end.
(** A sibling wins; else the strongest claim that says something; else the weakest. *)
Definition principled_rank (l : list RawForm) : Z :=
  if existsb (λ f, bool_decide (rf_Shape f = Sibling)) l then 0
  else match List.filter (λ f, negb (rf_Vacuous f)) l with
       | [] => greatest (map rf_Rank l)
       | real => least (map rf_Rank real)
       end.
Definition PrincipledMerge (forms : list RawForm) : list (string * Z) :=
  map (λ p, (p, principled_rank (List.filter (λ f, String.eqb (rf_Path f) p) forms))) (firsts (map rf_Path forms)).

(** ** The registry is unambiguous *)

Lemma detects_unique a b p : detects a p = true → detects b p = true → a = b.
Proof.
  unfold detects. rewrite !bool_decide_eq_true, !list_elem_of_In. intros Ha Hb. destruct a, b; try done; exfalso; cbn [extensions In] in Ha, Hb;
    repeat match goal with H : _ ∨ _ |- _ => destruct H | H : False |- _ => destruct H end; match goal with H1 : _ = path_ext p, H2 : _ = path_ext p |- _ => rewrite <- H1 in H2; discriminate H2 end.
Qed.
Lemma Detect_iff order p l : order ≡ₚ registry → Detect order p = Some l ↔ detects l p = true.
Proof.
  intros Hp. unfold Detect. split; [by intros [_ H]%find_some|]. intros Hl. destruct (find _ order) as [l'|] eqn:E.
  - apply find_some in E as [_ E]. f_equal. by eapply detects_unique.
  - exfalso. assert (l ∈ order) as Hin by (rewrite Hp; unfold registry; rewrite !elem_of_cons; destruct l; tauto).
    apply list_elem_of_In in Hin. pose proof (find_none _ _ E _ Hin) as H. congruence.
Qed.
(** Which language claims a file does not depend on the order the registry is ranged over. *)
Theorem Detect_any_order order order' p : order ≡ₚ registry → order' ≡ₚ registry → Detect order p = Detect order' p.
Proof.
  intros H H'. destruct (Detect order p) as [l|] eqn:E.
  - symmetry. apply Detect_iff; [done|]. by apply (Detect_iff order) in E.
  - destruct (Detect order' p) as [l|] eqn:E'; [|done]. apply (Detect_iff order') in E'; [|done]. apply (Detect_iff order) in E'; congruence.
Qed.

(** A run is admitted only with a landing that is not the source. A landing that passes names a file other than the source, and one that is appended to
    is of a language that can append; a door that computed none is judged by the naming answer, so that a source whose language reads declarations is then
    refused. *)
Theorem CheckTestLanding_safe order codePath l : CheckTestLanding order codePath l = Ok () →
  (la_Path l ≠ "" → path_clean (la_Path l) ≠ path_clean codePath ∧ (la_Into l = true → ∃ p, Detect order (la_Path l) = Some p ∧ has_lander p = true)) ∧
  (la_Path l = "" → contentRules (landingRules order codePath) = []).
Proof.
  assert (∀ l, check_landing order codePath l = Ok () → path_clean (la_Path l) ≠ path_clean codePath ∧
    (la_Into l = true → ∃ p, Detect order (la_Path l) = Some p ∧ has_lander p = true)) as H.
  { intros l'. unfold check_landing, sameFile. destruct (String.eqb_spec (path_clean (la_Path l')) (path_clean codePath)) as [|Hne]; cbn [negb]; [by destruct (la_Refused l')|].
    intros Hc. split; [done|]. intros Hi. rewrite Hi in Hc. destruct (Detect order (la_Path l')) as [p|]; [|done]. exists p. by destruct (has_lander p). }
  unfold CheckTestLanding. destruct (String.eqb_spec (la_Path l) "") as [->|Hne]; [|intros Hc; split; [intros _; by apply H|done]].
  destruct (TestLanding order codePath no_sources) as [l'|] eqn:El; [|done]. intros Hc. split; [done|]. intros _. apply H in Hc as [Hne _].
  unfold TestLanding, Land in El. unfold landingRules in *. destruct (default LangGo (Detect order codePath)) eqn:Ed; try done.
  exfalso. apply Hne. cbn in El. injection El as <-. unfold landPrimary, Primary, Candidates. cbn [TestRules omap list_omap]. unfold raw_candidate.
  destruct (splitPath codePath) as [[dir base] ext]. done.
Qed.

(** ** Candidates as segments *)

(** A source at a clean relative path. *)
Section Source.
Variables (dirs : list string) (file : string).
Hypotheses (good_dirs : good dirs) (good_file : good_seg file = true).
Definition source_path : string := joined (dirs ++ [file]).
Definition source_base : string := trim_suffix (path_ext file) file.

Lemma splitPath_source : splitPath source_path = (joined dirs, source_base, path_ext file).
Proof.
  unfold splitPath, source_path. rewrite path_ext_joined, path_base_joined, path_dir_joined by auto with corral. unfold source_base. f_equal. f_equal.
  destruct dirs as [|d l]; [done|]. destruct (String.eqb_spec (joined (d :: l)) ".") as [E|]; [|done]. exfalso.
  rewrite <- (path_clean_joined (d :: l)) in E by done. assert (joined (d :: l) = joined ["."]) as E' by (rewrite <- E; by rewrite path_clean_joined).
  apply joined_inj in E'; [|done|done|by apply good_no_slash|by repeat constructor]. injection E' as -> ->. by apply Forall_cons in good_dirs as [? _].
Qed.
Lemma take_no_slash n : ∀ s, no_slash s → no_slash (take_str n s).
Proof. unfold no_slash. induction n as [|n IH]; intros [|a s]; [done..|]. cbn [mem_ascii take_str]. intros [-> Hs]%orb_false_elim. by apply IH. Qed.
Lemma source_base_no_slash : no_slash source_base.
Proof. unfold source_base, trim_suffix. destruct (has_suffix _ _); [apply take_no_slash|]; auto with corral. Qed.

Lemma joined_empty l : good l → String.eqb (joined l) "" = match l with [] => true | _ => false end.
Proof. intros Hl. destruct l as [|s l]; [done|]. apply String.eqb_neq. by apply joined_nonempty. Qed.
Lemma stripFirst_joined : stripFirstSegment (joined dirs) = joined (tl dirs).
Proof.
  unfold stripFirstSegment. rewrite joined_empty by done. destruct dirs as [|d [|d' l]]; [done| |].
  - apply Forall_cons in good_dirs as [Hd _]. apply good_seg_no_slash in Hd. cbn [joined String.concat tl]. destruct (cut slash d) as [[h t] found] eqn:E. destruct found; [|done].
    apply cut_found in E. unfold no_slash in Hd. by rewrite E, mem_ascii_app in Hd; cbn [mem_ascii] in Hd; rewrite Ascii.eqb_refl, orb_true_r in Hd.
  - apply Forall_cons in good_dirs as [Hd _]. apply good_seg_no_slash in Hd. rewrite joined_cons by done. change ("/" +:+ joined (d' :: l)) with (String slash (joined (d' :: l))). by rewrite cut_app.
Qed.
Lemma good_tl : good (tl dirs).
Proof. destruct dirs; [done|]. by apply Forall_cons in good_dirs as [_ ?]. Qed.

(** The segments of a rule's candidate. *)
Definition rule_segments (r : Rule) (n : string) : list string :=
  match ru_Shape r with
  | Sibling => dirs ++ [n]
  | BesideDir => dirs ++ [ru_Dir r; n]
  | ParallelTree => ru_Dir r :: (if ru_KeepLeading r then dirs else tl dirs) ++ [n]
  | _ => [ru_Dir r; n]
  end.
Definition path_shape (s : Shape) : bool := match s with Sibling | BesideDir | ParallelTree | FlatRoot => true | _ => false end.
Definition rule_name (r : Rule) : string := replace_first "{base}" source_base (ru_Name r).
(** A rule of a path shape, with a directory if its shape has one. *)
Definition path_rule (r : Rule) : Prop :=
  path_shape (ru_Shape r) = true ∧ (ru_Shape r = Sibling ∨ good_seg (ru_Dir r) = true) ∧ good_seg (rule_name r) = true.

Lemma good_segments r : path_rule r → good (rule_segments r (rule_name r)).
Proof.
  intros (Hs & Hd & Hn). pose proof good_tl as Htl. unfold rule_segments, good in *. destruct (ru_Shape r); try done.
  - apply Forall_app. by split; [|repeat constructor].
  - destruct Hd as [|Hd]; [done|]. apply Forall_app. by split; [|repeat constructor].
  - destruct Hd as [|Hd]; [done|]. constructor; [done|]. apply Forall_app. split; [by destruct (ru_KeepLeading r)|by repeat constructor].
  - destruct Hd as [|Hd]; [done|]. by repeat constructor.
Qed.
Lemma raw_candidate_segments r : path_rule r → raw_candidate source_path r =
  match ru_Shape r with
  | FlatRoot => if ru_MaxDepth r <? Z.of_nat (length dirs) then None else Some (mkCandidate (joined (rule_segments r (rule_name r))) (ru_Rank r) (ru_Shape r))
  | _ => Some (mkCandidate (joined (rule_segments r (rule_name r))) (ru_Rank r) (ru_Shape r))
  end.
Proof.
  intros (Hs & Hd & Hn). pose proof good_tl as Htl. unfold raw_candidate. rewrite splitPath_source. fold (rule_name r). unfold candidate, rule_segments.
  assert (∀ s, good_seg s = true → good [s]) as H1 by (intros; by repeat constructor).
  assert (∀ l, Forall good l → path_join (map joined l) = joined (concat l)) as HJ by apply path_join_joined.
  destruct (ru_Shape r) eqn:Es; try done.
  - unfold joinDir. rewrite joined_empty by done. destruct dirs as [|d l] eqn:El; [done|]. rewrite <- El in *. cbn [fmap option_fmap option_map]. do 2 f_equal.
    apply (HJ [dirs; [rule_name r]]). repeat constructor; auto.
  - destruct Hd as [|Hd]; [done|]. cbn [fmap option_fmap option_map]. do 2 f_equal. apply (HJ [dirs; [ru_Dir r]; [rule_name r]]). repeat constructor; auto.
  - destruct Hd as [|Hd]; [done|]. cbn [fmap option_fmap option_map]. do 2 f_equal. destruct (ru_KeepLeading r).
    + apply (HJ [[ru_Dir r]; dirs; [rule_name r]]). repeat constructor; auto.
    + rewrite stripFirst_joined. apply (HJ [[ru_Dir r]; tl dirs; [rule_name r]]). repeat constructor; auto.
  - destruct Hd as [|Hd]; [done|]. assert (dirDepth (joined dirs) = Z.of_nat (length dirs)) as ->.
    { unfold dirDepth. rewrite joined_empty by done. destruct dirs as [|d l] eqn:El; [done|]. rewrite <- El in *. rewrite split_joined by (auto with corral; by rewrite El). done. }
    destruct (ru_MaxDepth r <? Z.of_nat (length dirs)); [done|]. cbn [fmap option_fmap option_map]. do 2 f_equal. apply (HJ [[ru_Dir r]; [rule_name r]]). repeat constructor; auto.
Qed.

(** ** Names that are templates *)

Fixpoint plain (s : string) : bool := match s with "" => true | String a s' => negb (special a) && plain s' end.
Lemma plain_match s p t : plain s = true → path_match (s +:+ p) (s +:+ t) = path_match p t.
Proof.
  induction s as [|a s IH]; [done|]. cbn [plain]. intros [Ha Hs]%andb_prop. rewrite !app_str_cons, <- (IH Hs). apply negb_true_iff in Ha.
  assert (lit a (s +:+ p) = String a (s +:+ p)) as <- by (unfold lit; by rewrite Ha). apply eq_bool_prop_intro. rewrite !Is_true_true, lit_match. split; [by intros (? & [= <-] & ?)|by eexists].
Qed.
Lemma template_match pre post b : plain pre = true → plain post = true → no_slash b → path_match (pre +:+ "*" +:+ post) (pre +:+ b +:+ post) = true.
Proof.
  intros Hpre Hpost Hb. rewrite plain_match by done. change ("*" +:+ post) with (String "*" post). apply star_match. exists b, post. split_and!; [done|done|].
  rewrite <- (app_str_nil_r post). by rewrite plain_match.
Qed.
Definition before_base (name : string) : string := match str_index "{base}" name with Some i => take_str i name | None => "" end.
Definition after_base (name : string) : string := match str_index "{base}" name with Some i => drop_str (i + 6) name | None => "" end.
(** The name is a text, the base and a text, of plain bytes, with more than a dot or two. *)
Definition templated (name : string) : bool :=
  bool_decide (is_Some (str_index "{base}" name)) && plain (before_base name) && plain (after_base name) && negb (mem_ascii slash (before_base name)) &&
  negb (mem_ascii slash (after_base name)) && (2 <? String.length (before_base name) + String.length (after_base name))%nat &&
  String.eqb (namePattern name) (before_base name +:+ "*" +:+ after_base name).
Definition rule_ok (r : Rule) : bool :=
  negb (path_shape (ru_Shape r)) || templated (ru_Name r) && (bool_decide (ru_Shape r = Sibling) || good_seg (ru_Dir r)).
Lemma rules_ok l : forallb rule_ok (TestRules l) = true.
Proof. by destruct l; vm_compute. Qed.

Lemma templated_name r : templated (ru_Name r) = true → rule_name r = before_base (ru_Name r) +:+ source_base +:+ after_base (ru_Name r).
Proof. unfold templated, rule_name, replace_first, before_base, after_base. intros H. bools. destruct (str_index _ _) as [i|]; [done|by destruct H as [? ?]]. Qed.
Lemma good_long s : no_slash s → (2 < String.length s)%nat → good_seg s = true.
Proof.
  unfold good_seg, no_slash. intros -> Hl. destruct (String.eqb_spec s "") as [->|]; [cbn in Hl; lia|]. destruct (String.eqb_spec s ".") as [->|]; [cbn in Hl; lia|].
  destruct (String.eqb_spec s "..") as [->|]; [cbn in Hl; lia|done].
Qed.
Lemma rule_ok_path r : rule_ok r = true → path_shape (ru_Shape r) = true → path_rule r ∧ path_match (namePattern (ru_Name r)) (rule_name r) = true.
Proof.
  unfold rule_ok. intros H Hs. rewrite Hs in H. cbn [negb orb] in H. apply andb_prop in H as [Ht Hd]. pose proof (templated_name r Ht) as En. unfold templated in Ht.
  apply andb_prop in Ht as [Ht Hp]. apply String.eqb_eq in Hp. bools. pose proof source_base_no_slash as Hb. split.
  - split_and!; [done| |].
    + apply orb_true_iff in Hd as [Hd|Hd]; [left; by apply bool_decide_eq_true in Hd|by right].
    + rewrite En. apply good_long; [by repeat apply no_slash_app|]. rewrite !length_app_str. match goal with H : (_ <? _)%nat = true |- _ => apply Nat.ltb_lt in H end. lia.
  - rewrite Hp, En. by apply template_match.
Qed.
End Source.

(** Wherever a language's test is looked for, a file there is a test. For every registered language and every source at a clean relative path, each
    candidate the conventions name (a candidate that is not the source itself) is called a test by the strict question. *)
Theorem candidates_are_tests lower_run l dirs file c : good dirs → good_seg file = true → c ∈ Candidates (TestRules l) (source_path dirs file) →
  content (ca_Shape c) = false → IsTest lower_run (TestRules l) (ca_Path c) = true.
Proof.
  intros Hd Hf (c' & Hc' & Hp & Hs)%Dedupe_from Hcont. apply list_elem_of_omap in Hc' as (r & Hr & Hraw). rewrite <- Hp. rewrite <- Hs in Hcont. clear c Hp Hs.
  assert (rule_ok r = true) as Hok by (pose proof (rules_ok l) as H; rewrite forallb_forall in H; apply H; by apply list_elem_of_In).
  assert (ca_Shape c' = ru_Shape r ∧ path_shape (ru_Shape r) = true) as [Hsh Hps].
  { unfold raw_candidate in Hraw. destruct (splitPath _) as [[d b] e]. unfold candidate in Hraw. destruct (ru_Shape r) eqn:E; cbn in Hraw; try done; try (injection Hraw as <-; done).
    destruct (_ <? _) in Hraw; [done|]. by injection Hraw as <-. }
  destruct (rule_ok_path file Hf r Hok Hps) as [Hrule Hm]. rewrite (raw_candidate_segments dirs file Hd Hf r Hrule) in Hraw.
  assert (ca_Path c' = joined (rule_segments dirs r (rule_name file r))) as ->.
  { destruct (ru_Shape r); try (by injection Hraw as <-). destruct (_ <? _) in Hraw; [done|]. by injection Hraw as <-. }
  assert (∃ pre, rule_segments dirs r (rule_name file r) = pre ++ [rule_name file r] ∧ good pre) as (pre & -> & Hpre).
  { destruct Hrule as (_ & Hdir & Hn). pose proof (good_tl dirs Hd) as Htl. unfold rule_segments. destruct (ru_Shape r) eqn:E; try done.
    - by exists dirs.
    - destruct Hdir as [|Hdir]; [done|]. exists (dirs ++ [ru_Dir r]). rewrite <- app_assoc. split; [done|]. apply Forall_app. by split; [|repeat constructor].
    - destruct Hdir as [|Hdir]; [done|]. eexists (ru_Dir r :: _). split; [done|]. constructor; [done|]. by destruct (ru_KeepLeading r).
    - destruct Hdir as [|Hdir]; [done|]. exists [ru_Dir r]. split; [done|by repeat constructor]. }
  unfold IsTest. destruct Hrule as (_ & _ & Hn). rewrite path_base_joined by done. apply orb_true_iff. left. apply orb_true_iff. left. apply existsb_exists.
  exists r. split; [by apply list_elem_of_In|]. rewrite Hm. assert (nameMarksTest (ru_Shape r) = true) as -> by by destruct (ru_Shape r).
  unfold rule_ok in Hok. rewrite Hps in Hok. cbn [negb orb andb] in *. apply andb_prop in Hok as [Ht _]. rewrite andb_true_r. apply negb_true_iff, String.eqb_neq. intros E. by rewrite E in Ht.
Qed.

(** ** The merge agrees with the evidence *)

(** A rule with its candidate. *)
Definition ruled (codePath : string) (r : Rule) : option (Rule * Candidate) := pair r <$> raw_candidate codePath r.
Definition form_of (rc : Rule * Candidate) : RawForm :=
  mkForm (ca_Path rc.2) (if sameDir (ca_Shape rc.2) then 0 else ca_Rank rc.2) (ru_Shape rc.1)
    (negb (bool_decide (ru_Shape rc.1 = Sibling)) && String.eqb (ca_Path rc.2) (path_join [ru_Dir rc.1; path_base (ca_Path rc.2)])).
Lemma RawForms_ruled rules p : RawForms rules p = map form_of (omap (ruled p) rules).
Proof.
  unfold RawForms. induction rules as [|r rules IH]; [done|]. cbn [flat_map omap list_omap]. rewrite IH. unfold raw_form, ruled, Candidates. cbn [omap list_omap].
  destruct (raw_candidate p r) as [c|]; cbn; [|done]. unfold settled. cbn. done.
Qed.
Lemma Candidates_ruled rules p : omap (raw_candidate p) rules = map snd (omap (ruled p) rules).
Proof. induction rules as [|r rules IH]; [done|]. cbn [omap list_omap]. unfold ruled. destruct (raw_candidate p r); cbn; by rewrite IH. Qed.
Lemma raw_shape p r c : raw_candidate p r = Some c → ca_Shape c = ru_Shape r.
Proof. unfold raw_candidate. destruct (splitPath p) as [[d b] e]. destruct (candidate _ _ _ _); cbn; [by intros [= <-]|done]. Qed.

Lemma foldr_max_const k l : Forall (eq k) l → foldr Z.max k l = k.
Proof. induction 1 as [|x l <- _ IH]; cbn; lia. Qed.
Lemma foldr_min_const k l : Forall (eq k) l → foldr Z.min k l = k.
Proof. induction 1 as [|x l <- _ IH]; cbn; lia. Qed.

(** If a claim that says something has the rank of every other claim on its path, when no sibling is among them, the merges agree. *)
Lemma merges_agree rules p :
  (∀ rc rc', rc ∈ omap (ruled p) rules → rc' ∈ omap (ruled p) rules → ca_Path rc'.2 = ca_Path rc.2 →
     ca_Shape rc.2 ≠ Sibling → ca_Shape rc'.2 ≠ Sibling → rf_Vacuous (form_of rc) = false → ca_Rank rc'.2 = ca_Rank rc.2) →
  map (λ c, (ca_Path c, ca_Rank c)) (Candidates rules p) = PrincipledMerge (RawForms rules p).
Proof.
  intros H. unfold Candidates. rewrite Dedupe_reference, map_map, RawForms_ruled, Candidates_ruled. unfold PrincipledMerge. rewrite !map_map. cbn [rf_Path form_of].
  apply map_ext. intros q. cbn [ca_Path ca_Rank reference]. f_equal. unfold claims_on. set (g := List.filter (λ rc : Rule * Candidate, String.eqb (ca_Path rc.2) q) (omap (ruled p) rules)).
  assert (List.filter (λ c, String.eqb (ca_Path c) q) (map snd (omap (ruled p) rules)) = map snd g) as ->.
  { unfold g. generalize (omap (ruled p) rules). intros l. induction l as [|x l IH]; [done|]. cbn. rewrite IH. by destruct (String.eqb _ _). }
  assert (List.filter (λ f, String.eqb (rf_Path f) q) (map form_of (omap (ruled p) rules)) = map form_of g) as ->.
  { unfold g. generalize (omap (ruled p) rules). intros l. induction l as [|x l IH]; [done|]. cbn. rewrite IH. by destruct (String.eqb _ _). }
  assert (∀ rc, rc ∈ g → rc ∈ omap (ruled p) rules ∧ ca_Path rc.2 = q) as Hg.
  { unfold g. intros rc. rewrite elem_of_filter_where, String.eqb_eq. done. }
  assert (∀ rc, rc ∈ g → ca_Shape rc.2 = ru_Shape rc.1) as Hsh.
  { intros rc [Hrc _]%Hg. apply list_elem_of_omap in Hrc as (r & _ & E). unfold ruled in E. destruct (raw_candidate p r) as [c|] eqn:Er; [|done]. injection E as <-. by apply (raw_shape p). }
  unfold principled_rank. assert (existsb (λ f, bool_decide (rf_Shape f = Sibling)) (map form_of g) = existsb is_sibling (map snd g)) as ->.
  { clear -Hsh. induction g as [|rc g IH]; [done|]. cbn. rewrite IH by (intros; apply Hsh; by right). unfold is_sibling, sameDir. by rewrite (Hsh rc) by by left. }
  destruct (existsb is_sibling (map snd g)) eqn:Es; [done|].
  assert (∀ rc, rc ∈ g → ca_Shape rc.2 ≠ Sibling) as Hns.
  { intros rc Hrc E. apply not_true_iff_false in Es. apply Es, existsb_exists. exists rc.2. split; [apply in_map; by apply list_elem_of_In|]. unfold is_sibling, sameDir. by rewrite E. }
  assert (map rf_Rank (map form_of g) = map ca_Rank (map snd g)) as Er.
  { rewrite !map_map. apply map_ext_in. intros rc Hrc%list_elem_of_In. cbn. unfold sameDir. by rewrite bool_decide_false by by apply Hns. }
  destruct (List.filter (λ f, negb (rf_Vacuous f)) (map form_of g)) as [|f real] eqn:Ef.
  - rewrite Er. unfold highest, greatest. by destruct (map ca_Rank (map snd g)).
  - assert (f ∈ List.filter (λ f, negb (rf_Vacuous f)) (map form_of g)) as Hf by (rewrite Ef; by left).
    rewrite elem_of_filter_where in Hf. destruct Hf as [(rc & -> & Hrc)%list_elem_of_fmap Hv]. apply negb_true_iff in Hv. set (k := ca_Rank rc.2).
    assert (∀ rc', rc' ∈ g → ca_Rank rc'.2 = k) as Hk.
    { intros rc' Hrc'. destruct (Hg _ Hrc) as [? ?], (Hg _ Hrc') as [? ?]. apply H; [done|done|congruence|by apply Hns|by apply Hns|done]. }
    assert (Forall (eq k) (map ca_Rank (map snd g))) as Hall.
    { apply Forall_forall. intros x. rewrite map_map. intros (rc' & -> & Hrc')%list_elem_of_fmap. symmetry. by apply Hk. }
    assert (Forall (eq k) (map rf_Rank (form_of rc :: real))) as Hreal.
    { apply Forall_forall. intros x (f' & -> & Hf')%list_elem_of_fmap. rewrite <- Ef, elem_of_filter_where in Hf'. destruct Hf' as [Hf' _]. rewrite <- Er in Hall. rewrite Forall_forall in Hall.
      apply Hall. by apply list_elem_of_fmap_2. }
    unfold highest, least. destruct (map ca_Rank (map snd g)) as [|x xs] eqn:Ex; [destruct g; [by apply elem_of_nil in Hrc|done]|].
    apply Forall_cons in Hall as [<- Hall]. cbn [map] in Hreal |- *. apply Forall_cons in Hreal as [<- Hreal]. by rewrite foldr_max_const, foldr_min_const.
Qed.

Lemma rule_segments_nonempty dirs r n : rule_segments dirs r n ≠ [].
Proof. unfold rule_segments. destruct (ru_Shape r); try done; by destruct dirs. Qed.
Lemma ruled_segments dirs file l : good dirs → good_seg file = true → l ≠ LangRust → ∀ r c, (r, c) ∈ omap (ruled (source_path dirs file)) (TestRules l) →
  r ∈ TestRules l ∧ path_rule file r ∧ ca_Path c = joined (rule_segments dirs r (rule_name file r)) ∧ ca_Rank c = ru_Rank r ∧ ca_Shape c = ru_Shape r.
Proof.
  intros Hd Hf Hl r c (r0 & Hr & E)%list_elem_of_omap. unfold ruled in E. destruct (raw_candidate _ r0) as [c0|] eqn:E0; [|done]. injection E as -> ->. split; [done|].
  assert (rule_ok r = true) as Hok by (pose proof (rules_ok l) as H; rewrite forallb_forall in H; apply H; by apply list_elem_of_In).
  assert (path_shape (ru_Shape r) = true) as Hps.
  { assert (content (ru_Shape r) = false) as Hcont.
    { assert (forallb (λ r, negb (content (ru_Shape r))) (TestRules l) = true) as H by by destruct l. rewrite forallb_forall in H. apply negb_true_iff, H. by apply list_elem_of_In. }
    unfold raw_candidate in E0. destruct (splitPath _) as [[? ?] ?]. unfold candidate in E0. by destruct (ru_Shape r). }
  destruct (rule_ok_path file Hf r Hok Hps) as [Hrule _]. split; [done|]. rewrite (raw_candidate_segments dirs file Hd Hf r Hrule) in E0.
  destruct (ru_Shape r); try done; try (by injection E0 as <-). destruct (_ <? _) in E0; [done|]. by injection E0 as <-.
Qed.
Lemma same_segments dirs file l r r' :
  (l = LangRuby → (length dirs ≤ 1)%nat ∨ source_base file +:+ "_test" ≠ "test_" +:+ source_base file) →
  r ∈ TestRules l → r' ∈ TestRules l → path_shape (ru_Shape r) = true → path_shape (ru_Shape r') = true → ru_Shape r ≠ Sibling → ru_Shape r' ≠ Sibling →
  rule_segments dirs r' (rule_name file r') = rule_segments dirs r (rule_name file r) → rule_segments dirs r (rule_name file r) ≠ [ru_Dir r; rule_name file r] →
  ru_Rank r' = ru_Rank r.
Proof.
  intros Hruby Hr Hr' Hp Hp' Hs Hs' E Hv.
  destruct l; cbn [TestRules jsFamilyRules] in Hr, Hr'; repeat (apply elem_of_cons in Hr as [->|Hr]; [|]); try (by apply elem_of_nil in Hr); try done;
    repeat (apply elem_of_cons in Hr' as [->|Hr']; [|]); try (by apply elem_of_nil in Hr'); try done.
  all: cbn [rule_segments ru_Shape ru_Dir ru_KeepLeading parallel] in E, Hv.
  all: destruct dirs as [|d [|d' ds]]; cbn [app tl] in E, Hv; try done; try (exfalso; congruence).
  all: try (apply (f_equal (@length string)) in E; rewrite ?length_app in E; cbn [length] in E; rewrite ?length_app in E; cbn [length] in E; lia).
  all: destruct (Hruby eq_refl) as [Hlen|Hne]; [cbn [length] in Hlen; lia|]; exfalso; apply Hne; injection E as E; apply app_inj_tail in E as [_ E];
    rewrite !templated_name in E by reflexivity; cbn [ru_Name parallel before_base after_base] in E.
  all: change (before_base "test_{base}.rb") with "test_" in E; change (after_base "test_{base}.rb") with ".rb" in E;
    change (before_base "{base}_test.rb") with "" in E; change (after_base "{base}_test.rb") with ("_test" +:+ ".rb") in E; rewrite app_str_nil_l, <- !app_str_assoc in E.
  all: apply app_str_inj_len in E as [E _]; [done|]; rewrite !length_app_str; cbn [String.length]; lia.
Qed.
(** C27. The rank of a merged candidate is the rank of its evidence. For every registered language and every source at a clean relative path, the merge
    (the least specific of the colliding ranks, a sibling excepted) gives each path the rank its strongest claim with real directory evidence has; except for a
    Ruby source two directories deep or more whose name makes the prefix form and the suffix form of its test one name. *)
Theorem Candidates_principled l dirs file : good dirs → good_seg file = true →
  (l = LangRuby → (length dirs ≤ 1)%nat ∨ source_base file +:+ "_test" ≠ "test_" +:+ source_base file) →
  map (λ c, (ca_Path c, ca_Rank c)) (Candidates (TestRules l) (source_path dirs file)) = PrincipledMerge (RawForms (TestRules l) (source_path dirs file)).
Proof.
  intros Hd Hf Hruby. apply merges_agree. intros [r c] [r' c'] Hc Hc' Hpath Hs Hs' Hv. cbn [fst snd] in *.
  destruct (decide (l = LangRust)) as [->|Hrust].
  { assert (∀ r c, (r, c) ∈ omap (ruled (source_path dirs file)) (TestRules LangRust) → ca_Rank c = 0) as H; [|by rewrite (H _ _ Hc), (H _ _ Hc')].
    intros r0 c0 (r1 & Hr1 & E)%list_elem_of_omap. unfold ruled in E. destruct (raw_candidate _ r1) as [c1|] eqn:E1; [|done]. injection E as -> ->.
    unfold raw_candidate in E1. destruct (splitPath _) as [[? ?] ?]. destruct (candidate _ _ _ _); [|done]. injection E1 as <-. cbn [ca_Rank].
    cbn [TestRules] in Hr1. by repeat (apply elem_of_cons in Hr1 as [->|Hr1]; [done|]); apply elem_of_nil in Hr1. }
  destruct (ruled_segments dirs file l Hd Hf Hrust _ _ Hc) as (Hr & Hrule & Ep & Er & Esh), (ruled_segments dirs file l Hd Hf Hrust _ _ Hc') as (Hr' & Hrule' & Ep' & Er' & Esh').
  rewrite Ep, Ep' in Hpath. apply joined_inj in Hpath; [|apply rule_segments_nonempty|apply rule_segments_nonempty|apply good_no_slash; by apply good_segments|apply good_no_slash; by apply good_segments].
  rewrite Er, Er'. rewrite Esh in Hs. rewrite Esh' in Hs'. apply (same_segments dirs file l r r' Hruby); try done; [by destruct Hrule|by destruct Hrule'|]. intros E.
  cbn [form_of rf_Vacuous fst snd] in Hv. rewrite (bool_decide_false _ Hs), Ep, E in Hv. cbn [negb andb] in Hv.
  destruct Hrule as (_ & [|Hdir] & Hn); [done|]. assert (good [ru_Dir r]) as Hg by by repeat constructor.
  pose proof (path_base_joined [ru_Dir r] (rule_name file r) Hg Hn) as Eb. cbn [app] in Eb. rewrite Eb in Hv.
  change (path_join [ru_Dir r; rule_name file r]) with (path_join (map joined [[ru_Dir r]; [rule_name file r]])) in Hv. rewrite path_join_joined in Hv by by repeat constructor.
  cbn [concat app] in Hv. by rewrite String.eqb_refl in Hv.
Qed.

(** A Ruby source named test.rb, two directories deep: both forms of its test are test/a/test_test.rb, the merge gives the weaker rank, and the evidence
    the stronger. *)
Example ruby_merge_differs :
  map (λ c, (ca_Path c, ca_Rank c)) (Candidates (TestRules LangRuby) "lib/a/test.rb") = [("lib/a/test_test.rb", 0); ("test/a/test_test.rb", 2); ("spec/a/test_spec.rb", 1)] ∧
  PrincipledMerge (RawForms (TestRules LangRuby) "lib/a/test.rb") = [("lib/a/test_test.rb", 0); ("test/a/test_test.rb", 1); ("spec/a/test_spec.rb", 1)].
Proof. split; vm_compute; reflexivity. Qed.
