(* ===== verification/PairingSamples.v ===== *)
(** * Sources and their tests: the theorems of PairingFacts and Languages applied

    A small repository: a Python package with a mirrored tree of tests, a Rust crate whose module names its test file, and files that contend for one test. *)
From S2P Require Import Prelude GoLib GoText Paths TestMap Mutant Queue Pairing PairingFacts Languages.
Local Open Scope string_scope.
Local Open Scope list_scope.
Local Open Scope Z_scope.
Local Open Scope corral_scope.

(** ** The rules on concrete paths *)

Example python_candidates : map ca_Path (Candidates (TestRules LangPython) "src/flask/views.py") =
  ["src/flask/test_views.py"; "src/flask/views_test.py"; "tests/src/flask/test_views.py"; "tests/flask/test_views.py"; "tests/test_views.py"].
Proof. vm_compute. reflexivity. Qed.
(** A source in the test root keeps the rank of its sibling. *)
Example sibling_wins : map (λ c, (ca_Path c, ca_Rank c)) (Candidates (TestRules LangPython) "tests/utils.py") =
  [("tests/test_utils.py", 0); ("tests/utils_test.py", 0); ("tests/tests/test_utils.py", 1)].
Proof. vm_compute. reflexivity. Qed.
Example search_by_affix : bestSearchMatch "src/itsdangerous/signer.py" (Roots (TestRules LangPython)) ["test_signer.py"]
  ["tests/other/test_signer.py"; "tests/test_itsdangerous/test_signer.py"; "docs/itsdangerous/test_signer.py"] = Some "tests/test_itsdangerous/test_signer.py".
Proof. vm_compute. reflexivity. Qed.
Definition no_case (run : string) : string := run.
Example strict_and_generous : IsTest no_case (TestRules LangPHP) "src/Latest.php" = false ∧ IsTest no_case (TestRules LangPHP) "tests/CalcTest.php" = true ∧
  IsTest no_case (TestRules LangGo) "tests/CalcTest.php" = false ∧ MightBeTest no_case AllTestRules "src/Latest.php" = true ∧
  MightBeTest no_case AllTestRules "src/coworker-server.spec" = false.
Proof. by vm_compute. Qed.

Lemma IsTest_MightBeTest_witness : TestRules LangRuby ∈ AllTestRules ∧ IsTest no_case (TestRules LangRuby) "spec/spec_helper.rb" = true ∧
  MightBeTest no_case AllTestRules "spec/spec_helper.rb" = true.
Proof.
  assert (TestRules LangRuby ∈ AllTestRules) as Hin by (unfold AllTestRules; cbn; do 4 right; left).
  assert (IsTest no_case (TestRules LangRuby) "spec/spec_helper.rb" = true) as Ht by (vm_compute; reflexivity).
  split; [exact Hin|]. split; [exact Ht|]. apply (IsTest_MightBeTest no_case) with (rules := TestRules LangRuby); [|exact Hin|repeat constructor|exact Ht].
  unfold no_case, no_slash. intros run H. induction run as [|a run IH]; [reflexivity|]. cbn [no_ascii] in H. apply andb_prop in H as [Ha Hr]. cbn [mem_ascii]. rewrite (IH Hr), orb_false_r.
  destruct a as [[] [] [] [] [] [] [] []]; try discriminate Ha; reflexivity.
Defined.

Lemma Candidates_principled_witness : good ["lib"; "acme"] ∧ source_path ["lib"; "acme"] "pricing.rb" = "lib/acme/pricing.rb" ∧
  map (λ c, (ca_Path c, ca_Rank c)) (Candidates (TestRules LangRuby) (source_path ["lib"; "acme"] "pricing.rb")) =
  PrincipledMerge (RawForms (TestRules LangRuby) (source_path ["lib"; "acme"] "pricing.rb")).
Proof.
  assert (good ["lib"; "acme"]) as Hg by (repeat constructor). split; [exact Hg|]. split; [reflexivity|].
  apply (Candidates_principled LangRuby ["lib"; "acme"] "pricing.rb" Hg); [reflexivity|]. intros _. right. vm_compute. discriminate.
Defined.

(** ** A crate *)

Definition crate_disk : Disk := mkDisk (Some "/work") (λ p, if bool_decide (p = "/work/crate") then Some "/work/crate" else None).
Definition crate : Sources := mkSources "/work/crate" crate_disk (λ p, bool_decide (p ∈ ["src/app.rs"; "src/app_tests.rs"])) (Err "no listing")
  (Some (λ rel, Ok (if bool_decide (rel = "src/app.rs") then [mkModule "tests" false "../../elsewhere.rs" true; mkModule "tests" false "app_tests.rs" true] else []))).
Definition app_resolution : Resolution := mkResolution "src/app_tests.rs" 0 (Some Declared) "path-attr" false ["src/app_tests.rs"] ["../elsewhere.rs"] [] false true.
Lemma Resolve_exact_witness : Resolve crate (TestRules LangRust) "src/app.rs" = Ok app_resolution ∧ Resolves crate (TestRules LangRust) "src/app.rs" app_resolution.
Proof.
  assert (Resolve crate (TestRules LangRust) "src/app.rs" = Ok app_resolution) as E by (vm_compute; reflexivity). split; [exact E|].
  apply (Resolve_exact crate (TestRules LangRust) "src/app.rs" app_resolution E).
Defined.
Definition app_landing : Landing := mkLanding "src/app_tests.rs" (Some Declared) "path-attr" true 1 true false ["../elsewhere.rs"].
Lemma Land_follows_Resolve_witness : Land crate (TestRules LangRust) "src/app.rs" = Ok app_landing ∧ la_Path app_landing = re_Path app_resolution ∧ la_Into app_landing = true.
Proof.
  assert (Resolve crate (TestRules LangRust) "src/app.rs" = Ok app_resolution) as E by (vm_compute; reflexivity).
  assert (Land crate (TestRules LangRust) "src/app.rs" = Ok app_landing) as El by (vm_compute; reflexivity). split; [exact El|].
  pose proof (Land_follows_Resolve crate (TestRules LangRust) "src/app.rs" app_resolution app_landing E El) as H. cbn in H. destruct H as (H1 & _ & _ & H2 & _). split; [exact H1|exact H2].
Defined.
Lemma insideRoot_sound_witness : insideRoot crate_disk "/work/crate" "../elsewhere.rs" = false ∧ insideRoot crate_disk "/work/crate" "src/app_tests.rs" = true ∧
  beneath "/work/crate" "/work/crate/src/app_tests.rs".
Proof.
  assert (insideRoot crate_disk "/work/crate" "src/app_tests.rs" = true) as E by (vm_compute; reflexivity). split; [vm_compute; reflexivity|]. split; [exact E|].
  destruct (insideRoot_sound crate_disk "/work/crate" "src/app_tests.rs" E) as [_ H]. destruct H as (r & p & Hr & Hp & Hb & _); [discriminate|].
  vm_compute in Hr, Hp. injection Hr as <-. injection Hp as <-. exact Hb.
Defined.
Lemma CheckTestLanding_safe_witness : CheckTestLanding registry "src/app.rs" app_landing = Ok () ∧ path_clean (la_Path app_landing) ≠ path_clean "src/app.rs" ∧
  CheckTestLanding registry "src/app.rs" (mkLanding "" None "" false 0 false false []) = Err (NotRead "src/app.rs").
Proof.
  assert (CheckTestLanding registry "src/app.rs" app_landing = Ok ()) as E by (vm_compute; reflexivity). split; [exact E|].
  destruct (CheckTestLanding_safe registry "src/app.rs" app_landing E) as [H _]. split; [apply H; discriminate|vm_compute; reflexivity].
Defined.

(** ** One test, three sources *)

Definition contenders : list Paired := [mkPaired "src/flask/views.py" "tests/test_views.py" 3 false; mkPaired "examples/views.py" "tests/test_views.py" 3 false;
  mkPaired "tests/views.py" "tests/test_views.py" 0 false; mkPaired "lib/a.js" "test/all.js" 2 true; mkPaired "lib/b.js" "test/all.js" 2 true; mkPaired "test/all.js" "test/all.js" 0 false].
Lemma demote_one_source_witness : ∃ kept lost, demoteAmbiguousPairings contenders = (kept, lost) ∧ map pr_Path kept = ["tests/views.py"; "lib/a.js"; "lib/b.js"] ∧
  lost = ["src/flask/views.py"; "examples/views.py"; "test/all.js"] ∧ ∀ c, c ∈ kept ↔ ∃ i, contenders !! i = Some c ∧ keeps contenders i c.
Proof.
  destruct (demoteAmbiguousPairings contenders) as [kept lost] eqn:E. exists kept, lost. split; [reflexivity|].
  destruct (demote_one_source contenders kept lost E) as [H _]. vm_compute in E. injection E as <- <-. split; [reflexivity|]. split; [reflexivity|exact H].
Defined.
