(* ===== verification/Seats.v ===== *)
(** * The pool's seats: internal/advpool/roles.go and mutant_sources.go

    The roles of a run and the keys of their tasks, the tasks a run starts with, where each mutant of an exam came from.
    What a model is told is a value of [Prompt], its text a function the definitions take: no decision depends
    on it. The challenger's seats (ShadowModel, ShadowWriterModel) are left out. *)
From S2P Require Import Prelude GoLib GoText Float64 Queue Mutant Shards.
Local Open Scope string_scope.
Local Open Scope list_scope.
Local Open Scope Z_scope.
Local Open Scope corral_scope.

(** ** Roles and keys *)

Definition RoleMutantGenerator : string := "mutant-generator".
Definition RoleTestWriter : string := "test-writer".
Definition RoleTestCritic : string := "test-critic".
Definition RoleMutantGeneratorShadow : string := "mutant-generator-shadow".
Definition DevAdequacyKey : string := "dev-adequacy".
Definition MaxShardRetries : Z := 2.
Definition MaxTestWriterAttempts : Z := 3.
Definition WriterModePerSurvivor : string := "per-survivor".
Definition WriterModeBatched : string := "batched".

Definition ShardTaskKey (index : Z) : string := RoleMutantGenerator +:+ "/" +:+ format_int index.
Definition ShadowShardTaskKey (index : Z) : string := RoleMutantGeneratorShadow +:+ "/" +:+ format_int index.
Definition TestWriterTaskKey (mutantID : string) : string := RoleTestWriter +:+ "/" +:+ mutantID.

(** strconv.Atoi. *)
Definition atoi (s : string) : option Z :=
  let digits t := if String.eqb t "" then None else digits_value 0 t in
  n ← match s with
      | String a s' => if Ascii.eqb a "-" then Z.opp <$> digits s' else if Ascii.eqb a "+" then digits s' else digits s
      | "" => None
      end;
  if (- 2 ^ 63 <=? n) && (n <? 2 ^ 63) then Some n else None.

Definition index_after (prefix key : string) : option Z :=
  if has_prefix prefix key then
    i ← atoi (trim_prefix prefix key);
    if i <? 0 then None else Some i
  else None.
Definition ShardIndexFromKey (key : string) : option Z := index_after (RoleMutantGenerator +:+ "/") key.
Definition ShadowShardIndexFromKey (key : string) : option Z := index_after (RoleMutantGeneratorShadow +:+ "/") key.
Definition shardIndexOfAnyKey (key : string) : option Z :=
  match ShardIndexFromKey key with Some i => Some i | None => ShadowShardIndexFromKey key end.

(** The order of a role's tasks: those without an index by key, then by index. *)
Definition by_shard (a b : Task) : bool :=
  match shardIndexOfAnyKey (tk_Key a), shardIndexOfAnyKey (tk_Key b) with
  | Some i, Some j => i <? j
  | None, Some _ => true
  | Some _, None => false
  | None, None => str_ltb (tk_Key a) (tk_Key b)
  end.
Definition tasksByRole (m : Z) (role : string) (q : Store) : list Task :=
  sort_stable by_shard (List.filter (λ t, String.eqb (ts_Role (tk_Spec t)) role) (ListTasks m q)).
Definition taskByKey (m : Z) (key : string) (q : Store) : option Task := List.find (λ t, String.eqb (tk_Key t) key) (ListTasks m q).
Definition liveTasks (ts : list Task) : list Task := List.filter (λ t, negb (has_status StatusSuperseded t || has_status StatusCancelled t)) ts.

(** ** The specification of a run *)

Record MutantSource := mkSource { sr_Kind : string; sr_Tool : string; sr_Operator : string; sr_Status : string; sr_Model : string }.
Definition KindModel : string := "model".
Definition KindTool : string := "tool".

(** A nil slice or map is None. *)
Record Spec := mkPoolSpec {
  sp_CodePath : string; sp_Code : string; sp_DevTestPath : string; sp_DevTestCode : string; sp_TestCmd : string; sp_WriterMode : string;
  sp_plan : RunSpec; sp_PresetMutants : option (list Mutant); sp_ToolMutants : option (list Mutant);
  sp_MutantSources : option (gmap string MutantSource) }.

Definition resolvedWriterMode (sp : Spec) : string :=
  if String.eqb (trim_space (sp_WriterMode sp)) WriterModePerSurvivor then WriterModePerSurvivor else WriterModeBatched.

(** ** Where a mutant came from *)

Inductive SourcesErr :=
| BothSets | SharedID (id : string) | NoToolSource (id : string) | NotTool (id kind : string) | NoPresetSource (id : string) | NotGiven (id : string)
| BadKind (id kind : string).

Definition sources_of (sp : Spec) : gmap string MutantSource := default ∅ (sp_MutantSources sp).

Fixpoint check_tools (srcs : gmap string MutantSource) (ms : list Mutant) (given : gset string) : result SourcesErr (gset string) :=
  match ms with
  | [] => Ok given
  | m :: rest =>
      let id := mt_ID m in
      if bool_decide (id ∈ given) then Err (SharedID id)
      else match srcs !! id with
           | None => Err (NoToolSource id)
           | Some s => if negb (String.eqb (sr_Kind s) KindTool) then Err (NotTool id (sr_Kind s)) else check_tools srcs rest ({[ id ]} ∪ given)
           end
  end.
Fixpoint check_presets (srcs : gmap string MutantSource) (ms : list Mutant) (given : gset string) : result SourcesErr (gset string) :=
  match ms with
  | [] => Ok given
  | m :: rest => match srcs !! mt_ID m with None => Err (NoPresetSource (mt_ID m)) | Some _ => check_presets srcs rest ({[ mt_ID m ]} ∪ given) end
  end.
Definition sortedSourceIDs (srcs : gmap string MutantSource) : list string := sort_strings (map fst (map_to_list srcs)).
Fixpoint check_named (srcs : gmap string MutantSource) (given : gset string) (ids : list string) : result SourcesErr () :=
  match ids with
  | [] => Ok ()
  | id :: rest =>
      if negb (bool_decide (id ∈ given)) then Err (NotGiven id)
      else match srcs !! id with
           | Some s => if String.eqb (sr_Kind s) KindModel || String.eqb (sr_Kind s) KindTool then check_named srcs given rest else Err (BadKind id (sr_Kind s))
           | None => check_named srcs given rest
           end
  end.
Definition checkMutantSources (sp : Spec) : result SourcesErr () :=
  if bool_decide (is_Some (sp_PresetMutants sp)) && bool_decide (is_Some (sp_ToolMutants sp)) then Err BothSets
  else
    let srcs := sources_of sp in
    let! given := check_tools srcs (default [] (sp_ToolMutants sp)) ∅ in
    let! given := match sp_PresetMutants sp, sp_MutantSources sp with
                  | Some ms, Some _ => check_presets srcs ms given
                  | _, _ => Ok given
                  end in
    check_named srcs given (sortedSourceIDs srcs).

Definition source_for (given : gmap string MutantSource) (generated : gset string) (model : string) (id : string) : option MutantSource :=
  match given !! id with
  | Some s => Some s
  | None => if bool_decide (id ∈ generated) then Some (mkSource KindModel "" "" "" model) else None
  end.
Definition examSources (exam : list Mutant) (given : gmap string MutantSource) (generated : gset string) (model : string) : gmap string MutantSource :=
  foldl (λ out m, match source_for given generated model (mt_ID m) with Some s => <[mt_ID m := s]> out | None => out end) ∅ exam.

Definition hasToolSource (srcs : gmap string MutantSource) : bool := existsb (λ kv, String.eqb (sr_Kind kv.2) KindTool) (map_to_list srcs).

(** ** The tasks of a run *)

(** What a seat is told: the mutants of a region or of the file, the tests to criticise, and a test for some survivors,
    with the attempt before it and why that one did not compile or failed on the code as it is. *)
Inductive Prompt :=
| PShard (sh : Shard) | PFile (mutants : Z) | PCritic
| PWriter (survivors : list Mutant) (prevTest compileErr cleanFailure : string)
| PSurvivor (m : Mutant) (prevTest compileErr cleanFailure : string).

Definition filterSignatures (sigs : list Signature) (want : list string) : list Signature :=
  List.filter (λ s, bool_decide (symbolIdentity s ∈ want)) sigs.
Definition signaturesChunkable (sigs : list Signature) : bool := negb (bool_decide (sigs = [])) && forallb (λ s, 0 <? sg_Lines s) sigs.
Definition ShardIsChunked (sigs : list Signature) (sh : Shard) : bool := signaturesChunkable (filterSignatures sigs (sh_Symbols sh)).
Definition promptShape (sp : Spec) (sigs : list Signature) (shards : list Shard) : string :=
  if bool_decide (is_Some (sp_PresetMutants sp)) then ""
  else if bool_decide (shards = []) then "file" else if forallb (ShardIsChunked sigs) shards then "chunk" else "file".

Definition shardTitle (sh : Shard) : string := "Generate mutants for " +:+ String.concat ", " (sh_Symbols sh).
Definition roleTitle (role : string) : string :=
  if String.eqb role RoleMutantGenerator then "Generate seeded-violation mutants"
  else if String.eqb role RoleTestWriter then "Write test targeting survivors"
  else if String.eqb role RoleTestCritic then "Critique the dev's tests" else role.

Definition seat (render : Prompt → string) (assign : gmap string string) (role key title : string) (p : Prompt) (deps : list string) : TaskSpec :=
  mkSpec key role title (render p) "" deps "" (default "" (assign !! role)).
Definition generator_seats (render : Prompt → string) (sp : Spec) (assign : gmap string string) (sigs : list Signature) : list TaskSpec :=
  let '(shards, budget) := PlanShards sigs (sp_plan sp) in
  match default [] shards with
  | [] => [seat render assign RoleMutantGenerator RoleMutantGenerator (roleTitle RoleMutantGenerator) (PFile (mb_Total budget)) []]
  | shards => map (λ sh, seat render assign RoleMutantGenerator (ShardTaskKey (sh_Index sh)) (shardTitle sh) (PShard sh) []) shards
  end.
Definition critic_enabled (assign : gmap string string) : bool := negb (is_blank (default "" (assign !! RoleTestCritic))).
Definition BuildDAG (render : Prompt → string) (sp : Spec) (assign : gmap string string) (sigs : list Signature) : list TaskSpec :=
  (if bool_decide (is_Some (sp_PresetMutants sp)) then [] else generator_seats render sp assign sigs) ++
  [seat render assign RoleTestWriter RoleTestWriter (roleTitle RoleTestWriter) (PWriter [] "" "" "") [DevAdequacyKey]] ++
  (if critic_enabled assign then [seat render assign RoleTestCritic RoleTestCritic (roleTitle RoleTestCritic) PCritic []] else []).
