(* ===== verification/Driver.v ===== *)
(** * The pool's driver: internal/advpool/driver.go, driver_writer_fanout.go and authored_together.go

    One run from its start to its verdict: the generators' mutants are gathered, the developer's tests graded on them, a
    writer's tests tried on the survivors (one for all, or one each), the critic's findings taken, and the verdict
    composed. A tick moves a run on as far as the queue allows. A function of the driver is a computation in [M]: it may
    fail, and what it had changed by then stays, as in the code. What the driver asks of others (the jail's
    scorer, the parser of model output, the signer, a language's commands) is an [Answers]; each question has the number of the questions
    before it, so that the same one may be answered differently later. The challenger's seats, the matrix, the timings and the telemetry
    are left out: no decision here reads them. *)
From S2P Require Import Prelude GoLib GoText Float64 Queue Crypto TestMap Invocations Mutant Jail Score ScoreFacts Adequacy Verdict Shell Rows Shards Seats.
Local Open Scope string_scope.
Local Open Scope list_scope.
Local Open Scope Z_scope.
Local Open Scope corral_scope.

(** ** Data *)

Record AuthoredPart := mkPart { ap_MutantID : string; ap_Source : string; ap_Reason : string }.

Record MutantRef := mkRef {
  mr_ID : string; mr_ParentSHA256 : string; mr_Span : LineRange; mr_TestsRun : Z; mr_Rule : string; mr_KilledBy : string;
  mr_KillConfirmation : Confirmation; mr_UnrepeatedKilledBy : string }.
Definition toMutantRef (grading : gmap string MutantGrading) (m : Mutant) : MutantRef :=
  match grading !! mt_ID m with
  | Some g => mkRef (mt_ID m) (mt_ParentSHA256 m) (mt_Span m) (mg_TestsRun g) (mg_Rule g) (mg_KilledBy g) (mg_KillConfirmation g) (mg_UnrepeatedKilledBy g)
  | None => mkRef (mt_ID m) (mt_ParentSHA256 m) (mt_Span m) 0 "" "" NotCandidate ""
  end.
Definition toMutantRefsWith (ms : list Mutant) (grading : gmap string MutantGrading) : list MutantRef := map (toMutantRef grading) ms.

(** One survivor's writer. *)
Record writerAttempt := mkAttempt {
  wa_mutant : Mutant; wa_taskID : Z; wa_test : string; wa_repairs : Z; wa_attempts : Z; wa_done : bool; wa_proven : bool; wa_measured : bool;
  wa_salvaged : bool; wa_compiled : bool; wa_providerFailed : bool }.

(** What the pool's verdict adds to the gate's. *)
Record PoolVerdict := mkPoolVerdict {
  vr_gate : Verdict; vr_TimedOut : bool; vr_CriticIncomplete : bool; vr_RefutedFindings : list Finding;
  vr_RegionsTotal : Z; vr_RegionsProbed : Z; vr_DroppedRegions : list string; vr_DuplicateMutants : Z; vr_MutantSources : gmap string MutantSource;
  vr_PromptShape : string; vr_MutantBudget : MutantBudget; vr_ProvenMutantIDs : list string; vr_MutantsInvalid : Z; vr_MutantsUnmeasured : Z;
  vr_exam : examSample; vr_AuthoredTest : string; vr_AuthoredExtra : list AuthoredPart; vr_AuthoredTogether : string; vr_AuthoredTogetherOutput : string;
  vr_WriterMode : string; vr_WriterSeatsUngraded : Z; vr_WriterAttempts : option TestsPerMutantSpread; vr_WriterProviderFailed : bool;
  vr_AuthoredTestNotCollected : bool; vr_BaselineFailed : bool; vr_BaselineOutput : string; vr_BaselineFlaky : list string; vr_SuiteIgnoresFile : bool;
  vr_DevKilledMutants : list MutantRef; vr_DevSurvivedMutants : list MutantRef; vr_ExamCoverage : ExamCoverage;
  vr_RecordID : Z; vr_RecordHead : string }.
Definition vr_Status (v : PoolVerdict) : Status := vd_Status (vr_gate v).

(** The generators' part of a run. *)
Record Regions := mkRegions {
  rg_Retries : gmap string Z; rg_DroppedKeys : gset string; rg_DroppedRegions : list string; rg_Total : Z; rg_Probed : Z; rg_DupMutants : Z;
  rg_Sources : gmap string MutantSource }.
(** The developer's tests' part. *)
Record DevPass := mkDevPass {
  dp_Scored : bool; dp_KillRate : double; dp_Total : Z; dp_Invalid : Z; dp_InvalidReasons : gmap string Reason; dp_CompileGateNote : list GateNote;
  dp_Unmeasured : Z; dp_Exam : examSample; dp_Survivors : list Mutant; dp_Killed : list MutantRef; dp_PerMutant : gmap string MutantGrading;
  dp_PerMutantGraded : bool; dp_BaselineFailed : bool; dp_BaselineOutput : string; dp_BaselineFlaky : list string; dp_SuiteIgnoresFile : bool;
  dp_Mutants : list Mutant }.
(** The writers' part: the task of the one writer, or of each survivor's. *)
Record Writer := mkWriter { wr_TaskID : Z; wr_Tries : Z; wr_Seats : gmap string writerAttempt; wr_Order : list string }.
(** What came of the writers. *)
Record Pool := mkPool {
  po_Scored : bool; po_ProvenMissed : Z; po_ProvenIDs : list string; po_Measured : bool; po_Salvaged : bool; po_Failed : bool; po_ProviderFailed : bool;
  po_Unsound : bool; po_NotCollected : bool; po_Moot : bool; po_Test : string; po_Extra : list AuthoredPart; po_Together : string; po_TogetherOutput : string }.

Record runState := mkRun {
  rn_spec : Spec; rn_promptShape : string; rn_symbols : gmap string (list string); rn_budget : MutantBudget; rn_exam : examSurface; rn_mode : string;
  rn_startedAt : Z; rn_regions : Regions; rn_dev : DevPass; rn_writer : Writer; rn_pool : Pool; rn_verdict : option PoolVerdict }.

Definition no_coverage : ExamCoverage := mkCoverage 0 0 0 0 0 false.
Definition new_regions : Regions := mkRegions ∅ ∅ [] 0 0 0 ∅.
Definition new_dev : DevPass := mkDevPass false (of_int 0) 0 0 ∅ [] 0 (mkExamSample 0 0) [] [] ∅ false false "" [] false [].
Definition new_pool : Pool := mkPool false 0 [] false false false false false false false "" [] "" "".

(** ** What the driver asks *)

(** A test that does not compile: the error's text, and the compiler's output if the error carries it. *)
Record CompileFailure := mkCompileFailure { cf_Error : string; cf_Output : option string }.

Record Answers := mkAnswers {
  an_ParseMutants : string → string → result string (list Mutant);
  an_ParseTest : string → string;
  an_CompileTest : nat → string → option CompileFailure;
  an_PerMutant : bool;
  an_ScoreDev : nat → list Mutant → result string Report;
  an_ScoreAuthored : nat → string → list Mutant → string → result string (Report * bool);
  an_ScoreReport : nat → list Mutant → string → result string Report;
  an_CompliantFailure : nat → string → string;
  an_CompliantRun : nat → string → result string (bool * string);
  an_CriticCommand : nat → Finding → string;
  an_Language : string;
  an_FailedTests : option (string → list string);
  an_DeselectCmd : list string → option (list string);
  an_ConcatTests : option (list AuthoredPart → result string string);
  an_SignVerdict : nat → PoolVerdict → result string (Z * string);
  an_render : Prompt → string }.

(** The driver's settings. *)
Record Config := mkConfig {
  dc_Assign : gmap string string; dc_Threshold : double; dc_CertifyIntervalWidth : double; dc_NoProgressTicks : Z; dc_RunDeadline : Z; dc_Signer : bool }.

Inductive DriverErr :=
| SameModel | NoThreshold (t : double) | BadLanding (why : string) | BadSources (e : SourcesErr) | AlreadyStarted | NoWriterTask | UnknownRun
| QueueFailed (e : QueueErr) | NotReopened (key : string) | Unparseable (key : string) (n : Z) (why : string) | Collides (id : string) | NoUsableMutants (regions dropped : Z)
| ScoreFailed (why : string) | NotCompiling (n : Z) (why : string) | SeatMissing (id : string) | SignFailed (why : string) | Stalled (ticks : Z).

(** ** Computations *)

(** The store, the run, its part of the backstop, and how many questions were asked and clocks read. *)
Record DW := mkDW { dw_q : Store; dw_run : runState; dw_noProgress : Z; dw_last : string; dw_calls : nat; dw_clock : nat }.
Definition M (A : Type) : Type := DW → result DriverErr A * DW.
Definition ret {A} (x : A) : M A := λ w, (Ok x, w).
Definition raise {A} (e : DriverErr) : M A := λ w, (Err e, w).
Definition bind {A B} (m : M A) (k : A → M B) : M B := λ w, match m w with (Ok x, w') => k x w' | (Err e, w') => (Err e, w') end.
Notation "'let%' x ':=' m 'in' k" := (bind m (λ x, k)) (at level 200, x binder, m at level 200, k at level 200) : corral_scope.
Notation "'run%' m 'in' k" := (bind m (λ _, k)) (at level 200, m at level 200, k at level 200) : corral_scope.
Definition gets {A} (f : DW → A) : M A := λ w, (Ok (f w), w).
Definition modify (f : DW → DW) : M () := λ w, (Ok (), f w).
Definition of_opt {A} (o : option A) (e : DriverErr) : M A := match o with Some x => ret x | None => raise e end.
Fixpoint each {A S} (f : S → A → M S) (l : list A) (s : S) : M S :=
  match l with [] => ret s | x :: rest => let% s := f s x in each f rest s end.

Definition set_q (q : Store) (w : DW) : DW := mkDW q (dw_run w) (dw_noProgress w) (dw_last w) (dw_calls w) (dw_clock w).
Definition set_run (r : runState) (w : DW) : DW := mkDW (dw_q w) r (dw_noProgress w) (dw_last w) (dw_calls w) (dw_clock w).
Definition set_progress (n : Z) (fp : string) (w : DW) : DW := mkDW (dw_q w) (dw_run w) n fp (dw_calls w) (dw_clock w).
Definition asked (w : DW) : DW := mkDW (dw_q w) (dw_run w) (dw_noProgress w) (dw_last w) (S (dw_calls w)) (dw_clock w).
Definition clocked (n : nat) (w : DW) : DW := mkDW (dw_q w) (dw_run w) (dw_noProgress w) (dw_last w) (dw_calls w) (n + dw_clock w).

Definition with_regions (g : Regions) (r : runState) : runState :=
  mkRun (rn_spec r) (rn_promptShape r) (rn_symbols r) (rn_budget r) (rn_exam r) (rn_mode r) (rn_startedAt r) g (rn_dev r) (rn_writer r) (rn_pool r) (rn_verdict r).
Definition with_dev (d : DevPass) (r : runState) : runState :=
  mkRun (rn_spec r) (rn_promptShape r) (rn_symbols r) (rn_budget r) (rn_exam r) (rn_mode r) (rn_startedAt r) (rn_regions r) d (rn_writer r) (rn_pool r) (rn_verdict r).
Definition with_writer (x : Writer) (r : runState) : runState :=
  mkRun (rn_spec r) (rn_promptShape r) (rn_symbols r) (rn_budget r) (rn_exam r) (rn_mode r) (rn_startedAt r) (rn_regions r) (rn_dev r) x (rn_pool r) (rn_verdict r).
Definition with_pool (p : Pool) (r : runState) : runState :=
  mkRun (rn_spec r) (rn_promptShape r) (rn_symbols r) (rn_budget r) (rn_exam r) (rn_mode r) (rn_startedAt r) (rn_regions r) (rn_dev r) (rn_writer r) p (rn_verdict r).
Definition with_verdict (v : PoolVerdict) (r : runState) : runState :=
  mkRun (rn_spec r) (rn_promptShape r) (rn_symbols r) (rn_budget r) (rn_exam r) (rn_mode r) (rn_startedAt r) (rn_regions r) (rn_dev r) (rn_writer r) (rn_pool r) (Some v).

Definition run_ {A} (f : runState → A) : M A := gets (λ w, f (dw_run w)).
Definition put_regions (f : Regions → Regions) : M () := modify (λ w, set_run (with_regions (f (rn_regions (dw_run w))) (dw_run w)) w).
Definition put_dev (d : DevPass) : M () := modify (λ w, set_run (with_dev d (dw_run w)) w).
Definition put_writer (f : Writer → Writer) : M () := modify (λ w, set_run (with_writer (f (rn_writer (dw_run w))) (dw_run w)) w).
Definition put_pool (f : Pool → Pool) : M () := modify (λ w, set_run (with_pool (f (rn_pool (dw_run w))) (dw_run w)) w).
Definition put_verdict (v : PoolVerdict) : M () := modify (λ w, set_run (with_verdict v (dw_run w)) w).
(** A question to the outside. *)
Definition ask {A} (f : nat → A) : M A := λ w, (Ok (f (dw_calls w)), asked w).

(** ** The exam *)

Definition retries (g : Regions) (key : string) : Z := default 0 (rg_Retries g !! key).
Definition count_retry (key : string) (g : Regions) : Regions :=
  mkRegions (<[key := retries g key + 1]> (rg_Retries g)) (rg_DroppedKeys g) (rg_DroppedRegions g) (rg_Total g) (rg_Probed g) (rg_DupMutants g) (rg_Sources g).
Definition drop_region (key label : string) (g : Regions) : Regions :=
  mkRegions (rg_Retries g) ({[ key ]} ∪ rg_DroppedKeys g) (rg_DroppedRegions g ++ [label]) (rg_Total g) (rg_Probed g) (rg_DupMutants g) (rg_Sources g).
Definition gathered (total probed dup : Z) (sources : gmap string MutantSource) (g : Regions) : Regions :=
  mkRegions (rg_Retries g) (rg_DroppedKeys g) (rg_DroppedRegions g) total probed (if 0 <? dup then dup else rg_DupMutants g) sources.

(** A shard's mutants carry its index. *)
Definition exam_mutant (shard : option Z) (m : Mutant) : Mutant :=
  match shard with
  | Some i => mkMutant ("s" +:+ format_int i +:+ "/" +:+ mt_ID m) (mt_ParentSHA256 m) (mt_Span m) (mt_Search m) (mt_Replace m)
  | None => m
  end.

(** The mutants, the ids a model generated, and the regions that gave any. *)
Definition Gathered : Type := list Mutant * gset string * Z.
Definition gathered_more (acc : Gathered) (exam : list Mutant) : Gathered :=
  let '(ms, gen, probed) := acc in (ms ++ exam, gen ∪ list_to_set (map mt_ID exam), if bool_decide (exam = []) then probed else probed + 1).

(** The last of the mutants with an id. *)
Definition by_id (ms : list Mutant) : gmap string Mutant := foldl (λ acc m, <[mt_ID m := m]> acc) ∅ ms.
Definition survivorsFrom (rep : Report) (ms : list Mutant) : list Mutant := omap (λ id, by_id ms !! id) (rp_Survived rep).
Definition killedFrom (rep : Report) (ms : list Mutant) : list Mutant := omap (λ id, by_id ms !! id) (rp_Killed rep).
Definition provenMutantIDs (rep : Report) (ms : list Mutant) : list string :=
  map mt_ID (List.filter (λ m, bool_decide (mt_ID m ∈ rp_Killed rep)) ms).

Definition dev_pass (perMutant : bool) (rep : Report) (ms : list Mutant) (old : DevPass) : DevPass :=
  let invalid := Z.of_nat (length (rp_Invalid rep)) in
  let unmeasured := Z.of_nat (length (rp_Unmeasured rep)) in
  mkDevPass true (KillRate rep) (Z.of_nat (length ms) - invalid - unmeasured) invalid (rp_InvalidReasons rep) (rp_CompileGateNote rep)
    unmeasured (examSampleOf rep ms) (survivorsFrom rep ms) (toMutantRefsWith (killedFrom rep ms) (rp_PerMutant rep)) (rp_PerMutant rep)
    perMutant (negb (rp_CompliantPass rep)) (if rp_CompliantPass rep then dp_BaselineOutput old else rp_BaselineOutput rep) (rp_BaselineFlaky rep)
    (rp_CompliantPass rep && negb (rp_CanaryKilled rep)) ms.

Definition genuine (rep : Report) : bool := rp_CompliantPass rep && rp_CanaryKilled rep && negb (rp_Total rep =? 0).

(** ** Steps of the writers' state *)

Definition set_task (id : Z) (x : Writer) : Writer := mkWriter id (wr_Tries x) (wr_Seats x) (wr_Order x).
Definition one_try (x : Writer) : Writer := mkWriter (wr_TaskID x) (wr_Tries x + 1) (wr_Seats x) (wr_Order x).
Definition put_seat (a : writerAttempt) (x : Writer) : Writer := mkWriter (wr_TaskID x) (wr_Tries x) (<[mt_ID (wa_mutant a) := a]> (wr_Seats x)) (wr_Order x).
Definition new_seat (m : Mutant) (taskID : Z) (x : Writer) : Writer :=
  mkWriter (wr_TaskID x) (wr_Tries x) (<[mt_ID m := mkAttempt m taskID "" 0 0 false false false false false false]> (wr_Seats x)) (wr_Order x ++ [mt_ID m]).
Definition no_attempt : writerAttempt :=
  mkAttempt (mkMutant "" "" (mkLineRange 0 0) "" "") 0 "" 0 0 false false false false false false.
Definition seat_of (id : string) (x : Writer) : writerAttempt := default no_attempt (wr_Seats x !! id).

Definition provider_failed (a : writerAttempt) : writerAttempt :=
  match a with mkAttempt m t s r n _ p me sa c _ => mkAttempt m t s r n true p me sa c true end.
Definition attempted (a : writerAttempt) : writerAttempt :=
  match a with mkAttempt m t s r n d p me sa c f => mkAttempt m t s r (n + 1) d p me sa c f end.
Definition repaired (a : writerAttempt) : writerAttempt :=
  match a with mkAttempt m t s r n d p me sa c f => mkAttempt m t s (r + 1) n d p me sa c f end.
Definition gave_up (a : writerAttempt) : writerAttempt :=
  match a with mkAttempt m t s r n _ p me sa c f => mkAttempt m t s r n true p me sa c f end.
Definition compiles (test : string) (a : writerAttempt) : writerAttempt :=
  match a with mkAttempt m t _ r n d p me sa _ f => mkAttempt m t test r n d p me sa true f end.
Definition salvaged (a : writerAttempt) : writerAttempt :=
  match a with mkAttempt m t s r n _ _ _ _ c f => mkAttempt m t s r n true true true true c f end.
Definition graded (proven : bool) (a : writerAttempt) : writerAttempt :=
  match a with mkAttempt m t s r n _ _ _ sa c f => mkAttempt m t s r n true proven true sa c f end.
Definition reissued (id : Z) (a : writerAttempt) : writerAttempt :=
  match a with mkAttempt m _ s r n d p me sa c f => mkAttempt m id s r n d p me sa c f end.

Definition perfect (p : Pool) : Pool :=
  match p with mkPool _ _ ids me sa f pf u nc _ t e g o => mkPool true 0 ids me sa f pf u nc true t e g o end.
Definition no_test (provider : bool) (p : Pool) : Pool :=
  match p with mkPool _ _ ids me sa _ pf u nc mo t e g o => mkPool true 0 ids me sa true (pf || provider) u nc mo t e g o end.
Definition authored (test : string) (p : Pool) : Pool :=
  match p with mkPool sc pm ids me sa f pf u nc mo _ e g o => mkPool sc pm ids me sa f pf u nc mo test e g o end.
Definition pool_salvaged (ids : list string) (p : Pool) : Pool :=
  match p with mkPool _ _ _ _ _ f pf u nc mo t e g o => mkPool true (Z.of_nat (length ids)) ids true true f pf u nc mo t e g o end.
Definition ungraded (notCollected : bool) (p : Pool) : Pool :=
  match p with mkPool _ _ ids me sa f pf _ _ mo t e g o => mkPool true 0 ids me sa f pf true notCollected mo t e g o end.
Definition pool_graded (ids : list string) (unmeasured : bool) (p : Pool) : Pool :=
  match p with mkPool _ _ _ _ sa f pf u nc mo t e g o => mkPool true (Z.of_nat (length ids)) ids true sa f pf (u || unmeasured) nc mo t e g o end.
Definition not_collected (p : Pool) : Pool :=
  match p with mkPool sc pm ids me sa f pf u _ mo t e g o => mkPool sc pm ids me sa f pf u true mo t e g o end.
Definition banked (ids : list string) (test : string) (extra : list AuthoredPart) (p : Pool) : Pool :=
  match p with mkPool sc _ _ me sa f pf u nc mo _ _ g o => mkPool sc (Z.of_nat (length ids)) ids me sa f pf u nc mo test extra g o end.
Definition measured_as (me sa : bool) (p : Pool) : Pool :=
  match p with mkPool sc pm ids _ _ f pf u nc mo t e g o => mkPool sc pm ids me sa f pf u nc mo t e g o end.
Definition scored (p : Pool) : Pool :=
  match p with mkPool _ pm ids me sa f pf u nc mo t e g o => mkPool true pm ids me sa f pf u nc mo t e g o end.
Definition failed_all (provider : bool) (p : Pool) : Pool :=
  match p with mkPool sc pm ids me sa _ pf u nc mo t e g o => mkPool sc pm ids me sa true (pf || provider) u nc mo t e g o end.
Definition unsound (p : Pool) : Pool :=
  match p with mkPool sc pm ids me sa f pf _ nc mo t e g o => mkPool sc pm ids me sa f pf true nc mo t e g o end.
Definition together (how out : string) (p : Pool) : Pool :=
  match p with mkPool sc pm ids me sa f pf u nc mo t e _ _ => mkPool sc pm ids me sa f pf u nc mo t e how out end.

(** ** The dev pass *)

Section Driver.
Variable A : Answers.
Variable cfg : Config.
Variable clock : nat → double.
Variable mid : Z.

Definition result_of (t : Task) : string := default "" (tk_Result t).
Definition promote : M () := modify (λ w, set_q (PromoteReady mid (dw_q w)).2 w).
Definition supersede (id : Z) (spec : TaskSpec) : M Z := λ w,
  match SupersedeTask id spec (clock (dw_clock w)) (dw_q w) with
  | Ok (newID, q) => (Ok newID, clocked 1 (set_q q w))
  | Err e => (Err (QueueFailed e), w)
  end.
Definition enqueue (specs : list TaskSpec) : M () := λ w,
  match Enqueue mid specs (λ i, clock (dw_clock w + i)%nat) (dw_q w) with
  | Ok q => (Ok (), clocked (length specs) (set_q q w))
  | Err e => (Err (QueueFailed e), w)
  end.

(** A generator's result. *)
Definition gather_one (acc : Gathered) (t : Task) : M Gathered :=
  let key := tk_Key t in
  let% r := run_ (λ r, r) in
  if bool_decide (key ∈ rg_DroppedKeys (rn_regions r)) then ret acc
  else
    match an_ParseMutants A (result_of t) (sp_Code (rn_spec r)) with
    | Err why =>
        run% put_regions (count_retry key) in
        let n := retries (rn_regions r) key + 1 in
        if n <=? MaxShardRetries then
          run% modify (λ w, set_q (ReopenTask (tk_ID t) (dw_q w)).2 w) in raise (Unparseable key n why)
        else
          let label := match default [] (rn_symbols r !! key) with [] => ts_Title (tk_Spec t) | symbols => String.concat ", " symbols end in
          run% put_regions (drop_region key label) in ret acc
    | Ok parsed => ret (gathered_more acc (map (exam_mutant (ShardIndexFromKey key)) parsed))
    end.

(** None: a generator is still at work. *)
Definition gather : M (option (Gathered * Z)) :=
  let% r := run_ (λ r, r) in
  match sp_PresetMutants (rn_spec r) with
  | Some ms => ret (Some ((ms, ∅, 0), 0))
  | None =>
      let% mgs := gets (λ w, tasksByRole mid RoleMutantGenerator (dw_q w)) in
      if bool_decide (mgs = []) || negb (forallb (has_status StatusDone) mgs) then ret None
      else
        let% g := each gather_one mgs ([], ∅, 0) in
        let '(ms, gen, probed) := g in
        let tools := default [] (sp_ToolMutants (rn_spec r)) in
        match List.find (λ m, bool_decide (mt_ID m ∈ gen)) tools with
        | Some m => raise (Collides (mt_ID m))
        | None => ret (Some ((ms ++ tools, gen, probed), Z.of_nat (length mgs)))
        end
  end.

Definition applyDevScore (ms : list Mutant) : M () :=
  let% ans := ask (λ n, an_ScoreDev A n ms) in
  match ans with
  | Err why => raise (ScoreFailed why)
  | Ok rep => let% old := run_ rn_dev in put_dev (dev_pass (an_PerMutant A) rep ms old)
  end.

(** The one writer's next task, and a survivor's. *)
Definition writer_spec (tw : Task) (p : Prompt) : TaskSpec :=
  mkSpec RoleTestWriter RoleTestWriter (ts_Title (tk_Spec tw)) (an_render A p) "" [] "" (ts_Model (tk_Spec tw)).
Definition seat_spec (title model : string) (m : Mutant) (prevTest compileErr cleanFailure : string) : TaskSpec :=
  mkSpec (TestWriterTaskKey (mt_ID m)) RoleTestWriter title (an_render A (PSurvivor m prevTest compileErr cleanFailure))
    (an_render A (PWriter [] "" "" "")) [] "" model.
Definition writerSeatTitle (m : Mutant) : string := "Write test killing survivor " +:+ mt_ID m.

(** The last of the live tasks with a key. *)
Definition task_ids (ts : list Task) : gmap string Z := foldl (λ acc t, <[tk_Key t := tk_ID t]> acc) ∅ ts.
Definition seat_enqueued (byKey : gmap string Z) (u : ()) (m : Mutant) : M () :=
  let% id := of_opt (byKey !! TestWriterTaskKey (mt_ID m)) (SeatMissing (mt_ID m)) in
  put_writer (new_seat m id).
Definition promotePerSurvivorWriters (tw : Task) (survivors : list Mutant) : M () :=
  match survivors with
  | [] => ret ()
  | first :: rest =>
      let model := ts_Model (tk_Spec tw) in
      let% newID := supersede (tk_ID tw) (seat_spec (writerSeatTitle first) model first "" "" "") in
      run% put_writer (λ x, new_seat first newID (set_task newID x)) in
      run% (if bool_decide (rest = []) then ret () else enqueue (map (λ m, seat_spec (writerSeatTitle m) model m "" "" "") rest)) in
      let% byKey := gets (λ w, task_ids (liveTasks (tasksByRole mid RoleTestWriter (dw_q w)))) in
      each (seat_enqueued byKey) rest ()
  end.

Definition tickDevAdequacy : M () :=
  let% g := gather in
  match g with
  | None => ret ()
  | Some ((ms, gen, probed), total) =>
      let% r := run_ (λ r, r) in
      let model := default "" (dc_Assign cfg !! RoleMutantGenerator) in
      run% put_regions (gathered total probed (DedupeMutants ms).2 (examSources ms (sources_of (rn_spec r)) gen model)) in
      if bool_decide (ms = []) then raise (NoUsableMutants total (Z.of_nat (length (rg_DroppedRegions (rn_regions r)))))
      else
        run% applyDevScore ms in
        let% r := run_ (λ r, r) in
        let% tw := gets (λ w, TaskByID (wr_TaskID (rn_writer (dw_run w))) (dw_q w)) in
        match dp_Survivors (rn_dev r) with
        | [] =>
            run% put_pool perfect in
            match tw with
            | Some tw => if has_status StatusPending tw then modify (λ w, set_q (CancelTask (tk_ID tw) (dw_q w)).2 w) else ret ()
            | None => ret ()
            end
        | survivors =>
            match tw with
            | Some tw =>
                if negb (has_status StatusPending tw) then ret ()
                else
                  run% (if String.eqb (rn_mode r) WriterModePerSurvivor then promotePerSurvivorWriters tw survivors
                        else let% newID := supersede (tk_ID tw) (writer_spec tw (PWriter survivors "" "" "")) in put_writer (set_task newID)) in
                  promote
            | None => ret ()
            end
        end
  end.

(** ** The authored pass *)

Definition WriterProviderFailedResult : string := String (byte 0) ("writer-provider-call-failed" +:+ String (byte 0) "").
Definition criticIncompletePrefix : string := String (byte 0) ("critic-incomplete" +:+ String (byte 0) "").

(** What is fed back of a test that does not compile. *)
Definition compile_message (f : CompileFailure) : string :=
  match cf_Output f with Some out => if is_blank out then cf_Error f else out | None => cf_Error f end.

Definition notKilledByTheDevSuite (survivors : list Mutant) (killed : list string) (cmd : string) : M (option (list string)) :=
  let ms := List.filter (λ m, bool_decide (mt_ID m ∈ killed)) survivors in
  let% control := ask (λ n, an_ScoreReport A n ms cmd) in
  ret match control with
      | Ok rep => if rp_CompliantPass rep then Some (List.filter (λ id, negb (bool_decide (id ∈ rp_Killed rep))) killed) else None
      | Err _ => None
      end.

(** Without its tests that fail on the code as it is, what the writer's test still proves. *)
Definition salvageByDeselect (test : string) (survivors : list Mutant) : M (option (list string)) :=
  match an_FailedTests A with
  | None => ret None
  | Some failedTests =>
      let% failure := ask (λ n, an_CompliantFailure A n test) in
      match failedTests failure with
      | [] => ret None
      | failing =>
          match an_DeselectCmd A failing with
          | None => ret None
          | Some argv =>
              let cmd := shellJoin argv in
              let% rest := ask (λ n, an_ScoreAuthored A n test survivors cmd) in
              match rest with
              | Err _ => ret None
              | Ok (rep, _) =>
                  let killed := provenMutantIDs rep survivors in
                  if negb (genuine rep) || bool_decide (killed = []) then ret None
                  else
                    let% own := notKilledByTheDevSuite survivors killed cmd in
                    ret match own with Some (id :: ids) => Some (id :: ids) | _ => None end
              end
          end
      end
  end.

Definition reissue_writer (tw : Task) (p : Prompt) : M () :=
  let% newID := supersede (tk_ID tw) (writer_spec tw p) in
  run% put_writer (set_task newID) in promote.

(** The writer's task is done. *)
Definition judge_writer (tw : Task) : M () :=
  let% r := run_ (λ r, r) in
  let survivors := dp_Survivors (rn_dev r) in
  let tries := wr_Tries (rn_writer r) in
  if String.eqb (result_of tw) WriterProviderFailedResult then put_pool (no_test true)
  else
    let test := an_ParseTest A (result_of tw) in
    let% compiled := ask (λ n, an_CompileTest A n test) in
    match compiled with
    | Some f =>
        run% put_writer one_try in
        if tries + 1 <? MaxTestWriterAttempts then
          run% reissue_writer tw (if is_blank test then PWriter survivors "" "" "" else PWriter survivors test (compile_message f) "") in
          raise (NotCompiling (tries + 1) (cf_Error f))
        else put_pool (no_test false)
    | None =>
        run% put_pool (authored test) in
        let% ans := ask (λ n, an_ScoreAuthored A n test survivors (sp_TestCmd (rn_spec r))) in
        match ans with
        | Err why => raise (ScoreFailed why)
        | Ok (rep, unreached) =>
            let% salvage := (if rp_CompliantPass rep then ret None else salvageByDeselect test survivors) in
            match salvage with
            | Some ids => put_pool (pool_salvaged ids)
            | None =>
                if negb (rp_CompliantPass rep) && (tries <? MaxTestWriterAttempts - 1) then
                  run% put_writer one_try in
                  let% failure := ask (λ n, an_CompliantFailure A n test) in
                  reissue_writer tw (PWriter survivors test "" failure)
                else if negb (genuine rep) then put_pool (ungraded unreached)
                else put_pool (pool_graded (provenMutantIDs rep survivors) (negb (bool_decide (rp_Unmeasured rep = []))))
            end
        end
    end.

(** *** One writer for each survivor *)

Definition reissueWriterSeat (a : writerAttempt) (task : Task) (prevTest compileErr cleanFailure : string) : M () :=
  let% newID := supersede (tk_ID task) (seat_spec (ts_Title (tk_Spec task)) (ts_Model (tk_Spec task)) (wa_mutant a) prevTest compileErr cleanFailure) in
  run% put_writer (put_seat (reissued newID a)) in
  run% put_writer (λ x, if bool_decide (head (wr_Order x) = Some (mt_ID (wa_mutant a))) then set_task newID x else x) in
  promote.

(** Whether the seat moved. *)
Definition judge_seat (a : writerAttempt) (task : Task) : M () :=
  let% r := run_ (λ r, r) in
  let only := [wa_mutant a] in
  if String.eqb (result_of task) WriterProviderFailedResult then put_writer (put_seat (provider_failed a))
  else
    let a := attempted a in
    run% put_writer (put_seat a) in
    let test := an_ParseTest A (result_of task) in
    let% compiled := ask (λ n, an_CompileTest A n test) in
    match compiled with
    | Some f =>
        let a := repaired a in
        run% put_writer (put_seat a) in
        if MaxTestWriterAttempts <=? wa_repairs a then put_writer (put_seat (gave_up a))
        else
          run% (if is_blank test then reissueWriterSeat a task "" "" "" else reissueWriterSeat a task test (compile_message f) "") in
          raise (NotCompiling (wa_repairs a) (cf_Error f))
    | None =>
        let a := compiles test a in
        run% put_writer (put_seat a) in
        let% ans := ask (λ n, an_ScoreAuthored A n test only (sp_TestCmd (rn_spec r))) in
        match ans with
        | Err why => raise (ScoreFailed why)
        | Ok (rep, unreached) =>
            let% salvage := (if rp_CompliantPass rep then ret None else salvageByDeselect test only) in
            match salvage with
            | Some _ => put_writer (put_seat (salvaged a))
            | None =>
                if negb (rp_CompliantPass rep) && (wa_repairs a <? MaxTestWriterAttempts - 1) then
                  let a := repaired a in
                  run% put_writer (put_seat a) in
                  let% failure := ask (λ n, an_CompliantFailure A n test) in
                  reissueWriterSeat a task test "" failure
                else if negb (genuine rep) then
                  run% put_writer (put_seat (gave_up a)) in
                  if unreached then put_pool not_collected else ret ()
                else put_writer (put_seat (graded (negb (bool_decide (provenMutantIDs rep only = []))) a))
            end
        end
    end.
Definition advanceWriterAttempt (a : writerAttempt) : M bool :=
  let% task := gets (λ w, TaskByID (wa_taskID a) (dw_q w)) in
  match task with
  | Some task => if negb (has_status StatusDone task) then ret false else run% judge_seat a task in ret true
  | None => ret false
  end.
Definition attempt {X} (m : M X) : M (result DriverErr X) := λ w, let '(r, w) := m w in (Ok r, w).
(** The first error, and whether a seat waits. *)
Definition fanout_one (acc : option DriverErr * bool) (id : string) : M (option DriverErr * bool) :=
  let% a := run_ (λ r, seat_of id (rn_writer r)) in
  if wa_done a then ret acc
  else
    let% r := attempt (advanceWriterAttempt a) in
    ret match r with
        | Err e => (match acc.1 with None => Some e | Some _ => acc.1 end, acc.2)
        | Ok advanced => (acc.1, acc.2 || negb advanced)
        end.
Definition tickWriterFanout : M bool :=
  let% order := run_ (λ r, wr_Order (rn_writer r)) in
  let% res := each fanout_one order (None, false) in
  let '(firstErr, pending) := res in
  match firstErr with
  | Some e => raise e
  | None => if pending then ret false else run_ (λ r, forallb (λ id, wa_done (seat_of id (rn_writer r))) order)
  end.

(** Parts that merge into one file; the others ride beside it with the reason. *)
Fixpoint concat_parts (concat : list AuthoredPart → result string string) (parts kept : list AuthoredPart) (merged : string) (extra : list AuthoredPart)
    : string * list AuthoredPart :=
  match parts with
  | [] => (merged, extra)
  | p :: rest =>
      match concat (kept ++ [p]) with
      | Err why => concat_parts concat rest kept merged (extra ++ [mkPart (ap_MutantID p) (ap_Source p) why])
      | Ok out => concat_parts concat rest (kept ++ [p]) out extra
      end
  end.
Definition no_concatenator : string := "lang: " +:+ an_Language A +:+ " has no test concatenator, so each proven test stays its own file".
Definition ConcatAuthored (parts : list AuthoredPart) : string * list AuthoredPart :=
  match an_ConcatTests A with
  | None => ("", map (λ p, mkPart (ap_MutantID p) (ap_Source p) no_concatenator) parts)
  | Some concat => concat_parts concat parts [] "" []
  end.

Definition seats_of (r : runState) : list writerAttempt := map (λ id, seat_of id (rn_writer r)) (wr_Order (rn_writer r)).
Definition count_seats (f : writerAttempt → bool) (r : runState) : Z := Z.of_nat (length (List.filter f (seats_of r))).
Definition bankWriterProofs (r : runState) : Pool :=
  let proven := List.filter wa_proven (seats_of r) in
  let '(merged, extra) := ConcatAuthored (map (λ a, mkPart (mt_ID (wa_mutant a)) (wa_test a) "") proven) in
  banked (map (λ a, mt_ID (wa_mutant a)) proven) merged extra (rn_pool r).
Definition finishWriterFlags (r : runState) (p : Pool) : Pool :=
  scored
    (if 0 <? count_seats wa_measured r then p
     else if count_seats wa_providerFailed r =? Z.of_nat (length (wr_Order (rn_writer r))) then failed_all true p
     else if count_seats wa_compiled r =? 0 then failed_all false p
     else unsound p).
Definition finishWriterFanout : M () :=
  let% r := run_ (λ r, r) in
  put_pool (λ _, finishWriterFlags r (measured_as (0 <? count_seats wa_measured r) (0 <? count_seats wa_salvaged r) (bankWriterProofs r))).

(** The last bytes of a text. *)
Definition ellipsis : string := String (byte 226) (String (byte 128) (String (byte 166) "")).
Definition Tail (s : string) (n : nat) : string :=
  if (String.length s <=? n)%nat then s else ellipsis +:+ drop_str (String.length s - n) s.

Definition AuthoredTogetherPass : string := "pass".
Definition AuthoredTogetherFail : string := "fail".
Definition checkAuthoredTogether : M () :=
  let% p := run_ rn_pool in
  if (po_ProvenMissed p <? 2) || is_blank (po_Test p) then ret ()
  else
    let% ans := ask (λ n, an_CompliantRun A n (po_Test p)) in
    match ans with
    | Err _ => ret ()
    | Ok (true, _) => put_pool (together AuthoredTogetherPass (po_TogetherOutput p))
    | Ok (false, out) => put_pool (together AuthoredTogetherFail (Tail (trim_space out) 2000))
    end.

Definition tickPoolAdequacy : M () :=
  let% mode := run_ rn_mode in
  if String.eqb mode WriterModePerSurvivor then
    let% done := tickWriterFanout in
    if done then run% finishWriterFanout in checkAuthoredTogether else ret ()
  else
    let% tw := gets (λ w, TaskByID (wr_TaskID (rn_writer (dw_run w))) (dw_q w)) in
    match tw with
    | Some tw => if has_status StatusDone tw then judge_writer tw else ret ()
    | None => ret ()
    end.

(** ** The verdict *)

Definition filterCriticFindings (taskID : Z) (fs : list Finding) : list Finding :=
  List.filter (λ f, (fi_TaskID f =? taskID) && negb (String.eqb (fi_Type f) "ops")) fs.

Definition AdjUnadjudicated : string := "unadjudicated".
Definition AdjRefuted : string := "refuted".
Definition ScopeWholeTest : string := "whole-test".
Definition ScopeDeadCheck : string := "dead-check".
Definition NormalizeScope (s : string) : string := if String.eqb s ScopeWholeTest then ScopeWholeTest else ScopeDeadCheck.
Definition AutoAdjudication (scope : string) (ran : bool) (kills : Z) : string :=
  if String.eqb (NormalizeScope scope) ScopeWholeTest && ran && (1 <=? kills) then AdjRefuted else AdjUnadjudicated.

(** A finding that says a test can never fail: the test is run alone. *)
Definition adjudicate_one (obs : list (Z * string)) (f : Finding) : M (list (Z * string)) :=
  let scope := NormalizeScope (fi_Scope f) in
  let% r := run_ (λ r, r) in
  let ms := dp_Mutants (rn_dev r) in
  let% ran := (if String.eqb scope ScopeWholeTest && negb (String.eqb (fi_Selector f) "") then
      let% cmd := ask (λ n, an_CriticCommand A n f) in
      if String.eqb cmd "" then ret None
      else
        let% ans := ask (λ n, an_ScoreReport A n ms cmd) in
        ret match ans with
            | Ok rep => if fgt (KillRate rep) (of_int 0) then Some (Z.of_nat (length ms) - Z.of_nat (length (survivorsFrom rep ms))) else None
            | Err _ => None
            end
    else ret None) in
  ret (obs ++ [(fi_ID f, AutoAdjudication scope (bool_decide (is_Some ran)) (default 0 ran))]).
Definition refuted_id (obs : list (Z * string)) (f : Finding) : bool :=
  existsb (λ o, (fst o =? fi_ID f) && String.eqb (snd o) AdjRefuted) obs.
Definition splitRefuted (flagged : list Finding) (obs : list (Z * string)) : list Finding * list Finding :=
  (List.filter (λ f, negb (refuted_id obs f)) flagged, List.filter (refuted_id obs) flagged).

Definition writerSeatsUngraded (r : runState) : Z :=
  if String.eqb (rn_mode r) WriterModePerSurvivor then count_seats (λ a, negb (wa_measured a)) r else 0.
Definition writerAttemptSpread (r : runState) : option TestsPerMutantSpread :=
  if negb (String.eqb (rn_mode r) WriterModePerSurvivor) then None
  else
    let counts := sort_stable Z.ltb (List.filter (λ n, negb (n =? 0)) (map wa_attempts (seats_of r))) in
    match counts with
    | [] => None
    | n :: _ => Some (mkTestsPerMutantSpread n (nth (Nat.div (length counts) 2) counts 0) (List.last counts 0))
    end.
(** The roster signed: no challenger sat. *)
Definition modelsByRole (assign : gmap string string) : gmap string string :=
  if is_blank (default "" (assign !! RoleMutantGeneratorShadow)) then assign else delete RoleMutantGeneratorShadow assign.

(** What both kinds of verdict take from the run. *)
Definition disclose (r : runState) (gate : Verdict) (timedOut incomplete : bool) (refuted : list Finding) : PoolVerdict :=
  let g := rn_regions r in
  let d := rn_dev r in
  let p := rn_pool r in
  let survived := toMutantRefsWith (dp_Survivors d) (dp_PerMutant d) in
  mkPoolVerdict gate timedOut incomplete refuted (rg_Total g) (rg_Probed g) (rg_DroppedRegions g) (rg_DupMutants g) (rg_Sources g)
    (rn_promptShape r) (rn_budget r) (po_ProvenIDs p) (dp_Invalid d) (dp_Unmeasured d) (dp_Exam d) (po_Test p) (po_Extra p) (po_Together p)
    (po_TogetherOutput p) (rn_mode r) (writerSeatsUngraded r) (writerAttemptSpread r) (po_ProviderFailed p) (po_NotCollected p)
    (dp_BaselineFailed d) (dp_BaselineOutput d) (dp_BaselineFlaky d) (dp_SuiteIgnoresFile d) (dp_Killed d) survived
    (coverage (rn_exam r) [map mr_Span (dp_Killed d); map mr_Span survived]) 0 "".
Definition signed (id : Z) (head : string) (v : PoolVerdict) : PoolVerdict :=
  match v with
  | mkPoolVerdict g to ci rf rt rp dr dm ms ps mb pi mi mu ex at_ ae tg tgo wm wu wa wp nc bf bo bfl si dk dsv ec _ _ =>
      mkPoolVerdict g to ci rf rt rp dr dm ms ps mb pi mi mu ex at_ ae tg tgo wm wu wa wp nc bf bo bfl si dk dsv ec id head
  end.
Definition sign (v : PoolVerdict) : M PoolVerdict :=
  if dc_Signer cfg then
    let% ans := ask (λ n, an_SignVerdict A n v) in
    match ans with Ok (id, head) => ret (signed id head v) | Err why => raise (SignFailed why) end
  else ret v.

(** Some time: the critic's part, its findings and whether it is incomplete; None: it is still at work. *)
Definition critic_part : M (option (list Finding * bool)) :=
  if negb (critic_enabled (dc_Assign cfg)) then ret (Some ([], false))
  else
    let% tc := gets (λ w, taskByKey mid RoleTestCritic (dw_q w)) in
    match tc with
    | Some tc =>
        if negb (has_status StatusDone tc) then ret None
        else
          let% fs := gets (λ w, Findings mid "" (dw_q w)) in
          ret (Some (filterCriticFindings (tk_ID tc) fs, has_prefix criticIncompletePrefix (result_of tc)))
    | None => ret None
    end.
Definition with_standing (standing : list Finding) (v : Verdict) : Verdict :=
  match v with mkVerdict k n s p _ m st f u ds ps i why => mkVerdict k n s p standing m st f u ds ps i why end.
Definition tickAggregate : M (option PoolVerdict) :=
  let% c := critic_part in
  match c with
  | None => ret None
  | Some (findings, incomplete) =>
      let% r := run_ (λ r, r) in
      let d := rn_dev r in
      let p := rn_pool r in
      let gate := aggregate (modelsByRole (dc_Assign cfg)) (dp_KillRate d) (dp_Total d) (Z.of_nat (length (dp_Survivors d))) (po_ProvenMissed p) findings
                    (dc_Threshold cfg) (dc_CertifyIntervalWidth cfg) (dp_Exam d) false (po_Failed p) (po_Unsound p) in
      let% obs := each adjudicate_one findings [] in
      let '(standing, refuted) := splitRefuted findings obs in
      let% v := sign (disclose r (with_standing standing gate) false incomplete refuted) in
      run% put_verdict v in ret (Some v)
  end.

(** The run did not converge in time: what was scored is banked, and never certified. *)
Definition bank_timeout (r : runState) : runState :=
  if String.eqb (rn_mode r) WriterModePerSurvivor && negb (po_Scored (rn_pool r)) then
    let p := bankWriterProofs r in
    with_pool (if 0 <? count_seats wa_measured r then scored (measured_as true (0 <? count_seats wa_salvaged r) p) else p) r
  else r.
Definition timeout_gate (r : runState) : Verdict :=
  let d := rn_dev r in
  let p := rn_pool r in
  mkVerdict (dp_KillRate d) (dp_Total d) (Z.of_nat (length (dp_Survivors d))) (po_ProvenMissed p) [] (modelsByRole (dc_Assign cfg)) StatusNeedsReview
    (po_Failed p) (po_Unsound p) (dp_Scored d) (po_Scored p) false None.
Definition timeoutVerdict : M PoolVerdict :=
  run% modify (λ w, set_run (bank_timeout (dw_run w)) w) in
  let% r := run_ (λ r, r) in
  ret (disclose r (timeout_gate r) true (critic_enabled (dc_Assign cfg)) []).

(** ** A tick *)

Definition progressFingerprint (q : Store) : string * Z :=
  let tasks := ListTasks mid q in
  (format_int (Z.of_nat (affected (λ t, negb (open_status (tk_Status t))) tasks)) +:+ "/" +:+ format_int (Z.of_nat (length tasks)) +:+ "/" +:+
   format_int (Z.of_nat (length (Findings mid FindingOpen q))), Z.of_nat (affected (has_status StatusClaimed) tasks)).
Definition checkNoProgress : M () := λ w,
  if dc_NoProgressTicks cfg <=? 0 then (Ok (), w)
  else
    let '(fp, claimed) := progressFingerprint (dw_q w) in
    if negb (String.eqb fp (dw_last w)) then (Ok (), set_progress 0 fp w)
    else if 0 <? claimed then (Ok (), w)
    else
      let n := dw_noProgress w + 1 in
      (if dc_NoProgressTicks cfg <=? n then Err (Stalled (dc_NoProgressTicks cfg)) else Ok (), set_progress n (dw_last w) w).

Definition expired (now : Z) (r : runState) : bool := (0 <? dc_RunDeadline cfg) && (dc_RunDeadline cfg <? now - rn_startedAt r).
Definition tick_run (now : Z) : M (option PoolVerdict) :=
  let% r := run_ (λ r, r) in
  match rn_verdict r with
  | Some v => ret (Some v)
  | None =>
      if expired now r then
        let% v := timeoutVerdict in
        let% v := sign v in
        run% put_verdict v in ret (Some v)
      else
        run% promote in
        run% (if dp_Scored (rn_dev r) then ret () else tickDevAdequacy) in
        let% r := run_ (λ r, r) in
        run% (if dp_Scored (rn_dev r) && negb (po_Scored (rn_pool r)) then tickPoolAdequacy else ret ()) in
        let% r := run_ (λ r, r) in
        let% v := (if po_Scored (rn_pool r) then tickAggregate else ret None) in
        match v with
        | Some v => ret (Some v)
        | None => run% checkNoProgress in ret None
        end
  end.
End Driver.

(** ** The driver *)

Record Driver := mkDriver {
  dr_q : Store; dr_runs : gmap Z runState; dr_noProgress : gmap Z Z; dr_last : gmap Z string; dr_calls : nat; dr_clock : nat }.
Definition NewDriver (sameSeat : string → string → bool) (q : Store) (assign : gmap string string) (threshold : double) : result DriverErr (Config * Driver) :=
  let critic := default "" (assign !! RoleTestCritic) in
  if negb (String.eqb critic "") && sameSeat critic (default "" (assign !! RoleTestWriter)) then Err SameModel
  else if negb (fgt threshold (of_int 0)) then Err (NoThreshold threshold)
  else Ok (mkConfig assign threshold MaxCertifiableIntervalWidth 240 0 false, mkDriver q ∅ ∅ ∅ 0 0).

Definition symbols_of (shards : list Shard) : gmap string (list string) := foldl (λ acc sh, <[ShardTaskKey (sh_Index sh) := sh_Symbols sh]> acc) ∅ shards.
Definition no_budget : MutantBudget := mkBudget 0 RuleDefault 0 0 0 0 0 0 0 0 false.
Definition new_run (sp : Spec) (sigs : list Signature) (taskID startedAt : Z) : runState :=
  let '(shards, budget) := if bool_decide (is_Some (sp_PresetMutants sp)) then ([], no_budget)
                           else let '(shards, b) := PlanShards sigs (sp_plan sp) in (default [] shards, b) in
  mkRun sp (promptShape sp sigs shards) (symbols_of shards) budget (newExamSurface sigs) (resolvedWriterMode sp) startedAt new_regions new_dev
    (mkWriter taskID 0 ∅ []) new_pool None.
Definition StartRun (A : Answers) (cfg : Config) (clock : nat → double) (landing : option string) (mid now : Z) (sp : Spec) (sigs : list Signature) (d : Driver)
    : result DriverErr () * Driver :=
  match landing with
  | Some why => (Err (BadLanding why), d)
  | None =>
      match checkMutantSources sp with
      | Err e => (Err (BadSources e), d)
      | Ok _ =>
          if bool_decide (is_Some (dr_runs d !! mid)) then (Err AlreadyStarted, d)
          else
            let specs := BuildDAG (an_render A) sp (dc_Assign cfg) sigs in
            match Enqueue mid specs (λ i, clock (dr_clock d + i)%nat) (dr_q d) with
            | Err e => (Err (QueueFailed e), d)
            | Ok q =>
                let d := mkDriver q (dr_runs d) (dr_noProgress d) (dr_last d) (dr_calls d) (length specs + dr_clock d) in
                match task_ids (ListTasks mid q) !! RoleTestWriter with
                | None => (Err NoWriterTask, d)
                | Some id => (Ok (), mkDriver q (<[mid := new_run sp sigs id now]> (dr_runs d)) (dr_noProgress d) (dr_last d) (dr_calls d) (dr_clock d))
                end
            end
      end
  end.

Definition Tick (A : Answers) (cfg : Config) (clock : nat → double) (mid now : Z) (d : Driver) : result DriverErr (option PoolVerdict) * Driver :=
  match dr_runs d !! mid with
  | None => (Err UnknownRun, d)
  | Some r =>
      let w := mkDW (dr_q d) r (default 0 (dr_noProgress d !! mid)) (default "" (dr_last d !! mid)) (dr_calls d) (dr_clock d) in
      let '(res, w) := tick_run A cfg clock mid now w in
      (res, mkDriver (dw_q w) (<[mid := dw_run w]> (dr_runs d)) (<[mid := dw_noProgress w]> (dr_noProgress d)) (<[mid := dw_last w]> (dr_last d)) (dw_calls w) (dw_clock w))
  end.
Definition RunStatus (mid : Z) (d : Driver) : option (bool * option PoolVerdict * string * list AuthoredPart) :=
  r ← dr_runs d !! mid; Some (bool_decide (is_Some (rn_verdict r)), rn_verdict r, po_Test (rn_pool r), po_Extra (rn_pool r)).
