(* ===== verification/Gate.v ===== *)
(** * The gate of the pool: internal/advpool/gate.go

    Where an authored test is written, with which command it is run, and what is believed of it: the file's name
    ([authoredTestPath]), the workspaces of the developer's pass and of the authored pass, the two commands, the positive
    control that asks whether the authored file is read at all, the compile check, and what the verdict discloses of all this.
    The scoring is that of [Score], over the jail's programs. What a language plugin answers that depends on the machine (its scaffold,
    its commands, the scope of a command) is [PluginOps]; a runner row's builders are a function of the row. Log lines are left out,
    and so is the signing of the verdict. The theorems are in GateFacts. *)
From S2P Require Import Prelude GoLib GoText Crypto TestMap Float64 Driver Invocations Mutant Jail Score Select Paths Pairing Languages Hunks Shell Argv.
Local Open Scope string_scope.
Local Open Scope list_scope.
Local Open Scope Z_scope.
Local Open Scope prog_scope.

Record PluginOps := mkOps {
  pg_Scaffold : Lang → gmap string string; pg_TestCmd : Lang → list string;
  pg_CompileCheck : Lang → string → string → list (list string);
  pg_ScopeTestCmd : Lang → string → string → list string → option (list string);
  pg_Functions : Row → Runner }.

Definition argv_cmd (l : list string) : gocmd := match l with [] => None | _ => Some l end.

(** ** A name for the authored test *)

Definition authoredTestMarker : string := "_corral".
Definition authoredTestCollisionLimit : nat := 10.

(** The landing a door computed, and what was in the file. *)
Record AuthoredLanding := mkAuthored { al_Landing : Landing; al_Existing : string }.
Definition AppendTo (l : AuthoredLanding) : string := if la_Into (al_Landing l) then la_Path (al_Landing l) else "".
Definition overlay (l : AuthoredLanding) (ws : gmap string string) (path content : string) : gmap string string :=
  <[path := ComposeLanding (al_Landing l) (al_Existing l) content]> ws.

Definition ident (c : ascii) : bool :=
  let n := code c in
  ((48 <=? n) && (n <=? 57) || (97 <=? n) && (n <=? 122) || (65 <=? n) && (n <=? 90) || (128 <=? n))%nat.
Definition byte_at (s : string) (i : nat) : ascii := default zero (String.get i s).
(** The stem at [i] is a token of its own: each end of it is an end of the name, or beside a byte of another kind. *)
Definition bounded (name stem : string) (i : nat) : bool :=
  let last := (i + String.length stem)%nat in
  ((i =? 0)%nat || negb (ident (byte_at name (i - 1))) || negb (ident (byte_at stem 0))) &&
  ((last =? String.length name)%nat || negb (ident (byte_at name last)) || negb (ident (byte_at stem (String.length stem - 1)))).
Fixpoint mark_from (fuel from : nat) (name stem marker ext : string) : option string :=
  match fuel with
  | O => None
  | S fuel =>
      if (from + String.length stem <=? String.length name)%nat then
        match str_index stem (drop_str from name) with
        | None => None
        | Some k =>
            let i := (k + from)%nat in
            if bounded name stem i then
              let last := (i + String.length stem)%nat in Some (take_str last name +:+ marker +:+ drop_str last name +:+ ext)
            else mark_from fuel (i + 1) name stem marker ext
        end
      else None
  end.
Definition markStem (devBase stem marker : string) : option string :=
  if String.eqb stem "" then None
  else
    let ext := path_ext devBase in
    let name := trim_suffix ext devBase in
    mark_from (S (String.length name)) 0 name stem marker ext.

Section Paths.
Variable order : list Lang.

Definition pluginFor (codePath : string) : option Lang := Detect order codePath.
Definition advPoolTestPath (codePath : string) : string :=
  match pluginFor codePath ≫= (λ p, Primary (TestRules p) codePath) with
  | Some c => ca_Path c
  | None => default "" (ca_Path <$> Primary (TestRules LangGo) codePath)
  end.

Definition marker_at (i : nat) : string := if (i =? 0)%nat then authoredTestMarker else authoredTestMarker +:+ format_int (Z.of_nat i).
(** The name of the turn: the developer's own test's, marked, or the language's for a source so marked. *)
Definition pick_at (p : Lang) (dir devBase stem ext : string) (i : nat) : option string :=
  match markStem devBase stem (marker_at i) with
  | Some marked => Some (path_join [dir; marked])
  | None => ca_Path <$> Primary (TestRules p) (path_join [dir; stem +:+ marker_at i +:+ ext])
  end.
Fixpoint first_free (fallback : string) (taken : string → bool) (pick : nat → option string) (n i : nat) : string :=
  match n with
  | O => fallback
  | S n =>
      match pick i with
      | None => fallback
      | Some got => if taken got then first_free fallback taken pick n (S i) else got
      end
  end.
Definition taken (codePath devTestPath : string) (base : gmap string string) (q : string) : bool :=
  String.eqb q "" || String.eqb q devTestPath || String.eqb q codePath || bool_decide (is_Some (base !! q)).
Definition authoredTestPath (l : AuthoredLanding) (codePath devTestPath : string) (base : gmap string string) : string :=
  if la_Into (al_Landing l) then la_Path (al_Landing l)
  else
    let fallback := advPoolTestPath codePath in
    if String.eqb (trim_space devTestPath) "" then fallback
    else
      match pluginFor codePath with
      | None => fallback
      | Some p =>
          let ext := path_ext codePath in
          let stem := trim_suffix ext (path_base codePath) in
          first_free fallback (taken codePath devTestPath base) (pick_at p (path_dir devTestPath) (path_base devTestPath) stem ext) authoredTestCollisionLimit 0
      end.
(** The path an error message names: with no repository to avoid. *)
Definition AuthoredTestPathFor (l : AuthoredLanding) (codePath devTestPath : string) : string := authoredTestPath l codePath devTestPath ∅.
End Paths.

(** ** The scorer *)

Record JailScorer := mkScorer {
  js_Kind : JailKind; js_RepoDir : string; js_BaseFiles : option (gmap string string); js_MutantTimeout : Z; js_DevTestPath : string;
  js_Landing : AuthoredLanding; js_Lang : string; js_Selection : Selection; js_SelectionMap : Map; js_Concurrency : Z;
  js_FailureParser : option FailureParser; js_KillerCmd : option (list string → string → option (list string));
  js_FailFast : option (list string → option (list string)) }.
Definition baseScoreOpts (s : JailScorer) : scoreConfig :=
  mkConfig 0 (js_MutantTimeout s) (js_Concurrency s) [] None (js_FailureParser s) (js_FailFast s) (js_KillerCmd s).
Definition WithMutantCompileCheck (cmds : list (list string)) (c : scoreConfig) : scoreConfig :=
  match c with mkConfig a b d _ f p ff k => mkConfig a b d cmds f p ff k end.
Definition WithCommandFor (f : option (Mutant → MutantCommand)) (c : scoreConfig) : scoreConfig :=
  match c with mkConfig a b d g _ p ff k => mkConfig a b d g f p ff k end.

(** The fields of a run's specification these functions read. *)
Record GateSpec := mkGateSpec {
  gs_CodePath : string; gs_DevTestPath : string; gs_TestCmd : string; gs_Landing : AuthoredLanding; gs_AuthoredTestPath : string;
  gs_Selection : Selection; gs_SelectionMap : Map; gs_RepoDir : string; gs_Lang : string }.

Inductive RowErr := NoMethod | UnknownLanguage (lang : string) | NoRowNamed (lang : string) | UnusableRow (lang id : string).
Definition RuleAuthoredAlone : string := "authored-alone".

Section Gate.
Context {dg : Digest}.
Variable order : list Lang.
Variable P : PluginOps.
Variable rangeMap : gmap string (list string) → list (string * list string).

Definition goScaffold : gmap string string * list string := ({[ "go.mod" := "module control" +:+ one newline +:+ "go 1.26" +:+ one newline ]}, ["go"; "test"; "./..."]).
Definition advPoolBase (codePath : string) : gmap string string * list string :=
  match pluginFor order codePath with Some p => (pg_Scaffold P p, pg_TestCmd P p) | None => goScaffold end.

Definition compileCheckFor (p : Lang) (repoDir codePath testPath : string) : list (list string) :=
  let seq := pg_CompileCheck P p codePath testPath in
  if String.eqb repoDir "" then seq else default seq (mapM (pg_ScopeTestCmd P p repoDir codePath) seq).

(** *** The runner row of a selection *)

Definition selectionRowErr (langName : string) (sel : Selection) (m : Map) : result RowErr Runner :=
  if String.eqb (sl_Method sel) "" then Err NoMethod
  else match ByName langName with
       | None => Err (UnknownLanguage langName)
       | Some p =>
           if String.eqb (tm_Runner m) "" then Err (NoRowNamed langName)
           else match RunnerByID (lang_name p) (tm_Runner m) with
                | Some row => Ok (pg_Functions P row)
                | None => Err (UnusableRow langName (tm_Runner m))
                end
       end.
Definition selectionRow (langName : string) (sel : Selection) (m : Map) : option Runner :=
  match selectionRowErr langName sel m with Ok r => Some r | Err _ => None end.
(** A selection of nothing, with its base command. *)
Definition only_base (b : gocmd) : Selection := mkSelection b None [] "" 0 "" None [] [] [] ∅.

(** *** The developer's pass *)

Definition DevCommandArgv (sel : Selection) (m : Map) (langName : string) (base : gocmd) (repoRoot devTestPath : string) : gocmd :=
  match selectionRow langName sel m with
  | None => base
  | Some r =>
      match sl_Tests sel with
      | _ :: _ => Some (words (sl_Cmd sel))
      | [] =>
          if String.eqb devTestPath "" then base
          else match WithAuthoredTest m sel r base repoRoot devTestPath with (cmd, true) => cmd | (_, false) => base end
      end
  end.
Definition spec_base (rs : GateSpec) : gocmd := argv_cmd (ShellSplit (gs_TestCmd rs)).
Definition dev_argv (rs : GateSpec) : gocmd :=
  DevCommandArgv (gs_Selection rs) (gs_SelectionMap rs) (gs_Lang rs) (spec_base rs) (gs_RepoDir rs) (gs_DevTestPath rs).
Definition DevCommand (rs : GateSpec) : string :=
  if bool_decide (words (dev_argv rs) = words (spec_base rs)) then gs_TestCmd rs else ShellJoin (words (dev_argv rs)).
Definition DevCommandFor (rs : GateSpec) : option (Mutant → MutantCommand) :=
  let sel := gs_Selection rs in
  if negb (NarrowableByLine sel) then None
  else match selectionRow (gs_Lang rs) sel (gs_SelectionMap rs) with
       | None => None
       | Some r => Some (λ m, let '(cmd, tests, rule) := ForSpan sel r (mt_Span m) in mkMutantCommand (words cmd) (Z.of_nat (length tests)) rule)
       end.

Definition scoreWorkspace (s : JailScorer) (codePath test testCmd : string) : gmap string string * gocmd :=
  match js_BaseFiles s with
  | Some base => (base, argv_cmd (ShellSplit testCmd))
  | None =>
      let '(base, defaultCmd) := advPoolBase codePath in
      let cmd := match ShellSplit testCmd with [] => Some defaultCmd | argv => Some argv end in
      (<[advPoolTestPath order codePath := test]> base, cmd)
  end.
Definition AuthoredTestPath (s : JailScorer) (codePath : string) : string :=
  authoredTestPath order (js_Landing s) codePath (js_DevTestPath s) (default ∅ (js_BaseFiles s)).
Definition gatedScoreOpts (s : JailScorer) (codePath : string) (base : gmap string string) : scoreConfig :=
  let opts := baseScoreOpts s in
  match pluginFor order codePath with
  | None => opts
  | Some p =>
      let testPath := AuthoredTestPath s codePath in
      let testPath := if bool_decide (is_Some (base !! testPath)) then testPath else codePath in
      match compileCheckFor p (js_RepoDir s) codePath testPath with [] => opts | cc => WithMutantCompileCheck cc opts end
  end.

(** What a grading by the developer's tests may do, and its report. *)
Definition ScoreReportFor (s : JailScorer) (codePath code test : string) (mutants : list Mutant) (testCmd : string) (cmdFor : option (Mutant → MutantCommand))
    (tr : list Event) (res : result ScoreErr Report) : Prop :=
  let '(scoreBase, cmd) := scoreWorkspace s codePath test testCmd in
  Scored (js_Kind s) scoreBase codePath code mutants (words cmd) (WithCommandFor cmdFor (gatedScoreOpts s codePath scoreBase)) rangeMap tr res.
Definition ScoreReport (s : JailScorer) (codePath code test : string) (mutants : list Mutant) (testCmd : string) : list Event → result ScoreErr Report → Prop :=
  ScoreReportFor s codePath code test mutants testCmd None.
Definition scored_pair (mutants : list Mutant) (res : result ScoreErr Report) : result ScoreErr (double * list Mutant) :=
  match res with Ok rep => Ok (KillRate rep, survivorsFrom rep mutants) | Err e => Err e end.
Definition ScoreFor (s : JailScorer) (codePath code test : string) (mutants : list Mutant) (testCmd : string) (cmdFor : option (Mutant → MutantCommand))
    (tr : list Event) (res : result ScoreErr (double * list Mutant)) : Prop :=
  ∃ r, ScoreReportFor s codePath code test mutants testCmd cmdFor tr r ∧ res = scored_pair mutants r.

(** *** The authored pass *)

Definition scorer_row (s : JailScorer) : option Runner := selectionRow (js_Lang s) (js_Selection s) (js_SelectionMap s).
Definition authoredCmd (s : JailScorer) (codePath : string) (cmd : gocmd) : gocmd :=
  match scorer_row s with
  | None => cmd
  | Some r =>
      match WithAuthoredTest (js_SelectionMap s) (js_Selection s) r cmd (js_RepoDir s) (AuthoredTestPath s codePath) with
      | (out, true) => out
      | (_, false) => cmd
      end
  end.
Definition authoredWorkspace (s : JailScorer) (codePath content : string) : gmap string string :=
  overlay (js_Landing s) (default ∅ (js_BaseFiles s)) (AuthoredTestPath s codePath) content.
(** The workspace a test is graded in, the command, and the command of each mutant. *)
Definition authored_base (s : JailScorer) (codePath test testCmd : string) : gmap string string :=
  match js_BaseFiles s with Some _ => authoredWorkspace s codePath test | None => (scoreWorkspace s codePath test testCmd).1 end.
Definition authored_plan (s : JailScorer) (codePath test testCmd : string) : gocmd * option (Mutant → MutantCommand) :=
  let base := (scoreWorkspace s codePath test testCmd).2 in
  let cmd := authoredCmd s codePath base in
  match scorer_row s with
  | None => (cmd, None)
  | Some r =>
      match WithAuthoredTest (js_SelectionMap s) (only_base (sl_Base (js_Selection s))) r base (js_RepoDir s) (AuthoredTestPath s codePath) with
      | (alone, true) => (alone, Some (λ _, mkMutantCommand (words alone) 1 RuleAuthoredAlone))
      | (_, false) => (cmd, None)
      end
  end.

Definition verifyAuthoredTestReaches (s : JailScorer) (codePath : string) (cmd : gocmd) : Prog (result JailErr bool) :=
  Run (mkRunReq ViaRunTest (authoredWorkspace s codePath CanaryCode) (words cmd) None) (λ r,
    Ret match rr_Err r with
        | Some e => if je_TestTimeout e then Ok true else Err e
        | None => Ok (negb (rr_Pass r))
        end).
Definition AuthoredTestWouldBeCollected (s : JailScorer) (codePath : string) (cmd : gocmd) : Prog (result JailErr bool) :=
  match js_BaseFiles s with None => Ret (Ok true) | Some _ => verifyAuthoredTestReaches s codePath cmd end.

Inductive AuthoredErr := ScoringFailed (e : ScoreErr) | ControlFailed (e : JailErr).
(** The report, and whether the authored file was found not to be read. *)
Definition ScoreAuthoredReport (s : JailScorer) (codePath code test : string) (mutants : list Mutant) (testCmd : string)
    (tr : list Event) (res : result AuthoredErr (Report * bool)) : Prop :=
  let '(cmd, cmdFor) := authored_plan s codePath test testCmd in
  ∃ t1 r, Scored (js_Kind s) (authored_base s codePath test testCmd) codePath code mutants (words cmd) (WithCommandFor cmdFor (baseScoreOpts s)) rangeMap t1 r ∧
    match r with
    | Err e => tr = t1 ∧ res = Err (ScoringFailed e)
    | Ok rep =>
        if bool_decide (is_Some (js_BaseFiles s)) && (0 <? rp_Total rep) then
          ∃ t2 v, Runs (verifyAuthoredTestReaches s codePath cmd) t2 v ∧ tr = t1 ++ t2 ∧
            res = match v with
                  | Err e => Err (ControlFailed e)
                  | Ok true => Ok (rep, false)
                  | Ok false => Ok (with_canary rep false, true)
                  end
        else tr = t1 ∧ res = Ok (rep, false)
    end.

(** The authored test on the code as it is: passed, and the runner's output. *)
Definition CompliantRun (s : JailScorer) (codePath code test testCmd : string) : Prog (result (option JailErr) (bool * string)) :=
  if negb (jk_Verbose (js_Kind s)) then Ret (Err None)
  else
    let cmd := authoredCmd s codePath (scoreWorkspace s codePath test testCmd).2 in
    Run (mkRunReq ViaVerbose (<[codePath := code]> (authored_base s codePath test testCmd)) (words cmd) None) (λ r,
      Ret match rr_Err r with Some e => Err (Some e) | None => Ok (rr_Pass r, rr_Out r) end).
Definition CompliantFailure (s : JailScorer) (codePath code test testCmd : string) : Prog string :=
  let* r := CompliantRun s codePath code test testCmd in
  Ret match r with Ok (_, out) => out | Err _ => "" end.

(** *** What the verdict says of the commands *)

Inductive Disclosure :=
| RowRefused (e : RowErr) | UncoveredUnpaired | PairedNotAlone (path : string) (e : select_error) | NoResolvedPath | AuthoredNeither (path : string) (e : select_error).
Definition selectionDisclosure (rs : GateSpec) : option Disclosure * option Disclosure * bool :=
  let sel := gs_Selection rs in
  if String.eqb (sl_Method sel) "" then (None, None, false)
  else
    match selectionRowErr (gs_Lang rs) sel (gs_SelectionMap rs) with
    | Err e => (Some (RowRefused e), Some (RowRefused e), false)
    | Ok r =>
        let base := spec_base rs in
        let dev := match sl_Tests sel with
                   | _ :: _ => None
                   | [] =>
                       if String.eqb (gs_DevTestPath rs) "" then Some UncoveredUnpaired
                       else match AuthoredTestCmd (gs_SelectionMap rs) sel r base (gs_RepoDir rs) (gs_DevTestPath rs) with
                            | Err e => Some (PairedNotAlone (gs_DevTestPath rs) e)
                            | Ok _ => None
                            end
                   end in
        if String.eqb (gs_AuthoredTestPath rs) "" && negb (String.eqb (gs_RepoDir rs) "") then (dev, Some NoResolvedPath, false)
        else
          let path := if String.eqb (gs_AuthoredTestPath rs) "" then authoredTestPath order (gs_Landing rs) (gs_CodePath rs) (gs_DevTestPath rs) ∅ else gs_AuthoredTestPath rs in
          match AuthoredTestCmd (gs_SelectionMap rs) (only_base (sl_Base sel)) r base (gs_RepoDir rs) path with
          | Ok _ => (dev, None, true)
          | Err _ =>
              (dev, match AuthoredTestCmd (gs_SelectionMap rs) sel r base (gs_RepoDir rs) path with
                    | Err e => Some (AuthoredNeither path e)
                    | Ok _ => None
                    end, false)
          end
    end.
Definition AuthoredAlone (rs : GateSpec) : bool := (selectionDisclosure rs).2.
End Gate.

(** ** The compile check of an authored test *)

Record JailValidator := mkValidator {
  jv_Verbose : bool; jv_RepoDir : string; jv_BaseFiles : option (gmap string string); jv_DevTestPath : string; jv_Landing : AuthoredLanding }.

Definition outputNamesFile (output path : string) : bool :=
  if String.eqb path "" || String.eqb output "" then false
  else str_contains path output || str_contains (path_base path +:+ "(") output || str_contains (path_base path +:+ ":") output.

Inductive CompileErr :=
| NoPlugin (codePath : string) | NothingToCheck (lang codePath testPath : string) | CheckFailed (e : JailErr) | DoesNotCompile (out : string) (cmd : list string).

Section Validator.
Variable order : list Lang.
Variable P : PluginOps.
Variable LandTest : string → Z → string → string.
Variable v : JailValidator.

Definition runCompileCmd (ws : gmap string string) (cmd : list string) : Prog (bool * string * option JailErr) :=
  if jv_Verbose v then Run (mkRunReq ViaVerbose ws cmd None) (λ r, Ret (rr_Pass r, rr_Out r, rr_Err r))
  else Run (mkRunReq ViaRunTest ws cmd None) (λ r, Ret (rr_Pass r, "", rr_Err r)).
(** Each check in order; one that the source fails without the test judges nothing, unless it names the test. *)
Fixpoint run_checks (ws unmodified : gmap string string) (testPath : string) (seq : list (list string)) : Prog (result CompileErr ()) :=
  match seq with
  | [] => Ret (Ok ())
  | cmd :: rest =>
      let* (compiles, output, err) := runCompileCmd ws cmd in
      match err with
      | Some e => Ret (Err (CheckFailed e))
      | None =>
          if compiles then run_checks ws unmodified testPath rest
          else if bool_decide (testPath ∈ cmd) || outputNamesFile output testPath then Ret (Err (DoesNotCompile output cmd))
          else
            let* (ok, _, berr) := runCompileCmd unmodified cmd in
            if bool_decide (berr = None) && negb ok then run_checks ws unmodified testPath rest else Ret (Err (DoesNotCompile output cmd))
      end
  end.
Definition validator_base (p : Lang) : gmap string string := default (pg_Scaffold P p) (jv_BaseFiles v).
Definition validator_path (codePath : string) : string := authoredTestPath order (jv_Landing v) codePath (jv_DevTestPath v) (default ∅ (jv_BaseFiles v)).
Definition CompileTest (codePath code test : string) : Prog (result CompileErr ()) :=
  match pluginFor order codePath with
  | None => Ret (Err (NoPlugin codePath))
  | Some p =>
      let unmodified := <[codePath := code]> (validator_base p) in
      let testPath := validator_path codePath in
      let ws := overlay (jv_Landing v) unmodified testPath test in
      match compileCheckFor P p (jv_RepoDir v) codePath testPath with
      | [] => Ret (Err (NothingToCheck (lang_name p) codePath testPath))
      | seq => run_checks ws unmodified testPath seq
      end
  end.
Definition ParseTest (raw : string) : string :=
  LandBody order LandTest (al_Landing (jv_Landing v)) (al_Existing (jv_Landing v)) (extractCode raw).
End Validator.
