(* ===== verification/DriverFacts.v ===== *)
(** * What a verdict of the pool says

    The invariant of a run ([run_ok]): what it holds of the exam is what one grading answered, what it holds as proven was shown by a
    grading of an authored test, and the retries are within their bounds. Every tick keeps it, whatever happens to
    the queue between ticks and whatever is answered. So a verdict means what it says ([verdict_honest]), stays what it was
    ([verdict_final]) and comes by the deadline ([deadline_ends]); and with a scorer that accounts for every mutant
    ([AccountsForAll]) its figures add up ([verdict_adds_up]). *)
From S2P Require Import Prelude GoLib GoText Float64 Queue Crypto TestMap Invocations Mutant Jail Score ScoreFacts Adequacy Verdict Shell Rows Shards Seats Driver.
Local Open Scope string_scope.
Local Open Scope list_scope.
Local Open Scope Z_scope.
Local Open Scope corral_scope.

(** ** Reasoning about computations *)

(** After [m]: [Q] of its result, [E] if it fails. *)
Definition post {X} (m : M X) (Q : X → DW → Prop) (E : DW → Prop) (w : DW) : Prop :=
  match m w with (Ok x, w') => Q x w' | (Err _, w') => E w' end.
Lemma post_bind {X Y} (m : M X) (k : X → M Y) Q E w : post (bind m k) Q E w ↔ post m (λ x, post (k x) Q E) E w.
Proof. unfold post, bind. destruct (m w) as [[x|e] w']; done. Qed.
Lemma post_ret {X} (x : X) (Q : X → DW → Prop) E w : Q x w → post (ret x) Q E w.
Proof. done. Qed.
Lemma post_raise {X} e (Q : X → DW → Prop) (E : DW → Prop) w : E w → post (raise e) Q E w.
Proof. done. Qed.
Lemma post_modify f (Q : () → DW → Prop) E w : Q () (f w) → post (modify f) Q E w.
Proof. done. Qed.
Lemma post_gets {X} (f : DW → X) (Q : X → DW → Prop) E w : Q (f w) w → post (gets f) Q E w.
Proof. done. Qed.
Lemma post_ask {X} (f : nat → X) (Q : X → DW → Prop) E w : Q (f (dw_calls w)) (asked w) → post (ask f) Q E w.
Proof. done. Qed.
Lemma post_mono {X} (m : M X) (Q Q' : X → DW → Prop) (E E' : DW → Prop) w :
  post m Q E w → (∀ x w', Q x w' → Q' x w') → (∀ w', E w' → E' w') → post m Q' E' w.
Proof. unfold post. destruct (m w) as [[x|e] w']; auto. Qed.
Lemma post_each {X S} (f : S → X → M S) (I : list X → S → DW → Prop) (E : DW → Prop) l :
  (∀ x rest s w, I (x :: rest) s w → post (f s x) (I rest) E w) → ∀ s w, I l s w → post (each f l s) (I []) E w.
Proof.
  intros H. induction l as [|x l IH]; intros s w Hi; [done|]. cbn [each]. apply post_bind. eapply post_mono; [by apply H|intros s' w' Hi'; by apply IH|done].
Qed.
Lemma post_attempt {X} (m : M X) (Q : result DriverErr X → DW → Prop) E w : post m (λ x w', Q (Ok x) w') (λ w', ∀ e, Q (Err e) w') w → post (attempt m) Q E w.
Proof. unfold post, attempt. destruct (m w) as [[x|e] w']; auto. Qed.

(** Step through a computation. *)
Ltac step :=
  cbv beta; unfold run_, put_regions, put_dev, put_writer, put_pool, put_verdict;
  lazymatch goal with
  | |- post (bind _ _) _ _ _ => apply post_bind
  | |- post (ret _) _ _ _ => apply post_ret
  | |- post (raise _) _ _ _ => apply post_raise
  | |- post (modify _) _ _ _ => apply post_modify
  | |- post (gets _) _ _ _ => apply post_gets
  | |- post (ask _) _ _ _ => apply post_ask
  end.
Ltac steps := repeat step; cbv beta.

(** ** What a run holds *)

Section Facts.
Variable A : Answers.
Variable cfg : Config.
Variable clock : nat → double.

(** The test was graded on some of the survivors, and killed the one named. A test that fails on the code as it is
    counts for what is left of it without the tests that failed, less what the developer's tests kill under the same command. *)
Inductive evidence (sp : Spec) (survivors : list Mutant) (test id : string) : Prop :=
| ev_graded n ms rep u : an_ScoreAuthored A n test ms (sp_TestCmd sp) = Ok (rep, u) → genuine rep = true → ms ⊆ survivors →
    id ∈ provenMutantIDs rep ms → evidence sp survivors test id
| ev_salvaged n n' ms failing argv rep u control : an_DeselectCmd A failing = Some argv → an_ScoreAuthored A n test ms (shellJoin argv) = Ok (rep, u) →
    genuine rep = true → ms ⊆ survivors → id ∈ provenMutantIDs rep ms →
    an_ScoreReport A n' (List.filter (λ m, bool_decide (mt_ID m ∈ provenMutantIDs rep ms)) ms) (shellJoin argv) = Ok control → rp_CompliantPass control = true →
    id ∉ rp_Killed control → evidence sp survivors test id.
(** Some authored test was graded in earnest. *)
Definition graded_once (survivors : list Mutant) : Prop :=
  ∃ n test ms cmd rep u, an_ScoreAuthored A n test ms cmd = Ok (rep, u) ∧ genuine rep = true ∧ ms ⊆ survivors.

Record seat_ok (sp : Spec) (survivors : list Mutant) (id : string) (a : writerAttempt) : Prop := {
  so_id : mt_ID (wa_mutant a) = id;
  so_survivor : wa_mutant a ∈ survivors;
  so_proven : wa_proven a = true → wa_measured a = true ∧ evidence sp survivors (wa_test a) id;
  so_measured : wa_measured a = true → wa_done a = true ∧ graded_once survivors;
  so_repairs : 0 <= wa_repairs a <= MaxTestWriterAttempts ∧ (wa_done a = false → wa_repairs a < MaxTestWriterAttempts) }.

(** A finding was refuted by running its test alone. *)
Definition refuted_by (ms : list Mutant) (f : Finding) : Prop :=
  fi_Scope f = ScopeWholeTest ∧ ∃ n n' rep, an_ScoreReport A n ms (an_CriticCommand A n' f) = Ok rep ∧ fgt (KillRate rep) (of_int 0) = true.

(** What a verdict claims, and why it may. *)
Record honest (sp : Spec) (v : PoolVerdict) : Prop := {
  hn_graded : vd_DevScored (vr_gate v) = true → ∃ n ms rep, an_ScoreDev A n ms = Ok rep ∧
    vd_DevKillRate (vr_gate v) = KillRate rep ∧ vr_exam v = examSampleOf rep ms ∧
    vr_DevKilledMutants v = toMutantRefsWith (killedFrom rep ms) (rp_PerMutant rep) ∧
    vr_DevSurvivedMutants v = toMutantRefsWith (survivorsFrom rep ms) (rp_PerMutant rep) ∧
    vr_MutantsInvalid v = Z.of_nat (length (rp_Invalid rep)) ∧ vr_MutantsUnmeasured v = Z.of_nat (length (rp_Unmeasured rep)) ∧
    vd_MutantsTotal (vr_gate v) = Z.of_nat (length ms) - vr_MutantsInvalid v - vr_MutantsUnmeasured v ∧
    vr_BaselineFailed v = negb (rp_CompliantPass rep) ∧ vr_SuiteIgnoresFile v = rp_CompliantPass rep && negb (rp_CanaryKilled rep) ∧
    (∀ id, id ∈ vr_ProvenMutantIDs v → ∃ test, evidence sp (survivorsFrom rep ms) test id ∧
      (vr_WriterMode v ≠ WriterModePerSurvivor → test = vr_AuthoredTest v)) ∧
    (∀ f, f ∈ vr_RefutedFindings v → ∃ f', fi_ID f' = fi_ID f ∧ refuted_by ms f') ∧
    (vr_Status v = StatusCertified → survivorsFrom rep ms = [] ∨ graded_once (survivorsFrom rep ms));
  hn_ungraded : vd_DevScored (vr_gate v) = false → vr_TimedOut v = true ∧ vr_ProvenMutantIDs v = [] ∧ vr_RefutedFindings v = [] ∧
    vd_MutantsTotal (vr_gate v) = 0 ∧ vd_DevKillRate (vr_gate v) = of_int 0 ∧ vr_exam v = mkExamSample 0 0 ∧
    vr_DevKilledMutants v = [] ∧ vr_DevSurvivedMutants v = [] ∧ vr_MutantsInvalid v = 0 ∧ vr_MutantsUnmeasured v = 0;
  hn_survivors : vd_Survivors (vr_gate v) = Z.of_nat (length (vr_DevSurvivedMutants v));
  hn_proven : vd_ProvenMissed (vr_gate v) = Z.of_nat (length (vr_ProvenMutantIDs v)) ∧
    vr_ProvenMutantIDs v `sublist_of` map mr_ID (vr_DevSurvivedMutants v);
  hn_late : vr_TimedOut v = true → vr_Status v = StatusNeedsReview;
  hn_certified : vr_Status v = StatusCertified → vd_DevScored (vr_gate v) = true ∧ fgt (dc_Threshold cfg) (vd_DevKillRate (vr_gate v)) = false ∧
    vd_TestWriterFailed (vr_gate v) = false ∧ vd_PoolTestUnsound (vr_gate v) = false ∧
    exam_indication (vd_MutantsTotal (vr_gate v)) (dc_CertifyIntervalWidth cfg) (vr_exam v) = None }.

(** The parts of a run that is well. *)
Definition dev_ok (d : DevPass) : Prop := if dp_Scored d then
    ∃ n rep old, an_ScoreDev A n (dp_Mutants d) = Ok rep ∧ d = dev_pass (an_PerMutant A) rep (dp_Mutants d) old
  else d = new_dev.
Record regions_ok (g : Regions) : Prop := {
  go_retries : ∀ key, 0 <= retries g key <= MaxShardRetries + 1 ∧ (key ∈ rg_DroppedKeys g ↔ retries g key = MaxShardRetries + 1);
  go_dropped : length (rg_DroppedRegions g) = size (rg_DroppedKeys g) }.
Record writer_ok (sp : Spec) (survivors : list Mutant) (x : Writer) : Prop := {
  xo_order : wr_Order x `prefix_of` map mt_ID survivors;
  xo_seats : ∀ id, id ∈ wr_Order x → ∃ a, wr_Seats x !! id = Some a ∧ seat_ok sp survivors id a;
  xo_tries : 0 <= wr_Tries x <= MaxTestWriterAttempts }.
Record pool_ok (sp : Spec) (survivors : list Mutant) (mode : string) (p : Pool) : Prop := {
  lo_open : po_Scored p = false → po_ProvenIDs p = [];
  lo_count : po_ProvenMissed p = Z.of_nat (length (po_ProvenIDs p));
  lo_proven : po_ProvenIDs p `sublist_of` map mt_ID survivors;
  lo_evidence : ∀ id, id ∈ po_ProvenIDs p → ∃ test, evidence sp survivors test id ∧ (mode ≠ WriterModePerSurvivor → test = po_Test p);
  lo_outcome : po_Scored p = true → survivors = [] ∨ po_Failed p = true ∨ po_Unsound p = true ∨ graded_once survivors }.
Variable sp0 : Spec.
Record run_ok (r : runState) : Prop := {
  ro_spec : rn_spec r = sp0;
  ro_dev : dev_ok (rn_dev r);
  ro_regions : regions_ok (rn_regions r);
  ro_writer : writer_ok (rn_spec r) (dp_Survivors (rn_dev r)) (rn_writer r);
  ro_pool : pool_ok (rn_spec r) (dp_Survivors (rn_dev r)) (rn_mode r) (rn_pool r);
  ro_undone : dp_Scored (rn_dev r) = false → wr_Order (rn_writer r) = [] ∧ po_Scored (rn_pool r) = false;
  ro_tries : po_Scored (rn_pool r) = false → wr_Tries (rn_writer r) < MaxTestWriterAttempts;
  ro_verdict : ∀ v, rn_verdict r = Some v → honest (rn_spec r) v }.

(** *** Changing a part *)

Lemma ok_regions g r : regions_ok g → run_ok r → run_ok (with_regions g r).
Proof. intros ? []. by split. Qed.
Lemma ok_pool p r : run_ok r → pool_ok (rn_spec r) (dp_Survivors (rn_dev r)) (rn_mode r) p → (po_Scored p = true → dp_Scored (rn_dev r) = true) →
  (po_Scored p = false → wr_Tries (rn_writer r) < MaxTestWriterAttempts) → run_ok (with_pool p r).
Proof. intros [] ? H1 H2. split; try done. cbn. intros Hs. destruct (ro_undone0 Hs). split; [done|]. destruct (po_Scored p); [by rewrite H1 in Hs|done]. Qed.
Lemma ok_writer x r : run_ok r → dp_Scored (rn_dev r) = true → writer_ok (rn_spec r) (dp_Survivors (rn_dev r)) x →
  (po_Scored (rn_pool r) = false → wr_Tries x < MaxTestWriterAttempts) → run_ok (with_writer x r).
Proof. intros [] Hd ? ?. split; try done. cbn. by rewrite Hd. Qed.
Lemma ok_verdict v r : run_ok r → honest (rn_spec r) v → run_ok (with_verdict v r).
Proof. intros [] ?. split; try done. cbn. by intros ? [= <-]. Qed.

Lemma regions_new : regions_ok new_regions.
Proof. split; [|done]. intros key. unfold retries. cbn. rewrite lookup_empty. cbn. unfold MaxShardRetries. set_solver by lia. Qed.
Lemma retries_count key key' g : retries (count_retry key g) key' = if bool_decide (key = key') then retries g key + 1 else retries g key'.
Proof. unfold retries at 1. cbn. case_bool_decide; [subst; by rewrite lookup_insert_eq|by rewrite lookup_insert_ne]. Qed.
(** A result that does not parse is counted, and its region dropped when the retries are spent. *)
Lemma regions_retry key label g : regions_ok g → key ∉ rg_DroppedKeys g → let g' := count_retry key g in
  regions_ok (if retries g key + 1 <=? MaxShardRetries then g' else drop_region key label g').
Proof.
  intros [Hr Hd] Hk g'. assert (retries g key < MaxShardRetries + 1) as Hlt.
  { destruct (Hr key) as [? H]. rewrite H in Hk. lia. }
  assert (∀ k, retries g' k = if bool_decide (key = k) then retries g key + 1 else retries g k) as E by (intros; apply retries_count).
  assert (rg_DroppedKeys g' = rg_DroppedKeys g ∧ rg_DroppedRegions g' = rg_DroppedRegions g) as [Ek Er] by done. clearbody g'.
  destruct (Z.leb_spec (retries g key + 1) MaxShardRetries) as [Hle|Hgt]; split; cbn [drop_region rg_DroppedKeys rg_DroppedRegions]; rewrite ?Ek, ?Er.
  - intros k. rewrite E. destruct (Hr k) as [? H]. destruct (Hr key). case_bool_decide; [subst k; split; [lia|rewrite H; lia]|by split].
  - done.
  - intros k. change (retries (drop_region key label g') k) with (retries g' k). rewrite E, elem_of_union, elem_of_singleton. destruct (Hr k) as [? H]. destruct (Hr key).
    case_bool_decide; [subst k; split; [lia|split; [lia|by left]]|split; [done|]]. rewrite <- H. naive_solver.
  - rewrite length_app, Hd, size_union by set_solver. rewrite size_singleton. cbn. lia.
Qed.
Lemma regions_gathered t p d srcs g : regions_ok g → regions_ok (gathered t p d srcs g).
Proof. intros []. by split. Qed.

Lemma writer_task id sp survivors x : writer_ok sp survivors x → writer_ok sp survivors (set_task id x).
Proof. intros []. by split. Qed.
Lemma writer_try sp survivors x : writer_ok sp survivors x → wr_Tries x < MaxTestWriterAttempts → writer_ok sp survivors (one_try x).
Proof. intros [] ?. split; [done|done|]. cbn. lia. Qed.
Lemma writer_seat sp survivors a x : writer_ok sp survivors x → seat_ok sp survivors (mt_ID (wa_mutant a)) a → writer_ok sp survivors (put_seat a x).
Proof.
  intros [Ho Hs Ht] Ha. split; [done| |done]. cbn. intros id Hid. destruct (decide (mt_ID (wa_mutant a) = id)) as [<-|Hne].
  - exists a. by rewrite lookup_insert_eq.
  - rewrite lookup_insert_ne by done. by apply Hs.
Qed.
Lemma writer_new sp survivors m id x : writer_ok sp survivors x → m ∈ survivors → wr_Order x ++ [mt_ID m] `prefix_of` map mt_ID survivors →
  writer_ok sp survivors (new_seat m id x).
Proof.
  intros [Ho Hs Ht] Hm Hp. split; [done| |done]. cbn. intros k Hk. destruct (decide (mt_ID m = k)) as [<-|Hne].
  - eexists. rewrite lookup_insert_eq. split; [reflexivity|]. by split; cbn.
  - rewrite lookup_insert_ne by done. apply Hs. set_solver.
Qed.
Lemma seat_of_ok sp survivors id x : writer_ok sp survivors x → id ∈ wr_Order x → seat_ok sp survivors id (seat_of id x).
Proof. intros [_ Hs _] Hid. destruct (Hs id Hid) as (a & E & ?). unfold seat_of. by rewrite E. Qed.

(** ** The steps keep it *)

Variable mid : Z.

(** Only the store, the clock and the count of questions may differ. *)
Definition kept (w w' : DW) : Prop := dw_run w' = dw_run w.

Lemma post_promote (Q : () → DW → Prop) E w : (∀ w', kept w w' → Q () w') → post (promote mid) Q E w.
Proof. intros H. apply post_modify, H. done. Qed.
Lemma post_supersede id spec (Q : Z → DW → Prop) (E : DW → Prop) w : (∀ newID w', kept w w' → Q newID w') → E w → post (supersede clock id spec) Q E w.
Proof. intros H He. unfold post, supersede. destruct (SupersedeTask _ _ _ _) as [[n q]|e]; [by apply H|done]. Qed.
Lemma post_enqueue specs (Q : () → DW → Prop) (E : DW → Prop) w : (∀ w', kept w w' → Q () w') → E w → post (enqueue clock mid specs) Q E w.
Proof. intros H He. unfold post, enqueue. destruct (Enqueue _ _ _ _) as [q|e]; [by apply H|done]. Qed.

Lemma elem_of_proven id rep ms : id ∈ provenMutantIDs rep ms ↔ id ∈ rp_Killed rep ∧ id ∈ map mt_ID ms.
Proof.
  unfold provenMutantIDs. rewrite !list_elem_of_fmap. split.
  - intros (m & -> & [Hm Hk]%elem_of_filter_where). apply bool_decide_eq_true in Hk. eauto.
  - intros [Hk (m & -> & Hm)]. exists m. split; [done|]. apply elem_of_filter_where. split; [done|]. by apply bool_decide_eq_true.
Qed.
Lemma proven_sublist rep ms : provenMutantIDs rep ms `sublist_of` map mt_ID ms.
Proof. unfold provenMutantIDs. apply fmap_sublist, filter_sublist. Qed.

Lemma post_salvage sp survivors test (Q : option (list string) → DW → Prop) E w :
  (∀ w' res, kept w w' → (∀ ids, res = Some ids → ids ≠ [] ∧ ids `sublist_of` map mt_ID survivors ∧ (∀ id, id ∈ ids → evidence sp survivors test id) ∧
    graded_once survivors) → Q res w') → post (salvageByDeselect A test survivors) Q E w.
Proof.
  intros H. unfold salvageByDeselect. destruct (an_FailedTests A) as [failed|]; [|by apply H]. steps.
  destruct (failed _) as [|x l] eqn:Ef; [by apply H|]. destruct (an_DeselectCmd A (x :: l)) as [argv|] eqn:Ed; [|by apply H]. steps.
  set (n := dw_calls _). destruct (an_ScoreAuthored A n test survivors (shellJoin argv)) as [[rep u]|] eqn:Ea; [|by apply H].
  destruct (genuine rep) eqn:Eg; cbn [negb orb]; [|by apply H]. case_bool_decide as Ek; [by apply H|]. unfold notKilledByTheDevSuite. steps.
  set (n' := dw_calls _). apply H; [done|]. intros ids Hids.
  destruct (an_ScoreReport A n' _ _) as [ctl|] eqn:Er; [|done]. destruct (rp_CompliantPass ctl) eqn:Ep; [|done].
  destruct (List.filter (λ id, negb (bool_decide (id ∈ rp_Killed ctl))) _) as [|id l'] eqn:El; [done|]. injection Hids as <-. rewrite <- El. split_and!.
  - by rewrite El.
  - etrans; [apply filter_sublist|apply proven_sublist].
  - intros i [Hi Hn]%elem_of_filter_where. apply negb_true_iff, bool_decide_eq_false in Hn. by eapply ev_salvaged.
  - by exists n, test, survivors, (shellJoin argv), rep, u.
Qed.

Lemma evidence_mono sp ms survivors test id : ms ⊆ survivors → evidence sp ms test id → evidence sp survivors test id.
Proof. intros Hsub [n ms' rep u E Hg Hs Hid|n n' ms' failing argv rep u ctl]; [eapply ev_graded|eapply ev_salvaged]; eauto; by etrans. Qed.
Lemma graded_mono ms survivors : ms ⊆ survivors → graded_once ms → graded_once survivors.
Proof. intros Hsub (n & test & ms' & cmd & rep & u & ? & ? & ?). exists n, test, ms', cmd, rep, u. split_and!; [done|done|by etrans]. Qed.

Section Authored.
Variables (sp : Spec) (d : DevPass) (mode : string) (order : list string).
Hypothesis scored_d : dp_Scored d = true.

(** A run whose developer's tests were graded, in the middle of its authored pass. *)
Definition at_work (w : DW) : Prop :=
  run_ok (dw_run w) ∧ rn_spec (dw_run w) = sp ∧ rn_dev (dw_run w) = d ∧ rn_mode (dw_run w) = mode ∧
  wr_Order (rn_writer (dw_run w)) = order ∧ po_Scored (rn_pool (dw_run w)) = false.
Definition well (w : DW) : Prop := run_ok (dw_run w).
Lemma at_work_well w : at_work w → well w.
Proof. by intros (? & _). Qed.
Lemma at_work_kept w w' : kept w w' → at_work w → at_work w'.
Proof. unfold at_work, kept. by intros ->. Qed.
Lemma at_work_pool p w : at_work w → pool_ok sp (dp_Survivors d) mode p → (po_Scored p = false → wr_Tries (rn_writer (dw_run w)) < MaxTestWriterAttempts) →
  well (set_run (with_pool p (dw_run w)) w).
Proof. intros (Hr & Es & Ed & Em & Hor & Ep) ? ?. apply ok_pool; cbn; rewrite ?Es, ?Ed, ?Em; done. Qed.
Lemma at_work_writer x w : at_work w → writer_ok sp (dp_Survivors d) x → wr_Order x = wr_Order (rn_writer (dw_run w)) → wr_Tries x < MaxTestWriterAttempts → at_work (set_run (with_writer x (dw_run w)) w).
Proof. intros (Hr & Es & Ed & Em & Hor & Ep) ? E ?. split; [|cbn; rewrite E; done]. apply ok_writer; cbn; rewrite ?Es, ?Ed; done. Qed.
Lemma at_work_parts w : at_work w → writer_ok sp (dp_Survivors d) (rn_writer (dw_run w)) ∧ pool_ok sp (dp_Survivors d) mode (rn_pool (dw_run w)) ∧
  wr_Tries (rn_writer (dw_run w)) < MaxTestWriterAttempts.
Proof. clear scored_d. intros ([] & <- & <- & <- & _ & Ep). auto. Qed.

Lemma pool_authored test p : po_Scored p = false → pool_ok sp (dp_Survivors d) mode p → pool_ok sp (dp_Survivors d) mode (authored test p).
Proof.
  intros Hs [Ho Hc Hp He Hout]. destruct p. cbn in *. subst. split; cbn; try done. intros id Hid. rewrite (Ho eq_refl) in Hid. by apply elem_of_nil in Hid.
Qed.
Lemma pool_unproven p p' : pool_ok sp (dp_Survivors d) mode p → po_Scored p = false → po_ProvenIDs p' = po_ProvenIDs p → po_ProvenMissed p' = 0 →
  po_Failed p' = true ∨ po_Unsound p' = true → pool_ok sp (dp_Survivors d) mode p'.
Proof.
  intros [Ho] Hs Ei Em Hout. rewrite (Ho Hs) in Ei. split; rewrite ?Ei, ?Em; try done; [apply sublist_nil_l|by intros ? ?%elem_of_nil|tauto].
Qed.
Lemma pool_no_test b p : pool_ok sp (dp_Survivors d) mode p → po_Scored p = false → pool_ok sp (dp_Survivors d) mode (no_test b p).
Proof. intros Hp Hs. apply (pool_unproven p); destruct p; auto. Qed.
Lemma pool_ungraded b p : pool_ok sp (dp_Survivors d) mode p → po_Scored p = false → pool_ok sp (dp_Survivors d) mode (ungraded b p).
Proof. intros Hp Hs. apply (pool_unproven p); destruct p; auto. Qed.
Lemma pool_with_ids p' ids : po_ProvenIDs p' = ids → po_ProvenMissed p' = Z.of_nat (length ids) → po_Scored p' = true →
  ids `sublist_of` map mt_ID (dp_Survivors d) → (∀ id, id ∈ ids → evidence sp (dp_Survivors d) (po_Test p') id) → graded_once (dp_Survivors d) → pool_ok sp (dp_Survivors d) mode p'.
Proof. intros Ei Em Hs Hsub Hev Hg. split; rewrite ?Ei, ?Em; try done; [by rewrite Hs|intros id Hid; eexists; split; [by apply Hev|done]|tauto]. Qed.

Lemma reissue_keeps tw p w : at_work w → post (reissue_writer A clock mid tw p) (λ _, at_work) well w.
Proof.
  intros Hw. unfold reissue_writer. steps. apply post_supersede; [|by apply at_work_well]. intros newID w' Hk. steps. apply post_promote. intros w'' Hk'.
  apply (at_work_kept _ _ Hk'). apply (at_work_kept _ _ Hk) in Hw. destruct (at_work_parts _ Hw) as (Hx & _ & Ht). apply at_work_writer; [done|by apply writer_task|done|done].
Qed.
Lemma judge_writer_keeps tw w : at_work w → post (judge_writer A clock mid tw) (λ _, well) well w.
Proof.
  intros Hw. destruct (at_work_parts _ Hw) as (Hx & Hp & Ht). pose proof Hw as (Hr & Es & Ed & Em & Hor & Hsc). unfold judge_writer. steps. rewrite Ed, Es.
  destruct (String.eqb _ _); [steps; apply at_work_pool; [done|by apply pool_no_test|by destruct (rn_pool (dw_run w))]|].
  set (test := an_ParseTest A _). steps. destruct (an_CompileTest A _ test) as [f|].
  { steps. cbn [asked dw_run set_run]. destruct (Z.ltb_spec (wr_Tries (rn_writer (dw_run w)) + 1) MaxTestWriterAttempts) as [Hlt|Hge].
    - steps. eapply post_mono; [apply (reissue_keeps tw)| |done].
      + apply (at_work_writer (one_try (rn_writer (dw_run w))) (asked w)); [done|by apply writer_try|done|done].
      + intros [] w' Hw'. steps. by apply at_work_well.
    - steps. change (run_ok (with_writer (one_try (rn_writer (dw_run w))) (with_pool (no_test false (rn_pool (dw_run w))) (dw_run w)))).
      apply ok_writer; cbn; rewrite ?Es, ?Ed; [|done|by apply writer_try|by destruct (rn_pool (dw_run w))].
      apply ok_pool; rewrite ?Es, ?Ed, ?Em; [done|by apply pool_no_test|done|by destruct (rn_pool (dw_run w))]. }
  steps. set (w1 := set_run _ _). assert (at_work w1) as Hw1.
  { split; [|subst w1; cbn; by destruct (rn_pool (dw_run w))]. subst w1. cbn. apply ok_pool; rewrite ?Es, ?Ed, ?Em; [done|by apply pool_authored|done|done]. }
  assert (po_Test (rn_pool (dw_run w1)) = test) as Etest by (subst w1; cbn; by destruct (rn_pool (dw_run w))).
  assert (rn_writer (dw_run w1) = rn_writer (dw_run w)) as Ewr by done. match goal with |- context [an_ScoreAuthored A ?x _ _ _] => set (n := x) end. clearbody w1.
  destruct (an_ScoreAuthored A n test _ _) as [[rep u]|] eqn:Ea; steps; [|by apply at_work_well].
  eapply (post_mono _ (λ res w', kept w1 w' ∧ (∀ ids, res = Some ids → ids ≠ [] ∧ ids `sublist_of` map mt_ID (dp_Survivors d) ∧
    (∀ id, id ∈ ids → evidence sp (dp_Survivors d) test id) ∧ graded_once (dp_Survivors d))) _ well); [| |done].
  { destruct (rp_CompliantPass rep); [by apply post_ret|]. by apply (post_salvage sp); auto. }
  intros res w2 [Hk Hres]. apply (at_work_kept _ _ Hk) in Hw1. destruct (at_work_parts _ Hw1) as (Hx1 & Hp1 & Ht1). pose proof Hw1 as (_ & _ & _ & _ & _ & Hsc1).
  assert (po_Test (rn_pool (dw_run w2)) = test) as Etest2 by (by rewrite Hk).
  assert (∀ p, po_Test p = po_Test (rn_pool (dw_run w2)) → po_Scored p = true → po_ProvenMissed p = Z.of_nat (length (po_ProvenIDs p)) →
    po_ProvenIDs p `sublist_of` map mt_ID (dp_Survivors d) → (∀ id, id ∈ po_ProvenIDs p → evidence sp (dp_Survivors d) test id) → graded_once (dp_Survivors d) →
    well (set_run (with_pool p (dw_run w2)) w2)) as Hids.
  { intros p Et Hsp Em' Hsub Hev Hg. apply at_work_pool; [done| |by rewrite Hsp]. apply (pool_with_ids _ (po_ProvenIDs p)); try done. by rewrite Et, Etest2. }
  destruct res as [ids|].
  { steps. destruct (Hres ids eq_refl) as (_ & ? & ? & ?). apply Hids; destruct (rn_pool (dw_run w2)); done. }
  destruct (negb _ && _) eqn:Eagain.
  { steps. apply andb_prop in Eagain as [_ Hlt%Z.ltb_lt]. eapply post_mono; [apply (reissue_keeps tw)|by intros [] ? ?%at_work_well|done].
    apply (at_work_writer (one_try (rn_writer (dw_run w2))) (asked w2)); [done|by apply writer_try|done|]. rewrite Hk, Ewr. cbn. lia. }
  destruct (genuine rep) eqn:Eg; cbn [negb]; steps.
  - assert (graded_once (dp_Survivors d)) by (by exists n, test, (dp_Survivors d), (sp_TestCmd sp), rep, u).
    pose proof (proven_sublist rep (dp_Survivors d)). apply Hids; destruct (rn_pool (dw_run w2)); try done. intros id Hid. by eapply ev_graded.
  - apply at_work_pool; [done|by apply pool_ungraded|by destruct (rn_pool (dw_run w2))].
Qed.

(** *** One writer for each survivor *)

Definition fine (a : writerAttempt) : Prop := seat_ok sp (dp_Survivors d) (mt_ID (wa_mutant a)) a.
Lemma at_work_seat a w : at_work w → fine a → at_work (set_run (with_writer (put_seat a (rn_writer (dw_run w))) (dw_run w)) w).
Proof. intros Hw Ha. destruct (at_work_parts _ Hw) as (Hx & _ & Ht). apply at_work_writer; [done|by apply writer_seat|done|done]. Qed.
Lemma put_seat_twice a a' x : mt_ID (wa_mutant a') = mt_ID (wa_mutant a) → put_seat a' (put_seat a x) = put_seat a' x.
Proof. intros E. unfold put_seat. cbn. by rewrite E, insert_insert_eq. Qed.
Lemma reissueSeat_keeps a task prev ce cl w : at_work w → fine a → post (reissueWriterSeat A clock mid a task prev ce cl) (λ _, at_work) at_work w.
Proof.
  intros Hw Ha. unfold reissueWriterSeat. steps. apply post_supersede; [|done]. intros newID w1 Hk. steps. apply (at_work_kept _ _ Hk) in Hw.
  apply post_promote. intros w2 Hk2. apply (at_work_kept _ _ Hk2). assert (fine (reissued newID a)) as Ha' by (destruct a, Ha; by split).
  pose proof (at_work_seat _ _ Hw Ha') as Hw2. destruct (at_work_parts _ Hw2) as (Hx & _ & Ht). apply at_work_writer; case_bool_decide; try done. by apply writer_task.
Qed.

Ltac by_seat := solve [lia | by intros [=] | intros _; lia | auto].
Lemma judge_seat_keeps a task w : at_work w → fine a → wa_done a = false → post (judge_seat A clock mid a task) (λ _, at_work) at_work w.
Proof.
  intros Hw Ha Hd. unfold judge_seat. steps. assert (rn_spec (dw_run w) = sp) as -> by (by destruct Hw as (_ & -> & _)).
  assert (wa_mutant a ∈ dp_Survivors d) as Hm by (by destruct Ha). assert ([wa_mutant a] ⊆ dp_Survivors d) as Hsub by set_solver.
  assert (wa_proven a = false ∧ wa_measured a = false) as [Hpr Hme].
  { destruct Ha as [_ _ Hp Hme _]. destruct (wa_measured a) eqn:E; [by destruct (Hme eq_refl) as [H _]; rewrite Hd in H|]. destruct (wa_proven a); [by destruct (Hp eq_refl)|done]. }
  assert (0 <= wa_repairs a < MaxTestWriterAttempts) as Hrep by (destruct Ha as [_ _ _ _ [? H]]; specialize (H Hd); lia).
  destruct a as [m tid txt rep_ att dn prv mea sal cmp pf]. cbn [wa_mutant wa_done wa_proven wa_measured wa_repairs wa_taskID] in *. subst.
  assert (∀ t s r n dd pp me sa c f, 0 <= r <= MaxTestWriterAttempts → (dd = false → r < MaxTestWriterAttempts) → (me = true → dd = true ∧ graded_once (dp_Survivors d)) →
    (pp = true → me = true ∧ evidence sp (dp_Survivors d) s (mt_ID m)) → fine (mkAttempt m t s r n dd pp me sa c f)) as Hf by (intros; split; cbn; auto).
  assert (∀ a w, wa_mutant a = m → at_work w → fine a → at_work (set_run (with_writer (put_seat a (rn_writer (dw_run w))) (dw_run w)) w)) as Hput by (intros; by apply at_work_seat).
  assert (graded_once (dp_Survivors d) → ∀ t s r n pp sa c f, 0 <= r <= MaxTestWriterAttempts → (pp = true → evidence sp (dp_Survivors d) s (mt_ID m)) → fine (mkAttempt m t s r n true pp true sa c f)) as Hg by (intros; apply Hf; auto; done).
  destruct (String.eqb _ _); [steps; cbn [provider_failed]; apply Hput; [done|done|apply Hf; by_seat]|].
  steps. cbn [attempted]. set (test := an_ParseTest A _). assert (at_work (set_run (with_writer (put_seat (mkAttempt m tid txt rep_ (att + 1) false false false sal cmp pf) (rn_writer (dw_run w))) (dw_run w)) w)) as Hw1 by (apply Hput; [done|done|apply Hf; by_seat]).
  set (w1 := set_run _ w) in *. clearbody w1. clear Hw w. destruct (an_CompileTest A _ test) as [f|].
  { steps. cbn [repaired wa_repairs]. destruct (Z.leb_spec MaxTestWriterAttempts (rep_ + 1)) as [Hge|Hlt]; steps.
    - cbn. rewrite put_seat_twice by done. apply (Hput _ (asked w1)); [done|done|apply Hf; by_seat].
    - assert (fine (mkAttempt m tid txt (rep_ + 1) (att + 1) false false false sal cmp pf)) as Hfa by (apply Hf; by_seat).
      assert (∀ b, post (if b : bool then reissueWriterSeat A clock mid (mkAttempt m tid txt (rep_ + 1) (att + 1) false false false sal cmp pf) task "" "" ""
         else reissueWriterSeat A clock mid (mkAttempt m tid txt (rep_ + 1) (att + 1) false false false sal cmp pf) task test (compile_message f) "") (λ _, at_work) at_work
         (set_run (with_writer (put_seat (mkAttempt m tid txt (rep_ + 1) (att + 1) false false false sal cmp pf) (rn_writer (dw_run w1))) (dw_run w1)) (asked w1))) as H.
      { intros b. assert (at_work (set_run (with_writer (put_seat (mkAttempt m tid txt (rep_ + 1) (att + 1) false false false sal cmp pf) (rn_writer (dw_run w1))) (dw_run w1)) (asked w1)))
          by (by apply (Hput _ (asked w1))). destruct b; by apply reissueSeat_keeps. }
      eapply post_mono; [apply H|intros [] w' ?; by steps|done]. }
  steps. cbn [compiles]. match goal with |- context [an_ScoreAuthored A ?x _ _ _] => set (n := x) end.
  assert (at_work (asked (set_run (with_writer (put_seat (mkAttempt m tid test rep_ (att + 1) false false false sal true pf) (rn_writer (dw_run w1))) (dw_run w1)) (asked w1)))) as Hw2
    by (apply (Hput _ (asked w1)); [done|done|apply Hf; by_seat]).
  set (w2 := asked (set_run _ _)) in *. change (asked _) with w2. clearbody w2 n. clear Hw1 w1.
  destruct (an_ScoreAuthored A n test [m] _) as [[rep u]|] eqn:Ea; steps; [|done]. cbn [wa_repairs].
  eapply (post_mono _ (λ res w', kept w2 w' ∧ (∀ ids, res = Some ids → evidence sp (dp_Survivors d) test (mt_ID m) ∧ graded_once (dp_Survivors d))) _ at_work); [| |done].
  { destruct (rp_CompliantPass rep); [by apply post_ret|]. apply (post_salvage sp). intros w' res Hk Hres. split; [done|]. intros ids ->.
    destruct (Hres ids eq_refl) as (Hne & Hids & Hev & Hgr). split; [|by eapply graded_mono]. eapply evidence_mono; [exact Hsub|]. apply Hev.
    destruct ids as [|i ids]; [done|]. assert (i ∈ map mt_ID [m]) as Hi by (eapply elem_of_sublist; [left|exact Hids]). apply list_elem_of_singleton in Hi as ->. left. }
  intros res w3 [Hk Hres]. apply (at_work_kept _ _ Hk) in Hw2. destruct res as [ids|]; steps.
  { destruct (Hres ids eq_refl). cbn [salvaged]. apply Hput; [done|done|]. apply Hf; by_seat. }
  destruct (negb _ && _) eqn:Eagain; steps.
  { apply andb_prop in Eagain as [_ Hlt%Z.ltb_lt]. cbn [repaired]. assert (fine (mkAttempt m tid test (rep_ + 1) (att + 1) false false false sal true pf)) as Hfa by (apply Hf; by_seat).
    apply reissueSeat_keeps; [|done]. by apply (Hput _ w3). }
  destruct (genuine rep) eqn:Eg; cbn [negb graded gave_up]; steps.
  - assert (graded_once (dp_Survivors d)) by (exists n, test, [m], (sp_TestCmd sp), rep, u; done). apply Hput; [done|done|]. apply Hf; try by_seat.
    intros Hp%negb_true_iff%bool_decide_eq_false. split; [done|]. eapply ev_graded; [exact Ea|done|exact Hsub|].
    destruct (provenMutantIDs rep [m]) as [|i l] eqn:E; [done|]. assert (i ∈ map mt_ID [m]) as Hi by (eapply elem_of_sublist; [|apply (proven_sublist rep)]; rewrite E; left).
    apply list_elem_of_singleton in Hi as ->. left.
  - destruct u; steps.
    + assert (at_work (set_run (with_writer (put_seat (mkAttempt m tid test rep_ (att + 1) true false false sal true pf) (rn_writer (dw_run w3))) (dw_run w3)) w3)) as Hw4
        by (apply Hput; [done|done|apply Hf; by_seat]).
      set (w4 := set_run _ w3) in *. clearbody w4. pose proof Hw4 as (Hr & Es & Ed & Em & Hor & Hsc). destruct (at_work_parts _ Hw4) as (_ & Hp & Ht).
      split; [|cbn; by destruct (rn_pool (dw_run w4))]. apply ok_pool; rewrite ?Es, ?Ed, ?Em; [done| |done|done].
      destruct Hp, (rn_pool (dw_run w4)). cbn in *. by split.
    + apply Hput; [done|done|apply Hf; by_seat].
Qed.

Lemma advance_keeps a w : at_work w → fine a → wa_done a = false → post (advanceWriterAttempt A clock mid a) (λ _, at_work) at_work w.
Proof.
  intros Hw Ha Hd. unfold advanceWriterAttempt. steps. destruct (TaskByID _ _) as [task|]; [|by steps]. destruct (negb _); [by steps|]. steps.
  eapply post_mono; [by apply judge_seat_keeps|intros [] w' ?; by steps|done].
Qed.
Lemma fanout_keeps w : at_work w → post (tickWriterFanout A clock mid) (λ _, at_work) at_work w.
Proof.
  intros Hw. unfold tickWriterFanout. steps. assert (wr_Order (rn_writer (dw_run w)) = order) as -> by (by destruct Hw as (_ & _ & _ & _ & -> & _)).
  eapply post_mono; [apply (post_each _ (λ rest _ w, at_work w ∧ rest ⊆ order))| |done].
  - intros id rest acc w' [Hw' Hsub]. unfold fanout_one. steps. assert (fine (seat_of id (rn_writer (dw_run w')))) as Ha.
    { destruct (at_work_parts _ Hw') as (Hx & _). assert (id ∈ wr_Order (rn_writer (dw_run w'))) as Hid by (destruct Hw' as (_ & _ & _ & _ & -> & _); apply Hsub; left).
      pose proof (seat_of_ok _ _ _ _ Hx Hid) as H. unfold fine. by rewrite (so_id _ _ _ _ H). }
    destruct (wa_done _) eqn:Ed; steps; [split; [done|set_solver]|]. apply post_attempt. eapply post_mono; [by apply advance_keeps|intros; steps; split; [done|set_solver]..].
  - done.
  - intros [e pending] w' [Hw' _]. cbn beta iota. destruct e; steps; [done|]. destruct pending; steps; done.
Qed.

(** What is banked of the seats. *)
Lemma seats_of_ok r a : writer_ok sp (dp_Survivors d) (rn_writer r) → a ∈ seats_of r → ∃ id, id ∈ wr_Order (rn_writer r) ∧ seat_ok sp (dp_Survivors d) id a.
Proof. clear scored_d. intros Hx (id & -> & Hid)%list_elem_of_fmap. exists id. split; [done|by apply seat_of_ok]. Qed.
Lemma counted_one f r : 0 < count_seats f r → ∃ a, a ∈ seats_of r ∧ f a = true.
Proof.
  clear scored_d. unfold count_seats. destruct (List.filter f (seats_of r)) as [|a l] eqn:E; cbn; [lia|]. intros _. exists a. apply elem_of_filter_where. rewrite E. left.
Qed.
Lemma counted_none f r : count_seats f r <= 0 → List.filter f (seats_of r) = [].
Proof. clear scored_d. unfold count_seats. destruct (List.filter f _); cbn; [done|lia]. Qed.
Lemma prefix_is_sublist {X} (l1 l2 : list X) : l1 `prefix_of` l2 → l1 `sublist_of` l2.
Proof. intros [l ->]. by apply sublist_inserts_r. Qed.
Lemma bank_ids r : writer_ok sp (dp_Survivors d) (rn_writer r) → let ids := map (λ a, mt_ID (wa_mutant a)) (List.filter wa_proven (seats_of r)) in
  ids `sublist_of` map mt_ID (dp_Survivors d) ∧ (∀ id, id ∈ ids → ∃ test, evidence sp (dp_Survivors d) test id) ∧
  (0 < count_seats wa_measured r → graded_once (dp_Survivors d)) ∧ (count_seats wa_measured r <= 0 → ids = []).
Proof.
  clear scored_d. intros Hx ids. assert (∀ a, a ∈ seats_of r → wa_proven a = true → wa_measured a = true ∧ evidence sp (dp_Survivors d) (wa_test a) (mt_ID (wa_mutant a))) as Hp.
  { intros a Ha Hpr. destruct (seats_of_ok r a Hx Ha) as (id & _ & [<- _ H _ _]). by apply H. }
  split_and!.
  - trans (map (λ a, mt_ID (wa_mutant a)) (seats_of r)); [apply fmap_sublist, filter_sublist|].
    assert (map (λ a, mt_ID (wa_mutant a)) (seats_of r) = wr_Order (rn_writer r)) as ->; [|apply prefix_is_sublist; by destruct Hx].
    unfold seats_of. rewrite map_map. rewrite <- map_id. apply map_ext_in. intros id Hid%list_elem_of_In. by destruct (seat_of_ok _ _ _ _ Hx Hid).
  - intros id (a & -> & [Ha Hpr]%elem_of_filter_where)%list_elem_of_fmap. exists (wa_test a). by apply Hp.
  - intros (a & Ha & Hm)%counted_one. destruct (seats_of_ok r a Hx Ha) as (id & _ & [_ _ _ H _]). by apply H.
  - intros Hn%counted_none. subst ids. destruct (List.filter wa_proven (seats_of r)) as [|a l] eqn:E; [done|].
    assert (a ∈ List.filter wa_proven (seats_of r)) as [Ha Hpr]%elem_of_filter_where by (rewrite E; left).
    assert (a ∈ List.filter wa_measured (seats_of r)) as H by (apply elem_of_filter_where; split; [done|by apply Hp]). rewrite Hn in H. by apply elem_of_nil in H.
Qed.
Lemma banked_pool r p : writer_ok sp (dp_Survivors d) (rn_writer r) → mode = WriterModePerSurvivor →
  po_ProvenIDs p = map (λ a, mt_ID (wa_mutant a)) (List.filter wa_proven (seats_of r)) → po_ProvenMissed p = Z.of_nat (length (po_ProvenIDs p)) →
  (if 0 <? count_seats wa_measured r then po_Scored p = true else po_Scored p = true → po_Failed p = true ∨ po_Unsound p = true) → pool_ok sp (dp_Survivors d) mode p.
Proof.
  clear scored_d. intros Hx Hmode Ei Em Hif. destruct (bank_ids r Hx) as (Hsub & Hev & Hgr & Hnil). rewrite <- Ei in *. split; [| |done| |].
  - destruct (Z.ltb_spec 0 (count_seats wa_measured r)); [congruence|]. intros _. by apply Hnil.
  - done.
  - intros id Hid. destruct (Hev id Hid) as [test ?]. by exists test.
  - destruct (Z.ltb_spec 0 (count_seats wa_measured r)); [intros _; auto|]. intros Hs. destruct (Hif Hs); auto.
Qed.
Lemma finish_pool r : writer_ok sp (dp_Survivors d) (rn_writer r) → mode = WriterModePerSurvivor →
  let p := finishWriterFlags r (measured_as (0 <? count_seats wa_measured r) (0 <? count_seats wa_salvaged r) (bankWriterProofs A r)) in
  pool_ok sp (dp_Survivors d) mode p ∧ po_Scored p = true.
Proof.
  intros Hx Hmode p. assert (po_Scored p = true ∧ po_ProvenIDs p = map (λ a, mt_ID (wa_mutant a)) (List.filter wa_proven (seats_of r)) ∧
    po_ProvenMissed p = Z.of_nat (length (po_ProvenIDs p)) ∧ ((0 <? count_seats wa_measured r) = false → po_Failed p = true ∨ po_Unsound p = true)) as (? & ? & ? & ?).
  { subst p. unfold bankWriterProofs. destruct (ConcatAuthored A _) as [merged extra]. unfold finishWriterFlags.
    destruct (rn_pool r). destruct (0 <? count_seats wa_measured r); [by split_and!|]. destruct (_ =? _); [by split_and!; auto|]. destruct (_ =? 0); split_and!; auto. }
  split; [|done]. eapply banked_pool; try done. by destruct (0 <? count_seats wa_measured r) eqn:E; auto.
Qed.

Lemma tickPool_keeps w : at_work w → post (tickPoolAdequacy A clock mid) (λ _, well) well w.
Proof.
  intros Hw. unfold tickPoolAdequacy. steps. assert (rn_mode (dw_run w) = mode) as -> by (by destruct Hw as (_ & _ & _ & -> & _)).
  destruct (String.eqb_spec mode WriterModePerSurvivor) as [Hmode|].
  - steps. eapply post_mono; [by apply fanout_keeps| |by intros ? ?%at_work_well]. intros done w1 Hw1. destruct done; steps; [|by apply at_work_well].
    unfold finishWriterFanout. steps. destruct (at_work_parts _ Hw1) as (Hx & _). destruct (finish_pool _ Hx Hmode) as [Hp Hs].
    set (p := finishWriterFlags _ _) in *. assert (well (set_run (with_pool p (dw_run w1)) w1)) as Hw2 by (apply at_work_pool; [done|done|by rewrite Hs]). clearbody p.
    unfold checkAuthoredTogether. steps. cbn [set_run dw_run rn_pool with_pool]. destruct (_ || _); [by steps|]. steps.
    assert (∀ how out, well (set_run (with_pool (together how out p) (dw_run w1)) w1)) as Ht.
    { intros how out. apply at_work_pool; [done| |intros; destruct p; cbn in *; congruence]. destruct Hp, p. cbn in *. by split. }
    destruct (an_CompliantRun A _ _) as [[[] out]|]; steps; [apply Ht|apply Ht|done].
  - steps. destruct (TaskByID _ _) as [tw|]; [|steps; by apply at_work_well]. destruct (has_status _ _); [by apply judge_writer_keeps|steps; by apply at_work_well].
Qed.
End Authored.

Lemma seats_at_work r : 0 < count_seats wa_measured r → wr_Order (rn_writer r) ≠ [].
Proof. intros Hc E. unfold count_seats, seats_of in Hc. by rewrite E in Hc. Qed.

(** *** The dev pass *)

Definition idle (w : DW) : Prop := run_ok (dw_run w) ∧ dp_Scored (rn_dev (dw_run w)) = false.
Lemma idle_regions g w : idle w → regions_ok g → idle (set_run (with_regions g (dw_run w)) w).
Proof. intros [] ?. split; [by apply ok_regions|done]. Qed.

Lemma gather_one_keeps acc t w : idle w → post (gather_one A acc t) (λ _, idle) idle w.
Proof.
  intros Hw. pose proof Hw as [Hr _]. unfold gather_one. steps. case_bool_decide as Hk; [by steps|]. pose proof (ro_regions _ Hr) as Hg.
  destruct (an_ParseMutants A _ _) as [parsed|why]; [by steps|]. steps. set (key := tk_Key t) in *. set (g := rn_regions (dw_run w)) in *.
  set (label := match default [] _ with [] => _ | _ => _ end). pose proof (regions_retry key label g Hg Hk) as H. cbv zeta in H.
  destruct (retries g key + 1 <=? MaxShardRetries) eqn:E; steps; by apply (idle_regions _ w).
Qed.
Lemma gather_keeps w : idle w → post (gather A mid) (λ _, idle) idle w.
Proof.
  intros Hw. unfold gather. steps. destruct (sp_PresetMutants _); [by steps|]. steps. destruct (_ || _); [by steps|]. steps.
  eapply post_mono; [apply (post_each _ (λ _ _, idle)); [intros; by apply gather_one_keeps|done]| |done]. intros [[ms gen] probed] w' Hw'. cbn beta iota zeta. destruct (List.find _ _); by steps.
Qed.

Lemma dev_keeps d w : idle w → dp_Scored d = true → dev_ok d → at_work (rn_spec (dw_run w)) d (rn_mode (dw_run w)) [] (set_run (with_dev d (dw_run w)) w).
Proof.
  intros [[Hsp Hd Hg [Ho Hs Ht] [Hop Hc Hp He Hout] Hun Htr Hv] Hf] Hd' Hok. destruct (Hun Hf) as [Hor Hsc]. pose proof (Hop Hsc) as Hids.
  split_and!; try done. split; try done.
  - split; [cbn; rewrite Hor; apply prefix_nil|cbn; rewrite Hor; by intros ? ?%elem_of_nil|done].
  - split; cbn; rewrite ?Hids; try done; [by rewrite Hids in Hc|apply sublist_nil_l|by intros ? ?%elem_of_nil|by rewrite Hsc].
Qed.

Lemma at_work_new sp d mode order m id w : dp_Scored d = true → at_work sp d mode order w → m ∈ dp_Survivors d → order ++ [mt_ID m] `prefix_of` map mt_ID (dp_Survivors d) →
  at_work sp d mode (order ++ [mt_ID m]) (set_run (with_writer (new_seat m id (rn_writer (dw_run w))) (dw_run w)) w).
Proof.
  intros Hsd Hw Hm Hpre. destruct (at_work_parts _ _ _ _ w Hw) as (Hx & _ & Ht). pose proof Hw as (Hr & Es & Ed & Em & Ho & Hsc).
  split_and!; try done; [|cbn; by rewrite Ho]. apply ok_writer; rewrite ?Es, ?Ed; [done|done| |done]. apply writer_new; rewrite ?Ho; done.
Qed.
Lemma promoteSeats_keeps sp d mode tw w : dp_Scored d = true → at_work sp d mode [] w →
  post (promotePerSurvivorWriters A clock mid tw (dp_Survivors d)) (λ _, well) well w.
Proof.
  intros Hsd Hw. unfold promotePerSurvivorWriters. destruct (dp_Survivors d) as [|first rest] eqn:Esv; [by steps; apply (at_work_well sp d mode [])|]. steps.
  apply post_supersede; [|by apply (at_work_well sp d mode [])]. intros newID w1 Hk. steps. apply (at_work_kept _ _ _ _ _ _ Hk) in Hw.
  set (w2 := set_run (with_writer (new_seat first newID (set_task newID (rn_writer (dw_run w1)))) (dw_run w1)) w1).
  assert (at_work sp d mode [mt_ID first] w2) as Hw2.
  { destruct (at_work_parts _ _ _ _ _ Hw) as (Hx & _ & Ht). pose proof Hw as (_ & _ & _ & _ & Ho & _).
    assert (at_work sp d mode [] (set_run (with_writer (set_task newID (rn_writer (dw_run w1))) (dw_run w1)) w1)) as H by (apply at_work_writer; [done|done|by apply writer_task|done|done]).
    apply (at_work_new _ _ _ _ first newID) in H; [exact H|done|rewrite Esv; left|rewrite Esv; by apply prefix_cons, prefix_nil]. }
  clearbody w2. assert (∀ w, (at_work sp d mode [mt_ID first] w → post (let% byKey := gets (λ w, task_ids (liveTasks (tasksByRole mid RoleTestWriter (dw_q w)))) in each (seat_enqueued byKey) rest ()) (λ _, well) well w)) as Hlast.
  { clear w2 Hw2. intros w2 Hw2. steps. eapply post_mono; [apply (post_each _ (λ l _ w, ∃ seen, at_work sp d mode (map mt_ID seen) w ∧ first :: rest = seen ++ l))| |done].
    - intros m l [] w3 (seen & Hw3 & E). unfold seat_enqueued. steps. destruct (_ !! _) as [id|]; cbn [of_opt]; steps; [|by apply (at_work_well sp d mode (map mt_ID seen))].
      exists (seen ++ [m]). rewrite <- app_assoc. split; [|done]. rewrite map_app. apply at_work_new; [done|done|rewrite Esv, E; set_solver|].
      rewrite Esv, E, map_app. cbn. apply prefix_app, prefix_cons, prefix_nil.
    - by exists [first].
    - intros [] w3 (seen & Hw3 & _). by apply (at_work_well sp d mode (map mt_ID seen)). }
  case_bool_decide; steps; [by apply Hlast|]. apply post_enqueue; [|by apply (at_work_well sp d mode [mt_ID first])]. intros w3 Hk3. apply Hlast. by apply (at_work_kept _ _ _ _ _ _ Hk3).
Qed.

Lemma tickDev_keeps w : idle w → post (tickDevAdequacy A cfg clock mid) (λ _, well) well w.
Proof.
  intros Hw. unfold tickDevAdequacy. steps. eapply post_mono; [by apply gather_keeps| |by intros ? []]. intros g w1 Hw1. cbn beta.
  destruct g as [[[[ms gen] probed] total]|]; steps; [|by destruct Hw1]. set (g := gathered _ _ _ _ _).
  assert (idle (set_run (with_regions g (dw_run w1)) w1)) as Hw2 by (apply idle_regions; [done|]; apply regions_gathered; by destruct Hw1 as [[] _]).
  set (w2 := set_run _ w1) in *. clearbody w2. case_bool_decide as Hne; steps; [by destruct Hw2|]. unfold applyDevScore. steps.
  destruct (an_ScoreDev A _ ms) as [rep|why] eqn:Ea; steps; [|by destruct Hw2]. set (d := dev_pass _ _ _ _).
  assert (at_work (rn_spec (dw_run w2)) d (rn_mode (dw_run w2)) [] (set_run (with_dev d (dw_run w2)) (asked w2))) as Hw3.
  { apply (dev_keeps d (asked w2)); [done|done|]. unfold dev_ok. cbn. eexists _, rep, _. split; [exact Ea|done]. }
  assert (dp_Scored d = true) as Hsd by done. set (w3 := set_run _ (asked w2)) in *. change (rn_dev (dw_run w3)) with d. clearbody w3 d. generalize dependent (rn_spec (dw_run w2)). intros sp Hw3.
  generalize dependent (rn_mode (dw_run w2)). intros mode Hw3. pose proof (at_work_well _ _ _ _ _ Hw3) as Hwell.
  destruct (dp_Survivors d) as [|m l] eqn:Esv.
  - steps. assert (well (set_run (with_pool (perfect (rn_pool (dw_run w3))) (dw_run w3)) w3)) as H.
    { destruct (at_work_parts _ _ _ _ _ Hw3) as (_ & [Hop Hc _ _ _] & _). pose proof Hw3 as (_ & _ & _ & _ & _ & Hsc). rewrite (Hop Hsc) in Hc. specialize (Hop Hsc).
      apply (at_work_pool sp d mode [] Hsd); [done| |by destruct (rn_pool (dw_run w3))]. rewrite Esv. destruct (rn_pool (dw_run w3)). cbn in *. subst.
      split; cbn; try done; [by intros ? ?%elem_of_nil|by left]. }
    destruct (TaskByID _ _) as [tw|]; [|by steps]. destruct (has_status _ _); by steps.
  - destruct (TaskByID _ _) as [tw|]; [|by steps]. destruct (negb _); [by steps|]. steps.
    eapply (post_mono _ (λ _, well) _ well); [| |done].
    + destruct (String.eqb _ _); [rewrite <- Esv; by apply (promoteSeats_keeps sp d mode)|]. steps. apply post_supersede; [|done]. intros newID w4 Hk. steps.
      apply (at_work_kept _ _ _ _ _ _ Hk) in Hw3. destruct (at_work_parts _ _ _ _ _ Hw3) as (Hx & _ & Ht). apply (at_work_well sp d mode []). apply at_work_writer; [done|done|by apply writer_task|done|done].
    + intros [] w4 Hw4. apply post_promote. intros w5 Hk. unfold well. by rewrite Hk.
Qed.

(** *** The verdict *)

Lemma refs_ids g ms : map mr_ID (toMutantRefsWith ms g) = map mt_ID ms.
Proof. unfold toMutantRefsWith. rewrite map_map. apply map_ext. intros m. unfold toMutantRef. by destruct (g !! mt_ID m). Qed.
Lemma honest_signed sp id h v : honest sp v → honest sp (signed id h v).
Proof. intros []. destruct v. by split. Qed.

(** The gate's figures are the run's. *)
Record gate_of (r : runState) (g : Verdict) : Prop := {
  gt_scored : vd_DevScored g = dp_Scored (rn_dev r);
  gt_rate : vd_DevKillRate g = dp_KillRate (rn_dev r);
  gt_total : vd_MutantsTotal g = dp_Total (rn_dev r);
  gt_survivors : vd_Survivors g = Z.of_nat (length (dp_Survivors (rn_dev r)));
  gt_proven : vd_ProvenMissed g = po_ProvenMissed (rn_pool r) }.
Lemma disclose_honest r g late incomplete refuted : run_ok r → gate_of r g → (dp_Scored (rn_dev r) = false → late = true ∧ po_Scored (rn_pool r) = false ∧ refuted = []) →
  (∀ f, f ∈ refuted → ∃ f', fi_ID f' = fi_ID f ∧ refuted_by (dp_Mutants (rn_dev r)) f') → (late = true → vd_Status g = StatusNeedsReview) →
  (vd_Status g = StatusCertified → po_Scored (rn_pool r) = true ∧ po_Failed (rn_pool r) = false ∧ po_Unsound (rn_pool r) = false ∧
    fgt (dc_Threshold cfg) (vd_DevKillRate g) = false ∧ vd_TestWriterFailed g = false ∧ vd_PoolTestUnsound g = false ∧
    exam_indication (vd_MutantsTotal g) (dc_CertifyIntervalWidth cfg) (dp_Exam (rn_dev r)) = None) →
  honest (rn_spec r) (disclose r g late incomplete refuted).
Proof.
  intros [_ Hd _ _ Hp Hun _ _] [Gs Gr Gt Gv Gp] Hlate Hrf Hto Hcert. destruct Hp as [Hop Hc Hps Hev Hout].
  split; cbn -[exam_indication]; rewrite ?Gs, ?Gr, ?Gt, ?Gv, ?Gp.
  - intros Es. unfold dev_ok in Hd. rewrite Es in Hd. destruct Hd as (n & rep & old & Ea & E). remember (dp_Mutants (rn_dev r)) as ms eqn:Ems.
    exists n, ms, rep. rewrite E in *. cbn in *. split_and!; try done. intros Hst. destruct (Hcert Hst) as (H1 & H2 & H3 & _). destruct (Hout H1) as [?|[?|[?|?]]]; auto; congruence.
  - intros Es. destruct (Hlate Es) as (-> & Hs & ->). unfold dev_ok in Hd. rewrite Es in Hd. rewrite Hd. cbn. split_and!; auto.
  - unfold toMutantRefsWith. by rewrite length_map.
  - by rewrite refs_ids, Hc.
  - done.
  - intros Hst. destruct (Hcert Hst) as (H1 & _ & _ & ? & ? & ? & ?). split; [|split_and!; congruence]. destruct (dp_Scored (rn_dev r)); [done|]. destruct (Hlate eq_refl) as (_ & ? & _). congruence.
Qed.

Lemma adjudicate_keeps findings w : let ms := dp_Mutants (rn_dev (dw_run w)) in
  post (each (adjudicate_one A) findings []) (λ obs w', dw_run w' = dw_run w ∧ ∀ o, o ∈ obs → o.2 = AdjRefuted → ∃ f', fi_ID f' = o.1 ∧ refuted_by ms f') (λ w', dw_run w' = dw_run w) w.
Proof.
  intros ms. eapply post_mono; [apply (post_each _ (λ _ (obs : list (Z * string)) w', dw_run w' = dw_run w ∧ ∀ o, o ∈ obs → o.2 = AdjRefuted → ∃ f', fi_ID f' = o.1 ∧ refuted_by ms f') (λ w', dw_run w' = dw_run w))| |by intros ? H].
  - intros f rest obs w' [Hr Hobs]. unfold adjudicate_one. steps. rewrite Hr. fold ms.
    eapply (post_mono _ (λ ran w', dw_run w' = dw_run w ∧ (is_Some ran → String.eqb (NormalizeScope (fi_Scope f)) ScopeWholeTest = true → refuted_by ms f)) _ (λ w', dw_run w' = dw_run w)); [| |done].
    + destruct (String.eqb (NormalizeScope _) ScopeWholeTest) eqn:Es; cbn [andb]; [|apply post_ret; split; [done|by intros [? ?]]].
      assert (fi_Scope f = ScopeWholeTest) as Hsc by (revert Es; unfold NormalizeScope; by destruct (String.eqb_spec (fi_Scope f) ScopeWholeTest)).
      destruct (negb _); [|apply post_ret; split; [done|by intros [? ?]]]. steps. destruct (String.eqb (an_CriticCommand _ _ _) _); [apply post_ret; split; [done|by intros [? ?]]|]. steps. split; [done|].
      set (n' := dw_calls (asked w')). destruct (an_ScoreReport A n' ms _) as [rep|] eqn:Ea; [|by intros [? ?]]. destruct (fgt (KillRate rep) _) eqn:Ef; [|by intros [? ?]].
      intros _ _. split; [done|]. exists n', (dw_calls w'), rep. done.
    + intros ran w'' [Hr' H]. steps. split; [done|]. intros o [Ho| ->%list_elem_of_singleton]%elem_of_app; [by apply Hobs|]. cbn. unfold AutoAdjudication.
      assert (NormalizeScope (NormalizeScope (fi_Scope f)) = NormalizeScope (fi_Scope f)) as -> by (unfold NormalizeScope; by destruct (String.eqb (fi_Scope f) ScopeWholeTest)).
      destruct (String.eqb _ _) eqn:Es; [|done]. case_bool_decide; [|done]. intros _. exists f. split; [done|by apply H].
  - split; [done|]. by intros ? ?%elem_of_nil.
  - done.
Qed.

(** What holds of a verdict returned: it is the run's. *)
Definition settled (v : option PoolVerdict) (w : DW) : Prop := well w ∧ ∀ x, v = Some x → rn_verdict (dw_run w) = Some x.
Lemma sign_keeps v (Q : PoolVerdict → DW → Prop) E w :
  (∀ id h w', kept w w' → Q (signed id h v) w') → Q v w → (∀ w', kept w w' → E w') → post (sign A cfg v) Q E w.
Proof. intros H1 H2 H3. unfold sign. destruct (dc_Signer cfg); [|by steps]. steps. destruct (an_SignVerdict A _ v) as [[id h]|]; steps; [by apply H1|by apply H3]. Qed.
Lemma sign_settles v w : well w → honest (rn_spec (dw_run w)) v → post (let% v := sign A cfg v in run% put_verdict v in ret (Some v)) settled well w.
Proof.
  intros Hw Hv. steps. assert (∀ v' w', kept w w' → honest (rn_spec (dw_run w)) v' → post (run% put_verdict v' in ret (Some v')) settled well w') as H.
  { intros v' w' Hk Hv'. steps. split; [apply ok_verdict; by rewrite Hk|]. by intros x [= <-]. }
  apply sign_keeps; [intros; apply H; [done|by apply honest_signed]|by apply H|]. intros w' Hk. unfold well. by rewrite Hk.
Qed.

Lemma critic_post (Q : option (list Finding * bool) → DW → Prop) E w : (∀ c, Q c w) → post (critic_part cfg mid) Q E w.
Proof. intros H. unfold critic_part. destruct (negb _); steps; [done|]. destruct (taskByKey _ _ _) as [t|]; [|by steps]. destruct (negb _); by steps. Qed.
Lemma aggregate_keeps w : well w → po_Scored (rn_pool (dw_run w)) = true → post (tickAggregate A cfg mid) settled well w.
Proof.
  intros Hw Hs. assert (dp_Scored (rn_dev (dw_run w)) = true) as Hd.
  { destruct Hw as [_ _ _ _ _ Hun _ _]. destruct (dp_Scored _); [done|]. destruct (Hun eq_refl). congruence. }
  unfold tickAggregate. steps. apply critic_post. intros [[findings incomplete]|]; [|steps; by split]. steps. set (gate := aggregate _ _ _ _ _ _ _ _ _ _ _ _).
  eapply post_mono; [apply adjudicate_keeps| |intros w' Hr; unfold well; by rewrite Hr]. intros obs w' [Hr Hobs]. unfold splitRefuted. cbv beta iota.
  assert (gate_of (dw_run w) gate) as Hg by (unfold gate, aggregate; split; destruct (gate_status _ _ _ _ _); try destruct (exam_indication _ _ _); try done).
  assert (honest (rn_spec (dw_run w)) (disclose (dw_run w) (with_standing (List.filter (λ f, negb (refuted_id obs f)) findings) gate) false incomplete
    (List.filter (refuted_id obs) findings))) as Hv.
  { apply disclose_honest; [done|destruct Hg, gate; by split|by rewrite Hd| |done|].
    - intros f [_ Hf]%elem_of_filter_where. apply existsb_exists in Hf as (o & Ho%list_elem_of_In & [E1%Z.eqb_eq E2%String.eqb_eq]%andb_prop).
      destruct (Hobs o Ho E2) as (f' & E & ?). exists f'. split; [congruence|done].
    - subst gate. clear -Hs. unfold aggregate, gate_status. destruct (fgt (dc_Threshold cfg) _) eqn:Et, (po_Failed _), (po_Unsound _); cbn -[exam_indication]; try done.
      destruct (exam_indication _ _ _) eqn:Ei; cbn -[exam_indication]; [done|]. intros _. split_and!; try done. }
  assert (well w') as Hw' by (unfold well; by rewrite Hr). rewrite <- Hr in Hv at 1. by apply sign_settles.
Qed.

Lemma bank_keeps r : run_ok r → run_ok (bank_timeout A r) ∧ rn_dev (bank_timeout A r) = rn_dev r ∧ rn_spec (bank_timeout A r) = rn_spec r ∧
  (dp_Scored (rn_dev r) = false → po_Scored (rn_pool (bank_timeout A r)) = false).
Proof.
  intros Hr. pose proof Hr as [_ Hd _ Hx Hp Hun Ht _]. unfold bank_timeout. destruct (String.eqb_spec (rn_mode r) WriterModePerSurvivor) as [Em|]; cbn [andb].
  2: { split_and!; try done. intros Hf. by destruct (Hun Hf). }
  destruct (po_Scored (rn_pool r)) eqn:Es; cbn [negb]; [split_and!; try done; intros Hf; by destruct (Hun Hf)|].
  unfold bankWriterProofs. destruct (ConcatAuthored A _) as [merged extra]. set (p := if 0 <? _ then _ else _).
  assert (po_Scored p = (0 <? count_seats wa_measured r) ∧ po_ProvenIDs p = map (λ a, mt_ID (wa_mutant a)) (List.filter wa_proven (seats_of r)) ∧
    po_ProvenMissed p = Z.of_nat (length (po_ProvenIDs p))) as (E1 & E2 & E3).
  { subst p. destruct (rn_pool r). cbn in *. subst. destruct (0 <? count_seats wa_measured r); by split_and!. }
  assert (po_Scored p = true → dp_Scored (rn_dev r) = true) as Hds.
  { rewrite E1. intros H%Z.ltb_lt%seats_at_work. destruct (dp_Scored _); [done|]. by destruct (Hun eq_refl). }
  clearbody p. split_and!; [|done|done|].
  - apply ok_pool; [done| |done|by auto]. rewrite Em. apply (banked_pool (rn_spec r) (rn_dev r)) with r; try done.
    rewrite E1. by destruct (0 <? count_seats wa_measured r).
  - intros E. cbn. destruct (po_Scored p); [|done]. by rewrite Hds in E.
Qed.

Lemma tick_keeps now w : well w → post (tick_run A cfg clock mid now) settled well w.
Proof.
  intros Hw. unfold tick_run. steps. destruct (rn_verdict (dw_run w)) as [v|] eqn:Ev; steps; [split; [done|by intros x [= <-]]|].
  destruct (expired cfg now (dw_run w)).
  - unfold timeoutVerdict. steps. destruct (bank_keeps _ Hw) as (Hr & Ed & Es & Hs). cbn [set_run dw_run]. set (r := bank_timeout A (dw_run w)) in *.
    set (w1 := set_run r w). assert (well w1) as Hw1 by done. match goal with |- context [sign A cfg ?v] => set (x := v) end.
    cut (post (let% v := sign A cfg x in run% put_verdict v in ret (Some v)) settled well w1); [by intros ?%post_bind|]. apply sign_settles; [done|]. apply disclose_honest; try done; [rewrite Ed; by auto|by intros ? ?%elem_of_nil].
  - steps. apply post_promote. intros w1 Hk1. assert (well w1) as Hw1 by (unfold well; by rewrite Hk1). steps.
    eapply (post_mono _ (λ _, well) _ well); [| |done].
    { destruct (dp_Scored _) eqn:Ed; [by steps|]. apply tickDev_keeps. split; [done|by rewrite Hk1]. }
    intros [] w2 Hw2. steps. eapply (post_mono _ (λ _, well) _ well); [| |done].
    { destruct (dp_Scored (rn_dev (dw_run w2))) eqn:Ed; cbn [andb]; [|by steps]. destruct (po_Scored (rn_pool (dw_run w2))) eqn:Es; cbn [negb]; [by steps|].
      by apply (tickPool_keeps (rn_spec (dw_run w2)) (rn_dev (dw_run w2)) (rn_mode (dw_run w2)) (wr_Order (rn_writer (dw_run w2)))). }
    intros [] w3 Hw3. steps. eapply (post_mono _ settled _ well); [| |done].
    { destruct (po_Scored (rn_pool (dw_run w3))) eqn:Es; [by apply aggregate_keeps|]. steps. by split. }
    intros v w4 [Hw4 Hv]. destruct v as [v|]; steps; [split; [done|by apply Hv]|]. unfold post, checkNoProgress.
    destruct (_ <=? 0); [by split|]. destruct (progressFingerprint _ _) as [fp claimed]. destruct (negb _); [by split|]. destruct (0 <? claimed); [by split|].
    destruct (_ <=? _); [done|by split].
Qed.
End Facts.

(** ** Histories *)

Section History.
Variable A : Answers.
Variable cfg : Config.
Variable clock : nat → double.

(** A run starts, a run is moved on, or the queue's other clients change it in whatever way. *)
Inductive dstep : Driver → Driver → Prop :=
| ds_start landing mid now sp sigs d : dstep d (StartRun A cfg clock landing mid now sp sigs d).2
| ds_tick mid now d : dstep d (Tick A cfg clock mid now d).2
| ds_queue q d : dstep d (mkDriver q (dr_runs d) (dr_noProgress d) (dr_last d) (dr_calls d) (dr_clock d)).

Definition all_ok (d : Driver) : Prop := ∀ mid r, dr_runs d !! mid = Some r → run_ok A cfg (rn_spec r) r.

Lemma new_run_ok sp sigs id now : run_ok A cfg (rn_spec (new_run sp sigs id now)) (new_run sp sigs id now).
Proof.
  unfold new_run. destruct (if bool_decide _ then _ else _) as [shards budget]. pose proof regions_new. split; cbn; try done.
  - split; cbn; [apply prefix_nil|by intros ? ?%elem_of_nil|done].
  - split; cbn; [done|done|apply sublist_nil_l|by intros ? ?%elem_of_nil|done].
Qed.
(** A start adds one new run, or none. *)
Lemma start_runs landing mid now sp sigs d : let d' := (StartRun A cfg clock landing mid now sp sigs d).2 in
  dr_runs d' = dr_runs d ∨ dr_runs d !! mid = None ∧ ∃ id, dr_runs d' = <[mid := new_run sp sigs id now]> (dr_runs d).
Proof.
  unfold StartRun. destruct landing; [by left|]. destruct (checkMutantSources sp); [|by left]. case_bool_decide as Hs; [by left|].
  destruct (Enqueue _ _ _ _); [|by left]. destruct (task_ids _ !! _) as [id|]; [|by left]. right. split; [by apply eq_None_not_Some|by exists id].
Qed.
(** A tick changes the one run; a verdict it returns is that run's. *)
Lemma tick_runs mid now d r : dr_runs d !! mid = Some r → let w := mkDW (dr_q d) r (default 0 (dr_noProgress d !! mid)) (default "" (dr_last d !! mid)) (dr_calls d) (dr_clock d) in
  Tick A cfg clock mid now d = let '(res, w) := tick_run A cfg clock mid now w in
    (res, mkDriver (dw_q w) (<[mid := dw_run w]> (dr_runs d)) (<[mid := dw_noProgress w]> (dr_noProgress d)) (<[mid := dw_last w]> (dr_last d)) (dw_calls w) (dw_clock w)).
Proof. intros E. unfold Tick. by rewrite E. Qed.
Lemma tick_ok mid now d r : dr_runs d !! mid = Some r → run_ok A cfg (rn_spec r) r → let '(res, d') := Tick A cfg clock mid now d in
  ∃ r', dr_runs d' = <[mid := r']> (dr_runs d) ∧ run_ok A cfg (rn_spec r) r' ∧ ∀ v, res = Ok (Some v) → rn_verdict r' = Some v.
Proof.
  intros Er Hr. rewrite (tick_runs _ _ _ _ Er). cbv zeta. set (w := mkDW _ _ _ _ _ _). pose proof (tick_keeps A cfg clock (rn_spec r) mid now w Hr) as H.
  unfold post in H. destruct (tick_run _ _ _ _ _ _) as [res w']. exists (dw_run w'). split; [done|]. destruct res as [v|e]; [|done]. destruct H as [? H]. split; [done|].
  intros v' [= ->]. by apply H.
Qed.
Lemma step_ok d d' : dstep d d' → all_ok d → all_ok d'.
Proof.
  intros [landing mid now sp sigs d0|mid now d0|q d0] Hd k r.
  - destruct (start_runs landing mid now sp sigs d0) as [-> |(_ & id & ->)]; [apply Hd|]. intros [[<- <-]|[_ E]]%lookup_insert_Some; [apply new_run_ok|by eapply Hd].
  - destruct (dr_runs d0 !! mid) as [r0|] eqn:E0; [|unfold Tick; rewrite E0; apply Hd]. pose proof (tick_ok mid now d0 r0 E0 (Hd _ _ E0)) as H.
    destruct (Tick _ _ _ _ _ _) as [res d2]. destruct H as (r' & Er & Hr & _). cbn. rewrite Er. intros [[<- <-]|[_ E]]%lookup_insert_Some; [by rewrite (ro_spec _ _ _ _ Hr)|by eapply Hd].
  - apply Hd.
Qed.
Lemma history_ok d0 d : dr_runs d0 = ∅ → rtc dstep d0 d → all_ok d.
Proof.
  intros E H. assert (all_ok d0) as Hd by (intros k r; by rewrite E, lookup_empty). clear E. induction H as [|d0 d1 d Hs _ IH]; [done|]. apply IH. by eapply step_ok.
Qed.

(** The run of a mission that has its verdict. *)
Definition done_with (mid : Z) (v : PoolVerdict) (d : Driver) : Prop := ∃ r, dr_runs d !! mid = Some r ∧ rn_verdict r = Some v.
Lemma done_ticks mid now v d : done_with mid v d → (Tick A cfg clock mid now d).1 = Ok (Some v) ∧ dr_runs (Tick A cfg clock mid now d).2 = dr_runs d ∧ dr_q (Tick A cfg clock mid now d).2 = dr_q d.
Proof.
  intros (r & Er & Ev). rewrite (tick_runs _ _ _ _ Er). unfold tick_run, run_, gets, bind. cbn [dw_run]. rewrite Ev. cbn. split_and!; [done|by rewrite insert_id|done].
Qed.
Lemma done_step mid v d d' : dstep d d' → done_with mid v d → done_with mid v d'.
Proof.
  intros [landing mid' now sp sigs d0|mid' now d0|q d0] Hdone; [| |done].
  - destruct Hdone as (r & Er & Ev). exists r. split; [|done]. destruct (start_runs landing mid' now sp sigs d0) as [-> |(En & id & ->)]; [done|].
    rewrite lookup_insert_ne; [done|]. intros ->. by rewrite Er in En.
  - destruct (decide (mid' = mid)) as [->|Hne].
    + destruct (done_ticks mid now v d0 Hdone) as (_ & E & _). destruct Hdone as (r & Er & Ev). exists r. by rewrite E.
    + destruct Hdone as (r & Er & Ev). exists r. split; [|done]. destruct (dr_runs d0 !! mid') as [r0|] eqn:E0; [|unfold Tick; by rewrite E0].
      rewrite (tick_runs _ _ _ _ E0). destruct (tick_run _ _ _ _ _ _) as [res w']. cbn. by rewrite lookup_insert_ne.
Qed.

Section Reached.
Variables (d0 d : Driver).
Hypothesis none : dr_runs d0 = ∅.
Hypothesis reached : rtc dstep d0 d.

(** C1. A verdict means what it says, whatever else happened to the queue and whatever the models, the compilers and the graders
    answered. If the developer's tests were graded, its score, its mutants killed and survived, its exam and its counts are those of one grading of them; each
    mutant it calls proven is a survivor of it, on which an authored test was graded in earnest and which that
    test killed (the published test, when there is one writer for all; when tests of it that fail on the code as it is were left out, one that the developer's tests do not
    kill under the same command); each finding it calls refuted was refuted by running the test alone. If they were never graded, the verdict says that it is out of time, its score and counts
    are zero, and it lists no mutant, no proof and no refuted finding. A verdict out of time
    is never certified. A certified one is of tests that were graded, with a score not below the threshold, an exam that is a grade, a writer that
    neither failed nor was unsound, and some authored test graded in earnest unless nothing survived. *)
Theorem verdict_honest mid now v d' : Tick A cfg clock mid now d = (Ok (Some v), d') → ∃ r, dr_runs d !! mid = Some r ∧ honest A cfg (rn_spec r) v.
Proof.
  intros E. destruct (dr_runs d !! mid) as [r|] eqn:Er; [|unfold Tick in E; by rewrite Er in E]. exists r. split; [done|].
  pose proof (history_ok _ _ none reached _ _ Er) as Hr. pose proof (tick_ok mid now d r Er Hr) as H. rewrite E in H. destruct H as (r' & _ & Hr' & Hv).
  rewrite <- (ro_spec _ _ _ _ Hr'). eapply ro_verdict; [done|by apply Hv].
Qed.

(** C5. A verdict is final: once a tick has returned one for a mission, no start, no tick of any mission and no change of the queue
    changes it, and every later tick of the mission returns it and touches neither the runs nor the queue. *)
Theorem verdict_final mid now v d' later now' : Tick A cfg clock mid now d = (Ok (Some v), d') → rtc dstep d' later →
  (Tick A cfg clock mid now' later).1 = Ok (Some v) ∧ dr_runs (Tick A cfg clock mid now' later).2 = dr_runs later ∧ dr_q (Tick A cfg clock mid now' later).2 = dr_q later.
Proof.
  intros E Hl. apply done_ticks. assert (done_with mid v d') as Hdone.
  { destruct (dr_runs d !! mid) as [r|] eqn:Er; [|unfold Tick in E; by rewrite Er in E].
    pose proof (tick_ok mid now d r Er (history_ok _ _ none reached _ _ Er)) as H. rewrite E in H. destruct H as (r' & Er' & _ & Hv). exists r'. rewrite Er', lookup_insert_eq. auto. }
  clear E. induction Hl as [|d1 d2 d3 Hs _ IH]; [done|]. apply IH. by eapply done_step.
Qed.
End Reached.

(** C4. A run past its deadline ends: the next tick gives it a verdict that says so and is not certified, whatever the queue holds, unless the
    signer refuses it; and it neither waits for, asks nor enqueues anything else. *)
Theorem deadline_ends mid now d r : dr_runs d !! mid = Some r → rn_verdict r = None → expired cfg now r = true →
  let '(res, d') := Tick A cfg clock mid now d in
  dr_q d' = dr_q d ∧ dr_calls d' = (if dc_Signer cfg then S (dr_calls d) else dr_calls d) ∧
  ((∃ v, res = Ok (Some v) ∧ vr_TimedOut v = true ∧ vr_Status v = StatusNeedsReview) ∨ dc_Signer cfg = true ∧ ∃ why, res = Err (SignFailed why)).
Proof.
  intros Er Ev Ex. rewrite (tick_runs _ _ _ _ Er). unfold tick_run, run_, gets, bind. cbn [dw_run]. rewrite Ev, Ex. unfold timeoutVerdict, run_, gets, modify, bind, ret. cbn [set_run dw_run].
  unfold sign, ask, ret, put_verdict, modify, bind, raise. destruct (dc_Signer cfg); [|cbn; split_and!; try done; left; by eexists].
  destruct (an_SignVerdict _ _ _) as [[id head]|why]; cbn; (split_and!; [done|done|]); [left; eexists; by split_and!|right; split; [done|by exists why]].
Qed.
End History.

(** ** With a scorer that accounts for every mutant *)

(** What the scorer promises the driver: its report counts each mutant of the exam once, or none of them. *)
Class AccountsForAll (score : nat → list Mutant → result string Report) : Prop := accounts n ms rep : score n ms = Ok rep →
  rp_Total rep = Z.of_nat (length (rp_Killed rep) + length (rp_Survived rep)) ∧
  Forall (λ ids, ids `sublist_of` map mt_ID ms) [rp_Killed rep; rp_Survived rep; rp_Invalid rep; rp_Unmeasured rep] ∧
  if rp_CompliantPass rep && (rp_CanaryKilled rep || bool_decide (ms = []))
  then rp_Killed rep ++ rp_Survived rep ++ rp_Invalid rep ++ rp_Unmeasured rep ≡ₚ map mt_ID ms
  else rp_Killed rep ++ rp_Survived rep ++ rp_Invalid rep ++ rp_Unmeasured rep = [] ∧ KillRate rep = of_int 0.

Lemma by_id_fold ms (acc : gmap string Mutant) id : id ∈ map mt_ID ms ∨ (∃ m, acc !! id = Some m ∧ mt_ID m = id) →
  ∃ m, foldl (λ acc m, <[mt_ID m := m]> acc) acc ms !! id = Some m ∧ mt_ID m = id.
Proof.
  revert acc. induction ms as [|m ms IH]; intros acc H; cbn; [destruct H as [H|H]; [by apply elem_of_nil in H|done]|].
  apply IH. destruct (decide (mt_ID m = id)) as [E|E]; [right; exists m; by rewrite <- E, lookup_insert_eq|].
  destruct H as [[H|H]%elem_of_cons|(m' & ? & ?)]; [congruence|by left|right; exists m'; by rewrite lookup_insert_ne].
Qed.
(** The mutants of ids that are the exam's, in the ids' order. *)
Lemma named_ids (ids : list string) ms : ids ⊆ map mt_ID ms → map mt_ID (omap (λ id, by_id ms !! id) ids) = ids.
Proof.
  induction ids as [|id ids IH]; intros H; [done|]. cbn. destruct (by_id_fold ms ∅ id) as (m & E & Em); [left; apply H; left|]. unfold by_id. rewrite E. cbn. rewrite Em. f_equal.
  apply IH. intros x Hx. apply H. by right.
Qed.
Lemma sublist_incl {X} (l k : list X) : l `sublist_of` k → l ⊆ k.
Proof. intros H x Hx. by eapply elem_of_sublist. Qed.

Section Sums.
Variables (A : Answers) (cfg : Config) (clock : nat → double).
Context {fair : AccountsForAll (an_ScoreDev A)}.

(** C2. The figures of a verdict add up: with a scorer that accounts for every mutant, the verdict of an exam that was graded lists as many
    mutants killed and survived as it says were measured, each of them by an id of the exam and, if the exam's ids are distinct, none in both lists or proven and killed; its score is the
    quotient of the two counts. An exam that was not graded, because the developer's tests failed on the code as it is or passed on source that cannot compile, lists nothing,
    and its score is zero. *)
Theorem verdict_adds_up d0 d mid now v d' : dr_runs d0 = ∅ → rtc (dstep A cfg clock) d0 d → Tick A cfg clock mid now d = (Ok (Some v), d') → vd_DevScored (vr_gate v) = true →
  let killed := map mr_ID (vr_DevKilledMutants v) in let survived := map mr_ID (vr_DevSurvivedMutants v) in
  ∃ n ms rep, an_ScoreDev A n ms = Ok rep ∧ killed ⊆ map mt_ID ms ∧ survived ⊆ map mt_ID ms ∧ (NoDup (map mt_ID ms) → NoDup (killed ++ survived)) ∧
  (NoDup (map mt_ID ms) → ∀ id, id ∈ vr_ProvenMutantIDs v → id ∈ survived ∧ id ∉ killed) ∧
  if vr_BaselineFailed v || vr_SuiteIgnoresFile v && negb (bool_decide (ms = []))
  then killed ++ survived = [] ∧ vd_DevKillRate (vr_gate v) = of_int 0
  else vd_MutantsTotal (vr_gate v) = Z.of_nat (length killed + length survived) ∧
    vd_DevKillRate (vr_gate v) = if vd_MutantsTotal (vr_gate v) =? 0 then of_int 0 else fdiv (of_int (Z.of_nat (length killed))) (of_int (vd_MutantsTotal (vr_gate v))).
Proof.
  intros E0 Hr Et Es killed survived. pose proof (history_ok _ _ _ _ _ E0 Hr) as Hok.
  destruct (dr_runs d !! mid) as [r|] eqn:Er; [|unfold Tick in Et; by rewrite Er in Et]. pose proof (tick_ok _ _ clock mid now d r Er (Hok _ _ Er)) as H.
  rewrite Et in H. destruct H as (r' & _ & Hr' & Hv). pose proof (ro_verdict _ _ _ _ Hr' v (Hv _ eq_refl)) as [Hg _ _ [_ Hpr] _ _].
  destruct (Hg Es) as (n & ms & rep & Ea & Erate & _ & Ek & Esv & Einv & Eun & Etot & Eb & Esi & _). exists n, ms, rep. split; [done|].
  destruct (accounts _ _ _ Ea) as (Htot & Hsub & Hsum). rewrite !Forall_cons in Hsub. destruct Hsub as (Hsk & Hss & _ & _ & _).
  assert (killed = rp_Killed rep) as -> by (subst killed; rewrite Ek, refs_ids; by apply named_ids, sublist_incl).
  assert (survived = rp_Survived rep) as E by (subst survived; rewrite Esv, refs_ids; by apply named_ids, sublist_incl).
  fold survived in Hpr. clearbody survived. subst survived.
  assert (NoDup (map mt_ID ms) → NoDup (rp_Killed rep ++ rp_Survived rep)) as Hnd.
  { intros Hn. revert Hsum. destruct (rp_CompliantPass rep && (_ || _)); [|by intros [[-> [-> _]%app_eq_nil]%app_eq_nil _]; constructor]. intros Hsum.
    rewrite <- Hsum, (assoc_L (++)), NoDup_app in Hn. by destruct Hn. }
  split; [by apply sublist_incl|]. split; [by apply sublist_incl|]. split; [done|]. split.
  { intros Hn id Hid. apply (sublist_incl _ _ Hpr) in Hid. split; [done|]. intros Hk. apply Hnd, NoDup_app in Hn as (_ & Hd & _). by apply (Hd id). }
  rewrite Erate, Eb, Esi. assert (negb (rp_CompliantPass rep) || rp_CompliantPass rep && negb (rp_CanaryKilled rep) && negb (bool_decide (ms = [])) =
    negb (rp_CompliantPass rep && (rp_CanaryKilled rep || bool_decide (ms = [])))) as -> by (by destruct (rp_CompliantPass rep), (rp_CanaryKilled rep), (bool_decide (ms = []))).
  destruct (rp_CompliantPass rep && (_ || _)) eqn:Eg; cbn [negb]; [|by destruct Hsum as [[-> [-> _]%app_eq_nil]%app_eq_nil ->]].
  assert (vd_MutantsTotal (vr_gate v) = rp_Total rep) as ->.
  { apply Permutation_length in Hsum. rewrite !length_app, length_map in Hsum. rewrite Etot, Einv, Eun. lia. }
  split; [lia|]. unfold KillRate. destruct (Z.eqb_spec (rp_Total rep) 0) as [|Hne]; [done|]. apply andb_prop in Eg as [_ Eg].
  destruct (rp_CanaryKilled rep); [done|]. apply bool_decide_eq_true in Eg as ->. apply sublist_nil_r in Hsk, Hss. by rewrite Hsk, Hss in Htot.
Qed.
End Sums.
