(* ===== verification/DriverCosts.v ===== *)
(** * What a run of the pool costs: how often its driver sends work back

    A run of the driver is a history of events: starts, ticks, and whatever the queue's other clients do between them. What it costs is read off
    the queue, before and after each tick: the settled tasks the tick opened again ([opened_again]), and the tasks it added ([issued]). Each of the two is paid for by a
    count the run keeps ([paid]), and the counts are capped, so the costs are bounded over any history ([retries_bounded]). *)
From S2P Require Import Prelude GoLib GoText Float64 Queue QueueFacts Crypto TestMap Invocations Mutant Jail Score ScoreFacts Adequacy Verdict Shell Rows Shards Seats Driver DriverFacts.
Local Open Scope string_scope.
Local Open Scope list_scope.
Local Open Scope Z_scope.
Local Open Scope corral_scope.

(** ** What changed in a queue *)

(** A row of the mission with the key that was settled and is open. *)
Definition revived (mid : Z) (key : string) (t t' : Task) : bool :=
  in_mission mid t && String.eqb (tk_Key t) key && negb (open_status (tk_Status t)) && open_status (tk_Status t').
(** Rows are never deleted by the driver: the rows of before are the first ones of after. *)
Fixpoint revivals (mid : Z) (key : string) (ts ts' : list Task) : nat :=
  match ts, ts' with
  | t :: ts, t' :: ts' => (if revived mid key t t' then 1 else 0) + revivals mid key ts ts'
  | _, _ => 0
  end.
Definition opened_again (mid : Z) (key : string) (q q' : Store) : nat := revivals mid key (st_tasks q) (st_tasks q').
Definition issued (q q' : Store) : nat := length (st_tasks q') - length (st_tasks q).

Definition same_row (t t' : Task) : Prop := tk_ID t' = tk_ID t ∧ tk_MissionID t' = tk_MissionID t ∧ tk_Key t' = tk_Key t.
Fixpoint extends (ts ts' : list Task) : Prop :=
  match ts, ts' with
  | [], _ => True
  | t :: ts, t' :: ts' => same_row t t' ∧ extends ts ts'
  | _ :: _, [] => False
  end.
Lemma extends_refl ts : extends ts ts.
Proof. by induction ts. Qed.
Lemma extends_trans l0 : ∀ l1 l2, extends l0 l1 → extends l1 l2 → extends l0 l2.
Proof.
  induction l0 as [|t0 l0 IH]; intros [|t1 l1] [|t2 l2]; cbn; try done. intros [(? & ? & ?) ?] [(? & ? & ?) ?]. split; [|by eapply IH].
  split_and!; congruence.
Qed.
Lemma extends_length ts : ∀ ts', extends ts ts' → (length ts <= length ts')%nat.
Proof. induction ts as [|t ts IH]; intros [|t' ts']; cbn; try done; [lia|]. intros [_ H]. specialize (IH _ H). lia. Qed.
(** What is open at the end and was settled at the beginning became so in one part or the other. *)
Lemma revivals_trans mid key l0 : ∀ l1 l2, extends l0 l1 → extends l1 l2 →
  (revivals mid key l0 l2 <= revivals mid key l0 l1 + revivals mid key l1 l2)%nat.
Proof.
  induction l0 as [|t0 l0 IH]; intros [|t1 l1] [|t2 l2]; try (cbn; first [done|lia]). intros [(_ & Em & Ek) H0] [_ H1]. specialize (IH _ _ H0 H1).
  assert (revived mid key t0 t2 = true → revived mid key t0 t1 = true ∨ revived mid key t1 t2 = true) as H.
  { unfold revived. assert (in_mission mid t1 = in_mission mid t0) as -> by (unfold in_mission; by rewrite Em). rewrite Ek.
    destruct (in_mission mid t0), (String.eqb _ _), (open_status (tk_Status t0)), (open_status (tk_Status t1)), (open_status (tk_Status t2)); cbn; tauto. }
  cbn [revivals]. destruct (revived mid key t0 t2), (revived mid key t0 t1), (revived mid key t1 t2); first [lia|by destruct (H eq_refl)].
Qed.

(** A change that opens nothing. *)
Definition quiet (ts ts' : list Task) : Prop := extends ts ts' ∧ ∀ mid key, revivals mid key ts ts' = 0%nat.
Lemma quiet_trans l0 l1 l2 : quiet l0 l1 → quiet l1 l2 → quiet l0 l2.
Proof.
  intros [E0 R0] [E1 R1]. split; [by eapply extends_trans|]. intros mid key. pose proof (revivals_trans mid key _ _ _ E0 E1) as H. rewrite R0, R1 in H. lia.
Qed.
Lemma unrevived mid key t : revived mid key t t = false.
Proof. unfold revived. by destruct (in_mission mid t), (String.eqb _ _), (open_status _). Qed.
Lemma quiet_refl ts : quiet ts ts.
Proof. split; [apply extends_refl|]. intros mid key. induction ts as [|t ts IH]; cbn; [done|]. by rewrite unrevived, IH. Qed.
Lemma quiet_app ts new : quiet ts (ts ++ new).
Proof.
  split; [by induction ts|]. intros mid key. induction ts as [|t ts IH]; cbn; [done|]. by rewrite unrevived, IH.
Qed.
Lemma quiet_update (p : Task → bool) f ts : (∀ t, p t = true → same_row t (f t) ∧ (open_status (tk_Status (f t)) = true → open_status (tk_Status t) = true)) →
  quiet ts (update_where p f ts).
Proof.
  intros H. assert (∀ t, let t' := if p t then f t else t in same_row t t' ∧ ∀ mid key, revived mid key t t' = false) as Hr.
  { intros t. cbv zeta. destruct (p t) eqn:E; [|by split; [|intros; apply unrevived]]. destruct (H t E) as [Hs Ho]. split; [done|]. intros mid key. unfold revived.
    destruct (open_status (tk_Status (f t))); [by rewrite Ho, !andb_false_r|by rewrite andb_false_r]. }
  unfold update_where. split; [induction ts as [|t ts IH]; [done|]; split; [by apply Hr|done]|]. intros mid key. induction ts as [|t ts IH]; [done|]. cbn. destruct (Hr t) as [_ Ht]. by rewrite Ht, IH.
Qed.
Lemma quiet_foldl {B} (step : list Task → B → list Task) bs : (∀ ts b, quiet ts (step ts b)) → ∀ ts, quiet ts (foldl step ts bs).
Proof. intros H. induction bs as [|b bs IH]; intros ts; [apply quiet_refl|]. cbn. eapply quiet_trans; [apply H|apply IH]. Qed.

(** The calls of the queue the driver makes. *)
Lemma quiet_promote m q : quiet (st_tasks q) (st_tasks (PromoteReady m q).2).
Proof.
  unfold PromoteReady. rewrite promote_loop. apply quiet_update. intros t [_ Hp%has_status_eq]%andb_prop. split; [done|]. by rewrite Hp.
Qed.
Lemma quiet_cancel id q : quiet (st_tasks q) (st_tasks (CancelTask id q).2).
Proof. by apply quiet_update. Qed.
Lemma insert_all_extra m specs now : ∀ i ts ts', insert_all m specs now i ts = Some ts' → ∃ new, ts' = ts ++ new ∧ length new = length specs.
Proof.
  induction specs as [|sp rest IH]; intros i ts ts'; cbn; [intros [= <-]; exists []; by rewrite app_nil_r|]. unfold insert_task. destruct (taken _ _ _); [done|].
  intros (new & -> & E)%IH. eexists (_ :: new). split; [by rewrite <- app_assoc|]. cbn. by rewrite E.
Qed.
Lemma quiet_enqueue m specs now q q' : Enqueue m specs now q = Ok q' →
  quiet (st_tasks q) (st_tasks q') ∧ length (st_tasks q') = (length specs + length (st_tasks q))%nat ∧ (wf q → wf q').
Proof.
  unfold Enqueue. destruct (insert_all _ _ _ _ _) as [ts|] eqn:E; [|done]. intros [= <-]. cbn. pose proof (wf_insert_all _ _ _ _ _ _ E).
  apply insert_all_extra in E as (new & -> & E). split_and!; [apply quiet_app|rewrite length_app; lia|done].
Qed.
Lemma quiet_rewrites old key ds ts : quiet ts (foldl (rewrite_one old key) ts ds) ∧ length (foldl (rewrite_one old key) ts ds) = length ts.
Proof.
  split; [apply quiet_foldl; intros; by apply quiet_update|]. revert ts. induction ds as [|x ds IH]; intros ts; [done|]. cbn. rewrite IH. apply length_map.
Qed.
Lemma quiet_supersede id spec now q n q' : SupersedeTask id spec now q = Ok (n, q') →
  quiet (st_tasks q) (st_tasks q') ∧ length (st_tasks q') = S (length (st_tasks q)) ∧ (wf q → wf q').
Proof.
  intros E. split; [|split].
  - revert E. unfold SupersedeTask. destruct (TaskByID _ _); [|done]. destruct (uniqueKeyTx _ _ _); [|done]. unfold insert_task. destruct (taken _ _ _); [done|]. intros [= _ <-].
    eapply quiet_trans; [|apply quiet_rewrites]. eapply quiet_trans; [|apply quiet_app]. by apply quiet_update.
  - revert E. unfold SupersedeTask. destruct (TaskByID _ _); [|done]. destruct (uniqueKeyTx _ _ _); [|done]. unfold insert_task. destruct (taken _ _ _); [done|]. intros [= _ <-].
    cbn [st_tasks with_tasks]. rewrite (proj2 (quiet_rewrites _ _ _ _)), length_app. unfold update_where. rewrite length_map. cbn. lia.
  - intros Hw. pose proof (wf_op (OpSupersede id spec now) q Hw) as H. cbn in H. by rewrite E in H.
Qed.

(** Opening a task again revives its row and no other. *)
Lemma revivals_same mid key ts : revivals mid key ts ts = 0%nat.
Proof. apply quiet_refl. Qed.
Lemma reopen_misses id ts : id ∉ map tk_ID ts → update_where (reopenable id) set_reopened ts = ts.
Proof.
  intros Hn. apply update_where_none. intros y Hy. unfold reopenable. destruct (has_id id y) eqn:Ey; [|done]. apply has_id_eq in Ey as <-.
  by destruct Hn; apply list_elem_of_fmap_2.
Qed.
Lemma reopen_costs mid key q t : wf q → t ∈ st_tasks q →
  extends (st_tasks q) (st_tasks (ReopenTask (tk_ID t) q).2) ∧ (opened_again mid key q (ReopenTask (tk_ID t) q).2 <= if decide (key = tk_Key t) then 1 else 0)%nat.
Proof.
  intros Hw Ht. unfold opened_again, ReopenTask. cbn [snd st_tasks with_tasks]. apply NoDup_ids in Hw. set (ts := st_tasks q) in *. clearbody ts.
  split; [clear; induction ts as [|x ts IH]; [done|]; split; [by destruct (reopenable _ x)|done]|]. induction ts as [|x ts IH]; [by apply elem_of_nil in Ht|].
  cbn [map] in Hw. apply NoDup_cons in Hw as [Hx Hw]. cbn [update_where map revivals].
  destruct (reopenable (tk_ID t) x) eqn:Er.
  - unfold reopenable in Er. apply andb_prop in Er as [Ei%has_id_eq _]. assert (x = t) as ->.
    { apply elem_of_cons in Ht as [->|Ht]; [done|]. exfalso. apply Hx. rewrite Ei. by apply list_elem_of_fmap_2. }
    pose proof (reopen_misses _ _ Hx) as E.
    unfold update_where in E. rewrite E, revivals_same. unfold revived. destruct (decide _) as [->|Hne]; [destruct (_ && _); lia|].
    destruct (String.eqb_spec (tk_Key t) key); [congruence|]. rewrite andb_false_r. cbn. lia.
  - rewrite unrevived. apply elem_of_cons in Ht as [->|Ht]; [|by apply IH]. pose proof (reopen_misses _ _ Hx) as E. unfold update_where in E. rewrite E, revivals_same.
    by destruct (decide _); lia.
Qed.

(** ** What pays for it *)

(** The generator results of a key that were sent back, and the repairs of a writer, as far as they are retried. *)
Definition tried (key : string) (r : runState) : nat := Nat.min (Z.to_nat MaxShardRetries) (Z.to_nat (retries (rn_regions r) key)).
Definition mended (n : Z) : nat := Nat.min (Z.to_nat (MaxTestWriterAttempts - 1)) (Z.to_nat n).
Definition per_survivor (r : runState) : bool := String.eqb (rn_mode r) WriterModePerSurvivor.
(** The first tests asked for, and those of the one writer sent back. *)
Definition first_tests (r : runState) : nat :=
  if dp_Scored (rn_dev r) then if per_survivor r then length (dp_Survivors (rn_dev r)) else S (mended (wr_Tries (rn_writer r))) else 0.
(** The tests of the survivors' writers that were sent back. *)
Definition mends (x : Writer) : nat := sum_list_with (λ id, mended (wa_repairs (seat_of id x))) (remove_dups (wr_Order x)).
Definition tests (r : runState) : nat := first_tests r + if per_survivor r then mends (rn_writer r) else 0.

Section Paid.
Variable mid : Z.
Variable w0 : DW.

(** Since [w0] the queue cost no more than what the run counted, and [c] less tasks than the count [budget] allows. *)
Record paid_by (budget : runState → nat) (c : Z) (w : DW) : Prop := {
  pd_wf : wf (dw_q w);
  pd_rows : extends (st_tasks (dw_q w0)) (st_tasks (dw_q w));
  pd_reopened : ∀ key, (opened_again mid key (dw_q w0) (dw_q w) + tried key (dw_run w0) <= tried key (dw_run w))%nat;
  pd_issued : Z.of_nat (length (st_tasks (dw_q w)) + tests (dw_run w0)) + c <= Z.of_nat (length (st_tasks (dw_q w0)) + budget (dw_run w)) }.
Definition paid : Z → DW → Prop := paid_by tests.

Lemma paid_less budget c c' w : c' <= c → paid_by budget c w → paid_by budget c' w.
Proof. intros Hc []. split; try done. lia. Qed.
Lemma paid_first c w : paid_by first_tests c w → paid c w.
Proof. intros []. split; try done. unfold tests at 2. lia. Qed.
(** Another state with the same queue. *)
Lemma paid_run budget budget' c c' w w' : dw_q w' = dw_q w → (∀ key, (tried key (dw_run w) <= tried key (dw_run w'))%nat) →
  c' + Z.of_nat (budget (dw_run w)) <= c + Z.of_nat (budget' (dw_run w')) → paid_by budget c w → paid_by budget' c' w'.
Proof. intros Eq Ht Hc [Hw Hr Ho Hi]. split; rewrite ?Eq; try done; [|lia]. intros key. specialize (Ho key). specialize (Ht key). lia. Qed.
Lemma paid_same budget c w w' : dw_q w' = dw_q w → dw_run w' = dw_run w → paid_by budget c w → paid_by budget c w'.
Proof. intros Eq Er. apply paid_run; [done|by rewrite Er|by rewrite Er]. Qed.
(** A change of the queue that opens nothing. *)
Lemma paid_quiet budget c c' w w' : quiet (st_tasks (dw_q w)) (st_tasks (dw_q w')) → wf (dw_q w') → dw_run w' = dw_run w →
  c' + Z.of_nat (length (st_tasks (dw_q w'))) <= c + Z.of_nat (length (st_tasks (dw_q w))) → paid_by budget c w → paid_by budget c' w'.
Proof.
  intros [Hx Hq] Hw' Er Hl [Hw Hr Ho Hi]. split; [done|by eapply extends_trans| |rewrite Er; lia]. intros key. rewrite Er. specialize (Ho key).
  pose proof (revivals_trans mid key _ _ _ Hr Hx) as H. rewrite Hq in H. unfold opened_again in *. lia.
Qed.

(** *** The steps *)

Variable A : Answers.
Variable cfg : Config.
Variable clock : nat → double.

Lemma pays_promote m budget c (Q : () → DW → Prop) E w : paid_by budget c w → (∀ w', kept w w' → paid_by budget c w' → Q () w') → post (promote m) Q E w.
Proof.
  intros Hp H. apply post_modify. apply H; [done|]. eapply (paid_quiet _ c); [apply quiet_promote|apply (wf_op (OpPromote m)); by destruct Hp|done| |exact Hp].
  cbn [dw_q set_q]. unfold PromoteReady. rewrite promote_loop. cbn. unfold update_where. rewrite length_map. lia.
Qed.
Lemma pays_supersede id spec budget c (Q : Z → DW → Prop) (E : DW → Prop) w : paid_by budget c w → (∀ n w', kept w w' → paid_by budget (c - 1) w' → Q n w') → E w →
  post (supersede clock id spec) Q E w.
Proof.
  intros Hp H He. unfold post, supersede. destruct (SupersedeTask _ _ _ _) as [[n q]|e] eqn:Es; [|done]. apply quiet_supersede in Es as (Hq & Hl & Hw).
  apply H; [done|]. eapply (paid_quiet _ c); [exact Hq|apply Hw; by destruct Hp|done| |exact Hp]. cbn. lia.
Qed.
Lemma pays_enqueue m specs budget c (Q : () → DW → Prop) (E : DW → Prop) w : paid_by budget c w →
  (∀ w', kept w w' → paid_by budget (c - Z.of_nat (length specs)) w' → Q () w') → E w → post (enqueue clock m specs) Q E w.
Proof.
  intros Hp H He. unfold post, enqueue. destruct (Enqueue _ _ _ _) as [q|e] eqn:Es; [|done]. apply quiet_enqueue in Es as (Hq & Hl & Hw).
  apply H; [done|]. eapply (paid_quiet _ c); [exact Hq|apply Hw; by destruct Hp|done| |exact Hp]. cbn. lia.
Qed.
Lemma post_conj {X} (m : M X) (Q Q' : X → DW → Prop) (E E' : DW → Prop) w : post m Q E w → post m Q' E' w → post m (λ x w, Q x w ∧ Q' x w) (λ w, E w ∧ E' w) w.
Proof. unfold post. destruct (m w) as [[x|e] w']; auto. Qed.

(** A change of the run that its budgets do not see. *)
Definition same_count (r r' : runState) : Prop := rn_regions r' = rn_regions r ∧ rn_dev r' = rn_dev r ∧ rn_mode r' = rn_mode r ∧ rn_writer r' = rn_writer r.
Lemma tests_same r r' : same_count r r' → tests r' = tests r.
Proof. intros (_ & Ed & Em & Ew). unfold tests, first_tests, per_survivor. by rewrite Ed, Em, Ew. Qed.
Lemma paid_count c w w' : dw_q w' = dw_q w → same_count (dw_run w) (dw_run w') → paid c w → paid c w'.
Proof. intros Eq Hs. apply paid_run; [done| |by rewrite (tests_same _ _ Hs)]. destruct Hs as (Er & _). intros key. unfold tried. by rewrite Er. Qed.
Lemma paid_pool c p w : paid c w → paid c (set_run (with_pool p (dw_run w)) w).
Proof. by apply paid_count. Qed.

(** *** The dev pass *)

Variable sp0 : Spec.
Local Abbreviation idle := (idle A cfg sp0).

(** A generator's task is opened again after a retry is counted. *)
Lemma tried_count key key' r : 0 <= retries (rn_regions r) key → (tried key' r <= tried key' (with_regions (count_retry key (rn_regions r)) r))%nat ∧
  (retries (rn_regions r) key + 1 <= MaxShardRetries → ((if decide (key' = key) then 1 else 0) + tried key' r = tried key' (with_regions (count_retry key (rn_regions r)) r))%nat).
Proof.
  intros H0. unfold tried. cbn [rn_regions with_regions]. rewrite retries_count. unfold MaxShardRetries. destruct (decide (key' = key)) as [->|Hne].
  - rewrite bool_decide_eq_true_2 by done. lia.
  - rewrite bool_decide_eq_false_2 by done. lia.
Qed.
Lemma pays_reopen t c w key : wf (dw_q w) → t ∈ st_tasks (dw_q w) → 0 <= retries (rn_regions (dw_run w)) (tk_Key t) → retries (rn_regions (dw_run w)) (tk_Key t) + 1 <= MaxShardRetries →
  key = tk_Key t → paid c w → paid c (set_q (ReopenTask (tk_ID t) (dw_q w)).2 (set_run (with_regions (count_retry key (rn_regions (dw_run w))) (dw_run w)) w)).
Proof.
  intros Hw Ht H0 Hle -> [_ Hr Ho Hi]. destruct (reopen_costs mid (tk_Key t) (dw_q w) t Hw Ht) as [Hx _]. split; cbn [dw_q dw_run set_q set_run].
  - apply (wf_op (OpReopen (tk_ID t)) (dw_q w) Hw).
  - by eapply extends_trans.
  - intros key. destruct (tried_count (tk_Key t) key (dw_run w) H0) as [_ Hc]. specialize (Hc Hle). destruct (reopen_costs mid key (dw_q w) t Hw Ht) as [_ Hk].
    pose proof (revivals_trans mid key _ _ _ Hr Hx) as H. specialize (Ho key). unfold opened_again in *. cbn [snd st_tasks with_tasks] in *. lia.
  - unfold ReopenTask. cbn [snd st_tasks with_tasks]. unfold update_where. rewrite length_map. exact Hi.
Qed.

Lemma pays_gather_one acc t w : paid 0 w → idle w → t ∈ st_tasks (dw_q w) →
  post (gather_one A acc t) (λ _ w', paid 0 w' ∧ dw_q w' = dw_q w) (paid 0) w.
Proof.
  intros Hp [Hr _] Ht. unfold gather_one. steps. case_bool_decide; [by steps|]. destruct (an_ParseMutants A _ _) as [parsed|why]; [by steps|]. steps.
  destruct (go_retries _ (ro_regions _ _ _ _ Hr) (tk_Key t)) as [[H0 _] _]. assert (∀ g, (∀ key, retries g key = retries (count_retry (tk_Key t) (rn_regions (dw_run w))) key) →
    paid 0 (set_run (with_regions g (dw_run w)) w)) as Hg.
  { intros g Eg. apply (paid_run tests tests 0 0 w); [done| |done|exact Hp]. intros key. destruct (tried_count (tk_Key t) key (dw_run w) H0) as [Hc _]. unfold tried in *. cbn [rn_regions with_regions dw_run set_run] in *. by rewrite Eg. }
  destruct (Z.leb_spec (retries (rn_regions (dw_run w)) (tk_Key t) + 1) MaxShardRetries); steps.
  - apply (pays_reopen t 0 w (tk_Key t)); try done. by destruct Hp.
  - split; [|done]. by apply (Hg (drop_region _ _ (count_retry _ _))).
Qed.
Lemma ListTasks_rows m q t : t ∈ ListTasks m q → t ∈ st_tasks q.
Proof. by intros [? _]%elem_of_filter_where. Qed.
Lemma pays_gather w : paid 0 w → idle w → post (gather A mid) (λ _ w', paid 0 w' ∧ idle w') (paid 0) w.
Proof.
  intros Hp Hw. assert (post (gather A mid) (λ _ w', paid 0 w') (paid 0) w) as H.
  { unfold gather. steps. destruct (sp_PresetMutants _); [by steps|]. steps. destruct (_ || _); [by steps|]. steps.
    eapply post_mono; [apply (post_each _ (λ rest _ w', (paid 0 w' ∧ dw_q w' = dw_q w) ∧ idle w' ∧ rest ⊆ tasksByRole mid RoleMutantGenerator (dw_q w)) (paid 0))| |done].
    - intros t rest acc w' [[Hp' Eq] [Hw' Hin]]. eapply post_mono; [apply post_conj; [apply (pays_gather_one acc t w'); [done|done|]|apply (gather_one_keeps A cfg sp0 acc t w' Hw')]| |by intros ? [? _]].
      + rewrite Eq. apply (ListTasks_rows mid). assert (t ∈ tasksByRole mid RoleMutantGenerator (dw_q w)) as Hm by (apply Hin; left).
        unfold tasksByRole in Hm. by apply sort_stable_elem_of, elem_of_filter_where in Hm as [? _].
      + intros acc' w2 [[Hp2 Eq2] Hw2]. split; [by rewrite Eq2|]. split; [done|set_solver].
    - done.
    - intros [[ms gen] probed] w' [[Hp' _] [Hw' _]]. cbn beta iota zeta. destruct (List.find _ _); by steps. }
  eapply post_mono; [apply (post_conj _ _ _ _ _ _ H (gather_keeps A cfg sp0 mid w Hw))|done|by intros ? []].
Qed.

(** A run without its grading has asked for no test yet; with it, it may ask for the first ones. *)
Lemma tests_idle w : idle w → tests (dw_run w) = 0%nat.
Proof.
  intros [Hr Hs]. destruct (ro_undone _ _ _ _ Hr Hs) as [Ho _]. unfold tests, first_tests, mends. rewrite Hs, Ho. by destruct (per_survivor _).
Qed.
Lemma paid_graded d w : paid 0 w → idle w → dp_Scored d = true →
  paid_by first_tests (if per_survivor (dw_run w) then Z.of_nat (length (dp_Survivors d)) else 1) (set_run (with_dev d (dw_run w)) w).
Proof.
  intros Hp Hw Hd. apply (paid_run tests _ 0 _ w); [done|done| |done]. rewrite (tests_idle _ Hw). cbn [dw_run set_run]. unfold first_tests, per_survivor. cbn [rn_dev rn_mode rn_writer with_dev].
  rewrite Hd. destruct (String.eqb _ _); lia.
Qed.
Lemma pays_put_writer f c w : paid_by first_tests c w → wr_Tries (f (rn_writer (dw_run w))) = wr_Tries (rn_writer (dw_run w)) →
  paid_by first_tests c (set_run (with_writer (f (rn_writer (dw_run w))) (dw_run w)) w).
Proof.
  intros Hp Ht. apply (paid_run first_tests _ c _ w); [done|done| |done]. cbn [dw_run set_run]. unfold first_tests, per_survivor. cbn [rn_dev rn_mode rn_writer with_writer]. rewrite Ht. lia.
Qed.
Lemma pays_seats tw survivors w : paid_by first_tests (Z.of_nat (length survivors)) w →
  post (promotePerSurvivorWriters A clock mid tw survivors) (λ _, paid_by first_tests 0) (paid 0) w.
Proof.
  intros Hp. unfold promotePerSurvivorWriters. destruct survivors as [|first rest]; [by steps|]. steps.
  eapply pays_supersede; [exact Hp| |apply paid_first; by eapply paid_less; [|exact Hp]]. intros newID w1 _ Hp1. steps.
  apply (pays_put_writer (λ x, new_seat first newID (set_task newID x))) in Hp1; [|done]. set (w2 := set_run _ w1) in *. clearbody w2.
  assert (∀ w, paid_by first_tests 0 w → post (let% byKey := gets (λ w, task_ids (liveTasks (tasksByRole mid RoleTestWriter (dw_q w)))) in each (seat_enqueued byKey) rest ())
    (λ _, paid_by first_tests 0) (paid 0) w) as Hlast.
  { intros w3 Hp3. steps. eapply post_mono; [apply (post_each _ (λ _ _, paid_by first_tests 0) (paid 0))|done|done]; [|done].
    intros m l [] w4 Hp4. unfold seat_enqueued. steps. destruct (_ !! _); cbn [of_opt]; steps; [|by apply paid_first]. by apply (pays_put_writer (new_seat m _)). }
  case_bool_decide as Hr; steps; [apply Hlast; rewrite Hr in Hp1; by eapply paid_less; [|exact Hp1]|].
  eapply pays_enqueue; [exact Hp1| |apply paid_first; eapply paid_less; [|exact Hp1]; cbn [length]; lia]. intros w3 _ Hp3. apply Hlast.
  eapply paid_less; [|exact Hp3]. rewrite length_map. cbn [length]. lia.
Qed.
Lemma pays_dev w : paid 0 w → idle w → post (tickDevAdequacy A cfg clock mid) (λ _, paid 0) (paid 0) w.
Proof.
  intros Hp Hw. unfold tickDevAdequacy. steps. eapply post_mono; [by apply pays_gather| |done]. intros g w1 [Hp1 Hw1]. cbn beta.
  destruct g as [[[[ms gen] probed] total]|]; steps; [|done]. set (g := gathered _ _ _ _ _).
  assert (idle (set_run (with_regions g (dw_run w1)) w1)) as Hw2 by (apply idle_regions; [done|]; apply regions_gathered; by destruct Hw1 as [[] _]).
  assert (paid 0 (set_run (with_regions g (dw_run w1)) w1)) as Hp2 by (by apply (paid_run tests tests 0 0 w1)).
  set (w2 := set_run _ w1) in *. clearbody w2. case_bool_decide; steps; [done|]. unfold applyDevScore. steps.
  destruct (an_ScoreDev A _ ms) as [rep|why]; steps; [|by apply (paid_same _ _ w2)]. set (d := dev_pass _ _ _ _).
  pose proof (paid_graded d w2 Hp2 Hw2 eq_refl) as Hp3. cbn [dw_run set_run rn_dev with_dev rn_mode rn_writer asked]. set (w3 := set_run _ (asked w2)).
  apply (paid_same _ _ _ w3) in Hp3; [|done|done]. assert (rn_mode (dw_run w3) = rn_mode (dw_run w2)) as Em by done.
  unfold per_survivor in Hp3. rewrite <- Em in Hp3 |- *. clearbody w3. clear Em. set (bill := if String.eqb _ _ then _ else _) in Hp3.
  assert (0 <= bill) as Hb by (subst bill; destruct (String.eqb _ _); lia).
  assert (paid 0 w3) as Hp0 by (apply paid_first; by eapply paid_less; [|exact Hp3]).
  assert (∀ w, paid_by first_tests 0 w → post (promote mid) (λ _, paid 0) (paid 0) w) as Hpromote.
  { intros w4 Hp4. eapply pays_promote; [exact Hp4|]. intros w5 _ Hp5. by apply paid_first. }
  destruct (dp_Survivors d) as [|m l] eqn:Esv.
  - steps. assert (paid 0 (set_run (with_pool (perfect (rn_pool (dw_run w3))) (dw_run w3)) w3)) as Hp4 by (by apply paid_pool).
    destruct (TaskByID _ _) as [tw|]; [|by steps]. destruct (has_status _ _); steps; [|done]. set (w4 := set_run _ w3) in *.
    apply (paid_quiet tests 0 0 w4); [apply quiet_cancel|apply wf_Cancel; by destruct Hp4|done| |done]. cbn. unfold update_where. rewrite length_map. lia.
  - destruct (TaskByID _ _) as [tw|]; [|by steps]. destruct (negb _); [by steps|]. steps.
    eapply (post_mono _ (λ _, paid_by first_tests 0) _ (paid 0)); [|intros []; apply Hpromote|done]. subst bill.
    destruct (String.eqb _ _); [by apply pays_seats|]. steps. eapply pays_supersede; [exact Hp3| |done]. intros newID w4 _ Hp4. steps.
    by apply (pays_put_writer (set_task newID)).
Qed.

(** *** The authored pass, one writer for all *)

Lemma paid_try w : paid 0 w → dp_Scored (rn_dev (dw_run w)) = true → per_survivor (dw_run w) = false → 0 <= wr_Tries (rn_writer (dw_run w)) →
  let w' := set_run (with_writer (one_try (rn_writer (dw_run w))) (dw_run w)) w in
  paid 0 w' ∧ (wr_Tries (rn_writer (dw_run w)) + 1 < MaxTestWriterAttempts → paid 1 w').
Proof.
  intros Hp Hs Hm H0 w'. assert (∀ c, c + Z.of_nat (mended (wr_Tries (rn_writer (dw_run w)))) <= Z.of_nat (mended (wr_Tries (rn_writer (dw_run w)) + 1)) → paid c w') as H.
  { intros c Hc. apply (paid_run tests tests 0 c w); [done|done| |done]. unfold tests, first_tests. change (per_survivor (dw_run w')) with (per_survivor (dw_run w)).
    change (dp_Scored (rn_dev (dw_run w'))) with (dp_Scored (rn_dev (dw_run w))). rewrite Hs, Hm. cbn [dw_run w' set_run rn_writer with_writer wr_Tries one_try]. lia. }
  split; [|intros Hlt]; apply H; unfold mended, MaxTestWriterAttempts in *; lia.
Qed.
Lemma paid_task id c w : paid c w → paid c (set_run (with_writer (set_task id (rn_writer (dw_run w))) (dw_run w)) w).
Proof. by apply paid_run. Qed.
Lemma pays_reissue tw p w : paid 1 w → post (reissue_writer A clock mid tw p) (λ _, paid 0) (paid 0) w.
Proof.
  intros Hp. unfold reissue_writer. steps. eapply pays_supersede; [exact Hp| |by eapply paid_less; [|exact Hp]]. intros newID w1 _ Hp1. steps.
  eapply pays_promote; [by apply paid_task|]. by intros.
Qed.
(** Questions change neither the queue nor the run. *)
Lemma pays_salvage test survivors c w : paid c w → post (salvageByDeselect A test survivors) (λ _ w', paid c w' ∧ kept w w') (paid c) w.
Proof.
  intros Hp. assert (∀ n, let w' := mkDW (dw_q w) (dw_run w) (dw_noProgress w) (dw_last w) n (dw_clock w) in paid c w' ∧ kept w w') as H by (intros n; split; [by apply (paid_same _ _ w)|done]).
  unfold salvageByDeselect, notKilledByTheDevSuite. destruct (an_FailedTests A) as [failed|]; [|by steps]. steps. destruct (failed _); [steps; apply H|].
  destruct (an_DeselectCmd A _); [|steps; apply H]. steps. destruct (an_ScoreAuthored _ _ _ _ _) as [[rep u]|]; [|steps; apply H].
  destruct (_ || _); steps; apply H.
Qed.
Lemma pays_judge_writer tw w : paid 0 w → dp_Scored (rn_dev (dw_run w)) = true → per_survivor (dw_run w) = false → 0 <= wr_Tries (rn_writer (dw_run w)) →
  post (judge_writer A clock mid tw) (λ _, paid 0) (paid 0) w.
Proof.
  intros Hp Hs Hm H0. unfold judge_writer. steps. destruct (String.eqb _ _); [steps; by apply paid_pool|]. steps.
  apply (paid_same _ _ _ (asked w)) in Hp; [|done|done]. change (dw_run w) with (dw_run (asked w)) in Hs, Hm, H0 |- *. set (w1 := asked w) in *. 
  set (test := an_ParseTest A _). destruct (an_CompileTest A _ _) as [f|]; steps.
  { destruct (paid_try w1 Hp Hs Hm H0) as [Hp2 Hp3]. destruct (Z.ltb_spec (wr_Tries (rn_writer (dw_run w1)) + 1) MaxTestWriterAttempts) as [Hlt|]; steps; [|by apply paid_pool].
    eapply post_mono; [by apply pays_reissue, Hp3| |done]. intros [] w2 ?. by steps. }
  apply (paid_pool _ (authored test (rn_pool (dw_run w1)))) in Hp. set (w2 := set_run _ w1) in *. change (dp_Scored (rn_dev (dw_run w2)) = true) in Hs.
  change (per_survivor (dw_run w2) = false) in Hm. change (0 <= wr_Tries (rn_writer (dw_run w2))) in H0. assert (wr_Tries (rn_writer (dw_run w1)) = wr_Tries (rn_writer (dw_run w2))) as -> by done.
  clearbody w2. apply (paid_same _ _ _ (asked w2)) in Hp; [|done|done]. destruct (an_ScoreAuthored _ _ _ _ _) as [[rep u]|]; steps; [|done].
  eapply (post_mono _ (λ _ w', paid 0 w' ∧ kept (asked w2) w') _ (paid 0)); [destruct (rp_CompliantPass rep); [by apply post_ret|by apply pays_salvage]| |done].
  intros res w3 [Hp3 Hk]. unfold kept in Hk. cbn [asked dw_run] in Hk. rewrite <- Hk in Hs, Hm, H0 |- *. destruct res as [ids|]; steps; [by apply paid_pool|].
  destruct (negb _ && _) eqn:Eagain; steps.
  { apply andb_prop in Eagain as [_ Hlt%Z.ltb_lt]. destruct (paid_try w3 Hp3 Hs Hm H0) as [_ Hp4]. apply pays_reissue. eapply paid_same; [..|apply Hp4]; [done|done|lia]. }
  destruct (negb (genuine rep)); steps; by apply paid_pool.
Qed.

(** *** The authored pass, one writer for each survivor *)

(** The writer [a] sits in the run, and [c] tests more may be asked for. *)
Definition holds (c : Z) (a : writerAttempt) (w : DW) : Prop :=
  paid c w ∧ wr_Seats (rn_writer (dw_run w)) !! mt_ID (wa_mutant a) = Some a ∧ mt_ID (wa_mutant a) ∈ wr_Order (rn_writer (dw_run w)) ∧ per_survivor (dw_run w) = true.
Lemma sum_list_one {X} `{EqDecision X} (f g : X → nat) x l : NoDup l → x ∈ l → (∀ y, y ≠ x → f y = g y) → (sum_list_with f l + g x = sum_list_with g l + f x)%nat.
Proof.
  intros Hnd Hx H. induction l as [|y l IH]; [by apply elem_of_nil in Hx|]. apply NoDup_cons in Hnd as [Hy Hnd]. cbn. destruct (decide (y = x)) as [->|Hne].
  - assert (sum_list_with f l = sum_list_with g l) as ->; [|lia]. clear -Hy H. induction l as [|z l IH]; [done|]. cbn. rewrite IH by set_solver. rewrite (H z); [done|set_solver].
  - rewrite (H y Hne). assert (x ∈ l) as Hl by set_solver. specialize (IH Hnd Hl). lia.
Qed.
Lemma mends_put a a' x : wr_Seats x !! mt_ID (wa_mutant a) = Some a → mt_ID (wa_mutant a) ∈ wr_Order x → mt_ID (wa_mutant a') = mt_ID (wa_mutant a) →
  (mends (put_seat a' x) + mended (wa_repairs a) = mends x + mended (wa_repairs a'))%nat.
Proof.
  intros Ha Hin E. unfold mends. change (wr_Order (put_seat a' x)) with (wr_Order x).
  pose proof (sum_list_one (λ id, mended (wa_repairs (seat_of id (put_seat a' x)))) (λ id, mended (wa_repairs (seat_of id x))) (mt_ID (wa_mutant a)) (remove_dups (wr_Order x))) as H.
  cbv beta in H. assert (seat_of (mt_ID (wa_mutant a)) x = a) as Ea by (unfold seat_of; by rewrite Ha). assert (seat_of (mt_ID (wa_mutant a)) (put_seat a' x) = a') as Ea'.
  { unfold seat_of. cbn. by rewrite E, lookup_insert_eq. }
  rewrite Ea, Ea' in H. apply H; [apply NoDup_remove_dups|by apply elem_of_remove_dups|]. intros id Hne. unfold seat_of. cbn. by rewrite E, lookup_insert_ne.
Qed.
(** The writer's record changes; a repair pays for a test. *)
Lemma holds_put c c' a a' w : holds c a w → mt_ID (wa_mutant a') = mt_ID (wa_mutant a) → c' + Z.of_nat (mended (wa_repairs a)) <= c + Z.of_nat (mended (wa_repairs a')) →
  holds c' a' (set_run (with_writer (put_seat a' (rn_writer (dw_run w))) (dw_run w)) w).
Proof.
  intros (Hp & Ha & Hin & Hm) E Hc. split; [|split; [cbn; by rewrite lookup_insert_eq|split; [cbn; by rewrite E|done]]]. apply (paid_run tests tests c _ w); [done|done| |done].
  unfold tests. change (per_survivor (dw_run (set_run _ w))) with (per_survivor (dw_run w)). rewrite Hm. unfold first_tests. change (per_survivor (dw_run (set_run _ w))) with (per_survivor (dw_run w)).
  rewrite Hm. pose proof (mends_put a a' _ Ha Hin E) as H. cbn [dw_run set_run rn_writer with_writer rn_dev]. lia.
Qed.
Lemma holds_kept c a w w' : dw_q w' = dw_q w → kept w w' → holds c a w → holds c a w'.
Proof. intros Eq Hk (Hp & H). unfold holds. rewrite Hk. split; [by apply (paid_same _ _ w)|done]. Qed.
Lemma holds_paid c a w : 0 <= c → holds c a w → paid 0 w.
Proof. intros Hc [Hp _]. by eapply paid_less. Qed.
Lemma pays_reissue_seat a task prev ce cl w : holds 1 a w → post (reissueWriterSeat A clock mid a task prev ce cl) (λ _, paid 0) (paid 0) w.
Proof.
  intros Hh. unfold reissueWriterSeat. steps. pose proof Hh as [Hp Hs]. eapply pays_supersede; [exact Hp| |by eapply holds_paid; [|exact Hh]]. intros newID w1 Hk Hp1. steps.
  assert (holds 0 a w1) as Hh1 by (split; [done|by rewrite Hk]). apply (holds_put 0 0 a (reissued newID a)) in Hh1; [|by destruct a|destruct a; cbn; lia].
  destruct Hh1 as [Hp2 _]. set (w2 := set_run _ w1) in *. clearbody w2. eapply pays_promote; [|by intros ? _ H; exact H].
  case_bool_decide; [by apply paid_task|by apply (paid_count 0 w2)].
Qed.
Lemma same_repairs (a : writerAttempt) test proven :
  (∀ g, g ∈ [provider_failed; attempted; gave_up; compiles test; salvaged; graded proven] → mt_ID (wa_mutant (g a)) = mt_ID (wa_mutant a) ∧ wa_repairs (g a) = wa_repairs a) ∧
  mt_ID (wa_mutant (repaired a)) = mt_ID (wa_mutant a) ∧ wa_repairs (repaired a) = wa_repairs a + 1.
Proof.
  split; [|by destruct a]. intros g Hg. rewrite !elem_of_cons in Hg. by destruct a; destruct Hg as [->|[->|[->|[->|[->|[->|Hg%elem_of_nil]]]]]].
Qed.
Lemma holds_as c a w g test proven : holds c a w → g ∈ [provider_failed; attempted; gave_up; compiles test; salvaged; graded proven] →
  holds c (g a) (set_run (with_writer (put_seat (g a) (rn_writer (dw_run w))) (dw_run w)) w).
Proof. intros Hh Hg. destruct (same_repairs a test proven) as [H _]. destruct (H g Hg) as [E R]. apply (holds_put c _ a); [done|done|rewrite R; lia]. Qed.
Lemma holds_repaired c a w : holds c a w → 0 <= wa_repairs a → let w' := set_run (with_writer (put_seat (repaired a) (rn_writer (dw_run w))) (dw_run w)) w in
  holds c (repaired a) w' ∧ (wa_repairs a + 1 < MaxTestWriterAttempts → holds (c + 1) (repaired a) w').
Proof.
  intros Hh H0 w'. destruct (same_repairs a "" false) as (_ & E & R).
  split; [|intros Hlt]; apply (holds_put c _ a); try done; rewrite R; unfold mended, MaxTestWriterAttempts in *; lia.
Qed.
Ltac one_of := repeat first [left | right].
Lemma pays_judge_seat a task w : holds 0 a w → 0 <= wa_repairs a → post (judge_seat A clock mid a task) (λ _, paid 0) (paid 0) w.
Proof.
  intros Hh H0. unfold judge_seat. steps.
  destruct (String.eqb _ _); [steps; apply (holds_paid 0 (provider_failed a)); [done|]; apply (holds_as _ _ _ _ "" false Hh); one_of|].
  destruct (same_repairs a "" false) as [Hsame _]. destruct (Hsame attempted) as [_ Ra]; [one_of|].
  apply (λ H, holds_as _ _ _ attempted "" false H ltac:(one_of)) in Hh. set (b := attempted a) in *. assert (0 <= wa_repairs b) as Hb by lia. clearbody b. clear Hsame Ra H0.
  steps. set (w1 := set_run _ w) in *. apply (holds_kept _ _ _ (asked w1)) in Hh; [|done|done]. set (test := an_ParseTest A _). destruct (an_CompileTest A _ _) as [f|]; steps.
  { destruct (holds_repaired _ _ _ Hh Hb) as [Hr Hr1]. destruct (same_repairs b "" false) as (_ & _ & Rb). set (r := repaired b) in *. set (w2 := set_run _ (asked w1)) in *. clearbody w2.
    rewrite Rb. destruct (Z.leb_spec MaxTestWriterAttempts (wa_repairs b + 1)); steps.
    - apply (holds_paid 0 (gave_up r)); [done|]. apply (holds_as _ _ _ _ "" false Hr); one_of.
    - eapply (post_mono _ (λ _, paid 0) _ (paid 0)); [destruct (is_blank test); apply pays_reissue_seat, Hr1; lia|intros [] w3 ?; by steps|done]. }
  assert (wa_repairs (compiles test b) = wa_repairs b) as Rc by (by destruct b).
  apply (λ H, holds_as _ _ _ (compiles test) test false H ltac:(one_of)) in Hh. set (d := compiles test b) in *. assert (0 <= wa_repairs d) as Hd by lia. clearbody d. clear Hb Rc.
  steps. set (w2 := set_run _ (asked w1)) in *. clearbody w2. apply (holds_kept _ _ _ (asked w2)) in Hh; [|done|done].
  destruct (an_ScoreAuthored _ _ _ _ _) as [[rep u]|]; steps; [|by eapply holds_paid; [|exact Hh]].
  eapply (post_mono _ (λ _ w', holds 0 d w') _ (paid 0)); [| |done].
  { destruct (rp_CompliantPass rep); [by apply post_ret|]. destruct Hh as [Hp Hs]. eapply post_mono; [by apply (pays_salvage _ _ 0)| |done].
    intros res w3 [Hp3 Hk]. split; [done|by rewrite Hk]. }
  clear Hh. intros res w3 Hh. destruct res as [ids|]; steps; [apply (holds_paid 0 (salvaged d)); [done|]; apply (holds_as _ _ _ _ "" false Hh); one_of|].
  destruct (negb _ && _) eqn:Eagain; steps.
  { apply andb_prop in Eagain as [_ Hlt%Z.ltb_lt]. destruct (holds_repaired _ _ _ Hh Hd) as [_ Hr]. apply pays_reissue_seat. eapply holds_kept; [..|apply Hr; lia]; done. }
  destruct (negb (genuine rep)); steps.
  - assert (paid 0 (set_run (with_writer (put_seat (gave_up d) (rn_writer (dw_run w3))) (dw_run w3)) w3)) as Hp
      by (apply (holds_paid 0 (gave_up d)); [done|]; apply (holds_as _ _ _ _ "" false Hh); one_of).
    destruct u; steps; [by apply paid_pool|done].
  - match goal with |- context [graded ?p d] => set (proven := p) end. apply (holds_paid 0 (graded proven d)); [done|]. apply (holds_as _ _ _ _ "" proven Hh); one_of.
Qed.

Section Authored.
Variables (sp : Spec) (d : DevPass) (mode : string) (order : list string).
Hypothesis scored_d : dp_Scored d = true.
Local Abbreviation at_work := (at_work A cfg sp0 sp d mode order).

Lemma pays_advance a w : holds 0 a w → 0 <= wa_repairs a → post (advanceWriterAttempt A clock mid a) (λ _, paid 0) (paid 0) w.
Proof.
  intros Hh H0. assert (paid 0 w) as Hp by (by eapply holds_paid; [|exact Hh]). unfold advanceWriterAttempt. steps. destruct (TaskByID _ _) as [task|]; [|by steps].
  destruct (negb _); [by steps|]. steps. eapply post_mono; [by apply pays_judge_seat|intros [] w' ?; by steps|done].
Qed.
Lemma pays_fanout w : at_work w → mode = WriterModePerSurvivor → paid 0 w → post (tickWriterFanout A clock mid) (λ _, paid 0) (paid 0) w.
Proof.
  intros Hw Em Hp. unfold tickWriterFanout. steps. assert (wr_Order (rn_writer (dw_run w)) = order) as -> by (by destruct Hw as (_ & _ & _ & _ & -> & _)).
  eapply post_mono; [apply (post_each _ (λ rest _ w, (at_work w ∧ paid 0 w) ∧ rest ⊆ order) (paid 0))| |done]; [|done|].
  - intros id rest acc w' [[Hw' Hp'] Hsub]. unfold fanout_one. steps. destruct (at_work_parts _ _ _ _ _ _ _ _ Hw') as (Hx & _ & _).
    assert (id ∈ wr_Order (rn_writer (dw_run w'))) as Hid by (destruct Hw' as (_ & _ & _ & _ & -> & _); apply Hsub; left).
    pose proof (seat_of_ok _ _ _ _ _ Hx Hid) as Ha. destruct (xo_seats _ _ _ _ Hx id Hid) as (a & Ea & _). assert (seat_of id (rn_writer (dw_run w')) = a) as E by (unfold seat_of; by rewrite Ea).
    rewrite E in Ha |- *. clear E. pose proof (so_id _ _ _ _ _ Ha) as Eid. destruct (so_repairs _ _ _ _ _ Ha) as [[H0 _] _].
    destruct (wa_done a) eqn:Edone; steps; [split; [done|set_solver]|]. apply post_attempt. eapply post_mono; [apply post_conj|..].
    + apply (advance_keeps A cfg clock sp0 mid sp d mode order scored_d a w' Hw'); [|done]. unfold fine. by rewrite Eid.
    + apply pays_advance; [|done]. split; [done|]. rewrite Eid. split; [done|]. split; [done|]. unfold per_survivor. destruct Hw' as (_ & _ & _ & -> & _). by apply String.eqb_eq.
    + intros; steps; split; [done|set_solver].
    + intros w2 ? e; steps; split; [done|set_solver].
  - intros [e pending] w' [[_ Hp'] _]. cbn beta iota. destruct e; steps; [done|]. destruct pending; steps; done.
Qed.
Lemma pays_pool w : at_work w → paid 0 w → post (tickPoolAdequacy A clock mid) (λ _, paid 0) (paid 0) w.
Proof.
  intros Hw Hp. destruct (at_work_parts _ _ _ _ _ _ _ _ Hw) as (Hx & _ & _). pose proof Hw as (_ & _ & Ed & Em & _ & _). unfold tickPoolAdequacy. steps. rewrite Em.
  destruct (String.eqb_spec mode WriterModePerSurvivor) as [Hmode|Hmode].
  - steps. eapply post_mono; [by apply pays_fanout| |done]. intros done w1 Hp1. destruct done; steps; [|done]. unfold finishWriterFanout. steps.
    apply (paid_pool _ (finishWriterFlags (dw_run w1) (measured_as (0 <? count_seats wa_measured (dw_run w1)) (0 <? count_seats wa_salvaged (dw_run w1)) (bankWriterProofs A (dw_run w1))))) in Hp1.
    set (w2 := set_run _ w1) in *. clearbody w2. unfold checkAuthoredTogether. steps. destruct (_ || _); [by steps|]. steps. apply (paid_same _ _ _ (asked w2)) in Hp1; [|done|done].
    destruct (an_CompliantRun A _ _) as [[[] out]|]; steps; [by apply paid_pool|by apply paid_pool|done].
  - steps. destruct (TaskByID _ _) as [tw|]; [|by steps]. destruct (has_status _ _); [|by steps]. apply pays_judge_writer; [done|by rewrite Ed| |].
    + unfold per_survivor. rewrite Em. by destruct (String.eqb_spec mode WriterModePerSurvivor).
    + by destruct Hx as [_ _ []].
Qed.
End Authored.

(** *** The verdict and the tick *)

Lemma paid_asked c w : paid c w → paid c (asked w).
Proof. by apply paid_same. Qed.
Lemma pays_sign v w : paid 0 w → post (let% v := sign A cfg v in run% put_verdict v in ret (Some v)) (λ _, paid 0) (paid 0) w.
Proof.
  intros Hp. assert (∀ v w, paid 0 w → paid 0 (set_run (with_verdict v (dw_run w)) w)) as H by (intros; by eapply paid_count; [..|done]).
  steps. unfold sign. destruct (dc_Signer cfg); steps; [|by apply H]. apply paid_asked in Hp. destruct (an_SignVerdict _ _ _) as [[id h]|]; steps; [by apply H|done].
Qed.
Lemma pays_aggregate w : paid 0 w → post (tickAggregate A cfg mid) (λ _, paid 0) (paid 0) w.
Proof.
  intros Hp. unfold tickAggregate. steps. apply critic_post. intros [[findings incomplete]|]; steps; [|done].
  eapply post_mono; [apply (post_each _ (λ _ _, paid 0) (paid 0))|intros obs w1 Hp1|done]; [|done|].
  - intros f rest obs w1 Hp1. unfold adjudicate_one. steps. eapply (post_mono _ (λ _, paid 0) _ (paid 0)); [|intros; by steps|done].
    destruct (_ && _); [|by steps]. steps. apply paid_asked in Hp1. destruct (String.eqb _ _); steps; [done|by apply paid_asked].
  - destruct (splitRefuted findings obs) as [standing refuted]. match goal with |- context [sign A cfg ?v] => set (x := v) end.
    by apply pays_sign.
Qed.
Lemma pays_tick now w : paid 0 w → well A cfg sp0 w → post (tick_run A cfg clock mid now) (λ _, paid 0) (paid 0) w.
Proof.
  intros Hp Hw. unfold tick_run. steps. destruct (rn_verdict (dw_run w)) as [v|] eqn:Ev; steps; [done|]. destruct (expired cfg now (dw_run w)).
  - unfold timeoutVerdict. steps. match goal with |- context [sign A cfg ?v] => set (x := v) end. cbn [dw_run set_run] in *.
    assert (paid 0 (set_run (bank_timeout A (dw_run w)) w)) as Hp1.
    { eapply paid_count; [..|exact Hp]; [done|]. unfold bank_timeout. by destruct (_ && _). }
    pose proof (pays_sign x _ Hp1) as H. by apply post_bind in H.
  - steps. eapply pays_promote; [exact Hp|]. intros w1 Hk1 Hp1. assert (well A cfg sp0 w1) as Hw1 by (unfold well; by rewrite Hk1). steps.
    eapply (post_mono _ (λ _ w, paid 0 w ∧ well A cfg sp0 w) _ (paid 0)); [| |done].
    { destruct (dp_Scored _) eqn:Ed; [by steps|]. assert (idle w1) as Hi by (split; [done|by rewrite Hk1]).
      eapply post_mono; [apply post_conj; [by apply pays_dev|by apply tickDev_keeps]|done|by intros ? []]. }
    intros [] w2 [Hp2 Hw2]. steps. eapply (post_mono _ (λ _, paid 0) _ (paid 0)); [| |done].
    { destruct (dp_Scored (rn_dev (dw_run w2))) eqn:Ed; cbn [andb]; [|by steps]. destruct (po_Scored (rn_pool (dw_run w2))) eqn:Es; cbn [negb]; [by steps|].
      by apply (pays_pool (rn_spec (dw_run w2)) (rn_dev (dw_run w2)) (rn_mode (dw_run w2)) (wr_Order (rn_writer (dw_run w2)))). }
    intros [] w3 Hp3. steps. eapply (post_mono _ (λ _, paid 0) _ (paid 0)); [destruct (po_Scored (rn_pool (dw_run w3))); [by apply pays_aggregate|by steps]| |done].
    intros v w4 Hp4. destruct v as [v|]; steps; [done|]. assert (∀ n fp, paid 0 (set_progress n fp w4)) as H by (intros; by apply (paid_same _ _ w4)). unfold post, checkNoProgress.
    destruct (_ <=? 0); [done|]. destruct (progressFingerprint _ _) as [fp claimed]. destruct (negb _); [apply H|]. destruct (0 <? claimed); [done|]. destruct (_ <=? _); apply H.
Qed.
End Paid.

(** ** Histories *)

Section History.
Variables (A : Answers) (cfg : Config) (clock : nat → double).

(** A run is started, a run is moved on, or the queue's other clients leave its tables as [q]. *)
Inductive event :=
| EStart (landing : option string) (mid now : Z) (sp : Spec) (sigs : list Signature)
| ETick (mid now : Z)
| EQueue (q : Store).
Definition happen (e : event) (d : Driver) : Driver :=
  match e with
  | EStart landing mid now sp sigs => (StartRun A cfg clock landing mid now sp sigs d).2
  | ETick mid now => (Tick A cfg clock mid now d).2
  | EQueue q => mkDriver q (dr_runs d) (dr_noProgress d) (dr_last d) (dr_calls d) (dr_clock d)
  end.
Definition history (es : list event) (d : Driver) : Driver := foldl (λ d e, happen e d) d es.
(** What the ticks of a mission's run cost. *)
Definition cost_of (cost : Store → Store → nat) (mid : Z) (e : event) (d : Driver) : nat :=
  match e with ETick m _ => if m =? mid then cost (dr_q d) (dr_q (happen e d)) else 0 | _ => 0 end.
Fixpoint spent (cost : Store → Store → nat) (mid : Z) (es : list event) (d : Driver) : nat :=
  match es with [] => 0 | e :: rest => cost_of cost mid e d + spent cost mid rest (happen e d) end.
(** The other clients leave the tables well formed, as every call of the queue does. *)
Definition sound_event (e : event) : Prop := match e with EQueue q => wf q | _ => True end.

Lemma happen_step e d : dstep A cfg clock d (happen e d).
Proof. destruct e; [apply ds_start|apply ds_tick|apply ds_queue]. Qed.
Definition of_run (f : runState → nat) (mid : Z) (d : Driver) : nat := from_option f 0%nat (dr_runs d !! mid).
Lemma start_wf landing mid now sp sigs d : wf (dr_q d) → wf (dr_q (StartRun A cfg clock landing mid now sp sigs d).2).
Proof.
  intros Hw. unfold StartRun. destruct landing; [done|]. destruct (checkMutantSources sp); [|done]. case_bool_decide; [done|].
  destruct (Enqueue _ _ _ _) as [q|] eqn:E; [|done]. apply quiet_enqueue in E as (_ & _ & Hq). destruct (task_ids _ !! _); by apply Hq.
Qed.
Lemma tick_pays mid now d r : dr_runs d !! mid = Some r → all_ok A cfg d → wf (dr_q d) →
  ∃ r', dr_runs (Tick A cfg clock mid now d).2 = <[mid := r']> (dr_runs d) ∧ wf (dr_q (Tick A cfg clock mid now d).2) ∧
    (∀ key, (opened_again mid key (dr_q d) (dr_q (Tick A cfg clock mid now d).2) + tried key r <= tried key r')%nat) ∧
    (issued (dr_q d) (dr_q (Tick A cfg clock mid now d).2) + tests r <= tests r')%nat.
Proof.
  intros Er Hok Hw. rewrite (tick_runs _ _ _ _ _ _ _ Er). cbv zeta. set (w := mkDW _ _ _ _ _ _). assert (paid mid w 0 w) as Hp.
  { split; [done|apply extends_refl| |lia]. intros key. unfold opened_again. rewrite revivals_same. lia. }
  pose proof (pays_tick mid w A cfg clock (rn_spec r) now w Hp (Hok _ _ Er)) as H. unfold post in H. destruct (tick_run _ _ _ _ _ _) as [res w'].
  exists (dw_run w'). assert (paid mid w 0 w') as [Hw' Hx Hr Hi] by (by destruct res). cbn [snd dr_runs dr_q dw_run dw_q w] in *. split_and!; [done|done|done|].
  apply extends_length in Hx. unfold issued. lia.
Qed.
Lemma event_pays mid e d : all_ok A cfg d → wf (dr_q d) → sound_event e → wf (dr_q (happen e d)) ∧
  (∀ key, cost_of (opened_again mid key) mid e d + of_run (tried key) mid d <= of_run (tried key) mid (happen e d))%nat ∧
  (cost_of issued mid e d + of_run tests mid d <= of_run tests mid (happen e d))%nat.
Proof.
  intros Hok Hw He. destruct e as [landing m now sp sigs|m now|q]; cbn [happen cost_of sound_event] in *; [| |by split_and!; unfold of_run].
  - split; [by apply start_wf|]. assert (∀ f, of_run f mid d <= of_run f mid (StartRun A cfg clock landing m now sp sigs d).2)%nat as H; [|split; [intros key|]; apply H].
    intros f. unfold of_run. destruct (start_runs A cfg clock landing m now sp sigs d) as [->|(En & id & ->)]; [done|].
    destruct (decide (m = mid)) as [->|Hne]; [rewrite En; cbn; lia|by rewrite lookup_insert_ne].
  - destruct (dr_runs d !! m) as [r|] eqn:Er.
    + destruct (tick_pays m now d r Er Hok Hw) as (r' & E & Hw' & Hr & Hi). split; [done|]. unfold of_run. rewrite E. destruct (Z.eqb_spec m mid) as [->|Hne].
      * rewrite lookup_insert_eq, Er. cbn. done.
      * rewrite lookup_insert_ne by done. cbn. done.
    + assert ((Tick A cfg clock m now d).2 = d) as -> by (unfold Tick; by rewrite Er). split; [done|]. unfold opened_again, issued.
      split; [intros key; rewrite revivals_same|rewrite Nat.sub_diag]; destruct (m =? mid); cbn; lia.
Qed.
Lemma spent_bound mid es : ∀ d, all_ok A cfg d → wf (dr_q d) → Forall sound_event es →
  (∀ key, spent (opened_again mid key) mid es d + of_run (tried key) mid d <= of_run (tried key) mid (history es d))%nat ∧
  (spent issued mid es d + of_run tests mid d <= of_run tests mid (history es d))%nat ∧ all_ok A cfg (history es d).
Proof.
  induction es as [|e es IH]; intros d Hok Hw Hes; [by cbn|]. apply Forall_cons in Hes as [He Hes]. destruct (event_pays mid e d Hok Hw He) as (Hw' & Hr & Hi).
  destruct (IH (happen e d)) as (Hr' & Hi' & Hok'); [by eapply step_ok; [apply happen_step|]|done|done|]. cbn [spent history foldl].
  split; [intros key; specialize (Hr key); specialize (Hr' key)|split; [|done]]; unfold history in *; lia.
Qed.

(** The tests a run may ask for. *)
Definition test_budget (r : runState) : Z :=
  if negb (dp_Scored (rn_dev r)) then 0
  else if per_survivor r then MaxTestWriterAttempts * Z.of_nat (length (dp_Survivors (rn_dev r))) else MaxTestWriterAttempts.
Lemma mends_bound x : (mends x <= Z.to_nat (MaxTestWriterAttempts - 1) * length (wr_Order x))%nat.
Proof.
  unfold mends. assert (length (remove_dups (wr_Order x)) <= length (wr_Order x))%nat as Hl.
  { induction (wr_Order x) as [|id l IH]; [done|]. cbn. case_decide; cbn; lia. }
  revert Hl. generalize (remove_dups (wr_Order x)) as l. intros l Hl. assert (sum_list_with (λ id, mended (wa_repairs (seat_of id x))) l <= Z.to_nat (MaxTestWriterAttempts - 1) * length l)%nat; [|nia].
  clear Hl. induction l as [|id l IH]; [done|]. cbn [sum_list_with length]. unfold mended at 1. lia.
Qed.
Lemma tests_bound sp r : run_ok A cfg sp r → Z.of_nat (tests r) <= test_budget r.
Proof.
  intros Hr. pose proof (xo_order _ _ _ _ (ro_writer _ _ _ _ Hr)) as Ho. apply prefix_length in Ho. rewrite length_map in Ho. pose proof (mends_bound (rn_writer r)) as Hm.
  unfold tests, first_tests, test_budget. destruct (dp_Scored (rn_dev r)) eqn:Es; cbn [negb].
  - destruct (per_survivor r); unfold mended, MaxTestWriterAttempts in *; lia.
  - destruct (ro_undone _ _ _ _ Hr Es) as [E _]. rewrite E in Hm. cbn [length] in Hm. destruct (per_survivor r); lia.
Qed.

(** C3. What a run sends back is bounded, and the bound is of what happens to the queue. Take any history from no runs on: starts, ticks of any missions, and
    whatever the queue's other clients do between them, as long as they leave its tables well formed. Then over the whole history the ticks of one mission's run turn settled tasks of
    any one key (a generator's) back into open ones at most MaxShardRetries = 2 times; and they add no task to the queue before the developer's tests
    are graded, and after it at most MaxTestWriterAttempts = 3 in all where one writer works on all survivors, at most 3 times the number of survivors where each has a writer of its own. *)
Theorem retries_bounded mid es d0 r : dr_runs d0 = ∅ → wf (dr_q d0) → Forall sound_event es → dr_runs (history es d0) !! mid = Some r →
  (∀ key, Z.of_nat (spent (opened_again mid key) mid es d0) <= MaxShardRetries) ∧ Z.of_nat (spent issued mid es d0) <= test_budget r.
Proof.
  intros E0 Hw Hes Er. assert (all_ok A cfg d0) as Hok by (intros k x; by rewrite E0, lookup_empty).
  destruct (spent_bound mid es d0 Hok Hw Hes) as (Hr & Hi & Hok'). unfold of_run in *. rewrite Er in *. cbn [from_option] in *. split.
  - intros key. specialize (Hr key). unfold tried in Hr. unfold MaxShardRetries in *. lia.
  - pose proof (tests_bound _ r (Hok' _ _ Er)). lia.
Qed.
End History.
