(* ===== verification/GateFacts.v ===== *)
(** * What the gate promises

    The authored test's file is never the source under test nor a file that is there ([authored_path_safe]); the marker goes into the developer's own name
    where the code's stem stands as a token ([markStem_exact]); the file that is compiled is the file that is graded
    ([compiled_is_graded]); a test compiles only if every check of the language passed with it, or judges the source and not the test
    ([CompileTest_sound]); a kill is believed only of a test whose file the command was seen to read ([authored_kill]); and the verdict's disclosure says what the two passes ran
    ([disclosure_exact]). *)
From S2P Require Import Prelude GoLib GoText Crypto JsonText TestMap Float64 Driver DriverFacts Invocations Select Mutant Jail Score ScoreFacts Adequacy Paths Pairing PairingFacts Languages Hunks Shell Argv Gate.
Local Open Scope string_scope.
Local Open Scope list_scope.
Local Open Scope Z_scope.

(** ** The marker *)

Definition occurs (name stem : string) (i : nat) : Prop := has_prefix stem (drop_str i name) = true.
Lemma occurs_fits name stem i : stem ≠ "" → occurs name stem i → (i + String.length stem <= String.length name)%nat.
Proof.
  intros Hs [t E]%has_prefix_iff. apply (f_equal String.length) in E. rewrite length_drop_str, length_app_str in E. destruct stem; [done|]. cbn in *. lia.
Qed.
Lemma mark_from_exact name stem marker ext : stem ≠ "" → ∀ fuel from, (String.length name < from + fuel)%nat →
  (∀ j, (j < from)%nat → occurs name stem j → bounded name stem j = false) →
  match mark_from fuel from name stem marker ext with
  | Some out => ∃ i, occurs name stem i ∧ bounded name stem i = true ∧ (∀ j, (j < i)%nat → occurs name stem j → bounded name stem j = false) ∧
      out = take_str (i + String.length stem) name +:+ marker +:+ drop_str (i + String.length stem) name +:+ ext
  | None => ∀ j, occurs name stem j → bounded name stem j = false
  end.
Proof.
  intros Hs. induction fuel as [|fuel IH]; intros from Hf Hbefore; cbn [mark_from].
  { intros j Hj. apply Hbefore; [|done]. pose proof (occurs_fits _ _ _ Hs Hj). lia. }
  destruct (Nat.leb_spec (from + String.length stem) (String.length name)) as [Hle|Hgt].
  2:{ intros j Hj. apply Hbefore; [|done]. pose proof (occurs_fits _ _ _ Hs Hj). lia. }
  pose proof (str_index_first stem (drop_str from name) Hs) as Hi. destruct (str_index stem (drop_str from name)) as [k|].
  - destruct Hi as [Hk Hmin]. rewrite drop_drop_str in Hk. rewrite (Nat.add_comm k from).
    assert (∀ j, (j < from + k)%nat → occurs name stem j → bounded name stem j = false) as Hb.
    { intros j Hj Ho. destruct (decide (j < from)%nat); [by apply Hbefore|]. specialize (Hmin (j - from)%nat ltac:(lia)).
      rewrite drop_drop_str in Hmin. replace (from + (j - from))%nat with j in Hmin by lia. unfold occurs in Ho. congruence. }
    destruct (bounded name stem (from + k)) eqn:Eb; [by exists (from + k)%nat|]. apply IH; [lia|].
    intros j Hj Ho. destruct (decide (j = from + k)%nat) as [->|]; [done|]. apply Hb; [lia|done].
  - intros j Ho. destruct (decide (j < from)%nat); [by apply Hbefore|]. specialize (Hi (j - from)%nat). rewrite drop_drop_str in Hi.
    replace (from + (j - from))%nat with j in Hi by lia. unfold occurs in Ho. congruence.
Qed.
(** The marker goes into the name, at the stem. With the extension set aside, the marker is put right after the first place where the stem stands as
    a token (each end of it is an end of the name or next to a byte of another kind), the rest of the name and the extension staying as they are; a name is refused exactly when
    the stem is empty or stands nowhere as a token. *)
Theorem markStem_exact devBase stem marker :
  let ext := path_ext devBase in let name := trim_suffix ext devBase in
  match markStem devBase stem marker with
  | Some out => stem ≠ "" ∧ ∃ i, occurs name stem i ∧ bounded name stem i = true ∧ (∀ j, (j < i)%nat → occurs name stem j → bounded name stem j = false) ∧
      out = take_str (i + String.length stem) name +:+ marker +:+ drop_str (i + String.length stem) name +:+ ext
  | None => stem = "" ∨ ∀ j, occurs name stem j → bounded name stem j = false
  end.
Proof.
  cbn zeta. unfold markStem. destruct (String.eqb_spec stem "") as [|Hs]; [by left|].
  pose proof (mark_from_exact (trim_suffix (path_ext devBase) devBase) stem marker (path_ext devBase) Hs (S (String.length (trim_suffix (path_ext devBase) devBase))) 0 ltac:(lia) ltac:(lia)) as H.
  destruct (mark_from _ _ _ _ _ _); [done|by right].
Qed.

(** ** The file *)

Lemma first_free_cases fallback f pick n : ∀ i, first_free fallback f pick n i = fallback ∨ f (first_free fallback f pick n i) = false.
Proof. induction n as [|n IH]; intros i; cbn; [by left|]. destruct (pick i) as [got|]; [|by left]. destruct (f got) eqn:E; [apply IH|by right]. Qed.
Lemma not_taken codePath devTestPath base q : taken codePath devTestPath base q = false → q ≠ "" ∧ q ≠ devTestPath ∧ q ≠ codePath ∧ base !! q = None.
Proof.
  unfold taken. intros H. bools. repeat match goal with H : String.eqb _ _ = false |- _ => apply String.eqb_neq in H | H : bool_decide _ = false |- _ => apply bool_decide_eq_false in H end.
  split_and!; try done. by apply eq_None_not_Some.
Qed.
Definition zero_landing : Landing := mkLanding "" None "" false 0 false false [].
(** What a landing of this run can be: none computed, or the one the rules give with what could be read. *)
Definition honest (order : list Lang) (codePath : string) (l : Landing) : Prop := l = zero_landing ∨ ∃ src, TestLanding order codePath src = Ok l.
Lemma Primary_some p codePath : is_Some (Primary (TestRules p) codePath).
Proof.
  assert (∃ c l, omap (raw_candidate codePath) (TestRules p) = c :: l) as (c & l & E).
  { unfold raw_candidate. destruct (splitPath codePath) as [[dir base] ext]. destruct p; cbn; eauto. }
  unfold Primary, Candidates. rewrite E, Dedupe_reference. cbn. by eexists.
Qed.
Lemma advPool_primary order codePath read unr refused :
  la_Path (landPrimary read unr refused (landingRules order codePath) codePath) = advPoolTestPath order codePath.
Proof.
  unfold landPrimary, advPoolTestPath, pluginFor, landingRules. destruct (Detect order codePath) as [p|]; cbn [default from_option id mbind option_bind].
  - destruct (Primary_some p codePath) as [c ->]. done.
  - destruct (Primary_some LangGo codePath) as [c ->]. done.
Qed.
Lemma landing_cases order codePath src l : TestLanding order codePath src = Ok l →
  (∃ read unr refused, l = landPrimary read unr refused (landingRules order codePath) codePath) ∨ la_Into l = true ∧ contentRules (landingRules order codePath) ≠ [].
Proof.
  unfold TestLanding, Land. destruct (contentRules _) as [|r rs]; [intros [= <-]; left; by eauto|]. destruct (so_TestModules src) as [modules|]; [|intros [= <-]; left; by eauto].
  destruct (resolveDeclared _ _ _ _) as [res|]; [|done]. cbn. destruct (re_Unreadable res); [intros [= <-]; left; by eauto|].
  destruct (re_Found res), (re_Shape res); intros [= <-]; try (left; by eauto). by right.
Qed.
Lemma checked_elsewhere order codePath l : check_landing order codePath l = Ok () → path_clean (la_Path l) ≠ path_clean codePath.
Proof.
  unfold check_landing, sameFile. destruct (String.eqb_spec (path_clean (la_Path l)) (path_clean codePath)) as [|Hne]; [by destruct (la_Refused l)|done].
Qed.
Lemma Detect_empty order : Detect order "" = None.
Proof. unfold Detect. induction order as [|l order IH]; [done|]. cbn [find]. assert (detects l "" = false) as -> by by destruct l. done. Qed.
(** A landing that is admitted leaves the name of a new test elsewhere than the source. *)
Lemma admitted_elsewhere order codePath l : honest order codePath l → CheckTestLanding order codePath l = Ok () →
  if la_Into l then la_Path l ≠ codePath else path_clean (advPoolTestPath order codePath) ≠ path_clean codePath.
Proof.
  intros Hl. unfold CheckTestLanding. destruct (String.eqb_spec (la_Path l) "") as [E|Hne].
  - destruct (TestLanding order codePath no_sources) as [l'|] eqn:El; [|done]. intros Hc. apply checked_elsewhere in Hc.
    assert (∃ r u f, l' = landPrimary r u f (landingRules order codePath) codePath) as (r & u & f & ->).
    { revert El. unfold TestLanding, Land. destruct (contentRules _); intros [= <-]; by eauto. }
    rewrite advPool_primary in Hc. destruct (la_Into l) eqn:Ei; [|done]. rewrite E. intros <-.
    destruct Hl as [->|[src Hs]]; [done|]. apply landing_cases in Hs as [(r' & u' & f' & ->)|[_ Hr]].
    + revert Ei. unfold landPrimary, landingRules. rewrite Detect_empty. vm_compute. done.
    + unfold landingRules in Hr. by rewrite Detect_empty in Hr.
  - intros Hc. apply checked_elsewhere in Hc. destruct (la_Into l) eqn:Ei; [congruence|]. destruct Hl as [->|[src Hs]]; [done|].
    apply landing_cases in Hs as [(r' & u' & f' & ->)|[? _]]; [|congruence]. by rewrite advPool_primary in Hc.
Qed.
Lemma authored_path_lemma order codePath l existing devTestPath base : honest order codePath l → CheckTestLanding order codePath l = Ok () →
  let q := authoredTestPath order (mkAuthored l existing) codePath devTestPath base in
  q ≠ codePath ∧ (if la_Into l then q = la_Path l else q = advPoolTestPath order codePath ∨ q ≠ "" ∧ q ≠ devTestPath ∧ base !! q = None).
Proof.
  intros Hl Hc. pose proof (admitted_elsewhere _ _ _ Hl Hc) as H. cbn zeta. unfold authoredTestPath. cbn [al_Landing]. destruct (la_Into l); [done|].
  assert (advPoolTestPath order codePath ≠ codePath) as Hne by congruence.
  destruct (String.eqb (trim_space devTestPath) ""); [split; [done|by left]|]. destruct (pluginFor order codePath) as [p|]; [|split; [done|by left]].
  match goal with |- context [first_free ?a ?b ?c ?d ?e] => destruct (first_free_cases a b c d e) as [->|(? & ? & ? & ?)%not_taken] end; [split; [done|by left]|].
  split; [done|]. by right.
Qed.
(** C10. The authored test has a file of its own. For a landing computed for the run (or none) that was admitted, the file a test is written to is never the source
    under test: it is the file the source declares, when the test is appended; and otherwise either the name the conventions give a new test, or a name
    that is neither the developer's test nor any file of the repository. *)
Theorem authored_path_safe order codePath l existing devTestPath base : honest order codePath l → CheckTestLanding order codePath l = Ok () →
  let q := authoredTestPath order (mkAuthored l existing) codePath devTestPath base in
  q ≠ codePath ∧ (if la_Into l then q = la_Path l else q = advPoolTestPath order codePath ∨ q ≠ "" ∧ q ≠ devTestPath ∧ base !! q = None).
Proof. apply authored_path_lemma. Qed.

(** ** The compile check *)

Section Check.
Variable order : list Lang.
Variable P : PluginOps.
Variable v : JailValidator.
Definition ran (tr : list Event) (files : gmap string string) (cmd : list string) (r : RunRes) : Prop :=
  EvRun (mkRunReq (if jv_Verbose v then ViaVerbose else ViaRunTest) files cmd None) r ∈ tr.
Definition shown (r : RunRes) : string := if jv_Verbose v then rr_Out r else "".
Definition names_test (testPath : string) (cmd : list string) (r : RunRes) : bool := bool_decide (testPath ∈ cmd) || outputNamesFile (shown r) testPath.
(** A check that says nothing against the test: it passed, or it fails the source alone as well and does not speak of the test. *)
Definition acquits (tr : list Event) (ws unmodified : gmap string string) (testPath : string) (cmd : list string) : Prop :=
  ∃ r, ran tr ws cmd r ∧ (passed r ∨ failed r ∧ names_test testPath cmd r = false ∧ ∃ r', ran tr unmodified cmd r' ∧ failed r').
(** A check that condemns it. *)
Definition condemns (tr : list Event) (ws unmodified : gmap string string) (testPath : string) (cmd : list string) (out : string) : Prop :=
  ∃ r, ran tr ws cmd r ∧ failed r ∧ out = shown r ∧ (names_test testPath cmd r = true ∨ ∃ r', ran tr unmodified cmd r' ∧ ¬ failed r').

Lemma Runs_compile ws cmd {A} (k : bool * string * option JailErr → Prog A) tr a : Runs (pbind (runCompileCmd v ws cmd) k) tr a ↔
  ∃ r tr', tr = EvRun (mkRunReq (if jv_Verbose v then ViaVerbose else ViaRunTest) ws cmd None) r :: tr' ∧ Runs (k (rr_Pass r, shown r, rr_Err r)) tr' a.
Proof. unfold runCompileCmd, shown. by destruct (jv_Verbose v). Qed.
Lemma ran_cons e tr files cmd r : ran tr files cmd r → ran (e :: tr) files cmd r.
Proof. apply list_elem_of_further. Qed.
Lemma acquits_app h tr ws u p cmd : acquits tr ws u p cmd → acquits (h ++ tr) ws u p cmd.
Proof.
  unfold acquits, ran. intros (r & H & [Hp|(Hf & Hn & r' & H' & Hf')]); (exists r; split; [apply elem_of_app; by right|]); [by left|].
  right. split_and!; [done|done|]. exists r'. split; [apply elem_of_app; by right|done].
Qed.
Lemma condemns_app h tr ws u p cmd out : condemns tr ws u p cmd out → condemns (h ++ tr) ws u p cmd out.
Proof.
  unfold condemns, ran. intros (r & H & Hf & Ho & [Hn|(r' & H' & Hf')]); (exists r; split_and!; [apply elem_of_app; by right|done|done|]); [by left|].
  right. exists r'. split; [apply elem_of_app; by right|done].
Qed.
Definition check_result (tr : list Event) (ws unmodified : gmap string string) (testPath : string) (seq : list (list string)) (res : result CompileErr ()) : Prop :=
  match res with
  | Ok _ => ∀ cmd, cmd ∈ seq → acquits tr ws unmodified testPath cmd
  | Err (DoesNotCompile out cmd) => cmd ∈ seq ∧ condemns tr ws unmodified testPath cmd out
  | Err (CheckFailed e) => ∃ cmd r, cmd ∈ seq ∧ ran tr ws cmd r ∧ rr_Err r = Some e
  | Err _ => False
  end.
Lemma check_result_cons h tr ws u p cmd seq res : acquits h ws u p cmd → check_result tr ws u p seq res → (∀ c, acquits h ws u p c → acquits (h ++ tr) ws u p c) →
  check_result (h ++ tr) ws u p (cmd :: seq) res.
Proof.
  intros Ha Hr Hh. destruct res as [[]|[]]; cbn in *; try done.
  - intros c [->|Hc]%elem_of_cons; [by apply Hh|]. by apply acquits_app, Hr.
  - destruct Hr as (c & r & Hc & Hran & He). exists c, r. split_and!; [by right|apply elem_of_app; by right|done].
  - destruct Hr as [Hc Hr]. split; [by right|]. by apply condemns_app.
Qed.
Lemma run_checks_ok ws u p seq : ∀ tr res, Runs (run_checks v ws u p seq) tr res → check_result tr ws u p seq res.
Proof.
  induction seq as [|cmd seq IH]; intros tr res; cbn [run_checks]; [intros [-> ->] c Hc; by apply elem_of_nil in Hc|].
  intros (r & t & -> & HR)%Runs_compile. destruct (rr_Err r) as [e|] eqn:Ee.
  { destruct HR as [-> ->]. exists cmd, r. split_and!; [left|by apply list_elem_of_here|done]. }
  assert (∀ l, ran (EvRun (mkRunReq (if jv_Verbose v then ViaVerbose else ViaRunTest) ws cmd None) r :: l) ws cmd r) as Hran by (intros l; apply list_elem_of_here).
  assert (∀ h l c, acquits h ws u p c → acquits (h ++ l) ws u p c) as Hgrow.
  { intros h l c (x & Hx & [Hp|(Hf & Hn & r' & Hr' & Hf')]); (exists x; split; [apply elem_of_app; by left|]); [by left|]. right. split_and!; [done|done|].
    exists r'. split; [apply elem_of_app; by left|done]. }
  destruct (rr_Pass r) eqn:Ep.
  { apply (check_result_cons [_] t); [|by apply IH|intros; by apply Hgrow]. exists r. split; [apply Hran|by left]. }
  assert (failed r) as Hf by done. destruct (bool_decide (p ∈ cmd) || outputNamesFile (shown r) p) eqn:En; fold (names_test p cmd r) in En.
  { destruct HR as [-> ->]. split; [left|]. exists r. split_and!; [apply Hran|done|done|left; exact En]. }
  apply Runs_compile in HR as (r' & t' & -> & HR).
  assert (∀ l, ran (EvRun (mkRunReq (if jv_Verbose v then ViaVerbose else ViaRunTest) ws cmd None) r :: EvRun (mkRunReq (if jv_Verbose v then ViaVerbose else ViaRunTest) u cmd None) r' :: l) u cmd r') as Hran'
    by (intros l; apply list_elem_of_further, list_elem_of_here).
  destruct (bool_decide (rr_Err r' = None) && negb (rr_Pass r')) eqn:Eu.
  - bools. apply (check_result_cons [_; _] t'); [|by apply IH|intros; by apply Hgrow]. exists r. split; [apply Hran|]. right. split_and!; [done|done|].
    exists r'. split; [apply Hran'|]. done.
  - destruct HR as [-> ->]. split; [left|]. exists r. split_and!; [apply Hran|done|done|]. right. exists r'. split; [apply Hran'|].
    intros [E1 E2]. by rewrite E1, E2 in Eu.
Qed.
(** C9. A test is said to compile only by checks that ran. With [ws] the source and the test in place and the source alone beside it: if the answer is yes, the language has at least one
    check, and each passed with the test, or failed with it and without it while neither its command nor its output spoke of the test; if it is that the
    test does not compile, a check did fail with the test, and spoke of it or did not fail without it, and the output handed back is that check's. *)
Theorem CompileTest_sound codePath code test tr res : Runs (CompileTest order P v codePath code test) tr res →
  match pluginFor order codePath with
  | None => tr = [] ∧ res = Err (NoPlugin codePath)
  | Some p =>
      let unmodified := <[codePath := code]> (validator_base P v p) in let testPath := validator_path order v codePath in
      let seq := compileCheckFor P p (jv_RepoDir v) codePath testPath in
      if bool_decide (seq = []) then tr = [] ∧ res = Err (NothingToCheck (lang_name p) codePath testPath)
      else check_result tr (overlay (jv_Landing v) unmodified testPath test) unmodified testPath seq res
  end.
Proof.
  unfold CompileTest. destruct (pluginFor order codePath) as [p|]; [|by intros [-> ->]]. cbn zeta.
  destruct (compileCheckFor _ _ _ _ _) as [|c seq]; [by intros [-> ->]|]. apply run_checks_ok.
Qed.
End Check.

(** The test that is compiled is the test that is graded. With one landing, one developer's test and one repository for both, and an admitted landing, the files the compile check
    sees are the very files of the authored pass on the code as it is. *)
Theorem compiled_is_graded order P s v base codePath code test testCmd p : js_BaseFiles s = Some base → jv_BaseFiles v = Some base →
  jv_Landing v = js_Landing s → jv_DevTestPath v = js_DevTestPath s →
  honest order codePath (al_Landing (js_Landing s)) → CheckTestLanding order codePath (al_Landing (js_Landing s)) = Ok () →
  overlay (jv_Landing v) (<[codePath := code]> (validator_base P v p)) (validator_path order v codePath) test =
  files_with (authored_base order P s codePath test testCmd) codePath code.
Proof.
  intros Eb Ev El Ed Hl Hc. unfold validator_path, validator_base, files_with, authored_base, authoredWorkspace, AuthoredTestPath, overlay. rewrite Eb, Ev, El, Ed. cbn.
  apply insert_insert_ne. destruct (js_Landing s) as [l existing]. cbn in Hl, Hc. by destruct (authored_path_lemma order codePath l existing (js_DevTestPath s) base Hl Hc) as [? _].
Qed.

(** ** The authored pass *)

Section Authored.
Context {dg : Digest}.
Variable order : list Lang.
Variable P : PluginOps.
Variable rangeMap : gmap string (list string) → list (string * list string).
Hypothesis rangeMap_perm : ∀ m, rangeMap m ≡ₚ map_to_list m.
Variable s : JailScorer.

(** The control's run: the repository with source that cannot compile where the authored test goes, under the command of the pass. *)
Definition control_run (codePath : string) (cmd : gocmd) (r : RunRes) : Event :=
  EvRun (mkRunReq ViaRunTest (authoredWorkspace order s codePath CanaryCode) (words cmd) None) r.
Definition reacted (r : RunRes) : Prop := failed r ∨ ∃ e, rr_Err r = Some e ∧ timed_out e = true.
Lemma authored_cases codePath code test ms testCmd tr rep u : ScoreAuthoredReport order P rangeMap s codePath code test ms testCmd tr (Ok (rep, u)) →
  let '(cmd, cmdFor) := authored_plan order P s codePath test testCmd in
  ∃ t rep0, Scored (js_Kind s) (authored_base order P s codePath test testCmd) codePath code ms (words cmd) (WithCommandFor cmdFor (baseScoreOpts s)) rangeMap t (Ok rep0) ∧
    if bool_decide (is_Some (js_BaseFiles s)) && (0 <? rp_Total rep0)
    then ∃ r, tr = t ++ [control_run codePath cmd r] ∧
      (if u then passed r ∧ rep = with_canary rep0 false else reacted r ∧ rep = rep0)
    else tr = t ∧ u = false ∧ rep = rep0.
Proof.
  unfold ScoreAuthoredReport. destruct (authored_plan _ _ _ _ _ _) as [cmd cmdFor]. intros (t1 & [rep0|e] & Hs & H); [|by destruct H]. exists t1, rep0. split; [done|].
  destruct (bool_decide _ && _); [|by destruct H as [-> [= -> ->]]]. destruct H as (t2 & v & HR & -> & Hv). destruct HR as (r & t' & -> & -> & ->). exists r. split; [done|].
  unfold reacted, passed, failed. destruct (rr_Err r) as [e|] eqn:Ee.
  - destruct (je_TestTimeout e) eqn:Et; [|done]. injection Hv as -> ->. split; [|done]. right. by exists e.
  - destruct (rr_Pass r) eqn:Ep; injection Hv as -> ->; (split; [|done]); [done|by left].
Qed.
(** C8. What is called proven, an authored test that is read has killed. When a repository is graded and the report keeps its canary: for each mutant it lists as killed,
    the command of the authored pass was seen to react to source that cannot compile in the authored test's own place; and in the workspace that holds
    the test, that command (of its own for each mutant, where it has one) passed on the code as it is and did not on source that cannot compile, the mutated file failed it, and the failure was confirmed. *)
Theorem authored_kill codePath code test ms testCmd tr rep u id : ScoreAuthoredReport order P rangeMap s codePath code test ms testCmd tr (Ok (rep, u)) →
  is_Some (js_BaseFiles s) → rp_CanaryKilled rep = true → id ∈ rp_Killed rep →
  u = false ∧
  let '(cmd, cmdFor) := authored_plan order P s codePath test testCmd in
  let ws := authored_base order P s codePath test testCmd in let cfg := WithCommandFor cmdFor (baseScoreOpts s) in
  ∃ t1 t2 t3 r su m0 m mcode c, tr = (t1 ++ t2 ++ t3) ++ [control_run codePath cmd r] ∧ reacted r ∧
    m0 ∈ ms ∧ mt_ID m0 = id ∧ m ∈ ms ∧ key_of cfg m = key_of cfg m0 ∧ Apply m0 code = Ok mcode ∧
    reaches ws codePath code (words cmd) cfg t1 su m ∧ kill_backed ws codePath code (words cmd) cfg su t2 t3 m mcode c.
Proof.
  intros H Hb Hc Hid. apply authored_cases in H. destruct (authored_plan _ _ _ _ _ _) as [cmd cmdFor]. destruct H as (t & rep0 & Hs & H).
  rewrite (bool_decide_eq_true_2 _ Hb) in H. cbn [andb] in H. pose proof (Scored_accounts _ _ _ _ _ _ _ _ rangeMap_perm _ _ Hs) as (Ht & _).
  assert (rp_Killed rep = rp_Killed rep0) as Ek.
  { destruct (0 <? rp_Total rep0); [destruct H as (r & _ & H); destruct u; destruct H as [_ ->]; [by destruct rep0|done]|by destruct H as (_ & _ & ->)]. }
  rewrite Ek in Hid. assert (0 < rp_Total rep0) as Hpos by (rewrite Ht; destruct (rp_Killed rep0); [by apply elem_of_nil in Hid|cbn; lia]).
  apply Z.ltb_lt in Hpos. rewrite Hpos in H. destruct H as (r & -> & H). destruct u; [destruct H as [_ ->]; by destruct rep0|]. destruct H as [Hr ->]. split; [done|].
  destruct (Scored_killed _ _ _ _ _ _ _ _ rangeMap_perm _ _ _ Hs Hid) as (t1 & t2 & t3 & su & m0 & m & mcode & c & -> & ? & ? & ? & ? & ? & ? & ? & _).
  by exists t1, t2, t3, r, su, m0, m, mcode, c.
Qed.
End Authored.

(** ** What the verdict says was run *)

Section Disclosed.
Variable order : list Lang.
Variable P : PluginOps.

Lemma WithAuthoredTest_Ok m sel r base root path cmd : AuthoredTestCmd m sel r base root path = Ok cmd → WithAuthoredTest m sel r base root path = (cmd, true).
Proof. unfold WithAuthoredTest. by intros ->. Qed.
Lemma WithAuthoredTest_Err m sel r base root path e : AuthoredTestCmd m sel r base root path = Err e → WithAuthoredTest m sel r base root path = (None, false).
Proof. unfold WithAuthoredTest. by intros ->. Qed.
(** C11. The verdict says what the two passes ran. For a scorer and a specification of one run of a repository, the path of the authored test carried from the scorer: a reason on the developer's side means
    that his pass runs the whole command, and none, for a run with a selection, that it runs the selection's command or the paired test alone; a reason on the authored side means that the
    authored pass runs the whole command; "alone" that the authored test is run by itself, for the checks and for each mutant; and neither, for a run with a selection, that it is run beside the selection. *)
Theorem disclosure_exact s rs codePath test : is_Some (js_BaseFiles s) → js_Lang s = gs_Lang rs → js_Selection s = gs_Selection rs → js_SelectionMap s = gs_SelectionMap rs →
  js_RepoDir s = gs_RepoDir rs → gs_AuthoredTestPath rs = AuthoredTestPath order s codePath → gs_AuthoredTestPath rs ≠ "" →
  let '(dev, authored, alone) := selectionDisclosure order P rs in
  let sel := gs_Selection rs in let plan := authored_plan order P s codePath test (gs_TestCmd rs) in
  let cmd_with sel' r path := AuthoredTestCmd (gs_SelectionMap rs) sel' r (spec_base rs) (gs_RepoDir rs) path in
  let row r := selectionRowErr P (gs_Lang rs) sel (gs_SelectionMap rs) = Ok r in
  (if dev then dev_argv P rs = spec_base rs
   else sl_Method sel ≠ "" → ∃ r, row r ∧ (sl_Tests sel ≠ [] ∧ dev_argv P rs = Some (words (sl_Cmd sel)) ∨ sl_Tests sel = [] ∧ cmd_with sel r (gs_DevTestPath rs) = Ok (dev_argv P rs))) ∧
  (if authored then plan = (spec_base rs, None)
   else sl_Method sel ≠ "" → ∃ r, row r ∧
     if alone then cmd_with (only_base (sl_Base sel)) r (gs_AuthoredTestPath rs) = Ok plan.1 ∧ plan.2 = Some (λ _, mkMutantCommand (words plan.1) 1 RuleAuthoredAlone)
     else cmd_with sel r (gs_AuthoredTestPath rs) = Ok plan.1 ∧ plan.2 = None).
Proof.
  intros [base Eb] El Es Em Er Ep Hne. unfold selectionDisclosure.
  assert ((scoreWorkspace order P s codePath test (gs_TestCmd rs)).2 = spec_base rs) as Ew by (unfold scoreWorkspace; by rewrite Eb).
  unfold authored_plan, authoredCmd, scorer_row, dev_argv, DevCommandArgv, selectionRow. rewrite Ew, El, Es, Em, Er, <- Ep.
  destruct (String.eqb_spec (sl_Method (gs_Selection rs)) "") as [E0|E0]; [by split|]. destruct (selectionRowErr P (gs_Lang rs) _ _) as [r|e] eqn:Erow; [|done].
  assert (String.eqb (gs_AuthoredTestPath rs) "" = false) as -> by by apply String.eqb_neq. cbn [andb].
  set (dev := match sl_Tests (gs_Selection rs) with [] => _ | _ => _ end).
  assert (if dev then match sl_Tests (gs_Selection rs) with
        | [] => if String.eqb (gs_DevTestPath rs) "" then spec_base rs else match WithAuthoredTest (gs_SelectionMap rs) (gs_Selection rs) r (spec_base rs) (gs_RepoDir rs) (gs_DevTestPath rs) with (cmd, true) => cmd | (_, false) => spec_base rs end
        | _ :: _ => Some (words (sl_Cmd (gs_Selection rs))) end = spec_base rs else True) as Hdev.
  { subst dev. destruct (sl_Tests _); [|done]. destruct (String.eqb _ _); [done|]. destruct (AuthoredTestCmd _ _ _ _ _ (gs_DevTestPath rs)) as [c|e] eqn:Ec; [done|]. by rewrite (WithAuthoredTest_Err _ _ _ _ _ _ _ Ec). }
  assert (dev = None → sl_Tests (gs_Selection rs) ≠ [] ∨ sl_Tests (gs_Selection rs) = [] ∧ gs_DevTestPath rs ≠ "" ∧ ∃ c, AuthoredTestCmd (gs_SelectionMap rs) (gs_Selection rs) r (spec_base rs) (gs_RepoDir rs) (gs_DevTestPath rs) = Ok c) as Hnone.
  { subst dev. destruct (sl_Tests _); [|by left]. destruct (String.eqb_spec (gs_DevTestPath rs) ""); [done|]. destruct (AuthoredTestCmd _ _ _ _ _ (gs_DevTestPath rs)) as [c|e]; [|done]. right. eauto. }
  clearbody dev.
  destruct (AuthoredTestCmd _ (only_base _) _ _ _ _) as [c|e] eqn:Ea; [|destruct (AuthoredTestCmd _ (gs_Selection rs) r (spec_base rs) (gs_RepoDir rs) (gs_AuthoredTestPath rs)) as [c|e'] eqn:Eb'].
  all: split; [destruct dev; [done|]; intros _; exists r; split; [done|]; destruct (Hnone eq_refl) as [Ht|(Ht & Hd & c' & Hc')]; [left; split; [done|]; by destruct (sl_Tests (gs_Selection rs))|right; split; [done|]; rewrite Ht; apply String.eqb_neq in Hd; rewrite Hd, Hc'; by rewrite (WithAuthoredTest_Ok _ _ _ _ _ _ _ Hc')]|].
  - intros _. exists r. by rewrite (WithAuthoredTest_Ok _ _ _ _ _ _ _ Ea).
  - intros _. exists r. by rewrite (WithAuthoredTest_Err _ _ _ _ _ _ _ Ea), (WithAuthoredTest_Ok _ _ _ _ _ _ _ Eb').
  - by rewrite (WithAuthoredTest_Err _ _ _ _ _ _ _ Ea), (WithAuthoredTest_Err _ _ _ _ _ _ _ Eb').
Qed.
(** The command as text is the command. What a scorer of a repository runs for the text made of the developer's command is that command, word for word, when its words are
    UTF-8; and when nothing was narrowed the text is the run's own. *)
Theorem DevCommand_runs s rs codePath test : is_Some (js_BaseFiles s) → Forall (λ w, utf8_valid w = true) (words (dev_argv P rs)) →
  words (scoreWorkspace order P s codePath test (DevCommand P rs)).2 = words (dev_argv P rs) ∧ (dev_argv P rs = spec_base rs → DevCommand P rs = gs_TestCmd rs).
Proof.
  intros [base Eb] Hv. unfold scoreWorkspace, DevCommand. rewrite Eb. cbn [snd]. assert (∀ l, words (argv_cmd l) = l) as Hw by by intros [].
  split; [|intros ->; by rewrite bool_decide_eq_true_2]. rewrite Hw. case_bool_decide as E; [by rewrite E; unfold spec_base; rewrite Hw|]. unfold ShellSplit, ShellJoin. rewrite to_valid_joined, split_shellJoin.
  clear E. induction Hv as [|w l Hw' _ IH]; [done|]. cbn. by rewrite to_valid_id, IH.
Qed.
End Disclosed.

(** ** The scorer keeps its promise to the driver *)

Section Promise.
Context {dg : Digest}.
Variable order : list Lang.
Variable P : PluginOps.
Variable rangeMap : gmap string (list string) → list (string * list string).
Hypothesis rangeMap_perm : ∀ m, rangeMap m ≡ₚ map_to_list m.
Variable s : JailScorer.
Variables codePath code test testCmd : string.
Variable cmdFor : option (Mutant → MutantCommand).
(** What the jail and the clock answer at the [n]th question of the driver, and how an error reads. *)
Variable ans : nat → RunReq → RunRes.
Variable clock : nat → nat → Z.
Variable text : ScoreErr → string.
Definition jail_score (n : nat) (ms : list Mutant) : result string Report :=
  let '(scoreBase, cmd) := scoreWorkspace order P s codePath test testCmd in
  match (exec (ans n) (clock n) 0 (Score (js_Kind s) scoreBase codePath code ms (words cmd) (WithCommandFor cmdFor (gatedScoreOpts order P s codePath scoreBase)) rangeMap)).2 with
  | Ok rep => Ok rep
  | Err e => Err (text e)
  end.
(** The pool's scorer accounts for every mutant: run over any jail and any clock, it is a scorer of the kind the driver's sums are proved for. *)
Theorem jail_score_accounts : AccountsForAll jail_score.
Proof.
  intros n ms rep. unfold jail_score. destruct (scoreWorkspace _ _ _ _ _ _) as [scoreBase cmd].
  pose proof (Score_runs (js_Kind s) scoreBase codePath code ms (words cmd) (WithCommandFor cmdFor (gatedScoreOpts order P s codePath scoreBase)) rangeMap (ans n) (clock n)) as H. cbn zeta in H.
  destruct (exec _ _ _ _) as [tr [r|e]]; cbn in *; intros [= <-]. by apply (Scored_accounts _ _ _ _ _ _ _ _ rangeMap_perm _ _ H).
Qed.
End Promise.
