(* ===== verification/Exam.v ===== *)
(** * The names of an exam's mutants

    A parser names a response's mutants m1, m2 and so on; the driver puts a shard's index before them and refuses a tool's mutant of a generated
    one's name. So the mutants of an exam that is not a given set have names of their own ([exam_ids_distinct]), as the
    tasks of their writers need. *)
From S2P Require Import Prelude GoLib GoText Float64 Queue Crypto JsonText TestMap Invocations Mutant Hunks Jail Score ScoreFacts Adequacy Verdict Shell Rows Shards Seats Driver DriverFacts.
Local Open Scope string_scope.
Local Open Scope list_scope.
Local Open Scope Z_scope.
Local Open Scope corral_scope.

(** What the parser promises the driver. *)
Class NamesInOrder (parse : string → string → result string (list Mutant)) : Prop :=
  names raw code ms : parse raw code = Ok ms → map mt_ID ms = map mutant_id (seq 1 (length ms)).
(** The parser of internal/testgen, as the driver calls it. *)
Definition testgen_parser `{Digest} (raw code : string) : result string (list Mutant) :=
  match ParseMutantsOutput raw code with Ok ms => Ok ms | Err e => Err (diag_text e) end.
#[export] Instance testgen_names `{Digest} : NamesInOrder testgen_parser.
Proof.
  intros raw code ms. unfold testgen_parser, ParseMutantsOutput. destruct (accounted_all code (blocks_of raw)) as [Hi _ _ _ _ _ _].
  change (foldl _ _ _) with (parseMutantsDiag raw code) in Hi. destruct (parseMutantsDiag raw code) as [out d]. by destruct (diag_Error d); [|intros [= <-]].
Qed.

Section Names.
Variables (A : Answers) (mid : Z).
Context {parser : NamesInOrder (an_ParseMutants A)}.

(** The name a shard's mutant gets. *)
Definition named (shard : option Z) (k : nat) : string :=
  match shard with Some i => "s" +:+ format_int i +:+ "/" +:+ mutant_id k | None => mutant_id k end.
Lemma no_slash i : mem_ascii "/" (format_int i) = false.
Proof. apply format_int_no_char. by intros []. Qed.
Lemma named_inj a b j k : named a j = named b k → a = b ∧ j = k.
Proof.
  destruct a as [i|], b as [i'|]; cbn; [|done|done|by intros ->%mutant_id_inj]. intros [= E].
  pose proof (cut_app "/" _ (mutant_id j) (no_slash i)) as E1. pose proof (cut_app "/" _ (mutant_id k) (no_slash i')) as E2.
  change (cut "/" (format_int i +:+ "/" +:+ mutant_id j) = (format_int i, mutant_id j, true)) in E1. change (format_int i +:+ "/" +:+ mutant_id j = format_int i' +:+ "/" +:+ mutant_id k) in E.
  rewrite E in E1. change (cut "/" (format_int i' +:+ "/" +:+ mutant_id k) = (format_int i', mutant_id k, true)) in E2. rewrite E2 in E1.
  assert (format_int i = format_int i' ∧ mutant_id j = mutant_id k) as [Ei Ej] by (split; congruence). apply mutant_id_inj in Ej. apply format_int_inj in Ei. by subst.
Qed.

(** The names gathered so far are those of the tasks looked at. *)
Definition gathered_ok (seen : list Task) (acc : Gathered) : Prop :=
  let '(ms, gen, _) := acc in gen = list_to_set (map mt_ID ms) ∧ NoDup (map mt_ID ms) ∧
  ∀ id, id ∈ map mt_ID ms → ∃ t k, t ∈ seen ∧ id = named (ShardIndexFromKey (tk_Key t)) k.

Lemma gathered_step seen t acc parsed : gathered_ok seen acc → ShardIndexFromKey (tk_Key t) ∉ map (λ t, ShardIndexFromKey (tk_Key t)) seen →
  map mt_ID parsed = map mutant_id (seq 1 (length parsed)) →
  gathered_ok (seen ++ [t]) (gathered_more acc (map (exam_mutant (ShardIndexFromKey (tk_Key t))) parsed)).
Proof.
  destruct acc as [[ms gen] probed]. intros (-> & Hnd & Hin) Hnew Hp. unfold gathered_more, gathered_ok. cbv beta iota zeta.
  assert (map mt_ID (map (exam_mutant (ShardIndexFromKey (tk_Key t))) parsed) = map (named (ShardIndexFromKey (tk_Key t))) (seq 1 (length parsed))) as E.
  { rewrite map_map. transitivity (map (λ id, match ShardIndexFromKey (tk_Key t) with Some i => "s" +:+ format_int i +:+ "/" +:+ id | None => id end) (map mt_ID parsed)).
    - rewrite map_map. apply map_ext. intros m. by destruct (ShardIndexFromKey _).
    - rewrite Hp, map_map. apply map_ext. intros k. by destruct (ShardIndexFromKey _). }
  rewrite map_app, E, list_to_set_app_L. split_and!; [done| |].
  - apply NoDup_app. split_and!; [done| |apply NoDup_fmap_2; [intros i j H; by apply named_inj in H as [_ ?]|apply NoDup_seq]].
    intros id (t' & k & Ht & ->)%Hin (k' & Hk & _)%list_elem_of_fmap. apply named_inj in Hk as [Hk _]. apply Hnew. rewrite <- Hk. apply list_elem_of_fmap. by exists t'.
  - intros id [(t' & k & Ht & ->)%Hin|(k & -> & _)%list_elem_of_fmap]%elem_of_app; [exists t', k|exists t, k]; (split; [apply elem_of_app|done]); [by left|right; by left].
Qed.
Lemma gathered_weaken seen t acc : gathered_ok seen acc → gathered_ok (seen ++ [t]) acc.
Proof.
  destruct acc as [[ms gen] probed]. intros (? & ? & Hin). split_and!; [done|done|]. intros id (t' & k & ? & ?)%Hin. exists t', k. split; [apply elem_of_app; by left|done].
Qed.

Lemma gather_one_names seen acc t w : gathered_ok seen acc → ShardIndexFromKey (tk_Key t) ∉ map (λ t, ShardIndexFromKey (tk_Key t)) seen →
  post (gather_one A acc t) (λ acc' w', gathered_ok (seen ++ [t]) acc' ∧ rn_spec (dw_run w') = rn_spec (dw_run w)) (λ _, True) w.
Proof.
  intros Hok Hnew. unfold gather_one. steps. case_bool_decide; [steps; split; [by apply gathered_weaken|done]|].
  destruct (an_ParseMutants A _ _) as [parsed|why] eqn:Ep; [steps; split; [apply gathered_step; [done|done|by eapply names]|done]|].
  steps. destruct (_ <=? _); steps; [done|]. split; [by apply gathered_weaken|done].
Qed.

(** The tools' mutants have names of their own, as the start of the run has checked. *)
Lemma check_tools_ok srcs ms given given' : check_tools srcs ms given = Ok given' → NoDup (map mt_ID ms) ∧ ∀ id, id ∈ map mt_ID ms → id ∉ given.
Proof.
  revert given. induction ms as [|m ms IH]; intros given; cbn [check_tools map].
  - intros _. split; [constructor|by intros ? ?%elem_of_nil].
  - case_bool_decide as Hin; [done|]. destruct (srcs !! _); [|done]. destruct (negb _); [done|]. intros (Hnd & Hg)%IH. split.
    + constructor; [intros Hm; apply (Hg _ Hm); set_solver|done].
    + intros id [->|Hid]%elem_of_cons; [done|]. specialize (Hg id Hid). set_solver.
Qed.
Lemma check_sources_tools sp : checkMutantSources sp = Ok () → NoDup (map mt_ID (default [] (sp_ToolMutants sp))).
Proof.
  unfold checkMutantSources. destruct (_ && _); [done|]. destruct (check_tools _ _ _) as [given|] eqn:E; [|done]. intros _. by apply check_tools_ok in E as [? _].
Qed.

(** C7. The mutants of an exam have names of their own, when the generators' tasks are of different shards, the run's sources were checked at its start and
    the set is not a given one: whatever the models wrote, no two mutants gathered share a name, so no two survivors' writers share a task's key;
    and the names recorded as generated are those of the generators' mutants and no tool's. *)
Theorem exam_ids_distinct w ms gen probed total w' : gather A mid w = (Ok (Some ((ms, gen, probed), total)), w') →
  sp_PresetMutants (rn_spec (dw_run w)) = None → checkMutantSources (rn_spec (dw_run w)) = Ok () →
  NoDup (map (λ t, ShardIndexFromKey (tk_Key t)) (tasksByRole mid RoleMutantGenerator (dw_q w))) →
  NoDup (map mt_ID ms) ∧ NoDup (map TestWriterTaskKey (map mt_ID ms)) ∧
  ∃ generated, ms = generated ++ default [] (sp_ToolMutants (rn_spec (dw_run w))) ∧ gen = list_to_set (map mt_ID generated) ∧ ∀ id, id ∈ map mt_ID (default [] (sp_ToolMutants (rn_spec (dw_run w)))) → id ∉ gen.
Proof.
  intros E Hpre Hsrc Hnd. assert (post (gather A mid) (λ res _, ∀ ms gen probed total, res = Some ((ms, gen, probed), total) → NoDup (map mt_ID ms) ∧ ∃ generated,
    ms = generated ++ default [] (sp_ToolMutants (rn_spec (dw_run w))) ∧ gen = list_to_set (map mt_ID generated) ∧ ∀ id, id ∈ map mt_ID (default [] (sp_ToolMutants (rn_spec (dw_run w)))) → id ∉ gen) (λ _, True) w) as H.
  - unfold gather. steps. rewrite Hpre. steps. set (mgs := tasksByRole _ _ _) in *. destruct (_ || _); [by steps|]. steps.
    eapply post_mono; [apply (post_each _ (λ rest acc w1, ∃ seen, mgs = seen ++ rest ∧ gathered_ok seen acc ∧ rn_spec (dw_run w1) = rn_spec (dw_run w)) (λ _, True))| |done].
    + intros t rest acc w1 (seen & Em & Hok & Hsp). rewrite Em, map_app in Hnd. apply NoDup_app in Hnd as (_ & Hd & _).
      eapply post_mono; [apply (gather_one_names seen acc t w1 Hok)| |done].
      * intros Hin. apply (Hd _ Hin). by left.
      * intros acc' w2 [Hok' Hsp']. exists (seen ++ [t]). rewrite <- app_assoc. split_and!; [done|done|congruence].
    + exists []. split_and!; [done| |done]. split_and!; [done|constructor|by intros ? ?%elem_of_nil].
    + intros [[gs gen'] pr] w1 (seen & _ & (-> & Hg & _) & Hsp). cbn beta iota zeta. destruct (List.find _ _) as [m|] eqn:Ef; steps; [done|]. intros ms' gen'' pr' tot [= <- <- _ _].
      assert (∀ id, id ∈ map mt_ID (default [] (sp_ToolMutants (rn_spec (dw_run w)))) → id ∉ (list_to_set (map mt_ID gs) : gset string)) as Hno.
      { intros id (m & -> & Hm)%list_elem_of_fmap Hin. eapply find_none in Ef; [|by apply list_elem_of_In]. by apply bool_decide_eq_false in Ef. }
      split; [|by exists gs]. rewrite map_app. apply NoDup_app. split_and!; [done| |by apply check_sources_tools]. intros id Hid Htool. apply (Hno id Htool). by apply elem_of_list_to_set.
  - unfold post in H. rewrite E in H. destruct (H _ _ _ _ eq_refl) as [Hms Hgen]. split_and!; [done| |done]. apply NoDup_fmap_2; [|done]. intros x y Hxy. by apply (f_equal (drop_str 12)) in Hxy.
Qed.
End Names.
