(* ===== verification/DriverSamples.v ===== *)
(** * A run of the pool, from its start to its verdict

    A generator writes three mutants, the developer's tests kill one, and each survivor gets a writer: one proves its survivor, the other's test does not
    kill. The theorems at this history; then what the code does when the survivors' writers cannot be enqueued: the run goes on with the first one, and
    its verdict says that no seat was left ungraded. *)
From S2P Require Import Prelude GoLib GoText Float64 Queue QueueFacts Crypto TestMap Invocations Mutant Hunks Jail Score ScoreFacts Adequacy Verdict Shell Rows Shards Seats Driver DriverFacts DriverCosts Exam.
From stdpp Require Import relations.
Import Toy.
Local Open Scope string_scope.
Local Open Scope list_scope.
Local Open Scope Z_scope.

(** What the generator writes, and how it is read. *)
Definition source : string := "x<1+2".
Definition edits : list (string * string) := [("<", "<="); ("+", "-"); ("x", "y")].
Definition preamble : string := "Three mutations:" +:+ nl.
Definition written_by_model : string := preamble +:+ response 1 edits.
Lemma sole_by_cut (m : Mutant) original pre post : mt_Search m ≠ "" → str_index (mt_Search m) original = Some (String.length pre) → original = pre +:+ mt_Search m +:+ post →
  str_contains (mt_Search m) (drop_str (String.length pre + 1) original) = false → mt_Search m ≠ mt_Replace m → sole_edit m original pre post.
Proof.
  intros Hs Hi Ho Hn Hc. split_and!; [done|done|]. apply str_index_Some in Hi as (pre1 & post1 & E & Hl & Hmin).
  refine (proj1 (second_occurrence _ _ pre post Hs Ho Hmin) Hn).
Qed.
Lemma parse_reads_back_witness : String.length written_by_model = 198%nat ∧
  parseMutantsDiag (preamble +:+ response 1 edits) source =
    (imap (λ i h, hunk_of source (mutant_id (S i)) h.1 h.2 (EditSpan source h.1 h.2)) edits, let n := Z.of_nat (length edits) in mkDiag n n 0 0 0 0 0 0).
Proof.
  split; [vm_compute; reflexivity|]. apply (parse_reads_back preamble edits source); [vm_compute; reflexivity|by repeat constructor|].
  repeat (apply Forall_cons; split); [..|constructor]; (split; [done|]);
    [exists "x", "1+2"|exists "x<1", "2"|exists "", "<1+2"]; by apply sole_by_cut.
Defined.
Definition three : list Mutant := parseMutants written_by_model source.
(** A suite that kills these of the mutants. *)
Definition report (kills : list string) (ms : list Mutant) : Report :=
  let dead := List.filter (λ id, bool_decide (id ∈ kills)) (map mt_ID ms) in
  let alive := List.filter (λ id, negb (bool_decide (id ∈ kills))) (map mt_ID ms) in
  mkReport true true "" [] 0 false false 0 NoNote (Z.of_nat (length dead + length alive)) dead alive [] ∅ [] ∅ [] ∅ 0 0 0.

(** The developer's tests kill the first mutant, the test "kills m2" the second. *)
Definition answers : Answers :=
  mkAnswers testgen_parser (λ raw, raw) (λ _ _, None) false
    (λ _ ms, Ok (report ["m1"] ms)) (λ _ test ms _, Ok (report (if String.eqb test "kills m2" then ["m2"] else []) ms, false))
    (λ _ ms _, Ok (report [] ms)) (λ _ _, "") (λ _ _, Ok (true, "")) (λ _ _, "") "go" None (λ _, None)
    (Some (λ parts, Ok (String.concat ";" (map ap_Source parts)))) (λ _ _, Ok (7, "head"))
    (λ p, match p with PSurvivor m _ _ _ => "prove " +:+ mt_ID m | _ => "work" end).
Definition roster : gmap string string := {[RoleMutantGenerator := "gen"; RoleTestWriter := "wri"]}.
Definition config : Config := mkConfig roster (round53 1 4) (of_int 0) 3 100 true.
Definition ticks (i : nat) : double := of_int (Z.of_nat i).
Definition the_spec : Spec := mkPoolSpec "a.go" source "a_test.go" "test" "go test ./..." "per-survivor" (mkRunSpec 3 0 0 0 1) None None None.

Definition none_yet : Driver := mkDriver empty_store ∅ ∅ ∅ 0 0.
Definition start (sp : Spec) : Driver := (StartRun answers config ticks None 1 0 sp [] none_yet).2.
Definition tick (now : Z) (d : Driver) : Driver := (Tick answers config ticks 1 now d).2.
(** Every ready task is done, with an answer for its instruction. *)
Definition serve (reply : Task → string) (d : Driver) : Driver :=
  mkDriver (with_tasks (dr_q d) (map (λ t, if has_status StatusReady t then set_done (reply t) (of_int 0) t else t) (st_tasks (dr_q d)))) (dr_runs d) (dr_noProgress d) (dr_last d)
    (dr_calls d) (dr_clock d).
Definition reply (t : Task) : string :=
  if String.eqb (ts_Role (tk_Spec t)) RoleMutantGenerator then written_by_model else if String.eqb (ts_Instruction (tk_Spec t)) "prove m2" then "kills m2" else "kills nothing".
Definition asked_for : Driver := serve reply (tick 1 (start the_spec)).
Definition exam_graded : Driver := tick 2 asked_for.
Definition written : Driver := serve reply exam_graded.

Example seats_open : map tk_Key (st_tasks (dr_q exam_graded)) = ["mutant-generator"; "test-writer"; "test-writer/m2"; "test-writer/m3"].
Proof. vm_compute. reflexivity. Qed.

Definition said {X} (f : PoolVerdict → X) (r : result DriverErr (option PoolVerdict) * Driver) : option X :=
  match r.1 with Ok (Some v) => Some (f v) | _ => None end.
Example one_proven : said (λ v, (vr_Status v, vr_ProvenMutantIDs v, map mr_ID (vr_DevKilledMutants v), map mr_ID (vr_DevSurvivedMutants v))) (Tick answers config ticks 1 3 written) =
  Some (StatusCertified, ["m2"], ["m1"], ["m2"; "m3"]).
Proof. vm_compute. reflexivity. Qed.

(** ** The theorems at this run *)

Local Abbreviation history := (rtc (dstep answers config ticks)).
Lemma reach_start sp : history none_yet (start sp).
Proof. apply rtc_once, ds_start. Qed.
Lemma reach_tick now d : history none_yet d → history none_yet (tick now d).
Proof. intros H. eapply rtc_r; [exact H|apply ds_tick]. Qed.
Lemma reach_serve d : history none_yet d → history none_yet (serve reply d).
Proof. intros H. eapply rtc_r; [exact H|apply ds_queue]. Qed.
Lemma reach_written : history none_yet written.
Proof. apply reach_serve, reach_tick, reach_serve, reach_tick, reach_start. Qed.

Definition decided : result DriverErr (option PoolVerdict) * Driver := Tick answers config ticks 1 3 written.
Lemma decided_some : ∃ v, decided = (Ok (Some v), decided.2) ∧ vr_ProvenMutantIDs v = ["m2"] ∧ vd_MutantsTotal (vr_gate v) = 3 ∧ vr_RecordID v = 7 ∧ vd_DevScored (vr_gate v) = true.
Proof.
  assert (∃ v, decided.1 = Ok (Some v) ∧ vr_ProvenMutantIDs v = ["m2"] ∧ vd_MutantsTotal (vr_gate v) = 3 ∧ vr_RecordID v = 7 ∧ vd_DevScored (vr_gate v) = true) as (v & E & H)
    by (eexists; split; [vm_compute; reflexivity|vm_compute; repeat split]).
  exists v. split; [|exact H]. transitivity (decided.1, decided.2); [apply surjective_pairing|by rewrite E].
Qed.

Lemma verdict_honest_witness : ∃ v d', Tick answers config ticks 1 3 written = (Ok (Some v), d') ∧ vr_ProvenMutantIDs v = ["m2"] ∧
  ∃ r, dr_runs written !! 1 = Some r ∧ honest answers config (rn_spec r) v.
Proof.
  destruct decided_some as (v & E & Hp & _). exists v, decided.2. split; [exact E|]. split; [exact Hp|].
  exact (verdict_honest answers config ticks none_yet written eq_refl reach_written 1 3 v decided.2 E).
Defined.

(** A later start of the mission is refused, a queue emptied, a tick long after the deadline: the verdict is the same. *)
Definition much_later : Driver := let d := (StartRun answers config ticks None 1 50 the_spec [] decided.2).2 in
  mkDriver empty_store (dr_runs d) (dr_noProgress d) (dr_last d) (dr_calls d) (dr_clock d).
Lemma verdict_final_witness : ∃ v, Tick answers config ticks 1 3 written = (Ok (Some v), decided.2) ∧ vr_RecordID v = 7 ∧
  (Tick answers config ticks 1 1000 much_later).1 = Ok (Some v) ∧ dr_runs (Tick answers config ticks 1 1000 much_later).2 = dr_runs much_later ∧
  dr_q (Tick answers config ticks 1 1000 much_later).2 = dr_q much_later.
Proof.
  destruct decided_some as (v & E & _ & _ & Hid & _). exists v. split; [exact E|]. split; [exact Hid|].
  apply (verdict_final answers config ticks none_yet written eq_refl reach_written 1 3 v decided.2 much_later 1000 E).
  eapply rtc_l; [apply (ds_start _ _ _ None 1 50 the_spec [])|]. eapply rtc_l; [apply (ds_queue _ _ _ empty_store)|]. apply rtc_refl.
Defined.

(** *** What it costs *)

(** A worker does the tasks that are ready: of the generator's first two results nothing can be read, and no test compiles. *)
Definition picky : Answers :=
  mkAnswers testgen_parser (λ raw, raw) (λ _ _, Some (mkCompileFailure "syntax error" None)) false (an_ScoreDev answers) (an_ScoreAuthored answers)
    (an_ScoreReport answers) (λ _ _, "") (λ _ _, Ok (true, "")) (λ _ _, "") "go" None (λ _, None) None (λ _ _, Ok (7, "head")) (an_render answers).
Definition attempt_at (now : Z) (t : Task) : string :=
  if String.eqb (ts_Role (tk_Spec t)) RoleMutantGenerator then if now <? 3 then "no mutants" else written_by_model else "a test".
Definition works (now : Z) (q : Store) : Store :=
  let claimed := OpClaim "bee" "box" [] (of_int 60) (of_int now) (of_int now) in
  match ClaimNextAs "bee" "box" [] (of_int 60) (of_int now) (of_int now) q with
  | (Some (t, _), _) => run_op (OpComplete (tk_ID t) "bee" (attempt_at now t) (of_int now)) (run_op claimed q)
  | (None, _) => q
  end.
(** Ticks, and two tasks done after each. *)
Fixpoint campaign (n : nat) (now : Z) (d : Driver) : list event :=
  match n with
  | O => []
  | S n => let tick := ETick 1 now in let d := happen picky config ticks tick d in
      let done := EQueue (works now (works now (dr_q d))) in tick :: done :: campaign n (now + 1) (happen picky config ticks done d)
  end.
Lemma wf_works now q : wf q → wf (works now q).
Proof. intros Hw. unfold works. destruct (ClaimNextAs _ _ _ _ _ _ _) as [[[t b]|] q']; [|done]. by do 2 apply wf_op. Qed.
Lemma campaign_sound n : ∀ now d, all_ok picky config d → wf (dr_q d) → Forall sound_event (campaign n now d).
Proof.
  induction n as [|n IH]; intros now d Hok Hw; [constructor|]. cbn [campaign]. set (e := ETick 1 now). destruct (event_pays picky config ticks 1 e d Hok Hw I) as [Hw' _].
  assert (all_ok picky config (happen picky config ticks e d)) as Hok' by (by eapply step_ok; [apply (happen_step picky config ticks)|]).
  apply Forall_cons; split; [done|]. apply Forall_cons; split; [by do 2 apply wf_works|]. apply IH; [done|by do 2 apply wf_works].
Qed.
Definition begin : event := EStart None 1 0 the_spec [].
Definition trying : list event := begin :: campaign 8 1 (happen picky config ticks begin none_yet).
(** Two retries of the generator, and three tasks for each of the two survivors: the bounds are reached. *)
Lemma retries_bounded_witness : spent picky config ticks (opened_again 1 "mutant-generator") 1 trying none_yet = 2%nat ∧ spent picky config ticks issued 1 trying none_yet = 6%nat ∧
  ∃ r, dr_runs (DriverCosts.history picky config ticks trying none_yet) !! 1 = Some r ∧ test_budget r = 6 ∧
  (∀ key, Z.of_nat (spent picky config ticks (opened_again 1 key) 1 trying none_yet) <= MaxShardRetries) ∧ Z.of_nat (spent picky config ticks issued 1 trying none_yet) <= test_budget r.
Proof.
  split; [vm_compute; reflexivity|]. split; [vm_compute; reflexivity|].
  assert (∃ r, dr_runs (DriverCosts.history picky config ticks trying none_yet) !! 1 = Some r ∧ test_budget r = 6) as (r & Er & Eb) by (eexists; split; vm_compute; reflexivity).
  exists r. split; [exact Er|]. split; [exact Eb|].
  apply (retries_bounded picky config ticks 1 trying none_yet r); [reflexivity|split; constructor| |exact Er].
  assert (all_ok picky config none_yet) as Hok by (intros k x E; cbn in E; by rewrite lookup_empty in E).
  apply Forall_cons; split; [exact I|]. apply campaign_sound; [by eapply step_ok; [apply (happen_step picky config ticks)|]|].
  by apply (event_pays picky config ticks 1 begin none_yet Hok); [split; constructor|].
Defined.

Lemma deadline_ends_witness : ∃ r, dr_runs exam_graded !! 1 = Some r ∧ wr_Order (rn_writer r) = ["m2"; "m3"] ∧
  let '(res, d') := Tick answers config ticks 1 200 exam_graded in
  dr_q d' = dr_q exam_graded ∧ dr_calls d' = (if dc_Signer config then S (dr_calls exam_graded) else dr_calls exam_graded) ∧
  ((∃ v, res = Ok (Some v) ∧ vr_TimedOut v = true ∧ vr_Status v = StatusNeedsReview) ∨ dc_Signer config = true ∧ ∃ why, res = Err (SignFailed why)).
Proof.
  assert (∃ r, dr_runs exam_graded !! 1 = Some r) as [r Er] by (eexists; vm_compute; reflexivity). exists r. split; [exact Er|]. split.
  - vm_compute in Er. injection Er as <-. reflexivity.
  - apply (deadline_ends answers config ticks 1 200 exam_graded r Er); vm_compute in Er; injection Er as <-; vm_compute; reflexivity.
Defined.

#[local] Instance answers_account : AccountsForAll (an_ScoreDev answers).
Proof.
  intros n ms rep [= <-]. cbn [rp_Total rp_Killed rp_Survived rp_Invalid rp_Unmeasured rp_CompliantPass rp_CanaryKilled report]. split_and!.
  - done.
  - repeat (apply Forall_cons; split); [apply filter_sublist|apply filter_sublist|apply sublist_nil_l|apply sublist_nil_l|constructor].
  - cbn. rewrite app_nil_r. induction (map mt_ID ms) as [|id l IH]; [done|]. cbn. destruct (bool_decide _); cbn; [by f_equiv|]. rewrite <- Permutation_middle. by f_equiv.
Qed.
Lemma verdict_adds_up_witness : ∃ v, Tick answers config ticks 1 3 written = (Ok (Some v), decided.2) ∧ vd_MutantsTotal (vr_gate v) = 3 ∧
  let killed := map mr_ID (vr_DevKilledMutants v) in let survived := map mr_ID (vr_DevSurvivedMutants v) in
  ∃ n ms rep, an_ScoreDev answers n ms = Ok rep ∧ killed ⊆ map mt_ID ms ∧ survived ⊆ map mt_ID ms ∧ (NoDup (map mt_ID ms) → NoDup (killed ++ survived)) ∧
  (NoDup (map mt_ID ms) → ∀ id, id ∈ vr_ProvenMutantIDs v → id ∈ survived ∧ id ∉ killed) ∧
  if vr_BaselineFailed v || vr_SuiteIgnoresFile v && negb (bool_decide (ms = []))
  then killed ++ survived = [] ∧ vd_DevKillRate (vr_gate v) = of_int 0
  else vd_MutantsTotal (vr_gate v) = Z.of_nat (length killed + length survived) ∧
    vd_DevKillRate (vr_gate v) = if vd_MutantsTotal (vr_gate v) =? 0 then of_int 0 else fdiv (of_int (Z.of_nat (length killed))) (of_int (vd_MutantsTotal (vr_gate v))).
Proof.
  destruct decided_some as (v & E & _ & Ht & _ & Hs). exists v. split; [exact E|]. split; [exact Ht|].
  exact (verdict_adds_up answers config ticks none_yet written 1 3 v decided.2 eq_refl reach_written E Hs).
Defined.

(** The tick after the generator is done gathers its mutants. *)
Definition at_gathering (r : runState) : DW := mkDW (dr_q asked_for) r 0 "" 0 0.
Lemma exam_ids_distinct_witness : ∃ r ms gen probed total w', dr_runs asked_for !! 1 = Some r ∧ map mt_ID ms = ["m1"; "m2"; "m3"] ∧
  gather answers 1 (at_gathering r) = (Ok (Some ((ms, gen, probed), total)), w') ∧
  NoDup (map mt_ID ms) ∧ NoDup (map TestWriterTaskKey (map mt_ID ms)) ∧
  ∃ generated, ms = generated ++ default [] (sp_ToolMutants (rn_spec r)) ∧ gen = list_to_set (map mt_ID generated) ∧ ∀ id, id ∈ map mt_ID (default [] (sp_ToolMutants (rn_spec r))) → id ∉ gen.
Proof.
  assert (∃ r ms gen probed total w', dr_runs asked_for !! 1 = Some r ∧ map mt_ID ms = ["m1"; "m2"; "m3"] ∧ gather answers 1 (at_gathering r) = (Ok (Some ((ms, gen, probed), total)), w') ∧
    sp_PresetMutants (rn_spec r) = None ∧ checkMutantSources (rn_spec r) = Ok () ∧ map (λ t, ShardIndexFromKey (tk_Key t)) (tasksByRole 1 RoleMutantGenerator (dr_q asked_for)) = [None])
    as (r & ms & gen & probed & total & w' & Er & Em & Eg & Ep & Ec & Ek).
  { eexists. exists three. do 4 eexists. split; [vm_compute; reflexivity|]. split; [vm_compute; reflexivity|]. split; [vm_compute; reflexivity|]. split_and!; vm_compute; reflexivity. }
  exists r, ms, gen, probed, total, w'. split; [exact Er|]. split; [exact Em|]. split; [exact Eg|].
  apply (exam_ids_distinct answers 1 (at_gathering r) ms gen probed total w' Eg Ep Ec). change (dw_q (at_gathering r)) with (dr_q asked_for). rewrite Ek. repeat constructor. by intros ?%elem_of_nil.
Defined.

(** ** Writers that cannot be enqueued *)

(** A set that names two mutants the same, as a replayed one may: both survive, their writers' tasks would have one key, and the enqueueing fails. The
    survivors' first writer is seated already; no later tick tries the others again. *)
Definition twice : Spec := mkPoolSpec "a.go" source "a_test.go" "test" "go test ./..." "per-survivor" (mkRunSpec 3 0 0 0 1)
  (Some (three ++ [mkMutant "m3" "" (mkLineRange 1 1) "1" "0"])) None None.
Definition seatless : result DriverErr (option PoolVerdict) * Driver := Tick answers config ticks 1 1 (start twice).
Example enqueue_refused : match seatless.1 with Err (QueueFailed _) => True | _ => False end.
Proof. vm_compute. exact I. Qed.
Example one_seat_certifies : said (λ v, (vr_Status v, vr_ProvenMutantIDs v, map mr_ID (vr_DevSurvivedMutants v), vr_WriterSeatsUngraded v))
    (Tick answers config ticks 1 3 (serve reply (tick 2 seatless.2))) = Some (StatusCertified, ["m2"], ["m2"; "m3"; "m3"], 0).
Proof. vm_compute. reflexivity. Qed.
