(* ===== verification/GateSamples.v ===== *)
(** * A repository's file graded by an authored test

    One Python file with a developer's test and an authored one: where the test goes, what compiles it, what it proves, and what is
    said of the commands, with the theorems of GateFacts applied. *)
From S2P Require Import Prelude GoLib GoText Crypto JsonText TestMap Float64 Driver DriverFacts Invocations Select Mutant Jail Score ScoreFacts Adequacy AdequacySamples Paths Pairing PairingFacts Languages Hunks Shell Argv Gate GateFacts.
Local Open Scope string_scope.
Local Open Scope list_scope.
Local Open Scope Z_scope.

Definition repo : gmap string string := {[ "a.py" := src; "tests/test_a.py" := "assert f(1, 2)"; "tests/test_a_corral.py" := "already here" ]}.
Definition py_ops : PluginOps := mkOps (λ _, ∅) (λ _, ["pytest"]) (λ _ code test, [["mypy"]; ["py_compile"; code; test]]) (λ _ _ _ cmd, Some cmd)
  (λ row, mkRunner (rw_ID row) None (Some (λ base ids, Some (Some (words base ++ ids)))) None None None None None).
Definition no_landing : AuthoredLanding := mkAuthored zero_landing "".
Definition nothing : Selection := only_base None.
Definition no_map : Map := mkMap 0 "" "" [] [] "" "" 0 ∅ ∅ [] "".
Definition grader : JailScorer := mkScorer (mkJailKind true false) "" (Some repo) 0 "tests/test_a.py" no_landing "python" nothing no_map 1 None None None.
Definition the_path : string := "tests/test_a_corral1.py".

Example named : AuthoredTestPath registry grader "a.py" = the_path ∧ markStem "test_a.py" "a" "_corral" = Some "test_a_corral.py" ∧
  markStem "foo_test.go" "go" "_corral" = None ∧ markStem "login_test.go" "st" "_corral" = None ∧ markStem "calc.spec.js" "calc" "_corral" = Some "calc_corral.spec.js".
Proof. vm_compute. done. Qed.
(** The name an error message gives is that of a file the repository already has. *)
Example named_otherwise : AuthoredTestPathFor registry no_landing "a.py" "tests/test_a.py" = "tests/test_a_corral.py" ∧ AuthoredTestPath registry grader "a.py" = the_path.
Proof. vm_compute. done. Qed.
Lemma authored_path_safe_witness : CheckTestLanding registry "a.py" zero_landing = Ok () ∧ authoredTestPath registry no_landing "a.py" "tests/test_a.py" repo = the_path ∧ the_path ≠ "a.py" ∧ repo !! the_path = None.
Proof.
  assert (CheckTestLanding registry "a.py" zero_landing = Ok ()) as E by (vm_compute; reflexivity). split; [exact E|].
  assert (authoredTestPath registry no_landing "a.py" "tests/test_a.py" repo = the_path) as Ep by (vm_compute; reflexivity). split; [exact Ep|].
  pose proof (authored_path_safe registry "a.py" zero_landing "" "tests/test_a.py" repo (or_introl eq_refl) E) as [H1 H2].
  unfold no_landing in Ep. rewrite Ep in H1. split; [exact H1|]. cbn [la_Into zero_landing] in H2. rewrite Ep in H2. destruct H2 as [H2|H2]; [vm_compute in H2; discriminate H2|exact (proj2 (proj2 H2))].
Defined.

(** ** Compiled, then graded *)

Definition the_test : string := "assert f(1, 1) == False".
Definition validator : JailValidator := mkValidator true "" (Some repo) "tests/test_a.py" no_landing.
Lemma compiled_is_graded_witness : CheckTestLanding registry "a.py" zero_landing = Ok () ∧
  overlay no_landing (<["a.py" := src]> repo) the_path the_test = files_with (authored_base registry py_ops grader "a.py" the_test "pytest") "a.py" src.
Proof.
  assert (CheckTestLanding registry "a.py" zero_landing = Ok ()) as E by (vm_compute; reflexivity). split; [exact E|].
  assert (validator_path registry validator "a.py" = the_path) as Ep by (vm_compute; reflexivity). rewrite <- Ep.
  exact (compiled_is_graded registry py_ops grader validator repo "a.py" src the_test "pytest" LangPython eq_refl eq_refl eq_refl eq_refl (or_introl eq_refl) E).
Defined.

(** A checker that finds a fault in the source, whatever the test; and a compiler that accepts the test. *)
Definition checkers (q : RunReq) : RunRes :=
  match rq_Cmd q with ["mypy"] => mkRunRes false "a.py:1: error" None | _ => mkRunRes true "" None end.
Definition compile : Prog (result CompileErr ()) := CompileTest registry py_ops validator "a.py" src the_test.
Lemma CompileTest_sound_witness : (exec checkers ticks 0 compile).2 = Ok () ∧ runs (exec checkers ticks 0 compile).1 = 3%nat ∧
  ∀ cmd, cmd ∈ [["mypy"]; ["py_compile"; "a.py"; the_path]] →
    acquits validator (exec checkers ticks 0 compile).1 (overlay no_landing (<["a.py" := src]> repo) the_path the_test) (<["a.py" := src]> repo) the_path cmd.
Proof.
  assert ((exec checkers ticks 0 compile).2 = Ok ()) as E by (vm_compute; reflexivity). split; [exact E|]. split; [vm_compute; reflexivity|].
  pose proof (CompileTest_sound registry py_ops validator "a.py" src the_test (exec checkers ticks 0 compile).1 (exec checkers ticks 0 compile).2 (exec_Runs checkers ticks compile 0)) as H.
  assert (pluginFor registry "a.py" = Some LangPython) as Epl by (vm_compute; reflexivity). rewrite Epl in H. cbv zeta in H.
  assert (validator_path registry validator "a.py" = the_path) as Ep by (vm_compute; reflexivity). rewrite Ep in H.
  assert (compileCheckFor py_ops LangPython (jv_RepoDir validator) "a.py" the_path = [["mypy"]; ["py_compile"; "a.py"; the_path]]) as Es by (vm_compute; reflexivity). rewrite Es, E in H.
  exact H.
Defined.

(** ** What it proves *)

(** The developer's tests never call the function with equal numbers; the authored one does. *)
Definition suite2 (q : RunReq) : RunRes :=
  match rq_Files q !! "a.py", rq_Files q !! the_path with
  | Some code, Some t =>
      if String.eqb t CanaryCode || String.eqb code CanaryCode then mkRunRes false "" None
      else mkRunRes (negb (String.eqb code "return a <= b" && String.eqb t the_test)) "" None
  | _, _ => mkRunRes true "" None
  end.
Definition authored_scoring : Prog (result ScoreErr Report) :=
  @Score Toy.digest (mkJailKind true false) (authored_base registry py_ops grader "a.py" the_test "pytest") "a.py" src [m_missed] ["pytest"] (WithCommandFor None (baseScoreOpts grader)) map_to_list.
Definition authored_report : Report := report_of (exec suite2 ticks 0 authored_scoring).2.
Definition authored_did : list Event :=
  (exec suite2 ticks 0 authored_scoring).1 ++ [control_run registry grader "a.py" (Some ["pytest"]) (mkRunRes false "" None)].
Lemma authored_scored : @ScoreAuthoredReport Toy.digest registry py_ops map_to_list grader "a.py" src the_test [m_missed] "pytest" authored_did (Ok (authored_report, false)).
Proof.
  unfold ScoreAuthoredReport. assert (authored_plan registry py_ops grader "a.py" the_test "pytest" = (Some ["pytest"], None)) as -> by (vm_compute; reflexivity).
  exists (exec suite2 ticks 0 authored_scoring).1, (exec suite2 ticks 0 authored_scoring).2.
  split; [apply (@Score_runs Toy.digest)|]. assert ((exec suite2 ticks 0 authored_scoring).2 = Ok authored_report) as -> by (vm_compute; reflexivity).
  assert (bool_decide (is_Some (js_BaseFiles grader)) && (0 <? rp_Total authored_report) = true) as -> by (vm_compute; reflexivity).
  exists [control_run registry grader "a.py" (Some ["pytest"]) (mkRunRes false "" None)], (Ok true). split_and!; [|reflexivity|reflexivity].
  exists (mkRunRes false "" None), []. split; [reflexivity|split; reflexivity].
Qed.
Lemma authored_kill_witness : rp_Killed authored_report = ["m2"] ∧ ∃ t r, authored_did = t ++ [control_run registry grader "a.py" (Some ["pytest"]) r] ∧ reacted r.
Proof.
  split; [vm_compute; reflexivity|].
  assert ("m2" ∈ rp_Killed authored_report) as Hk by (vm_compute; left).
  destruct (@authored_kill Toy.digest registry py_ops map_to_list map_to_list_perm grader "a.py" src the_test [m_missed] "pytest" authored_did authored_report false "m2" authored_scored
    (ltac:(eexists; reflexivity)) (ltac:(vm_compute; reflexivity)) Hk) as [_ H].
  assert (authored_plan registry py_ops grader "a.py" the_test "pytest" = (Some ["pytest"], None)) as E by (vm_compute; reflexivity). rewrite E in H.
  destruct H as (t1 & t2 & t3 & r & su & m0 & m & mcode & c & Ht & Hr & _). exists (t1 ++ t2 ++ t3), r. split; [exact Ht|exact Hr].
Defined.

(** ** A file the suite never reaches, its paired test and the authored one run alone *)

Definition uncovered : Selection := mkSelection (Some ["pytest"; "-q"]) None [] MethodCoverageContext 9 "" None [] [] [] ∅.
Definition py_map : Map := mkMap 2 "python" "pytest" ["pytest"] [] "" MethodCoverageContext 9 ∅ ∅ [] "".
Definition selecting : JailScorer := mkScorer (mkJailKind true false) "" (Some repo) 0 "tests/test_a.py" no_landing "python" uncovered py_map 1 None None None.
(** With a selection of tests, the run shown to a writer whose test fails is not the run of the authored pass: the developer's tests ride along. *)
Definition covered : Selection := mkSelection (Some ["pytest"; "-q"]) (Some ["pytest"; "-q"; "tests/test_a.py::t"]) ["tests/test_a.py::t"] MethodCoverageContext 9 "" None [] [] [] ∅.
Definition covering : JailScorer := mkScorer (mkJailKind true false) "" (Some repo) 0 "tests/test_a.py" no_landing "python" covered py_map 1 None None None.
Example feedback_of_another_run : authoredCmd registry py_ops covering "a.py" (Some ["pytest"]) = Some ["pytest"; "-q"; "tests/test_a.py::t"; the_path] ∧
  (authored_plan registry py_ops covering "a.py" the_test "pytest").1 = Some ["pytest"; "-q"; the_path].
Proof. vm_compute. done. Qed.
Definition spec : GateSpec := mkGateSpec "a.py" "tests/test_a.py" "pytest -q 'tests'" no_landing the_path uncovered py_map "" "python".
Lemma disclosure_exact_witness : selectionDisclosure registry py_ops spec = (None, None, true) ∧ dev_argv py_ops spec = Some ["pytest"; "-q"; "tests/test_a.py"] ∧
  authored_plan registry py_ops selecting "a.py" the_test (gs_TestCmd spec) = (Some ["pytest"; "-q"; the_path], Some (λ _, mkMutantCommand ["pytest"; "-q"; the_path] 1 RuleAuthoredAlone)) ∧
  ∃ r, selectionRowErr py_ops "python" uncovered py_map = Ok r.
Proof.
  assert (selectionDisclosure registry py_ops spec = (None, None, true)) as E by (vm_compute; reflexivity). split; [exact E|].
  pose proof (disclosure_exact registry py_ops selecting spec "a.py" the_test (ltac:(eexists; reflexivity)) eq_refl eq_refl eq_refl eq_refl (ltac:(vm_compute; reflexivity)) (ltac:(discriminate))) as H.
  rewrite E in H. destruct H as [_ H]. split; [vm_compute; reflexivity|]. split; [vm_compute; reflexivity|].
  destruct H as (r & Hr & _); [discriminate|]. exists r. exact Hr.
Defined.
Lemma DevCommand_runs_witness : DevCommand py_ops spec = "'pytest' '-q' 'tests/test_a.py'" ∧
  words (scoreWorkspace registry py_ops selecting "a.py" the_test (DevCommand py_ops spec)).2 = ["pytest"; "-q"; "tests/test_a.py"].
Proof.
  split; [vm_compute; reflexivity|].
  destruct (DevCommand_runs registry py_ops selecting spec "a.py" the_test (ltac:(eexists; reflexivity))) as [H _]; [vm_compute; repeat constructor|]. exact H.
Defined.
Lemma jail_score_accounts_witness : (∀ m : gmap string (list string), map_to_list m ≡ₚ map_to_list m) ∧
  AccountsForAll (@jail_score Toy.digest registry py_ops map_to_list grader "a.py" src the_test "pytest" None (λ _, suite2) (λ _, ticks) (λ _, "failed")).
Proof.
  split; [exact map_to_list_perm|].
  exact (@jail_score_accounts Toy.digest registry py_ops map_to_list map_to_list_perm grader "a.py" src the_test "pytest" None (λ _, suite2) (λ _, ticks) (λ _, "failed")).
Defined.
